(* ===== verification/_CoqProject ===== *)
-Q . S2P
Prelude.v
Coding.v
Logging.v
Status.v
Comparator.v
Dbformat.v
Crc32c.v
Filter.v
FilterBlock.v
Random.v
Arena.v
SkipList.v
MemTable.v
WriteBatch.v
Env.v
Filename.v
VersionEdit.v
Log.v
Merkle.v
Version.v
VersionSet.v
Recovery.v
Snapshot.v
Compaction.v
Iterator.v
MemIter.v
World.v
TwoLevel.v
Merger.v
Block.v
Format.v
TableBuilder.v
Cache.v
LRU.v
LRULists.v
LRUShard.v
ShardedCache.v
LRURun.v
Table.v
TableWrite.v
TableFile.v
TableRead.v
TableCache.v
TableIter.v
DBIter.v
VersionIter.v
DB.v
DBRead.v
Obsolete.v
Install.v
Store.v
DBFlush.v
DBCompact.v
DBWrite.v
WriteQueue.v
Background.v
DBOpen.v
Reopen.v
Repair.v
Sizes.v
