(* ===== verification/Prelude.v ===== *)
(** * eLSM-P2: verification of the authenticated LSM store

    eLSM-P2 is a log-structured merge tree (a LevelDB fork, src/Enclave/leveldb)
    that runs inside an SGX enclave and stores its tables on an untrusted disk,
    with a Merkle tree over the records of every table that leaves the memtable.
    This library is a shallow embedding of the store: pure code is a function,
    stateful code passes its state, code that can fail an assertion or read
    outside a buffer returns [option], and I/O goes through records of
    operations with classes of laws.

    ** The program and its parts

    A write is a batch ([WriteBatch]) applied to the memtable ([MemTable]), a
    skip list ([SkipList]) over an arena ([Arena]). A full memtable is written to
    a table file by [BuildTable] ([Merkle], [TableBuilder]). The tables of one
    moment form a version ([Version]); a change of the set of tables is an edit
    ([VersionEdit]) that [LogAndApply] appends to the MANIFEST ([VersionSet],
    [Log]) and that [Recover] replays. Compactions ([Compaction]) merge tables
    into the next level. A read asks the memtable, the memtable being written
    out, and the tables of the current version through the table cache and the
    block cache ([DBRead], [TableCache], [Cache]), at the sequence number of a
    snapshot ([Snapshot]).

    ** Files (paths below src/Enclave/leveldb)

    Shared: [Prelude] - bytes, machine integers, lists, tactics; [Coding]
    (util/coding.cpp), [Logging] (util/logging.cpp), [Status] (util/status.cpp),
    [Comparator] (slice.h, comparator.h, util/comparator.cpp), [Dbformat]
    (db/dbformat.cpp), [Crc32c] (util/crc32c.cpp), [Filter] (util/bloom.cpp,
    util/hash.cpp), [FilterBlock] (table/filter_block.cpp), [Random]
    (util/random.h), [Arena] (util/arena.cpp).

    Memory and log: [SkipList] (db/skiplist.h), [MemTable] (db/memtable.cpp),
    [WriteBatch] (db/write_batch.cpp), [Env] (env.h, util/env.cpp), [Filename]
    (db/filename.cpp), [Log] (db/log_writer.cpp, db/log_reader.cpp).

    Versions: [VersionEdit] (db/version_edit.cpp), [Version], [VersionSet],
    [Compaction] and [VersionIter] (db/version_set.cpp), [Recovery] (what
    LogAndApply and Recover do together).

    Tables: [Merkle] (db/builder.cpp), [Block] (table/block.cpp,
    table/block_builder.cpp), [Format] (table/format.cpp), [TableBuilder]
    (table/table_builder.cpp), [Table] (table/table.cpp), [TableCache]
    (db/table_cache.cpp), with [TableWrite], [TableFile], [TableRead] for what
    is written and read back.

    Caches: [Cache] (cache.h), [LRU] and [ShardedCache] (util/cache.cpp), with
    [LRULists], [LRUShard] and [LRURun] for what its pointers represent.

    Iterators: [Iterator] and [World] (iterator.h, table/iterator.cpp,
    iterator_wrapper.h), [MemIter] (db/memtable.cpp), [TwoLevel]
    (table/two_level_iterator.cpp), [Merger] (table/merger.cpp), [TableIter]
    (table/table.cpp, db/table_cache.cpp), [DBIter] (db/db_iter.cpp).

    Database: [Snapshot] (db/snapshot.h), [DB] (db/db_impl.h), [DBRead] (the
    read path of db/db_impl.cpp), [Obsolete] and [Install] (which entries and
    files a compaction replaces), [Store] (options.h and the outside world),
    [DBFlush] (db/builder.cpp; flushes and obsolete files of db_impl.cpp),
    [DBCompact] (the background thread), [DBWrite] (Write, BuildBatchGroup,
    MakeRoomForWrite), [WriteQueue] (their runs), [Background] (what the
    background thread leaves alone), [DBOpen] (NewDB, Recover, RecoverLogFile,
    DB::Open, DestroyDB), [Reopen] (what Open makes of what a crash leaves),
    [Repair] (db/repair.cpp), [Sizes] (GetApproximateSizes).

    ** What the theorems show

    - Encodings ([Coding], [Logging], [Dbformat], [VersionEdit], [Filename]): the
      parsers invert the printers, reject what is cut and never read outside.
    - Orders and filters: internal keys are totally ordered and a lookup key
      splits the history of a user key at its snapshot; a filter answers yes for
      every key it was built from.
    - Memory: the skip list refines a sorted sequence, the memtable returns the
      newest entry a snapshot sees, a batch is applied entry by entry.
    - Log: every prefix of a log file reads back as a prefix of the records.
    - Tables: blocks and tables read back what was added; the Merkle paths stored
      by BuildTable verify against the root, and a forged record that verifies
      is a collision of the CMAC.
    - Caches: the LRU cache, with its hash tables and rings of pointers, keeps the
      laws of [Cache] that the readers rely on ([lru_cache_implements]), evicts
      the oldest entries first, and its counters stay in their widths.
    - Versions: the builder makes the version an edit describes; LogAndApply
      switches atomically; after any crash Recover rebuilds a logged version; a
      lookup in a version returns the newest entry; the inputs of a compaction
      are closed under overlap in the next level. [move_reorders_user_key] shows
      a case where taking one file of a level is not enough.
    - Reads: the iterators of blocks, tables, levels, merges and the database are
      proved against one interface ([IteratorMSpec]); [db_scan] and [db_get] give
      what a read of the whole database returns.

    - Compactions: the entries kept answer every snapshot still in use as all of
      them do, and the version with the outputs in place of the inputs is again
      well-formed ([compaction_invisible]); no file in use is removed
      ([obsolete_files_safe]).
    - Writes: the calls of Write are threads of a step system. Every run is a
      sequential log of groups ([writes_serialised]), every writer returns once
      there is room ([writers_return]), background work is invisible to them
      ([background_undisturbed]), and nothing is written to the log
      ([writes_not_logged]).
    - Opening: DB::Open after a crash restores the last version that was logged,
      or refuses because a table is missing ([reopen_restores]); a log with
      batches, cut anywhere, is replayed into a memtable ([log_replayed]). An
      empty directory becomes an empty database ([open_creates]), the MANIFEST
      of a repair opens with its tables ([repaired_opens]), and DestroyDB
      removes the files of the database and no others ([destroy_removes]).

    ** Interfaces and parameters

    Code that is not in the sources is a parameter: the CMAC of the SGX library,
    snappy, the file system behind [Env] and [NewRandomAccessFile]. Their
    documented behaviour is a class ([EnvLaws], [SnappyLaws], [files_ok]); the
    memory file system [MemEnv] and concrete functions are instances used by the
    witnesses. [Cache] with [CacheLaws], [Comparator] with [ComparatorLaws],
    [FilterPolicy] with [FilterPolicyLaws] and [IteratorM] with [IteratorMSpec]
    are the interfaces between components.

    ** Bounds and fuel

    Integers are [Z]; [u32] and [u64] write out the wrap-around where the code
    can reach it, [fits w z] bounds a w-bit value. Sums of file sizes,
    statistics and the counters of the LRU cache are not wrapped;
    [lru_counters_fit] bounds the latter. Loops that are not structural take fuel: the
    binary searches the size of what they search, parsers the length of their
    input, iterators the number of entries; the theorems show that the fuel
    given is enough, so [None] never stands for a lack of fuel in them.
    [triple ginv k] counts how many tables a computation may open, because the
    64-bit ids of the block cache are used up. The loop of a compaction takes a
    bound on the entries of its input; the theorems on it hold for every bound.

    ** Threads

    A method of DBImpl that releases the mutex takes the computation [others]:
    what other threads do in the meantime. In [DBWrite] the steps of the calls
    of Write interleave freely, with changes by others between any two of them.

    ** Not modelled

    The POSIX environment, threads, atomics and the mutex (what it protects is
    one record); manual compactions (CompactRange waits on the identity of an object on the
    caller's stack) and GetProperty (floating-point reports); the C bindings; the
    enclave entry points and the host application; benchmarks and the YCSB
    driver. The reference counts of memtables and files only decide when memory
    is freed. *)

From Stdlib Require Export ZArith Lia List Bool Sorting.Sorted Sorting.Permutation Strings.Byte.
From stdpp Require Export base list gmap strings.

#[global] Open Scope Z_scope.

(** ** Bytes *)

(** A [char] array, [std::string] or [Slice] of the source. *)
Abbreviation bytes := (list byte).

(** [static_cast<unsigned char>] read as an integer. *)
Definition b2z (b : byte) : Z := Z.of_N (Byte.to_N b).

(** Conversion of an integer to [unsigned char]: truncation to eight bits. *)
Definition z2b (z : Z) : byte :=
  match Byte.of_N (Z.to_N (z mod 256)) with
  | Some b => b
  | None => x00
  end.

(** A [char] is signed. *)
Definition schar (b : byte) : Z := if b2z b <? 128 then b2z b else b2z b - 256.

(** A string literal of the source. *)
Definition lit (s : string) : bytes := String.list_byte_of_string s.

(** The length of a string as the source's [size_t]. *)
Definition zlen {A} (l : list A) : Z := Z.of_nat (length l).

(** ** Machine integers *)

Definition u8 (z : Z) : Z := z mod 2 ^ 8.
Definition u32 (z : Z) : Z := z mod 2 ^ 32.
Definition u64 (z : Z) : Z := z mod 2 ^ 64.

Definition fits (w z : Z) : Prop := 0 <= z < 2 ^ w.

#[global] Instance byte_eq_dec : EqDecision byte := Byte.byte_eq_dec.

Lemma b2z_range b : 0 <= b2z b < 256.
Proof. unfold b2z. pose proof (Byte.to_N_bounded b). lia. Qed.

Lemma z2b_b2z b : z2b (b2z b) = b.
Proof.
  unfold z2b. rewrite Z.mod_small by apply b2z_range.
  unfold b2z. rewrite N2Z.id, Byte.of_to_N. reflexivity.
Qed.

#[global] Instance byte_countable : Countable byte := inj_countable' b2z z2b z2b_b2z.

Lemma b2z_z2b z : b2z (z2b z) = z mod 256.
Proof.
  unfold z2b, b2z. pose proof (Z.mod_pos_bound z 256 ltac:(lia)).
  destruct (Byte.of_N (Z.to_N (z mod 256))) eqn:E.
  - apply Byte.to_of_N in E. rewrite E. lia.
  - apply Byte.of_N_None_iff in E. lia.
Qed.

Lemma z2b_congr a b : a mod 256 = b mod 256 -> z2b a = z2b b.
Proof. unfold z2b. by intros ->. Qed.

Lemma b2z_small z : 0 <= z < 256 -> b2z (z2b z) = z.
Proof. intros. rewrite b2z_z2b. by apply Z.mod_small. Qed.

Lemma b2z_inj a b : b2z a = b2z b -> a = b.
Proof. intros H. rewrite <- (z2b_b2z a), <- (z2b_b2z b). by rewrite H. Qed.

(** ** Bitwise reasoning *)

Lemma testbit_small n z i : 0 <= z < 2 ^ n -> 0 <= n <= i -> Z.testbit z i = false.
Proof.
  intros Hz Hi. rewrite <- (Z.mod_small z (2 ^ n)) by lia.
  apply Z.mod_pow2_bits_high. lia.
Qed.

Lemma testbit_mul_pow2 z n i : 0 <= n -> 0 <= i ->
  Z.testbit (z * 2 ^ n) i = (n <=? i) && Z.testbit z (i - n).
Proof.
  intros Hn Hi. rewrite <- Z.shiftl_mul_pow2 by lia. rewrite Z.shiftl_spec by lia.
  destruct (Z.leb_spec n i); simpl; [reflexivity|].
  rewrite Z.testbit_neg_r by lia. reflexivity.
Qed.

(** Disjoint bit ranges: bitwise or is addition. *)
Lemma lor_add_disjoint a b n : 0 <= n -> 0 <= a < 2 ^ n ->
  Z.lor a (b * 2 ^ n) = a + b * 2 ^ n.
Proof.
  intros Hn Ha. rewrite <- Z.lxor_lor.
  2: { apply Z.bits_inj'. intros i Hi. rewrite Z.land_spec, Z.bits_0.
       rewrite testbit_mul_pow2 by lia. destruct (Z.leb_spec n i); simpl.
       - rewrite (testbit_small n) by lia. reflexivity.
       - apply andb_false_r. }
  symmetry. apply Z.add_nocarry_lxor. apply Z.bits_inj'. intros i Hi.
  rewrite Z.land_spec, Z.bits_0. rewrite testbit_mul_pow2 by lia.
  destruct (Z.leb_spec n i); simpl.
  - rewrite (testbit_small n) by lia. reflexivity.
  - apply andb_false_r.
Qed.

Lemma land_ones_mod z n : 0 <= n -> Z.land z (2 ^ n - 1) = z mod 2 ^ n.
Proof. intros Hn. rewrite <- Z.land_ones by lia. f_equal. rewrite Z.ones_equiv. lia. Qed.

Lemma pow2_pos n : 0 <= n -> 0 < 2 ^ n.
Proof. intros. apply Z.pow_pos_nonneg; lia. Qed.

(** Case analysis on every decidable test in sight, closing arithmetic. *)
Ltac zcases :=
  repeat match goal with
  | |- context [Z.ltb ?a ?b] => destruct (Z.ltb_spec a b)
  | |- context [Z.leb ?a ?b] => destruct (Z.leb_spec a b)
  | |- context [Z.eqb ?a ?b] => destruct (Z.eqb_spec a b)
  end.

(** ** Three-way comparisons

    [Compare] of the source returns an [int] of which only the sign is used;
    it is modelled by [comparison]. A comparison is usable when it is a
    total preorder: distinct strings may compare equal. *)

Class TotalCmp {A} (cmp : A -> A -> comparison) : Prop := {
  cmp_refl : forall x, cmp x x = Eq;
  cmp_opp : forall x y, cmp y x = CompOpp (cmp x y);
  cmp_lt_trans : forall x y z, cmp x y = Lt -> cmp y z = Lt -> cmp x z = Lt;
  cmp_eq_l : forall x y z, cmp x y = Eq -> cmp x z = cmp y z
}.

Arguments cmp_refl {A} cmp {_} x.
Arguments cmp_opp {A} cmp {_} x y.
Arguments cmp_lt_trans {A} cmp {_} x y z _ _.
Arguments cmp_eq_l {A} cmp {_} x y z _.

Definition is_lt (c : comparison) : bool := match c with Lt => true | _ => false end.

Lemma is_lt_true c : is_lt c = true <-> c = Lt.
Proof. destruct c; split; done. Qed.
Definition is_gt (c : comparison) : bool := match c with Gt => true | _ => false end.
Definition is_eq (c : comparison) : bool := match c with Eq => true | _ => false end.

Lemma is_eq_true c : is_eq c = true <-> c = Eq.
Proof. by destruct c. Qed.

Create HintDb cmp.

Section cmp_lemmas.
Context {A : Type} (cmp : A -> A -> comparison) `{!TotalCmp cmp}.

Lemma cmp_gt_lt x y : cmp x y = Gt <-> cmp y x = Lt.
Proof. rewrite (cmp_opp cmp x y). destruct (cmp x y); split; done. Qed.

Lemma cmp_eq_sym x y : cmp x y = Eq -> cmp y x = Eq.
Proof. intros H. by rewrite (cmp_opp cmp x y), H. Qed.

Lemma cmp_eq_r x y z : cmp x y = Eq -> cmp z x = cmp z y.
Proof. intros H. rewrite (cmp_opp cmp x z), (cmp_opp cmp y z). by rewrite (cmp_eq_l cmp x y z H). Qed.

Lemma cmp_eq_trans x y z : cmp x y = Eq -> cmp y z = Eq -> cmp x z = Eq.
Proof. intros H1 H2. by rewrite (cmp_eq_l cmp x y z H1). Qed.

Lemma cmp_lt_le_trans x y z : cmp x y = Lt -> cmp y z <> Gt -> cmp x z = Lt.
Proof.
  intros H1 H2. destruct (cmp y z) eqn:E; [|by eapply (cmp_lt_trans cmp)|done].
  by rewrite <- (cmp_eq_r y z x E).
Qed.

Lemma cmp_le_lt_trans x y z : cmp x y <> Gt -> cmp y z = Lt -> cmp x z = Lt.
Proof.
  intros H1 H2. destruct (cmp x y) eqn:E; [|by eapply (cmp_lt_trans cmp)|done].
  by rewrite (cmp_eq_l cmp x y z E).
Qed.

Lemma cmp_le_trans x y z : cmp x y <> Gt -> cmp y z <> Gt -> cmp x z <> Gt.
Proof.
  intros H1 H2. destruct (cmp x y) eqn:E; [by rewrite (cmp_eq_l cmp x y z E)| |done].
  rewrite (cmp_lt_le_trans x y z E H2). done.
Qed.

Lemma cmp_not_gt_le x y : cmp x y <> Gt <-> cmp y x <> Lt.
Proof. rewrite (cmp_opp cmp x y). destruct (cmp x y); split; done. Qed.

Lemma cmp_lt_irrefl x : cmp x x <> Lt.
Proof. by rewrite (cmp_refl cmp). Qed.

Lemma cmp_lt_not_gt x y : cmp x y = Lt -> cmp x y <> Gt.
Proof. by intros ->. Qed.
End cmp_lemmas.

#[export] Hint Resolve cmp_lt_trans cmp_lt_le_trans cmp_le_lt_trans cmp_le_trans
  cmp_eq_sym cmp_eq_trans cmp_lt_not_gt : cmp.

(** ** Exclusive or *)

Lemma testbit_mod z w i : 0 <= w -> 0 <= i ->
  Z.testbit (z mod 2 ^ w) i = (i <? w) && Z.testbit z i.
Proof.
  intros Hw Hi. destruct (Z.ltb_spec i w); simpl.
  - by apply Z.mod_pow2_bits_low.
  - apply Z.mod_pow2_bits_high. lia.
Qed.

Lemma fits_bitwise op w a b : 0 <= w ->
  (forall i, 0 <= i -> Z.testbit a i = false -> Z.testbit b i = false -> Z.testbit (op a b) i = false) ->
  fits w a -> fits w b -> fits w (op a b).
Proof.
  unfold fits. intros Hw Hop Ha Hb. pose proof (pow2_pos w Hw).
  replace (op a b) with (op a b mod 2 ^ w); [by apply Z.mod_pos_bound|].
  apply Z.bits_inj'. intros i Hi. rewrite testbit_mod by lia.
  destruct (Z.ltb_spec i w); simpl; [done|].
  symmetry. apply Hop; [lia| |]; apply (testbit_small w); lia.
Qed.

Lemma lxor_fits w a b : 0 <= w -> fits w a -> fits w b -> fits w (Z.lxor a b).
Proof.
  intros Hw. apply (fits_bitwise Z.lxor); [done|]. intros i _ E1 E2.
  by rewrite Z.lxor_spec, E1, E2.
Qed.

Lemma lor_fits w a b : 0 <= w -> fits w a -> fits w b -> fits w (Z.lor a b).
Proof.
  intros Hw. apply (fits_bitwise Z.lor); [done|]. intros i _ E1 E2.
  by rewrite Z.lor_spec, E1, E2.
Qed.

(** Equations between exclusive ors, decided bit by bit. *)
Ltac xor_solve :=
  apply Z.bits_inj'; intros ?i ?Hi; rewrite ?Z.lxor_spec, ?Z.bits_0;
  repeat match goal with |- context [Z.testbit ?a ?i] =>
    match a with Z.lxor _ _ => fail 1 | _ => destruct (Z.testbit a i) end end;
  reflexivity.

(** The equation of [fold_left], to rewrite without unfolding the step function. *)
Lemma fold_left_cons {A B} (f : A -> B -> A) b bs a :
  fold_left f (b :: bs) a = fold_left f bs (f a b).
Proof. reflexivity. Qed.

(** ** Chunks laid out one after the other *)

(** The offset at which each chunk starts, the first one at [o]. *)
Fixpoint offsets {A} (o : Z) (chunks : list (list A)) : list Z :=
  match chunks with
  | [] => []
  | c :: chunks => o :: offsets (o + zlen c) chunks
  end.

Lemma zlen_app {A} (a b : list A) : zlen (a ++ b) = zlen a + zlen b.
Proof. unfold zlen. rewrite length_app. lia. Qed.

Lemma zlen_nonneg {A} (a : list A) : 0 <= zlen a.
Proof. unfold zlen. lia. Qed.

Lemma zlen_nil {A} : zlen (@nil A) = 0.
Proof. reflexivity. Qed.

Lemma zlen_cons {A} (x : A) a : zlen (x :: a) = 1 + zlen a.
Proof. unfold zlen. cbn [length]. lia. Qed.

Lemma to_nat_zlen {A} (a : list A) : Z.to_nat (zlen a) = length a.
Proof. unfold zlen. lia. Qed.

Lemma offsets_app {A} (a b : list (list A)) o :
  offsets o (a ++ b) = offsets o a ++ offsets (o + zlen (concat a)) b.
Proof.
  revert o. induction a as [|c a IH]; intros o; cbn [offsets app concat].
  - f_equal. rewrite zlen_nil. lia.
  - rewrite IH, zlen_app. do 3 f_equal. lia.
Qed.

Lemma length_offsets {A} (cs : list (list A)) o : length (offsets o cs) = length cs.
Proof. revert o. induction cs as [|c cs IH]; intros o; cbn; [done|]. by rewrite IH. Qed.

Lemma offsets_lookup {A} (cs : list (list A)) : forall o i, (i < length cs)%nat ->
  offsets o cs !! i = Some (o + zlen (concat (take i cs))).
Proof.
  induction cs as [|c cs IH]; intros o i Hi; cbn in Hi; [lia|].
  destruct i as [|i]; cbn [offsets take concat].
  - rewrite zlen_nil, Z.add_0_r. done.
  - cbn. rewrite IH, zlen_app by lia. f_equal. lia.
Qed.

(** A chunk read back at its offset. *)
Lemma chunk_at {A} (cs : list (list A)) i c rest : cs !! i = Some c ->
  take (length c) (drop (length (concat (take i cs))) (concat cs ++ rest)) = c.
Proof.
  intros Hi. rewrite <- (take_drop_middle cs i c Hi) at 2. rewrite concat_app, <- !app_assoc.
  rewrite drop_app_length. cbn [concat]. rewrite <- app_assoc. by rewrite take_app_length.
Qed.

Lemma concat_take_S {A} (cs : list (list A)) i c : cs !! i = Some c ->
  concat (take (S i) cs) = concat (take i cs) ++ c.
Proof.
  intros Hi. rewrite (take_S_r _ _ _ Hi), concat_app. cbn. by rewrite app_nil_r.
Qed.

Lemma concat_take_le {A} (cs : list (list A)) i : zlen (concat (take i cs)) <= zlen (concat cs).
Proof.
  rewrite <- (take_drop i cs) at 2. rewrite concat_app, zlen_app.
  pose proof (zlen_nonneg (concat (drop i cs))). lia.
Qed.

(** ** The last element, with a default *)

Lemma last_cons_default {A} (l : list A) : forall y a, List.last (y :: l) a = List.last l y.
Proof.
  induction l as [|z l IH]; intros y a; [done|]. rewrite (IH z y). exact (IH z a).
Qed.

Lemma last_elem_of {A} (l : list A) a : List.last l a ∈ a :: l.
Proof.
  destruct l as [|z l _] using rev_ind; [by left|]. rewrite List.last_last.
  right. apply elem_of_app. right. by left.
Qed.

(** An order pulled back along a function. *)
#[global] Instance TotalCmp_pull {A B} (cmp : B -> B -> comparison) (f : A -> B) :
  TotalCmp cmp -> TotalCmp (fun a b => cmp (f a) (f b)).
Proof.
  intros H. split; intros.
  - apply (cmp_refl cmp).
  - apply (cmp_opp cmp).
  - by eapply (cmp_lt_trans cmp).
  - by eapply (cmp_eq_l cmp).
Qed.

Lemma u32_small z : 0 <= z < 2 ^ 32 -> u32 z = z.
Proof. apply Z.mod_small. Qed.

Lemma u64_small z : 0 <= z < 2 ^ 64 -> u64 z = z.
Proof. apply Z.mod_small. Qed.

(** ** Sorted lists *)

Lemma ssorted_app {A} (R : A -> A -> Prop) a b :
  StronglySorted R (a ++ b) <-> StronglySorted R a /\ StronglySorted R b /\ forall x y, x ∈ a -> y ∈ b -> R x y.
Proof.
  induction a as [|z a IH]; cbn.
  { split; [intros H; split; [constructor|]; split; [done|]; by intros x y ?%not_elem_of_nil|by intros (_ & ? & _)]. }
  split.
  - intros [Hs Hz]%StronglySorted_inv. apply Forall_app in Hz as [Hza Hzb]. apply IH in Hs as (Ha & Hb & Hab). split; [by constructor|]. split; [done|].
    intros x y [->|Hx]%elem_of_cons Hy; [by eapply Forall_forall in Hzb|by apply Hab].
  - intros ([Ha Hz]%StronglySorted_inv & Hb & Hab). constructor.
    + apply IH. split; [done|]. split; [done|]. intros x y Hx. apply Hab. by right.
    + apply Forall_app. split; [done|]. apply Forall_forall. intros y. apply Hab. by left.
Qed.
