(* ===== verification/Coding.v ===== *)
(** * Endian-neutral encoding: src/Enclave/leveldb/util/coding.{h,cpp}

    Fixed-width and variable-width integers, and length-prefixed strings.
    The [Encode]/[Put] family appends to a byte string; the [Get] family
    parses a value from the front of a [Slice] and returns what is left,
    or fails. *)

From S2P Require Import Prelude.

(** ** Definitions *)

(** [port::kLittleEndian] of the x86 build (port/port_posix.h). *)
Definition kLittleEndian : bool := true.

(** Object representation of an [n]-byte unsigned integer on a
    little-endian machine: what [memcpy] from [&value] copies. *)
Fixpoint le_split (n : nat) (v : Z) : bytes :=
  match n with
  | O => []
  | S n => z2b v :: le_split n (v / 256)
  end.

(** The integer whose little-endian object representation is [l]. *)
Fixpoint le_combine (l : bytes) : Z :=
  match l with
  | [] => 0
  | b :: l => b2z b + 256 * le_combine l
  end.

(** [ptr[i]] as an unsigned char; callers guarantee the index is in range. *)
Definition uc (p : bytes) (i : nat) : Z := b2z (nth i p x00).

Definition EncodeFixed32_at (little : bool) (value : Z) : bytes :=
  if little then le_split 4 value
  else
    [ z2b (Z.land value 0xff);
      z2b (Z.land (Z.shiftr value 8) 0xff);
      z2b (Z.land (Z.shiftr value 16) 0xff);
      z2b (Z.land (Z.shiftr value 24) 0xff) ].

Definition EncodeFixed64_at (little : bool) (value : Z) : bytes :=
  if little then le_split 8 value
  else
    [ z2b (Z.land value 0xff);
      z2b (Z.land (Z.shiftr value 8) 0xff);
      z2b (Z.land (Z.shiftr value 16) 0xff);
      z2b (Z.land (Z.shiftr value 24) 0xff);
      z2b (Z.land (Z.shiftr value 32) 0xff);
      z2b (Z.land (Z.shiftr value 40) 0xff);
      z2b (Z.land (Z.shiftr value 48) 0xff);
      z2b (Z.land (Z.shiftr value 56) 0xff) ].

Definition EncodeFixed32 (value : Z) : bytes := EncodeFixed32_at kLittleEndian value.
Definition EncodeFixed64 (value : Z) : bytes := EncodeFixed64_at kLittleEndian value.

Definition PutFixed32 (dst : bytes) (value : Z) : bytes := dst ++ EncodeFixed32 value.
Definition PutFixed64 (dst : bytes) (value : Z) : bytes := dst ++ EncodeFixed64 value.

Definition DecodeFixed32_at (little : bool) (ptr : bytes) : Z :=
  if little then le_combine (take 4 ptr)
  else
    Z.lor (uc ptr 0)
      (Z.lor (Z.shiftl (uc ptr 1) 8)
        (Z.lor (Z.shiftl (uc ptr 2) 16) (Z.shiftl (uc ptr 3) 24))).

Definition DecodeFixed64_at (little : bool) (ptr : bytes) : Z :=
  if little then le_combine (take 8 ptr)
  else
    let lo := DecodeFixed32_at little ptr in
    let hi := DecodeFixed32_at little (drop 4 ptr) in
    Z.lor (u64 (Z.shiftl hi 32)) lo.

Definition DecodeFixed32 (ptr : bytes) : Z := DecodeFixed32_at kLittleEndian ptr.
Definition DecodeFixed64 (ptr : bytes) : Z := DecodeFixed64_at kLittleEndian ptr.

(** The bytes [EncodeVarint32] writes; [*(ptr++) = e] truncates [e]. *)
Definition EncodeVarint32 (v : Z) : bytes :=
  let B := 128 in
  if v <? Z.shiftl 1 7 then [z2b v]
  else if v <? Z.shiftl 1 14 then
    [z2b (Z.lor v B); z2b (Z.shiftr v 7)]
  else if v <? Z.shiftl 1 21 then
    [z2b (Z.lor v B); z2b (Z.lor (Z.shiftr v 7) B); z2b (Z.shiftr v 14)]
  else if v <? Z.shiftl 1 28 then
    [z2b (Z.lor v B); z2b (Z.lor (Z.shiftr v 7) B);
     z2b (Z.lor (Z.shiftr v 14) B); z2b (Z.shiftr v 21)]
  else
    [z2b (Z.lor v B); z2b (Z.lor (Z.shiftr v 7) B);
     z2b (Z.lor (Z.shiftr v 14) B); z2b (Z.lor (Z.shiftr v 21) B);
     z2b (Z.shiftr v 28)].

Definition PutVarint32 (dst : bytes) (v : Z) : bytes := dst ++ EncodeVarint32 v.

(** The [while (v >= B)] loop; a 64-bit value leaves it after at most nine
    rounds, so a fuel of ten bytes is never exhausted. *)
Fixpoint EncodeVarint64_loop (fuel : nat) (v : Z) : bytes :=
  match fuel with
  | O => []
  | S fuel =>
      if 128 <=? v
      then z2b (Z.lor (Z.land v 127) 128) :: EncodeVarint64_loop fuel (Z.shiftr v 7)
      else [z2b v]
  end.

Definition EncodeVarint64 (v : Z) : bytes := EncodeVarint64_loop 10 v.
Definition PutVarint64 (dst : bytes) (v : Z) : bytes := dst ++ EncodeVarint64 v.

Definition PutLengthPrefixedSlice (dst value : bytes) : bytes :=
  PutVarint32 dst (u32 (zlen value)) ++ value.

Fixpoint VarintLength_loop (fuel : nat) (v len : Z) : Z :=
  match fuel with
  | O => len
  | S fuel => if 128 <=? v then VarintLength_loop fuel (Z.shiftr v 7) (len + 1) else len
  end.

Definition VarintLength (v : Z) : Z := VarintLength_loop 10 v 1.

(** The decoding loop at width [w]: [fuel] is the number of shifts the
    source's bound allows ([shift <= 28]: five, [shift <= 63]: ten), and the
    bytes of [p] are those in front of [limit]. *)
Fixpoint GetVarint_loop (w : Z) (fuel : nat) (shift result : Z) (p : bytes)
  : option (Z * bytes) :=
  match fuel, p with
  | S fuel, b :: p =>
      let byte := b2z b in
      if negb (Z.land byte 128 =? 0)
      then GetVarint_loop w fuel (shift + 7)
             (Z.lor result (Z.shiftl (Z.land byte 127) shift mod 2 ^ w)) p
      else Some (Z.lor result (Z.shiftl byte shift mod 2 ^ w), p)
  | _, _ => None
  end.

Definition GetVarint32PtrFallback (p : bytes) : option (Z * bytes) :=
  GetVarint_loop 32 5 0 0 p.

(** The inline fast path for one-byte values. *)
Definition GetVarint32Ptr (p : bytes) : option (Z * bytes) :=
  match p with
  | b :: p' =>
      let result := b2z b in
      if Z.land result 128 =? 0 then Some (result, p') else GetVarint32PtrFallback p
  | [] => GetVarint32PtrFallback p
  end.

Definition GetVarint64Ptr (p : bytes) : option (Z * bytes) :=
  GetVarint_loop 64 10 0 0 p.

Definition GetVarint32 (input : bytes) : option (Z * bytes) :=
  match GetVarint32Ptr input with
  | None => None
  | Some (value, q) => Some (value, q)
  end.

Definition GetVarint64 (input : bytes) : option (Z * bytes) :=
  match GetVarint64Ptr input with
  | None => None
  | Some (value, q) => Some (value, q)
  end.

(** The pointer-based overload: the slice and what follows it. *)
Definition GetLengthPrefixedSlicePtr (p : bytes) : option (bytes * bytes) :=
  match GetVarint32Ptr p with
  | None => None
  | Some (len, p) =>
      if zlen p <? len then None
      else Some (take (Z.to_nat len) p, drop (Z.to_nat len) p)
  end.

Definition GetLengthPrefixedSlice (input : bytes) : option (bytes * bytes) :=
  match GetVarint32 input with
  | Some (len, input) =>
      if len <=? zlen input
      then Some (take (Z.to_nat len) input, drop (Z.to_nat len) input)
      else None
  | None => None
  end.

(** ** Fixed-width encodings *)

Lemma length_le_split n v : length (le_split n v) = n.
Proof. revert v. induction n as [|n IH]; intros v; simpl; [reflexivity|]. by rewrite IH. Qed.

Lemma le_combine_split n v : le_combine (le_split n v) = v mod 256 ^ Z.of_nat n.
Proof.
  revert v. induction n as [|n IH]; intros v; cbn [le_split le_combine].
  - change (256 ^ Z.of_nat 0) with 1. rewrite Z.mod_1_r. reflexivity.
  - rewrite IH, b2z_z2b, Nat2Z.inj_succ, Z.pow_succ_r by lia.
    rewrite Z.rem_mul_r; [reflexivity|lia|apply Z.pow_pos_nonneg; lia].
Qed.

Lemma le_combine_range l : 0 <= le_combine l < 256 ^ zlen l.
Proof.
  unfold zlen. induction l as [|b l IH]; cbn [le_combine length]; [lia|].
  rewrite Nat2Z.inj_succ, Z.pow_succ_r by lia. pose proof (b2z_range b). lia.
Qed.

Lemma le_split_combine l : le_split (length l) (le_combine l) = l.
Proof.
  induction l as [|b l IH]; cbn [le_split le_combine length]; [reflexivity|].
  pose proof (b2z_range b).
  replace ((b2z b + 256 * le_combine l) / 256) with (le_combine l)
    by (apply (Z.div_unique _ _ _ (b2z b)); lia).
  rewrite IH. f_equal. rewrite <- (z2b_b2z b) at 2. unfold z2b.
  rewrite Z.mul_comm, Z.mod_add by lia. reflexivity.
Qed.

Lemma EncodeFixed32_length v : length (EncodeFixed32 v) = 4%nat.
Proof. apply length_le_split. Qed.

Lemma EncodeFixed64_length v : length (EncodeFixed64 v) = 8%nat.
Proof. apply length_le_split. Qed.

(** The build's platform takes the [memcpy] branch. *)
Lemma DecodeFixed32_le p : DecodeFixed32 p = le_combine (take 4 p).
Proof. reflexivity. Qed.

Lemma DecodeFixed64_le p : DecodeFixed64 p = le_combine (take 8 p).
Proof. reflexivity. Qed.

Lemma DecodeFixed32_app v rest : DecodeFixed32 (EncodeFixed32 v ++ rest) = u32 v.
Proof.
  rewrite DecodeFixed32_le, take_app_length' by (by rewrite EncodeFixed32_length).
  apply (le_combine_split 4).
Qed.

Lemma DecodeFixed64_app v rest : DecodeFixed64 (EncodeFixed64 v ++ rest) = u64 v.
Proof.
  rewrite DecodeFixed64_le, take_app_length' by (by rewrite EncodeFixed64_length).
  apply (le_combine_split 8).
Qed.

Lemma DecodeFixed32_encode v : DecodeFixed32 (EncodeFixed32 v) = u32 v.
Proof. rewrite <- (app_nil_r (EncodeFixed32 v)). apply DecodeFixed32_app. Qed.

Lemma DecodeFixed64_encode v : DecodeFixed64 (EncodeFixed64 v) = u64 v.
Proof. rewrite <- (app_nil_r (EncodeFixed64 v)). apply DecodeFixed64_app. Qed.

Lemma le_combine_take n p : 0 <= le_combine (take n p) < 256 ^ Z.of_nat n.
Proof.
  pose proof (le_combine_range (take n p)) as H. unfold zlen in H. rewrite length_take in H.
  assert (256 ^ Z.of_nat (n `min` length p) <= 256 ^ Z.of_nat n) by (apply Z.pow_le_mono_r; lia).
  lia.
Qed.

Lemma DecodeFixed32_range p : fits 32 (DecodeFixed32 p).
Proof. apply (le_combine_take 4). Qed.

Lemma DecodeFixed64_range p : fits 64 (DecodeFixed64 p).
Proof. apply (le_combine_take 8). Qed.

(** Re-encoding the eight bytes [DecodeFixed64] read gives them back. *)
Lemma EncodeFixed64_decode p : length p = 8%nat -> EncodeFixed64 (DecodeFixed64 p) = p.
Proof.
  intros Hp. rewrite DecodeFixed64_le, take_ge by lia.
  change (le_split 8 (le_combine p) = p). rewrite <- Hp. apply le_split_combine.
Qed.

Lemma DecodeFixed64_inj p q : length p = 8%nat -> length q = 8%nat ->
  DecodeFixed64 p = DecodeFixed64 q -> p = q.
Proof.
  intros Hp Hq H. rewrite <- (EncodeFixed64_decode p), <- (EncodeFixed64_decode q) by done.
  by rewrite H.
Qed.

Lemma shiftr_byte v k : 0 <= k -> z2b (Z.land (Z.shiftr v k) 0xff) = z2b (v / 2 ^ k).
Proof.
  intros Hk. unfold z2b. rewrite Z.shiftr_div_pow2 by lia.
  change 0xff with (2 ^ 8 - 1). rewrite land_ones_mod by lia.
  change (2 ^ 8) with 256. by rewrite Z.mod_mod by lia.
Qed.

(** The shift-and-mask branch and the [memcpy] branch write the same bytes. *)
Lemma le_split_shifts v :
  EncodeFixed64_at false v = EncodeFixed64_at true v /\
  EncodeFixed32_at false v = EncodeFixed32_at true v.
Proof.
  unfold EncodeFixed64_at, EncodeFixed32_at. cbn [le_split].
  replace (Z.land v 255) with (Z.land (Z.shiftr v 0) 255) by (by rewrite Z.shiftr_0_r).
  rewrite !shiftr_byte by lia. change (2 ^ 0) with 1. rewrite Z.div_1_r.
  rewrite !Z.div_div by lia. split; reflexivity.
Qed.

Lemma lor_byte b r : Z.lor (b2z b) (Z.shiftl r 8) = b2z b + 256 * r.
Proof.
  pose proof (b2z_range b). rewrite Z.shiftl_mul_pow2, lor_add_disjoint by lia. lia.
Qed.

Lemma DecodeFixed32_shifts p : (4 <= length p)%nat ->
  DecodeFixed32_at false p = DecodeFixed32_at true p.
Proof.
  destruct p as [|a [|b [|c [|d p]]]]; simpl length; try lia. intros _.
  unfold DecodeFixed32_at, uc. cbn [nth take firstn le_combine].
  change 24 with (8 + 8 + 8). change 16 with (8 + 8).
  rewrite <- !Z.shiftl_shiftl, <- !Z.shiftl_lor by lia.
  rewrite !lor_byte, take_0. cbn [le_combine]. lia.
Qed.

Lemma le_combine_app l1 l2 :
  le_combine (l1 ++ l2) = le_combine l1 + 256 ^ zlen l1 * le_combine l2.
Proof.
  unfold zlen. induction l1 as [|b l1 IH]; cbn [app le_combine length]; [lia|].
  rewrite IH, Nat2Z.inj_succ, Z.pow_succ_r by lia. lia.
Qed.

Lemma DecodeFixed64_shifts p : (8 <= length p)%nat ->
  DecodeFixed64_at false p = DecodeFixed64_at true p.
Proof.
  intros Hp. unfold DecodeFixed64_at.
  rewrite !DecodeFixed32_shifts by (rewrite ?length_drop; lia).
  pose proof (le_combine_take 4 p) as H1. pose proof (le_combine_take 4 (drop 4 p)) as H2.
  unfold DecodeFixed32_at, u64. change (256 ^ Z.of_nat 4) with (2 ^ 32) in *.
  rewrite Z.shiftl_mul_pow2, Z.mod_small, Z.lor_comm, lor_add_disjoint by lia.
  replace (take 8 p) with (take 4 p ++ take 4 (drop 4 p)) by (by rewrite take_take_drop).
  rewrite le_combine_app. unfold zlen. rewrite length_take, Nat.min_l by lia.
  change (256 ^ Z.of_nat 4) with (2 ^ 32). lia.
Qed.

(** ** Variable-width encodings *)

(** The two byte forms the varint writers emit. *)
Lemma more_byte v : z2b (Z.lor v 128) = z2b (v mod 128 + 128).
Proof.
  apply z2b_congr.
  replace ((v mod 128 + 128) mod 256) with (v mod 128 + 128)
    by (symmetry; apply Z.mod_small; pose proof (Z.mod_pos_bound v 128); lia).
  change 128 with (1 * 2 ^ 7) at 3.
  rewrite <- (lor_add_disjoint (v mod 128)) by (pose proof (Z.mod_pos_bound v 128); lia).
  change 256 with (2 ^ 8). change (v mod 128) with (v mod 2 ^ 7).
  rewrite <- !Z.land_ones by lia.
  apply Z.bits_inj'. intros i Hi.
  rewrite Z.land_spec, !Z.lor_spec, Z.land_spec.
  change (1 * 2 ^ 7) with (2 ^ 7). change 128 with (2 ^ 7).
  rewrite !Z.testbit_ones by lia. rewrite Z.pow2_bits_eqb by lia.
  destruct (Z.testbit v i); zcases; simpl; try lia; reflexivity.
Qed.

Lemma land128_zero b : 0 <= b < 128 -> Z.land b 128 = 0.
Proof.
  intros Hb. apply Z.bits_inj'. intros i Hi. rewrite Z.land_spec, Z.bits_0.
  change 128 with (2 ^ 7). rewrite Z.pow2_bits_eqb by lia.
  destruct (Z.eqb_spec 7 i); [|apply andb_false_r].
  rewrite (testbit_small 7) by lia. reflexivity.
Qed.

Lemma land128_set b : 128 <= b < 256 -> Z.land b 128 <> 0 /\ Z.land b 127 = b - 128.
Proof.
  intros Hb. change 127 with (2 ^ 7 - 1). rewrite land_ones_mod by lia.
  assert (b mod 2 ^ 7 = b - 128).
  { symmetry. apply (Z.mod_unique _ _ 1); lia. }
  split; [|done]. intros H0.
  assert (Z.testbit (Z.land b 128) 7 = true); [|rewrite H0, Z.bits_0 in *; done].
  rewrite Z.land_spec. change 128 with (2 ^ 7). rewrite Z.pow2_bits_true by lia.
  rewrite andb_true_r. rewrite Z.testbit_true by lia.
  replace (b / 2 ^ 7) with 1 by (apply (Z.div_unique _ _ _ (b - 128)); lia). reflexivity.
Qed.

Lemma varint_loop_step v fuel : 128 <= v ->
  EncodeVarint64_loop (S fuel) v = z2b (v mod 128 + 128) :: EncodeVarint64_loop fuel (v / 128).
Proof.
  intros Hv. cbn [EncodeVarint64_loop]. destruct (Z.leb_spec 128 v); [|lia].
  change 127 with (2 ^ 7 - 1). rewrite land_ones_mod, more_byte by lia.
  rewrite Z.mod_mod by lia. rewrite Z.shiftr_div_pow2 by lia. reflexivity.
Qed.

(** Decoding runs back through the bytes the encoding loop wrote. *)
Lemma GetVarint_loop_app w fe fd : forall v shift result rest,
  (fe <= fd)%nat -> 0 <= v < 2 ^ (7 * Z.of_nat fe) -> (1 <= fe)%nat -> 0 <= shift <= w ->
  v < 2 ^ (w - shift) -> 0 <= result < 2 ^ shift ->
  GetVarint_loop w fd shift result (EncodeVarint64_loop fe v ++ rest)
  = Some (result + v * 2 ^ shift, rest).
Proof.
  revert fd. induction fe as [|fe IH]; intros fd v shift result rest Hf Hv H1 Hs Hw Hr; [lia|].
  destruct fd as [|fd]; [lia|].
  assert (Hpow : 2 ^ (w - shift) * 2 ^ shift = 2 ^ w) by (rewrite <- Z.pow_add_r by lia; f_equal; lia).
  pose proof (pow2_pos shift ltac:(lia)).
  destruct (Z.lt_ge_cases v 128) as [Hlt|Hge].
  - cbn [EncodeVarint64_loop]. destruct (Z.leb_spec 128 v); [lia|].
    cbn [app GetVarint_loop]. rewrite b2z_small by lia.
    rewrite land128_zero by lia. simpl.
    rewrite Z.shiftl_mul_pow2, Z.mod_small by nia.
    rewrite lor_add_disjoint by lia. reflexivity.
  - rewrite varint_loop_step by done. cbn [app GetVarint_loop].
    pose proof (Z.mod_pos_bound v 128 ltac:(lia)).
    rewrite b2z_small by lia.
    destruct (land128_set (v mod 128 + 128)) as [Hne ->]; [lia|].
    destruct (Z.eqb_spec (Z.land (v mod 128 + 128) 128) 0); [done|]. simpl.
    pose proof (Z.div_mod v 128 ltac:(lia)) as Hdm.
    assert (7 < w - shift).
    { destruct (Z.lt_ge_cases 7 (w - shift)); [done|].
      assert (2 ^ (w - shift) <= 2 ^ 7) by (apply Z.pow_le_mono_r; lia). lia. }
    replace (v mod 128 + 128 - 128) with (v mod 128) by lia.
    rewrite Z.shiftl_mul_pow2, (Z.mod_small (_ * _)) by nia.
    rewrite lor_add_disjoint by lia.
    rewrite IH.
    + f_equal. f_equal. rewrite Z.pow_add_r by lia. change (2 ^ 7) with 128. nia.
    + lia.
    + replace (7 * Z.of_nat (S fe)) with (7 * Z.of_nat fe + 7) in Hv by lia.
      rewrite Z.pow_add_r in Hv by lia. change (2 ^ 7) with 128 in Hv.
      split; [apply Z.div_pos; lia|]. apply Z.div_lt_upper_bound; lia.
    + destruct fe; [|lia]. change (2 ^ (7 * Z.of_nat 1)) with 128 in Hv. lia.
    + lia.
    + apply Z.div_lt_upper_bound; [lia|].
      replace (w - shift) with (w - (shift + 7) + 7) in Hw by lia.
      rewrite Z.pow_add_r in Hw by lia. change (2 ^ 7) with 128 in Hw. lia.
    + rewrite Z.pow_add_r by lia. change (2 ^ 7) with 128. nia.
Qed.

Lemma varint_loop_last v fuel : 0 <= v < 128 -> EncodeVarint64_loop (S fuel) v = [z2b v].
Proof. intros Hv. cbn [EncodeVarint64_loop]. destruct (Z.leb_spec 128 v); [lia|done]. Qed.

(** A byte cut out of a larger integer, with the continuation bit set. *)
Lemma more_byte_shift v k : 0 <= k ->
  z2b (Z.lor (Z.shiftr v k) 128) = z2b ((v / 2 ^ k) mod 128 + 128).
Proof. intros Hk. by rewrite more_byte, Z.shiftr_div_pow2 by lia. Qed.

(** The unrolled 32-bit encoder writes what the 64-bit loop writes. *)
Lemma EncodeVarint32_loop v : 0 <= v < 2 ^ 32 -> EncodeVarint32 v = EncodeVarint64_loop 10 v.
Proof.
  intros Hv. unfold EncodeVarint32. rewrite !Z.shiftl_1_l.
  rewrite more_byte, !more_byte_shift by lia. rewrite !Z.shiftr_div_pow2 by lia.
  change (2 ^ 21) with (128 * 128 * 128). change (2 ^ 28) with (128 * 128 * 128 * 128).
  change (2 ^ 14) with (128 * 128). change (2 ^ 7) with 128.
  rewrite <- !Z.div_div by lia.
  assert (Hlt : forall a b, 0 < b -> 0 <= a -> (a <? 128 * b) = false -> 128 * b <= a)
    by (intros a b _ _; apply Z.ltb_ge).
  pose proof (Z.div_mod v 128 ltac:(lia)). pose proof (Z.mod_pos_bound v 128 ltac:(lia)).
  set (v1 := v / 128) in *.
  pose proof (Z.div_mod v1 128 ltac:(lia)). pose proof (Z.mod_pos_bound v1 128 ltac:(lia)).
  set (v2 := v1 / 128) in *.
  pose proof (Z.div_mod v2 128 ltac:(lia)). pose proof (Z.mod_pos_bound v2 128 ltac:(lia)).
  set (v3 := v2 / 128) in *.
  pose proof (Z.div_mod v3 128 ltac:(lia)). pose proof (Z.mod_pos_bound v3 128 ltac:(lia)).
  set (v4 := v3 / 128) in *.
  zcases.
  - by rewrite varint_loop_last by lia.
  - rewrite varint_loop_step by lia. fold v1. by rewrite varint_loop_last by lia.
  - rewrite varint_loop_step by lia. fold v1. rewrite varint_loop_step by lia. fold v2.
    by rewrite varint_loop_last by lia.
  - rewrite varint_loop_step by lia. fold v1. rewrite varint_loop_step by lia. fold v2.
    rewrite varint_loop_step by lia. fold v3. by rewrite varint_loop_last by lia.
  - rewrite varint_loop_step by lia. fold v1. rewrite varint_loop_step by lia. fold v2.
    rewrite varint_loop_step by lia. fold v3. rewrite varint_loop_step by lia. fold v4.
    by rewrite varint_loop_last by lia.
Qed.

(** Enough fuel: more fuel changes nothing once the value fits. *)
Lemma varint_loop_fuel n m v : (1 <= n <= m)%nat -> 0 <= v < 2 ^ (7 * Z.of_nat n) ->
  EncodeVarint64_loop m v = EncodeVarint64_loop n v.
Proof.
  revert m v. induction n as [|n IH]; intros m v Hnm Hv; [lia|].
  destruct m as [|m]; [lia|].
  destruct (Z.lt_ge_cases v 128) as [Hlt|Hge]; [by rewrite !varint_loop_last by lia|].
  rewrite !varint_loop_step by lia. f_equal.
  replace (7 * Z.of_nat (S n)) with (7 * Z.of_nat n + 7) in Hv by lia.
  rewrite Z.pow_add_r in Hv by lia. change (2 ^ 7) with 128 in Hv.
  destruct n as [|n]; [simpl in Hv; lia|].
  apply IH; [lia|]. split; [apply Z.div_pos; lia|apply Z.div_lt_upper_bound; lia].
Qed.

Lemma GetVarint32Ptr_fallback p : GetVarint32Ptr p = GetVarint32PtrFallback p.
Proof.
  destruct p as [|b p]; [reflexivity|]. unfold GetVarint32Ptr, GetVarint32PtrFallback.
  cbn [GetVarint_loop]. destruct (Z.eqb_spec (Z.land (b2z b) 128) 0); simpl; [|done].
  pose proof (b2z_range b). rewrite Z.shiftl_0_r, Z.lor_0_l, Z.mod_small; [done|lia].
Qed.

Lemma GetVarint32_app v rest : fits 32 v ->
  GetVarint32 (EncodeVarint32 v ++ rest) = Some (v, rest).
Proof.
  unfold fits. intros Hv. unfold GetVarint32. rewrite GetVarint32Ptr_fallback.
  unfold GetVarint32PtrFallback. rewrite EncodeVarint32_loop by lia.
  rewrite (varint_loop_fuel 5) by (simpl; lia).
  rewrite GetVarint_loop_app by (simpl; lia). simpl. do 2 f_equal. lia.
Qed.

Lemma GetVarint64_app v rest : fits 64 v ->
  GetVarint64 (EncodeVarint64 v ++ rest) = Some (v, rest).
Proof.
  unfold fits. intros Hv. unfold GetVarint64, GetVarint64Ptr, EncodeVarint64.
  rewrite GetVarint_loop_app by (simpl; lia). simpl. do 2 f_equal. lia.
Qed.

Lemma GetLengthPrefixedSlice_app s rest : zlen s < 2 ^ 32 ->
  GetLengthPrefixedSlice (PutLengthPrefixedSlice [] s ++ rest) = Some (s, rest).
Proof.
  intros Hs. unfold PutLengthPrefixedSlice, PutVarint32, u32, zlen in *. simpl app.
  rewrite Z.mod_small by lia. rewrite <- app_assoc. unfold GetLengthPrefixedSlice.
  rewrite GetVarint32_app by (unfold fits; lia). unfold zlen. rewrite length_app.
  destruct (Z.leb_spec (Z.of_nat (length s)) (Z.of_nat (length s + length rest))); [|lia].
  rewrite Nat2Z.id, take_app_length, drop_app_length. reflexivity.
Qed.

Lemma PutLengthPrefixedSlice_app dst s :
  PutLengthPrefixedSlice dst s = dst ++ PutLengthPrefixedSlice [] s.
Proof. unfold PutLengthPrefixedSlice, PutVarint32. by rewrite <- app_assoc. Qed.

(** Parsing never reads past the input: what is left is a strict suffix, and
    the value fits the width. *)
Lemma GetVarint_loop_suffix w fuel shift result p v q :
  0 <= w -> fits w result ->
  GetVarint_loop w fuel shift result p = Some (v, q) ->
  (exists c, p = c ++ q /\ c <> [] /\ (length c <= fuel)%nat) /\ fits w v.
Proof.
  unfold fits. intros Hw. revert shift result p. induction fuel as [|fuel IH];
    intros shift result p Hr H; [done|]. destruct p as [|b p]; [done|].
  cbn [GetVarint_loop] in H. pose proof (pow2_pos w Hw) as Hpw.
  assert (Hlor : forall x, fits w (Z.lor result (x mod 2 ^ w))).
  { intros x. unfold fits. pose proof (Z.mod_pos_bound x (2 ^ w) Hpw).
    rewrite <- (Z.mod_small result (2 ^ w)) by lia.
    rewrite <- (Z.mod_small (x mod 2 ^ w) (2 ^ w)) by lia.
    rewrite <- !Z.land_ones, <- Z.land_lor_distr_l by lia.
    rewrite Z.land_ones by lia. apply Z.mod_pos_bound. lia. }
  destruct (negb _) eqn:E.
  - apply IH in H as [(c & -> & Hc & Hl) Hv]; [|apply Hlor].
    split; [|done]. exists (b :: c). simpl. split; [done|split; [done|lia]].
  - injection H as <- <-. split; [|apply Hlor].
    exists [b]. simpl. split; [done|split; [done|lia]].
Qed.

Lemma VarintLength_length v : fits 64 v -> VarintLength v = zlen (EncodeVarint64 v).
Proof.
  unfold fits, VarintLength, EncodeVarint64. intros Hv.
  cut (forall n v len, (1 <= n)%nat -> 0 <= v < 2 ^ (7 * Z.of_nat n) ->
    VarintLength_loop n v len = len - 1 + zlen (EncodeVarint64_loop n v)).
  { intros H. rewrite H by (simpl; lia). lia. }
  clear v Hv. induction n as [|n IH]; intros v len Hn Hv; [lia|].
  destruct (Z.lt_ge_cases v 128).
  - rewrite varint_loop_last by lia. cbn [VarintLength_loop].
    destruct (Z.leb_spec 128 v); [lia|]. unfold zlen. simpl. lia.
  - rewrite varint_loop_step by lia. cbn [VarintLength_loop].
    destruct (Z.leb_spec 128 v); [|lia]. rewrite Z.shiftr_div_pow2 by lia.
    change (2 ^ 7) with 128.
    replace (7 * Z.of_nat (S n)) with (7 * Z.of_nat n + 7) in Hv by lia.
    rewrite Z.pow_add_r in Hv by lia. change (2 ^ 7) with 128 in Hv.
    destruct n as [|n]; [simpl in Hv; lia|].
    rewrite IH; [unfold zlen; simpl length; lia|lia|].
    split; [apply Z.div_pos; lia|apply Z.div_lt_upper_bound; lia].
Qed.

(** ** Arrays of fixed32 *)

Lemma fold_PutFixed32 l dst : fold_left PutFixed32 l dst = dst ++ concat (map EncodeFixed32 l).
Proof.
  revert dst. induction l as [|v l IH]; intros dst; cbn; [by rewrite app_nil_r|].
  rewrite IH. unfold PutFixed32. by rewrite <- app_assoc.
Qed.

Lemma fixed32_array_length l : length (concat (map EncodeFixed32 l)) = (4 * length l)%nat.
Proof.
  induction l as [|v l IH]; [done|]. cbn [map concat]. rewrite length_app, EncodeFixed32_length, IH.
  cbn [length]. lia.
Qed.

Lemma fixed32_array_lookup l i v rest : l !! i = Some v ->
  DecodeFixed32 (drop (4 * i) (concat (map EncodeFixed32 l) ++ rest)) = u32 v.
Proof.
  intros Hi. rewrite <- (take_drop_middle l i v Hi), map_app, concat_app, <- !app_assoc.
  assert (Hl : (4 * i = length (concat (map EncodeFixed32 (take i l))))%nat).
  { rewrite fixed32_array_length, length_take. apply lookup_lt_Some in Hi. lia. }
  rewrite drop_app_length' by done. cbn [map concat]. rewrite <- app_assoc. apply DecodeFixed32_app.
Qed.

(** ** Properties *)

(** Both byte orders agree: a fixed-width integer written by either branch
    of the encoder is read back, modulo its width, by either branch of the
    decoder, whatever follows it. *)
Theorem fixed_roundtrip (enc dec : bool) (v : Z) (rest : bytes) :
  DecodeFixed32_at dec (EncodeFixed32_at enc v ++ rest) = u32 v /\
  DecodeFixed64_at dec (EncodeFixed64_at enc v ++ rest) = u64 v.
Proof.
  destruct (le_split_shifts v) as [E64 E32].
  assert (H32 : EncodeFixed32_at enc v = EncodeFixed32 v) by by destruct enc.
  assert (H64 : EncodeFixed64_at enc v = EncodeFixed64 v) by by destruct enc.
  rewrite H32, H64, <- (DecodeFixed32_app v rest), <- (DecodeFixed64_app v rest).
  destruct dec; [done|]. split.
  - apply DecodeFixed32_shifts. rewrite length_app, EncodeFixed32_length. lia.
  - apply DecodeFixed64_shifts. rewrite length_app, EncodeFixed64_length. lia.
Qed.

(** Varints are parsed back, whatever follows them, [VarintLength] is the
    length of the encoding, and the unrolled 32-bit encoder writes what the
    64-bit loop writes. *)
Theorem varint_roundtrip v rest : fits 64 v ->
  GetVarint64 (EncodeVarint64 v ++ rest) = Some (v, rest) /\
  VarintLength v = zlen (EncodeVarint64 v) /\
  (v < 2 ^ 32 -> EncodeVarint32 v = EncodeVarint64 v /\ GetVarint32 (EncodeVarint32 v ++ rest) = Some (v, rest)).
Proof.
  intros Hv. split; [by apply GetVarint64_app|]. split; [by apply VarintLength_length|].
  intros Hs. unfold fits in Hv. split; [apply EncodeVarint32_loop; lia|apply GetVarint32_app; unfold fits; lia].
Qed.

Lemma varint_roundtrip_witness : fits 64 300 /\ GetVarint64 (EncodeVarint64 300 ++ [x07]) = Some (300, [x07]).
Proof. split; [unfold fits; lia|]. apply (proj1 (varint_roundtrip 300 [x07] ltac:(unfold fits; lia))). Defined.

(** On any input the varint parsers stop inside it: they consume between
    one and five (ten) bytes, leave a suffix, and the value fits its width. *)
Theorem varint_parse_bounds p :
  (forall v q, GetVarint32 p = Some (v, q) ->
     exists c, p = c ++ q /\ (1 <= length c <= 5)%nat /\ fits 32 v) /\
  (forall v q, GetVarint64 p = Some (v, q) ->
     exists c, p = c ++ q /\ (1 <= length c <= 10)%nat /\ fits 64 v).
Proof.
  assert (Hne : forall c : bytes, c <> [] -> (1 <= length c)%nat) by (intros [|]; cbn; [done|lia]).
  split; intros v q.
  - unfold GetVarint32. rewrite GetVarint32Ptr_fallback. unfold GetVarint32PtrFallback. intros H.
    destruct (GetVarint_loop 32 _ _ _ _) as [[v' q']|] eqn:E; [|done]. injection H as -> ->.
    apply GetVarint_loop_suffix in E as [(c & -> & Hc & Hl) Hf]; [|lia|unfold fits; lia].
    exists c. split; [done|]. split; [|done]. specialize (Hne c Hc). lia.
  - unfold GetVarint64, GetVarint64Ptr. intros H.
    destruct (GetVarint_loop 64 _ _ _ _) as [[v' q']|] eqn:E; [|done]. injection H as -> ->.
    apply GetVarint_loop_suffix in E as [(c & -> & Hc & Hl) Hf]; [|lia|unfold fits; lia].
    exists c. split; [done|]. split; [|done]. specialize (Hne c Hc). lia.
Qed.
