(* ===== verification/Logging.v ===== *)
(** * Decimal numbers and escaped strings: src/Enclave/leveldb/util/logging.cpp

    Printing and parsing of the numbers that appear in file names and
    properties, and the escaping of keys for human-readable output. *)

From S2P Require Import Prelude.

(** ** Definitions *)

Definition digit (d : Z) : byte := z2b (48 + d).

(** The digits [snprintf("%llu")] prints; a 64-bit number has at most
    twenty, which is the fuel [AppendNumberTo] gives. *)
Fixpoint decimal (fuel : nat) (n : Z) : bytes :=
  match fuel with
  | O => []
  | S fuel => if n <? 10 then [digit n] else decimal fuel (n / 10) ++ [digit (n mod 10)]
  end.

Definition AppendNumberTo (str : bytes) (num : Z) : bytes := str ++ decimal 20 num.

Definition NumberToString (num : Z) : bytes := AppendNumberTo [] num.

(** Lower-case hexadecimal digit of ["%02x"]. *)
Definition hexdigit (d : Z) : byte := if d <? 10 then z2b (48 + d) else z2b (87 + d).

(** [c >= ' ' && c <= '~'] on a (signed) [char]. *)
Definition printable (c : byte) : bool := (32 <=? b2z c) && (b2z c <=? 126).

Definition AppendEscapedStringTo (str value : bytes) : bytes :=
  str ++ flat_map (fun c =>
    if printable c then [c]
    else lit "\x" ++ [hexdigit (b2z c / 16); hexdigit (b2z c mod 16)]) value.

Definition EscapeString (value : bytes) : bytes := AppendEscapedStringTo [] value.

Definition is_digit (c : byte) : bool := (48 <=? b2z c) && (b2z c <=? 57).

Definition kMaxUint64 : Z := 2 ^ 64 - 1.

(** The digit loop: [None] on overflow, otherwise the value, the number of
    digits consumed and the rest of the input. *)
Fixpoint ConsumeDecimalNumber_loop (v : Z) (digits : Z) (inp : bytes)
  : option (Z * Z * bytes) :=
  match inp with
  | c :: inp' =>
      if is_digit c then
        let delta := b2z c - 48 in
        if (kMaxUint64 / 10 <? v)
           || ((v =? kMaxUint64 / 10) && (kMaxUint64 mod 10 <? delta))
        then None
        else ConsumeDecimalNumber_loop (u64 (v * 10 + delta)) (digits + 1) inp'
      else Some (v, digits, inp)
  | [] => Some (v, digits, inp)
  end.

(** The value and what follows it when the source returns true. *)
Definition ConsumeDecimalNumber (inp : bytes) : option (Z * bytes) :=
  match ConsumeDecimalNumber_loop 0 0 inp with
  | None => None
  | Some (v, digits, rest) => if 0 <? digits then Some (v, rest) else None
  end.

(** Whether more digits follow. *)
Definition starts_with_digit (rest : bytes) : bool :=
  match rest with c :: _ => is_digit c | [] => false end.

(** ** Properties *)

Lemma b2z_digit d : 0 <= d < 10 -> b2z (digit d) = 48 + d.
Proof. intros. unfold digit. apply b2z_small. lia. Qed.

Lemma is_digit_digit d : 0 <= d < 10 -> is_digit (digit d) = true.
Proof. intros. unfold is_digit. rewrite b2z_digit by lia. zcases; simpl; lia. Qed.

(** One step of the digit loop on a digit that does not overflow. *)
Lemma consume_digit v n d rest : 0 <= d < 10 -> 0 <= v -> v * 10 + d < 2 ^ 64 ->
  ConsumeDecimalNumber_loop v n (digit d :: rest)
  = ConsumeDecimalNumber_loop (v * 10 + d) (n + 1) rest.
Proof.
  intros Hd Hv Hlt. cbn [ConsumeDecimalNumber_loop]. rewrite is_digit_digit by lia.
  rewrite b2z_digit by lia. replace (48 + d - 48) with d by lia.
  unfold kMaxUint64. change ((2 ^ 64 - 1) / 10) with 1844674407370955161.
  change ((2 ^ 64 - 1) mod 10) with 5.
  change (2 ^ 64) with 18446744073709551616 in Hlt.
  zcases; simpl; try lia; unfold u64; rewrite Z.mod_small by lia; done.
Qed.

Lemma consume_decimal fuel : forall m v n rest,
  (1 <= fuel)%nat -> 0 <= m < 10 ^ Z.of_nat fuel -> 0 <= v ->
  v * 10 ^ zlen (decimal fuel m) + m < 2 ^ 64 ->
  ConsumeDecimalNumber_loop v n (decimal fuel m ++ rest)
  = ConsumeDecimalNumber_loop (v * 10 ^ zlen (decimal fuel m) + m) (n + zlen (decimal fuel m)) rest.
Proof.
  induction fuel as [|fuel IH]; intros m v n rest Hf Hm Hv Hlt; [lia|].
  cbn [decimal] in *. destruct (Z.ltb_spec m 10).
  - unfold zlen in *. simpl length in *. change (10 ^ Z.of_nat 1) with 10 in *.
    simpl app. by rewrite consume_digit by lia.
  - rewrite Nat2Z.inj_succ, Z.pow_succ_r in Hm by lia.
    assert (Hd : 0 <= m / 10 < 10 ^ Z.of_nat fuel)
      by (split; [apply Z.div_pos; lia|apply Z.div_lt_upper_bound; lia]).
    assert (Hf1 : (1 <= fuel)%nat) by (destruct fuel; [simpl in Hm; lia|lia]).
    unfold zlen in *. rewrite length_app in *. simpl length in *.
    rewrite Nat2Z.inj_add, Z.pow_add_r in * by lia. change (10 ^ Z.of_nat 1) with 10 in *.
    pose proof (Z.div_mod m 10 ltac:(lia)). pose proof (Z.mod_pos_bound m 10 ltac:(lia)).
    rewrite <- app_assoc, IH by (try lia; nia).
    simpl app. rewrite consume_digit; [f_equal; lia|lia|nia|nia].
Qed.

Lemma decimal_nonempty fuel n : (1 <= fuel)%nat -> 0 < zlen (decimal fuel n).
Proof.
  intros H. destruct fuel; [lia|]. unfold zlen. cbn [decimal].
  destruct (n <? 10); [simpl; lia|]. rewrite length_app. simpl. lia.
Qed.

Lemma consume_stop v n rest : starts_with_digit rest = false ->
  ConsumeDecimalNumber_loop v n rest = Some (v, n, rest).
Proof. intros H. destruct rest as [|c rest]; [done|]. simpl in *. by rewrite H. Qed.

(** A printed number is parsed back, whatever non-digit follows it. *)
Lemma ConsumeDecimalNumber_app n rest : fits 64 n -> starts_with_digit rest = false ->
  ConsumeDecimalNumber (NumberToString n ++ rest) = Some (n, rest).
Proof.
  unfold fits. intros Hn Hr. unfold ConsumeDecimalNumber, NumberToString, AppendNumberTo.
  assert (n < 10 ^ Z.of_nat 20) by (change (10 ^ Z.of_nat 20) with (10 ^ 20); lia).
  rewrite app_nil_l, consume_decimal by (rewrite ?Z.mul_0_l; lia). rewrite consume_stop by done.
  pose proof (decimal_nonempty 20 n ltac:(lia)).
  destruct (Z.ltb_spec 0 (0 + zlen (decimal 20 n))); [|lia]. do 2 f_equal.
Qed.

(** Zero padding does not change the value read. *)
Lemma consume_zeros k : forall n rest,
  ConsumeDecimalNumber_loop 0 n (repeat (digit 0) k ++ rest)
  = ConsumeDecimalNumber_loop 0 (n + Z.of_nat k) rest.
Proof.
  induction k as [|k IH]; intros n rest.
  - cbn [repeat app]. f_equal. lia.
  - cbn [repeat app]. rewrite consume_digit by lia.
    change (0 * 10 + 0) with 0. rewrite IH. f_equal. lia.
Qed.

(** ** Properties *)

(** A number printed by [AppendNumberTo] is read back by
    [ConsumeDecimalNumber] up to the first character that is not a digit. *)
Theorem decimal_roundtrip n rest : fits 64 n -> starts_with_digit rest = false ->
  ConsumeDecimalNumber (NumberToString n ++ rest) = Some (n, rest).
Proof. apply ConsumeDecimalNumber_app. Qed.

Lemma decimal_roundtrip_witness :
  fits 64 (2 ^ 64 - 1) /\ ConsumeDecimalNumber (NumberToString (2 ^ 64 - 1) ++ lit ".log") = Some (2 ^ 64 - 1, lit ".log").
Proof. split; [unfold fits; lia|]. apply decimal_roundtrip; [unfold fits; lia|reflexivity]. Defined.
