(* ===== verification/Status.v ===== *)
(** * Operation results: src/Enclave/leveldb/include/leveldb/status.h, util/status.cpp

    A [Status] is a null pointer for success, or an array holding the length
    of the message, the code and the message. *)

From S2P Require Import Prelude Coding Logging.

(** ** Definitions *)

Inductive Code :=
| kOk
| kNotFound
| kCorruption
| kNotSupported
| kInvalidArgument
| kIOError.

Definition code_to_Z (c : Code) : Z :=
  match c with
  | kOk => 0 | kNotFound => 1 | kCorruption => 2
  | kNotSupported => 3 | kInvalidArgument => 4 | kIOError => 5
  end.

(** [state_]: [None] is the null pointer. *)
Definition Status : Type := option bytes.

Definition Status_OK : Status := None.

(** [Status::Status(Code, msg, msg2)]. *)
Definition mkStatus (code : Code) (msg msg2 : bytes) : Status :=
  let len1 := u32 (zlen msg) in
  let len2 := u32 (zlen msg2) in
  let size := u32 (len1 + (if len2 =? 0 then 0 else 2 + len2)) in
  Some (le_split 4 size ++ [z2b (code_to_Z code)] ++ msg
        ++ (if len2 =? 0 then [] else lit ": " ++ msg2)).

Definition NotFound (msg : bytes) : Status := mkStatus kNotFound msg [].
Definition Corruption (msg : bytes) : Status := mkStatus kCorruption msg [].
Definition Corruption2 (msg msg2 : bytes) : Status := mkStatus kCorruption msg msg2.
Definition NotSupported (msg msg2 : bytes) : Status := mkStatus kNotSupported msg msg2.
Definition InvalidArgument (msg msg2 : bytes) : Status := mkStatus kInvalidArgument msg msg2.
Definition IOError (msg msg2 : bytes) : Status := mkStatus kIOError msg msg2.

Definition ok (s : Status) : bool :=
  match s with None => true | Some _ => false end.

(** [code()]: the enumeration value stored in the fifth byte. *)
Definition code (s : Status) : Z :=
  match s with None => 0 | Some st => uc st 4 end.

Definition IsNotFound (s : Status) : bool := code s =? code_to_Z kNotFound.
Definition IsCorruption (s : Status) : bool := code s =? code_to_Z kCorruption.
Definition IsIOError (s : Status) : bool := code s =? code_to_Z kIOError.
Definition IsNotSupportedError (s : Status) : bool := code s =? code_to_Z kNotSupported.
Definition IsInvalidArgument (s : Status) : bool := code s =? code_to_Z kInvalidArgument.

(** [CopyState]: the [size + 5] bytes of the array. *)
Definition CopyState (state : bytes) : bytes :=
  take (Z.to_nat (DecodeFixed32 state) + 5) state.

(** Copy construction and assignment. *)
Definition Status_copy (s : Status) : Status :=
  match s with None => None | Some st => Some (CopyState st) end.

Definition code_name (c : Z) : bytes :=
  if c =? 0 then lit "OK"
  else if c =? 1 then lit "NotFound: "
  else if c =? 2 then lit "Corruption: "
  else if c =? 3 then lit "Not implemented: "
  else if c =? 4 then lit "Invalid argument: "
  else if c =? 5 then lit "IO error: "
  else lit "Unknown code(" ++ NumberToString c ++ lit "): ".

Definition Status_ToString (s : Status) : bytes :=
  match s with
  | None => lit "OK"
  | Some st =>
      let length := DecodeFixed32 st in
      code_name (uc st 4) ++ take (Z.to_nat length) (drop 5 st)
  end.

(** The message a status carries: what follows the code. *)
Definition joined (msg msg2 : bytes) : bytes :=
  msg ++ (if zlen msg2 =? 0 then [] else lit ": " ++ msg2).

(** ** Properties *)

Lemma mkStatus_layout c m m2 : zlen m + zlen m2 + 2 < 2 ^ 32 ->
  mkStatus c m m2
  = Some (EncodeFixed32 (zlen (joined m m2)) ++ [z2b (code_to_Z c)] ++ joined m m2).
Proof.
  intros Hs. assert (0 <= zlen m) by (unfold zlen; lia). assert (0 <= zlen m2) by (unfold zlen; lia).
  unfold mkStatus, joined, u32. rewrite (Z.mod_small (zlen m)), (Z.mod_small (zlen m2)) by lia.
  assert (Hl : zlen (m ++ (if zlen m2 =? 0 then [] else lit ": " ++ m2))
               = zlen m + (if zlen m2 =? 0 then 0 else 2 + zlen m2)).
  { unfold zlen. rewrite length_app. destruct (Z.of_nat (length m2) =? 0); simpl; lia. }
  rewrite Hl. rewrite (Z.mod_small (zlen m + _)) by (destruct (zlen m2 =? 0); lia).
  reflexivity.
Qed.

Lemma mkStatus_code c m m2 : code (mkStatus c m m2) = code_to_Z c.
Proof. unfold mkStatus, code, uc. cbn -[z2b]. destruct c; reflexivity. Qed.

Lemma mkStatus_not_ok c m m2 : ok (mkStatus c m m2) = false.
Proof. reflexivity. Qed.

Lemma mkStatus_copy c m m2 : zlen m + zlen m2 + 2 < 2 ^ 32 ->
  Status_copy (mkStatus c m m2) = mkStatus c m m2.
Proof.
  intros Hs. rewrite mkStatus_layout by done. unfold Status_copy, CopyState.
  rewrite DecodeFixed32_app. f_equal. apply take_ge.
  rewrite !length_app, EncodeFixed32_length. simpl length. unfold zlen, u32.
  rewrite Z.mod_small; [lia|]. unfold joined, zlen in *. rewrite length_app.
  destruct (Z.of_nat (length m2) =? 0); simpl; lia.
Qed.

Lemma mkStatus_ToString c m m2 : zlen m + zlen m2 + 2 < 2 ^ 32 ->
  Status_ToString (mkStatus c m m2) = code_name (code_to_Z c) ++ joined m m2.
Proof.
  intros Hs. pose proof (mkStatus_code c m m2) as Hc. rewrite mkStatus_layout in * by done.
  cbn [code] in Hc. unfold Status_ToString. rewrite DecodeFixed32_app, Hc. f_equal.
  rewrite app_assoc, drop_app_length' by (rewrite length_app, EncodeFixed32_length; done).
  apply take_ge. unfold zlen, u32. rewrite Z.mod_small; [lia|].
  unfold joined, zlen in *. rewrite length_app.
  destruct (Z.of_nat (length m2) =? 0); simpl; lia.
Qed.
