(* ===== verification/Comparator.v ===== *)
(** * Byte strings and key orders: include/leveldb/{slice,comparator}.h, util/comparator.cpp

    [Slice] operations on byte strings, the [Comparator] interface with the
    laws its documentation states, and the built-in bytewise comparator. *)

From S2P Require Import Prelude Coding.

(** ** Slice *)

(** [memcmp(a, b, n)] for [n <= min(length a, length b)]: the first
    differing byte decides, as unsigned chars. *)
Fixpoint memcmp (a b : bytes) (n : nat) : comparison :=
  match n, a, b with
  | S n, x :: a, y :: b =>
      match b2z x ?= b2z y with Eq => memcmp a b n | c => c end
  | _, _, _ => Eq
  end.

Definition Slice_compare (a b : bytes) : comparison :=
  let min_len := Nat.min (length a) (length b) in
  match memcmp a b min_len with
  | Eq => if zlen a <? zlen b then Lt else if zlen b <? zlen a then Gt else Eq
  | c => c
  end.

Definition Slice_eqb (x y : bytes) : bool :=
  (zlen x =? zlen y) && is_eq (memcmp x y (length x)).

Definition starts_with (s x : bytes) : bool :=
  (zlen x <=? zlen s) && is_eq (memcmp s x (length x)).

Definition remove_prefix (n : Z) (s : bytes) : bytes := drop (Z.to_nat n) s.

(** ** The comparator interface *)

Record Comparator := {
  cmp_Name : bytes;
  Compare : bytes -> bytes -> comparison;
  FindShortestSeparator : bytes -> bytes -> bytes;
  FindShortSuccessor : bytes -> bytes
}.

(** What comparator.h promises. [sep_equal] goes beyond the documentation,
    which speaks of [start < limit] only: the internal key comparator calls
    the user comparator with equal user keys as well. *)
Class ComparatorLaws (c : Comparator) : Prop := {
  cmp_total :: TotalCmp (Compare c);
  sep_lower : forall start limit, Compare c start limit = Lt ->
    Compare c start (FindShortestSeparator c start limit) <> Gt;
  sep_upper : forall start limit, Compare c start limit = Lt ->
    Compare c (FindShortestSeparator c start limit) limit = Lt;
  sep_equal : forall start limit, Compare c start limit = Eq ->
    FindShortestSeparator c start limit = start;
  succ_lower : forall key, Compare c key (FindShortSuccessor c key) <> Gt
}.

(** ** The bytewise comparator *)

(** Length of the common prefix: the [while] loops that advance an index as
    long as both strings have the same byte there. *)
Fixpoint shared_prefix (a b : bytes) : nat :=
  match a, b with
  | x :: a, y :: b => if decide (x = y) then S (shared_prefix a b) else O
  | _, _ => O
  end.

Definition Bytewise_FindShortestSeparator (start limit : bytes) : bytes :=
  let min_length := Nat.min (length start) (length limit) in
  let diff_index := shared_prefix start limit in
  if (min_length <=? diff_index)%nat then start
  else
    let diff_byte := uc start diff_index in
    if (diff_byte <? 0xff) && (diff_byte + 1 <? uc limit diff_index)
    then take diff_index start ++ [z2b (diff_byte + 1)]
    else start.

Fixpoint Bytewise_FindShortSuccessor (key : bytes) : bytes :=
  match key with
  | [] => []
  | b :: rest =>
      if b2z b =? 0xff then b :: Bytewise_FindShortSuccessor rest
      else [z2b (b2z b + 1)]
  end.

Definition BytewiseComparator : Comparator := {|
  cmp_Name := lit "leveldb.BytewiseComparator";
  Compare := Slice_compare;
  FindShortestSeparator := Bytewise_FindShortestSeparator;
  FindShortSuccessor := Bytewise_FindShortSuccessor
|}.

(** ** Order lemmas *)

(** [Slice::compare] by recursion on both strings. *)
Lemma Slice_compare_cons x a y b :
  Slice_compare (x :: a) (y :: b)
  = match b2z x ?= b2z y with Eq => Slice_compare a b | c => c end.
Proof.
  unfold Slice_compare, zlen. cbn [length Nat.min memcmp].
  destruct (b2z x ?= b2z y) eqn:E; try reflexivity.
  destruct (memcmp a b _); try reflexivity.
  zcases; try lia; reflexivity.
Qed.

Lemma Slice_compare_nil_l b : Slice_compare [] b = match b with [] => Eq | _ => Lt end.
Proof. destruct b; reflexivity. Qed.

Lemma Slice_compare_nil_r a : Slice_compare a [] = match a with [] => Eq | _ => Gt end.
Proof. destruct a; reflexivity. Qed.

Lemma Slice_compare_eq a b : Slice_compare a b = Eq <-> a = b.
Proof.
  revert b. induction a as [|x a IH]; intros b.
  - rewrite Slice_compare_nil_l. destruct b; split; done.
  - destruct b as [|y b]; [rewrite Slice_compare_nil_r; split; done|].
    rewrite Slice_compare_cons. destruct (Z.compare_spec (b2z x) (b2z y)) as [E|E|E].
    + apply b2z_inj in E as ->. rewrite IH. split; [by intros ->|by intros [= ->]].
    + split; [done|]. intros [= -> ->]. lia.
    + split; [done|]. intros [= -> ->]. lia.
Qed.

#[global] Instance Slice_compare_total : TotalCmp Slice_compare.
Proof.
  split.
  - intros x. by apply Slice_compare_eq.
  - induction x as [|x a IH]; intros y.
    + rewrite Slice_compare_nil_l, Slice_compare_nil_r. by destruct y.
    + destruct y as [|y b]; [by rewrite Slice_compare_nil_l, Slice_compare_nil_r|].
      rewrite !Slice_compare_cons, (Z.compare_antisym (b2z x) (b2z y)).
      destruct (b2z x ?= b2z y); simpl; auto.
  - induction x as [|x a IH]; intros y z.
    + destruct y as [|y b]; [done|]. destruct z as [|z c]; [by rewrite Slice_compare_nil_r|done].
    + destruct y as [|y b]; [by rewrite Slice_compare_nil_r|].
      destruct z as [|z c]; [by rewrite (Slice_compare_nil_r (y :: b))|].
      rewrite !Slice_compare_cons.
      destruct (Z.compare_spec (b2z x) (b2z y)), (Z.compare_spec (b2z y) (b2z z)),
        (Z.compare_spec (b2z x) (b2z z)); try done; try lia. apply IH.
  - intros x y z H. apply Slice_compare_eq in H as ->. reflexivity.
Qed.

Lemma Slice_eqb_eq x y : Slice_eqb x y = true <-> x = y.
Proof.
  rewrite <- Slice_compare_eq. unfold Slice_eqb, Slice_compare.
  destruct (Z.eqb_spec (zlen x) (zlen y)) as [E|E]; simpl.
  - unfold zlen in E. replace (length y) with (length x) by lia. rewrite Nat.min_id.
    unfold zlen. zcases; try lia. destruct (memcmp x y (length x)); simpl; split; done.
  - destruct (memcmp x y _); zcases; try lia; split; done.
Qed.

Lemma memcmp_prefix s x : (length x <= length s)%nat ->
  memcmp s x (length x) = Eq <-> take (length x) s = x.
Proof.
  revert s. induction x as [|y x IH]; intros s Hl; simpl; [by destruct s|].
  destruct s as [|z s]; simpl in Hl; [lia|]. cbn [firstn memcmp].
  destruct (Z.compare_spec (b2z z) (b2z y)) as [E|E|E].
  - apply b2z_inj in E as ->. rewrite IH by lia. split; [by intros ->|by intros [=]].
  - split; [done|]. intros [= -> _]. lia.
  - split; [done|]. intros [= -> _]. lia.
Qed.

Lemma starts_with_spec s x : starts_with s x = true <-> exists r, s = x ++ r.
Proof.
  unfold starts_with, zlen. destruct (Z.leb_spec (Z.of_nat (length x)) (Z.of_nat (length s))); simpl.
  - transitivity (take (length x) s = x).
    + rewrite <- memcmp_prefix by lia. destruct (memcmp _ _ _); simpl; split; done.
    + split.
      * intros E. exists (drop (length x) s). rewrite <- E at 1. by rewrite take_drop.
      * intros [r ->]. apply take_app_length.
  - split; [done|]. intros [r ->]. rewrite length_app in *. lia.
Qed.

(** ** The bytewise comparator obeys the interface *)

Lemma shared_prefix_le a b : (shared_prefix a b <= Nat.min (length a) (length b))%nat.
Proof.
  revert b. induction a as [|x a IH]; intros [|y b]; simpl; try lia.
  case_decide; [specialize (IH b); lia|lia].
Qed.

Lemma shared_prefix_take a b : take (shared_prefix a b) a = take (shared_prefix a b) b.
Proof.
  revert b. induction a as [|x a IH]; intros [|y b]; simpl; try done.
  case_decide; subst; simpl; [by rewrite IH|done].
Qed.

(** The separator found sits in [start, limit) by comparing heads. *)
Lemma separator_between start limit : Slice_compare start limit = Lt ->
  Slice_compare start (Bytewise_FindShortestSeparator start limit) <> Gt /\
  Slice_compare (Bytewise_FindShortestSeparator start limit) limit = Lt.
Proof.
  revert limit. induction start as [|x a IH]; intros limit Hlt.
  - unfold Bytewise_FindShortestSeparator. simpl. split; [|done]. done.
  - destruct limit as [|y b]; [done|].
    rewrite Slice_compare_cons in Hlt.
    unfold Bytewise_FindShortestSeparator in *. cbn [shared_prefix length Nat.min].
    case_decide as Hxy.
    + subst y. rewrite Z.compare_refl in Hlt. specialize (IH b Hlt).
      cbn [Nat.leb uc nth firstn app] in *.
      change (uc (x :: a) (S (shared_prefix a b))) with (uc a (shared_prefix a b)).
      change (uc (x :: b) (S (shared_prefix a b))) with (uc b (shared_prefix a b)).
      destruct (_ <=? _)%nat.
      * rewrite !Slice_compare_cons, !Z.compare_refl. exact IH.
      * destruct (_ && _); cbn [app take];
          rewrite !Slice_compare_cons, !Z.compare_refl; exact IH.
    + cbn [Nat.leb]. change (uc (x :: a) 0) with (b2z x). change (uc (y :: b) 0) with (b2z y).
      pose proof (b2z_range x). pose proof (b2z_range y).
      assert (b2z x < b2z y).
      { destruct (Z.compare_spec (b2z x) (b2z y)); [by apply b2z_inj in H1|lia|done]. }
      destruct (Z.ltb_spec (b2z x) 255); [|lia].
      destruct (Z.ltb_spec (b2z x + 1) (b2z y)); simpl.
      * rewrite !Slice_compare_cons, b2z_small by lia.
        split; [destruct (Z.compare_spec (b2z x) (b2z x + 1)); done || lia|].
        destruct (Z.compare_spec (b2z x + 1) (b2z y)); done || lia.
      * split; [by rewrite (cmp_refl Slice_compare)|]. rewrite Slice_compare_cons.
        destruct (Z.compare_spec (b2z x) (b2z y)); done || lia.
Qed.

Lemma separator_equal s : Bytewise_FindShortestSeparator s s = s.
Proof.
  unfold Bytewise_FindShortestSeparator. rewrite Nat.min_id.
  replace (shared_prefix s s) with (length s); [by rewrite Nat.leb_refl|].
  induction s as [|x s IH]; simpl; [done|]. case_decide; [by rewrite <- IH|done].
Qed.

Lemma successor_ge key : Slice_compare key (Bytewise_FindShortSuccessor key) <> Gt.
Proof.
  induction key as [|b key IH]; simpl; [done|].
  destruct (Z.eqb_spec (b2z b) 255) as [E|E].
  - by rewrite Slice_compare_cons, Z.compare_refl.
  - pose proof (b2z_range b). rewrite Slice_compare_cons, b2z_small by lia.
    destruct (Z.compare_spec (b2z b) (b2z b + 1)); done || lia.
Qed.

#[global] Instance BytewiseComparator_laws : ComparatorLaws BytewiseComparator.
Proof.
  split; simpl.
  - apply _.
  - intros. by apply separator_between.
  - intros. by apply separator_between.
  - intros s l H. apply Slice_compare_eq in H as ->. apply separator_equal.
  - apply successor_ge.
Qed.

(** The separator and the successor never grow the key. *)
Lemma separator_length start limit :
  (length (Bytewise_FindShortestSeparator start limit) <= length start)%nat.
Proof.
  unfold Bytewise_FindShortestSeparator. pose proof (shared_prefix_le start limit).
  destruct (Nat.leb_spec (Nat.min (length start) (length limit)) (shared_prefix start limit)); [done|].
  destruct (_ && _); [|done]. rewrite length_app, length_take. simpl. lia.
Qed.

Lemma successor_length key : (length (Bytewise_FindShortSuccessor key) <= length key)%nat.
Proof. induction key as [|b key IH]; simpl; [done|]. destruct (_ =? _); simpl; lia. Qed.
