(* ===== verification/Dbformat.v ===== *)
(** * Internal keys: src/Enclave/leveldb/db/dbformat.{h,cpp}

    A user key is stored with a sequence number and a type packed in eight
    trailing bytes. Internal keys are ordered by increasing user key and
    decreasing sequence number, so that a search for a snapshot stops at the
    newest entry the snapshot may see. *)

From S2P Require Import Prelude Coding Logging Comparator.

(** ** Definitions *)

Definition kNumLevels : nat := 7.
Definition kL0_CompactionTrigger : Z := 99999.
Definition kL0_SlowdownWritesTrigger : Z := 99999.
Definition kL0_StopWritesTrigger : Z := 99999.
Definition kMaxMemCompactLevel : nat := 2.
Definition kReadBytesPeriod : Z := 1048576.

Inductive ValueType := kTypeDeletion | kTypeValue.

#[global] Instance ValueType_eq_dec : EqDecision ValueType.
Proof. solve_decision. Defined.

Definition type_to_Z (t : ValueType) : Z :=
  match t with kTypeDeletion => 0 | kTypeValue => 1 end.

Definition kValueTypeForSeek : ValueType := kTypeValue.

Definition kMaxSequenceNumber : Z := Z.shiftl 1 56 - 1.

Record ParsedInternalKey := mkParsed {
  user_key : bytes;
  sequence : Z;
  type : ValueType
}.

Definition InternalKeyEncodingLength (key : ParsedInternalKey) : Z :=
  zlen (user_key key) + 8.

Definition PackSequenceAndType (seq : Z) (t : ValueType) : Z :=
  Z.lor (u64 (Z.shiftl seq 8)) (type_to_Z t).

Definition AppendInternalKey (result : bytes) (key : ParsedInternalKey) : bytes :=
  PutFixed64 (result ++ user_key key) (PackSequenceAndType (sequence key) (type key)).

(** [InternalKey(user_key, s, t)]. *)
Definition InternalKey (ukey : bytes) (s : Z) (t : ValueType) : bytes :=
  AppendInternalKey [] (mkParsed ukey s t).

(** The first [size - 8] bytes, and the eight bytes behind them. *)
Definition ExtractUserKey (internal_key : bytes) : bytes :=
  take (length internal_key - 8) internal_key.

Definition key_tag (internal_key : bytes) : Z :=
  DecodeFixed64 (drop (length internal_key - 8) internal_key).

Definition ExtractValueType (internal_key : bytes) : Z :=
  Z.land (key_tag internal_key) 0xff.

(** The parsed key when the source returns true. *)
Definition ParseInternalKey (internal_key : bytes) : option ParsedInternalKey :=
  if (length internal_key <? 8)%nat then None
  else
    let num := key_tag internal_key in
    let c := Z.land num 0xff in
    let parsed t := Some (mkParsed (ExtractUserKey internal_key) (Z.shiftr num 8) t) in
    if c =? 0 then parsed kTypeDeletion
    else if c =? 1 then parsed kTypeValue
    else None.

Definition ParsedInternalKey_DebugString (k : ParsedInternalKey) : bytes :=
  lit "'" ++ EscapeString (user_key k) ++ lit "' @ " ++ NumberToString (sequence k)
  ++ lit " : " ++ NumberToString (type_to_Z (type k)).

Definition InternalKey_DebugString (rep : bytes) : bytes :=
  match ParseInternalKey rep with
  | Some parsed => ParsedInternalKey_DebugString parsed
  | None => lit "(bad)" ++ EscapeString rep
  end.

(** ** InternalKeyComparator *)

Definition InternalKey_Compare (ucmp : Comparator) (akey bkey : bytes) : comparison :=
  match Compare ucmp (ExtractUserKey akey) (ExtractUserKey bkey) with
  | Eq =>
      let anum := key_tag akey in
      let bnum := key_tag bkey in
      if bnum <? anum then Lt else if anum <? bnum then Gt else Eq
  | r => r
  end.

Definition InternalKey_FindShortestSeparator (ucmp : Comparator) (start limit : bytes) : bytes :=
  let user_start := ExtractUserKey start in
  let user_limit := ExtractUserKey limit in
  let tmp := FindShortestSeparator ucmp user_start user_limit in
  if (zlen tmp <? zlen user_start) && is_lt (Compare ucmp user_start tmp)
  then PutFixed64 tmp (PackSequenceAndType kMaxSequenceNumber kValueTypeForSeek)
  else start.

Definition InternalKey_FindShortSuccessor (ucmp : Comparator) (key : bytes) : bytes :=
  let ukey := ExtractUserKey key in
  let tmp := FindShortSuccessor ucmp ukey in
  if (zlen tmp <? zlen ukey) && is_lt (Compare ucmp ukey tmp)
  then PutFixed64 tmp (PackSequenceAndType kMaxSequenceNumber kValueTypeForSeek)
  else key.

Definition InternalKeyComparator (ucmp : Comparator) : Comparator := {|
  cmp_Name := lit "leveldb.InternalKeyComparator";
  Compare := InternalKey_Compare ucmp;
  FindShortestSeparator := InternalKey_FindShortestSeparator ucmp;
  FindShortSuccessor := InternalKey_FindShortSuccessor ucmp
|}.

(** ** LookupKey *)

Record LookupKey := mkLookupKey {
  lk_data : bytes;      (** [start_ .. end_) *)
  lk_kstart : nat       (** [kstart_ - start_] *)
}.

Definition make_LookupKey (ukey : bytes) (s : Z) : LookupKey :=
  let usize := zlen ukey in
  let len := EncodeVarint32 (u32 (usize + 8)) in
  {| lk_data := len ++ ukey ++ EncodeFixed64 (PackSequenceAndType s kValueTypeForSeek);
     lk_kstart := length len |}.

Definition lk_memtable_key (k : LookupKey) : bytes := lk_data k.
Definition lk_internal_key (k : LookupKey) : bytes := drop (lk_kstart k) (lk_data k).
Definition lk_user_key (k : LookupKey) : bytes :=
  take (length (lk_data k) - lk_kstart k - 8) (drop (lk_kstart k) (lk_data k)).

(** ** Packing *)

Definition valid_seq (s : Z) : Prop := 0 <= s <= kMaxSequenceNumber.

Lemma valid_seq_range s : valid_seq s <-> 0 <= s < 2 ^ 56.
Proof. unfold valid_seq. change kMaxSequenceNumber with (2 ^ 56 - 1). lia. Qed.

Lemma type_to_Z_range t : 0 <= type_to_Z t <= 1.
Proof. destruct t; simpl; lia. Qed.

Lemma Pack_value s t : valid_seq s -> PackSequenceAndType s t = s * 256 + type_to_Z t.
Proof.
  rewrite valid_seq_range. intros Hs. pose proof (type_to_Z_range t).
  unfold PackSequenceAndType, u64. rewrite Z.shiftl_mul_pow2, Z.mod_small by lia.
  rewrite Z.lor_comm, lor_add_disjoint by lia. lia.
Qed.

Lemma Pack_range s t : valid_seq s -> fits 64 (PackSequenceAndType s t).
Proof.
  intros Hs. rewrite Pack_value by done. apply valid_seq_range in Hs.
  pose proof (type_to_Z_range t). unfold fits. lia.
Qed.

Lemma InternalKey_length u s t : length (InternalKey u s t) = (length u + 8)%nat.
Proof.
  unfold InternalKey, AppendInternalKey, PutFixed64. simpl.
  by rewrite length_app, EncodeFixed64_length.
Qed.

Lemma ExtractUserKey_app u num : ExtractUserKey (u ++ EncodeFixed64 num) = u.
Proof.
  unfold ExtractUserKey. rewrite length_app, EncodeFixed64_length.
  apply take_app_length'. lia.
Qed.

Lemma key_tag_app u num : key_tag (u ++ EncodeFixed64 num) = u64 num.
Proof.
  unfold key_tag. rewrite length_app, EncodeFixed64_length.
  rewrite drop_app_length' by lia. apply DecodeFixed64_encode.
Qed.

Lemma ExtractUserKey_InternalKey u s t : ExtractUserKey (InternalKey u s t) = u.
Proof. apply ExtractUserKey_app. Qed.

Lemma key_tag_InternalKey u s t : valid_seq s -> key_tag (InternalKey u s t) = s * 256 + type_to_Z t.
Proof.
  intros Hs. unfold InternalKey, AppendInternalKey, PutFixed64. simpl app.
  rewrite key_tag_app. unfold u64. rewrite Z.mod_small by (by apply Pack_range).
  by apply Pack_value.
Qed.

(** Parsing inverts appending. *)
Lemma ParseInternalKey_InternalKey u s t : valid_seq s ->
  ParseInternalKey (InternalKey u s t) = Some (mkParsed u s t).
Proof.
  intros Hs. unfold ParseInternalKey. rewrite InternalKey_length.
  destruct (Nat.ltb_spec (length u + 8) 8); [lia|].
  rewrite key_tag_InternalKey, ExtractUserKey_InternalKey by done.
  pose proof (type_to_Z_range t). change 0xff with (2 ^ 8 - 1). rewrite land_ones_mod by lia.
  replace ((s * 256 + type_to_Z t) mod 2 ^ 8) with (type_to_Z t)
    by (apply (Z.mod_unique _ _ s); lia).
  replace (Z.shiftr (s * 256 + type_to_Z t) 8) with s
    by (rewrite Z.shiftr_div_pow2 by lia; apply (Z.div_unique _ _ _ (type_to_Z t)); lia).
  destruct t; reflexivity.
Qed.

(** A key that parses is the encoding of its parts. *)
Lemma ParseInternalKey_sound k p : ParseInternalKey k = Some p ->
  valid_seq (sequence p) /\ k = InternalKey (user_key p) (sequence p) (type p).
Proof.
  unfold ParseInternalKey. destruct (Nat.ltb_spec (length k) 8) as [|Hl]; [done|].
  pose proof (DecodeFixed64_range (drop (length k - 8) k)) as Hr. unfold fits in Hr.
  fold (key_tag k) in Hr. change 0xff with (2 ^ 8 - 1). rewrite land_ones_mod by lia.
  set (n := key_tag k) in *.
  assert (Hmk : forall t, n mod 2 ^ 8 = type_to_Z t -> valid_seq (n / 2 ^ 8) /\
    k = InternalKey (ExtractUserKey k) (n / 2 ^ 8) t).
  { intros t Ht.
    assert (Hv : valid_seq (n / 2 ^ 8)).
    { apply valid_seq_range. split; [apply Z.div_pos; lia|apply Z.div_lt_upper_bound; lia]. }
    split; [done|]. unfold InternalKey, AppendInternalKey, PutFixed64. simpl app.
    cbn [user_key sequence type]. rewrite Pack_value by done. rewrite <- Ht.
    replace (n / 2 ^ 8 * 256 + n mod 2 ^ 8) with n by (pose proof (Z.div_mod n (2 ^ 8)); lia).
    unfold n, key_tag, ExtractUserKey. rewrite EncodeFixed64_decode by (rewrite length_drop; lia).
    by rewrite take_drop. }
  rewrite Z.shiftr_div_pow2 by lia.
  destruct (Z.eqb_spec (n mod 2 ^ 8) 0) as [E0|E0]; [intros [= <-]; by apply Hmk|].
  destruct (Z.eqb_spec (n mod 2 ^ 8) 1) as [E1|E1]; [intros [= <-]; by apply Hmk|done].
Qed.

(** ** The order of internal keys *)

Lemma InternalKey_Compare_spec ucmp u1 s1 t1 u2 s2 t2 : valid_seq s1 -> valid_seq s2 ->
  Compare (InternalKeyComparator ucmp) (InternalKey u1 s1 t1) (InternalKey u2 s2 t2)
  = match Compare ucmp u1 u2 with
    | Eq => match s2 ?= s1 with Eq => type_to_Z t2 ?= type_to_Z t1 | c => c end
    | c => c
    end.
Proof.
  intros H1 H2. simpl. unfold InternalKey_Compare.
  rewrite !ExtractUserKey_InternalKey, !key_tag_InternalKey by done.
  destruct (Compare ucmp u1 u2); [|done|done].
  pose proof (type_to_Z_range t1). pose proof (type_to_Z_range t2).
  destruct (Z.compare_spec s2 s1), (Z.compare_spec (type_to_Z t2) (type_to_Z t1));
    zcases; try lia; done.
Qed.

#[global] Instance InternalKey_Compare_total ucmp `{!TotalCmp (Compare ucmp)} :
  TotalCmp (InternalKey_Compare ucmp).
Proof.
  split; unfold InternalKey_Compare.
  - intros x. rewrite (cmp_refl (Compare ucmp)). zcases; lia || done.
  - intros x y. rewrite (cmp_opp (Compare ucmp) (ExtractUserKey x)).
    destruct (Compare ucmp (ExtractUserKey x) (ExtractUserKey y)); simpl; try done.
    zcases; lia || done.
  - intros x y z.
    destruct (Compare ucmp (ExtractUserKey x) (ExtractUserKey y)) eqn:E1;
    destruct (Compare ucmp (ExtractUserKey y) (ExtractUserKey z)) eqn:E2; try done.
    + rewrite (cmp_eq_trans _ _ _ _ E1 E2). zcases; lia || done.
    + by rewrite (cmp_eq_l _ _ _ _ E1), E2.
    + by rewrite <- (cmp_eq_r _ _ _ _ E2), E1.
    + by rewrite (cmp_lt_trans _ _ _ _ E1 E2).
  - intros x y z.
    destruct (Compare ucmp (ExtractUserKey x) (ExtractUserKey y)) eqn:E; try done.
    rewrite (cmp_eq_l _ _ _ _ E). intros H.
    destruct (Compare ucmp (ExtractUserKey y) (ExtractUserKey z)); try done.
    revert H. zcases; lia || done.
Qed.

(** Whatever tag follows it, a larger user key makes a larger internal key. *)
Lemma InternalKey_Compare_user ucmp a b c :
  Compare ucmp (ExtractUserKey a) (ExtractUserKey b) = c -> c <> Eq ->
  InternalKey_Compare ucmp a b = c.
Proof. unfold InternalKey_Compare. intros -> Hc. by destruct c. Qed.

#[global] Instance InternalKeyComparator_laws ucmp `{!ComparatorLaws ucmp} :
  ComparatorLaws (InternalKeyComparator ucmp).
Proof.
  split; simpl.
  - apply _.
  - intros start limit Hlt. unfold InternalKey_FindShortestSeparator.
    destruct (_ && _) eqn:E; [|by rewrite (cmp_refl (InternalKey_Compare ucmp))].
    apply andb_prop in E as [_ E]. apply is_lt_true in E.
    rewrite (InternalKey_Compare_user _ _ _ Lt); [done| |done].
    unfold PutFixed64. by rewrite ExtractUserKey_app.
  - intros start limit Hlt. unfold InternalKey_FindShortestSeparator.
    destruct (_ && _) eqn:E; [|done]. apply andb_prop in E as [Hs E]. apply is_lt_true in E.
    apply InternalKey_Compare_user; [|done]. unfold PutFixed64. rewrite ExtractUserKey_app.
    apply sep_upper. revert Hlt. unfold InternalKey_Compare.
    destruct (Compare ucmp (ExtractUserKey start) (ExtractUserKey limit)) eqn:EU; try done.
    rewrite (sep_equal _ _ EU), (cmp_refl (Compare ucmp)) in E. done.
  - intros start limit Heq. unfold InternalKey_FindShortestSeparator.
    assert (EU : Compare ucmp (ExtractUserKey start) (ExtractUserKey limit) = Eq).
    { revert Heq. unfold InternalKey_Compare. by destruct (Compare ucmp _ _). }
    rewrite (sep_equal _ _ EU), (cmp_refl (Compare ucmp)), andb_false_r. done.
  - intros key. unfold InternalKey_FindShortSuccessor.
    destruct (_ && _) eqn:E; [|by rewrite (cmp_refl (InternalKey_Compare ucmp))].
    apply andb_prop in E as [_ E]. apply is_lt_true in E.
    rewrite (InternalKey_Compare_user _ _ _ Lt); [done| |done].
    unfold PutFixed64. by rewrite ExtractUserKey_app.
Qed.

(** ** Lookup keys *)

Lemma lk_internal_key_spec u s : lk_internal_key (make_LookupKey u s) = InternalKey u s kValueTypeForSeek.
Proof. unfold lk_internal_key. simpl. apply drop_app_length. Qed.

Lemma lk_user_key_spec u s : lk_user_key (make_LookupKey u s) = u.
Proof.
  unfold lk_user_key. simpl. rewrite drop_app_length, !length_app, EncodeFixed64_length.
  apply take_app_length'. lia.
Qed.

(** In the memtable's format the lookup key is the internal key with its
    length in front. *)
Lemma lk_memtable_key_spec u s : zlen u + 8 < 2 ^ 32 ->
  lk_memtable_key (make_LookupKey u s) = PutLengthPrefixedSlice [] (InternalKey u s kValueTypeForSeek).
Proof.
  intros Hl. unfold lk_memtable_key, PutLengthPrefixedSlice, PutVarint32. simpl.
  unfold zlen at 2. rewrite InternalKey_length. unfold zlen. by rewrite Nat2Z.inj_add.
Qed.

(** A search for [(u, s)] stops exactly at the entries of [u] that snapshot
    [s] sees. *)
Lemma lookup_visible ucmp `{!TotalCmp (Compare ucmp)} u s q t : valid_seq s -> valid_seq q ->
  Compare (InternalKeyComparator ucmp) (lk_internal_key (make_LookupKey u s)) (InternalKey u q t) <> Gt
  <-> q <= s.
Proof.
  intros Hs Hq. rewrite lk_internal_key_spec, InternalKey_Compare_spec by done.
  rewrite (cmp_refl (Compare ucmp)).
  destruct (Z.compare_spec q s); [subst|split; [lia|done]|split; [done|lia]].
  destruct t; simpl; split; lia || done.
Qed.

(** ** Properties *)

(** If the user comparator is a total order whose separators and
    successors lie where they have to, so is the internal key comparator: the
    index keys a table builder shortens with it still separate its blocks. *)
Theorem internal_comparator_lawful ucmp `{!ComparatorLaws ucmp} : ComparatorLaws (InternalKeyComparator ucmp).
Proof. apply _. Qed.

Lemma internal_comparator_lawful_witness : ComparatorLaws (InternalKeyComparator BytewiseComparator).
Proof. exact (internal_comparator_lawful BytewiseComparator). Defined.

(** [ParseInternalKey] accepts exactly the encodings of a user key, a
    56-bit sequence number and a type, and returns these parts. *)
Theorem parse_internal_key_exact k u s t :
  ParseInternalKey k = Some (mkParsed u s t) <-> valid_seq s /\ k = InternalKey u s t.
Proof.
  split; [by intros H%ParseInternalKey_sound|]. intros [Hs ->]. by apply ParseInternalKey_InternalKey.
Qed.

(** The internal keys of one user key are ordered from new to old, and the
    lookup key of a snapshot stands in front of exactly those entries the
    snapshot sees. *)
Theorem lookup_key_splits_history ucmp `{!TotalCmp (Compare ucmp)} u s q q' t t' :
  valid_seq s -> valid_seq q -> valid_seq q' ->
  (q' < q -> Compare (InternalKeyComparator ucmp) (InternalKey u q t) (InternalKey u q' t') = Lt) /\
  (Compare (InternalKeyComparator ucmp) (lk_internal_key (make_LookupKey u s)) (InternalKey u q t) <> Gt <-> q <= s).
Proof.
  intros Hs Hq Hq'. split; [|by apply lookup_visible]. intros Hlt.
  rewrite InternalKey_Compare_spec, (cmp_refl (Compare ucmp)) by done. by apply Z.compare_lt_iff in Hlt as ->.
Qed.

Lemma lookup_key_splits_history_witness :
  Compare (InternalKeyComparator BytewiseComparator) (InternalKey (lit "k") 9 kTypeDeletion)
    (InternalKey (lit "k") 5 kTypeValue) = Lt.
Proof.
  apply (lookup_key_splits_history BytewiseComparator (lit "k") 7 9 5 kTypeDeletion kTypeValue);
    rewrite ?valid_seq_range; lia.
Defined.
