(* ===== verification/Filter.v ===== *)
(** * Bloom filters: util/{hash,bloom}.cpp, include/leveldb/filter_policy.h, db/dbformat.cpp

    The murmur-like [Hash], the [FilterPolicy] interface with the contract of
    its documentation (a key that went into a filter matches it), the built-in
    bloom filter, and the wrapper that lets a policy on user keys be used with
    internal keys. *)

From S2P Require Import Prelude Coding Comparator Dbformat.

(** ** Hash *)

Definition hash_m : Z := 0xc6a4a793.

(** The loop that consumes four bytes at a time; the bytes left over. *)
Fixpoint Hash_loop (fuel : nat) (h : Z) (data : bytes) : Z * bytes :=
  match fuel with
  | O => (h, data)
  | S fuel =>
      if (4 <=? length data)%nat then
        let w := DecodeFixed32 data in
        let h := u32 (h + w) in
        let h := u32 (h * hash_m) in
        let h := Z.lxor h (Z.shiftr h 16) in
        Hash_loop fuel h (drop 4 data)
      else (h, data)
  end.

Definition Hash (data : bytes) (seed : Z) : Z :=
  let n := zlen data in
  let h := u32 (Z.lxor seed (u64 (n * hash_m))) in
  let '(h, data) := Hash_loop (length data) h data in
  let last h := let h := u32 (h * hash_m) in Z.lxor h (Z.shiftr h 24) in
  let add h i := u32 (h + Z.shiftl (uc data i) (8 * Z.of_nat i)) in
  match length data with
  | 3%nat => last (add (add (add h 2%nat) 1%nat) 0%nat)
  | 2%nat => last (add (add h 1%nat) 0%nat)
  | 1%nat => last (add h 0%nat)
  | _ => h
  end.

(** ** The filter policy interface *)

Record FilterPolicy := {
  fp_Name : bytes;
  CreateFilter : list bytes -> bytes -> bytes;      (** keys, [*dst] before: [*dst] after *)
  KeyMayMatch : bytes -> bytes -> bool              (** key, filter *)
}.

(** The documentation of filter_policy.h: [CreateFilter] appends to [*dst]
    without changing what it holds, and [KeyMayMatch] must return true for a
    key of the list. The number of keys is an [int]. *)
Class FilterPolicyLaws (fp : FilterPolicy) : Prop := {
  create_appends : forall keys dst, zlen keys < 2 ^ 31 ->
    CreateFilter fp keys dst = dst ++ CreateFilter fp keys [];
  may_match : forall keys key, zlen keys < 2 ^ 31 -> key ∈ keys ->
    KeyMayMatch fp key (CreateFilter fp keys []) = true
}.

(** ** The bloom filter *)

Definition BloomHash (key : bytes) : Z := Hash key 0xbc9f1d34.

(** [bits_per_key * 0.69] truncated, then clamped to [1 .. 30]: up to the
    clamp the product is never within rounding distance of an integer, so
    integer division computes what the double arithmetic does. *)
Definition bloom_k (bits_per_key : Z) : Z :=
  let k := bits_per_key * 69 / 100 in
  let k := if k <? 1 then 1 else k in
  if 30 <? k then 30 else k.

Definition rotate17 (h : Z) : Z := Z.lor (Z.shiftr h 17) (u32 (Z.shiftl h 15)).

(** [array[bitpos/8] |= (1 << (bitpos % 8))] *)
Definition set_bit (array : bytes) (bitpos : Z) : bytes :=
  alter (fun c => z2b (Z.lor (schar c) (Z.shiftl 1 (bitpos mod 8)))) (Z.to_nat (bitpos / 8)) array.

Fixpoint bloom_set (k : nat) (bits h delta : Z) (array : bytes) : bytes :=
  match k with
  | O => array
  | S k =>
      let bitpos := h mod bits in
      bloom_set k bits (u32 (h + delta)) delta (set_bit array bitpos)
  end.

Definition bloom_add (k : nat) (bits : Z) (array key : bytes) : bytes :=
  let h := BloomHash key in
  bloom_set k bits h (rotate17 h) array.

Definition Bloom_CreateFilter (bits_per_key : Z) (keys : list bytes) (dst : bytes) : bytes :=
  let k_ := bloom_k bits_per_key in
  let bits := u64 (zlen keys * bits_per_key) in
  let bits := if bits <? 64 then 64 else bits in
  let nbytes := u64 (bits + 7) / 8 in
  let bits := u64 (nbytes * 8) in
  (* the resized tail of *dst, with the number of probes pushed behind it *)
  let array := replicate (Z.to_nat nbytes) x00 ++ [z2b k_] in
  dst ++ fold_left (bloom_add (Z.to_nat k_) bits) keys array.

(** [array[bitpos/8] & (1 << (bitpos % 8))] is not zero. *)
Definition bit_set (array : bytes) (bitpos : Z) : bool :=
  negb (Z.land (schar (nth (Z.to_nat (bitpos / 8)) array x00)) (Z.shiftl 1 (bitpos mod 8)) =? 0).

Fixpoint bloom_probe (k : nat) (bits h delta : Z) (array : bytes) : bool :=
  match k with
  | O => true
  | S k =>
      let bitpos := h mod bits in
      if bit_set array bitpos then bloom_probe k bits (u32 (h + delta)) delta array
      else false
  end.

Definition Bloom_KeyMayMatch (key bloom_filter : bytes) : bool :=
  let len := zlen bloom_filter in
  if len <? 2 then false
  else
    let bits := u64 ((len - 1) * 8) in
    let k := u64 (schar (nth (Z.to_nat (len - 1)) bloom_filter x00)) in
    if 30 <? k then true
    else
      let h := BloomHash key in
      bloom_probe (Z.to_nat k) bits h (rotate17 h) bloom_filter.

Definition NewBloomFilterPolicy (bits_per_key : Z) : FilterPolicy := {|
  fp_Name := lit "leveldb.BuiltinBloomFilter2";
  CreateFilter := Bloom_CreateFilter bits_per_key;
  KeyMayMatch := Bloom_KeyMayMatch
|}.

(** ** Filters on internal keys *)

Definition InternalFilterPolicy (user_policy : FilterPolicy) : FilterPolicy := {|
  fp_Name := fp_Name user_policy;
  CreateFilter keys dst := CreateFilter user_policy (map ExtractUserKey keys) dst;
  KeyMayMatch key f := KeyMayMatch user_policy (ExtractUserKey key) f
|}.

(** ** Bits of the array *)

Lemma schar_testbit c j : 0 <= j < 8 -> Z.testbit (schar c) j = Z.testbit (b2z c) j.
Proof.
  intros Hj. unfold schar. destruct (_ <? _); [done|].
  rewrite <- (Z.mod_pow2_bits_low (b2z c - 256) 8 j), <- (Z.mod_pow2_bits_low (b2z c) 8 j) by lia.
  f_equal. change (2 ^ 8) with 256. rewrite <- (Z.mod_add (b2z c - 256) 1 256) by lia. f_equal. lia.
Qed.

(** Bit [j] of byte [i], as the probes see it. *)
Lemma bit_set_testbit array bitpos :
  bit_set array bitpos
  = Z.testbit (b2z (nth (Z.to_nat (bitpos / 8)) array x00)) (bitpos mod 8).
Proof.
  unfold bit_set. set (c := nth _ array x00). pose proof (Z.mod_pos_bound bitpos 8 ltac:(lia)).
  set (j := bitpos mod 8) in *. rewrite Z.shiftl_1_l.
  rewrite <- (schar_testbit c j) by lia. destruct (Z.testbit (schar c) j) eqn:E.
  - destruct (Z.eqb_spec (Z.land (schar c) (2 ^ j)) 0) as [E0|]; [|done].
    assert (Ht : Z.testbit (Z.land (schar c) (2 ^ j)) j = true)
      by (rewrite Z.land_spec, E, Z.pow2_bits_true by lia; done).
    by rewrite E0, Z.bits_0 in Ht.
  - replace (Z.land (schar c) (2 ^ j)) with 0; [done|]. symmetry.
    apply Z.bits_inj'. intros i Hi. rewrite Z.land_spec, Z.bits_0, Z.pow2_bits_eqb by lia.
    destruct (Z.eqb_spec j i) as [<-|]; [by rewrite E|apply andb_false_r].
Qed.

Lemma set_bit_length array p : length (set_bit array p) = length array.
Proof. apply length_alter. Qed.

Lemma nth_alter (f : byte -> byte) i array j : (i < length array)%nat ->
  nth j (alter f i array) x00 = if decide (i = j) then f (nth j array x00) else nth j array x00.
Proof.
  intros Hi. rewrite !nth_lookup. destruct (decide (i = j)) as [<-|Hne].
  - rewrite list_lookup_alter_eq. destruct (lookup_lt_is_Some_2 array i Hi) as [x ->]. done.
  - by rewrite list_lookup_alter_ne.
Qed.

(** Setting a bit sets it and clears none. *)
Lemma set_bit_spec array p q : 0 <= p -> (Z.to_nat (p / 8) < length array)%nat ->
  bit_set (set_bit array p) q = (Z.to_nat (p / 8) =? Z.to_nat (q / 8))%nat && (p mod 8 =? q mod 8) || bit_set array q.
Proof.
  intros Hp Hl. rewrite !bit_set_testbit. unfold set_bit. rewrite nth_alter by done.
  pose proof (Z.mod_pos_bound q 8 ltac:(lia)) as Hq. pose proof (Z.mod_pos_bound p 8 ltac:(lia)).
  destruct (decide (Z.to_nat (p / 8) = Z.to_nat (q / 8))) as [E|E].
  - rewrite <- E, Nat.eqb_refl. simpl. set (c := nth _ array x00).
    rewrite b2z_z2b. change 256 with (2 ^ 8). rewrite Z.mod_pow2_bits_low by lia.
    rewrite Z.lor_spec, Z.shiftl_1_l, Z.pow2_bits_eqb, orb_comm, schar_testbit by lia. done.
  - by rewrite (proj2 (Nat.eqb_neq _ _) E).
Qed.

(** ** No false negatives *)

Definition bits_le (a b : bytes) : Prop := forall q, bit_set a q = true -> bit_set b q = true.

#[global] Instance bits_le_preorder : PreOrder bits_le.
Proof. split; [by intros a q|]. intros a b c Hab Hbc q Hq. auto. Qed.

(** What a probe loop and a filling loop rely on: every probed position is a
    bit of the first [n] bytes of the array. *)
Record bloom_layout (n : nat) (bits : Z) (array : bytes) : Prop := {
  bl_bits : bits = 8 * Z.of_nat n;
  bl_pos : (0 < n)%nat;
  bl_len : (n < length array)%nat
}.

Lemma layout_index n bits array h : bloom_layout n bits array -> 0 <= h ->
  0 <= h mod bits /\ (Z.to_nat (h mod bits / 8) < n)%nat.
Proof.
  intros [-> Hn Hl] Hh. pose proof (Z.mod_pos_bound h (8 * Z.of_nat n) ltac:(lia)).
  split; [lia|]. assert (h mod (8 * Z.of_nat n) / 8 < Z.of_nat n) by (apply Z.div_lt_upper_bound; lia).
  assert (0 <= h mod (8 * Z.of_nat n) / 8) by (apply Z.div_pos; lia). lia.
Qed.

Lemma layout_set_bit n bits array p : bloom_layout n bits array -> bloom_layout n bits (set_bit array p).
Proof. intros [Hb Hn Hl]. split; [done|done|]. by rewrite set_bit_length. Qed.

Lemma set_bit_le array p : 0 <= p -> (Z.to_nat (p / 8) < length array)%nat -> bits_le array (set_bit array p).
Proof. intros Hp Hl q Hq. by rewrite set_bit_spec, Hq, orb_true_r. Qed.

Lemma u32_nonneg z : 0 <= u32 z.
Proof. apply Z.mod_pos_bound. lia. Qed.

Lemma bloom_set_spec k n bits : forall h delta array, 0 <= h -> bloom_layout n bits array ->
  let array' := bloom_set k bits h delta array in
  bits_le array array' /\ length array' = length array /\ nth n array' x00 = nth n array x00.
Proof.
  induction k as [|k IH]; intros h delta array Hh Hl; cbn [bloom_set]; [done|].
  destruct (layout_index n bits array h Hl Hh) as [Hm Hi]. pose proof (bl_len _ _ _ Hl).
  destruct (IH (u32 (h + delta)) delta (set_bit array (h mod bits)) (u32_nonneg _)
    (layout_set_bit _ _ _ _ Hl)) as (H1 & H2 & H3).
  repeat split.
  - transitivity (set_bit array (h mod bits)); [apply set_bit_le; lia|done].
  - by rewrite H2, set_bit_length.
  - rewrite H3. unfold set_bit. rewrite nth_alter by lia.
    destruct (decide _); [lia|done].
Qed.

(** The bits a key sets are the bits a probe for it looks at. *)
Lemma bloom_set_probe k n bits : forall h delta array array', 0 <= h -> bloom_layout n bits array ->
  bits_le (bloom_set k bits h delta array) array' -> bloom_probe k bits h delta array' = true.
Proof.
  induction k as [|k IH]; intros h delta array array' Hh Hl Hle; cbn [bloom_set bloom_probe] in *; [done|].
  destruct (layout_index n bits array h Hl Hh) as [Hm Hi]. pose proof (bl_len _ _ _ Hl).
  pose proof (layout_set_bit _ _ _ (h mod bits) Hl) as Hl'.
  assert (Hb : bit_set array' (h mod bits) = true).
  { apply Hle, (bloom_set_spec k n); [apply u32_nonneg|done|].
    by rewrite set_bit_spec, Nat.eqb_refl, Z.eqb_refl by lia. }
  rewrite Hb. by apply (IH _ _ (set_bit array (h mod bits))); [apply u32_nonneg| |].
Qed.

Lemma Hash_loop_nonneg fuel : forall h data, 0 <= h -> 0 <= (Hash_loop fuel h data).1.
Proof.
  induction fuel as [|fuel IH]; intros h data Hh; cbn [Hash_loop]; [done|].
  destruct (_ <=? _)%nat; [|done]. apply IH, Z.lxor_nonneg.
  split; intros _; [apply Z.shiftr_nonneg|]; apply u32_nonneg.
Qed.

Lemma Hash_nonneg data seed : 0 <= Hash data seed.
Proof.
  unfold Hash. pose proof (Hash_loop_nonneg (length data)
    (u32 (Z.lxor seed (u64 (zlen data * hash_m)))) data (u32_nonneg _)) as H.
  destruct (Hash_loop _ _ _) as [h rest]. simpl in H.
  destruct (length rest) as [|[|[|[|]]]]; try done;
    (apply Z.lxor_nonneg; split; intros _; [apply Z.shiftr_nonneg|]; apply u32_nonneg).
Qed.

Lemma bloom_fold_spec k n bits keys : forall array, bloom_layout n bits array ->
  let array' := fold_left (bloom_add k bits) keys array in
  bits_le array array' /\ length array' = length array /\ nth n array' x00 = nth n array x00 /\
  forall key, key ∈ keys -> bloom_probe k bits (BloomHash key) (rotate17 (BloomHash key)) array' = true.
Proof.
  induction keys as [|key keys IH]; intros array Hl array'.
  - repeat split; try done. by intros key ?%elem_of_nil.
  - destruct (bloom_set_spec k n bits (BloomHash key) (rotate17 (BloomHash key)) array
      (Hash_nonneg _ _) Hl) as (H1 & H2 & H3).
    set (a1 := bloom_set _ _ _ _ _) in H1, H2, H3.
    assert (Hl1 : bloom_layout n bits a1) by (destruct Hl; split; [done|done|by rewrite H2]).
    destruct (IH a1 Hl1) as (K1 & K2 & K3 & K4).
    unfold array'. rewrite fold_left_cons. change (bloom_add k bits array key) with a1.
    repeat split; [by transitivity a1|congruence|congruence|].
    intros key' [->|Hk]%elem_of_cons; [|by apply K4].
    by apply (bloom_set_probe k n bits _ _ array); [apply Hash_nonneg| |].
Qed.

Lemma bloom_k_range bpk : 1 <= bloom_k bpk <= 30.
Proof. unfold bloom_k. zcases; lia. Qed.

(** The size arithmetic of [CreateFilter] does not wrap. *)
Lemma bloom_size bpk n : 0 <= bpk < 2 ^ 31 -> 0 <= n < 2 ^ 31 ->
  let bits := u64 (n * bpk) in
  let bits := if bits <? 64 then 64 else bits in
  let nbytes := u64 (bits + 7) / 8 in
  8 <= nbytes < 2 ^ 60 /\ u64 (nbytes * 8) = nbytes * 8.
Proof.
  intros Hb Hn bits bits' nbytes. unfold u64 in *.
  assert (0 <= n * bpk < 2 ^ 62) by nia.
  assert (Eb : bits = n * bpk) by (apply Z.mod_small; lia).
  assert (64 <= bits' < 2 ^ 62) by (unfold bits'; zcases; lia).
  assert (En : nbytes = (bits' + 7) / 8) by (unfold nbytes; rewrite Z.mod_small by lia; done).
  assert (8 <= nbytes < 2 ^ 60).
  { rewrite En. split; [apply Z.div_le_lower_bound; lia|apply Z.div_lt_upper_bound; lia]. }
  split; [done|]. apply Z.mod_small. lia.
Qed.

#[global] Instance Bloom_laws bpk : 0 <= bpk < 2 ^ 31 -> FilterPolicyLaws (NewBloomFilterPolicy bpk).
Proof.
  intros Hb. split; [done|]. intros keys key Hn Hk.
  cbn [NewBloomFilterPolicy KeyMayMatch CreateFilter]. unfold Bloom_CreateFilter.
  destruct (bloom_size bpk (zlen keys) Hb) as [H1 H2]; [unfold zlen in *; lia|].
  pose proof (bloom_k_range bpk) as Hkr.
  set (nbytes := u64 _ / 8) in *. rewrite H2, app_nil_l.
  set (array := replicate (Z.to_nat nbytes) x00 ++ [z2b (bloom_k bpk)]).
  assert (Hlen : length array = S (Z.to_nat nbytes)).
  { unfold array. rewrite length_app, length_replicate. simpl. lia. }
  assert (Hl : bloom_layout (Z.to_nat nbytes) (nbytes * 8) array) by (split; lia).
  destruct (bloom_fold_spec (Z.to_nat (bloom_k bpk)) _ _ keys array Hl) as (_ & K2 & K3 & K4).
  set (array' := fold_left _ keys array) in *. unfold Bloom_KeyMayMatch.
  assert (Hz : zlen array' = nbytes + 1) by (unfold zlen; lia).
  rewrite Hz. replace (nbytes + 1 - 1) with nbytes by lia.
  destruct (Z.ltb_spec (nbytes + 1) 2); [lia|]. rewrite K3, H2.
  assert (En : nth (Z.to_nat nbytes) array x00 = z2b (bloom_k bpk)).
  { unfold array. rewrite app_nth2; rewrite length_replicate; [|lia]. by rewrite Nat.sub_diag. }
  assert (Es : u64 (schar (z2b (bloom_k bpk))) = bloom_k bpk).
  { unfold schar. rewrite b2z_small by lia. destruct (Z.ltb_spec (bloom_k bpk) 128); [|lia].
    apply Z.mod_small. lia. }
  rewrite En, Es. destruct (Z.ltb_spec 30 (bloom_k bpk)); [done|]. by apply K4.
Qed.

#[global] Instance InternalFilterPolicy_laws fp :
  FilterPolicyLaws fp -> FilterPolicyLaws (InternalFilterPolicy fp).
Proof.
  intros Hfp. split; cbn [InternalFilterPolicy CreateFilter KeyMayMatch]; unfold zlen; intros keys key Hn.
  - apply create_appends. unfold zlen. by rewrite length_map.
  - intros Hk. apply may_match; [unfold zlen; by rewrite length_map|].
    by apply (list_elem_of_fmap_2 ExtractUserKey).
Qed.

(** ** Properties *)

(** C36. The bloom filter has no false negatives, used directly or through the
    wrapper that strips the tag of internal keys: every key a filter was
    created from may match it, also when the filter is appended behind other
    data and cut out again. *)
Theorem bloom_no_false_negative bits_per_key keys key dst :
  0 <= bits_per_key < 2 ^ 31 -> zlen keys < 2 ^ 31 -> key ∈ keys ->
  let user := NewBloomFilterPolicy bits_per_key in
  let internal := InternalFilterPolicy user in
  KeyMayMatch user key (drop (length dst) (CreateFilter user keys dst)) = true /\
  KeyMayMatch internal key (drop (length dst) (CreateFilter internal keys dst)) = true.
Proof.
  intros Hb Hn Hk user internal. pose proof (Bloom_laws bits_per_key Hb) as Hu.
  rewrite (create_appends keys dst Hn), drop_app_length, (may_match keys key Hn Hk).
  pose proof (InternalFilterPolicy_laws user Hu) as Hi.
  by rewrite (create_appends keys dst Hn), drop_app_length, (may_match keys key Hn Hk).
Qed.

Lemma bloom_no_false_negative_witness :
  let user := NewBloomFilterPolicy 10 in
  KeyMayMatch user (lit "key00001") (drop 3 (CreateFilter user [lit "key00000"; lit "key00001"] (lit "abc"))) = true /\
  KeyMayMatch user (lit "absent") (drop 3 (CreateFilter user [lit "key00000"; lit "key00001"] (lit "abc"))) = false.
Proof.
  split; [|vm_compute; reflexivity].
  apply (bloom_no_false_negative 10 [lit "key00000"; lit "key00001"] (lit "key00001") (lit "abc"));
    [lia|unfold zlen; cbn; lia|apply elem_of_cons; right; apply elem_of_cons; left; reflexivity].
Defined.
