(* ===== verification/FilterBlock.v ===== *)
(** * Filter blocks: table/filter_block.cpp

    One filter for every 2 KiB of data blocks, stored with an array of their
    offsets. The builder is a state record with one function per method; the
    reader answers "may match" for every key added to the block that starts
    at the offset asked for. *)

From S2P Require Import Prelude Coding Comparator Dbformat Filter.

Definition kFilterBaseLg : Z := 11.
Definition kFilterBase : Z := Z.shiftl 1 kFilterBaseLg.

(** ** The builder *)

Record FilterBlockBuilder := mkFBB {
  keys_ : bytes;                 (** flattened key contents *)
  start_ : list Z;               (** starting index in keys_ of each key *)
  result_ : bytes;               (** filter data computed so far *)
  filter_offsets_ : list Z       (** uint32_t each *)
}.

Definition new_FilterBlockBuilder : FilterBlockBuilder := mkFBB [] [] [] [].

(** The slices of the flattened keys: [start] ends with the sentinel. *)
Fixpoint make_tmp_keys (keys : bytes) (start : list Z) : list bytes :=
  match start with
  | a :: (b :: _) as rest =>
      take (Z.to_nat (b - a)) (drop (Z.to_nat a) keys) :: make_tmp_keys keys rest
  | _ => []
  end.

Definition GenerateFilter (policy : FilterPolicy) (b : FilterBlockBuilder) : FilterBlockBuilder :=
  let offsets := filter_offsets_ b ++ [u32 (zlen (result_ b))] in
  match start_ b with
  | [] => mkFBB (keys_ b) (start_ b) (result_ b) offsets
  | _ =>
      let tmp_keys := make_tmp_keys (keys_ b) (start_ b ++ [zlen (keys_ b)]) in
      mkFBB [] [] (CreateFilter policy tmp_keys (result_ b)) offsets
  end.

Fixpoint StartBlock_loop (fuel : nat) (policy : FilterPolicy) (filter_index : Z)
    (b : FilterBlockBuilder) : FilterBlockBuilder :=
  match fuel with
  | O => b
  | S fuel =>
      if zlen (filter_offsets_ b) <? filter_index
      then StartBlock_loop fuel policy filter_index (GenerateFilter policy b)
      else b
  end.

Definition StartBlock (policy : FilterPolicy) (block_offset : Z) (b : FilterBlockBuilder) :
    FilterBlockBuilder :=
  let filter_index := block_offset / kFilterBase in
  StartBlock_loop (Z.to_nat filter_index) policy filter_index b.

Definition AddKey (key : bytes) (b : FilterBlockBuilder) : FilterBlockBuilder :=
  mkFBB (keys_ b ++ key) (start_ b ++ [zlen (keys_ b)]) (result_ b) (filter_offsets_ b).

(** The slice returned. *)
Definition FilterBlock_Finish (policy : FilterPolicy) (b : FilterBlockBuilder) : bytes :=
  let b := match start_ b with [] => b | _ => GenerateFilter policy b end in
  let array_offset := u32 (zlen (result_ b)) in
  let result := fold_left PutFixed32 (filter_offsets_ b) (result_ b) in
  PutFixed32 result array_offset ++ [z2b kFilterBaseLg].

(** ** The reader *)

Record FilterBlockReader := mkFBR {
  fr_data : bytes;         (** [data_]: the filter data, at block start *)
  fr_offset : Z;           (** [offset_ - data_] *)
  fr_num : Z;              (** [num_] *)
  fr_base_lg : Z           (** [base_lg_] *)
}.

Definition new_FilterBlockReader (contents : bytes) : FilterBlockReader :=
  let n := zlen contents in
  if n <? 5 then mkFBR [] 0 0 0
  else
    let base_lg := u64 (schar (nth (Z.to_nat (n - 1)) contents x00)) in
    let last_word := DecodeFixed32 (drop (Z.to_nat (n - 5)) contents) in
    if n - 5 <? last_word then mkFBR [] 0 0 base_lg
    else mkFBR contents last_word ((n - 5 - last_word) / 4) base_lg.

Definition FilterBlock_KeyMayMatch (policy : FilterPolicy) (r : FilterBlockReader)
    (block_offset : Z) (key : bytes) : bool :=
  let index := Z.shiftr block_offset (fr_base_lg r) in
  if index <? fr_num r then
    let start := DecodeFixed32 (drop (Z.to_nat (fr_offset r + index * 4)) (fr_data r)) in
    let limit := DecodeFixed32 (drop (Z.to_nat (fr_offset r + index * 4 + 4)) (fr_data r)) in
    if (start <=? limit) && (limit <=? fr_offset r) then
      KeyMayMatch policy key (take (Z.to_nat (limit - start)) (drop (Z.to_nat start) (fr_data r)))
    else if start =? limit then false
    else true
  else true.

(** ** The protocol *)

(** [(StartBlock AddKey* )*]: the blocks with their offsets and keys. *)
Definition build_blocks (policy : FilterPolicy) (blocks : list (Z * list bytes)) : FilterBlockBuilder :=
  fold_left (fun b blk => fold_left (fun b k => AddKey k b) blk.2 (StartBlock policy blk.1 b))
    blocks new_FilterBlockBuilder.

(** ** What the builder holds *)

Section Rep.
Context (policy : FilterPolicy) `{!FilterPolicyLaws policy}.

(** The filter of one group of keys. *)
Definition gen (ks : list bytes) : bytes :=
  match ks with [] => [] | _ => CreateFilter policy ks [] end.

(** The groups whose filters are generated, and the keys of the current one. *)
Record fb_rep (gens : list (list bytes)) (pending : list bytes) (b : FilterBlockBuilder) : Prop := {
  rep_result : result_ b = concat (map gen gens);
  rep_offsets : filter_offsets_ b = map u32 (offsets 0 (map gen gens));
  rep_keys : keys_ b = concat pending;
  rep_start : start_ b = offsets 0 pending;
  rep_small : Forall (fun g => zlen g < 2 ^ 31) gens
}.

Lemma make_tmp_keys_spec ks pre :
  make_tmp_keys (pre ++ concat ks) (offsets (zlen pre) ks ++ [zlen (pre ++ concat ks)]) = ks.
Proof.
  revert pre. induction ks as [|k ks IH]; intros pre; [done|].
  specialize (IH (pre ++ k)). rewrite <- app_assoc, zlen_app in IH.
  assert (Hcur : forall e, e = zlen pre + zlen k ->
    take (Z.to_nat (e - zlen pre)) (drop (Z.to_nat (zlen pre)) (pre ++ k ++ concat ks)) = k).
  { intros e ->. replace (zlen pre + zlen k - zlen pre) with (zlen k) by lia.
    rewrite !to_nat_zlen, drop_app_length. by rewrite take_app_length. }
  cbn [offsets app concat make_tmp_keys]. destruct ks as [|k' ks].
  - cbn [offsets app concat make_tmp_keys] in *. f_equal. apply Hcur.
    rewrite !zlen_app, zlen_nil. lia.
  - cbn [offsets app] in *. f_equal; [by apply Hcur|exact IH].
Qed.

Lemma GenerateFilter_rep gens pending b : zlen pending < 2 ^ 31 ->
  fb_rep gens pending b -> fb_rep (gens ++ [pending]) [] (GenerateFilter policy b).
Proof.
  intros Hn [Hr Ho Hk Hs Hsm]. unfold GenerateFilter.
  assert (Hsm' : Forall (fun g => zlen g < 2 ^ 31) (gens ++ [pending])) by (apply Forall_app; auto).
  assert (Hoff : filter_offsets_ b ++ [u32 (zlen (result_ b))]
    = map u32 (offsets 0 (map gen (gens ++ [pending])))).
  { rewrite map_app, offsets_app, map_app, <- Ho, Z.add_0_l, <- Hr. done. }
  rewrite Hs. destruct pending as [|k pending].
  - split; cbn; try done. rewrite map_app, concat_app. cbn. by rewrite app_nil_r.
  - cbn [offsets]. split; cbn [result_ filter_offsets_ keys_ start_]; try done.
    rewrite Hk, <- (app_nil_l (concat _)).
    change (0 :: offsets (0 + zlen k) pending) with (offsets (zlen (@nil byte)) (k :: pending)).
    rewrite make_tmp_keys_spec, create_appends, Hr by done.
    rewrite map_app, concat_app. cbn [map concat gen]. by rewrite app_nil_r.
Qed.

Lemma AddKey_rep gens pending k b : fb_rep gens pending b -> fb_rep gens (pending ++ [k]) (AddKey k b).
Proof.
  intros [Hr Ho Hk Hs Hsm]. split; cbn; [done|done| | |done].
  - rewrite concat_app, Hk. cbn. by rewrite app_nil_r.
  - by rewrite offsets_app, Hs, Hk.
Qed.

Lemma AddKeys_rep gens ks : forall pending b, fb_rep gens pending b ->
  fb_rep gens (pending ++ ks) (fold_left (fun b k => AddKey k b) ks b).
Proof.
  induction ks as [|k ks IH]; intros pending b Hb; cbn; [by rewrite app_nil_r|].
  rewrite cons_middle, app_assoc. by apply IH, AddKey_rep.
Qed.

Lemma rep_num gens pending b : fb_rep gens pending b -> zlen (filter_offsets_ b) = zlen gens.
Proof. intros [_ -> _ _ _]. unfold zlen. by rewrite !length_map, length_offsets, length_map. Qed.

(** [StartBlock] closes the current group, if the offset has passed it, and
    opens groups up to the one of the offset: the loop always terminates. *)
Lemma StartBlock_loop_rep fuel idx : forall gens pending b, zlen pending < 2 ^ 31 ->
  fb_rep gens pending b -> zlen gens <= idx -> (Z.to_nat (idx - zlen gens) <= fuel)%nat ->
  exists gens' pending', fb_rep gens' pending' (StartBlock_loop fuel policy idx b) /\
    zlen gens' = idx /\
    (zlen gens = idx /\ gens' = gens /\ pending' = pending \/
     exists k, gens' = gens ++ [pending] ++ repeat [] k /\ pending' = []).
Proof.
  induction fuel as [|fuel IH]; intros gens pending b Hn Hb Hle Hf; cbn [StartBlock_loop].
  - exists gens, pending. split; [done|]. split; [lia|]. left. split; [lia|done].
  - rewrite (rep_num gens pending b) by done. destruct (Z.ltb_spec (zlen gens) idx) as [Hlt|Hge].
    2: { exists gens, pending. split; [done|]. split; [lia|]. left. split; [lia|done]. }
    destruct (IH (gens ++ [pending]) [] (GenerateFilter policy b)) as (g' & p' & H1 & H2 & H3).
    { done. } { by apply GenerateFilter_rep. }
    1-2: rewrite zlen_app; unfold zlen in *; cbn; lia.
    exists g', p'. split; [done|]. split; [done|]. right. destruct H3 as [(_ & -> & ->)|(k & -> & ->)].
    + by exists 0%nat.
    + exists (S k). split; [|done]. by rewrite <- !app_assoc.
Qed.

(** Key [k], added to the block at offset [o], is in the group of [o]. *)
Definition covered (gens : list (list bytes)) (pending : list bytes) (o : Z) (k : bytes) : Prop :=
  (exists g, gens !! Z.to_nat (o / kFilterBase) = Some g /\ k ∈ g) \/
  (o / kFilterBase = zlen gens /\ k ∈ pending).

Lemma covered_start gens pending gens' pending' idx o k :
  (zlen gens = idx /\ gens' = gens /\ pending' = pending \/
     exists n, gens' = gens ++ [pending] ++ repeat [] n /\ pending' = []) ->
  covered gens pending o k -> covered gens' pending' o k.
Proof.
  intros [(_ & -> & ->)|(n & -> & ->)]; [done|]. intros [(g & Hg & Hk)|(E & Hk)]; left.
  - exists g. by rewrite lookup_app_l by (by apply lookup_lt_Some in Hg).
  - exists pending. split; [|done]. rewrite E, to_nat_zlen. by apply list_lookup_middle.
Qed.

Lemma covered_add gens pending ks o k : covered gens pending o k -> covered gens (pending ++ ks) o k.
Proof. intros [H|[H1 H2]]; [by left|right]. split; [done|]. apply elem_of_app. by left. Qed.

Definition num_keys (blocks : list (Z * list bytes)) : Z := zlen (concat (map snd blocks)).

Lemma build_rep blocks : forall gens pending b, fb_rep gens pending b ->
  StronglySorted Z.le (map fst blocks) ->
  Forall (fun blk => zlen gens <= blk.1 / kFilterBase) blocks ->
  zlen pending + num_keys blocks < 2 ^ 31 ->
  exists gens' pending',
    fb_rep gens' pending'
      (fold_left (fun b blk => fold_left (fun b k => AddKey k b) blk.2 (StartBlock policy blk.1 b)) blocks b) /\
    zlen pending' < 2 ^ 31 /\
    (forall o k, covered gens pending o k -> covered gens' pending' o k) /\
    (forall o ks k, (o, ks) ∈ blocks -> k ∈ ks -> covered gens' pending' o k).
Proof.
  induction blocks as [|[o ks] blocks IH]; intros gens pending b Hb Hs Hf Hn; cbn [fold_left].
  { exists gens, pending. unfold num_keys in Hn. cbn in Hn. rewrite zlen_nil in Hn.
    repeat split; [apply Hb..|lia|done|]. by intros ? ? ? ?%elem_of_nil. }
  inversion Hf as [|? ? Ho Hf']; subst. apply StronglySorted_inv in Hs as [Hs Hle].
  unfold num_keys in Hn. cbn [map concat fst snd] in Hn, Ho. rewrite zlen_app in Hn.
  pose proof (zlen_nonneg (concat (map snd blocks))). pose proof (zlen_nonneg ks).
  destruct (StartBlock_loop_rep (Z.to_nat (o / kFilterBase)) (o / kFilterBase) gens pending b)
    as (g1 & p1 & R1 & N1 & C1); [lia|done|done|pose proof (zlen_nonneg gens); lia|].
  assert (Hp1 : zlen p1 <= zlen pending).
  { destruct C1 as [(_ & _ & ->)|(n & _ & ->)]; [done|apply zlen_nonneg]. }
  destruct (IH g1 (p1 ++ ks) (fold_left (fun b k => AddKey k b) ks (StartBlock policy o b)))
    as (g2 & p2 & R2 & N2 & C2 & C3).
  { by apply AddKeys_rep. } { done. }
  { apply List.Forall_forall. intros [o' ks'] Hin. cbn [fst]. rewrite N1.
    rewrite List.Forall_forall in Hle. apply Z.div_le_mono; [by vm_compute|].
    apply Hle. by apply (in_map fst _ _ Hin). }
  { rewrite zlen_app. unfold num_keys. lia. }
  exists g2, p2. split; [done|]. split; [done|]. split.
  - intros o' k' Hc. apply C2, covered_add. by apply (covered_start gens pending g1 p1 (o / kFilterBase)).
  - intros o' ks' k' [[= -> ->]|Hin]%elem_of_cons Hk'; [|by apply (C3 o' ks' k')].
    apply C2. right. split; [done|]. apply elem_of_app. by right.
Qed.

End Rep.

(** ** What the reader finds *)

(** The encoded block: the filters, their offsets and the end of the last one
    as an array of fixed32, and the encoding parameter. *)
Definition filter_contents (fs : list bytes) : bytes :=
  concat fs ++ concat (map EncodeFixed32 (map u32 (offsets 0 fs ++ [zlen (concat fs)]))) ++ [z2b kFilterBaseLg].

Lemma filter_contents_length fs : zlen (filter_contents fs) = zlen (concat fs) + 4 * zlen fs + 5.
Proof.
  unfold filter_contents. rewrite !zlen_app. unfold zlen at 2. rewrite fixed32_array_length.
  rewrite length_map, length_app, length_offsets. unfold zlen. cbn [length]. lia.
Qed.

Lemma Finish_contents policy gens pending b : FilterPolicyLaws policy -> zlen pending < 2 ^ 31 ->
  fb_rep policy gens pending b ->
  FilterBlock_Finish policy b
  = filter_contents (map (gen policy) (match pending with [] => gens | _ => gens ++ [pending] end)).
Proof.
  intros HL Hn Hb. unfold FilterBlock_Finish. rewrite (rep_start _ _ _ _ Hb).
  assert (Hgen : forall gens b, fb_rep policy gens [] b ->
    PutFixed32 (fold_left PutFixed32 (filter_offsets_ b) (result_ b)) (u32 (zlen (result_ b)))
      ++ [z2b kFilterBaseLg] = filter_contents (map (gen policy) gens)).
  { intros gens' b' [Hr Ho _ _ _]. rewrite fold_PutFixed32. unfold PutFixed32, filter_contents.
    rewrite Ho, Hr, !map_app, concat_app, <- !app_assoc. cbn [map concat]. by rewrite app_nil_r. }
  destruct pending as [|k pending]; [by apply Hgen|]. cbn [offsets].
  by apply Hgen, GenerateFilter_rep.
Qed.

(** The reader of a well-formed block. *)
Lemma reader_contents fs : zlen (filter_contents fs) < 2 ^ 32 ->
  new_FilterBlockReader (filter_contents fs)
  = mkFBR (filter_contents fs) (zlen (concat fs)) (zlen fs) kFilterBaseLg.
Proof.
  intros Hsz. unfold new_FilterBlockReader. pose proof (filter_contents_length fs) as Hlen.
  pose proof (zlen_nonneg (concat fs)). pose proof (zlen_nonneg fs).
  destruct (Z.ltb_spec (zlen (filter_contents fs)) 5); [lia|].
  assert (Elg : nth (Z.to_nat (zlen (filter_contents fs) - 1)) (filter_contents fs) x00 = z2b kFilterBaseLg).
  { unfold filter_contents. rewrite app_assoc. rewrite zlen_app. change (zlen [_]) with 1.
    replace (_ + 1 - 1) with (zlen (concat fs ++ concat (map EncodeFixed32 (map u32 (offsets 0 fs ++ [zlen (concat fs)]))))) by lia.
    by rewrite to_nat_zlen, nth_middle. }
  rewrite Elg. change (u64 (schar (z2b kFilterBaseLg))) with kFilterBaseLg.
  assert (Elw : DecodeFixed32 (drop (Z.to_nat (zlen (filter_contents fs) - 5)) (filter_contents fs)) = zlen (concat fs)).
  { replace (Z.to_nat (zlen (filter_contents fs) - 5)) with (length (concat fs) + 4 * length fs)%nat
      by (rewrite Hlen; unfold zlen; lia).
    unfold filter_contents. rewrite <- drop_drop, drop_app_length.
    rewrite (fixed32_array_lookup _ _ (u32 (zlen (concat fs)))).
    { unfold u32. rewrite Z.mod_mod by lia. apply Z.mod_small. lia. }
    rewrite list_lookup_fmap, lookup_app_r by (rewrite length_offsets; lia).
    by rewrite length_offsets, Nat.sub_diag. }
  rewrite Elw. destruct (Z.ltb_spec (zlen (filter_contents fs) - 5) (zlen (concat fs))); [lia|].
  f_equal. rewrite Hlen. symmetry. apply Z.div_unique_exact; lia.
Qed.

(** The offset word [i] of the array, the end of the data behind the last. *)
Lemma offset_word fs i : zlen (filter_contents fs) < 2 ^ 32 -> (i <= length fs)%nat ->
  DecodeFixed32 (drop (length (concat fs) + 4 * i) (filter_contents fs)) = zlen (concat (take i fs)).
Proof.
  intros Hsz Hi. unfold filter_contents. rewrite <- drop_drop, drop_app_length.
  rewrite (fixed32_array_lookup _ _ (u32 (zlen (concat (take i fs))))).
  - pose proof (concat_take_le fs i). pose proof (zlen_nonneg (concat (take i fs))).
    pose proof (filter_contents_length fs). pose proof (zlen_nonneg fs).
    unfold u32. rewrite Z.mod_mod by lia. apply Z.mod_small. lia.
  - rewrite list_lookup_fmap. destruct (decide (i = length fs)) as [->|Hne].
    + rewrite lookup_app_r by (rewrite length_offsets; lia).
      rewrite length_offsets, Nat.sub_diag. cbn. by rewrite firstn_all.
    + rewrite lookup_app_l by (rewrite length_offsets; lia). by rewrite offsets_lookup by lia.
Qed.

Lemma reader_match policy fs o key f : zlen (filter_contents fs) < 2 ^ 32 -> 0 <= o ->
  fs !! Z.to_nat (o / kFilterBase) = Some f ->
  FilterBlock_KeyMayMatch policy (new_FilterBlockReader (filter_contents fs)) o key
  = KeyMayMatch policy key f.
Proof.
  intros Hsz Ho Hf. rewrite reader_contents by done. unfold FilterBlock_KeyMayMatch.
  cbn [fr_base_lg fr_num fr_offset fr_data].
  rewrite Z.shiftr_div_pow2 by (unfold kFilterBaseLg; lia). change (2 ^ kFilterBaseLg) with kFilterBase.
  assert (Hi0 : 0 <= o / kFilterBase) by (apply Z.div_pos; [done|by vm_compute]).
  set (i := Z.to_nat (o / kFilterBase)) in *. assert (Ei : o / kFilterBase = Z.of_nat i) by lia.
  rewrite Ei. pose proof (lookup_lt_Some _ _ _ Hf) as Hlt.
  destruct (Z.ltb_spec (Z.of_nat i) (zlen fs)); [|unfold zlen in *; lia].
  replace (Z.to_nat (zlen (concat fs) + Z.of_nat i * 4)) with (length (concat fs) + 4 * i)%nat
    by (unfold zlen; lia).
  replace (Z.to_nat (zlen (concat fs) + Z.of_nat i * 4 + 4)) with (length (concat fs) + 4 * S i)%nat
    by (unfold zlen; lia).
  rewrite !offset_word by (done || lia). rewrite (concat_take_S _ _ _ Hf), zlen_app.
  pose proof (concat_take_le fs (S i)) as Hle. rewrite (concat_take_S _ _ _ Hf), zlen_app in Hle.
  pose proof (zlen_nonneg f).
  destruct (Z.leb_spec (zlen (concat (take i fs))) (zlen (concat (take i fs)) + zlen f)); [|lia].
  destruct (Z.leb_spec (zlen (concat (take i fs)) + zlen f) (zlen (concat fs))); [|lia]. cbn [andb].
  replace (_ + zlen f - _) with (zlen f) by lia. rewrite !to_nat_zlen. unfold filter_contents.
  by rewrite (chunk_at fs i f).
Qed.

Lemma filter_block_complete policy blocks o ks k : FilterPolicyLaws policy ->
  StronglySorted Z.le (map fst blocks) -> Forall (fun blk => 0 <= blk.1) blocks ->
  num_keys blocks < 2 ^ 31 ->
  zlen (FilterBlock_Finish policy (build_blocks policy blocks)) < 2 ^ 32 ->
  (o, ks) ∈ blocks -> k ∈ ks ->
  FilterBlock_KeyMayMatch policy
    (new_FilterBlockReader (FilterBlock_Finish policy (build_blocks policy blocks))) o k = true.
Proof.
  intros HL Hs Hpos Hn Hsz Hin Hk.
  assert (Ho : 0 <= o) by (rewrite Forall_forall in Hpos; exact (Hpos _ Hin)).
  destruct (build_rep policy blocks [] [] new_FilterBlockBuilder) as (g & p & R & N & _ & C); try done.
  { eapply Forall_impl; [exact Hpos|]. intros blk Hb. cbn. apply Z.div_pos; [done|by vm_compute]. }
  specialize (C o ks k Hin Hk). change (fold_left _ blocks _) with (build_blocks policy blocks) in R.
  rewrite (Finish_contents policy g p) in * by done.
  set (gs := match p with [] => g | _ => g ++ [p] end) in *.
  assert (exists ks', gs !! Z.to_nat (o / kFilterBase) = Some ks' /\ k ∈ ks' /\ zlen ks' < 2 ^ 31)
    as (ks' & Hg & Hk' & Hks').
  { pose proof (rep_small _ _ _ _ R) as Hsm. rewrite Forall_forall in Hsm.
    destruct C as [(g0 & Hg0 & Hk0)|(E & Hk0)].
    - exists g0. repeat split; [|done|by apply Hsm; eapply list_elem_of_lookup_2].
      unfold gs. destruct p; [done|]. by rewrite lookup_app_l by (by eapply lookup_lt_Some).
    - exists p. repeat split; [|done|done]. unfold gs. rewrite E, to_nat_zlen.
      destruct p as [|k0 p]; [by apply elem_of_nil in Hk0|]. by apply list_lookup_middle. }
  rewrite (reader_match policy _ o k (gen policy ks')); [|done|done|by rewrite list_lookup_fmap, Hg].
  destruct ks' as [|k0 ks']; [by apply elem_of_nil in Hk'|]. by apply may_match.
Qed.

(** ** Properties *)

(** C37. The filter block of a table has no false negatives: a key added behind
    [StartBlock(o)] may match when the reader is asked at the same block
    offset [o], whatever the policy, the other blocks and the gaps between
    them. *)
Theorem filter_block_no_false_negative policy blocks o ks k : FilterPolicyLaws policy ->
  StronglySorted Z.le (map fst blocks) -> Forall (fun blk => 0 <= blk.1) blocks ->
  num_keys blocks < 2 ^ 31 ->
  zlen (FilterBlock_Finish policy (build_blocks policy blocks)) < 2 ^ 32 ->
  (o, ks) ∈ blocks -> k ∈ ks ->
  FilterBlock_KeyMayMatch policy
    (new_FilterBlockReader (FilterBlock_Finish policy (build_blocks policy blocks))) o k = true.
Proof. apply filter_block_complete. Qed.

Lemma filter_block_no_false_negative_witness :
  let policy := NewBloomFilterPolicy 10 in
  let blocks := [(0, [lit "foo"]); (100, [lit "bar"]); (9000, [lit "box"; lit "hello"])] in
  let reader := new_FilterBlockReader (FilterBlock_Finish policy (build_blocks policy blocks)) in
  FilterBlock_KeyMayMatch policy reader 9000 (lit "box") = true /\
  FilterBlock_KeyMayMatch policy reader 9000 (lit "foo") = false.
Proof.
  split; [|vm_compute; reflexivity].
  apply (filter_block_no_false_negative _ _ 9000 [lit "box"; lit "hello"]).
  - apply Bloom_laws. lia.
  - repeat constructor; vm_compute; discriminate.
  - repeat constructor; vm_compute; discriminate.
  - vm_compute. reflexivity.
  - vm_compute. reflexivity.
  - apply elem_of_cons; right; apply elem_of_cons; right; apply elem_of_cons; left; reflexivity.
  - apply elem_of_cons; left; reflexivity.
Defined.
