(* ===== verification/Random.v ===== *)
(** * The pseudo-random generator: util/random.h

    A Lehmer generator modulo the Mersenne prime 2^31 - 1, computed without
    a division. It drives the node heights of the skip list. *)

From S2P Require Import Prelude.

Definition random_M : Z := 2147483647.
Definition random_A : Z := 16807.

(** [Random(s)]: the seed kept. *)
Definition new_Random (s : Z) : Z :=
  let seed := Z.land s 0x7fffffff in
  if (seed =? 0) || (seed =? 2147483647) then 1 else seed.

(** [Next()]: the new seed, which is also the value returned. *)
Definition Random_Next (seed : Z) : Z :=
  let product := u64 (seed * random_A) in
  let seed := u32 (Z.shiftr product 31 + Z.land product random_M) in
  if random_M <? seed then u32 (seed - random_M) else seed.

(** Value returned and new seed. *)
Definition Random_Uniform (n seed : Z) : Z * Z :=
  let seed := Random_Next seed in (seed mod n, seed).

Definition Random_OneIn (n seed : Z) : bool * Z :=
  let seed := Random_Next seed in (seed mod n =? 0, seed).

Definition Random_Skewed (max_log seed : Z) : Z * Z :=
  let '(u, seed) := Random_Uniform (max_log + 1) seed in
  Random_Uniform (Z.shiftl 1 u) seed.

Definition good_seed (seed : Z) : Prop := 1 <= seed < random_M.

(** ** Properties *)

Lemma new_Random_good s : good_seed (new_Random s).
Proof.
  unfold new_Random, good_seed, random_M. change 0x7fffffff with (2 ^ 31 - 1).
  rewrite land_ones_mod by lia. pose proof (Z.mod_pos_bound s (2 ^ 31) ltac:(lia)).
  zcases; simpl; lia.
Qed.

Lemma mod_M_nonzero seed : good_seed seed -> seed * random_A mod random_M <> 0.
Proof.
  unfold good_seed. intros Hs E. apply Z.mod_divide in E; [|by vm_compute].
  rewrite Z.mul_comm in E. apply Z.gauss in E; [|by vm_compute].
  apply Z.divide_pos_le in E; lia.
Qed.

(** The shift and add computes the remainder, which is never 0. *)
Lemma Random_Next_mod seed : good_seed seed ->
  Random_Next seed = seed * random_A mod random_M /\ good_seed (Random_Next seed).
Proof.
  intros Hs. pose proof (mod_M_nonzero seed Hs) as Hnz. unfold good_seed, random_M, random_A in *.
  assert (E : Random_Next seed = seed * 16807 mod 2147483647).
  { unfold Random_Next, random_M, random_A.
    replace (Z.land _ 2147483647) with (Z.land (u64 (seed * 16807)) (2 ^ 31 - 1)) by done.
    rewrite land_ones_mod, Z.shiftr_div_pow2 by lia. unfold u64.
    rewrite (Z.mod_small (seed * 16807)) by lia.
    set (p := seed * 16807) in *. pose proof (Z.div_mod p (2 ^ 31) ltac:(lia)).
    pose proof (Z.mod_pos_bound p (2 ^ 31) ltac:(lia)).
    set (q := p / 2 ^ 31) in *. set (r := p mod 2 ^ 31) in *. assert (0 <= q < 16807) by lia.
    unfold u32. rewrite (Z.mod_small (q + r)) by lia.
    destruct (Z.ltb_spec 2147483647 (q + r)).
    - rewrite Z.mod_small by lia. apply (Z.mod_unique _ _ (q + 1)); lia.
    - apply (Z.mod_unique _ _ q); [|lia]. left.
      assert (q + r <> 2147483647); [|lia]. intros Hq. apply Hnz.
      replace p with ((q + 1) * 2147483647) by lia. apply Z.mod_mul. lia. }
  rewrite E. split; [done|]. pose proof (Z.mod_pos_bound (seed * 16807) 2147483647 ltac:(lia)). lia.
Qed.

Lemma Random_Uniform_range n seed : 0 < n -> 0 <= (Random_Uniform n seed).1 < n.
Proof. intros Hn. unfold Random_Uniform. cbn [fst]. by apply Z.mod_pos_bound. Qed.

(** ** Properties *)

(** From any seed the generator stays in [1 .. M-1], and the two-step
    reduction of [Next] is the Lehmer recurrence modulo [2^31 - 1]. *)
Theorem random_is_lehmer s n : let seed := Nat.iter n Random_Next (new_Random s) in
  good_seed seed /\ Random_Next seed = seed * random_A mod random_M.
Proof.
  induction n as [|n [IH1 IH2]]; cbn [Nat.iter].
  - pose proof (new_Random_good s) as H. split; [done|]. by apply Random_Next_mod.
  - destruct (Random_Next_mod _ IH1) as [_ H]. split; [done|]. by apply Random_Next_mod.
Qed.
