(* ===== verification/Arena.v ===== *)
(** * The arena allocator: util/arena.{h,cpp}

    Memory comes from [new char[]] blocks that are never freed before the
    arena. A pointer is a block and an offset into it; [base] gives the
    address of each block, aligned as [operator new] aligns. *)

From S2P Require Import Prelude.

Definition kBlockSize : Z := 4096.

Definition pointer : Type := nat * Z.

Record Arena := mkArena {
  alloc_ptr_ : option pointer;       (** [NULL] before the first block *)
  alloc_bytes_remaining_ : Z;
  blocks_ : list Z;                  (** the size of each block *)
  memory_usage_ : Z
}.

Definition new_Arena : Arena := mkArena None 0 [] 0.

Definition AllocateNewBlock (block_bytes : Z) (a : Arena) : pointer * Arena :=
  ((length (blocks_ a), 0),
   mkArena (alloc_ptr_ a) (alloc_bytes_remaining_ a) (blocks_ a ++ [block_bytes])
     (u64 (memory_usage_ a + block_bytes + 8))).

Definition ptr_add (p : pointer) (n : Z) : pointer := (p.1, p.2 + n).

Definition AllocateFallback (nbytes : Z) (a : Arena) : pointer * Arena :=
  if kBlockSize / 4 <? nbytes then AllocateNewBlock nbytes a
  else
    let '(result, a) := AllocateNewBlock kBlockSize a in
    (result, mkArena (Some (ptr_add result nbytes)) (kBlockSize - nbytes) (blocks_ a) (memory_usage_ a)).

(** [Allocate(bytes)] for [bytes > 0]. *)
Definition Allocate (nbytes : Z) (a : Arena) : pointer * Arena :=
  match alloc_ptr_ a with
  | Some p =>
      if nbytes <=? alloc_bytes_remaining_ a then
        (p, mkArena (Some (ptr_add p nbytes)) (alloc_bytes_remaining_ a - nbytes) (blocks_ a) (memory_usage_ a))
      else AllocateFallback nbytes a
  | None => AllocateFallback nbytes a      (* no bytes remain *)
  end.

Section Aligned.
Context (base : nat -> Z).

Definition address (p : pointer) : Z := base p.1 + p.2.

Definition AllocateAligned (nbytes : Z) (a : Arena) : pointer * Arena :=
  match alloc_ptr_ a with
  | Some p =>
      let current_mod := Z.land (address p) 7 in
      let slop := if current_mod =? 0 then 0 else 8 - current_mod in
      let needed := nbytes + slop in
      if needed <=? alloc_bytes_remaining_ a then
        (ptr_add p slop,
         mkArena (Some (ptr_add p needed)) (alloc_bytes_remaining_ a - needed) (blocks_ a) (memory_usage_ a))
      else AllocateFallback nbytes a
  | None => AllocateFallback nbytes a      (* NULL: no slop, no bytes remain *)
  end.

(** A request of a client: plain or aligned. *)
Inductive request := Plain (n : Z) | Aligned (n : Z).

Definition request_size (r : request) : Z := match r with Plain n | Aligned n => n end.

Definition serve (r : request) (a : Arena) : pointer * Arena :=
  match r with Plain n => Allocate n a | Aligned n => AllocateAligned n a end.

(** The regions handed out for a sequence of requests, and the final arena. *)
Fixpoint serve_all (rs : list request) (a : Arena) : list (pointer * Z) * Arena :=
  match rs with
  | [] => ([], a)
  | r :: rs =>
      let '(p, a) := serve r a in
      let '(regions, a) := serve_all rs a in
      ((p, request_size r) :: regions, a)
  end.

(** ** Properties *)

Definition disjoint_regions (x y : pointer * Z) : Prop :=
  x.1.1 <> y.1.1 \/ x.1.2 + x.2 <= y.1.2 \/ y.1.2 + y.2 <= x.1.2.

(** The region lies inside its block. *)
Definition in_block (blocks : list Z) (x : pointer * Z) : Prop :=
  exists size, blocks !! x.1.1 = Some size /\ 0 <= x.1.2 /\ x.1.2 + x.2 <= size.

(** The free part of the current block. *)
Definition arena_inv (a : Arena) : Prop :=
  0 <= alloc_bytes_remaining_ a /\
  match alloc_ptr_ a with
  | Some p => in_block (blocks_ a) (p, alloc_bytes_remaining_ a)
  | None => alloc_bytes_remaining_ a = 0
  end.

(** A region that no later allocation touches. *)
Definition used (a : Arena) (x : pointer * Z) : Prop :=
  in_block (blocks_ a) x /\
  forall p, alloc_ptr_ a = Some p -> disjoint_regions x (p, alloc_bytes_remaining_ a).

Lemma in_block_grow blocks more x : in_block blocks x -> in_block (blocks ++ more) x.
Proof.
  intros (size & Hs & Hr). exists size. split; [|done].
  by rewrite lookup_app_l by (by eapply lookup_lt_Some).
Qed.

(** What every allocation ensures. *)
Definition alloc_ok (n : Z) (a : Arena) (r : pointer * Arena) : Prop :=
  arena_inv r.2 /\ used r.2 (r.1, n) /\
  forall x, 0 < x.2 -> used a x -> used r.2 x /\ disjoint_regions x (r.1, n).

Lemma fresh_disjoint blocks (x : pointer * Z) o n : in_block blocks x ->
  disjoint_regions x ((length blocks, o), n).
Proof. intros (size & Hs & _). left. cbn. apply lookup_lt_Some in Hs. lia. Qed.

Lemma new_block_in blocks n m : 0 <= n -> n <= m -> in_block (blocks ++ [m]) ((length blocks, 0), n).
Proof. intros H1 H2. exists m. cbn. split; [by apply list_lookup_middle|lia]. Qed.

Lemma Fallback_ok n a : 0 < n -> arena_inv a -> alloc_ok n a (AllocateFallback n a).
Proof.
  intros Hn [Hr Hp]. unfold AllocateFallback, AllocateNewBlock.
  change (kBlockSize / 4) with 1024. destruct (Z.ltb_spec 1024 n) as [Hbig|Hsmall].
  - split; [|split].
    + split; [done|]. cbn. destruct (alloc_ptr_ a); [by apply in_block_grow|done].
    + split; [cbn; apply new_block_in; lia|]. cbn. intros p Ep. rewrite Ep in Hp.
      destruct Hp as (size & Hs & _). left. cbn in *. apply lookup_lt_Some in Hs. lia.
    + intros x Hx [Hin Hd]. split; [|by apply (fresh_disjoint (blocks_ a))].
      split; [by apply in_block_grow|exact Hd].
  - assert (Hk : kBlockSize = 4096) by done. split; [|split]; cbn.
    + split; [cbn; lia|]. exists kBlockSize. cbn. split; [by apply list_lookup_middle|lia].
    + split; [cbn; apply new_block_in; lia|]. cbn. intros p [= <-]. right. left. cbn. lia.
    + intros x Hx [Hin Hd]. split; [|by apply (fresh_disjoint (blocks_ a))].
      split; [by apply in_block_grow|]. cbn. intros p [= <-]. by apply (fresh_disjoint (blocks_ a)).
Qed.

(** Carving [skip + n] bytes off the front of the free part. *)
Lemma carve_ok n skip a p : 0 < n -> 0 <= skip -> arena_inv a -> alloc_ptr_ a = Some p ->
  n + skip <= alloc_bytes_remaining_ a ->
  alloc_ok n a (ptr_add p skip,
    mkArena (Some (ptr_add p (n + skip))) (alloc_bytes_remaining_ a - (n + skip)) (blocks_ a) (memory_usage_ a)).
Proof.
  intros Hn Hs [Hr Hp] Ep Hle. rewrite Ep in Hp. destruct Hp as (size & Hsz & H1 & H2). cbn in *.
  split; [|split].
  - split; [cbn; lia|]. exists size. cbn. split; [done|lia].
  - split; [exists size; cbn; split; [done|lia]|]. cbn. intros q [= <-]. right. left. cbn. lia.
  - intros x Hx [Hin Hd]. specialize (Hd p Ep). unfold disjoint_regions in Hd. cbn in Hd. split.
    + split; [done|]. cbn. intros q [= <-]. destruct Hd as [Hd|[Hd|Hd]].
      * by left.
      * right. left. cbn. lia.
      * right. right. cbn. lia.
    + destruct Hd as [Hd|[Hd|Hd]]; [by left|right; left; cbn; lia|right; right; cbn; lia].
Qed.

Lemma serve_ok r a : 0 < request_size r -> arena_inv a -> alloc_ok (request_size r) a (serve r a).
Proof.
  intros Hn Ha. destruct r as [n|n]; cbn in *; unfold Allocate, AllocateAligned;
    destruct (alloc_ptr_ a) as [p|] eqn:Ep; try by apply Fallback_ok.
  - destruct (Z.leb_spec n (alloc_bytes_remaining_ a)); [|by apply Fallback_ok].
    pose proof (carve_ok n 0 a p Hn ltac:(lia) Ha Ep ltac:(lia)) as H0.
    rewrite !Z.add_0_r in H0. unfold ptr_add at 1 in H0. rewrite Z.add_0_r in H0. by destruct p.
  - cbv zeta. set (m := Z.land _ 7). destruct (Z.leb_spec (n + if m =? 0 then 0 else 8 - m) (alloc_bytes_remaining_ a));
      [|by apply Fallback_ok]. apply carve_ok; try done.
    assert (0 <= m < 8); [|destruct (m =? 0); lia].
    unfold m. change 7 with (2 ^ 3 - 1). rewrite land_ones_mod by lia. apply Z.mod_pos_bound. lia.
Qed.

(** Regions handed out are pairwise disjoint and inside their blocks. *)
Lemma serve_all_disjoint rs : forall a, arena_inv a -> Forall (fun r => 0 < request_size r) rs ->
  let '(regions, a') := serve_all rs a in
  ForallOrdPairs disjoint_regions regions /\
  (forall x, x ∈ regions -> used a' x) /\
  (forall y, 0 < y.2 -> used a y -> used a' y /\ Forall (disjoint_regions y) regions).
Proof.
  induction rs as [|r rs IH]; intros a Ha Hf; cbn [serve_all].
  - split; [constructor|]. split; [by intros x ?%elem_of_nil|]. intros y Hy Hu. by split.
  - inversion Hf as [|? ? Hn Hf']; subst. destruct (serve_ok r a Hn Ha) as (K1 & K2 & K3).
    destruct (serve r a) as [p a1]. cbn [fst snd] in *. specialize (IH a1 K1 Hf').
    destruct (serve_all rs a1) as [regions a2]. destruct IH as (I1 & I2 & I3).
    destruct (I3 (p, request_size r) Hn K2) as [J1 J2].
    split; [by constructor|]. split.
    + intros x [->|Hx]%elem_of_cons; [done|by apply I2].
    + intros y Hy Hu. destruct (K3 y Hy Hu) as [L1 L2]. destruct (I3 y Hy L1) as [M1 M2].
      split; [done|]. by constructor.
Qed.

Lemma Aligned_address n a : (forall b, base b mod 8 = 0) ->
  address (AllocateAligned n a).1 mod 8 = 0.
Proof.
  intros Hb. unfold AllocateAligned.
  assert (Hf : address (AllocateFallback n a).1 mod 8 = 0).
  { unfold AllocateFallback, AllocateNewBlock. destruct (_ <? _); unfold address; cbn; by rewrite Z.add_0_r. }
  destruct (alloc_ptr_ a) as [p|]; [|done]. cbv zeta. destruct (_ <=? _); [|done]. cbn [fst].
  change 7 with (2 ^ 3 - 1). rewrite land_ones_mod by lia. change (2 ^ 3) with 8.
  unfold address, ptr_add. cbn. rewrite Z.add_assoc. set (ad := base p.1 + p.2).
  pose proof (Z.div_mod ad 8 ltac:(lia)). pose proof (Z.mod_pos_bound ad 8 ltac:(lia)).
  destruct (Z.eqb_spec (ad mod 8) 0) as [E|E]; [by rewrite Z.add_0_r|].
  replace (ad + (8 - ad mod 8)) with ((ad / 8 + 1) * 8) by lia. apply Z.mod_mul. lia.
Qed.

End Aligned.

(** ** Properties *)

(** Regions handed out by any sequence of [Allocate] and [AllocateAligned]
    calls lie inside the arena's blocks and are pairwise disjoint; when blocks
    are aligned, so is every aligned allocation. *)
Theorem arena_regions base rs : Forall (fun r => 0 < request_size r) rs ->
  let '(regions, a) := serve_all base rs new_Arena in
  length regions = length rs /\ ForallOrdPairs disjoint_regions regions /\
  (forall x, x ∈ regions -> in_block (blocks_ a) x) /\
  ((forall b, base b mod 8 = 0) -> forall n a', address base (AllocateAligned base n a').1 mod 8 = 0).
Proof.
  intros Hrs. pose proof (serve_all_disjoint base rs new_Arena ltac:(split; [cbn; lia|done]) Hrs) as H.
  assert (Hl : forall rs a, length (serve_all base rs a).1 = length rs).
  { clear. induction rs as [|r rs IH]; intros a; cbn; [done|]. destruct (serve base r a) as [p a1].
    specialize (IH a1). destruct (serve_all base rs a1). cbn in *. by rewrite IH. }
  specialize (Hl rs new_Arena). destruct (serve_all base rs new_Arena) as [regions a]. destruct H as (H1 & H2 & _).
  split; [done|]. split; [done|]. split; [intros x Hx; by apply H2|]. intros Hb n a'. by apply Aligned_address.
Qed.

Lemma arena_regions_witness :
  let rs := [Plain 10; Aligned 24; Plain 5000; Aligned 100] in
  ForallOrdPairs disjoint_regions (serve_all (fun b => 4096 * Z.of_nat b) rs new_Arena).1.
Proof.
  pose proof (arena_regions (fun b => 4096 * Z.of_nat b) [Plain 10; Aligned 24; Plain 5000; Aligned 100]
    ltac:(repeat constructor)) as H.
  exact (proj1 (proj2 H)).
Defined.
