(* ===== verification/SkipList.v ===== *)
(** * The skip list: db/skiplist.h

    Nodes live in a heap that only grows; a node is an index into it, with the
    sentinel [head_] at index 0, and [NULL] is [None]. Every access is checked:
    a function returns [None] when the code would follow a dangling pointer,
    read outside a node's [next_] array or compare the key of [head_], and when
    its fuel runs out. The refinement theorems show that this never happens on
    a list built by [Insert], and that the list behaves like a sorted sequence
    of keys. *)

From S2P Require Import Prelude Random.

Definition kMaxHeight : nat := 12.
Definition kBranching : Z := 4.

Section SkipList.
Context {K : Type} (compare_ : K -> K -> comparison).

Record Node := mkNode {
  node_key : option K;              (** none for [head_]: "any key will do" *)
  next_ : list (option nat)         (** as long as the node is high *)
}.

Record SkipList := mkSkipList {
  nodes : list Node;
  max_height_ : nat;
  rnd_ : Z
}.

Definition head_ : nat := 0.

(** ** Nodes *)

Definition Next (ns : list Node) (x n : nat) : option (option nat) :=
  nd ← ns !! x; next_ nd !! n.

Definition SetNext (ns : list Node) (x n : nat) (y : option nat) : option (list Node) :=
  nd ← ns !! x;
  if (n <? length (next_ nd))%nat
  then Some (<[x := mkNode (node_key nd) (<[n := y]> (next_ nd))]> ns)
  else None.

Definition node_key_at (ns : list Node) (x : nat) : option K :=
  nd ← ns !! x; node_key nd.

(** [NewNode]: the links are uninitialised memory, written before they are read. *)
Definition NewNode (key : option K) (height : nat) : Node := mkNode key (replicate height None).

Definition new_SkipList : SkipList :=
  mkSkipList [NewNode None kMaxHeight] 1 (new_Random 0xdeadbeef).

(** ** Random heights *)

Fixpoint RandomHeight_loop (fuel height : nat) (rnd : Z) : nat * Z :=
  match fuel with
  | O => (height, rnd)
  | S fuel =>
      if (height <? kMaxHeight)%nat then
        let rnd := Random_Next rnd in
        if rnd mod kBranching =? 0 then RandomHeight_loop fuel (S height) rnd else (height, rnd)
      else (height, rnd)
  end.

Definition RandomHeight (rnd : Z) : nat * Z := RandomHeight_loop kMaxHeight 1 rnd.

(** ** Searches *)

Definition KeyIsAfterNode (ns : list Node) (key : K) (n : option nat) : option bool :=
  match n with
  | None => Some false
  | Some n => k ← node_key_at ns n; Some (is_lt (compare_ k key))
  end.

(** [prev] is the caller's array, uninitialised where it is [None]. *)
Fixpoint FindGreaterOrEqual_loop (fuel : nat) (ns : list Node) (key : K) (x level : nat)
    (prev : list (option nat)) : option (option nat * list (option nat)) :=
  match fuel with
  | O => None
  | S fuel =>
      next ← Next ns x level;
      after ← KeyIsAfterNode ns key next;
      match after, next with
      | true, Some n => FindGreaterOrEqual_loop fuel ns key n level prev
      | _, _ =>
          let prev := <[level := Some x]> prev in
          match level with
          | O => Some (next, prev)
          | S level => FindGreaterOrEqual_loop fuel ns key x level prev
          end
      end
  end.

Definition fuel_of (l : SkipList) : nat := length (nodes l) + max_height_ l.

Definition FindGreaterOrEqual (l : SkipList) (key : K) : option (option nat * list (option nat)) :=
  FindGreaterOrEqual_loop (fuel_of l) (nodes l) key head_ (max_height_ l - 1) (replicate kMaxHeight None).

Fixpoint FindLessThan_loop (fuel : nat) (ns : list Node) (key : K) (x level : nat) : option nat :=
  match fuel with
  | O => None
  | S fuel =>
      next ← Next ns x level;
      let down := match level with O => Some x | S level => FindLessThan_loop fuel ns key x level end in
      match next with
      | None => down
      | Some n =>
          k ← node_key_at ns n;
          if negb (is_lt (compare_ k key)) then down else FindLessThan_loop fuel ns key n level
      end
  end.

Definition FindLessThan (l : SkipList) (key : K) : option nat :=
  FindLessThan_loop (fuel_of l) (nodes l) key head_ (max_height_ l - 1).

Fixpoint FindLast_loop (fuel : nat) (ns : list Node) (x level : nat) : option nat :=
  match fuel with
  | O => None
  | S fuel =>
      next ← Next ns x level;
      match next with
      | None => match level with O => Some x | S level => FindLast_loop fuel ns x level end
      | Some n => FindLast_loop fuel ns n level
      end
  end.

Definition FindLast (l : SkipList) : option nat :=
  FindLast_loop (fuel_of l) (nodes l) head_ (max_height_ l - 1).

(** ** Insertion *)

(** [for (i = from; i < from + n; i++)] of the link loop. *)
Fixpoint link_loop (n i : nat) (x : nat) (prev : list (option nat)) (ns : list Node) : option (list Node) :=
  match n with
  | O => Some ns
  | S n =>
      p ← mjoin (prev !! i);
      nx ← Next ns p i;
      ns ← SetNext ns x i nx;
      ns ← SetNext ns p i (Some x);
      link_loop n (S i) x prev ns
  end.

(** [prev[i] = head_] for the levels above the old height. *)
Fixpoint set_heads (n i : nat) (prev : list (option nat)) : list (option nat) :=
  match n with
  | O => prev
  | S n => set_heads n (S i) (<[i := Some head_]> prev)
  end.

Definition Insert (l : SkipList) (key : K) : option SkipList :=
  r ← FindGreaterOrEqual l key;
  let '(_, prev) := r : option nat * list (option nat) in
  let '(height, rnd) := RandomHeight (rnd_ l) in
  let '(prev, max_height) :=
    if (max_height_ l <? height)%nat
    then (set_heads (height - max_height_ l) (max_height_ l) prev, height)
    else (prev, max_height_ l) in
  let x := length (nodes l) in
  ns ← link_loop height 0 x prev (nodes l ++ [NewNode (Some key) height]);
  Some (mkSkipList ns max_height rnd).

Definition Contains (l : SkipList) (key : K) : option bool :=
  r ← FindGreaterOrEqual l key;
  match r.1 with
  | None => Some false
  | Some x => k ← node_key_at (nodes l) x; Some (is_eq (compare_ key k))
  end.

(** ** Iterators: the node pointer, [None] when not valid *)

Definition Iter_Valid (node : option nat) : bool := match node with Some _ => true | None => false end.
Definition Iter_key (l : SkipList) (node : option nat) : option K := x ← node; node_key_at (nodes l) x.
Definition Iter_Next (l : SkipList) (node : option nat) : option (option nat) :=
  x ← node; Next (nodes l) x 0.
Definition not_head (x : nat) : option nat := if (x =? head_)%nat then None else Some x.
Definition Iter_Prev (l : SkipList) (node : option nat) : option (option nat) :=
  x ← node; k ← node_key_at (nodes l) x; p ← FindLessThan l k; Some (not_head p).
Definition Iter_Seek (l : SkipList) (target : K) : option (option nat) :=
  r ← FindGreaterOrEqual l target; Some r.1.
Definition Iter_SeekToFirst (l : SkipList) : option (option nat) := Next (nodes l) head_ 0.
Definition Iter_SeekToLast (l : SkipList) : option (option nat) :=
  x ← FindLast l; Some (not_head x).

(** A loop [for (; iter.Valid(); iter.Next())] that collects the keys. *)
Fixpoint scan (fuel : nat) (l : SkipList) (node : option nat) : option (list K) :=
  match node with
  | None => Some []
  | Some _ =>
      match fuel with
      | O => None
      | S fuel =>
          k ← Iter_key l node;
          node ← Iter_Next l node;
          ks ← scan fuel l node;
          Some (k :: ks)
      end
  end.

(** A sequence of insertions into an empty list. *)
Definition insert_step (l : option SkipList) (key : K) : option SkipList :=
  l ← l; Insert l key.

Definition insert_all (keys : list K) : option SkipList :=
  fold_left insert_step keys (Some new_SkipList).

End SkipList.

Arguments Node : clear implicits.
Arguments SkipList : clear implicits.

(** ** The sorted sequence a skip list stands for *)

Section Abstract.
Context {K : Type} (cmp : K -> K -> comparison) `{!TotalCmp cmp}.

Definition sorted_keys (ks : list K) : Prop := StronglySorted (fun a b => cmp a b = Lt) ks.

(** How many keys of a sorted sequence are smaller than [k]. *)
Fixpoint count_lt (k : K) (ks : list K) : nat :=
  match ks with
  | [] => O
  | k' :: ks => if is_lt (cmp k' k) then S (count_lt k ks) else O
  end.

Definition insert_sorted (k : K) (ks : list K) : list K :=
  take (count_lt k ks) ks ++ k :: drop (count_lt k ks) ks.

Lemma is_lt_spec a b : is_lt (cmp a b) = true <-> cmp a b = Lt.
Proof. destruct (cmp a b); done. Qed.

Lemma count_lt_below k ks : Forall (fun x => cmp x k = Lt) (take (count_lt k ks) ks).
Proof.
  induction ks as [|a ks IH]; cbn; [done|]. destruct (is_lt (cmp a k)) eqn:E; cbn; [|done].
  constructor; [by apply is_lt_spec|done].
Qed.

Lemma count_lt_above k ks : sorted_keys ks -> Forall (fun x => cmp x k <> Lt) (drop (count_lt k ks) ks).
Proof.
  induction 1 as [|a ks Hs IH Ha]; cbn; [done|].
  destruct (is_lt (cmp a k)) eqn:E; cbn; [done|]. assert (Hna : cmp a k <> Lt) by (intros Hc; by rewrite Hc in E).
  constructor; [done|]. eapply Forall_impl; [exact Ha|]. intros x Hx Hxk. apply Hna.
  by apply (cmp_lt_trans cmp a x k).
Qed.

Lemma count_lt_le k ks : (count_lt k ks <= length ks)%nat.
Proof. induction ks as [|a ks IH]; cbn; [done|]. destruct (is_lt _); lia. Qed.

Lemma sorted_app (a b : list K) : sorted_keys (a ++ b) <->
  sorted_keys a /\ sorted_keys b /\ (forall x y, x ∈ a -> y ∈ b -> cmp x y = Lt).
Proof.
  induction a as [|x a IH]; cbn [app].
  - split; [|by intros (_ & ? & _)]. intros H. split; [constructor|]. split; [done|]. by intros ? ? ?%elem_of_nil.
  - split.
    + intros [Hs Hf]%StronglySorted_inv. apply IH in Hs as (H1 & H2 & H3).
      apply Forall_app in Hf as [F1 F2]. rewrite Forall_forall in F2.
      split; [by constructor|]. split; [done|]. intros x' y [->|Hx]%elem_of_cons Hy; auto.
    + intros (H1 & H2 & H3). apply StronglySorted_inv in H1 as [H1 F1]. constructor.
      * apply IH. split; [done|]. split; [done|]. intros x' y Hx Hy. apply H3; [|done]. by right.
      * apply Forall_app. split; [done|]. apply Forall_forall. intros y Hy. apply H3; [by left|done].
Qed.

(** Insertion keeps the sequence sorted when no key equals the new one. *)
Lemma insert_sorted_sorted k ks : sorted_keys ks -> Forall (fun x => cmp k x <> Eq) ks ->
  sorted_keys (insert_sorted k ks).
Proof.
  intros Hs Hne. unfold insert_sorted. set (c := count_lt k ks).
  pose proof (count_lt_below k ks) as Hb. pose proof (count_lt_above k ks Hs) as Ha. fold c in Hb, Ha.
  rewrite <- (take_drop c ks) in Hs, Hne. apply sorted_app in Hs as (S1 & S2 & S3).
  apply Forall_app in Hne as [_ Hne]. rewrite Forall_forall in Hb, Ha, Hne.
  assert (Hk : forall y, y ∈ drop c ks -> cmp k y = Lt).
  { intros y Hy. specialize (Ha y Hy). specialize (Hne y Hy). destruct (cmp k y) eqn:E; [done|done|].
    by apply cmp_gt_lt in E. }
  apply sorted_app. split; [done|]. split.
  - constructor; [done|]. by apply Forall_forall.
  - intros x y Hx [->|Hy]%elem_of_cons; [by apply Hb|by apply S3].
Qed.

Lemma insert_sorted_perm k ks : insert_sorted k ks ≡ₚ k :: ks.
Proof.
  unfold insert_sorted. rewrite <- Permutation_middle. by rewrite take_drop.
Qed.

End Abstract.

(** ** Linked levels *)

Section Linked.
Context {K : Type}.
Implicit Types (ns : list (Node K)).

Definition height_of ns (x : nat) : nat :=
  match ns !! x with Some nd => length (next_ nd) | None => O end.

(** From node [x], the links of level [l] lead through [ids] to the end. *)
Fixpoint linked ns (l x : nat) (ids : list nat) : Prop :=
  match ids with
  | [] => Next ns x l = Some None
  | y :: ids => Next ns x l = Some (Some y) /\ linked ns l y ids
  end.

Lemma linked_from ns l p : forall a q, linked ns l a (p ++ q) -> linked ns l (List.last p a) q.
Proof.
  induction p as [|y p IH]; intros a q H; [done|]. cbn in H. destruct H as [_ H].
  rewrite last_cons_default. by apply IH.
Qed.

Lemma linked_next ns l x ids : linked ns l x ids -> Next ns x l = Some (hd_error ids).
Proof. destruct ids; cbn; [done|]. by intros [? _]. Qed.

Lemma linked_frame ns ns' l ids : forall x, (forall y, y ∈ x :: ids -> Next ns' y l = Next ns y l) ->
  linked ns l x ids -> linked ns' l x ids.
Proof.
  induction ids as [|y ids IH]; intros x Hf; cbn.
  - rewrite Hf by (by left). done.
  - rewrite Hf by (by left). intros [? H]. split; [done|]. apply IH; [|done].
    intros z Hz. apply Hf. by right.
Qed.

Lemma linked_insert ns ns' l x B A : forall a,
  linked ns l a (A ++ B) -> NoDup (a :: A ++ B) -> x ∉ a :: A ++ B ->
  (forall y, y <> x -> y <> List.last A a -> Next ns' y l = Next ns y l) ->
  Next ns' (List.last A a) l = Some (Some x) ->
  Next ns' x l = Next ns (List.last A a) l ->
  linked ns' l a (A ++ x :: B).
Proof.
  induction A as [|y A IH]; intros a Hl Hnd Hx Hf H1 H2.
  - cbn [app List.last] in *. split; [done|]. apply NoDup_cons in Hnd as [Ha Hnd].
    destruct B as [|b B]; cbn in *; [congruence|]. destruct Hl as [Hl1 Hl2].
    split; [congruence|]. apply (linked_frame ns); [|done]. intros z Hz. apply Hf.
    + intros ->. apply Hx. by right.
    + by intros ->.
  - cbn [app linked] in *. destruct Hl as [Hl1 Hl2]. apply NoDup_cons in Hnd as [Ha Hnd].
    rewrite last_cons_default in Hf, H1, H2. split.
    + rewrite Hf; [done| |].
      * intros ->. apply Hx. by left.
      * intros E. apply Ha. rewrite E, app_comm_cons, elem_of_app. left. apply last_elem_of.
    + apply IH; try done. intros Hin. apply Hx. by right.
Qed.

(** *** Writes *)

Lemma SetNext_spec ns x n y : (n < height_of ns x)%nat ->
  exists ns', SetNext ns x n y = Some ns' /\ length ns' = length ns /\
    (forall z, height_of ns' z = height_of ns z) /\
    (forall z, node_key_at ns' z = node_key_at ns z) /\
    (forall z m, Next ns' z m = if decide (z = x /\ m = n) then Some y else Next ns z m).
Proof.
  intros Hn. unfold SetNext, height_of in *. destruct (ns !! x) as [nd|] eqn:E; [|lia]. cbn [mbind option_bind].
  rewrite (proj2 (Nat.ltb_lt _ _) Hn). eexists. split; [done|]. rewrite length_insert. split; [done|].
  pose proof (lookup_lt_Some _ _ _ E) as Hx. repeat split.
  - intros z. destruct (decide (x = z)) as [<-|Hz]; [|by rewrite list_lookup_insert_ne].
    rewrite list_lookup_insert_eq by done. cbn. by rewrite length_insert, E.
  - intros z. unfold node_key_at. destruct (decide (x = z)) as [<-|Hz]; [|by rewrite list_lookup_insert_ne].
    by rewrite list_lookup_insert_eq, E by done.
  - intros z m. unfold Next. destruct (decide (z = x /\ m = n)) as [[-> ->]|Hd].
    + rewrite list_lookup_insert_eq by done. cbn. by rewrite list_lookup_insert_eq.
    + destruct (decide (x = z)) as [<-|Hz]; [|by rewrite list_lookup_insert_ne].
      rewrite list_lookup_insert_eq by done. cbn. rewrite E. cbn.
      rewrite list_lookup_insert_ne; [done|]. intros ->. by apply Hd.
Qed.

End Linked.

(** ** The invariant *)

Section Refine.
Context {K : Type} (cmp : K -> K -> comparison) `{!TotalCmp cmp}.
Implicit Types (ns : list (Node K)) (l : SkipList K).

(** Nodes that take part in level [lv]. *)
Abbreviation at_level ns lv := (fun x => (lv < height_of ns x)%nat).

(** [ids] are the nodes in list order and [ks] their keys. *)
Record skip_inv l (ids : list nat) (ks : list K) : Prop := {
  inv_keys : Forall2 (fun x k => node_key_at (nodes l) x = Some k) ids ks;
  inv_sorted : sorted_keys cmp ks;
  inv_head : height_of (nodes l) head_ = kMaxHeight;
  inv_max : (1 <= max_height_ l <= kMaxHeight)%nat;
  inv_heights : Forall (fun x => (1 <= height_of (nodes l) x <= max_height_ l)%nat) ids;
  inv_nodup : NoDup (head_ :: ids);
  inv_count : length (nodes l) = S (length ids);
  inv_linked : forall lv, (lv < kMaxHeight)%nat ->
    linked (nodes l) lv head_ (filter (at_level (nodes l) lv) ids)
}.

Lemma last_filter (P : nat -> Prop) `{!forall x, Decision (P x)} pre d :
  P (List.last pre d) -> List.last (filter P pre) d = List.last pre d.
Proof.
  destruct pre as [|y pre _] using rev_ind; [done|]. rewrite List.last_last. intros HP.
  rewrite filter_app, filter_cons_True, filter_nil by done. by rewrite List.last_last.
Qed.

Lemma filter_first (P : nat -> Prop) `{!forall x, Decision (P x)} mid :
  filter P mid = [] \/ exists a n b, mid = a ++ n :: b /\ filter P a = [] /\ P n.
Proof.
  induction mid as [|x mid IH]; [by left|]. destruct (decide (P x)) as [Hx|Hx].
  - right. by exists [], x, mid.
  - rewrite filter_cons_False by done. destruct IH as [?|(a & n & b & -> & Ha & Hn)]; [by left|].
    right. exists (x :: a), n, b. by rewrite filter_cons_False.
Qed.

(** The link of level [lv] out of the last node of [pre] skips to the next
    node of that level. *)
Lemma next_in_chain l ids ks pre suf lv : skip_inv l ids ks -> ids = pre ++ suf ->
  (lv < kMaxHeight)%nat -> (lv < height_of (nodes l) (List.last pre head_))%nat ->
  Next (nodes l) (List.last pre head_) lv = Some (hd_error (filter (at_level (nodes l) lv) suf)).
Proof.
  intros Hinv -> Hlv Hh. pose proof (inv_linked _ _ _ Hinv lv Hlv) as Hl.
  rewrite filter_app in Hl. apply linked_from, linked_next in Hl.
  by rewrite (last_filter (at_level (nodes l) lv)) in Hl.
Qed.

(** *** Keys on both sides of a search key *)

Lemma keys_lookup l ids ks i x : skip_inv l ids ks -> ids !! i = Some x ->
  exists k, ks !! i = Some k /\ node_key_at (nodes l) x = Some k.
Proof.
  intros Hinv Hi. destruct (Forall2_lookup_l _ _ _ _ _ (inv_keys _ _ _ Hinv) Hi) as (k & Hk & Hx).
  by exists k.
Qed.

Definition lts (key : K) (ids : list nat) (ks : list K) := take (count_lt cmp key ks) ids.
Definition ges (key : K) (ids : list nat) (ks : list K) := drop (count_lt cmp key ks) ids.

Lemma lts_key l ids ks key x : skip_inv l ids ks -> x ∈ lts key ids ks ->
  exists k, node_key_at (nodes l) x = Some k /\ cmp k key = Lt.
Proof.
  intros Hinv [i Hi]%list_elem_of_lookup_1. unfold lts in Hi.
  apply lookup_take_Some in Hi as [Hi Hlt]. destruct (keys_lookup l ids ks i x Hinv Hi) as (k & Hk & Hx).
  exists k. split; [done|]. pose proof (count_lt_below cmp key ks) as Hb.
  rewrite Forall_lookup in Hb. apply (Hb i). by rewrite lookup_take_lt.
Qed.

Lemma ges_key l ids ks key x : skip_inv l ids ks -> x ∈ ges key ids ks ->
  exists k, node_key_at (nodes l) x = Some k /\ cmp k key <> Lt.
Proof.
  intros Hinv [i Hi]%list_elem_of_lookup_1. unfold ges in Hi. rewrite lookup_drop in Hi.
  destruct (keys_lookup l ids ks _ x Hinv Hi) as (k & Hk & Hx).
  exists k. split; [done|]. pose proof (count_lt_above cmp key ks (inv_sorted _ _ _ Hinv)) as Hb.
  rewrite Forall_lookup in Hb. apply (Hb i). by rewrite lookup_drop.
Qed.

Lemma filter_level_0 l ids ks (suf : list nat) : skip_inv l ids ks -> (forall x, x ∈ suf -> x ∈ ids) ->
  filter (at_level (nodes l) 0%nat) suf = suf.
Proof.
  intros Hinv Hsub. pose proof (inv_heights _ _ _ Hinv) as Hh. rewrite Forall_forall in Hh.
  induction suf as [|x suf IH]; [done|]. rewrite filter_cons_True.
  - rewrite IH; [done|]. intros y Hy. apply Hsub. by right.
  - specialize (Hh x (Hsub x ltac:(by left))). lia.
Qed.

(** *** Searches *)

Lemma FGE_loop_spec l ids ks key fuel : skip_inv l ids ks -> forall pre mid lv prev,
  lts key ids ks = pre ++ mid -> (lv < kMaxHeight)%nat ->
  (lv < height_of (nodes l) (List.last pre head_))%nat -> length prev = kMaxHeight ->
  (length mid + lv < fuel)%nat ->
  exists prev', FindGreaterOrEqual_loop cmp fuel (nodes l) key (List.last pre head_) lv prev
      = Some (hd_error (ges key ids ks), prev') /\ length prev' = kMaxHeight /\
    (forall i, (i <= lv)%nat ->
      prev' !! i = Some (Some (List.last (filter (at_level (nodes l) i) (lts key ids ks)) head_))) /\
    (forall i, (lv < i)%nat -> prev' !! i = prev !! i).
Proof.
  intros Hinv. induction fuel as [|fuel IH]; intros pre mid lv prev Hl Hlv Hh Hp Hf; [lia|].
  assert (Hids : ids = pre ++ (mid ++ ges key ids ks)).
  { rewrite app_assoc, <- Hl. unfold lts, ges. by rewrite take_drop. }
  cbn [FindGreaterOrEqual_loop]. rewrite (next_in_chain l ids ks pre _ lv Hinv Hids Hlv Hh). cbn [mbind option_bind].
  rewrite filter_app. destruct (filter_first (at_level (nodes l) lv) mid) as [E|(a & n & b & -> & Ea & Hn)].
  - (* nothing smaller ahead on this level *)
    rewrite E. cbn [app].
    assert (Hafter : KeyIsAfterNode cmp (nodes l) key (hd_error (filter (at_level (nodes l) lv) (ges key ids ks)))
      = Some false).
    { destruct (filter _ (ges key ids ks)) as [|n rest] eqn:Ef; [done|]. cbn.
      assert (Hn : n ∈ ges key ids ks).
      { apply (list_elem_of_filter (at_level (nodes l) lv)). rewrite Ef. by left. }
      destruct (ges_key l ids ks key n Hinv Hn) as (k & -> & Hk). cbn.
      by destruct (cmp k key). }
    rewrite Hafter. cbn [mbind option_bind].
    assert (Hx : List.last pre head_ = List.last (filter (at_level (nodes l) lv) (lts key ids ks)) head_).
    { rewrite Hl, filter_app, E, app_nil_r. symmetry. by apply (last_filter (at_level (nodes l) lv)). }
    destruct lv as [|lv].
    + rewrite (filter_level_0 l ids ks) by (try done; intros x Hx'; rewrite Hids, !elem_of_app; auto).
      eexists. split; [done|]. rewrite length_insert. split; [done|]. split; intros i Hi.
      * assert (i = 0)%nat as -> by lia. rewrite list_lookup_insert_eq, <- Hx by lia. done.
      * by rewrite list_lookup_insert_ne by lia.
    + destruct (IH pre mid lv (<[S lv := Some (List.last pre head_)]> prev)) as (prev' & -> & Hlen & Hprev & Hrest);
        [done|lia|lia|by rewrite length_insert|lia|].
      exists prev'. split; [done|]. split; [done|]. split; intros i Hi.
      * destruct (decide (i = S lv)) as [->|Hne]; [|apply Hprev; lia].
        rewrite Hrest, list_lookup_insert_eq, <- Hx by lia. done.
      * rewrite Hrest by lia. by rewrite list_lookup_insert_ne by lia.
  - (* move right *)
    rewrite filter_app, Ea, filter_cons_True by done. cbn [app hd_error KeyIsAfterNode].
    assert (Hin : n ∈ lts key ids ks) by (rewrite Hl, !elem_of_app, elem_of_cons; auto).
    destruct (lts_key l ids ks key n Hinv Hin) as (k & -> & Hk). cbn [mbind option_bind]. rewrite Hk.
    cbn [is_lt]. specialize (IH (pre ++ a ++ [n]) b lv prev). rewrite !app_assoc, List.last_last in IH.
    apply IH; try done.
    + rewrite Hl. by rewrite <- !app_assoc.
    + rewrite !length_app in Hf. cbn in Hf. lia.
Qed.

Lemma lts_length l ids ks key : skip_inv l ids ks -> (length (lts key ids ks) <= length ids)%nat.
Proof. intros _. unfold lts. rewrite length_take. lia. Qed.

(** [FindGreaterOrEqual] stops at the first key that is not smaller, and
    records the last smaller node of every level. *)
Lemma FindGreaterOrEqual_spec l ids ks key : skip_inv l ids ks ->
  exists prev, FindGreaterOrEqual cmp l key = Some (hd_error (ges key ids ks), prev) /\
    length prev = kMaxHeight /\
    forall i, (i < max_height_ l)%nat ->
      prev !! i = Some (Some (List.last (filter (at_level (nodes l) i) (lts key ids ks)) head_)).
Proof.
  intros Hinv. pose proof (inv_max _ _ _ Hinv). pose proof (inv_count _ _ _ Hinv).
  pose proof (lts_length l ids ks key Hinv). pose proof (inv_head _ _ _ Hinv) as Hh.
  destruct (FGE_loop_spec l ids ks key (fuel_of l) Hinv [] (lts key ids ks) (max_height_ l - 1)
    (replicate kMaxHeight None)) as (prev & E & Hlen & Hp & _); try done.
  - lia.
  - cbn [List.last]. rewrite Hh. lia.
  - unfold fuel_of. lia.
  - exists prev. split; [exact E|]. split; [done|]. intros i Hi. apply Hp. lia.
Qed.

(** [FindLessThan] walks the same path. *)
Lemma FindLessThan_FGE fuel ns key : forall x lv prev r prev', (0 < length prev)%nat ->
  FindGreaterOrEqual_loop cmp fuel ns key x lv prev = Some (r, prev') ->
  FindLessThan_loop cmp fuel ns key x lv = mjoin (prev' !! 0%nat).
Proof.
  induction fuel as [|fuel IH]; intros x lv prev r prev' Hp; cbn; [done|].
  destruct (Next ns x lv) as [next|]; cbn; [|done].
  destruct next as [n|]; cbn.
  - destruct (node_key_at ns n) as [k|]; cbn; [|done]. destruct (is_lt (cmp k key)); cbn.
    + by apply IH.
    + destruct lv as [|lv]; [|apply IH; by rewrite length_insert].
      intros [= <- <-]. by rewrite list_lookup_insert_eq.
  - destruct lv as [|lv]; [|apply IH; by rewrite length_insert].
    intros [= <- <-]. by rewrite list_lookup_insert_eq.
Qed.

Lemma FindLessThan_spec l ids ks key : skip_inv l ids ks ->
  FindLessThan cmp l key = Some (List.last (lts key ids ks) head_).
Proof.
  intros Hinv. destruct (FindGreaterOrEqual_spec l ids ks key Hinv) as (prev & E & Hlen & Hp).
  unfold FindLessThan, FindGreaterOrEqual in *.
  erewrite FindLessThan_FGE; [| |exact E]; [|rewrite length_replicate; unfold kMaxHeight; lia].
  rewrite Hp by (pose proof (inv_max _ _ _ Hinv); lia). cbn.
  rewrite (filter_level_0 l ids ks); [done|done|].
  intros x Hx. unfold lts in Hx. eapply elem_of_take in Hx as (i & Hi & _). by eapply list_elem_of_lookup_2.
Qed.

Lemma FindLast_loop_spec l ids ks fuel : skip_inv l ids ks -> forall pre mid lv,
  ids = pre ++ mid -> (lv < kMaxHeight)%nat -> (lv < height_of (nodes l) (List.last pre head_))%nat ->
  (length mid + lv < fuel)%nat ->
  FindLast_loop fuel (nodes l) (List.last pre head_) lv = Some (List.last ids head_).
Proof.
  intros Hinv. induction fuel as [|fuel IH]; intros pre mid lv Hids Hlv Hh Hf; [lia|].
  cbn [FindLast_loop]. rewrite (next_in_chain l ids ks pre mid lv Hinv Hids Hlv Hh). cbn [mbind option_bind].
  destruct (filter_first (at_level (nodes l) lv) mid) as [E|(a & n & b & -> & Ea & Hn)].
  - rewrite E. cbn [hd_error]. destruct lv as [|lv]; [|apply (IH pre mid); try done; lia].
    rewrite (filter_level_0 l ids ks) in E by (try done; intros x Hx; rewrite Hids, elem_of_app; auto).
    by rewrite Hids, E, app_nil_r.
  - rewrite filter_app, Ea, filter_cons_True by done. cbn [app hd_error].
    specialize (IH (pre ++ a ++ [n]) b lv). rewrite !app_assoc, List.last_last in IH.
    apply IH; try done.
    + rewrite Hids. by rewrite <- !app_assoc.
    + rewrite !length_app in Hf. cbn in Hf. lia.
Qed.

Lemma FindLast_spec l ids ks : skip_inv l ids ks -> FindLast l = Some (List.last ids head_).
Proof.
  intros Hinv. pose proof (inv_max _ _ _ Hinv). pose proof (inv_count _ _ _ Hinv).
  apply (FindLast_loop_spec l ids ks (fuel_of l) Hinv [] ids); try done.
  - lia.
  - cbn [List.last]. rewrite (inv_head _ _ _ Hinv). lia.
  - unfold fuel_of. lia.
Qed.

(** *** Insertion *)

Lemma RandomHeight_range rnd : (1 <= (RandomHeight rnd).1 <= kMaxHeight)%nat.
Proof.
  unfold RandomHeight.
  assert (Hg : forall fuel h r, (1 <= h <= kMaxHeight)%nat -> (1 <= (RandomHeight_loop fuel h r).1 <= kMaxHeight)%nat).
  { induction fuel as [|fuel IH]; intros h r Hh; cbn [RandomHeight_loop]; [done|].
    destruct (Nat.ltb_spec h kMaxHeight); [|done]. destruct (_ =? _); [apply IH; lia|done]. }
  apply Hg. unfold kMaxHeight. lia.
Qed.

Lemma set_heads_lookup n : forall i prev j, (i + n <= length prev)%nat ->
  set_heads n i prev !! j = if decide (i <= j < i + n)%nat then Some (Some head_) else prev !! j.
Proof.
  induction n as [|n IH]; intros i prev j Hl; cbn [set_heads].
  - destruct (decide _); [lia|done].
  - rewrite IH by (rewrite length_insert; lia). destruct (decide (i = j)) as [<-|Hij].
    + rewrite list_lookup_insert_eq by lia. destruct (decide (i <= i < i + S n)%nat); [|lia].
      by destruct (decide _).
    + rewrite list_lookup_insert_ne by done. repeat destruct (decide _); done || lia.
Qed.

(** The link loop splices node [x] between [L] and [G] on one level after
    the other; the levels above are untouched. *)
Lemma link_loop_spec (H : nat -> nat) x (L G : list nat) prev n : forall i ns,
  (forall y, height_of ns y = H y) -> H x = (i + n)%nat -> (i + n <= kMaxHeight)%nat -> H head_ = kMaxHeight ->
  x ∉ head_ :: L ++ G -> NoDup (head_ :: L ++ G) ->
  (forall j, (i <= j < i + n)%nat ->
    prev !! j = Some (Some (List.last (filter (fun y => (j < H y)%nat) L) head_))) ->
  (forall j, (j < i)%nat -> linked ns j head_ (filter (fun y => (j < H y)%nat) (L ++ x :: G))) ->
  (forall j, (i <= j < kMaxHeight)%nat -> linked ns j head_ (filter (fun y => (j < H y)%nat) (L ++ G))) ->
  exists ns', link_loop n i x prev ns = Some ns' /\ length ns' = length ns /\
    (forall y, height_of ns' y = H y) /\ (forall y, node_key_at ns' y = node_key_at ns y) /\
    forall j, (j < kMaxHeight)%nat -> linked ns' j head_ (filter (fun y => (j < H y)%nat) (L ++ x :: G)).
Proof.
  induction n as [|n IH]; intros i ns HH Hx Hle Hhead Hnin Hnd Hprev Hdone Htodo; cbn [link_loop].
  { exists ns. repeat split; try done. intros j Hj. destruct (decide (j < i)%nat); [by apply Hdone|].
    assert (E : filter (fun y => (j < H y)%nat) (L ++ x :: G) = filter (fun y => (j < H y)%nat) (L ++ G)).
    { rewrite !filter_app. f_equal. rewrite filter_cons_False by lia. done. }
    rewrite E. apply Htodo. lia. }
  set (P := fun y => (i < H y)%nat). set (p := List.last (filter P L) head_).
  rewrite Hprev by lia. fold P p. cbn [mjoin option_join mbind option_bind].
  pose proof (Htodo i ltac:(lia)) as Hi. fold P in Hi. rewrite filter_app in Hi.
  pose proof (linked_next _ _ _ _ (linked_from _ _ _ _ _ Hi)) as Hnext. fold p in Hnext.
  rewrite Hnext. cbn [mbind option_bind].
  assert (Hpin : p ∈ head_ :: filter P L) by apply last_elem_of.
  assert (Hp : (i < H p)%nat).
  { apply elem_of_cons in Hpin as [->|Hpin]; [lia|]. by apply (list_elem_of_filter P) in Hpin as [? _]. }
  assert (Hpx : p <> x).
  { intros ->. apply Hnin. apply elem_of_cons in Hpin as [->|Hpin]; [by left|]. right.
    apply (list_elem_of_filter P) in Hpin as [_ ?]. rewrite elem_of_app. auto. }
  destruct (SetNext_spec ns x i (hd_error (filter P G))) as (ns1 & -> & L1 & H1 & K1 & N1); [rewrite HH; lia|].
  cbn [mbind option_bind].
  destruct (SetNext_spec ns1 p i (Some x)) as (ns2 & -> & L2 & H2 & K2 & N2); [rewrite H1, HH; lia|].
  cbn [mbind option_bind].
  assert (N : forall z m, Next ns2 z m = if decide (z = p /\ m = i) then Some (Some x)
    else if decide (z = x /\ m = i) then Some (hd_error (filter P G)) else Next ns z m).
  { intros z m. rewrite N2. destruct (decide (z = p /\ m = i)); [done|]. apply N1. }
  assert (Hframe : forall j ids, j <> i -> linked ns j head_ ids -> linked ns2 j head_ ids).
  { intros j ids Hj. apply linked_frame. intros y _. rewrite N. repeat case_decide; naive_solver. }
  destruct (IH (S i) ns2) as (ns' & E & Hlen & Hh' & Hk' & Hl'); try done; try lia.
  - intros y. by rewrite H2, H1.
  - intros j Hj. apply Hprev. lia.
  - intros j Hj. destruct (decide (j = i)) as [->|Hne]; [|apply Hframe; [done|apply Hdone; lia]].
    fold P. rewrite filter_app, filter_cons_True by (unfold P; lia).
    apply (linked_insert ns); [done| | | | |].
    + eapply sublist_NoDup; [exact Hnd|]. rewrite <- filter_app. apply sublist_skip, sublist_filter.
    + intros Hin. apply Hnin. rewrite <- filter_app in Hin. apply elem_of_cons in Hin as [->|Hin]; [by left|].
      right. by apply (list_elem_of_filter P) in Hin as [_ ?].
    + intros y Hy1 Hy2. rewrite N. fold p in Hy2. repeat case_decide; naive_solver.
    + fold p. rewrite N. case_decide; naive_solver.
    + fold p. rewrite N, Hnext. repeat case_decide; naive_solver.
  - intros j Hj. apply Hframe; [lia|]. apply Htodo. lia.
  - exists ns'. split; [done|]. split; [congruence|]. split; [done|]. split; [|done].
    intros y. by rewrite Hk', K2, K1.
Qed.

Lemma height_of_app ns nd y : height_of (ns ++ [nd]) y
  = if decide (y = length ns) then length (next_ nd) else height_of ns y.
Proof.
  unfold height_of. destruct (decide (y = length ns)) as [->|Hne]; [by rewrite list_lookup_middle|].
  destruct (decide (y < length ns)%nat); [by rewrite lookup_app_l|].
  rewrite !lookup_ge_None_2; [done| |rewrite length_app; cbn]; lia.
Qed.

Lemma node_key_app ns nd y : (y < length ns)%nat -> node_key_at (ns ++ [nd]) y = node_key_at ns y.
Proof. intros Hy. unfold node_key_at. by rewrite lookup_app_l. Qed.

Lemma Next_app ns nd y m : (y < length ns)%nat -> Next (ns ++ [nd]) y m = Next ns y m.
Proof. intros Hy. unfold Next. by rewrite lookup_app_l. Qed.

Lemma inv_id_range l ids ks y : skip_inv l ids ks -> y ∈ head_ :: ids -> (y < length (nodes l))%nat.
Proof.
  intros Hinv Hy. assert (1 <= height_of (nodes l) y)%nat as Hh.
  { apply elem_of_cons in Hy as [->|Hy]; [rewrite (inv_head _ _ _ Hinv); unfold kMaxHeight; lia|].
    pose proof (inv_heights _ _ _ Hinv) as Hf. rewrite Forall_forall in Hf. by apply Hf in Hy as [? _]. }
  unfold height_of in Hh. destruct (nodes l !! y) eqn:E; [by eapply lookup_lt_Some|lia].
Qed.

Lemma filter_ext_in (P Q : nat -> Prop) `{!forall x, Decision (P x)} `{!forall x, Decision (Q x)} (ids : list nat) :
  (forall x, x ∈ ids -> (P x <-> Q x)) -> filter P ids = filter Q ids.
Proof.
  induction ids as [|y ids IH]; intros Hf; [done|]. assert (Hy := Hf y ltac:(by left)).
  assert (Ht := IH (fun x Hx => Hf x ltac:(by right))).
  destruct (decide (P y)); [rewrite !filter_cons_True by tauto|rewrite !filter_cons_False by tauto]; congruence.
Qed.

(** The array of predecessors that the link loop uses. *)
Lemma prev_levels l ids ks key prev height : skip_inv l ids ks -> length prev = kMaxHeight ->
  (1 <= height <= kMaxHeight)%nat ->
  (forall i, (i < max_height_ l)%nat ->
    prev !! i = Some (Some (List.last (filter (at_level (nodes l) i) (lts key ids ks)) head_))) ->
  let r := if (max_height_ l <? height)%nat
           then (set_heads (height - max_height_ l) (max_height_ l) prev, height) else (prev, max_height_ l) in
  r.2 = Nat.max (max_height_ l) height /\
  forall i, (i < height)%nat ->
    r.1 !! i = Some (Some (List.last (filter (at_level (nodes l) i) (lts key ids ks)) head_)).
Proof.
  intros Hinv Hlen Hh Hp. destruct (Nat.ltb_spec (max_height_ l) height) as [Hlt|Hge]; cbn [fst snd].
  - split; [lia|]. intros i Hi. rewrite set_heads_lookup by lia. case_decide as Hd; [|apply Hp; lia].
    replace (filter _ (lts key ids ks)) with (@nil nat); [done|]. symmetry.
    assert (Hsub : forall x, x ∈ lts key ids ks -> ~ (i < height_of (nodes l) x)%nat).
    { intros x Hx. pose proof (inv_heights _ _ _ Hinv) as Hf. rewrite Forall_forall in Hf.
      unfold lts in Hx. eapply elem_of_take in Hx as (j & Hj & _).
      apply list_elem_of_lookup_2, Hf in Hj. lia. }
    clear -Hsub. induction (lts key ids ks) as [|y ys IH]; [done|].
    rewrite filter_cons_False by (apply Hsub; by left). apply IH. intros x Hx. apply Hsub. by right.
  - split; [lia|]. intros i Hi. apply Hp. lia.
Qed.

Lemma lts_ges key ids ks : lts key ids ks ++ ges key ids ks = ids.
Proof. apply take_drop. Qed.

(** The invariant after a splice: the nodes [ns'] hold the old ones and [x]. *)
Lemma inv_after l ids ks key height rnd ns' : skip_inv l ids ks ->
  Forall (fun k => cmp key k <> Eq) ks -> (1 <= height <= kMaxHeight)%nat ->
  let x := length (nodes l) in
  let ns0 := nodes l ++ [NewNode (Some key) height] in
  let ids' := lts key ids ks ++ x :: ges key ids ks in
  length ns' = length ns0 -> (forall y, height_of ns' y = height_of ns0 y) ->
  (forall y, node_key_at ns' y = node_key_at ns0 y) ->
  (forall j, (j < kMaxHeight)%nat -> linked ns' j head_ (filter (at_level ns0 j) ids')) ->
  skip_inv (mkSkipList ns' (Nat.max (max_height_ l) height) rnd) ids' (insert_sorted cmp key ks).
Proof.
  intros Hinv Hne Hh x ns0 ids' Hlen Hheights Hkeys Hlinked.
  assert (Hx : height_of ns0 x = height).
  { unfold ns0, x. rewrite height_of_app. case_decide; [|done]. cbn. by rewrite length_replicate. }
  assert (Hold : forall y, y ∈ head_ :: ids -> height_of ns0 y = height_of (nodes l) y /\ y <> x).
  { intros y Hy. apply (inv_id_range l ids ks) in Hy; [|done]. unfold ns0, x. rewrite height_of_app.
    case_decide; [lia|]. split; [done|lia]. }
  pose proof (inv_max _ _ _ Hinv). pose proof (inv_nodup _ _ _ Hinv) as Hnd.
  split; cbn [nodes max_height_].
  - unfold insert_sorted. pose proof (inv_keys _ _ _ Hinv) as Hk.
    assert (Hk' : Forall2 (fun y k => node_key_at ns' y = Some k) ids ks).
    { apply Forall2_same_length_lookup. split; [by apply Forall2_length in Hk|].
      intros i y k Hy Hki. rewrite Hkeys. unfold ns0. rewrite node_key_app.
      - by apply (Forall2_lookup_lr _ _ _ _ _ _ Hk Hy Hki).
      - apply (inv_id_range l ids ks); [done|]. right. by eapply list_elem_of_lookup_2. }
    apply Forall2_app; [by apply Forall2_take|]. constructor; [|by apply Forall2_drop].
    rewrite Hkeys. unfold node_key_at, ns0, x. by rewrite list_lookup_middle.
  - apply insert_sorted_sorted; [done|by apply (inv_sorted _ _ _ Hinv)|done].
  - rewrite Hheights. destruct (Hold head_ ltac:(by left)) as [-> _]. apply (inv_head _ _ _ Hinv).
  - lia.
  - assert (Hf : Forall (fun y => (1 <= height_of ns' y <= Nat.max (max_height_ l) height)%nat) ids).
    { pose proof (inv_heights _ _ _ Hinv) as Hf. rewrite Forall_forall in *. intros y Hy.
      rewrite Hheights. destruct (Hold y ltac:(by right)) as [-> _]. specialize (Hf y Hy). lia. }
    rewrite <- (lts_ges key ids ks) in Hf. apply Forall_app in Hf as [F1 F2].
    apply Forall_app. split; [done|]. constructor; [|done]. rewrite Hheights, Hx. lia.
  - unfold ids'. rewrite <- Permutation_middle, lts_ges. apply NoDup_cons in Hnd as [Hnd1 Hnd2].
    apply NoDup_cons. split.
    + intros [E|Hin]%elem_of_cons; [|done]. by destruct (Hold head_ ltac:(by left)).
    + apply NoDup_cons. split; [|done]. intros Hin. by destruct (Hold x ltac:(by right)).
  - rewrite Hlen. unfold ns0, ids'. rewrite length_app, <- Permutation_middle, lts_ges. cbn [length].
    rewrite (inv_count _ _ _ Hinv). lia.
  - intros lv Hlv. specialize (Hlinked lv Hlv).
    rewrite (filter_ext_in _ (at_level ns0 lv)); [done|]. intros y _. by rewrite Hheights.
Qed.

(** [Insert] refines the insertion into the sorted sequence. *)
Lemma Insert_spec l ids ks key : skip_inv l ids ks -> Forall (fun k => cmp key k <> Eq) ks ->
  exists l' ids', Insert cmp l key = Some l' /\ skip_inv l' ids' (insert_sorted cmp key ks).
Proof.
  intros Hinv Hne. unfold Insert.
  destruct (FindGreaterOrEqual_spec l ids ks key Hinv) as (prev & -> & Hlen & Hp). cbn [mbind option_bind].
  pose proof (RandomHeight_range (rnd_ l)) as Hh. destruct (RandomHeight (rnd_ l)) as [height rnd]. cbn [fst] in Hh.
  destruct (prev_levels l ids ks key prev height Hinv Hlen Hh Hp) as [Hmax Hprev].
  destruct (if (max_height_ l <? height)%nat then _ else _) as [prev' mh] eqn:Er.
  cbn [fst snd] in Hmax, Hprev. subst mh.
  set (x := length (nodes l)). set (ns0 := nodes l ++ [NewNode (Some key) height]).
  assert (Hid : forall y, y ∈ head_ :: ids -> height_of ns0 y = height_of (nodes l) y /\ (y < x)%nat).
  { intros y Hy. apply (inv_id_range l ids ks) in Hy; [|done]. unfold ns0, x. rewrite height_of_app.
    case_decide; [lia|done]. }
  assert (Hsub : forall y, y ∈ lts key ids ks -> y ∈ ids).
  { intros y Hy. rewrite <- (lts_ges key ids ks), elem_of_app. by left. }
  destruct (link_loop_spec (height_of ns0) x (lts key ids ks) (ges key ids ks) prev' height 0 ns0)
    as (ns' & -> & L1 & L2 & L3 & L4); rewrite ?lts_ges; try done; try lia.
  - unfold ns0, x. rewrite height_of_app. case_decide; [|done]. cbn. rewrite length_replicate. lia.
  - destruct (Hid head_ ltac:(by left)) as [-> _]. apply (inv_head _ _ _ Hinv).
  - intros Hin. apply Hid in Hin as [_ ?]. lia.
  - apply (inv_nodup _ _ _ Hinv).
  - intros j Hj. rewrite Hprev by lia. do 2 f_equal. f_equal. apply filter_ext_in. intros y Hy.
    destruct (Hid y ltac:(right; by apply Hsub)) as [-> _]. done.
  - intros j Hj. pose proof (inv_linked _ _ _ Hinv j ltac:(lia)) as Hl.
    rewrite (filter_ext_in _ (at_level (nodes l) j)) by (intros y Hy; by destruct (Hid y ltac:(by right)) as [-> _]).
    apply (linked_frame (nodes l)); [|done]. intros y Hy. apply Next_app.
    apply (Hid y). apply elem_of_cons in Hy as [->|Hy]; [by left|]. right.
    by apply (list_elem_of_filter (at_level (nodes l) j)) in Hy as [_ ?].
  - cbn [mbind option_bind]. eexists _, _. split; [done|]. by apply inv_after.
Qed.

Lemma new_SkipList_inv : skip_inv new_SkipList [] [].
Proof.
  split; cbn; try done; try constructor; try (unfold kMaxHeight; lia).
  - apply not_elem_of_nil.
  - constructor.
  - intros lv Hlv. exact (lookup_replicate_2 kMaxHeight None lv Hlv).
Qed.

(** *** Iterators: the node at each position *)

Lemma Iter_key_spec l ids ks i : skip_inv l ids ks -> Iter_key l (ids !! i) = ks !! i.
Proof.
  intros Hinv. destruct (ids !! i) as [x|] eqn:E; cbn.
  - destruct (keys_lookup l ids ks i x Hinv E) as (k & -> & ->). done.
  - symmetry. apply lookup_ge_None. apply lookup_ge_None in E.
    by rewrite <- (Forall2_length _ _ _ (inv_keys _ _ _ Hinv)).
Qed.

Lemma hd_error_drop {A} (a : list A) i : hd_error (drop i a) = a !! i.
Proof. revert i. induction a as [|x a IH]; intros [|i]; cbn; auto. Qed.

Lemma Iter_Seek_spec l ids ks target : skip_inv l ids ks ->
  Iter_Seek cmp l target = Some (ids !! count_lt cmp target ks).
Proof.
  intros Hinv. unfold Iter_Seek. destruct (FindGreaterOrEqual_spec l ids ks target Hinv) as (prev & -> & _).
  cbn. unfold ges. by rewrite hd_error_drop.
Qed.

Lemma Iter_Next_spec l ids ks i x : skip_inv l ids ks -> ids !! i = Some x ->
  Iter_Next l (ids !! i) = Some (ids !! S i).
Proof.
  intros Hinv Hi. rewrite Hi. cbn.
  assert (Hids : ids = (take i ids ++ [x]) ++ drop (S i) ids) by (by rewrite <- app_assoc; cbn; rewrite take_drop_middle).
  assert (Hx : x ∈ ids) by (by eapply list_elem_of_lookup_2).
  pose proof (inv_heights _ _ _ Hinv) as Hf. rewrite Forall_forall in Hf. specialize (Hf x Hx).
  pose proof (next_in_chain l ids ks (take i ids ++ [x]) (drop (S i) ids) 0 Hinv Hids) as Hn.
  rewrite List.last_last in Hn. rewrite Hn by (unfold kMaxHeight; lia).
  rewrite (filter_level_0 l ids ks), hd_error_drop; [done|done|].
  intros y Hy. rewrite Hids, elem_of_app. by right.
Qed.

Lemma Iter_SeekToFirst_spec l ids ks : skip_inv l ids ks -> Iter_SeekToFirst l = Some (ids !! 0%nat).
Proof.
  intros Hinv. pose proof (next_in_chain l ids ks [] ids 0 Hinv eq_refl) as Hn. unfold Iter_SeekToFirst.
  cbn [List.last] in Hn. rewrite Hn by (rewrite ?(inv_head _ _ _ Hinv); unfold kMaxHeight; lia).
  rewrite (filter_level_0 l ids ks), <- (hd_error_drop ids 0) by done. done.
Qed.

Lemma not_head_last l ids ks pre : skip_inv l ids ks -> (forall y, y ∈ pre -> y ∈ ids) ->
  not_head (List.last pre head_) = last pre.
Proof.
  intros Hinv Hsub. destruct pre as [|y pre _] using rev_ind; [done|].
  rewrite List.last_last, last_snoc. unfold not_head.
  destruct (Nat.eqb_spec y head_) as [->|]; [|done]. pose proof (inv_nodup _ _ _ Hinv) as Hnd.
  apply NoDup_cons in Hnd as [Hnd _]. exfalso. apply Hnd, Hsub. rewrite elem_of_app, elem_of_cons. auto.
Qed.

Lemma Iter_SeekToLast_spec l ids ks : skip_inv l ids ks -> Iter_SeekToLast l = Some (last ids).
Proof.
  intros Hinv. unfold Iter_SeekToLast. rewrite (FindLast_spec l ids ks Hinv). cbn.
  by rewrite (not_head_last l ids ks).
Qed.

(** In a sorted sequence exactly the keys before position [i] are smaller
    than the key at [i]. *)
Lemma count_lt_at ks i k : sorted_keys cmp ks -> ks !! i = Some k -> count_lt cmp k ks = i.
Proof.
  intros Hs. revert i. induction Hs as [|a ks Hs IH Ha]; intros i Hi; [done|].
  destruct i as [|i]; cbn in *.
  - injection Hi as <-. destruct (is_lt (cmp a a)) eqn:E; [|done].
    apply is_lt_spec in E. by apply (cmp_lt_irrefl cmp) in E.
  - rewrite Forall_forall in Ha. rewrite (Ha k) by (by apply (list_elem_of_lookup_2 _ i)). cbn. by rewrite (IH i Hi).
Qed.

Lemma Iter_Prev_spec l ids ks i x : skip_inv l ids ks -> ids !! i = Some x ->
  Iter_Prev cmp l (ids !! i) = Some (last (take i ids)).
Proof.
  intros Hinv Hi. destruct (keys_lookup l ids ks i x Hinv Hi) as (k & Hk & Hx).
  unfold Iter_Prev. rewrite Hi. cbn. rewrite Hx. cbn.
  rewrite (FindLessThan_spec l ids ks k Hinv). cbn. unfold lts.
  rewrite (count_lt_at ks i k) by (by try apply (inv_sorted _ _ _ Hinv)).
  rewrite (not_head_last l ids ks); [done|done|].
  intros y Hy. eapply elem_of_take in Hy as (j & Hj & _). by eapply list_elem_of_lookup_2.
Qed.

Lemma scan_spec l ids ks fuel : skip_inv l ids ks -> forall i, (length ids <= i + fuel)%nat ->
  scan fuel l (ids !! i) = Some (drop i ks).
Proof.
  intros Hinv. induction fuel as [|fuel IH]; intros i Hi.
  - rewrite lookup_ge_None_2 by lia. cbn. rewrite drop_ge; [done|].
    rewrite <- (Forall2_length _ _ _ (inv_keys _ _ _ Hinv)). lia.
  - destruct (ids !! i) as [x|] eqn:E.
    + cbn [scan]. rewrite <- E, (Iter_key_spec l ids ks i Hinv), (Iter_Next_spec l ids ks i x Hinv E).
      destruct (keys_lookup l ids ks i x Hinv E) as (k & Hk & _). rewrite Hk. cbn.
      rewrite IH by lia. cbn. by rewrite (drop_S ks k i Hk).
    + cbn. rewrite drop_ge; [done|]. rewrite <- (Forall2_length _ _ _ (inv_keys _ _ _ Hinv)).
      by apply lookup_ge_None.
Qed.

Lemma existsb_none {A} (f : A -> bool) a : (forall x, x ∈ a -> f x = false) -> existsb f a = false.
Proof.
  induction a as [|x a IH]; intros Hf; [done|]. cbn. rewrite Hf by (by left).
  apply IH. intros y Hy. apply Hf. by right.
Qed.

Lemma Contains_spec l ids ks key : skip_inv l ids ks ->
  Contains cmp l key = Some (existsb (fun k => is_eq (cmp key k)) ks).
Proof.
  intros Hinv. unfold Contains. destruct (FindGreaterOrEqual_spec l ids ks key Hinv) as (prev & -> & _).
  cbn [mbind option_bind fst]. unfold ges. rewrite hd_error_drop.
  pose proof (inv_sorted _ _ _ Hinv) as Hs. pose proof (count_lt_below cmp key ks) as Hb.
  pose proof (count_lt_above cmp key ks Hs) as Ha. set (c := count_lt cmp key ks) in *.
  assert (Hlow : existsb (fun k => is_eq (cmp key k)) (take c ks) = false).
  { apply existsb_none. intros k Hk. rewrite Forall_forall in Hb. specialize (Hb k Hk).
    apply (cmp_gt_lt cmp) in Hb. by rewrite Hb. }
  rewrite <- (take_drop c ks) at 1. rewrite existsb_app, Hlow. cbn [orb].
  destruct (ids !! c) as [x|] eqn:E.
  - destruct (keys_lookup l ids ks c x Hinv E) as (k & Hk & ->). cbn [mbind option_bind]. f_equal.
    rewrite <- (take_drop_middle ks c k Hk) in Hs at 1. apply sorted_app in Hs as (_ & Hs & _).
    apply StronglySorted_inv in Hs as [_ Hs]. rewrite (drop_S ks k c Hk) in *.
    apply Forall_cons_1 in Ha as [Hk0 _]. rewrite Forall_forall in Hs. cbn [existsb].
    destruct (cmp key k) eqn:Ec; cbn [is_eq orb]; [done| |by apply (cmp_gt_lt cmp) in Ec].
    symmetry. apply existsb_none. intros k' Hk'. specialize (Hs k' Hk').
    by rewrite (cmp_lt_trans cmp key k k' Ec Hs).
  - rewrite drop_ge by (rewrite <- (Forall2_length _ _ _ (inv_keys _ _ _ Hinv)); by apply lookup_ge_None).
    done.
Qed.

(** *** A list built by insertions *)

Definition distinct (ks : list K) : Prop := ForallOrdPairs (fun a b => cmp a b <> Eq) ks.

Lemma insert_all_inv keys : distinct keys ->
  exists l ids ks, insert_all cmp keys = Some l /\ skip_inv l ids ks /\ ks ≡ₚ keys.
Proof.
  intros Hd. unfold insert_all.
  assert (Hg : forall keys l0 ids0 ks0, distinct keys -> skip_inv l0 ids0 ks0 ->
    (forall a b, a ∈ ks0 -> b ∈ keys -> cmp a b <> Eq) ->
    exists l ids ks, fold_left (insert_step cmp) keys (Some l0) = Some l /\
      skip_inv l ids ks /\ ks ≡ₚ ks0 ++ keys).
  { clear keys Hd. induction keys as [|k keys IH]; intros l0 ids0 ks0 Hd Hinv Hne; cbn [fold_left].
    - exists l0, ids0, ks0. by rewrite app_nil_r.
    - inversion Hd as [|? ? Hk Hd']; subst. rewrite Forall_forall in Hk.
      destruct (Insert_spec l0 ids0 ks0 k Hinv) as (l1 & ids1 & E & Hinv1).
      { apply Forall_forall. intros a Ha Hc. apply (Hne a k Ha ltac:(by left)). by apply cmp_eq_sym in Hc. }
      destruct (IH l1 ids1 (insert_sorted cmp k ks0) Hd' Hinv1) as (l & ids & ks & El & Hl & Hp).
      { intros a b Ha Hb. rewrite insert_sorted_perm in Ha. apply elem_of_cons in Ha as [->|Ha]; [by apply Hk|].
        apply (Hne a b Ha). by right. }
      exists l, ids, ks. cbn [insert_step mbind option_bind]. rewrite E. split; [done|]. split; [done|].
      rewrite Hp, insert_sorted_perm. cbn. apply Permutation_middle. }
  destruct (Hg keys new_SkipList [] [] Hd new_SkipList_inv) as (l & ids & ks & H1 & H2 & H3).
  { by intros a b ?%elem_of_nil. }
  by exists l, ids, ks.
Qed.

(** C24. For every sequence of pairwise different keys, all insertions succeed
    (no dangling pointer, no access outside a node, no lack of fuel), and the
    list behaves like the sorted sequence [ks] of these keys: a scan from
    [SeekToFirst] by [Next] returns exactly [ks], [Seek] stops at the first key
    that is not smaller than its target, [SeekToLast] at the last one, and
    [Contains] decides membership. *)
Theorem skiplist_refines_sorted_sequence keys : distinct keys ->
  exists l ks, insert_all cmp keys = Some l /\ ks ≡ₚ keys /\ sorted_keys cmp ks /\
    (exists first, Iter_SeekToFirst l = Some first /\ scan (length keys) l first = Some ks) /\
    (forall target, exists x, Iter_Seek cmp l target = Some x /\ Iter_key l x = ks !! count_lt cmp target ks) /\
    (exists x, Iter_SeekToLast l = Some x /\ Iter_key l x = last ks) /\
    (forall key, Contains cmp l key = Some (existsb (fun k => is_eq (cmp key k)) ks)).
Proof.
  intros Hd. destruct (insert_all_inv keys Hd) as (l & ids & ks & E & Hinv & Hp).
  exists l, ks. split; [done|]. split; [done|]. split; [apply (inv_sorted _ _ _ Hinv)|].
  assert (Hlen : length ids = length keys).
  { rewrite <- Hp. apply (Forall2_length _ _ _ (inv_keys _ _ _ Hinv)). }
  split; [|split; [|split]].
  - exists (ids !! 0%nat). split; [by apply (Iter_SeekToFirst_spec l ids ks)|].
    rewrite (scan_spec l ids ks) by (done || lia). done.
  - intros target. eexists. split; [by apply (Iter_Seek_spec l ids ks)|]. by apply Iter_key_spec.
  - exists (last ids). split; [by apply (Iter_SeekToLast_spec l ids ks)|].
    rewrite !last_lookup, (Iter_key_spec l ids ks) by done.
    by rewrite (Forall2_length _ _ _ (inv_keys _ _ _ Hinv)).
  - intros key. by apply (Contains_spec l ids ks).
Qed.

End Refine.

Lemma skiplist_refines_sorted_sequence_witness :
  exists l ks, insert_all Z.compare [5; 3; 9; 1] = Some l /\ ks ≡ₚ [5; 3; 9; 1] /\ sorted_keys Z.compare ks.
Proof.
  assert (Ht : TotalCmp Z.compare).
  { split.
    - apply Z.compare_refl.
    - intros x y. apply Z.compare_antisym.
    - intros x y z. rewrite !Z.compare_lt_iff. lia.
    - intros x y z H%Z.compare_eq. by subst. }
  destruct (skiplist_refines_sorted_sequence Z.compare [5; 3; 9; 1]) as (l & ks & H1 & H2 & H3 & _).
  - repeat constructor; discriminate.
  - exists l, ks. exact (conj H1 (conj H2 H3)).
Defined.
