(* ===== verification/MemTable.v ===== *)
(** * The memtable: db/memtable.{h,cpp}

    A skip list of entries, each an arena buffer that holds a length-prefixed
    internal key followed by a length-prefixed value. [None] stands for an
    access outside a buffer, as in SkipList.v. *)

From S2P Require Import Prelude Coding Status Comparator Dbformat Random Arena SkipList.

(** ** Reading entries *)

(** [GetVarint32Ptr(p, p + 5, &len)]: the value and the pointer behind it. *)
Definition varint5 (data : bytes) : option (Z * bytes) :=
  match GetVarint32Ptr (take 5 data) with
  | Some (len, rest) => Some (len, drop (length (take 5 data) - length rest) data)
  | None => None
  end.

(** The slice and what follows it in the buffer. *)
Definition slice_and_rest (data : bytes) : option (bytes * bytes) :=
  r ← varint5 data;
  let '(len, p) := r : Z * bytes in
  if (Z.to_nat len <=? length p)%nat then Some (take (Z.to_nat len) p, drop (Z.to_nat len) p) else None.

Definition MemTable_GetLengthPrefixedSlice (data : bytes) : option bytes := fst <$> slice_and_rest data.

(** [KeyComparator::operator()]; a buffer without a key does not occur. *)
Definition KeyComparator (ucmp : Comparator) (aptr bptr : bytes) : comparison :=
  let slice p := default [] (MemTable_GetLengthPrefixedSlice p) in
  InternalKey_Compare ucmp (slice aptr) (slice bptr).

Definition EncodeKey (target : bytes) : bytes := PutVarint32 [] (u32 (zlen target)) ++ target.

(** ** The table *)

Record MemTable := mkMemTable {
  table_ : SkipList bytes;
  arena_ : Arena
}.

Section MemTable.
Context (ucmp : Comparator) (base : nat -> Z).

(** [sizeof(Node) + sizeof(AtomicPointer) * (height - 1)] *)
Definition node_size (height : nat) : Z := 16 + 8 * (Z.of_nat height - 1).

(** The constructor allocates the head node. *)
Definition new_MemTable : MemTable :=
  mkMemTable new_SkipList (AllocateAligned base (node_size kMaxHeight) new_Arena).2.

Definition ApproximateMemoryUsage (m : MemTable) : Z := memory_usage_ (arena_ m).

(** The buffer that [Add] fills. *)
Definition encode_entry (s : Z) (type : ValueType) (key value : bytes) : bytes :=
  let internal_key_size := zlen key + 8 in
  EncodeVarint32 (u32 internal_key_size) ++ key ++ EncodeFixed64 (Z.lor (u64 (Z.shiftl s 8)) (type_to_Z type)) ++
  EncodeVarint32 (u32 (zlen value)) ++ value.

Definition encoded_len (key value : bytes) : Z :=
  let internal_key_size := zlen key + 8 in
  VarintLength internal_key_size + internal_key_size + VarintLength (zlen value) + zlen value.

Definition MemTable_Add (m : MemTable) (s : Z) (type : ValueType) (key value : bytes) : option MemTable :=
  let buf := encode_entry s type key value in
  let arena := (Allocate (encoded_len key value) (arena_ m)).2 in
  let height := (RandomHeight (rnd_ (table_ m))).1 in
  table ← Insert (KeyComparator ucmp) (table_ m) buf;
  Some (mkMemTable table (AllocateAligned base (node_size height) arena).2).

(** What [Get] does with its out parameters. *)
Inductive MemResult :=
  | MemValue (value : bytes)      (** true, [*value] assigned *)
  | MemStatus (s : Status)        (** true, [*s] assigned *)
  | MemMissing.                   (** false *)

Definition MemTable_Get (m : MemTable) (key : LookupKey) : option MemResult :=
  let memkey := lk_memtable_key key in
  node ← Iter_Seek (KeyComparator ucmp) (table_ m) memkey;
  match node with
  | None => Some MemMissing
  | Some _ =>
      entry ← Iter_key (table_ m) node;
      r ← varint5 entry;
      let '(key_length, key_ptr) := r : Z * bytes in
      if is_eq (Compare ucmp (take (Z.to_nat (u32 (key_length - 8))) key_ptr) (lk_user_key key)) then
        let tag := DecodeFixed64 (drop (Z.to_nat (key_length - 8)) key_ptr) in
        if Z.land tag 0xff =? type_to_Z kTypeValue then
          v ← MemTable_GetLengthPrefixedSlice (drop (Z.to_nat key_length) key_ptr);
          Some (MemValue v)
        else if Z.land tag 0xff =? type_to_Z kTypeDeletion then Some (MemStatus (NotFound []))
        else Some MemMissing
      else Some MemMissing
  end.

(** The iterator's key and value at a node. *)
Definition MemIter_key (m : MemTable) (node : option nat) : option bytes :=
  e ← Iter_key (table_ m) node; MemTable_GetLengthPrefixedSlice e.

Definition MemIter_value (m : MemTable) (node : option nat) : option bytes :=
  e ← Iter_key (table_ m) node;
  r ← slice_and_rest e;
  MemTable_GetLengthPrefixedSlice r.2.

Definition MemIter_Seek (m : MemTable) (k : bytes) : option (option nat) :=
  Iter_Seek (KeyComparator ucmp) (table_ m) (EncodeKey k).

End MemTable.

(** ** Entries *)

Lemma EncodeVarint32_length v : 0 <= v < 2 ^ 32 -> (1 <= length (EncodeVarint32 v) <= 5)%nat.
Proof.
  intros Hv. unfold EncodeVarint32. repeat case_match; cbn; lia.
Qed.

Lemma varint5_app v rest : fits 32 v -> varint5 (EncodeVarint32 v ++ rest) = Some (v, rest).
Proof.
  intros Hv. unfold varint5. pose proof (EncodeVarint32_length v Hv) as Hl.
  rewrite take_app_ge by lia.
  pose proof (GetVarint32_app v (take (5 - length (EncodeVarint32 v)) rest) Hv) as Hg.
  unfold GetVarint32 in Hg. destruct (GetVarint32Ptr _) as [[a b]|]; [|done]. injection Hg as -> ->.
  rewrite length_app, Nat.add_sub, drop_app_length. done.
Qed.

Lemma slice_and_rest_put s rest : zlen s < 2 ^ 32 ->
  slice_and_rest (EncodeVarint32 (u32 (zlen s)) ++ s ++ rest) = Some (s, rest).
Proof.
  intros Hs. pose proof (zlen_nonneg s). unfold slice_and_rest, u32. rewrite Z.mod_small by lia.
  rewrite varint5_app by (unfold fits; lia). cbn [mbind option_bind]. rewrite to_nat_zlen, length_app.
  destruct (Nat.leb_spec (length s) (length s + length rest)); [|lia].
  by rewrite take_app_length, drop_app_length.
Qed.

Record Entry := mkEntry { e_seq : Z; e_type : ValueType; e_key : bytes; e_value : bytes }.

Definition e_ikey (e : Entry) : bytes := InternalKey (e_key e) (e_seq e) (e_type e).
Definition kv (e : Entry) : bytes * bytes := (e_ikey e, e_value e).
Definition enc (e : Entry) : bytes := encode_entry (e_seq e) (e_type e) (e_key e) (e_value e).

Definition entry_ok (e : Entry) : Prop :=
  valid_seq (e_seq e) /\ zlen (e_key e) + 8 < 2 ^ 32 /\ zlen (e_value e) < 2 ^ 32.

Lemma enc_layout e :
  enc e = EncodeVarint32 (u32 (zlen (e_ikey e))) ++ e_ikey e ++ EncodeVarint32 (u32 (zlen (e_value e))) ++ e_value e.
Proof.
  unfold enc, encode_entry, e_ikey. unfold zlen at 3. rewrite InternalKey_length, Nat2Z.inj_add.
  unfold InternalKey, AppendInternalKey, PutFixed64, PackSequenceAndType. cbn [user_key sequence type app].
  by rewrite <- !app_assoc.
Qed.

Lemma ikey_zlen e : zlen (e_ikey e) = zlen (e_key e) + 8.
Proof. unfold zlen, e_ikey. rewrite InternalKey_length. lia. Qed.

Lemma slice_enc e : entry_ok e ->
  slice_and_rest (enc e) = Some (e_ikey e, EncodeVarint32 (u32 (zlen (e_value e))) ++ e_value e).
Proof. intros (_ & Hk & _). rewrite enc_layout. apply slice_and_rest_put. by rewrite ikey_zlen. Qed.

Lemma value_slice v : zlen v < 2 ^ 32 ->
  MemTable_GetLengthPrefixedSlice (EncodeVarint32 (u32 (zlen v)) ++ v) = Some v.
Proof.
  intros Hv. unfold MemTable_GetLengthPrefixedSlice.
  by rewrite <- (app_nil_r v) at 2; rewrite slice_and_rest_put.
Qed.

(** The buffer is exactly as long as [Add] computes: its final assertion. *)
Lemma encoded_len_exact e : entry_ok e -> encoded_len (e_key e) (e_value e) = zlen (enc e).
Proof.
  intros (_ & Hk & Hv). rewrite enc_layout, !zlen_app, ikey_zlen. unfold encoded_len.
  pose proof (zlen_nonneg (e_key e)). pose proof (zlen_nonneg (e_value e)).
  assert (Hlen : forall v, 0 <= v < 2 ^ 32 -> VarintLength v = zlen (EncodeVarint32 (u32 v))).
  { intros v Hv'. unfold u32. rewrite Z.mod_small by lia. rewrite EncodeVarint32_loop by lia.
    apply VarintLength_length. unfold fits. lia. }
  rewrite !Hlen by lia. lia.
Qed.

Section Refine.
Context (ucmp : Comparator) `{!TotalCmp (Compare ucmp)} (base : nat -> Z).

#[global] Instance KeyComparator_total : TotalCmp (KeyComparator ucmp).
Proof.
  apply (TotalCmp_pull (InternalKey_Compare ucmp) (fun p => default [] (MemTable_GetLengthPrefixedSlice p))).
  apply _.
Qed.

Lemma KeyComparator_enc a b : entry_ok a -> entry_ok b ->
  KeyComparator ucmp (enc a) (enc b) = InternalKey_Compare ucmp (e_ikey a) (e_ikey b).
Proof.
  intros Ha Hb. unfold KeyComparator, MemTable_GetLengthPrefixedSlice. by rewrite !slice_enc.
Qed.

(** The table holds the entries [es], in the order of internal keys. *)
Definition mem_rep (m : MemTable) (es : list Entry) : Prop :=
  Forall entry_ok es /\ exists ids, skip_inv (KeyComparator ucmp) (table_ m) ids (map enc es).

Definition same_ikey (a b : Entry) : Prop := InternalKey_Compare ucmp (e_ikey a) (e_ikey b) = Eq.

Lemma new_MemTable_rep : mem_rep (new_MemTable base) [].
Proof. split; [done|]. exists []. apply new_SkipList_inv. Qed.

Lemma MemTable_Add_spec m es e : mem_rep m es -> entry_ok e -> Forall (fun x => ~ same_ikey e x) es ->
  exists m' es', MemTable_Add ucmp base m (e_seq e) (e_type e) (e_key e) (e_value e) = Some m' /\
    mem_rep m' es' /\ es' ≡ₚ e :: es.
Proof.
  intros [Hok [ids Hinv]] He Hne. unfold MemTable_Add. fold (enc e).
  destruct (Insert_spec (KeyComparator ucmp) (table_ m) ids (map enc es) (enc e) Hinv) as (l' & ids' & -> & Hinv').
  { apply Forall_forall. intros x (a & -> & Ha)%list_elem_of_fmap. rewrite Forall_forall in Hok, Hne.
    rewrite KeyComparator_enc by (done || by apply Hok). by apply Hne. }
  cbn [mbind option_bind]. set (c := count_lt (KeyComparator ucmp) (enc e) (map enc es)) in *.
  eexists _, (take c es ++ e :: drop c es). split; [done|].
  assert (Hp : take c es ++ e :: drop c es ≡ₚ e :: es) by (rewrite <- Permutation_middle; by rewrite take_drop).
  split; [|done]. split.
  - rewrite Hp. by constructor.
  - exists ids'. cbn [table_]. unfold insert_sorted in Hinv'. fold c in Hinv'.
    rewrite map_app. cbn [map]. rewrite !fmap_take, !fmap_drop in *. exact Hinv'.
Qed.

(** ** Lookups *)

(** Snapshot [s] sees entry [e] of user key [u]. *)
Definition visible (u : bytes) (s : Z) (e : Entry) : Prop :=
  Compare ucmp (e_key e) u = Eq /\ e_seq e <= s.

(** [e] is the newest entry of [u] that snapshot [s] sees. *)
Definition newest (es : list Entry) (u : bytes) (s : Z) (e : Entry) : Prop :=
  e ∈ es /\ visible u s e /\ forall e', e' ∈ es -> visible u s e' -> e_seq e' <= e_seq e.

Definition seek_key (u : bytes) (s : Z) : bytes := InternalKey u s kValueTypeForSeek.

(** An entry is at or behind the search key of [(u, s)] iff its user key is
    larger, or it is a visible entry of [u]. *)
Lemma not_before e u s : valid_seq (e_seq e) -> valid_seq s ->
  InternalKey_Compare ucmp (e_ikey e) (seek_key u s) <> Lt <->
  Compare ucmp (e_key e) u = Gt \/ visible u s e.
Proof.
  intros He Hs. unfold visible, e_ikey, seek_key.
  pose proof (InternalKey_Compare_spec ucmp (e_key e) (e_seq e) (e_type e) u s kValueTypeForSeek He Hs) as Hc.
  cbn [Compare InternalKeyComparator] in Hc. rewrite Hc.
  destruct (Compare ucmp (e_key e) u); [|split; [done|by intros [?|[? _]]]|split; [by left|done]].
  destruct (Z.compare_spec s (e_seq e)), (e_type e); cbn; split; intros Hx;
    first [done | right; split; [done|lia] | by destruct Hx | destruct Hx as [?|[_ ?]]; [done|lia]].
Qed.

Lemma ikey_lt_seq a b : valid_seq (e_seq a) -> valid_seq (e_seq b) -> InternalKey_Compare ucmp (e_ikey a) (e_ikey b) = Lt ->
  Compare ucmp (e_key a) (e_key b) <> Gt /\
  (Compare ucmp (e_key a) (e_key b) = Eq -> e_seq b <= e_seq a).
Proof.
  intros Ha Hb.
  pose proof (InternalKey_Compare_spec ucmp (e_key a) (e_seq a) (e_type a) (e_key b) (e_seq b) (e_type b) Ha Hb) as Hc.
  cbn [Compare InternalKeyComparator] in Hc. unfold e_ikey. rewrite Hc.
  destruct (Compare ucmp (e_key a) (e_key b)); [|done|done].
  destruct (Z.compare_spec (e_seq b) (e_seq a)); intros; split; done || (intros; lia).
Qed.

Definition sorted_entries (es : list Entry) : Prop :=
  StronglySorted (fun a b => InternalKey_Compare ucmp (e_ikey a) (e_ikey b) = Lt) es.

(** The entry at the search position decides the lookup. *)
Lemma lookup_position es pre suf u s : Forall entry_ok es -> sorted_entries es -> valid_seq s -> es = pre ++ suf ->
  (forall e, e ∈ pre -> InternalKey_Compare ucmp (e_ikey e) (seek_key u s) = Lt) ->
  (forall e, e ∈ suf -> InternalKey_Compare ucmp (e_ikey e) (seek_key u s) <> Lt) ->
  match suf with
  | e :: _ => if is_eq (Compare ucmp (e_key e) u) then newest es u s e
              else forall e', e' ∈ es -> ~ visible u s e'
  | [] => forall e', e' ∈ es -> ~ visible u s e'
  end.
Proof.
  intros Hok Hs Hv -> Hpre Hsuf. rewrite Forall_forall in Hok.
  assert (Hp : forall e', e' ∈ pre -> ~ visible u s e').
  { intros e' He' Hvis. specialize (Hpre e' He').
    by apply (not_before e' u s) in Hpre; [|apply (Hok e'); rewrite elem_of_app; auto| |right]. }
  destruct suf as [|e suf].
  { intros e'. rewrite app_nil_r. apply Hp. }
  assert (He : entry_ok e) by (apply Hok; rewrite elem_of_app, elem_of_cons; auto).
  assert (Hse : StronglySorted (fun a b => InternalKey_Compare ucmp (e_ikey a) (e_ikey b) = Lt) (e :: suf)).
  { clear -Hs. unfold sorted_entries in Hs. induction pre as [|x pre IH]; [done|].
    apply IH. by apply StronglySorted_inv in Hs as [? _]. }
  apply StronglySorted_inv in Hse as [_ Hse]. rewrite Forall_forall in Hse.
  assert (Hafter : forall e', e' ∈ suf -> entry_ok e' /\ InternalKey_Compare ucmp (e_ikey e) (e_ikey e') = Lt).
  { intros e' He'. split; [apply Hok; rewrite elem_of_app, elem_of_cons; auto|by apply Hse]. }
  pose proof (proj1 (not_before e u s (proj1 He) Hv) (Hsuf e ltac:(by left))) as Hnb.
  destruct (Compare ucmp (e_key e) u) eqn:Ec; cbn [is_eq].
  - destruct Hnb as [|Hvis]; [done|]. split; [rewrite elem_of_app, elem_of_cons; auto|]. split; [done|].
    intros e' He' Hvis'. rewrite elem_of_app, elem_of_cons in He'.
    destruct He' as [?|[->|He']]; [by destruct (Hp e')|lia|].
    destruct (Hafter e' He') as [Hok' Hlt]. apply (ikey_lt_seq e e'); [apply He|apply Hok'|done|].
    destruct Hvis' as [Eu _]. apply cmp_eq_sym in Eu; [|done].
    by apply (cmp_eq_trans (Compare ucmp) _ u).
  - destruct Hnb as [Hx|[Hx _]]; congruence.
  - intros e' He' Hvis'. rewrite elem_of_app, elem_of_cons in He'.
    destruct He' as [?|[->|He']]; [by destruct (Hp e')|by destruct Hvis'; congruence|].
    destruct (Hafter e' He') as [Hok' Hlt]. destruct (ikey_lt_seq e e' (proj1 He) (proj1 Hok') Hlt) as [Hle _].
    destruct Hvis' as [Eu _]. apply Hle. by rewrite (cmp_eq_r (Compare ucmp) _ _ _ Eu).
Qed.

(** What [Get] returns for an entry it finds. *)
Definition result_of (e : Entry) : MemResult :=
  match e_type e with
  | kTypeValue => MemValue (e_value e)
  | kTypeDeletion => MemStatus (NotFound [])
  end.

(** [Get] from the entry where the seek stops. *)
Lemma Get_entry m k ids es i e : skip_inv (KeyComparator ucmp) (table_ m) ids (map enc es) ->
  Forall entry_ok es -> es !! i = Some e ->
  Iter_Seek (KeyComparator ucmp) (table_ m) (lk_memtable_key k) = Some (ids !! i) ->
  MemTable_Get ucmp m k
  = Some (if is_eq (Compare ucmp (e_key e) (lk_user_key k)) then result_of e else MemMissing).
Proof.
  intros Hinv Hok Hi Hseek. rewrite Forall_forall in Hok.
  assert (He : entry_ok e) by (apply Hok; by eapply list_elem_of_lookup_2).
  unfold MemTable_Get. rewrite Hseek. cbn [mbind option_bind].
  pose proof (Iter_key_spec (KeyComparator ucmp) (table_ m) ids _ i Hinv) as Hk.
  rewrite list_lookup_fmap, Hi in Hk. cbn [fmap option_fmap option_map] in Hk.
  destruct (ids !! i) as [x|]; [|done]. rewrite Hk. cbn [mbind option_bind].
  pose proof He as (Hseq & Hkl & Hvl). pose proof (zlen_nonneg (e_key e)).
  rewrite enc_layout, (u32_small (zlen (e_ikey e))) by (rewrite ikey_zlen; lia).
  rewrite varint5_app by (rewrite ikey_zlen; unfold fits; lia). rewrite ikey_zlen. cbn [mbind option_bind].
  replace (zlen (e_key e) + 8 - 8) with (zlen (e_key e)) by lia.
  rewrite (u32_small (zlen (e_key e))) by lia. replace (Z.to_nat (zlen (e_key e) + 8)) with (length (e_ikey e))
    by (unfold e_ikey, zlen; rewrite InternalKey_length; lia).
  rewrite to_nat_zlen, drop_app_length. unfold e_ikey, InternalKey, AppendInternalKey, PutFixed64.
  cbn [user_key sequence type app]. rewrite <- app_assoc, take_app_length, drop_app_length.
  destruct (is_eq _); [|done]. rewrite DecodeFixed64_app.
  pose proof (Pack_range (e_seq e) (e_type e) Hseq) as Hr. unfold fits in Hr.
  rewrite u64_small by done. rewrite Pack_value by done. pose proof (type_to_Z_range (e_type e)).
  change 0xff with (2 ^ 8 - 1). rewrite land_ones_mod by lia.
  replace ((e_seq e * 256 + type_to_Z (e_type e)) mod 2 ^ 8) with (type_to_Z (e_type e))
    by (apply (Z.mod_unique _ _ (e_seq e)); lia).
  rewrite value_slice by done. unfold result_of. by destruct (e_type e).
Qed.

Lemma KeyComparator_target e u s : entry_ok e -> zlen u + 8 < 2 ^ 32 ->
  KeyComparator ucmp (enc e) (lk_memtable_key (make_LookupKey u s))
  = InternalKey_Compare ucmp (e_ikey e) (seek_key u s).
Proof.
  intros He Hu. unfold KeyComparator, MemTable_GetLengthPrefixedSlice. rewrite slice_enc by done.
  rewrite lk_memtable_key_spec by done. unfold PutLengthPrefixedSlice, PutVarint32. rewrite app_nil_l.
  rewrite <- (app_nil_r (InternalKey u s kValueTypeForSeek)) at 2. rewrite slice_and_rest_put; [done|].
  unfold zlen. rewrite InternalKey_length. unfold zlen in Hu. lia.
Qed.

Lemma MemTable_Get_spec m es u s : mem_rep m es -> valid_seq s -> zlen u + 8 < 2 ^ 32 ->
  (exists e, newest es u s e /\ MemTable_Get ucmp m (make_LookupKey u s) = Some (result_of e)) \/
  ((forall e, e ∈ es -> ~ visible u s e) /\ MemTable_Get ucmp m (make_LookupKey u s) = Some MemMissing).
Proof.
  intros [Hok [ids Hinv]] Hs Hu. set (target := lk_memtable_key (make_LookupKey u s)).
  set (c := count_lt (KeyComparator ucmp) target (map enc es)).
  pose proof (Iter_Seek_spec (KeyComparator ucmp) (table_ m) ids (map enc es) target Hinv) as Hseek. fold c in Hseek.
  pose proof (inv_sorted _ _ _ _ Hinv) as Hsrt.
  assert (Hse : sorted_entries es).
  { clear -Hsrt Hok. induction Hok as [|e es He Hok IH]; [constructor|]. cbn in Hsrt.
    apply StronglySorted_inv in Hsrt as [H1 H2]. constructor; [by apply IH|].
    apply Forall_forall. intros e' He'. rewrite Forall_forall in Hok. rewrite Forall_forall in H2.
    rewrite <- KeyComparator_enc; [|done|by apply Hok]. apply H2. by apply list_elem_of_fmap_2. }
  pose proof (lookup_position es (take c es) (drop c es) u s Hok Hse Hs (eq_sym (take_drop c es))) as Hpos.
  pose proof (count_lt_below (KeyComparator ucmp) target (map enc es)) as Hb. fold c in Hb.
  pose proof (count_lt_above (KeyComparator ucmp) target (map enc es) Hsrt) as Ha. fold c in Ha.
  rewrite <- fmap_take, Forall_fmap, Forall_forall in Hb. rewrite <- fmap_drop, Forall_fmap, Forall_forall in Ha.
  rewrite Forall_forall in Hok.
  assert (Hin : forall e, e ∈ take c es \/ e ∈ drop c es -> e ∈ es)
    by (intros e He; rewrite <- (take_drop c es); by apply elem_of_app).
  specialize (Hpos ltac:(intros e He; rewrite <- KeyComparator_target by auto; by apply Hb)
    ltac:(intros e He; rewrite <- KeyComparator_target by auto; by apply Ha)).
  destruct (drop c es) as [|e suf] eqn:Ed.
  - right. split; [done|]. unfold MemTable_Get. fold target. rewrite Hseek.
    assert (ids !! c = None) as ->; [|done]. apply lookup_ge_None.
    rewrite (Forall2_length _ _ _ (inv_keys _ _ _ _ Hinv)), length_map.
    apply (f_equal length) in Ed. rewrite length_drop in Ed. cbn in Ed. lia.
  - assert (Hc : es !! c = Some e) by (rewrite <- (Nat.add_0_r c), <- lookup_drop, Ed; done).
    pose proof (Get_entry m (make_LookupKey u s) ids es c e Hinv (proj2 (Forall_forall _ _) Hok) Hc Hseek) as Hg.
    rewrite lk_user_key_spec in Hg. destruct (is_eq (Compare ucmp (e_key e) u)); [left|right]; eauto.
Qed.

End Refine.

(** ** Properties *)

(** Adding entries one after the other. *)
Definition add_all (ucmp : Comparator) (base : nat -> Z) (es : list Entry) (m : option MemTable) : option MemTable :=
  fold_left (fun m e => m ← m; MemTable_Add ucmp base m (e_seq e) (e_type e) (e_key e) (e_value e)) es m.

Lemma add_all_rep ucmp `{!TotalCmp (Compare ucmp)} base es : forall m es0, mem_rep ucmp m es0 -> Forall entry_ok es ->
  ForallOrdPairs (fun a b => ~ same_ikey ucmp a b) es -> (forall a b, a ∈ es -> b ∈ es0 -> ~ same_ikey ucmp a b) ->
  exists m' es', add_all ucmp base es (Some m) = Some m' /\ mem_rep ucmp m' es' /\ es' ≡ₚ es ++ es0.
Proof.
  induction es as [|e es IH]; intros m es0 Hm Hok Hd Hne.
  { by exists m, es0. }
  inversion Hok as [|? ? He Hok']; subst. inversion Hd as [|? ? Hd1 Hd2]; subst.
  destruct (MemTable_Add_spec ucmp base m es0 e Hm He) as (m1 & es1 & E & Hm1 & Hp1).
  { apply Forall_forall. intros x Hx. apply Hne; [by left|done]. }
  destruct (IH m1 es1 Hm1 Hok' Hd2) as (m' & es' & E' & Hm' & Hp').
  { intros a b Ha Hb. rewrite Hp1 in Hb. apply elem_of_cons in Hb as [->|Hb]; [|apply Hne; [by right|done]].
    rewrite Forall_forall in Hd1. intros H. apply (Hd1 a Ha). by apply cmp_eq_sym in H; [|apply _]. }
  exists m', es'. split; [unfold add_all; cbn [fold_left mbind option_bind]; rewrite E; exact E'|].
  split; [done|]. rewrite Hp', Hp1. cbn. by rewrite Permutation_middle.
Qed.

(** C29. Entries with different internal keys added to an empty memtable, in any
    order: every [Add] succeeds, and [Get] at a snapshot answers with the
    newest entry of the key the snapshot sees - its value, or not-found for a
    deletion - and reports a miss exactly when there is none. *)
Theorem memtable_get_newest ucmp `{!TotalCmp (Compare ucmp)} base es : Forall entry_ok es ->
  ForallOrdPairs (fun a b => ~ same_ikey ucmp a b) es ->
  exists m, add_all ucmp base es (Some (new_MemTable base)) = Some m /\
    forall u s, valid_seq s -> zlen u + 8 < 2 ^ 32 ->
      (exists e, newest ucmp es u s e /\ MemTable_Get ucmp m (make_LookupKey u s) = Some (result_of e)) \/
      ((forall e, e ∈ es -> ~ visible ucmp u s e) /\ MemTable_Get ucmp m (make_LookupKey u s) = Some MemMissing).
Proof.
  intros Hok Hd. destruct (add_all_rep ucmp base es (new_MemTable base) [] (new_MemTable_rep ucmp base) Hok Hd)
    as (m & es' & E & Hm & Hp); [by intros a b _ ?%elem_of_nil|]. rewrite app_nil_r in Hp.
  exists m. split; [done|]. intros u s Hs Hu.
  destruct (MemTable_Get_spec ucmp m es' u s Hm Hs Hu) as [(e & (He & Hv & Hmax) & Hg)|(Hno & Hg)].
  - left. exists e. split; [|done]. split; [by rewrite <- Hp|]. split; [done|].
    intros e' He'. apply Hmax. by rewrite Hp.
  - right. split; [|done]. intros e He. apply Hno. by rewrite Hp.
Qed.

Lemma memtable_get_newest_witness :
  let es := [mkEntry 1 kTypeValue (lit "k") (lit "v1"); mkEntry 3 kTypeDeletion (lit "k") []; mkEntry 2 kTypeValue (lit "k") (lit "v2")] in
  exists m, add_all BytewiseComparator (fun _ => 0) es (Some (new_MemTable (fun _ => 0))) = Some m /\
    ((exists e, newest BytewiseComparator es (lit "k") 2 e /\
        MemTable_Get BytewiseComparator m (make_LookupKey (lit "k") 2) = Some (result_of e)) \/
     (forall e, e ∈ es -> ~ visible BytewiseComparator (lit "k") 2 e) /\
        MemTable_Get BytewiseComparator m (make_LookupKey (lit "k") 2) = Some MemMissing).
Proof.
  intros es. destruct (memtable_get_newest BytewiseComparator (fun _ => 0) es) as (m & E & H).
  - repeat constructor; vm_compute; congruence.
  - repeat constructor; vm_compute; discriminate.
  - exists m. split; [exact E|]. apply H; vm_compute; [split; discriminate|reflexivity].
Defined.
