(* ===== verification/WriteBatch.v ===== *)
(** * Write batches: db/write_batch.cpp, db/write_batch_internal.h

    A batch is one byte string: sequence number, count, records. [Iterate]
    decodes the records for a handler; the inserter handler puts them into a
    memtable under consecutive sequence numbers. *)

From S2P Require Import Prelude Coding Status Comparator Dbformat Random Arena SkipList MemTable.

Definition kHeader : nat := 12.

(** ** Building *)

Definition WriteBatch_Clear : bytes := replicate kHeader x00.

(** An [int] read from a [uint32_t]. *)
Definition s32 (z : Z) : Z := if z <? 2 ^ 31 then z else z - 2 ^ 32.

Definition Count (rep : bytes) : Z := s32 (DecodeFixed32 (drop 8 rep)).

(** [EncodeFixed32(&rep_[8], n)] and [EncodeFixed64(&rep_[0], seq)] *)
Definition SetCount (rep : bytes) (n : Z) : bytes := take 8 rep ++ EncodeFixed32 (u32 n) ++ drop 12 rep.
Definition Sequence (rep : bytes) : Z := DecodeFixed64 rep.
Definition SetSequence (rep : bytes) (seq : Z) : bytes := EncodeFixed64 seq ++ drop 8 rep.

Definition WriteBatch_Put (rep key value : bytes) : bytes :=
  let rep := SetCount rep (Count rep + 1) in
  let rep := rep ++ [z2b (type_to_Z kTypeValue)] in
  PutLengthPrefixedSlice (PutLengthPrefixedSlice rep key) value.

Definition WriteBatch_Delete (rep key : bytes) : bytes :=
  let rep := SetCount rep (Count rep + 1) in
  let rep := rep ++ [z2b (type_to_Z kTypeDeletion)] in
  PutLengthPrefixedSlice rep key.

Definition Contents (rep : bytes) : bytes := rep.
Definition ByteSize (rep : bytes) : Z := zlen rep.
Definition SetContents (rep contents : bytes) : bytes := contents.

Definition WriteBatch_Append (dst src : bytes) : bytes :=
  SetCount dst (Count dst + Count src) ++ drop kHeader src.

(** ** Iterating *)

Record Handler (S : Type) := {
  h_Put : S -> bytes -> bytes -> S;
  h_Delete : S -> bytes -> S
}.
Arguments h_Put {S}.
Arguments h_Delete {S}.

(** The decoding loop: the handler's state with the number of records found,
    or the error that ended it. *)
Fixpoint Iterate_loop {S} (fuel : nat) (h : Handler S) (st : S) (found : Z) (input : bytes) :
    option (S * (Z + Status)) :=
  match input with
  | [] => Some (st, inl found)
  | tag :: input =>
      match fuel with
      | O => None
      | Datatypes.S fuel =>
          if b2z tag =? type_to_Z kTypeValue then
            match GetLengthPrefixedSlice input with
            | Some (key, input) =>
                match GetLengthPrefixedSlice input with
                | Some (value, input) => Iterate_loop fuel h (h_Put h st key value) (found + 1) input
                | None => Some (st, inr (Corruption (lit "bad WriteBatch Put")))
                end
            | None => Some (st, inr (Corruption (lit "bad WriteBatch Put")))
            end
          else if b2z tag =? type_to_Z kTypeDeletion then
            match GetLengthPrefixedSlice input with
            | Some (key, input) => Iterate_loop fuel h (h_Delete h st key) (found + 1) input
            | None => Some (st, inr (Corruption (lit "bad WriteBatch Delete")))
            end
          else Some (st, inr (Corruption (lit "unknown WriteBatch tag")))
      end
  end.

Definition Iterate {S} (h : Handler S) (st : S) (rep : bytes) : option (S * Status) :=
  if (length rep <? kHeader)%nat then Some (st, Corruption (lit "malformed WriteBatch (too small)"))
  else
    r ← Iterate_loop (length rep) h st 0 (drop kHeader rep);
    match r : S * (Z + Status) with
    | (st, inr s) => Some (st, s)
    | (st, inl found) =>
        if found =? Count rep then Some (st, Status_OK)
        else Some (st, Corruption (lit "WriteBatch has wrong count"))
    end.

(** ** Inserting into a memtable *)

(** [MemTableInserter]: the memtable and [sequence_]. *)
Definition MemTableInserter (ucmp : Comparator) (base : nat -> Z) : Handler (option MemTable * Z) := {|
  h_Put st key value :=
    (m ← st.1; MemTable_Add ucmp base m st.2 kTypeValue key value, u64 (st.2 + 1));
  h_Delete st key :=
    (m ← st.1; MemTable_Add ucmp base m st.2 kTypeDeletion key [], u64 (st.2 + 1))
|}.

Definition InsertInto (ucmp : Comparator) (base : nat -> Z) (rep : bytes) (memtable : MemTable) :
    option (option MemTable * Status) :=
  r ← Iterate (MemTableInserter ucmp base) (Some memtable, Sequence rep) rep;
  let '((mem, _), s) := r : (option MemTable * Z) * Status in
  Some (mem, s).

(** ** The operations a batch holds *)

Inductive Op := OpPut (key value : bytes) | OpDelete (key : bytes).

Definition op_ok (o : Op) : Prop :=
  match o with
  | OpPut k v => zlen k + 8 < 2 ^ 32 /\ zlen v < 2 ^ 32
  | OpDelete k => zlen k + 8 < 2 ^ 32
  end.

Definition enc_op (o : Op) : bytes :=
  match o with
  | OpPut k v => z2b 1 :: PutLengthPrefixedSlice [] k ++ PutLengthPrefixedSlice [] v
  | OpDelete k => z2b 0 :: PutLengthPrefixedSlice [] k
  end.

Definition apply_op {S} (h : Handler S) (st : S) (o : Op) : S :=
  match o with OpPut k v => h_Put h st k v | OpDelete k => h_Delete h st k end.

(** A client's calls. *)
Definition add_op (rep : bytes) (o : Op) : bytes :=
  match o with OpPut k v => WriteBatch_Put rep k v | OpDelete k => WriteBatch_Delete rep k end.

Definition build_batch (ops : list Op) : bytes := fold_left add_op ops WriteBatch_Clear.

Definition batch_of (seq : Z) (ops : list Op) : bytes :=
  EncodeFixed64 seq ++ EncodeFixed32 (zlen ops) ++ concat (map enc_op ops).

(** *** Building yields the documented layout *)

Lemma batch_head seq ops : take 8 (batch_of seq ops) = EncodeFixed64 seq.
Proof. unfold batch_of. by rewrite take_app_length' by (by rewrite EncodeFixed64_length). Qed.

Lemma batch_records seq ops : drop 12 (batch_of seq ops) = concat (map enc_op ops).
Proof.
  unfold batch_of. rewrite app_assoc. apply drop_app_length'.
  by rewrite length_app, EncodeFixed64_length, EncodeFixed32_length.
Qed.

Lemma batch_drop8 seq ops : drop 8 (batch_of seq ops) = EncodeFixed32 (zlen ops) ++ concat (map enc_op ops).
Proof. unfold batch_of. by rewrite drop_app_length' by (by rewrite EncodeFixed64_length). Qed.

Lemma Count_batch seq ops : zlen ops < 2 ^ 31 -> Count (batch_of seq ops) = zlen ops.
Proof.
  intros Hn. pose proof (zlen_nonneg ops). unfold Count. rewrite batch_drop8, DecodeFixed32_app, u32_small by lia.
  unfold s32. by destruct (Z.ltb_spec (zlen ops) (2 ^ 31)); [|lia].
Qed.

Lemma Sequence_batch seq ops : fits 64 seq -> Sequence (batch_of seq ops) = seq.
Proof. intros Hs. unfold Sequence, batch_of. rewrite DecodeFixed64_app. by apply u64_small. Qed.

Lemma SetSequence_batch seq seq' ops : SetSequence (batch_of seq ops) seq' = batch_of seq' ops.
Proof. unfold SetSequence. by rewrite batch_drop8. Qed.

Lemma SetCount_batch seq ops n : 0 <= n < 2 ^ 32 ->
  SetCount (batch_of seq ops) n = EncodeFixed64 seq ++ EncodeFixed32 n ++ concat (map enc_op ops).
Proof. intros Hn. unfold SetCount. by rewrite batch_head, batch_records, u32_small. Qed.

Lemma add_op_batch seq ops o : zlen ops + 1 < 2 ^ 31 -> add_op (batch_of seq ops) o = batch_of seq (ops ++ [o]).
Proof.
  intros Hn. pose proof (zlen_nonneg ops). unfold batch_of at 2.
  rewrite map_app, concat_app, zlen_app. change (zlen [o]) with 1. cbn [map concat].
  rewrite app_nil_r.
  destruct o as [k v|k]; cbn [add_op enc_op]; unfold WriteBatch_Put, WriteBatch_Delete;
    rewrite Count_batch, SetCount_batch by lia; rewrite <- !app_assoc.
  - rewrite (PutLengthPrefixedSlice_app (PutLengthPrefixedSlice _ k) v), (PutLengthPrefixedSlice_app _ k).
    by rewrite <- !app_assoc.
  - rewrite PutLengthPrefixedSlice_app. by rewrite <- !app_assoc.
Qed.

Lemma add_ops_batch more : forall seq ops, zlen ops + zlen more < 2 ^ 31 ->
  fold_left add_op more (batch_of seq ops) = batch_of seq (ops ++ more).
Proof.
  induction more as [|o more IH]; intros seq ops Hn; cbn [fold_left]; [by rewrite app_nil_r|].
  rewrite zlen_cons in Hn. pose proof (zlen_nonneg more).
  rewrite add_op_batch by lia. rewrite IH by (rewrite zlen_app, zlen_cons, zlen_nil; lia).
  by rewrite <- app_assoc.
Qed.

Lemma build_batch_layout ops : zlen ops < 2 ^ 31 -> build_batch ops = batch_of 0 ops.
Proof. intros Hn. apply (add_ops_batch ops 0 []). unfold zlen in *. cbn. lia. Qed.

Lemma Append_batch s1 s2 a b : zlen a + zlen b < 2 ^ 31 ->
  WriteBatch_Append (batch_of s1 a) (batch_of s2 b) = batch_of s1 (a ++ b).
Proof.
  intros Hn. pose proof (zlen_nonneg a). pose proof (zlen_nonneg b). unfold WriteBatch_Append.
  rewrite !Count_batch by lia. rewrite SetCount_batch by lia. unfold kHeader. rewrite batch_records.
  unfold batch_of. by rewrite zlen_app, map_app, concat_app, <- !app_assoc.
Qed.

(** *** Iterating replays the operations *)

Lemma op_sizes o : op_ok o -> match o with OpPut k v => zlen k < 2 ^ 32 /\ zlen v < 2 ^ 32 | OpDelete k => zlen k < 2 ^ 32 end.
Proof. destruct o; cbn; lia. Qed.

Lemma Iterate_loop_ops {S} (h : Handler S) ops : forall fuel st found, Forall op_ok ops ->
  (length (concat (map enc_op ops)) <= fuel)%nat ->
  Iterate_loop fuel h st found (concat (map enc_op ops))
  = Some (fold_left (apply_op h) ops st, inl (found + zlen ops)).
Proof.
  induction ops as [|o ops IH]; intros fuel st found Hok Hf.
  - cbn. rewrite zlen_nil, Z.add_0_r. by destruct fuel.
  - inversion Hok as [|? ? Ho Hok']; subst. apply op_sizes in Ho. cbn [map concat fold_left] in *.
    rewrite length_app in Hf. rewrite zlen_cons, Z.add_assoc.
    destruct o as [k v|k]; cbn [enc_op app length] in Hf |- *; (destruct fuel as [|fuel]; [lia|]);
      cbn [Iterate_loop]; rewrite b2z_small by lia; cbn [type_to_Z Z.eqb].
    + destruct Ho as [Hk Hv]. rewrite <- app_assoc, GetLengthPrefixedSlice_app by done.
      rewrite GetLengthPrefixedSlice_app by done. by rewrite IH by (done || lia).
    + rewrite GetLengthPrefixedSlice_app by done. by rewrite IH by (done || lia).
Qed.

Lemma Iterate_batch {S} (h : Handler S) st seq ops : Forall op_ok ops -> zlen ops < 2 ^ 31 ->
  Iterate h st (batch_of seq ops) = Some (fold_left (apply_op h) ops st, Status_OK).
Proof.
  intros Hok Hn. unfold Iterate.
  assert (Hl : length (batch_of seq ops) = (12 + length (concat (map enc_op ops)))%nat).
  { unfold batch_of. rewrite !length_app, EncodeFixed64_length, EncodeFixed32_length. lia. }
  destruct (Nat.ltb_spec (length (batch_of seq ops)) kHeader) as [Hlt|_]; [unfold kHeader in Hlt; lia|].
  unfold kHeader. rewrite batch_records, Iterate_loop_ops by (done || lia). cbn [mbind option_bind].
  rewrite Count_batch by done. by rewrite Z.eqb_refl.
Qed.

(** *** Arbitrary input *)

Lemma GetLengthPrefixedSlice_shorter p s q : GetLengthPrefixedSlice p = Some (s, q) -> (length q < length p)%nat.
Proof.
  unfold GetLengthPrefixedSlice, GetVarint32. rewrite GetVarint32Ptr_fallback. unfold GetVarint32PtrFallback.
  destruct (GetVarint_loop 32 5 0 0 p) as [[v r]|] eqn:E; [|done].
  apply GetVarint_loop_suffix in E as [(pre & -> & Hpre & _) _]; [|lia|unfold fits; lia].
  destruct (_ <=? _); [|done]. intros [= _ <-].
  rewrite length_drop, length_app. destruct pre; [done|cbn; lia].
Qed.

(** The loop ends on every input, and the handler has seen some operations;
    without an error, exactly as many as were counted. *)
Lemma Iterate_loop_total {S} (h : Handler S) fuel : forall st found input, (length input <= fuel)%nat ->
  exists ops r, Iterate_loop fuel h st found input = Some (fold_left (apply_op h) ops st, r) /\
    match r with inl n => n = found + zlen ops | inr s => ok s = false end.
Proof.
  induction fuel as [|fuel IH]; intros st found input Hf; destruct input as [|tag input].
  1, 3: exists [], (inl found); split; [done|]; rewrite zlen_nil; lia.
  { cbn in Hf. lia. }
  cbn [Iterate_loop]. cbn [length] in Hf.
  assert (Hstop : forall msg, exists ops r, Some (st, inr (Corruption msg)) = Some (fold_left (apply_op h) ops st, r) /\
    match r with inl n => n = found + zlen ops | inr s => ok s = false end).
  { intros msg. by exists [], (inr (Corruption msg)). }
  assert (Hgo : forall o input', (length input' < length input)%nat ->
    exists ops r, Iterate_loop fuel h (apply_op h st o) (found + 1) input' = Some (fold_left (apply_op h) ops st, r) /\
      match r with inl n => n = found + zlen ops | inr s => ok s = false end).
  { intros o input' Hl. destruct (IH (apply_op h st o) (found + 1) input') as (ops & r & -> & Hr); [lia|].
    exists (o :: ops), r. split; [done|]. destruct r; [rewrite zlen_cons; lia|done]. }
  destruct (_ =? _); [|destruct (_ =? _); [|apply Hstop]].
  - destruct (GetLengthPrefixedSlice input) as [[k i1]|] eqn:E1; [|apply Hstop].
    destruct (GetLengthPrefixedSlice i1) as [[v i2]|] eqn:E2; [|apply Hstop].
    apply GetLengthPrefixedSlice_shorter in E1, E2. apply (Hgo (OpPut k v)). lia.
  - destruct (GetLengthPrefixedSlice input) as [[k i1]|] eqn:E1; [|apply Hstop].
    apply GetLengthPrefixedSlice_shorter in E1. by apply (Hgo (OpDelete k)).
Qed.

Lemma Iterate_total {S} (h : Handler S) st rep :
  exists ops s, Iterate h st rep = Some (fold_left (apply_op h) ops st, s) /\
    (ok s = true -> Count rep = zlen ops).
Proof.
  unfold Iterate. destruct (_ <? _)%nat; [by eexists [], _|].
  destruct (Iterate_loop_total h (length rep) st 0 (drop kHeader rep)) as (ops & r & -> & Hr).
  { rewrite length_drop. lia. }
  cbn [mbind option_bind]. destruct r as [n|s]; [|exists ops, s; split; [done|by rewrite Hr]].
  destruct (Z.eqb_spec n (Count rep)) as [->|]; eexists ops, _; (split; [done|]); [lia|done].
Qed.

(** *** The inserter *)

Definition op_entry (seq : Z) (o : Op) : Entry :=
  match o with
  | OpPut k v => mkEntry seq kTypeValue k v
  | OpDelete k => mkEntry seq kTypeDeletion k []
  end.

(** Consecutive sequence numbers. *)
Fixpoint entries_of (seq : Z) (ops : list Op) : list Entry :=
  match ops with [] => [] | o :: ops => op_entry seq o :: entries_of (seq + 1) ops end.

Lemma entries_of_seqs ops : forall seq, Forall (fun e => seq <= e_seq e < seq + zlen ops) (entries_of seq ops).
Proof.
  induction ops as [|o ops IH]; intros seq; cbn [entries_of]; constructor; rewrite zlen_cons; pose proof (zlen_nonneg ops); [destruct o; cbn; lia|].
  eapply Forall_impl; [apply IH|]. cbn. intros. lia.
Qed.

Section Insert.
Context (ucmp : Comparator) `{!TotalCmp (Compare ucmp)} (base : nat -> Z).

Lemma older_differs e x : entry_ok e -> entry_ok x -> e_seq x < e_seq e -> ~ same_ikey ucmp e x.
Proof.
  intros (He & _) (Hx & _) Hlt E. unfold same_ikey, e_ikey in E.
  pose proof (InternalKey_Compare_spec ucmp (e_key e) (e_seq e) (e_type e) (e_key x) (e_seq x) (e_type x) He Hx) as Hc.
  cbn [Compare InternalKeyComparator] in Hc. rewrite Hc in E.
  destruct (Compare ucmp (e_key e) (e_key x)); try done.
  by rewrite (proj2 (Z.compare_lt_iff (e_seq x) (e_seq e)) Hlt) in E.
Qed.

Lemma op_entry_ok seq o : valid_seq seq -> op_ok o -> entry_ok (op_entry seq o).
Proof. intros Hs Ho. destruct o; cbn in *; (split; [done|]); cbn; rewrite ?zlen_nil; lia. Qed.

Lemma inserter_ops ops : forall seq m es, mem_rep ucmp m es -> Forall op_ok ops ->
  0 <= seq -> seq + zlen ops <= kMaxSequenceNumber + 1 -> Forall (fun e => e_seq e < seq) es ->
  exists m' es', fold_left (apply_op (MemTableInserter ucmp base)) ops (Some m, seq) = (Some m', seq + zlen ops) /\
    mem_rep ucmp m' es' /\ es' ≡ₚ entries_of seq ops ++ es.
Proof.
  induction ops as [|o ops IH]; intros seq m es Hm Hok Hs0 Hs Hold; cbn [fold_left entries_of].
  { exists m, es. rewrite zlen_nil, Z.add_0_r. done. }
  inversion Hok as [|? ? Ho Hok']; subst. rewrite zlen_cons in *. pose proof (zlen_nonneg ops).
  assert (Hv : valid_seq seq) by (unfold valid_seq; lia).
  assert (Hk : kMaxSequenceNumber = 2 ^ 56 - 1) by done.
  pose proof (op_entry_ok seq o Hv Ho) as He. destruct Hm as [Hes Hm].
  destruct (MemTable_Add_spec ucmp base m es (op_entry seq o)) as (m1 & es1 & E & Hm1 & Hp1); [done|done| |].
  { apply Forall_forall. intros x Hx. rewrite Forall_forall in Hold. rewrite Forall_forall in Hes.
    apply older_differs; [done|by apply Hes|]. destruct o; by apply Hold. }
  assert (Estep : apply_op (MemTableInserter ucmp base) (Some m, seq) o = (Some m1, seq + 1)).
  { rewrite <- (u64_small (seq + 1)) by lia. destruct o; cbn in E |- *; by rewrite E. }
  rewrite Estep. destruct (IH (seq + 1) m1 es1) as (m' & es' & E' & Hm' & Hp'); try done; try lia.
  { rewrite Hp1. constructor; [destruct o; cbn; lia|]. eapply Forall_impl; [exact Hold|]. cbn. intros. lia. }
  exists m', es'. rewrite E'. split; [f_equal; lia|]. split; [done|].
  rewrite Hp', Hp1. cbn. symmetry. apply Permutation_middle.
Qed.

Lemma InsertInto_spec seq ops m es : mem_rep ucmp m es -> Forall op_ok ops -> zlen ops < 2 ^ 31 ->
  0 <= seq -> seq + zlen ops <= kMaxSequenceNumber + 1 -> Forall (fun e => e_seq e < seq) es ->
  exists m' es', InsertInto ucmp base (batch_of seq ops) m = Some (Some m', Status_OK) /\
    mem_rep ucmp m' es' /\ es' ≡ₚ entries_of seq ops ++ es.
Proof.
  intros Hm Hok Hn Hs0 Hs Hold. assert (Hk : kMaxSequenceNumber = 2 ^ 56 - 1) by done.
  pose proof (zlen_nonneg ops). unfold InsertInto. rewrite Sequence_batch by (unfold fits; lia).
  rewrite Iterate_batch by done. cbn [mbind option_bind].
  destruct (inserter_ops ops seq m es Hm Hok Hs0 Hs Hold) as (m' & es' & E & Hm' & Hp').
  exists m', es'. by rewrite E.
Qed.

End Insert.

(** ** Properties *)

(** C30. A batch built by [Put] and [Delete], given a sequence number by
    [SetSequence] and inserted into a memtable that holds older entries: the
    insertion succeeds and the memtable then holds exactly its old entries and
    one per operation, numbered from the batch's sequence number in order. *)
Theorem batch_insertion ucmp `{!TotalCmp (Compare ucmp)} base seq ops m es :
  mem_rep ucmp m es -> Forall op_ok ops -> zlen ops < 2 ^ 31 ->
  0 <= seq -> seq + zlen ops <= kMaxSequenceNumber + 1 -> Forall (fun e => e_seq e < seq) es ->
  exists m' es', InsertInto ucmp base (SetSequence (build_batch ops) seq) m = Some (Some m', Status_OK) /\
    mem_rep ucmp m' es' /\ es' ≡ₚ entries_of seq ops ++ es.
Proof.
  intros Hm Hok Hn Hs0 Hs Hold. rewrite build_batch_layout by done. rewrite SetSequence_batch.
  by apply InsertInto_spec.
Qed.

Lemma batch_insertion_witness :
  exists m' es', InsertInto BytewiseComparator (fun _ => 0)
      (SetSequence (build_batch [OpPut (lit "a") (lit "1"); OpDelete (lit "b")]) 7) (new_MemTable (fun _ => 0))
      = Some (Some m', Status_OK) /\ mem_rep BytewiseComparator m' es' /\
    es' ≡ₚ entries_of 7 [OpPut (lit "a") (lit "1"); OpDelete (lit "b")] ++ [].
Proof.
  apply (batch_insertion BytewiseComparator (fun _ => 0) 7 [OpPut (lit "a") (lit "1"); OpDelete (lit "b")] _ []).
  - apply new_MemTable_rep.
  - repeat constructor; vm_compute; congruence.
  - vm_compute. reflexivity.
  - lia.
  - vm_compute. discriminate.
  - constructor.
Defined.

(** [Iterate] terminates on every byte string and only replays complete
    records: the handler sees some sequence of operations, and the status is
    OK only when their number is the count in the header. Batches joined by
    [Append] replay the operations of both. *)
Theorem batch_iterate_total {S} (h : Handler S) st rep :
  (exists ops s, Iterate h st rep = Some (fold_left (apply_op h) ops st, s) /\ (ok s = true -> Count rep = zlen ops)) /\
  (forall a b, Forall op_ok (a ++ b) -> zlen (a ++ b) < 2 ^ 31 ->
     Iterate h st (WriteBatch_Append (build_batch a) (build_batch b)) = Some (fold_left (apply_op h) (a ++ b) st, Status_OK)).
Proof.
  split; [apply Iterate_total|]. intros a b Hok Hn. rewrite zlen_app in Hn.
  pose proof (zlen_nonneg a). pose proof (zlen_nonneg b).
  rewrite !build_batch_layout, Append_batch by lia. apply Iterate_batch; [done|]. rewrite zlen_app. lia.
Qed.
