(* ===== verification/Env.v ===== *)
(** * The environment: include/leveldb/env.h, util/env.cpp

    The operating system is behind the [Env] interface. It is modelled as a
    record of operations on an abstract world, with the documented effect of
    each on the contents of files as the laws of a class; an in-memory file
    system is an instance. The helpers of env.cpp are written against it. *)

From S2P Require Import Prelude Coding Status.

(** ** The interface *)

(** What the log writer needs of the [WritableFile] it appends to. *)
Record WritableFile (W : Type) := {
  wf_Append : bytes -> W -> Status * W;
  wf_Flush : W -> Status * W
}.
Arguments wf_Append {W}.
Arguments wf_Flush {W}.

(** A [SequentialFile]: [Read] returns the data and the advanced file. *)
Record SequentialFile (F : Type) := {
  sf_Read : Z -> F -> Status * bytes * F;
  sf_Skip : Z -> F -> Status * F
}.
Arguments sf_Read {F}.
Arguments sf_Skip {F}.

(** The operations on paths; an open [WritableFile] is named by its path. *)
Record Env (W : Type) := {
  NewWritableFile : bytes -> W -> Status * W;
  NewAppendableFile : bytes -> W -> Status * W;
  file_Append : bytes -> bytes -> W -> Status * W;      (** path, data *)
  file_Flush : bytes -> W -> Status * W;
  file_Sync : bytes -> W -> Status * W;
  file_Close : bytes -> W -> Status * W;
  env_GetFileSize : bytes -> W -> Status * Z;
  env_DeleteFile : bytes -> W -> Status * W;
  env_RenameFile : bytes -> bytes -> W -> Status * W    (** src, target *)
}.
Arguments NewWritableFile {W}.
Arguments NewAppendableFile {W}.
Arguments env_GetFileSize {W}.
Arguments file_Append {W}.
Arguments file_Flush {W}.
Arguments file_Sync {W}.
Arguments file_Close {W}.
Arguments env_DeleteFile {W}.
Arguments env_RenameFile {W}.

(** Opening files for reading. *)
Record ReadEnv (W F : Type) := {
  NewSequentialFile : bytes -> W -> Status * F;
  env_sequential : SequentialFile F
}.
Arguments NewSequentialFile {W F}.
Arguments env_sequential {W F}.

(** An open file of the environment as the log writer sees it. *)
Definition Env_writable {W} (env : Env W) (fname : bytes) : WritableFile W := {|
  wf_Append := file_Append env fname;
  wf_Flush := file_Flush env fname
|}.

(** [view w f]: the contents of file [f], if it exists. An operation that
    fails may leave its own file in any state, but touches no other; a rename
    that fails leaves its target as it was. *)
Class EnvLaws {W} (env : Env W) (view : W -> bytes -> option bytes) : Prop := {
  new_frame : forall f w g, g <> f -> view (NewWritableFile env f w).2 g = view w g;
  new_ok : forall f w, ok (NewWritableFile env f w).1 = true -> view (NewWritableFile env f w).2 f = Some [];
  appendable_frame : forall f w g, g <> f -> view (NewAppendableFile env f w).2 g = view w g;
  appendable_ok : forall f w, ok (NewAppendableFile env f w).1 = true ->
    view (NewAppendableFile env f w).2 f = Some (default [] (view w f));
  size_ok : forall f w c, view w f = Some c -> ok (env_GetFileSize env f w).1 = true ->
    (env_GetFileSize env f w).2 = zlen c;
  append_frame : forall f d w g, g <> f -> view (file_Append env f d w).2 g = view w g;
  append_ok : forall f d w c, view w f = Some c -> ok (file_Append env f d w).1 = true ->
    view (file_Append env f d w).2 f = Some (c ++ d);
  flush_frame : forall f w g, g <> f -> view (file_Flush env f w).2 g = view w g;
  flush_ok : forall f w, ok (file_Flush env f w).1 = true -> view (file_Flush env f w).2 f = view w f;
  sync_frame : forall f w g, g <> f -> view (file_Sync env f w).2 g = view w g;
  sync_ok : forall f w, ok (file_Sync env f w).1 = true -> view (file_Sync env f w).2 f = view w f;
  close_frame : forall f w g, g <> f -> view (file_Close env f w).2 g = view w g;
  close_ok : forall f w, ok (file_Close env f w).1 = true -> view (file_Close env f w).2 f = view w f;
  delete_frame : forall f w g, g <> f -> view (env_DeleteFile env f w).2 g = view w g;
  rename_frame : forall s t w g, g <> s -> g <> t -> view (env_RenameFile env s t w).2 g = view w g;
  rename_ok : forall s t w, s <> t -> ok (env_RenameFile env s t w).1 = true ->
    view (env_RenameFile env s t w).2 t = view w s;
  rename_fail : forall s t w, ok (env_RenameFile env s t w).1 = false ->
    view (env_RenameFile env s t w).2 t = view w t
}.

(** ** Helpers of env.cpp *)

Section Helpers.
Context {W : Type} (env : Env W).

Definition DoWriteStringToFile (data fname : bytes) (should_sync : bool) (w : W) : Status * W :=
  let '(s, w) := NewWritableFile env fname w in
  if negb (ok s) then (s, w)
  else
    let '(s, w) := file_Append env fname data w in
    let '(s, w) := if ok s && should_sync then file_Sync env fname w else (s, w) in
    let '(s, w) := if ok s then file_Close env fname w else (s, w) in
    if negb (ok s) then (s, (env_DeleteFile env fname w).2) else (s, w).

Definition WriteStringToFile (data fname : bytes) (w : W) : Status * W :=
  DoWriteStringToFile data fname false w.

Definition WriteStringToFileSync (data fname : bytes) (w : W) : Status * W :=
  DoWriteStringToFile data fname true w.

Definition kBufferSize : Z := 8192.

(** [ReadFileToString]: reads of [kBufferSize] bytes until one returns nothing. *)
Fixpoint ReadFileToString_loop {F} (file : SequentialFile F) (fuel : nat) (data : bytes) (h : F) : option (Status * bytes) :=
  match fuel with
  | O => None
  | S fuel =>
      match sf_Read file kBufferSize h with
      | (s, fragment, h) =>
          if negb (ok s) then Some (s, data)
          else if (zlen fragment =? 0) then Some (s, data ++ fragment)
          else ReadFileToString_loop file fuel (data ++ fragment) h
      end
  end.

Definition ReadFileToString {F} (renv : ReadEnv W F) (fuel : nat) (fname : bytes) (w : W) : option (Status * bytes) :=
  let '(s, h) := NewSequentialFile renv fname w in
  if negb (ok s) then Some (s, [])
  else ReadFileToString_loop (env_sequential renv) fuel [] h.

Context (view : W -> bytes -> option bytes) `{!EnvLaws env view}.

Lemma DoWrite_frame data fname sync w g : g <> fname ->
  view (DoWriteStringToFile data fname sync w).2 g = view w g.
Proof.
  intros Hg. unfold DoWriteStringToFile.
  pose proof (new_frame fname w g Hg) as H1. destruct (NewWritableFile env fname w) as [s1 w1]; cbn in *.
  destruct (negb (ok s1)); [done|].
  pose proof (append_frame fname data w1 g Hg) as H2. destruct (file_Append env fname data w1) as [s2 w2]; cbn in *.
  pose proof (sync_frame fname w2 g Hg) as H3.
  destruct (if ok s2 && sync then _ else _) as [s3 w3] eqn:E3.
  assert (H3' : view w3 g = view w g).
  { destruct (ok s2 && sync); [rewrite E3 in H3; cbn in H3; congruence|congruence]. }
  pose proof (close_frame fname w3 g Hg) as H4.
  destruct (if ok s3 then _ else _) as [s4 w4] eqn:E4.
  assert (H4' : view w4 g = view w g).
  { destruct (ok s3); [rewrite E4 in H4; cbn in H4; congruence|congruence]. }
  destruct (negb (ok s4)); cbn; [|done]. by rewrite delete_frame.
Qed.

Lemma DoWrite_ok data fname sync w : ok (DoWriteStringToFile data fname sync w).1 = true ->
  view (DoWriteStringToFile data fname sync w).2 fname = Some data.
Proof.
  unfold DoWriteStringToFile.
  pose proof (new_ok fname w) as H1. destruct (NewWritableFile env fname w) as [s1 w1]; cbn in *.
  destruct (ok s1) eqn:O1; cbn [negb]; [|cbn; by rewrite O1]. specialize (H1 eq_refl).
  pose proof (append_ok fname data w1 [] H1) as H2. destruct (file_Append env fname data w1) as [s2 w2]; cbn in *.
  pose proof (sync_ok fname w2) as H3. pose proof (close_ok fname) as H4.
  destruct (ok s2) eqn:O2; cbn [andb].
  2: { rewrite !O2. cbn. by rewrite O2. }
  specialize (H2 eq_refl).
  destruct (if sync then _ else _) as [s3 w3] eqn:E3.
  destruct (ok s3) eqn:O3; [|rewrite !O3; cbn; by rewrite O3].
  assert (H3' : view w3 fname = Some data).
  { destruct sync; [|congruence]. rewrite E3 in H3. cbn in H3. by rewrite H3. }
  specialize (H4 w3). destruct (file_Close env fname w3) as [s4 w4]; cbn in *.
  destruct (ok s4) eqn:O4; cbn; [|by rewrite O4]. intros _. by rewrite H4.
Qed.

End Helpers.

(** ** An in-memory file system *)

Abbreviation MemFS := (list (bytes * bytes)).

Fixpoint mem_view (w : MemFS) (f : bytes) : option bytes :=
  match w with
  | [] => None
  | (g, c) :: w => if decide (g = f) then Some c else mem_view w f
  end.

Definition mem_remove (f : bytes) (w : MemFS) : MemFS := filter (fun p => p.1 <> f) w.
Definition mem_set (f c : bytes) (w : MemFS) : MemFS := (f, c) :: mem_remove f w.

(** Every operation on an existing file succeeds. *)
Definition MemEnv : Env MemFS := {|
  NewWritableFile f w := (Status_OK, mem_set f [] w);
  NewAppendableFile f w := (Status_OK, mem_set f (default [] (mem_view w f)) w);
  env_GetFileSize f w :=
    match mem_view w f with
    | Some c => (Status_OK, zlen c)
    | None => (IOError f [], 0)
    end;
  file_Append f d w :=
    match mem_view w f with
    | Some c => (Status_OK, mem_set f (c ++ d) w)
    | None => (IOError f [], w)
    end;
  file_Flush f w := (Status_OK, w);
  file_Sync f w := (Status_OK, w);
  file_Close f w := (Status_OK, w);
  env_DeleteFile f w := (Status_OK, mem_remove f w);
  env_RenameFile s t w :=
    match mem_view w s with
    | Some c => (Status_OK, mem_set t c (mem_remove s w))
    | None => (IOError s [], w)
    end
|}.

Definition MemWritable : WritableFile bytes := {|
  wf_Append d w := (Status_OK, w ++ d);
  wf_Flush w := (Status_OK, w)
|}.

Definition MemSequential : SequentialFile bytes := {|
  sf_Read n f := (Status_OK, take (Z.to_nat n) f, drop (Z.to_nat n) f);
  sf_Skip n f := (Status_OK, drop (Z.to_nat n) f)
|}.

Definition MemReadEnv : ReadEnv MemFS bytes := {|
  NewSequentialFile f w :=
    match mem_view w f with
    | Some c => (Status_OK, c)
    | None => (IOError f [], [])
    end;
  env_sequential := MemSequential
|}.

Lemma mem_view_remove f g w : mem_view (mem_remove f w) g = if decide (f = g) then None else mem_view w g.
Proof.
  unfold mem_remove. induction w as [|[h c] w IH]; [by case_decide|].
  destruct (decide (h = f)) as [->|Hne].
  - rewrite filter_cons_False by (intros Hn; by apply Hn). rewrite IH. cbn. repeat case_decide; congruence.
  - rewrite filter_cons_True by done. cbn. rewrite IH. repeat case_decide; congruence.
Qed.

Lemma mem_view_set f c g w : mem_view (mem_set f c w) g = if decide (f = g) then Some c else mem_view w g.
Proof.
  unfold mem_set. cbn. rewrite mem_view_remove. by repeat case_decide.
Qed.

#[global] Instance MemEnv_laws : EnvLaws MemEnv mem_view.
Proof.
  split; cbn -[mem_set mem_remove mem_view].
  - intros f w g Hg. rewrite mem_view_set. by case_decide.
  - intros f w _. rewrite mem_view_set. by case_decide.
  - intros f w g Hg. rewrite mem_view_set. by case_decide.
  - intros f w _. rewrite mem_view_set. by case_decide.
  - intros f w c ->. done.
  - intros f d w g Hg. destruct (mem_view w f); cbn -[mem_set mem_remove mem_view]; [|done]. rewrite mem_view_set. by case_decide.
  - intros f d w c ->. cbn -[mem_set mem_remove mem_view]. intros _. rewrite mem_view_set. by case_decide.
  - done.
  - done.
  - done.
  - done.
  - done.
  - done.
  - intros f w g Hg. rewrite mem_view_remove. by case_decide.
  - intros s t w g Hs Ht. destruct (mem_view w s); cbn -[mem_set mem_remove mem_view]; [|done].
    rewrite mem_view_set, mem_view_remove. by repeat case_decide.
  - intros s t w Hst. destruct (mem_view w s) eqn:E; cbn -[mem_set mem_remove mem_view]; [|done]. intros _.
    rewrite mem_view_set. by case_decide.
  - intros s t w. by destruct (mem_view w s).
Qed.

Lemma ReadFileToString_loop_mem fuel : forall data h, (length h < fuel)%nat ->
  ReadFileToString_loop MemSequential fuel data h = Some (Status_OK, data ++ h).
Proof.
  induction fuel as [|fuel IH]; intros data h Hf; [lia|]. cbn [ReadFileToString_loop MemSequential sf_Read].
  cbn [ok negb]. assert (Hn : (0 < Z.to_nat kBufferSize)%nat) by (unfold kBufferSize; lia).
  generalize dependent (Z.to_nat kBufferSize). intros n Hn.
  destruct (Z.eqb_spec (zlen (take n h)) 0) as [E|E].
  - destruct h as [|b h]; [by rewrite take_nil|]. unfold zlen in E. rewrite length_take in E. cbn [length] in E. lia.
  - rewrite IH, <- app_assoc, take_drop; [done|]. unfold zlen in E.
    rewrite length_take in E. rewrite length_drop. lia.
Qed.

Lemma ReadFileToString_mem fuel fname w c : mem_view w fname = Some c -> (length c < fuel)%nat ->
  ReadFileToString MemReadEnv fuel fname w = Some (Status_OK, c).
Proof.
  intros Hv Hf. unfold ReadFileToString. cbn [NewSequentialFile MemReadEnv]. rewrite Hv. cbn [ok negb env_sequential].
  by apply ReadFileToString_loop_mem.
Qed.
