(* ===== verification/Filename.v ===== *)
(** * File names: db/filename.cpp

    The names of the files of a database, the parser that recognises them in a
    directory listing, and the switch of the CURRENT file. *)

From S2P Require Import Prelude Coding Logging Status Comparator Env.

Inductive FileType :=
  kLogFile | kDBLockFile | kTableFile | kDescriptorFile | kCurrentFile | kTempFile | kInfoLogFile.

#[global] Instance FileType_eq_dec : EqDecision FileType.
Proof. solve_decision. Defined.

(** ["%06llu"]: at least six digits. *)
Definition decimal06 (n : Z) : bytes :=
  let d := NumberToString n in repeat (digit 0) (6 - length d) ++ d.

Definition MakeFileName (name : bytes) (number : Z) (suffix : bytes) : bytes :=
  name ++ lit "/" ++ decimal06 number ++ lit "." ++ suffix.

Definition LogFileName (name : bytes) (number : Z) : bytes := MakeFileName name number (lit "log").
Definition TableFileName (name : bytes) (number : Z) : bytes := MakeFileName name number (lit "ldb").
Definition SSTTableFileName (name : bytes) (number : Z) : bytes := MakeFileName name number (lit "sst").
Definition DescriptorFileName (dbname : bytes) (number : Z) : bytes :=
  dbname ++ lit "/MANIFEST-" ++ decimal06 number.
Definition CurrentFileName (dbname : bytes) : bytes := dbname ++ lit "/CURRENT".
Definition LockFileName (dbname : bytes) : bytes := dbname ++ lit "/LOCK".
Definition TempFileName (dbname : bytes) (number : Z) : bytes := MakeFileName dbname number (lit "dbtmp").
Definition InfoLogFileName (dbname : bytes) : bytes := dbname ++ lit "/LOG".
Definition OldInfoLogFileName (dbname : bytes) : bytes := dbname ++ lit "/LOG.old".

(** [None] when the source returns false. *)
Definition ParseFileName (fname : bytes) : option (Z * FileType) :=
  let rest := fname in
  if Slice_eqb rest (lit "CURRENT") then Some (0, kCurrentFile)
  else if Slice_eqb rest (lit "LOCK") then Some (0, kDBLockFile)
  else if Slice_eqb rest (lit "LOG") || Slice_eqb rest (lit "LOG.old") then Some (0, kInfoLogFile)
  else if starts_with rest (lit "MANIFEST-") then
    let rest := remove_prefix (zlen (lit "MANIFEST-")) rest in
    match ConsumeDecimalNumber rest with
    | None => None
    | Some (num, rest) => if (length rest =? 0)%nat then Some (num, kDescriptorFile) else None
    end
  else
    match ConsumeDecimalNumber rest with
    | None => None
    | Some (num, suffix) =>
        if Slice_eqb suffix (lit ".log") then Some (num, kLogFile)
        else if Slice_eqb suffix (lit ".sst") || Slice_eqb suffix (lit ".ldb") then Some (num, kTableFile)
        else if Slice_eqb suffix (lit ".dbtmp") then Some (num, kTempFile)
        else None
    end.

Definition SetCurrentFile {W} (env : Env W) (dbname : bytes) (descriptor_number : Z) (w : W) : Status * W :=
  let manifest := DescriptorFileName dbname descriptor_number in
  let contents := remove_prefix (zlen dbname + 1) manifest in
  let tmp := TempFileName dbname descriptor_number in
  let '(s, w) := WriteStringToFileSync env (contents ++ [x0a]) tmp w in
  let '(s, w) := if ok s then env_RenameFile env tmp (CurrentFileName dbname) w else (s, w) in
  if negb (ok s) then (s, (env_DeleteFile env tmp w).2) else (s, w).

(** ** Parsing inverts naming *)

Lemma decimal_digits fuel : forall m, 0 <= m -> Forall (fun c => is_digit c = true) (decimal fuel m).
Proof.
  induction fuel as [|fuel IH]; intros m Hm; cbn [decimal]; [done|].
  destruct (Z.ltb_spec m 10); [constructor; [|done]; apply is_digit_digit; lia|].
  apply Forall_app. split; [apply IH, Z.div_pos; lia|]. constructor; [|done].
  apply is_digit_digit, Z.mod_pos_bound. lia.
Qed.

Lemma decimal06_digit n rest : 0 <= n -> starts_with_digit (decimal06 n ++ rest) = true.
Proof.
  intros Hn. unfold decimal06, NumberToString, AppendNumberTo. rewrite app_nil_l.
  destruct (6 - _)%nat; [|done]. cbn [repeat app].
  pose proof (decimal_digits 20 n Hn) as Hd. pose proof (decimal_nonempty 20 n ltac:(lia)) as Hne.
  destruct (decimal 20 n) as [|c r]; [done|]. by inversion Hd.
Qed.

Lemma ConsumeDecimal_06 n rest : fits 64 n -> starts_with_digit rest = false ->
  ConsumeDecimalNumber (decimal06 n ++ rest) = Some (n, rest).
Proof.
  unfold fits. intros Hn Hr. unfold decimal06, ConsumeDecimalNumber, NumberToString, AppendNumberTo.
  rewrite <- app_assoc, consume_zeros, app_nil_l.
  assert (n < 10 ^ Z.of_nat 20) by (change (10 ^ Z.of_nat 20) with (10 ^ 20); lia).
  rewrite consume_decimal by (rewrite ?Z.mul_0_l; lia). rewrite consume_stop by done.
  pose proof (decimal_nonempty 20 n ltac:(lia)).
  destruct (Z.ltb_spec 0 (0 + Z.of_nat (6 - length (decimal 20 n)) + zlen (decimal 20 n))); [|lia]. done.
Qed.

(** A name that starts with a digit is none of the fixed names. *)
Lemma digit_not_name fname c name : starts_with_digit fname = true -> is_digit c = false ->
  Slice_eqb fname (c :: name) = false /\ starts_with fname (c :: name) = false.
Proof.
  intros Hd Hc. split.
  - destruct (Slice_eqb _ _) eqn:E; [|done]. apply Slice_eqb_eq in E as ->. cbn in Hd. congruence.
  - destruct (starts_with _ _) eqn:E; [|done]. apply starts_with_spec in E as [r ->]. cbn in Hd. congruence.
Qed.

Definition base_name (dbname fname : bytes) : bytes := drop (length dbname + 1) fname.

Lemma base_name_app dbname child : base_name dbname (dbname ++ lit "/" ++ child) = child.
Proof.
  unfold base_name. rewrite app_assoc. apply drop_app_length'. by rewrite length_app.
Qed.

Lemma Parse_numbered n suffix : fits 64 n ->
  ParseFileName (decimal06 n ++ lit "." ++ suffix)
  = (let suffix := lit "." ++ suffix in
     if Slice_eqb suffix (lit ".log") then Some (n, kLogFile)
     else if Slice_eqb suffix (lit ".sst") || Slice_eqb suffix (lit ".ldb") then Some (n, kTableFile)
     else if Slice_eqb suffix (lit ".dbtmp") then Some (n, kTempFile)
     else None).
Proof.
  intros Hn. pose proof Hn as Hn'. unfold fits in Hn'.
  pose proof (decimal06_digit n (lit "." ++ suffix) ltac:(lia)) as Hd.
  set (fname := decimal06 n ++ lit "." ++ suffix) in *.
  assert (Hname : forall c name, is_digit c = false -> Slice_eqb fname (c :: name) = false)
    by (intros c name Hc; by apply (digit_not_name fname c name)).
  assert (Hpre : forall c name, is_digit c = false -> starts_with fname (c :: name) = false)
    by (intros c name Hc; by apply (digit_not_name fname c name)).
  unfold ParseFileName. change (lit "CURRENT") with (x43 :: lit "URRENT").
  change (lit "LOCK") with (x4c :: lit "OCK"). change (lit "LOG") with (x4c :: lit "OG").
  change (lit "LOG.old") with (x4c :: lit "OG.old"). change (lit "MANIFEST-") with (x4d :: lit "ANIFEST-").
  rewrite !Hname, Hpre by done. cbn [orb]. unfold fname. by rewrite ConsumeDecimal_06.
Qed.

Lemma Parse_manifest n : fits 64 n -> ParseFileName (lit "MANIFEST-" ++ decimal06 n) = Some (n, kDescriptorFile).
Proof.
  intros Hn. unfold ParseFileName.
  assert (Hm : starts_with (lit "MANIFEST-" ++ decimal06 n) (lit "MANIFEST-") = true)
    by (apply starts_with_spec; by eexists).
  assert (Hname : forall c name, c <> x4d -> Slice_eqb (lit "MANIFEST-" ++ decimal06 n) (c :: name) = false).
  { intros c name Hc. destruct (Slice_eqb _ _) eqn:E; [|done]. apply Slice_eqb_eq in E.
    injection E as E _. congruence. }
  change (lit "CURRENT") with (x43 :: lit "URRENT").
  change (lit "LOCK") with (x4c :: lit "OCK"). change (lit "LOG") with (x4c :: lit "OG").
  change (lit "LOG.old") with (x4c :: lit "OG.old"). rewrite !Hname by done. cbn [orb]. rewrite Hm.
  unfold remove_prefix. rewrite to_nat_zlen, drop_app_length.
  rewrite <- (app_nil_r (decimal06 n)), ConsumeDecimal_06 by done. done.
Qed.

(** ** The switch of CURRENT *)

Lemma Temp_not_current dbname n : 0 <= n -> TempFileName dbname n <> CurrentFileName dbname.
Proof.
  intros Hn E. unfold TempFileName, CurrentFileName, MakeFileName in E. apply app_inv_head in E.
  change (lit "/CURRENT") with (lit "/" ++ lit "CURRENT") in E. apply app_inv_head in E.
  pose proof (decimal06_digit n (lit "." ++ lit "dbtmp") Hn) as Hd. by rewrite E in Hd.
Qed.

Definition current_contents (n : Z) : bytes := lit "MANIFEST-" ++ decimal06 n ++ [x0a].

Lemma SetCurrentFile_contents dbname n :
  remove_prefix (zlen dbname + 1) (DescriptorFileName dbname n) ++ [x0a] = current_contents n.
Proof.
  unfold remove_prefix, DescriptorFileName, current_contents.
  replace (Z.to_nat (zlen dbname + 1)) with (length dbname + 1)%nat by (unfold zlen; lia).
  change (lit "/MANIFEST-") with (lit "/" ++ lit "MANIFEST-"). rewrite <- app_assoc.
  change (drop (length dbname + 1)) with (base_name dbname). rewrite base_name_app. by rewrite <- app_assoc.
Qed.

Lemma SetCurrentFile_spec {W} (env : Env W) view `{!EnvLaws env view} dbname n w : 0 <= n ->
  let r := SetCurrentFile env dbname n w in
  view r.2 (CurrentFileName dbname)
    = (if ok r.1 then Some (current_contents n) else view w (CurrentFileName dbname)) /\
  (forall g, g <> CurrentFileName dbname -> g <> TempFileName dbname n -> view r.2 g = view w g).
Proof.
  intros Hn. cbv zeta. unfold SetCurrentFile. rewrite SetCurrentFile_contents.
  pose proof (Temp_not_current dbname n Hn) as Hne. set (cur := CurrentFileName dbname) in *.
  set (tmp := TempFileName dbname n) in *.
  unfold WriteStringToFileSync.
  pose proof (fun g => DoWrite_frame env view (current_contents n) tmp true w g) as F1.
  pose proof (DoWrite_ok env view (current_contents n) tmp true w) as K1.
  destruct (DoWriteStringToFile env (current_contents n) tmp true w) as [s1 w1]. cbn [fst snd] in *.
  destruct (ok s1) eqn:O1.
  - specialize (K1 eq_refl). pose proof (rename_ok tmp cur w1 Hne) as RO.
    pose proof (rename_fail tmp cur w1) as RF. pose proof (fun g => rename_frame tmp cur w1 g) as RR.
    destruct (env_RenameFile env tmp cur w1) as [s2 w2]. cbn [fst snd] in *.
    destruct (ok s2) eqn:O2; cbn [negb fst snd]; rewrite O2.
    + rewrite RO by done. split; [done|]. intros g Hg1 Hg2. rewrite RR by done. by apply F1.
    + split; [rewrite delete_frame by done; rewrite RF by done; by apply F1|].
      intros g Hg1 Hg2. rewrite delete_frame, RR by done. by apply F1.
  - rewrite O1. cbn [negb fst snd]. rewrite O1. split; [rewrite delete_frame by done; by apply F1|].
    intros g Hg1 Hg2. rewrite delete_frame by done. by apply F1.
Qed.

(** ** Properties *)

(** [ParseFileName] recognises every name the database gives to a file and
    returns its number and type. *)
Theorem parse_inverts_naming dbname n : fits 64 n ->
  ParseFileName (base_name dbname (LogFileName dbname n)) = Some (n, kLogFile) /\
  ParseFileName (base_name dbname (TableFileName dbname n)) = Some (n, kTableFile) /\
  ParseFileName (base_name dbname (SSTTableFileName dbname n)) = Some (n, kTableFile) /\
  ParseFileName (base_name dbname (TempFileName dbname n)) = Some (n, kTempFile) /\
  ParseFileName (base_name dbname (DescriptorFileName dbname n)) = Some (n, kDescriptorFile) /\
  ParseFileName (base_name dbname (CurrentFileName dbname)) = Some (0, kCurrentFile) /\
  ParseFileName (base_name dbname (LockFileName dbname)) = Some (0, kDBLockFile) /\
  ParseFileName (base_name dbname (InfoLogFileName dbname)) = Some (0, kInfoLogFile) /\
  ParseFileName (base_name dbname (OldInfoLogFileName dbname)) = Some (0, kInfoLogFile).
Proof.
  intros Hn. unfold LogFileName, TableFileName, SSTTableFileName, TempFileName, MakeFileName, DescriptorFileName,
    CurrentFileName, LockFileName, InfoLogFileName, OldInfoLogFileName.
  rewrite !base_name_app. rewrite !Parse_numbered by done.
  change (lit "/MANIFEST-") with (lit "/" ++ lit "MANIFEST-"). rewrite <- app_assoc.
  change (lit "/CURRENT") with (lit "/" ++ lit "CURRENT"). change (lit "/LOCK") with (lit "/" ++ lit "LOCK").
  change (lit "/LOG.old") with (lit "/" ++ lit "LOG.old"). change (lit "/LOG") with (lit "/" ++ lit "LOG").
  rewrite !base_name_app, Parse_manifest by done. by repeat split.
Qed.

Lemma parse_inverts_naming_witness :
  ParseFileName (base_name (lit "/tmp/db") (TableFileName (lit "/tmp/db") 17)) = Some (17, kTableFile) /\
  TableFileName (lit "/tmp/db") 17 = lit "/tmp/db/000017.ldb".
Proof.
  split; [|vm_compute; reflexivity].
  exact (proj1 (proj2 (parse_inverts_naming (lit "/tmp/db") 17 ltac:(unfold fits; lia)))).
Defined.

(** The switch of CURRENT is all or nothing: on success it names the new
    descriptor, on any failure it has its old contents, and no file but
    CURRENT and the temporary one is touched. *)
Theorem set_current_atomic {W} (env : Env W) view `{!EnvLaws env view} dbname n w : 0 <= n ->
  let r := SetCurrentFile env dbname n w in
  view r.2 (CurrentFileName dbname)
    = (if ok r.1 then Some (current_contents n) else view w (CurrentFileName dbname)) /\
  (forall g, g <> CurrentFileName dbname -> g <> TempFileName dbname n -> view r.2 g = view w g).
Proof. apply (SetCurrentFile_spec env view). Qed.

Lemma set_current_atomic_witness :
  let r := SetCurrentFile MemEnv (lit "/db") 5 [(lit "/db/CURRENT", current_contents 4); (lit "/db/LOG", lit "x")] in
  mem_view r.2 (lit "/db/CURRENT") = Some (current_contents 5) /\ mem_view r.2 (lit "/db/LOG") = Some (lit "x").
Proof.
  destruct (set_current_atomic MemEnv mem_view (lit "/db") 5
    [(lit "/db/CURRENT", current_contents 4); (lit "/db/LOG", lit "x")] ltac:(lia)) as [H1 H2].
  split; [exact H1|]. etransitivity; [apply H2; vm_compute; discriminate|reflexivity].
Defined.
