(* ===== verification/VersionEdit.v ===== *)
(** * Version edits: db/version_edit.{h,cpp}

    The record of one change to the set of files, and its serialisation in the
    descriptor log. *)

From S2P Require Import Prelude Coding Logging Status Comparator Dbformat.

(** ** Data *)

Record FileMetaData := mkFile {
  refs : Z;
  allowed_seeks : Z;
  number : Z;
  file_size : Z;
  smallest : bytes;          (** an [InternalKey]'s [rep_] *)
  largest : bytes;
  rh : option bytes          (** the Merkle root, [None] while uninitialised *)
}.

Definition new_file (num size : Z) (small large : bytes) : FileMetaData :=
  mkFile 0 (Z.shiftl 1 30) num size small large None.

Record VersionEdit := mkEdit {
  comparator_ : bytes;
  log_number_ : Z;
  prev_log_number_ : Z;
  next_file_number_ : Z;
  last_sequence_ : Z;
  has_comparator_ : bool;
  has_log_number_ : bool;
  has_prev_log_number_ : bool;
  has_next_file_number_ : bool;
  has_last_sequence_ : bool;
  compact_pointers_ : list (Z * bytes);
  deleted_files_ : list (Z * Z);        (** a [std::set]: ascending, no duplicates *)
  new_files_ : list (Z * FileMetaData)
}.

(** [Clear()] keeps the compaction pointers. *)
Definition VersionEdit_Clear (e : VersionEdit) : VersionEdit :=
  mkEdit [] 0 0 0 0 false false false false false (compact_pointers_ e) [] [].

Definition new_VersionEdit : VersionEdit :=
  mkEdit [] 0 0 0 0 false false false false false [] [] [].

(** ** Setters *)

Definition SetComparatorName (name : bytes) (e : VersionEdit) : VersionEdit :=
  mkEdit name (log_number_ e) (prev_log_number_ e) (next_file_number_ e) (last_sequence_ e)
    true (has_log_number_ e) (has_prev_log_number_ e) (has_next_file_number_ e) (has_last_sequence_ e)
    (compact_pointers_ e) (deleted_files_ e) (new_files_ e).

Definition SetLogNumber (num : Z) (e : VersionEdit) : VersionEdit :=
  mkEdit (comparator_ e) num (prev_log_number_ e) (next_file_number_ e) (last_sequence_ e)
    (has_comparator_ e) true (has_prev_log_number_ e) (has_next_file_number_ e) (has_last_sequence_ e)
    (compact_pointers_ e) (deleted_files_ e) (new_files_ e).

Definition SetPrevLogNumber (num : Z) (e : VersionEdit) : VersionEdit :=
  mkEdit (comparator_ e) (log_number_ e) num (next_file_number_ e) (last_sequence_ e)
    (has_comparator_ e) (has_log_number_ e) true (has_next_file_number_ e) (has_last_sequence_ e)
    (compact_pointers_ e) (deleted_files_ e) (new_files_ e).

Definition SetNextFile (num : Z) (e : VersionEdit) : VersionEdit :=
  mkEdit (comparator_ e) (log_number_ e) (prev_log_number_ e) num (last_sequence_ e)
    (has_comparator_ e) (has_log_number_ e) (has_prev_log_number_ e) true (has_last_sequence_ e)
    (compact_pointers_ e) (deleted_files_ e) (new_files_ e).

Definition SetLastSequence (seq : Z) (e : VersionEdit) : VersionEdit :=
  mkEdit (comparator_ e) (log_number_ e) (prev_log_number_ e) (next_file_number_ e) seq
    (has_comparator_ e) (has_log_number_ e) (has_prev_log_number_ e) (has_next_file_number_ e) true
    (compact_pointers_ e) (deleted_files_ e) (new_files_ e).

Definition SetCompactPointer (level : Z) (key : bytes) (e : VersionEdit) : VersionEdit :=
  mkEdit (comparator_ e) (log_number_ e) (prev_log_number_ e) (next_file_number_ e) (last_sequence_ e)
    (has_comparator_ e) (has_log_number_ e) (has_prev_log_number_ e) (has_next_file_number_ e)
    (has_last_sequence_ e) (compact_pointers_ e ++ [(level, key)]) (deleted_files_ e) (new_files_ e).

Definition push_new_file (level : Z) (f : FileMetaData) (e : VersionEdit) : VersionEdit :=
  mkEdit (comparator_ e) (log_number_ e) (prev_log_number_ e) (next_file_number_ e) (last_sequence_ e)
    (has_comparator_ e) (has_log_number_ e) (has_prev_log_number_ e) (has_next_file_number_ e)
    (has_last_sequence_ e) (compact_pointers_ e) (deleted_files_ e) (new_files_ e ++ [(level, f)]).

Definition AddFile (level file size : Z) (small large : bytes) (e : VersionEdit) : VersionEdit :=
  push_new_file level (new_file file size small large) e.

(** [std::pair] order. *)
Definition pair_cmp (a b : Z * Z) : comparison :=
  match a.1 ?= b.1 with Eq => a.2 ?= b.2 | c => c end.

Fixpoint set_insert (x : Z * Z) (s : list (Z * Z)) : list (Z * Z) :=
  match s with
  | [] => [x]
  | y :: s' => match pair_cmp x y with Lt => x :: s | Eq => s | Gt => y :: set_insert x s' end
  end.

Definition DeleteFile (level file : Z) (e : VersionEdit) : VersionEdit :=
  mkEdit (comparator_ e) (log_number_ e) (prev_log_number_ e) (next_file_number_ e) (last_sequence_ e)
    (has_comparator_ e) (has_log_number_ e) (has_prev_log_number_ e) (has_next_file_number_ e)
    (has_last_sequence_ e) (compact_pointers_ e) (set_insert (level, file) (deleted_files_ e)) (new_files_ e).

(** ** Serialisation *)

Definition kComparator : Z := 1.
Definition kLogNumber : Z := 2.
Definition kNextFileNumber : Z := 3.
Definition kLastSequence : Z := 4.
Definition kCompactPointer : Z := 5.
Definition kDeletedFile : Z := 6.
Definition kNewFile : Z := 7.
Definition kPrevLogNumber : Z := 9.

Definition EncodeTo (e : VersionEdit) (dst : bytes) : bytes :=
  let dst := if has_comparator_ e
    then PutLengthPrefixedSlice (PutVarint32 dst kComparator) (comparator_ e) else dst in
  let dst := if has_log_number_ e then PutVarint64 (PutVarint32 dst kLogNumber) (log_number_ e) else dst in
  let dst := if has_prev_log_number_ e
    then PutVarint64 (PutVarint32 dst kPrevLogNumber) (prev_log_number_ e) else dst in
  let dst := if has_next_file_number_ e
    then PutVarint64 (PutVarint32 dst kNextFileNumber) (next_file_number_ e) else dst in
  let dst := if has_last_sequence_ e
    then PutVarint64 (PutVarint32 dst kLastSequence) (last_sequence_ e) else dst in
  let dst := fold_left (fun dst p =>
    PutLengthPrefixedSlice (PutVarint32 (PutVarint32 dst kCompactPointer) (u32 p.1)) p.2)
    (compact_pointers_ e) dst in
  let dst := fold_left (fun dst p =>
    PutVarint64 (PutVarint32 (PutVarint32 dst kDeletedFile) (u32 p.1)) p.2) (deleted_files_ e) dst in
  fold_left (fun dst p =>
    let f := p.2 in
    let dst := PutVarint32 (PutVarint32 dst kNewFile) (u32 p.1) in
    let dst := PutVarint64 (PutVarint64 dst (number f)) (file_size f) in
    PutLengthPrefixedSlice (PutLengthPrefixedSlice dst (smallest f)) (largest f)) (new_files_ e) dst.

Definition GetInternalKey (input : bytes) : option (bytes * bytes) := GetLengthPrefixedSlice input.

Definition GetLevel (input : bytes) : option (Z * bytes) :=
  match GetVarint32 input with
  | Some (v, input) => if v <? Z.of_nat kNumLevels then Some (v, input) else None
  | None => None
  end.

(** One record behind its tag: the edit and the rest, or the message. *)
Definition decode_record (tag : Z) (input : bytes) (e : VersionEdit) : (VersionEdit * bytes) + bytes :=
  if tag =? kComparator then
    match GetLengthPrefixedSlice input with
    | Some (str, input) => inl (SetComparatorName str e, input)
    | None => inr (lit "comparator name")
    end
  else if tag =? kLogNumber then
    match GetVarint64 input with
    | Some (n, input) => inl (SetLogNumber n e, input)
    | None => inr (lit "log number")
    end
  else if tag =? kPrevLogNumber then
    match GetVarint64 input with
    | Some (n, input) => inl (SetPrevLogNumber n e, input)
    | None => inr (lit "previous log number")
    end
  else if tag =? kNextFileNumber then
    match GetVarint64 input with
    | Some (n, input) => inl (SetNextFile n e, input)
    | None => inr (lit "next file number")
    end
  else if tag =? kLastSequence then
    match GetVarint64 input with
    | Some (n, input) => inl (SetLastSequence n e, input)
    | None => inr (lit "last sequence number")
    end
  else if tag =? kCompactPointer then
    match (r ← GetLevel input; k ← GetInternalKey r.2; Some (r.1, k)) with
    | Some (level, (key, input)) => inl (SetCompactPointer level key e, input)
    | None => inr (lit "compaction pointer")
    end
  else if tag =? kDeletedFile then
    match (r ← GetLevel input; n ← GetVarint64 r.2; Some (r.1, n)) with
    | Some (level, (num, input)) => inl (DeleteFile level num e, input)
    | None => inr (lit "deleted file")
    end
  else if tag =? kNewFile then
    match (r ← GetLevel input; n ← GetVarint64 r.2; s ← GetVarint64 n.2;
           a ← GetInternalKey s.2; b ← GetInternalKey a.2; Some (r.1, n.1, s.1, a.1, b)) with
    | Some (level, num, size, small, (large, input)) =>
        inl (push_new_file level (new_file num size small large) e, input)
    | None => inr (lit "new-file entry")
    end
  else inr (lit "unknown tag").

Fixpoint decode_loop (fuel : nat) (input : bytes) (e : VersionEdit) : option (VersionEdit * Status) :=
  match fuel with
  | O => None
  | S fuel =>
      match GetVarint32 input with
      | None =>
          Some (e, if (length input =? 0)%nat then Status_OK
                   else Corruption2 (lit "VersionEdit") (lit "invalid tag"))
      | Some (tag, input) =>
          match decode_record tag input e with
          | inl (e, input) => decode_loop fuel input e
          | inr msg => Some (e, Corruption2 (lit "VersionEdit") msg)
          end
      end
  end.

(** The edit decoded into [e], and the result. *)
Definition DecodeFrom (src : bytes) (e : VersionEdit) : option (VersionEdit * Status) :=
  decode_loop (S (length src)) src (VersionEdit_Clear e).

(** ** Human-readable form *)

Definition nl : bytes := [x0a].

Definition VersionEdit_DebugString (e : VersionEdit) : bytes :=
  let r := lit "VersionEdit {" in
  let r := if has_comparator_ e then r ++ nl ++ lit "  Comparator: " ++ comparator_ e else r in
  let r := if has_log_number_ e then AppendNumberTo (r ++ nl ++ lit "  LogNumber: ") (log_number_ e) else r in
  let r := if has_prev_log_number_ e
    then AppendNumberTo (r ++ nl ++ lit "  PrevLogNumber: ") (prev_log_number_ e) else r in
  let r := if has_next_file_number_ e
    then AppendNumberTo (r ++ nl ++ lit "  NextFile: ") (next_file_number_ e) else r in
  let r := if has_last_sequence_ e
    then AppendNumberTo (r ++ nl ++ lit "  LastSeq: ") (last_sequence_ e) else r in
  let r := fold_left (fun r p =>
    AppendNumberTo (r ++ nl ++ lit "  CompactPointer: ") p.1 ++ lit " " ++ InternalKey_DebugString p.2)
    (compact_pointers_ e) r in
  let r := fold_left (fun r p =>
    AppendNumberTo (AppendNumberTo (r ++ nl ++ lit "  DeleteFile: ") p.1 ++ lit " ") p.2)
    (deleted_files_ e) r in
  let r := fold_left (fun r p =>
    let f := p.2 in
    let r := AppendNumberTo (r ++ nl ++ lit "  AddFile: ") p.1 in
    let r := AppendNumberTo (r ++ lit " ") (number f) in
    let r := AppendNumberTo (r ++ lit " ") (file_size f) in
    r ++ lit " " ++ InternalKey_DebugString (smallest f) ++ lit " .. " ++ InternalKey_DebugString (largest f))
    (new_files_ e) r in
  r ++ nl ++ lit "}" ++ nl.

(** ** Records *)

(** The records a serialised edit consists of. *)
Inductive Item :=
| IComparator (s : bytes) | ILog (n : Z) | IPrevLog (n : Z) | INext (n : Z) | ISeq (n : Z)
| IPointer (level : Z) (key : bytes) | IDeleted (level n : Z) | INew (level : Z) (f : FileMetaData).

Definition item_tag (i : Item) : Z :=
  match i with
  | IComparator _ => kComparator
  | ILog _ => kLogNumber
  | IPrevLog _ => kPrevLogNumber
  | INext _ => kNextFileNumber
  | ISeq _ => kLastSequence
  | IPointer _ _ => kCompactPointer
  | IDeleted _ _ => kDeletedFile
  | INew _ _ => kNewFile
  end.

Definition item_body (i : Item) : bytes :=
  match i with
  | IComparator s => PutLengthPrefixedSlice [] s
  | ILog n | IPrevLog n | INext n | ISeq n => EncodeVarint64 n
  | IPointer l k => EncodeVarint32 (u32 l) ++ PutLengthPrefixedSlice [] k
  | IDeleted l n => EncodeVarint32 (u32 l) ++ EncodeVarint64 n
  | INew l f => EncodeVarint32 (u32 l) ++ EncodeVarint64 (number f) ++
      EncodeVarint64 (file_size f) ++ PutLengthPrefixedSlice [] (smallest f) ++ PutLengthPrefixedSlice [] (largest f)
  end.

Definition enc_item (i : Item) : bytes := EncodeVarint32 (item_tag i) ++ item_body i.

(** What a serialised file keeps. *)
Definition strip (f : FileMetaData) : FileMetaData := new_file (number f) (file_size f) (smallest f) (largest f).

Definition apply_item (e : VersionEdit) (i : Item) : VersionEdit :=
  match i with
  | IComparator s => SetComparatorName s e
  | ILog n => SetLogNumber n e
  | IPrevLog n => SetPrevLogNumber n e
  | INext n => SetNextFile n e
  | ISeq n => SetLastSequence n e
  | IPointer l k => SetCompactPointer l k e
  | IDeleted l n => DeleteFile l n e
  | INew l f => push_new_file l (strip f) e
  end.

Definition valid_level (l : Z) : Prop := 0 <= l < Z.of_nat kNumLevels.
Definition encodable_file (f : FileMetaData) : Prop :=
  fits 64 (number f) /\ fits 64 (file_size f) /\ zlen (smallest f) < 2 ^ 32 /\ zlen (largest f) < 2 ^ 32.

Definition item_ok (i : Item) : Prop :=
  match i with
  | IComparator s => zlen s < 2 ^ 32
  | ILog n | IPrevLog n | INext n | ISeq n => fits 64 n
  | IPointer l k => valid_level l /\ zlen k < 2 ^ 32
  | IDeleted l n => valid_level l /\ fits 64 n
  | INew l f => valid_level l /\ encodable_file f
  end.

Definition items (e : VersionEdit) : list Item :=
  (if has_comparator_ e then [IComparator (comparator_ e)] else []) ++
  (if has_log_number_ e then [ILog (log_number_ e)] else []) ++
  (if has_prev_log_number_ e then [IPrevLog (prev_log_number_ e)] else []) ++
  (if has_next_file_number_ e then [INext (next_file_number_ e)] else []) ++
  (if has_last_sequence_ e then [ISeq (last_sequence_ e)] else []) ++
  map (fun p => IPointer p.1 p.2) (compact_pointers_ e) ++
  map (fun p => IDeleted p.1 p.2) (deleted_files_ e) ++
  map (fun p => INew p.1 p.2) (new_files_ e).

Lemma fold_append {A} (f : bytes -> A -> bytes) (g : A -> bytes) l :
  (forall d a, f d a = d ++ g a) -> forall d, fold_left f l d = d ++ concat (map g l).
Proof.
  intros Hf. induction l as [|a l IH]; intros d; cbn; [by rewrite app_nil_r|].
  by rewrite IH, Hf, <- app_assoc.
Qed.

Lemma EncodeTo_items e dst : EncodeTo e dst = dst ++ concat (map enc_item (items e)).
Proof.
  unfold EncodeTo, items. rewrite !map_app, !concat_app.
  rewrite (fold_append _ (fun p => enc_item (INew p.1 p.2))).
  2: { intros d [l f]. unfold PutVarint32, PutVarint64. cbn [fst snd].
       rewrite (PutLengthPrefixedSlice_app (PutLengthPrefixedSlice _ _)), PutLengthPrefixedSlice_app.
       unfold enc_item; cbn [item_tag item_body]. by rewrite <- !app_assoc. }
  rewrite (fold_append _ (fun p => enc_item (IDeleted p.1 p.2))).
  2: { intros d [l n]. unfold PutVarint32, PutVarint64. cbn [fst snd]; unfold enc_item; cbn [item_tag item_body]. by rewrite <- !app_assoc. }
  rewrite (fold_append _ (fun p => enc_item (IPointer p.1 p.2))).
  2: { intros d [l k]. unfold PutVarint32. cbn [fst snd]. rewrite PutLengthPrefixedSlice_app.
       unfold enc_item; cbn [item_tag item_body]. by rewrite <- !app_assoc. }
  rewrite !map_map, !app_assoc. do 3 f_equal. unfold PutVarint32, PutVarint64.
  rewrite (PutLengthPrefixedSlice_app (dst ++ _)).
  destruct (has_comparator_ e), (has_log_number_ e), (has_prev_log_number_ e), (has_next_file_number_ e),
    (has_last_sequence_ e); cbn [map concat]; unfold enc_item; cbn [item_tag item_body]; rewrite ?app_nil_r, <- ?app_assoc; reflexivity.
Qed.

Lemma GetLevel_app l rest : valid_level l -> GetLevel (EncodeVarint32 (u32 l) ++ rest) = Some (l, rest).
Proof.
  unfold valid_level. intros Hl. change (Z.of_nat kNumLevels) with 7 in Hl.
  unfold GetLevel. rewrite u32_small by lia. rewrite GetVarint32_app by (unfold fits; lia).
  by destruct (Z.ltb_spec l (Z.of_nat kNumLevels)); [|change (Z.of_nat kNumLevels) with 7 in *; lia].
Qed.

Lemma decode_item i rest e : item_ok i ->
  decode_record (item_tag i) (item_body i ++ rest) e = inl (apply_item e i, rest).
Proof.
  intros Hi. unfold decode_record, GetInternalKey.
  destruct i as [s|n|n|n|n|l k|l n|l f]; cbn [item_tag item_body item_ok] in *;
    unfold kComparator, kLogNumber, kPrevLogNumber, kNextFileNumber, kLastSequence, kCompactPointer,
      kDeletedFile, kNewFile; cbn [Z.eqb Pos.eqb]; rewrite <- ?app_assoc.
  - by rewrite GetLengthPrefixedSlice_app.
  - by rewrite GetVarint64_app.
  - by rewrite GetVarint64_app.
  - by rewrite GetVarint64_app.
  - by rewrite GetVarint64_app.
  - destruct Hi as [Hl Hk]. rewrite GetLevel_app by done. cbn [mbind option_bind snd fst].
    by rewrite GetLengthPrefixedSlice_app.
  - destruct Hi as [Hl Hn]. rewrite GetLevel_app by done. cbn [mbind option_bind snd fst].
    by rewrite GetVarint64_app.
  - destruct Hi as [Hl (Hn & Hs & Ha & Hb)]. rewrite GetLevel_app by done. cbn [mbind option_bind snd fst].
    rewrite GetVarint64_app by done. cbn [mbind option_bind snd fst].
    rewrite GetVarint64_app by done. cbn [mbind option_bind snd fst].
    rewrite GetLengthPrefixedSlice_app by done. cbn [mbind option_bind snd fst].
    by rewrite GetLengthPrefixedSlice_app.
Qed.

Lemma decode_items l : forall fuel e, Forall item_ok l -> (length l < fuel)%nat ->
  decode_loop fuel (concat (map enc_item l)) e = Some (fold_left apply_item l e, Status_OK).
Proof.
  induction l as [|i l IH]; intros fuel e Hok Hf; (destruct fuel as [|fuel]; [lia|]); [done|].
  inversion Hok as [|? ? Hi Hok']; subst. cbn [map concat decode_loop fold_left].
  unfold enc_item at 1. rewrite <- app_assoc, GetVarint32_app by (destruct i; by vm_compute).
  rewrite decode_item by done. apply IH; [done|]. cbn in Hf. lia.
Qed.

Lemma items_length l : (length l <= length (concat (map enc_item l)))%nat.
Proof.
  induction l as [|i l IH]; [done|]. cbn [map concat length]. rewrite length_app. unfold enc_item at 1.
  rewrite length_app. assert (1 <= length (EncodeVarint32 (item_tag i)))%nat by (destruct i; vm_compute; lia). lia.
Qed.

(** ** The round trip *)

Definition sorted_pairs (s : list (Z * Z)) : Prop := StronglySorted (fun a b => pair_cmp a b = Lt) s.

Record edit_ok (e : VersionEdit) : Prop := {
  ok_items : Forall item_ok (items e);
  ok_comparator : has_comparator_ e = false -> comparator_ e = [];
  ok_log : has_log_number_ e = false -> log_number_ e = 0;
  ok_prev : has_prev_log_number_ e = false -> prev_log_number_ e = 0;
  ok_next : has_next_file_number_ e = false -> next_file_number_ e = 0;
  ok_seq : has_last_sequence_ e = false -> last_sequence_ e = 0;
  ok_deleted : sorted_pairs (deleted_files_ e)
}.

Lemma pair_cmp_opp a b : pair_cmp b a = CompOpp (pair_cmp a b).
Proof.
  unfold pair_cmp. rewrite (Z.compare_antisym a.1 b.1), (Z.compare_antisym a.2 b.2).
  by destruct (a.1 ?= b.1).
Qed.

Lemma set_insert_last s x : Forall (fun y => pair_cmp y x = Lt) s -> set_insert x s = s ++ [x].
Proof.
  induction 1 as [|y s Hy Hs IH]; [done|]. cbn. rewrite pair_cmp_opp, Hy. cbn. by rewrite IH.
Qed.

Lemma fold_pointers ps : forall e, fold_left apply_item (map (fun p => IPointer p.1 p.2) ps) e
  = mkEdit (comparator_ e) (log_number_ e) (prev_log_number_ e) (next_file_number_ e) (last_sequence_ e)
      (has_comparator_ e) (has_log_number_ e) (has_prev_log_number_ e) (has_next_file_number_ e)
      (has_last_sequence_ e) (compact_pointers_ e ++ ps) (deleted_files_ e) (new_files_ e).
Proof.
  induction ps as [|[l k] ps IH]; intros e; cbn [map fold_left]; [rewrite app_nil_r; by destruct e|].
  rewrite IH. cbn. by rewrite <- app_assoc.
Qed.

Lemma fold_deleted ds : forall e, sorted_pairs (deleted_files_ e ++ ds) ->
  fold_left apply_item (map (fun p => IDeleted p.1 p.2) ds) e
  = mkEdit (comparator_ e) (log_number_ e) (prev_log_number_ e) (next_file_number_ e) (last_sequence_ e)
      (has_comparator_ e) (has_log_number_ e) (has_prev_log_number_ e) (has_next_file_number_ e)
      (has_last_sequence_ e) (compact_pointers_ e) (deleted_files_ e ++ ds) (new_files_ e).
Proof.
  induction ds as [|[l n] ds IH]; intros e Hs; cbn [map fold_left]; [rewrite app_nil_r; by destruct e|].
  assert (Hins : set_insert (l, n) (deleted_files_ e) = deleted_files_ e ++ [(l, n)]).
  { apply set_insert_last. clear IH. induction (deleted_files_ e) as [|y s IHs]; [done|].
    apply StronglySorted_inv in Hs as [Hs Hf]. constructor; [|by apply IHs].
    apply Forall_app in Hf as [_ Hf]. by inversion Hf. }
  rewrite IH; cbn; rewrite Hins, <- app_assoc; done.
Qed.

Lemma fold_new fs : forall e, fold_left apply_item (map (fun p => INew p.1 p.2) fs) e
  = mkEdit (comparator_ e) (log_number_ e) (prev_log_number_ e) (next_file_number_ e) (last_sequence_ e)
      (has_comparator_ e) (has_log_number_ e) (has_prev_log_number_ e) (has_next_file_number_ e)
      (has_last_sequence_ e) (compact_pointers_ e) (deleted_files_ e)
      (new_files_ e ++ map (fun p => (p.1, strip p.2)) fs).
Proof.
  induction fs as [|[l f] fs IH]; intros e; cbn [map fold_left]; [rewrite app_nil_r; by destruct e|].
  rewrite IH. cbn. by rewrite <- app_assoc.
Qed.

(** The edit that decoding [EncodeTo e] into [e0] leaves. *)
Definition decoded (e0 e : VersionEdit) : VersionEdit :=
  mkEdit (comparator_ e) (log_number_ e) (prev_log_number_ e) (next_file_number_ e) (last_sequence_ e)
    (has_comparator_ e) (has_log_number_ e) (has_prev_log_number_ e) (has_next_file_number_ e)
    (has_last_sequence_ e) (compact_pointers_ e0 ++ compact_pointers_ e) (deleted_files_ e)
    (map (fun p => (p.1, strip p.2)) (new_files_ e)).

(** The optional fields, one after the other. *)
Lemma fold_optional (b : bool) (i : Item) e r :
  (b = true -> apply_item e i = r) -> (b = false -> e = r) ->
  fold_left apply_item (if b then [i] else []) e = r.
Proof. intros H1 H2. destruct b; [by apply H1|by apply H2]. Qed.

Lemma fold_head e0 e : edit_ok e ->
  fold_left apply_item
    ((if has_comparator_ e then [IComparator (comparator_ e)] else []) ++
     (if has_log_number_ e then [ILog (log_number_ e)] else []) ++
     (if has_prev_log_number_ e then [IPrevLog (prev_log_number_ e)] else []) ++
     (if has_next_file_number_ e then [INext (next_file_number_ e)] else []) ++
     (if has_last_sequence_ e then [ISeq (last_sequence_ e)] else [])) (VersionEdit_Clear e0)
  = mkEdit (comparator_ e) (log_number_ e) (prev_log_number_ e) (next_file_number_ e) (last_sequence_ e)
      (has_comparator_ e) (has_log_number_ e) (has_prev_log_number_ e) (has_next_file_number_ e)
      (has_last_sequence_ e) (compact_pointers_ e0) [] [].
Proof.
  intros [_ H1 H2 H3 H4 H5 _]. rewrite !fold_left_app. unfold VersionEdit_Clear.
  destruct e as [c ln pn nf ls hc hl hp hn hs cp df nfs].
  cbn [comparator_ log_number_ prev_log_number_ next_file_number_ last_sequence_ has_comparator_ has_log_number_
    has_prev_log_number_ has_next_file_number_ has_last_sequence_] in *.
  rewrite (fold_optional hc _ _ (mkEdit c 0 0 0 0 hc false false false false (compact_pointers_ e0) [] []))
    by (intros ->; rewrite ?H1 by done; done).
  rewrite (fold_optional hl _ _ (mkEdit c ln 0 0 0 hc hl false false false (compact_pointers_ e0) [] []))
    by (intros ->; rewrite ?H2 by done; done).
  rewrite (fold_optional hp _ _ (mkEdit c ln pn 0 0 hc hl hp false false (compact_pointers_ e0) [] []))
    by (intros ->; rewrite ?H3 by done; done).
  rewrite (fold_optional hn _ _ (mkEdit c ln pn nf 0 hc hl hp hn false (compact_pointers_ e0) [] []))
    by (intros ->; rewrite ?H4 by done; done).
  by rewrite (fold_optional hs _ _ (mkEdit c ln pn nf ls hc hl hp hn hs (compact_pointers_ e0) [] []))
    by (intros ->; rewrite ?H5 by done; done).
Qed.

Lemma DecodeFrom_EncodeTo e0 e : edit_ok e ->
  DecodeFrom (EncodeTo e []) e0 = Some (decoded e0 e, Status_OK).
Proof.
  intros Hok. unfold DecodeFrom. rewrite EncodeTo_items, app_nil_l.
  pose proof (items_length (items e)). rewrite decode_items by (try apply (ok_items e Hok); lia).
  do 2 f_equal. unfold items. rewrite !app_assoc, 3 fold_left_app, <- !app_assoc, fold_head by done.
  rewrite fold_pointers, fold_deleted by (apply (ok_deleted e Hok)). by rewrite fold_new.
Qed.

(** ** Arbitrary input *)

Definition levels_ok (e : VersionEdit) : Prop :=
  Forall (fun p => valid_level p.1) (compact_pointers_ e) /\
  Forall (fun p => valid_level p.1) (deleted_files_ e) /\
  Forall (fun p => valid_level p.1) (new_files_ e).

Lemma GetVarint32_shorter p v q : GetVarint32 p = Some (v, q) -> (length q < length p)%nat /\ fits 32 v.
Proof.
  unfold GetVarint32. rewrite GetVarint32Ptr_fallback. unfold GetVarint32PtrFallback.
  destruct (GetVarint_loop 32 5 0 0 p) as [[v' r]|] eqn:E; [|done]. intros [= <- <-].
  apply GetVarint_loop_suffix in E as [(pre & -> & Hpre & _) Hv]; [|lia|unfold fits; lia].
  split; [|done]. rewrite length_app. destruct pre; [done|cbn; lia].
Qed.

Lemma GetVarint64_shorter p v q : GetVarint64 p = Some (v, q) -> (length q < length p)%nat.
Proof.
  unfold GetVarint64, GetVarint64Ptr.
  destruct (GetVarint_loop 64 10 0 0 p) as [[v' r]|] eqn:E; [|done]. intros [= <- <-].
  apply GetVarint_loop_suffix in E as [(pre & -> & Hpre & _) Hv]; [|lia|unfold fits; lia].
  rewrite length_app. destruct pre; [done|cbn; lia].
Qed.

Lemma GetLengthPrefixed_shorter p s q : GetLengthPrefixedSlice p = Some (s, q) -> (length q < length p)%nat.
Proof.
  unfold GetLengthPrefixedSlice. destruct (GetVarint32 p) as [[v r]|] eqn:E; [|done].
  apply GetVarint32_shorter in E as [E _]. destruct (_ <=? _); [|done]. intros [= _ <-].
  rewrite length_drop. lia.
Qed.

Lemma GetLevel_shorter p l q : GetLevel p = Some (l, q) -> (length q < length p)%nat /\ valid_level l.
Proof.
  unfold GetLevel. destruct (GetVarint32 p) as [[v r]|] eqn:E; [|done].
  apply GetVarint32_shorter in E as [E Hv]. destruct (Z.ltb_spec v (Z.of_nat kNumLevels)); [|done].
  intros [= <- <-]. split; [done|]. unfold valid_level, fits in *. lia.
Qed.

Lemma set_insert_elem x s : forall y, y ∈ set_insert x s -> y = x \/ y ∈ s.
Proof.
  induction s as [|z s IH]; intros y; cbn; [by intros [->|?%elem_of_nil]%elem_of_cons; [left|]|].
  destruct (pair_cmp x z).
  - by right.
  - intros [->|?]%elem_of_cons; [by left|by right].
  - intros [->|H]%elem_of_cons; [right; by left|]. apply IH in H as [->|?]; [by left|]. right. by right.
Qed.

Lemma decode_record_inv tag input e e' rest : decode_record tag input e = inl (e', rest) -> levels_ok e ->
  (length rest < length input)%nat /\ levels_ok e'.
Proof.
  intros H (L1 & L2 & L3). unfold decode_record, GetInternalKey in H.
  repeat match type of H with
  | (if ?b then _ else _) = _ => destruct b
  | match ?x with _ => _ end = inl _ => destruct x eqn:?E; try done
  end; try discriminate H; repeat match goal with
  | H : (_ ≫= _) = Some _ |- _ => apply bind_Some in H as ([? ?] & ? & ?); cbn [fst snd] in *
  | p : (_ * _)%type |- _ => destruct p
  | H : Some _ = Some _ |- _ => injection H; clear H; intros; subst
  | H : inl _ = inl _ |- _ => injection H; clear H; intros; subst
  | H : GetVarint64 _ = _ |- _ => apply GetVarint64_shorter in H
  | H : GetLengthPrefixedSlice _ = _ |- _ => apply GetLengthPrefixed_shorter in H
  | H : GetLevel _ = _ |- _ => apply GetLevel_shorter in H as [? ?]
  end; cbn [fst snd] in *; (split; [lia|]); (split; [|split]); cbn; try done;
    try (apply Forall_app; split; [done|by constructor]).
  apply Forall_forall. intros y Hy. apply set_insert_elem in Hy as [->|Hy]; [done|].
  rewrite Forall_forall in L2. by apply L2.
Qed.

(** Decoding ends on every input, and no level it accepts is out of range. *)
Lemma decode_loop_total fuel : forall input e, (length input < fuel)%nat -> levels_ok e ->
  exists e' s, decode_loop fuel input e = Some (e', s) /\ levels_ok e'.
Proof.
  induction fuel as [|fuel IH]; intros input e Hf He; [lia|]. cbn [decode_loop].
  destruct (GetVarint32 input) as [[tag rest]|] eqn:E; [|by eexists _, _].
  apply GetVarint32_shorter in E as [E _].
  destruct (decode_record tag rest e) as [[e' rest']|msg] eqn:Ed; [|by eexists _, _].
  apply decode_record_inv in Ed as [Hl He']; [|done]. apply IH; [lia|done].
Qed.

(** ** Properties *)

(** C34. Decoding the serialisation of an edit gives the edit back: every
    number, pointer and deleted file, and of every new file what the format
    keeps - not its Merkle root. *)
Theorem version_edit_roundtrip e : edit_ok e ->
  DecodeFrom (EncodeTo e []) new_VersionEdit = Some (decoded new_VersionEdit e, Status_OK) /\
  (Forall (fun p => p.2 = strip p.2) (new_files_ e) -> decoded new_VersionEdit e = e).
Proof.
  intros Hok. split; [by apply DecodeFrom_EncodeTo|]. intros Hf. unfold decoded. destruct e; cbn in *. f_equal.
  clear Hok. induction Hf as [|[l f] nf Hx Hf IH]; [done|]. cbn in *. by rewrite <- Hx, IH.
Qed.

Definition sample_edit : VersionEdit :=
  push_new_file 2 (new_file 9 4096 (lit "aaaaaaaa") (lit "bbbbbbbbb"))
    (DeleteFile 1 7 (SetCompactPointer 1 (lit "cccccccc") (SetNextFile 10 (SetLogNumber 8 new_VersionEdit)))).

Lemma version_edit_roundtrip_witness :
  DecodeFrom (EncodeTo sample_edit []) new_VersionEdit = Some (sample_edit, Status_OK).
Proof.
  destruct (version_edit_roundtrip sample_edit) as [H1 H2].
  - split; try (intros H; first [reflexivity|discriminate H]).
    + repeat (apply Forall_cons; split); try apply Forall_nil.
      all: cbv; repeat split; discriminate.
    + apply SSorted_cons; constructor.
  - rewrite H1, H2; [reflexivity|]. constructor; [reflexivity|constructor].
Defined.

(** C35. [DecodeFrom] ends on every input, with a status, and whatever it has
    taken in names only levels that exist. *)
Theorem version_edit_decode_total src e : levels_ok e ->
  exists e' s, DecodeFrom src e = Some (e', s) /\ levels_ok e'.
Proof.
  intros (H1 & H2 & H3). unfold DecodeFrom. apply decode_loop_total; [lia|]. split; [exact H1|]. by split; cbn.
Qed.

Lemma version_edit_decode_total_witness :
  exists e' s, DecodeFrom [x07; x09; x01] new_VersionEdit = Some (e', s) /\ levels_ok e'.
Proof. apply version_edit_decode_total. repeat split; constructor. Defined.
