(* ===== verification/Log.v ===== *)
(** * The record log: db/log_format.h, db/log_writer.cpp, db/log_reader.cpp

    Records are cut into fragments that fit 32 KiB blocks, each with a
    checksum, a length and a type. The writer is a loop over fragments, the
    reader a state machine over physical records that survives damaged and
    truncated files. *)

From S2P Require Import Prelude Coding Logging Status Crc32c Env.

(** ** Format *)

Definition kZeroType : Z := 0.
Definition kFullType : Z := 1.
Definition kFirstType : Z := 2.
Definition kMiddleType : Z := 3.
Definition kLastType : Z := 4.
Definition kMaxRecordType : Z := kLastType.
Definition kBlockSize : Z := 32768.
Definition kHeaderSize : Z := 7.
Definition kEof : Z := kMaxRecordType + 1.
Definition kBadRecord : Z := kMaxRecordType + 2.

(** ** Writer *)

Section Writer.
Context {W : Type} (file : WritableFile W).

Record Writer := mkWriter { dest_ : W; block_offset_ : Z }.

Definition new_Writer (dest : W) : Writer := mkWriter dest 0.
Definition new_Writer_at (dest : W) (dest_length : Z) : Writer := mkWriter dest (dest_length mod kBlockSize).

(** [type_crc_[t]], computed by [InitTypeCrc] for every type. *)
Definition type_crc_ (t : Z) : Z := Value [z2b t].

Definition record_header (t : Z) (payload : bytes) : bytes :=
  let n := zlen payload in
  let crc := Mask (Extend (type_crc_ t) payload) in
  EncodeFixed32 crc ++ [z2b (Z.land n 0xff); z2b (Z.shiftr n 8); z2b t].

Definition EmitPhysicalRecord (t : Z) (payload : bytes) (w : Writer) : Status * Writer :=
  let '(s, d) := wf_Append file (record_header t payload) (dest_ w) in
  let '(s, d) :=
    if ok s then
      let '(s, d) := wf_Append file payload d in
      if ok s then wf_Flush file d else (s, d)
    else (s, d) in
  (s, mkWriter d (block_offset_ w + (kHeaderSize + zlen payload))).

(** One pass of the [do] loop: the result, the rest of the record. *)
Definition AddRecord_step (begin : bool) (data : bytes) (w : Writer) : Status * bytes * Writer :=
  let leftover := kBlockSize - block_offset_ w in
  let w :=
    if leftover <? kHeaderSize then
      mkWriter (if 0 <? leftover then (wf_Append file (replicate (Z.to_nat leftover) x00) (dest_ w)).2
                else dest_ w) 0
    else w in
  let avail := kBlockSize - block_offset_ w - kHeaderSize in
  let left := zlen data in
  let fragment_length := if left <? avail then left else avail in
  let is_end := left =? fragment_length in
  let type :=
    if begin && is_end then kFullType else if begin then kFirstType
    else if is_end then kLastType else kMiddleType in
  let '(s, w) := EmitPhysicalRecord type (take (Z.to_nat fragment_length) data) w in
  (s, drop (Z.to_nat fragment_length) data, w).

Fixpoint AddRecord_loop (fuel : nat) (begin : bool) (data : bytes) (w : Writer) : option (Status * Writer) :=
  match fuel with
  | O => None
  | S fuel =>
      let '(s, rest, w) := AddRecord_step begin data w in
      if ok s && (0 <? zlen rest) then AddRecord_loop fuel false rest w else Some (s, w)
  end.

(** At most every other pass emits an empty fragment. *)
Definition AddRecord (slice : bytes) (w : Writer) : option (Status * Writer) :=
  AddRecord_loop (2 * length slice + 2) true slice w.

End Writer.

Arguments Writer : clear implicits.

(** ** Reader *)

Section Reader.
Context {F : Type} (file : SequentialFile F).

Record Reader := mkReader {
  file_ : F;
  checksum_ : bool;
  buffer_ : bytes;
  eof_ : bool;
  last_record_offset_ : Z;
  end_of_buffer_offset_ : Z;
  initial_offset_ : Z;
  resyncing_ : bool;
  reports_ : list (Z * Status)       (** calls of [reporter_->Corruption] *)
}.

Definition new_Reader (f : F) (checksum : bool) (initial_offset : Z) : Reader :=
  mkReader f checksum [] false 0 0 initial_offset (0 <? initial_offset) [].

Definition set_buffer (b : bytes) (r : Reader) : Reader :=
  mkReader (file_ r) (checksum_ r) b (eof_ r) (last_record_offset_ r) (end_of_buffer_offset_ r)
    (initial_offset_ r) (resyncing_ r) (reports_ r).

Definition set_eof (r : Reader) : Reader :=
  mkReader (file_ r) (checksum_ r) (buffer_ r) true (last_record_offset_ r) (end_of_buffer_offset_ r)
    (initial_offset_ r) (resyncing_ r) (reports_ r).

Definition set_last_record (o : Z) (r : Reader) : Reader :=
  mkReader (file_ r) (checksum_ r) (buffer_ r) (eof_ r) o (end_of_buffer_offset_ r)
    (initial_offset_ r) (resyncing_ r) (reports_ r).

Definition set_resyncing (b : bool) (r : Reader) : Reader :=
  mkReader (file_ r) (checksum_ r) (buffer_ r) (eof_ r) (last_record_offset_ r) (end_of_buffer_offset_ r)
    (initial_offset_ r) b (reports_ r).

Definition ReportDrop (nbytes : Z) (reason : Status) (r : Reader) : Reader :=
  if initial_offset_ r <=? u64 (end_of_buffer_offset_ r - zlen (buffer_ r) - nbytes) then
    mkReader (file_ r) (checksum_ r) (buffer_ r) (eof_ r) (last_record_offset_ r) (end_of_buffer_offset_ r)
      (initial_offset_ r) (resyncing_ r) (reports_ r ++ [(nbytes, reason)])
  else r.

Definition ReportCorruption (nbytes : Z) (reason : bytes) (r : Reader) : Reader :=
  ReportDrop nbytes (Corruption reason) r.

(** [file_->Read(kBlockSize, &buffer_, backing_store_)] with the offset kept. *)
Definition read_block (r : Reader) : Status * Reader :=
  let '(s, b, f) := sf_Read file kBlockSize (file_ r) in
  (s, mkReader f (checksum_ r) b (eof_ r) (last_record_offset_ r) (u64 (end_of_buffer_offset_ r + zlen b))
        (initial_offset_ r) (resyncing_ r) (reports_ r)).

Definition SkipToInitialBlock (r : Reader) : bool * Reader :=
  let offset_in_block := initial_offset_ r mod kBlockSize in
  let block_start := initial_offset_ r - offset_in_block in
  let block_start := if kBlockSize - 6 <? offset_in_block then block_start + kBlockSize else block_start in
  let set_end f := mkReader f (checksum_ r) (buffer_ r) (eof_ r) (last_record_offset_ r) block_start
    (initial_offset_ r) (resyncing_ r) (reports_ r) in
  if 0 <? block_start then
    let '(s, f) := sf_Skip file block_start (file_ r) in
    if negb (ok s) then (false, ReportDrop block_start s (set_end f)) else (true, set_end f)
  else (true, set_end (file_ r)).

(** A record at the front of a buffer that holds at least a header: its type,
    and the fragment when one is returned. *)
Definition parse_record (fragment : bytes) (r : Reader) : Z * bytes * Reader :=
  let header := buffer_ r in
  let a := Z.land (uc header 4) 0xff in
  let b := Z.land (uc header 5) 0xff in
  let type := u32 (schar (nth 6 header x00)) in
  let length := Z.lor a (Z.shiftl b 8) in
  if zlen (buffer_ r) <? kHeaderSize + length then
    let drop_size := zlen (buffer_ r) in
    let r := set_buffer [] r in
    if negb (eof_ r) then (kBadRecord, fragment, ReportCorruption drop_size (lit "bad record length") r)
    else (kEof, fragment, r)
  else if (type =? kZeroType) && (length =? 0) then (kBadRecord, fragment, set_buffer [] r)
  else if checksum_ r &&
      negb (Value (take (Z.to_nat (1 + length)) (drop 6 header)) =? Unmask (DecodeFixed32 header)) then
    let drop_size := zlen (buffer_ r) in
    (kBadRecord, fragment, ReportCorruption drop_size (lit "checksum mismatch") (set_buffer [] r))
  else
    let r := set_buffer (drop (Z.to_nat (kHeaderSize + length)) (buffer_ r)) r in
    if u64 (end_of_buffer_offset_ r - zlen (buffer_ r) - kHeaderSize - length) <? initial_offset_ r
    then (kBadRecord, [], r)
    else (type, take (Z.to_nat length) (drop (Z.to_nat kHeaderSize) header), r).

(** The loop reads at most one block: a short read sets [eof_]. *)
Fixpoint ReadPhysicalRecord_loop (fuel : nat) (fragment : bytes) (r : Reader) : option (Z * bytes * Reader) :=
  match fuel with
  | O => None
  | S fuel =>
      if zlen (buffer_ r) <? kHeaderSize then
        if negb (eof_ r) then
          let '(status, r) := read_block (set_buffer [] r) in
          if negb (ok status) then
            Some (kEof, fragment, set_eof (ReportDrop kBlockSize status (set_buffer [] r)))
          else
            let r := if zlen (buffer_ r) <? kBlockSize then set_eof r else r in
            ReadPhysicalRecord_loop fuel fragment r
        else Some (kEof, fragment, set_buffer [] r)
      else Some (parse_record fragment r)
  end.

Definition ReadPhysicalRecord (fragment : bytes) (r : Reader) : option (Z * bytes * Reader) :=
  ReadPhysicalRecord_loop 2 fragment r.

(** The locals of [ReadRecord]. *)
Record locals := mkLocals {
  in_fragmented_record : bool;
  scratch : bytes;
  prospective_record_offset : Z;
  fragment_ : bytes
}.

(** What one pass of the loop does: return, or go on. *)
Inductive outcome :=
| Return (record : option bytes) (r : Reader)
| Continue (l : locals) (r : Reader).

Definition dispatch (record_type physical_record_offset : Z) (l : locals) (r : Reader) : outcome :=
  let frag := fragment_ l in
  if record_type =? kFullType then
    let r := if in_fragmented_record l && negb (length (scratch l) =? 0)%nat
      then ReportCorruption (zlen (scratch l)) (lit "partial record without end(1)") r else r in
    Return (Some frag) (set_last_record physical_record_offset r)
  else if record_type =? kFirstType then
    let r := if in_fragmented_record l && negb (length (scratch l) =? 0)%nat
      then ReportCorruption (zlen (scratch l)) (lit "partial record without end(2)") r else r in
    Continue (mkLocals true frag physical_record_offset frag) r
  else if record_type =? kMiddleType then
    if negb (in_fragmented_record l) then
      Continue l (ReportCorruption (zlen frag) (lit "missing start of fragmented record(1)") r)
    else Continue (mkLocals true (scratch l ++ frag) (prospective_record_offset l) frag) r
  else if record_type =? kLastType then
    if negb (in_fragmented_record l) then
      Continue l (ReportCorruption (zlen frag) (lit "missing start of fragmented record(2)") r)
    else Return (Some (scratch l ++ frag)) (set_last_record (prospective_record_offset l) r)
  else if record_type =? kEof then Return None r
  else if record_type =? kBadRecord then
    if in_fragmented_record l then
      Continue (mkLocals false [] (prospective_record_offset l) frag)
        (ReportCorruption (zlen (scratch l)) (lit "error in middle of record") r)
    else Continue l r
  else
    Continue (mkLocals false [] (prospective_record_offset l) frag)
      (ReportCorruption (zlen frag + if in_fragmented_record l then zlen (scratch l) else 0)
        (lit "unknown record type " ++ NumberToString record_type) r).

Fixpoint ReadRecord_loop (fuel : nat) (l : locals) (r : Reader) : option (option bytes * Reader) :=
  match fuel with
  | O => None
  | S fuel =>
      match ReadPhysicalRecord (fragment_ l) r with
      | None => None
      | Some (record_type, frag, r) =>
          let l := mkLocals (in_fragmented_record l) (scratch l) (prospective_record_offset l) frag in
          let offset := u64 (end_of_buffer_offset_ r - zlen (buffer_ r) - kHeaderSize - zlen frag) in
          if resyncing_ r && (record_type =? kMiddleType) then ReadRecord_loop fuel l r
          else if resyncing_ r && (record_type =? kLastType) then
            ReadRecord_loop fuel l (set_resyncing false r)
          else
            let r := if resyncing_ r then set_resyncing false r else r in
            match dispatch record_type offset l r with
            | Return record r => Some (record, r)
            | Continue l r => ReadRecord_loop fuel l r
            end
      end
  end.

(** [ReadRecord]: the record when it returns true. *)
Definition ReadRecord (fuel : nat) (r : Reader) : option (option bytes * Reader) :=
  let start := ReadRecord_loop fuel (mkLocals false [] 0 []) in
  if last_record_offset_ r <? initial_offset_ r then
    let '(found, r) := SkipToInitialBlock r in
    if negb found then Some (None, r) else start r
  else start r.

(** A client's loop [while (reader.ReadRecord(&record, &scratch))]. *)
Fixpoint read_all (fuel : nat) (r : Reader) : option (list bytes * Reader) :=
  match fuel with
  | O => None
  | S fuel' =>
      match ReadRecord fuel r with
      | None => None
      | Some (None, r) => Some ([], r)
      | Some (Some record, r) =>
          match read_all fuel' r with
          | None => None
          | Some (records, r) => Some (record :: records, r)
          end
      end
  end.

End Reader.

Arguments Reader : clear implicits.

(** ** Files in memory *)

(** Appending records to a file, while all is well. *)
Definition write_step (w : option (Writer bytes)) (record : bytes) : option (Writer bytes) :=
  match w with
  | Some w =>
      match AddRecord MemWritable record w with
      | Some (s, w) => if ok s then Some w else None
      | None => None
      end
  | None => None
  end.

Definition write_all (records : list bytes) : option (Writer bytes) :=
  fold_left write_step records (Some (new_Writer [])).

(** ** Physical records *)

Definition physical (t : Z) (payload : bytes) : bytes := record_header t payload ++ payload.

Lemma record_header_length t p : length (record_header t p) = 7%nat.
Proof. unfold record_header. rewrite length_app, EncodeFixed32_length. done. Qed.

Lemma physical_zlen t p : zlen (physical t p) = kHeaderSize + zlen p.
Proof. unfold physical. rewrite zlen_app. unfold zlen at 1. by rewrite record_header_length. Qed.

(** The reader at block offset [off] with the bytes [R] ahead of it, nothing
    reported so far. *)
Record rd_at (off : Z) (R : bytes) (r : Reader bytes) : Prop := {
  at_off : 0 <= off <= kBlockSize;
  at_buffer : buffer_ r = take (Z.to_nat (kBlockSize - off)) R;
  at_file : file_ r = drop (Z.to_nat (kBlockSize - off)) R;
  at_eof : eof_ r = (zlen R <? kBlockSize - off);
  at_initial : initial_offset_ r = 0;
  at_resync : resyncing_ r = false;
  at_reports : reports_ r = []
}.

Lemma zlen_take {A} (n : Z) (l : list A) : 0 <= n -> zlen (take (Z.to_nat n) l) = Z.min n (zlen l).
Proof. intros Hn. unfold zlen. rewrite length_take. lia. Qed.

Lemma zlen_drop {A} (n : Z) (l : list A) : 0 <= n -> zlen (drop (Z.to_nat n) l) = Z.max 0 (zlen l - n).
Proof. intros Hn. unfold zlen. rewrite length_drop. lia. Qed.

Lemma kBlockSize_val : kBlockSize = 32768.
Proof. reflexivity. Qed.

(** The header fields of a complete record in front of the buffer. *)
Lemma header_fields t p rest : 1 <= t <= 4 -> zlen p <= kBlockSize ->
  let b := physical t p ++ rest in
  Z.lor (Z.land (uc b 4) 0xff) (Z.shiftl (Z.land (uc b 5) 0xff) 8) = zlen p /\
  u32 (schar (nth 6 b x00)) = t /\
  Value (take (Z.to_nat (1 + zlen p)) (drop 6 b)) = Unmask (DecodeFixed32 b) /\
  take (Z.to_nat (zlen p)) (drop (Z.to_nat kHeaderSize) b) = p /\
  drop (Z.to_nat (kHeaderSize + zlen p)) b = rest.
Proof.
  intros Ht Hp. rewrite kBlockSize_val in Hp. pose proof (zlen_nonneg p). cbv zeta.
  assert (Eb : physical t p ++ rest = EncodeFixed32 (Mask (Extend (type_crc_ t) p)) ++
    [z2b (Z.land (zlen p) 0xff); z2b (Z.shiftr (zlen p) 8); z2b t] ++ p ++ rest).
  { unfold physical, record_header. by rewrite <- !app_assoc. }
  pose proof (EncodeFixed32_length (Mask (Extend (type_crc_ t) p))) as Hl.
  assert (Hnth : forall i, nth (4 + i) (physical t p ++ rest) x00
    = nth i ([z2b (Z.land (zlen p) 0xff); z2b (Z.shiftr (zlen p) 8); z2b t] ++ p ++ rest) x00).
  { intros i. rewrite Eb, app_nth2 by lia. f_equal. lia. }
  pose proof (Hnth 0%nat) as N4. pose proof (Hnth 1%nat) as N5. pose proof (Hnth 2%nat) as N6.
  cbn [Nat.add app nth] in N4, N5, N6. unfold uc. rewrite N4, N5, N6. clear Hnth N4 N5 N6.
  change 0xff with (2 ^ 8 - 1). rewrite !land_ones_mod, !b2z_z2b, Z.shiftr_div_pow2 by lia.
  change 256 with (2 ^ 8). rewrite !Z.mod_mod by lia.
  assert (Hq : 0 <= zlen p / 2 ^ 8 < 2 ^ 8) by (split; [apply Z.div_pos; lia|apply Z.div_lt_upper_bound; lia]).
  rewrite (Z.mod_small (zlen p / 2 ^ 8)) by lia. repeat split.
  - rewrite Z.shiftl_mul_pow2 by lia. pose proof (Z.mod_pos_bound (zlen p) (2 ^ 8) ltac:(lia)).
    rewrite lor_add_disjoint by lia. pose proof (Z.div_mod (zlen p) (2 ^ 8) ltac:(lia)). lia.
  - unfold schar. rewrite b2z_small by lia. destruct (Z.ltb_spec t 128); [|lia]. apply u32_small. lia.
  - replace (drop 6 (physical t p ++ rest)) with ((z2b t :: p) ++ rest).
    + replace (Z.to_nat (1 + zlen p)) with (length (z2b t :: p)) by (cbn; unfold zlen; lia).
      rewrite take_app_length, Eb, DecodeFixed32_app, u32_small by apply Mask_fits.
      rewrite Unmask_Mask by (apply Extend_fits, Value_fits). unfold type_crc_. by rewrite Value_app.
    + rewrite Eb. replace 6%nat with (length (EncodeFixed32 (Mask (Extend (type_crc_ t) p))) + 2)%nat
        by (by rewrite Hl). rewrite <- drop_drop, drop_app_length. done.
  - unfold physical. rewrite <- app_assoc, drop_app_length' by (by rewrite record_header_length).
    rewrite to_nat_zlen. apply take_app_length.
  - apply drop_app_length'. pose proof (physical_zlen t p) as E. unfold zlen in *. unfold kHeaderSize in *. lia.
Qed.

Lemma take_app_Z {A} (n : Z) (a b : list A) : zlen a <= n ->
  take (Z.to_nat n) (a ++ b) = a ++ take (Z.to_nat (n - zlen a)) b.
Proof.
  intros Hn. rewrite take_app_ge by (unfold zlen in Hn; lia). do 2 f_equal. unfold zlen in *. lia.
Qed.

Lemma drop_app_Z {A} (n : Z) (a b : list A) : zlen a <= n ->
  drop (Z.to_nat n) (a ++ b) = drop (Z.to_nat (n - zlen a)) b.
Proof.
  intros Hn. rewrite drop_app_ge by (unfold zlen in Hn; lia). f_equal. unfold zlen in *. lia.
Qed.

Lemma u64_not_neg z : (u64 z <? 0) = false.
Proof. unfold u64. pose proof (Z.mod_pos_bound z (2 ^ 64) ltac:(lia)). by destruct (Z.ltb_spec (z mod 2 ^ 64) 0); [lia|]. Qed.

(** A complete record that fits its block is returned. *)
Lemma parse_complete frag t p R off r : 1 <= t <= 4 -> off + kHeaderSize + zlen p <= kBlockSize ->
  rd_at off (physical t p ++ R) r ->
  (zlen (buffer_ r) <? kHeaderSize) = false /\
  exists r', parse_record frag r = (t, p, r') /\ rd_at (off + kHeaderSize + zlen p) R r'.
Proof.
  intros Ht Hfit [Hoff Hb Hf He Hi Hrs Hrp]. pose proof (zlen_nonneg p). pose proof (zlen_nonneg R).
  pose proof (physical_zlen t p) as Hpl. assert (Hk : kHeaderSize = 7) by done.
  rewrite take_app_Z in Hb by lia. set (rest := take _ R) in Hb.
  pose proof (zlen_nonneg rest).
  assert (Hbl : zlen (buffer_ r) = kHeaderSize + zlen p + zlen rest) by (rewrite Hb, zlen_app; lia).
  split; [destruct (Z.ltb_spec (zlen (buffer_ r)) kHeaderSize); [lia|done]|].
  destruct (header_fields t p rest Ht ltac:(lia)) as (E1 & E2 & E3 & E4 & E5). rewrite <- Hb in E1, E2, E3, E4, E5.
  unfold parse_record. rewrite E1, E2. destruct (Z.ltb_spec (zlen (buffer_ r)) (kHeaderSize + zlen p)); [lia|].
  destruct (Z.eqb_spec t kZeroType) as [Hz|_]; [unfold kZeroType in Hz; lia|]. cbn [andb].
  rewrite E3, Z.eqb_refl, andb_false_r. rewrite E5, E4.
  cbn [set_buffer initial_offset_ end_of_buffer_offset_ buffer_]. rewrite Hi, u64_not_neg.
  eexists. split; [done|]. rewrite zlen_app, Hpl in He. split; cbn; try done.
  - lia.
  - unfold rest. do 2 f_equal. lia.
  - rewrite Hf, drop_app_Z by lia. do 2 f_equal. lia.
  - rewrite He. zcases; lia || done.
Qed.

(** A truncated record at the end of the file is dropped silently. *)
Lemma parse_truncated frag t p k off r : 1 <= t <= 4 -> off + kHeaderSize + zlen p <= kBlockSize ->
  rd_at off (take k (physical t p)) r -> (k < length (physical t p))%nat ->
  eof_ r = true /\ ((zlen (buffer_ r) <? kHeaderSize) = false ->
    exists r', parse_record frag r = (kEof, frag, r') /\ reports_ r' = []).
Proof.
  intros Ht Hfit [Hoff Hb Hf He Hi Hrs Hrp] Hk. pose proof (physical_zlen t p) as Hpl.
  pose proof (zlen_nonneg p). assert (Hh : kHeaderSize = 7) by done.
  assert (Hlen : zlen (take k (physical t p)) = Z.of_nat k) by (unfold zlen; rewrite length_take; lia).
  assert (Hkz : Z.of_nat k < kHeaderSize + zlen p) by (rewrite <- Hpl; unfold zlen; lia).
  rewrite take_ge in Hb by (rewrite length_take; lia).
  rewrite Hlen in He. destruct (Z.ltb_spec (Z.of_nat k) (kBlockSize - off)); [|lia]. split; [done|].
  intros H7. apply Z.ltb_ge in H7. rewrite Hb, Hlen in H7.
  assert (Hhead : forall i, (i < 7)%nat -> nth i (buffer_ r) x00 = nth i (physical t p ++ []) x00).
  { intros i Hlt. rewrite Hb, app_nil_r. rewrite <- (take_drop k (physical t p)) at 2.
    rewrite app_nth1; [done|]. rewrite length_take. lia. }
  destruct (header_fields t p [] Ht ltac:(lia)) as (E1 & _). unfold uc in E1.
  rewrite <- !Hhead in E1 by lia. unfold parse_record, uc. rewrite E1, Hb, Hlen.
  destruct (Z.ltb_spec (Z.of_nat k) (kHeaderSize + zlen p)); [|lia].
  cbn [set_buffer eof_]. rewrite He. cbn [negb]. by eexists.
Qed.

(** In the last bytes of a block only padding is left: the next block is read. *)
Lemma skip_trailer frag n R off r : kBlockSize - off < kHeaderSize ->
  rd_at off (replicate (Z.to_nat (kBlockSize - off)) x00 ++ R) r ->
  exists r', ReadPhysicalRecord_loop MemSequential (S n) frag r
             = ReadPhysicalRecord_loop MemSequential n frag r' /\ rd_at 0 R r'.
Proof.
  intros Hlt [Hoff Hb Hf He Hi Hrs Hrp]. pose proof (zlen_nonneg R). assert (Hh : kHeaderSize = 7) by done.
  assert (Hpad : zlen (replicate (Z.to_nat (kBlockSize - off)) x00) = kBlockSize - off)
    by (unfold zlen; rewrite length_replicate; lia).
  rewrite take_app_Z, Hpad, Z.sub_diag, app_nil_r in Hb by lia. rewrite drop_app_Z, Hpad, Z.sub_diag in Hf by lia.
  change (drop (Z.to_nat 0) R) with R in Hf. rewrite zlen_app, Hpad in He.
  destruct (Z.ltb_spec (kBlockSize - off + zlen R) (kBlockSize - off)); [lia|].
  cbn [ReadPhysicalRecord_loop]. rewrite Hb, Hpad. destruct (Z.ltb_spec (kBlockSize - off) kHeaderSize); [|lia].
  rewrite He. cbn [negb]. unfold read_block. cbn [MemSequential sf_Read set_buffer file_].
  cbn [negb ok Status_OK]. rewrite Hf. eexists. split; [reflexivity|].
  assert (Hr : rd_at 0 R (mkReader (drop (Z.to_nat kBlockSize) R) (checksum_ r) (take (Z.to_nat kBlockSize) R)
    (zlen (take (Z.to_nat kBlockSize) R) <? kBlockSize) (last_record_offset_ r)
    (u64 (end_of_buffer_offset_ r + zlen (take (Z.to_nat kBlockSize) R))) (initial_offset_ r) (resyncing_ r) (reports_ r))).
  { split; cbn; try done. rewrite zlen_take, Z.sub_0_r by done. zcases; lia || done. }
  cbn [buffer_ eof_ last_record_offset_ end_of_buffer_offset_ initial_offset_ resyncing_ reports_ checksum_ set_eof file_].
  destruct (zlen (take (Z.to_nat kBlockSize) R) <? kBlockSize) eqn:E; [exact Hr|].
  rewrite <- He in Hr. exact Hr.
Qed.

(** ** Writing to memory *)

Definition start_off (off : Z) : Z := if kBlockSize - off <? kHeaderSize then 0 else off.
Definition trailer (off : Z) : bytes :=
  if kBlockSize - off <? kHeaderSize then replicate (Z.to_nat (kBlockSize - off)) x00 else [].

(** The payload of the fragment emitted at [off] for [data]. *)
Definition fragment_len (off : Z) (data : bytes) : Z :=
  Z.min (zlen data) (kBlockSize - start_off off - kHeaderSize).

Definition fragment_type (begin : bool) (off : Z) (data : bytes) : Z :=
  let is_end := zlen data =? fragment_len off data in
  if begin && is_end then kFullType else if begin then kFirstType else if is_end then kLastType else kMiddleType.

Lemma start_off_range off : 0 <= off <= kBlockSize -> 0 <= start_off off <= kBlockSize - kHeaderSize.
Proof. unfold start_off. rewrite kBlockSize_val. unfold kHeaderSize. zcases; lia. Qed.

Lemma fragment_type_range begin off data : 1 <= fragment_type begin off data <= 4.
Proof. unfold fragment_type. repeat case_match; vm_compute; split; congruence. Qed.

Lemma fragment_len_range off data : 0 <= off <= kBlockSize ->
  0 <= fragment_len off data <= zlen data /\ start_off off + kHeaderSize + fragment_len off data <= kBlockSize.
Proof.
  intros Hoff. pose proof (start_off_range off Hoff). pose proof (zlen_nonneg data). unfold fragment_len. lia.
Qed.

Lemma AddRecord_step_mem begin data d off : 0 <= off <= kBlockSize ->
  AddRecord_step MemWritable begin data (mkWriter d off)
  = (Status_OK, drop (Z.to_nat (fragment_len off data)) data,
     mkWriter (d ++ trailer off ++ physical (fragment_type begin off data) (take (Z.to_nat (fragment_len off data)) data))
       (start_off off + kHeaderSize + fragment_len off data)).
Proof.
  intros Hoff. pose proof (fragment_len_range off data Hoff) as [Hfl _].
  unfold AddRecord_step. cbn [block_offset_ dest_].
  set (w1 := if kBlockSize - off <? kHeaderSize then _ else _).
  assert (Hw : w1 = mkWriter (d ++ trailer off) (start_off off)).
  { unfold w1, trailer, start_off. destruct (kBlockSize - off <? kHeaderSize); [|by rewrite app_nil_r].
    cbn. destruct (Z.ltb_spec 0 (kBlockSize - off)); [done|].
    replace (Z.to_nat (kBlockSize - off)) with 0%nat by lia. cbn. by rewrite app_nil_r. }
  rewrite Hw. cbn [block_offset_ dest_].
  replace (if zlen data <? kBlockSize - start_off off - kHeaderSize then zlen data
    else kBlockSize - start_off off - kHeaderSize) with (fragment_len off data)
    by (unfold fragment_len; zcases; lia).
  fold (fragment_type begin off data). unfold EmitPhysicalRecord. cbn [MemWritable wf_Append wf_Flush ok Status_OK dest_ block_offset_].
  unfold physical. rewrite zlen_take by lia. rewrite Z.min_l by lia. rewrite <- !app_assoc. do 2 f_equal. lia.
Qed.

(** ** Reading one fragment *)

Lemma start_off_fit off : (kBlockSize - off <? kHeaderSize) = false -> start_off off = off /\ trailer off = [].
Proof. intros E. unfold start_off, trailer. by rewrite E. Qed.

Lemma start_off_trailer off : (kBlockSize - off <? kHeaderSize) = true ->
  start_off off = 0 /\ trailer off = replicate (Z.to_nat (kBlockSize - off)) x00 /\ kBlockSize - off < kHeaderSize.
Proof. intros E. unfold start_off, trailer. rewrite E. apply Z.ltb_lt in E. done. Qed.

Lemma read_fragment frag t p R off r : 1 <= t <= 4 -> start_off off + kHeaderSize + zlen p <= kBlockSize ->
  rd_at off (trailer off ++ physical t p ++ R) r ->
  exists r', ReadPhysicalRecord MemSequential frag r = Some (t, p, r') /\
    rd_at (start_off off + kHeaderSize + zlen p) R r'.
Proof.
  intros Ht Hfit Hr. unfold ReadPhysicalRecord.
  assert (Hgo : forall n off r, off + kHeaderSize + zlen p <= kBlockSize -> rd_at off (physical t p ++ R) r ->
    exists r', ReadPhysicalRecord_loop MemSequential (S n) frag r = Some (t, p, r') /\
      rd_at (off + kHeaderSize + zlen p) R r').
  { intros n off' r0 Hf' Hr0. destruct (parse_complete frag t p R off' r0 Ht Hf' Hr0) as [Hb (r' & E & Hr')].
    exists r'. cbn [ReadPhysicalRecord_loop]. by rewrite Hb, E. }
  destruct (kBlockSize - off <? kHeaderSize) eqn:E.
  - destruct (start_off_trailer off E) as (-> & Etr & Hlt). rewrite Etr in Hr.
    destruct (skip_trailer frag 1 (physical t p ++ R) off r Hlt Hr) as (r1 & -> & Hr1).
    destruct (Hgo 0%nat 0 r1 ltac:(destruct (start_off_trailer off E) as (Es & _ & _); lia) Hr1) as (r' & E' & Hr').
    by exists r'.
  - destruct (start_off_fit off E) as [Es Etr]. rewrite Es in *. rewrite Etr in Hr. cbn [app] in Hr. by apply Hgo.
Qed.

Lemma read_truncated frag t p k off r : 1 <= t <= 4 -> start_off off + kHeaderSize + zlen p <= kBlockSize ->
  rd_at off (take k (trailer off ++ physical t p)) r -> (k < length (trailer off ++ physical t p))%nat ->
  exists frag' r', ReadPhysicalRecord MemSequential frag r = Some (kEof, frag', r') /\ reports_ r' = [] /\
    resyncing_ r' = false.
Proof.
  intros Ht Hfit Hr Hk. unfold ReadPhysicalRecord.
  assert (Hgo : forall n off k r, off + kHeaderSize + zlen p <= kBlockSize ->
    rd_at off (take k (physical t p)) r -> (k < length (physical t p))%nat ->
    exists r', ReadPhysicalRecord_loop MemSequential (S n) frag r = Some (kEof, frag, r') /\ reports_ r' = [] /\
      resyncing_ r' = false).
  { intros n off' k' r0 Hf' Hr0 Hk'.
    destruct (parse_truncated frag t p k' off' r0 Ht Hf' Hr0 Hk') as [He Hp]. cbn [ReadPhysicalRecord_loop].
    destruct (zlen (buffer_ r0) <? kHeaderSize).
    - rewrite He. cbn [negb]. eexists. split; [done|]. split; [apply (at_reports _ _ _ Hr0)|apply (at_resync _ _ _ Hr0)].
    - destruct (Hp eq_refl) as (r' & E & Hrep). exists r'. rewrite E. split; [done|]. split; [done|].
      unfold parse_record in E. pose proof (at_resync _ _ _ Hr0). repeat case_match; by inversion E; subst. }
  destruct (kBlockSize - off <? kHeaderSize) eqn:E.
  - destruct (start_off_trailer off E) as (Es & Etr & Hlt).
    pose proof (at_off _ _ _ Hr) as Hoff.
    assert (Htl : length (trailer off) = Z.to_nat (kBlockSize - off)) by (by rewrite Etr, length_replicate).
    destruct (decide (k < length (trailer off))%nat) as [Hshort|Hlong].
    + rewrite take_app_le in Hr by lia. destruct Hr as [_ Hb Hf He Hi Hrs Hrp].
      assert (Hzl : zlen (take k (trailer off)) = Z.of_nat k) by (unfold zlen; rewrite length_take; lia).
      rewrite take_ge in Hb by (rewrite length_take; lia). rewrite Hzl in He.
      destruct (Z.ltb_spec (Z.of_nat k) (kBlockSize - off)); [|lia].
      cbn [ReadPhysicalRecord_loop]. rewrite Hb, Hzl, He. destruct (Z.ltb_spec (Z.of_nat k) kHeaderSize); [|lia].
      cbn [negb]. eexists _, _. by split.
    + rewrite take_app_ge, Etr in Hr by lia. rewrite length_app in Hk.
      destruct (skip_trailer frag 1 _ off r Hlt Hr) as (r1 & -> & Hr1).
      destruct (Hgo 0%nat 0 _ r1 ltac:(lia) Hr1) as (r' & E' & Hr'); [rewrite length_replicate; lia|].
      by exists frag, r'.
  - destruct (start_off_fit off E) as [Es Etr]. rewrite Es in *. rewrite Etr in Hr, Hk. cbn [app] in Hr, Hk.
    destruct (Hgo 1%nat off k r Hfit Hr Hk) as (r' & E' & Hr'). by exists frag, r'.
Qed.

(** ** Reading one record *)

(** The bytes [out], written at block offset [off] for [data], are read back
    as the rest of the record under assembly. *)
Definition reads_back (begin : bool) (data : bytes) (off : Z) (out : bytes) (off' : Z) : Prop :=
  forall R r l fuel, rd_at off (out ++ R) r -> in_fragmented_record l = negb begin -> (length out <= fuel)%nat ->
    exists r', ReadRecord_loop MemSequential fuel l r
      = Some (Some ((if begin then [] else scratch l) ++ data), r') /\ rd_at off' R r'.

(** Cut short, they are taken for the end of the file. *)
Definition cut_is_eof (begin : bool) (off : Z) (out : bytes) : Prop :=
  forall k r l fuel, rd_at off (take k out) r -> in_fragmented_record l = negb begin ->
    (k < length out)%nat -> (k < fuel)%nat ->
    exists r', ReadRecord_loop MemSequential fuel l r = Some (None, r') /\ reports_ r' = [].

Lemma rd_at_last off R r o : rd_at off R r -> rd_at off R (set_last_record o r).
Proof. intros []. by split. Qed.

Lemma physical_length t p : length (physical t p) = (7 + length p)%nat.
Proof. unfold physical. by rewrite length_app, record_header_length. Qed.

(** One fragment: the loop either returns the record or goes on with a longer
    scratch. *)
Lemma fragment_step begin data off R r l fuel : 0 <= off <= kBlockSize ->
  let p := take (Z.to_nat (fragment_len off data)) data in
  rd_at off (trailer off ++ physical (fragment_type begin off data) p ++ R) r ->
  in_fragmented_record l = negb begin ->
  exists r', rd_at (start_off off + kHeaderSize + fragment_len off data) R r' /\
    if zlen data =? fragment_len off data
    then ReadRecord_loop MemSequential (S fuel) l r = Some (Some ((if begin then [] else scratch l) ++ data), r')
    else exists o, ReadRecord_loop MemSequential (S fuel) l r
      = ReadRecord_loop MemSequential fuel (mkLocals true ((if begin then [] else scratch l) ++ p) o p) r'.
Proof.
  intros Hoff p Hr Hl. pose proof (fragment_len_range off data Hoff) as [Hfl Hfit].
  assert (Hpl : zlen p = fragment_len off data) by (unfold p; rewrite zlen_take by lia; lia).
  pose proof (fragment_type_range begin off data) as Ht.
  destruct (read_fragment (fragment_ l) _ p R off r Ht ltac:(by rewrite Hpl) Hr) as (r1 & E & Hr1).
  rewrite Hpl in Hr1. cbn [ReadRecord_loop]. rewrite E, (at_resync _ _ _ Hr1). cbn [andb].
  set (o := u64 _). unfold fragment_type, dispatch. cbn [in_fragmented_record scratch fragment_ prospective_record_offset].
  rewrite Hl. destruct (Z.eqb_spec (zlen data) (fragment_len off data)) as [Hend|Hmid].
  - assert (Hp : p = data) by (unfold p; rewrite <- Hend, to_nat_zlen; apply firstn_all).
    destruct begin; cbn [andb negb]; eexists; (split; [by apply rd_at_last|]); rewrite Hp; reflexivity.
  - destruct begin; cbn [andb negb]; exists r1; (split; [done|]); eexists; reflexivity.
Qed.

Lemma fragment_cut begin data off k r l fuel : 0 <= off <= kBlockSize ->
  let p := take (Z.to_nat (fragment_len off data)) data in
  rd_at off (take k (trailer off ++ physical (fragment_type begin off data) p)) r ->
  (k < length (trailer off ++ physical (fragment_type begin off data) p))%nat ->
  exists r', ReadRecord_loop MemSequential (S fuel) l r = Some (None, r') /\ reports_ r' = [].
Proof.
  intros Hoff p Hr Hk. pose proof (fragment_len_range off data Hoff) as [Hfl Hfit].
  assert (Hpl : zlen p = fragment_len off data) by (unfold p; rewrite zlen_take by lia; lia).
  pose proof (fragment_type_range begin off data) as Ht.
  destruct (read_truncated (fragment_ l) _ p k off r Ht ltac:(by rewrite Hpl) Hr Hk) as (f' & r' & E & Hrep & Hrs).
  exists r'. cbn [ReadRecord_loop]. rewrite E, Hrs. cbn [andb]. done.
Qed.

(** Fuel the writer needs at [off]: an empty fragment may come first. *)
Definition writer_fuel (off : Z) (data : bytes) : nat :=
  (2 * length data + if (kBlockSize - start_off off - kHeaderSize =? 0)%Z then 2 else 1)%nat.

Lemma writer_fuel_step off data : 0 <= off <= kBlockSize -> zlen data <> fragment_len off data ->
  (writer_fuel (start_off off + kHeaderSize + fragment_len off data)
     (drop (Z.to_nat (fragment_len off data)) data) < writer_fuel off data)%nat.
Proof.
  intros Hoff Hne. pose proof (fragment_len_range off data Hoff) as [Hfl Hfit].
  unfold writer_fuel. rewrite length_drop. set (off2 := start_off off + kHeaderSize + _) in *.
  assert (Hfe : fragment_len off data = kBlockSize - start_off off - kHeaderSize) by (unfold fragment_len in *; lia).
  assert (Hs2 : start_off off2 = 0).
  { unfold start_off at 1, off2. rewrite Hfe. destruct (Z.ltb_spec (kBlockSize - (start_off off + kHeaderSize + (kBlockSize - start_off off - kHeaderSize))) kHeaderSize); [done|].
    unfold kHeaderSize in *. lia. }
  rewrite Hs2. change (kBlockSize - 0 - kHeaderSize =? 0) with false.
  unfold zlen in *. destruct (Z.eqb_spec (kBlockSize - start_off off - kHeaderSize) 0); lia.
Qed.

Lemma AddRecord_loop_mem fuel : forall begin data off, 0 <= off <= kBlockSize -> (writer_fuel off data <= fuel)%nat ->
  exists out off', 0 <= off' <= kBlockSize /\ (7 <= length out)%nat /\
    (forall d, AddRecord_loop MemWritable fuel begin data (mkWriter d off) = Some (Status_OK, mkWriter (d ++ out) off')) /\
    reads_back begin data off out off' /\ cut_is_eof begin off out.
Proof.
  induction fuel as [|fuel IH]; intros begin data off Hoff Hf.
  { unfold writer_fuel in Hf. destruct (_ =? 0); lia. }
  pose proof (fragment_len_range off data Hoff) as [Hfl Hfit]. pose proof (start_off_range off Hoff) as Hso.
  set (p := take (Z.to_nat (fragment_len off data)) data).
  set (rest := drop (Z.to_nat (fragment_len off data)) data).
  set (rec := trailer off ++ physical (fragment_type begin off data) p).
  set (off2 := start_off off + kHeaderSize + fragment_len off data).
  assert (Hoff2 : 0 <= off2 <= kBlockSize) by (unfold off2, kHeaderSize in *; lia).
  assert (Hrec : (7 <= length rec)%nat) by (unfold rec; rewrite length_app, physical_length; lia).
  assert (Hrl : zlen rest = zlen data - fragment_len off data) by (unfold rest; rewrite zlen_drop by lia; lia).
  assert (Hstep : forall d, AddRecord_loop MemWritable (S fuel) begin data (mkWriter d off)
    = if 0 <? zlen rest then AddRecord_loop MemWritable fuel false rest (mkWriter (d ++ rec) off2)
      else Some (Status_OK, mkWriter (d ++ rec) off2)).
  { intros d. cbn [AddRecord_loop]. rewrite AddRecord_step_mem by done. reflexivity. }
  destruct (decide (zlen data = fragment_len off data)) as [Hend|Hmid].
  - exists rec, off2. split; [done|]. split; [done|]. split; [|split].
    + intros d. rewrite Hstep. destruct (Z.ltb_spec 0 (zlen rest)); [lia|done].
    + intros R r l rf Hr Hl Hrf. destruct rf as [|rf]; [lia|]. unfold rec in Hr. rewrite <- app_assoc in Hr.
      destruct (fragment_step begin data off R r l rf Hoff Hr Hl) as (r' & Hr' & E).
      rewrite (proj2 (Z.eqb_eq _ _) Hend) in E. by exists r'.
    + intros k r l rf Hr Hl Hk Hrf. destruct rf as [|rf]; [lia|]. by apply (fragment_cut begin data off k).
  - pose proof (writer_fuel_step off data Hoff Hmid) as Hwf. fold rest off2 in Hwf.
    destruct (IH false rest off2 Hoff2 ltac:(lia)) as (out & off' & Hoff' & _ & Hw & Hrb & Hcut).
    exists (rec ++ out), off'. split; [done|]. split; [rewrite length_app; lia|]. split; [|split].
    + intros d. rewrite Hstep. destruct (Z.ltb_spec 0 (zlen rest)); [|lia]. by rewrite Hw, <- app_assoc.
    + intros R r l rf Hr Hl Hrf. rewrite length_app in Hrf. destruct rf as [|rf]; [lia|].
      unfold rec in Hr. rewrite <- !app_assoc in Hr.
      destruct (fragment_step begin data off (out ++ R) r l rf Hoff Hr Hl) as (r' & Hr' & E).
      rewrite (proj2 (Z.eqb_neq _ _) Hmid) in E. destruct E as [o E].
      destruct (Hrb R r' (mkLocals true ((if begin then [] else scratch l) ++ p) o p) rf Hr' eq_refl ltac:(lia))
        as (r'' & E'' & Hr''). exists r''. split; [|done]. etransitivity; [exact E|].
      etransitivity; [exact E''|]. cbn [scratch].
      rewrite <- app_assoc. unfold p, rest. by rewrite take_drop.
    + intros k r l rf Hr Hl Hk Hrf. destruct rf as [|rf]; [lia|].
      destruct (decide (k < length rec)%nat) as [Hshort|Hlong].
      * rewrite take_app_le in Hr by lia. by apply (fragment_cut begin data off k).
      * rewrite take_app_ge in Hr by lia. rewrite length_app in Hk. unfold rec in Hr at 1.
        rewrite <- !app_assoc in Hr.
        destruct (fragment_step begin data off (take (k - length rec) out) r l rf Hoff Hr Hl) as (r' & Hr' & E).
        rewrite (proj2 (Z.eqb_neq _ _) Hmid) in E. destruct E as [o E].
        destruct (Hcut (k - length rec)%nat r' (mkLocals true ((if begin then [] else scratch l) ++ p) o p) rf Hr'
          eq_refl ltac:(lia) ltac:(lia)) as (r'' & E'' & Hr''). exists r''. split; [|done].
        by etransitivity; [exact E|].
Qed.

(** ** Whole logs *)

Lemma ReadRecord_start off R r fuel : rd_at off R r ->
  exists r1, rd_at off R r1 /\ ReadRecord MemSequential fuel r
    = ReadRecord_loop MemSequential fuel (mkLocals false [] 0 []) r1.
Proof.
  intros Hr. unfold ReadRecord. destruct (last_record_offset_ r <? initial_offset_ r); [|by exists r].
  unfold SkipToInitialBlock. rewrite (at_initial _ _ _ Hr). change (0 mod kBlockSize) with 0.
  change (kBlockSize - 6 <? 0) with false. cbn [Z.sub Z.ltb Z.compare Z.opp Z.add negb].
  eexists. split; [|reflexivity]. destruct Hr. by split.
Qed.

Lemma read_end off r l fuel : rd_at off [] r ->
  exists r', ReadRecord_loop MemSequential (S fuel) l r = Some (None, r') /\ reports_ r' = [].
Proof.
  intros Hr. apply (fragment_cut true [] off 0); [apply (at_off _ _ _ Hr)|exact Hr|].
  rewrite length_app, physical_length. lia.
Qed.

Lemma AddRecord_mem off record : 0 <= off <= kBlockSize ->
  exists out off', 0 <= off' <= kBlockSize /\ (7 <= length out)%nat /\
    (forall d, AddRecord MemWritable record (mkWriter d off) = Some (Status_OK, mkWriter (d ++ out) off')) /\
    reads_back true record off out off' /\ cut_is_eof true off out.
Proof.
  intros Hoff. apply AddRecord_loop_mem; [done|]. unfold writer_fuel. destruct (_ =? 0); lia.
Qed.

Lemma log_records rs : forall off, 0 <= off <= kBlockSize ->
  exists outs, length outs = length rs /\
    (forall d i, exists off', fold_left write_step (take i rs) (Some (mkWriter d off))
      = Some (mkWriter (d ++ concat (take i outs)) off')) /\
    forall k r fuel, rd_at off (take k (concat outs)) r -> (k + 2 <= fuel)%nat ->
      exists j r', read_all MemSequential fuel r = Some (take j rs, r') /\ reports_ r' = [] /\
        forall i, (i <= length rs)%nat -> (length (concat (take i outs)) <= k)%nat -> (i <= j)%nat.
Proof.
  induction rs as [|rec rs IH]; intros off Hoff.
  - exists []. split; [done|]. split; [intros d i; exists off; rewrite !take_nil; cbn; by rewrite app_nil_r|].
    intros k r fuel Hr Hf. cbn [concat] in Hr. rewrite take_nil in Hr.
    destruct fuel as [|fuel]; [lia|]. cbn [read_all].
    destruct (ReadRecord_start off [] r (S fuel) Hr) as (r1 & Hr1 & ->).
    destruct (read_end off r1 (mkLocals false [] 0 []) fuel Hr1) as (r' & -> & Hrep).
    exists 0%nat, r'. split; [done|]. split; [done|]. intros i Hi _. cbn in Hi. lia.
  - destruct (AddRecord_mem off rec Hoff) as (out & off1 & Hoff1 & Hlen & Hw & Hrb & Hcut).
    destruct (IH off1 Hoff1) as (outs & Hlo & Hws & Hread).
    exists (out :: outs). split; [cbn; by rewrite Hlo|]. split.
    { intros d [|i]; cbn [take fold_left concat]; [exists off; by rewrite app_nil_r|].
      destruct (Hws (d ++ out) i) as [off' E]. exists off'. cbn [write_step]. rewrite Hw. cbn [ok Status_OK].
      by rewrite E, <- app_assoc. }
    intros k r fuel Hr Hf. cbn [concat] in Hr. destruct fuel as [|fuel]; [lia|]. cbn [read_all].
    destruct (decide (k < length out)%nat) as [Hshort|Hlong].
    + rewrite take_app_le in Hr by lia.
      destruct (ReadRecord_start off _ r (S fuel) Hr) as (r1 & Hr1 & ->).
      destruct (Hcut k r1 (mkLocals false [] 0 []) (S fuel) Hr1 eq_refl Hshort ltac:(lia)) as (r' & -> & Hrep).
      exists 0%nat, r'. split; [done|]. split; [done|]. intros i Hi Hk. destruct i as [|i]; [lia|].
      cbn [take concat] in Hk. rewrite length_app in Hk. lia.
    + rewrite take_app_ge in Hr by lia.
      destruct (ReadRecord_start off _ r (S fuel) Hr) as (r1 & Hr1 & ->).
      destruct (Hrb _ r1 (mkLocals false [] 0 []) (S fuel) Hr1 eq_refl ltac:(lia)) as (r2 & -> & Hr2).
      destruct (Hread (k - length out)%nat r2 fuel Hr2 ltac:(lia)) as (j & r' & -> & Hrep & Hj).
      exists (S j), r'. split; [done|]. split; [done|]. intros i Hi Hk. destruct i as [|i]; [lia|].
      cbn [take concat length] in Hk, Hi. rewrite length_app in Hk. specialize (Hj i ltac:(lia) ltac:(lia)). lia.
Qed.

(** A writer at the end of a block starts the next one. *)
Lemma AddRecord_block_end record d :
  AddRecord MemWritable record (mkWriter d 0) = AddRecord MemWritable record (mkWriter d kBlockSize).
Proof.
  unfold AddRecord. set (n := (2 * length record + 2)%nat). assert (Hn : (0 < n)%nat) by lia.
  destruct n as [|n]; [lia|]. cbn [AddRecord_loop].
  rewrite !AddRecord_step_mem by (rewrite kBlockSize_val; lia). reflexivity.
Qed.

(** A log of records, cut at any byte. *)
Lemma log_prefix_read rs checksum : exists w, write_all rs = Some w /\
  forall k fuel, (k + 2 <= fuel)%nat ->
    exists j r', read_all MemSequential fuel (new_Reader (take k (dest_ w)) checksum 0) = Some (take j rs, r') /\
      reports_ r' = [] /\
      forall i wi, (i <= length rs)%nat -> write_all (take i rs) = Some wi ->
        (length (dest_ wi) <= k)%nat -> (i <= j)%nat.
Proof.
  assert (H0 : 0 <= kBlockSize <= kBlockSize) by (rewrite kBlockSize_val; lia).
  destruct (log_records rs kBlockSize H0) as (outs & Hlo & Hw & Hread).
  assert (Hwa : forall i, exists off', write_all (take i rs) = Some (mkWriter (concat (take i outs)) off')).
  { intros i. destruct (Hw [] i) as [off' E]. unfold write_all, new_Writer.
    destruct rs as [|rec rs]; [rewrite take_nil in *; destruct outs; [|done]; rewrite take_nil; by exists 0|].
    destruct i as [|i]; [by exists 0|]. exists off'. cbn [take fold_left write_step] in *.
    by rewrite AddRecord_block_end. }
  destruct (Hwa (length rs)) as [off' E]. rewrite firstn_all, <- Hlo, firstn_all in E.
  eexists. split; [exact E|]. cbn [dest_]. intros k fuel Hf.
  destruct (Hread k (new_Reader (take k (concat outs)) checksum 0) fuel) as (j & r' & Er & Hrep & Hj); [|done|].
  - rewrite kBlockSize_val. split; try done. rewrite Z.sub_diag. cbn.
    pose proof (zlen_nonneg (take k (concat outs))). by destruct (Z.ltb_spec (zlen (take k (concat outs))) 0); [lia|].
  - exists j, r'. split; [done|]. split; [done|]. intros i wi Hi Hwi Hk.
    destruct (Hwa i) as [oi Ei]. rewrite Ei in Hwi. injection Hwi as <-. by apply Hj.
Qed.

(** ** Reports are only added *)

Section Reports.
Context {F : Type} (file : SequentialFile F).

Abbreviation grows r r' := (reports_ r `prefix_of` reports_ r').

Lemma ReportDrop_grows n s (r : Reader F) : grows r (ReportDrop n s r).
Proof. unfold ReportDrop. case_match; cbn; [by eexists|done]. Qed.

Lemma parse_record_grows frag (r : Reader F) : grows r (parse_record frag r).2.
Proof.
  unfold parse_record, ReportCorruption. repeat case_match; cbn [snd]; try done.
  all: match goal with |- context [ReportDrop ?n ?s ?r'] => apply (ReportDrop_grows n s r') end.
Qed.

Lemma ReadPhysicalRecord_grows fuel : forall frag (r : Reader F) t frag' r',
  ReadPhysicalRecord_loop file fuel frag r = Some (t, frag', r') -> grows r r'.
Proof.
  induction fuel as [|fuel IH]; intros frag r t frag' r'; [done|]. cbn [ReadPhysicalRecord_loop].
  destruct (zlen (buffer_ r) <? kHeaderSize).
  - destruct (negb (eof_ r)); [|by intros [= <- <- <-]].
    unfold read_block. destruct (sf_Read file kBlockSize _) as [[s b] f]. cbn [fst snd].
    destruct (negb (ok s)).
    + intros [= <- <- <-]. cbn. apply (ReportDrop_grows _ _ (mkReader _ _ _ _ _ _ _ _ _)).
    + intros H%IH. by destruct (_ <? kBlockSize) in H.
  - intros [= Hp]. pose proof (parse_record_grows frag r) as Hg. by rewrite Hp in Hg.
Qed.

Lemma dispatch_grows t o l (r : Reader F) :
  match dispatch t o l r with Return _ r' => grows r r' | Continue _ r' => grows r r' end.
Proof.
  unfold dispatch, ReportCorruption. repeat case_match; simplify_eq; cbn; try done;
    match goal with |- context [ReportDrop ?n ?s ?r'] => apply (ReportDrop_grows n s r') end.
Qed.

Lemma ReadRecord_loop_grows fuel : forall l (r : Reader F) x r',
  ReadRecord_loop file fuel l r = Some (x, r') -> grows r r'.
Proof.
  induction fuel as [|fuel IH]; intros l r x r'; [done|]. cbn [ReadRecord_loop].
  destruct (ReadPhysicalRecord file (fragment_ l) r) as [[[t frag] r1]|] eqn:E; [|done].
  apply ReadPhysicalRecord_grows in E.
  destruct (resyncing_ r1 && (t =? kMiddleType)); [intros H%IH; by etrans|].
  destruct (resyncing_ r1 && (t =? kLastType)); [intros H%IH; by etrans|].
  set (r2 := if resyncing_ r1 then set_resyncing false r1 else r1).
  assert (H2 : grows r r2) by (unfold r2; by destruct (resyncing_ r1)).
  match goal with |- context [dispatch ?a ?b ?c ?d] => pose proof (dispatch_grows a b c d) as Hd;
    destruct (dispatch a b c d) end.
  - intros [= <- <-]. by etrans.
  - intros H%IH. etrans; [exact H2|]. by etrans.
Qed.

Lemma ReadRecord_grows fuel (r : Reader F) x r' : ReadRecord file fuel r = Some (x, r') -> grows r r'.
Proof.
  unfold ReadRecord. destruct (_ <? _); [|apply ReadRecord_loop_grows].
  destruct (SkipToInitialBlock file r) as [found r1] eqn:E.
  assert (Hg : grows r r1).
  { revert E. unfold SkipToInitialBlock. case_match; [|by intros [= _ <-]].
    destruct (sf_Skip _ _ _) as [s f]. destruct (negb (ok s)); intros [= _ <-]; [|done].
    apply (ReportDrop_grows _ _ (mkReader _ _ _ _ _ _ _ _ _)). }
  destruct (negb found); [by intros [= _ <-]|]. intros H%ReadRecord_loop_grows. by etrans.
Qed.

(** A scan that ends without a report had none on the way. *)
Lemma read_all_step fuel (r r' : Reader F) records : read_all file (S fuel) r = Some (records, r') -> reports_ r' = [] ->
  reports_ r = [] /\
  match records with
  | [] => exists r1, ReadRecord file (S fuel) r = Some (None, r1) /\ reports_ r1 = []
  | rec :: rest => exists r1, ReadRecord file (S fuel) r = Some (Some rec, r1) /\ reports_ r1 = [] /\
                     read_all file fuel r1 = Some (rest, r')
  end.
Proof.
  assert (Hall : forall fuel (r : Reader F) records r', read_all file fuel r = Some (records, r') -> grows r r').
  { clear. induction fuel as [|fuel IH]; intros r records r'; [done|]. cbn [read_all].
    destruct (ReadRecord file (S fuel) r) as [[[rec|] r1]|] eqn:E; [| |done]; apply ReadRecord_grows in E.
    - destruct (read_all file fuel r1) as [[rs r2]|] eqn:E2; [|done]. intros [= _ <-]. etrans; [exact E|]. by eapply IH.
    - by intros [= _ <-]. }
  intros H Hr. pose proof (Hall _ _ _ _ H) as Hg. rewrite Hr in Hg. apply prefix_nil_inv in Hg. split; [done|].
  cbn [read_all] in H. destruct (ReadRecord file (S fuel) r) as [[[rec|] r1]|] eqn:E; [| |done].
  - destruct (read_all file fuel r1) as [[rs r2]|] eqn:E2; [|done]. injection H as <- <-.
    exists r1. split; [done|]. split; [|done]. specialize (Hall _ _ _ _ E2). rewrite Hr in Hall. by apply prefix_nil_inv in Hall.
  - injection H as <- <-. by exists r1.
Qed.

End Reports.

(** ** Writers on related files *)

Section Simulation.
Context {A B : Type} (fa : WritableFile A) (fb : WritableFile B) (R : A -> B -> Prop).
Context (append_sim : forall d a b, R a b ->
  (wf_Append fa d a).1 = (wf_Append fb d b).1 /\ R (wf_Append fa d a).2 (wf_Append fb d b).2).
Context (flush_sim : forall a b, R a b -> (wf_Flush fa a).1 = (wf_Flush fb b).1 /\ R (wf_Flush fa a).2 (wf_Flush fb b).2).

Definition writers_related (wa : Writer A) (wb : Writer B) : Prop :=
  R (dest_ wa) (dest_ wb) /\ block_offset_ wa = block_offset_ wb.

Lemma Emit_sim t p wa wb : writers_related wa wb ->
  (EmitPhysicalRecord fa t p wa).1 = (EmitPhysicalRecord fb t p wb).1 /\
  writers_related (EmitPhysicalRecord fa t p wa).2 (EmitPhysicalRecord fb t p wb).2.
Proof.
  intros [HR Ho]. unfold EmitPhysicalRecord.
  pose proof (append_sim (record_header t p) _ _ HR) as H1.
  destruct (wf_Append fa _ (dest_ wa)) as [s1 a1], (wf_Append fb _ (dest_ wb)) as [s1' b1]; cbn in H1.
  destruct H1 as [<- H1]. destruct (ok s1); [|by split; [|split; cbn; [|rewrite Ho]]].
  pose proof (append_sim p _ _ H1) as H2.
  destruct (wf_Append fa p a1) as [s2 a2], (wf_Append fb p b1) as [s2' b2]; cbn in H2.
  destruct H2 as [<- H2]. destruct (ok s2); [|by split; [|split; cbn; [|rewrite Ho]]].
  pose proof (flush_sim _ _ H2) as H3.
  destruct (wf_Flush fa a2) as [s3 a3], (wf_Flush fb b2) as [s3' b3]; cbn in H3.
  destruct H3 as [<- H3]. by split; [|split; cbn; [|rewrite Ho]].
Qed.

Lemma AddRecord_loop_sim fuel : forall begin data wa wb, writers_related wa wb ->
  match AddRecord_loop fa fuel begin data wa, AddRecord_loop fb fuel begin data wb with
  | Some (s, wa'), Some (s', wb') => s = s' /\ writers_related wa' wb'
  | None, None => True
  | _, _ => False
  end.
Proof.
  induction fuel as [|fuel IH]; intros begin data wa wb Hw; cbn [AddRecord_loop]; [done|].
  unfold AddRecord_step. pose proof Hw as [HR Ho]. rewrite Ho.
  set (pad := replicate _ x00).
  set (wa1 := if kBlockSize - block_offset_ wb <? kHeaderSize then
      mkWriter (if 0 <? kBlockSize - block_offset_ wb then (wf_Append fa pad (dest_ wa)).2 else dest_ wa) 0 else wa).
  set (wb1 := if kBlockSize - block_offset_ wb <? kHeaderSize then
      mkWriter (if 0 <? kBlockSize - block_offset_ wb then (wf_Append fb pad (dest_ wb)).2 else dest_ wb) 0 else wb).
  assert (Hw1 : writers_related wa1 wb1).
  { unfold wa1, wb1. destruct (_ <? kHeaderSize); [|done]. split; [|done]. cbn.
    destruct (0 <? _); [by apply append_sim|done]. }
  clearbody wa1 wb1. assert (Ho1 : block_offset_ wa1 = block_offset_ wb1) by apply Hw1. rewrite Ho1.
  match goal with |- context [EmitPhysicalRecord fa ?t ?p wa1] => pose proof (Emit_sim t p wa1 wb1 Hw1) as He;
    destruct (EmitPhysicalRecord fa t p wa1) as [s wa2], (EmitPhysicalRecord fb t p wb1) as [s' wb2] end.
  cbn in He. destruct He as [<- He]. destruct (ok s && _); [by apply IH|done].
Qed.

Lemma AddRecord_sim record wa wb s wb' : writers_related wa wb -> AddRecord fb record wb = Some (s, wb') ->
  exists wa', AddRecord fa record wa = Some (s, wa') /\ writers_related wa' wb'.
Proof.
  intros Hw Hb. unfold AddRecord in *. pose proof (AddRecord_loop_sim (2 * length record + 2) true record wa wb Hw) as H.
  rewrite Hb in H. destruct (AddRecord_loop fa _ _ _ wa) as [[s' wa']|]; [|done]. destruct H as [-> H]. by exists wa'.
Qed.

End Simulation.

(** ** Writing to any file: the writer comes to an end, and what its file's
    operations keep true it keeps true *)

Section Writes.
Context {W : Type} (file : WritableFile W) (P : W -> Prop).
Context (append_keeps : forall d w, P w -> P (wf_Append file d w).2)
        (flush_keeps : forall w, P w -> P (wf_Flush file w).2).

Lemma Emit_keeps t p w : P (dest_ w) ->
  P (dest_ (EmitPhysicalRecord file t p w).2) /\
  block_offset_ (EmitPhysicalRecord file t p w).2 = block_offset_ w + (kHeaderSize + zlen p).
Proof.
  intros Hw. unfold EmitPhysicalRecord. pose proof (append_keeps (record_header t p) _ Hw) as H1.
  destruct (wf_Append file _ (dest_ w)) as [s1 d1]. cbn in H1. destruct (ok s1); [|done].
  pose proof (append_keeps p _ H1) as H2. destruct (wf_Append file p d1) as [s2 d2]. cbn in H2.
  destruct (ok s2); [|done]. pose proof (flush_keeps _ H2) as H3. by destruct (wf_Flush file d2).
Qed.

Lemma AddRecord_step_any begin data w : 0 <= block_offset_ w <= kBlockSize -> P (dest_ w) ->
  exists s w', AddRecord_step file begin data w
      = (s, drop (Z.to_nat (fragment_len (block_offset_ w) data)) data, w') /\
    P (dest_ w') /\ block_offset_ w' = start_off (block_offset_ w) + kHeaderSize + fragment_len (block_offset_ w) data.
Proof.
  intros Hoff Hw. pose proof (fragment_len_range _ data Hoff) as [Hfl _]. unfold AddRecord_step.
  set (w1 := if kBlockSize - block_offset_ w <? kHeaderSize then _ else _).
  assert (H1 : P (dest_ w1) /\ block_offset_ w1 = start_off (block_offset_ w)).
  { unfold w1, start_off. destruct (_ <? kHeaderSize); [|done]. cbn. destruct (0 <? _); [|done].
    split; [by apply append_keeps|done]. }
  destruct H1 as [H1 Ho]. rewrite Ho.
  replace (if zlen data <? kBlockSize - start_off (block_offset_ w) - kHeaderSize then zlen data
    else kBlockSize - start_off (block_offset_ w) - kHeaderSize) with (fragment_len (block_offset_ w) data)
    by (unfold fragment_len; zcases; lia).
  match goal with |- context [EmitPhysicalRecord file ?t ?p w1] => pose proof (Emit_keeps t p w1 H1) as [H2 H3];
    destruct (EmitPhysicalRecord file t p w1) as [s w2] end.
  cbn in H2, H3. exists s, w2. split; [done|]. split; [done|]. rewrite H3, Ho, zlen_take by lia. lia.
Qed.

Lemma AddRecord_loop_any fuel : forall begin data w, 0 <= block_offset_ w <= kBlockSize -> P (dest_ w) ->
  (writer_fuel (block_offset_ w) data <= fuel)%nat ->
  exists s w', AddRecord_loop file fuel begin data w = Some (s, w') /\ P (dest_ w') /\ 0 <= block_offset_ w' <= kBlockSize.
Proof.
  induction fuel as [|fuel IH]; intros begin data w Hoff Hw Hf.
  { unfold writer_fuel in Hf. destruct (_ =? 0); lia. }
  pose proof (fragment_len_range _ data Hoff) as [Hfl Hfit]. pose proof (start_off_range _ Hoff).
  destruct (AddRecord_step_any begin data w Hoff Hw) as (s & w1 & E & H1 & Ho). cbn [AddRecord_loop]. rewrite E.
  assert (Hoff1 : 0 <= block_offset_ w1 <= kBlockSize) by (rewrite Ho; unfold kHeaderSize in *; lia).
  destruct (ok s && _) eqn:Hc; [|by exists s, w1]. apply andb_prop in Hc as [_ Hc%Z.ltb_lt].
  rewrite zlen_drop in Hc by lia. apply IH; [done|done|]. rewrite Ho.
  pose proof (writer_fuel_step (block_offset_ w) data Hoff ltac:(lia)). lia.
Qed.

Lemma AddRecord_any record w : 0 <= block_offset_ w <= kBlockSize -> P (dest_ w) ->
  exists s w', AddRecord file record w = Some (s, w') /\ P (dest_ w') /\ 0 <= block_offset_ w' <= kBlockSize.
Proof.
  intros Hoff Hw. apply AddRecord_loop_any; [done|done|]. unfold writer_fuel. destruct (_ =? 0); lia.
Qed.

End Writes.

(** ** Properties *)

(** C25. Whatever records are added to a log, a reader of any prefix of the
    file - a crash may have cut it anywhere - returns a prefix of them,
    contents and order, reports no corruption, and returns at least the
    records whose bytes had all been written. *)
Theorem log_truncation_safe rs checksum : exists w, write_all rs = Some w /\
  forall k fuel, (k + 2 <= fuel)%nat ->
    exists j r', read_all MemSequential fuel (new_Reader (take k (dest_ w)) checksum 0) = Some (take j rs, r') /\
      reports_ r' = [] /\
      forall i wi, (i <= length rs)%nat -> write_all (take i rs) = Some wi ->
        (length (dest_ wi) <= k)%nat -> (i <= j)%nat.
Proof. apply log_prefix_read. Qed.
