(* ===== verification/Merkle.v ===== *)
(** * Authenticated tables: db/builder.cpp

    [BuildTable] computes a Merkle tree over the entries of a memtable, stores
    with each value its path of sibling hashes, and keeps the root in the
    file's meta data. The CMAC of the enclave's library is a parameter. A
    node of the array is a 16-byte cell; the cells of [new char[]] hold
    arbitrary bytes until they are written. *)

From S2P Require Import Prelude Coding Status Comparator Dbformat Env Filename VersionEdit.

Definition KSIZE : Z := 8.
Definition VSIZE : Z := 112.
Definition TREE_HEIGHT : nat := 15.

(** [FILE_RECORDS] is 32768. The loops are written for any tree height [h]
    and [2 ^ h] records; the program uses [TREE_HEIGHT]. *)
Definition FILE_RECORDS : nat := 2 ^ TREE_HEIGHT.

(** [sizeof(record)]: the buffer a key and its value are copied to. *)
Definition record_capacity : Z := KSIZE + VSIZE + 16.

Section Merkle.
(** [sgx_rijndael128_cmac_msg(&cur_key, msg, size, &cmac)] *)
Context (cmac : bytes -> bytes).

(** ** Building the tree *)

(** [memcpy(merkle + 16 * mp, &cmac, 16)] *)
Definition set_node (mp : nat) (tag : bytes) (merkle : list bytes) : list bytes := <[mp := tag]> merkle.
Definition get_node (merkle : list bytes) (i : nat) : bytes := default [] (merkle !! i).

(** [for (; iter->Valid() && thr < FILE_RECORDS; iter->Next(), thr++)] *)
Fixpoint leaf_loop (records : nat) (entries : list (bytes * bytes)) (thr : nat) (merkle : list bytes) : list bytes :=
  match entries with
  | [] => merkle
  | (key, value) :: entries =>
      if (thr <? records)%nat
      then leaf_loop records entries (S thr) (set_node thr (cmac (key ++ value)) merkle)
      else merkle
  end.

(** [for (j = 0; j < stride; j = j + 2)]: [pairs] passes, half of an even stride. *)
Fixpoint level_loop (pairs : nat) (j previous mp : nat) (merkle : list bytes) : nat * list bytes :=
  match pairs with
  | O => (mp, merkle)
  | S pairs =>
      let tag := cmac (get_node merkle (previous + j) ++ get_node merkle (previous + j + 1)) in
      level_loop pairs (j + 2) previous (S mp) (set_node mp tag merkle)
  end.

(** [for (i = 0; i < TREE_HEIGHT; i++)] *)
Fixpoint tree_loop (height previous stride mp : nat) (merkle : list bytes) : list bytes :=
  match height with
  | O => merkle
  | S height =>
      let '(mp, merkle) := level_loop (stride / 2) 0 previous mp merkle in
      tree_loop height (previous + stride) (stride / 2) mp merkle
  end.

(** The array after both loops; [init] is what [new] returned. *)
Definition build_merkle (h : nat) (entries : list (bytes * bytes)) (init : list bytes) : list bytes :=
  tree_loop h 0 (2 ^ h) (2 ^ h) (leaf_loop (2 ^ h) entries 0 init).

(** ** Paths *)

Definition sibling (index : nat) : nat := if (index mod 2 =? 1)%nat then index - 1 else index + 1.
Definition parent (records index : nat) : nat := index / 2 + records.

(** The cells copied behind the value of the entry at [index]. *)
Fixpoint path (height records index : nat) (merkle : list bytes) : list bytes :=
  match height with
  | O => []
  | S height => get_node merkle (sibling index) :: path height records (parent records index) merkle
  end.

(** [merkle[(2 * FILE_RECORDS - 2) * 16]] *)
Definition root_hash (h : nat) (merkle : list bytes) : bytes := get_node merkle (2 * 2 ^ h - 2).

(** [memcpy(proofandvalue, value, VSIZE)] reads a fixed number of bytes;
    [beyond] is the memory behind the value. *)
Definition proof_and_value (value beyond : bytes) (proof : list bytes) : bytes :=
  take (Z.to_nat VSIZE) (value ++ beyond) ++ concat proof.

(** ** BuildTable *)

(** What the collaborators answer: the file system, the table builder, the
    table cache and the input iterator. *)
Record BuildWorld := {
  bw_new_file : Status;
  bw_finish : Status * Z;             (** [builder->Finish()], [builder->FileSize()] *)
  bw_sync : Status;
  bw_close : Status;
  bw_usable : Status;                 (** status of the verifying iterator *)
  bw_iter_status : Status;
  bw_beyond : nat -> bytes            (** memory behind the value of entry [i] *)
}.

Record BuildResult := {
  br_status : Status;
  br_meta : FileMetaData;
  br_added : list (bytes * bytes);    (** calls of [builder->Add] *)
  br_deleted : bool                   (** [env->DeleteFile(fname)] was called *)
}.

(** The calls of [builder->Add], entry [ppos] first. *)
Fixpoint add_entries (h : nat) (beyond : nat -> bytes) (merkle : list bytes) (ppos : nat) (entries : list (bytes * bytes)) :
    list (bytes * bytes) :=
  match entries with
  | [] => []
  | (key, value) :: entries =>
      (key, proof_and_value value (beyond ppos) (path h (2 ^ h) ppos merkle))
      :: add_entries h beyond merkle (S ppos) entries
  end.

Definition set_meta (meta : FileMetaData) (size : Z) (small large : bytes) (root : option bytes) : FileMetaData :=
  mkFile (refs meta) (allowed_seeks meta) (number meta) size small large root.

(** The body for an iterator that is valid at its first entry, with the file
    created. *)
Definition write_table (h : nat) (w : BuildWorld) (merkle : list bytes) (first : bytes) (entries : list (bytes * bytes))
    (meta : FileMetaData) : Status * FileMetaData * list (bytes * bytes) :=
  let added := add_entries h (bw_beyond w) merkle 0 entries in
  let large := List.last (map fst entries) first in
  let meta := set_meta meta (file_size meta) first large (Some (root_hash h merkle)) in
  let '(s, size) := bw_finish w in
  let meta := if ok s then set_meta meta size first large (rh meta) else meta in
  let s := if ok s then bw_sync w else s in
  let s := if ok s then bw_close w else s in
  let s := if ok s then bw_usable w else s in
  (s, meta, added).

Definition BuildTable (h : nat) (w : BuildWorld) (init : list bytes) (entries : list (bytes * bytes))
    (meta : FileMetaData) : BuildResult :=
  let meta := set_meta meta 0 (smallest meta) (largest meta) (rh meta) in
  let merkle := build_merkle h entries init in
  let finish s meta added :=
    let s := if negb (ok (bw_iter_status w)) then bw_iter_status w else s in
    {| br_status := s; br_meta := meta; br_added := added;
       br_deleted := negb (ok s && (0 <? file_size meta)) |} in
  match entries with
  | [] => finish Status_OK meta []
  | (first, _) :: _ =>
      if negb (ok (bw_new_file w))
      then {| br_status := bw_new_file w; br_meta := meta; br_added := []; br_deleted := false |}
      else let '(s, meta, added) := write_table h w merkle first entries meta in finish s meta added
  end.

(** ** Verification of a path *)

(** The check a reader of the table has to make: hash up from the leaf at
    [index] and compare with the root. *)
Fixpoint verify_path (index : nat) (tag : bytes) (proof : list bytes) : bytes :=
  match proof with
  | [] => tag
  | s :: proof =>
      verify_path (index / 2) (cmac (if (index mod 2 =? 1)%nat then s ++ tag else tag ++ s)) proof
  end.

(** ** The tree *)

(** The tags of a level from those below. *)
Fixpoint up (level : list bytes) : list bytes :=
  match level with
  | a :: b :: level => cmac (a ++ b) :: up level
  | _ => []
  end.

(** The levels from [level] to the root. *)
Fixpoint levels (d : nat) (level : list bytes) : list (list bytes) :=
  match d with
  | O => [level]
  | S d => level :: levels d (up level)
  end.

Fixpoint top (d : nat) (level : list bytes) : bytes :=
  match d with
  | O => default [] (level !! 0%nat)
  | S d => top d (up level)
  end.

Lemma up_length n : forall level, length level = (2 * n)%nat -> length (up level) = n.
Proof.
  induction n as [|n IH]; intros level Hl; [by destruct level|].
  destruct level as [|a [|b level]]; cbn in Hl; try lia. cbn. rewrite IH; lia.
Qed.

Lemma up_lookup m : forall level a b, level !! (2 * m)%nat = Some a -> level !! (2 * m + 1)%nat = Some b ->
  up level !! m = Some (cmac (a ++ b)).
Proof.
  induction m as [|m IH]; intros level a b Ha Hb.
  - destruct level as [|x [|y level]]; cbn in *; congruence.
  - replace (2 * S m)%nat with (S (S (2 * m))) in Ha by lia.
    replace (2 * S m + 1)%nat with (S (S (2 * m + 1))) in Hb by lia.
    destruct level as [|x [|y level]]; [done|done|]. cbn. by apply IH.
Qed.

Lemma pow_half d : (2 ^ S d / 2 = 2 ^ d)%nat.
Proof. rewrite Nat.pow_succ_r', Nat.mul_comm. by apply Nat.div_mul. Qed.

(** The inner loop appends the level above: [acc] is done, [suf] is left of
    the level [pre ++ suf] that starts at [previous]. *)
Lemma level_loop_spec pairs : forall (base pre suf acc todo rest : list bytes),
  length suf = (2 * pairs)%nat -> length todo = pairs ->
  level_loop pairs (length pre) (length base) (length (base ++ (pre ++ suf) ++ acc))
    (base ++ (pre ++ suf) ++ acc ++ todo ++ rest)
  = ((length (base ++ (pre ++ suf) ++ acc) + pairs)%nat, base ++ (pre ++ suf) ++ acc ++ up suf ++ rest).
Proof.
  induction pairs as [|pairs IH]; intros base pre suf acc todo rest Hs Ht; cbn [level_loop].
  - destruct suf; [|done]. destruct todo; [|done]. f_equal. lia.
  - destruct suf as [|a [|b suf]]; cbn in Hs; try lia. destruct todo as [|t todo]; [done|].
    set (arr := base ++ (pre ++ a :: b :: suf) ++ acc ++ (t :: todo) ++ rest).
    assert (Ha : get_node arr (length base + length pre) = a).
    { unfold get_node, arr. rewrite lookup_app_r by lia. rewrite Nat.add_comm, Nat.add_sub.
      rewrite <- app_assoc, lookup_app_r by lia. by rewrite Nat.sub_diag. }
    assert (Hb : get_node arr (length base + length pre + 1) = b).
    { unfold get_node, arr. rewrite lookup_app_r by lia.
      replace (length base + length pre + 1 - length base)%nat with (length pre + 1)%nat by lia.
      rewrite <- app_assoc, lookup_app_r by lia. by replace (length pre + 1 - length pre)%nat with 1%nat by lia. }
    rewrite Ha, Hb. set (tag := cmac (a ++ b)).
    assert (Hset : set_node (length (base ++ (pre ++ a :: b :: suf) ++ acc)) tag arr
      = base ++ ((pre ++ [a; b]) ++ suf) ++ (acc ++ [tag]) ++ todo ++ rest).
    { unfold set_node, arr. rewrite !app_assoc. rewrite <- (app_assoc _ (t :: todo)).
      rewrite <- (Nat.add_0_r (length _)), insert_app_r. cbn. by rewrite <- !app_assoc. }
    rewrite Hset. specialize (IH base (pre ++ [a; b]) suf (acc ++ [tag]) todo rest ltac:(lia) ltac:(cbn in Ht; lia)).
    replace (length pre + 2)%nat with (length (pre ++ [a; b])) by (rewrite length_app; cbn; lia).
    replace (S (length (base ++ (pre ++ a :: b :: suf) ++ acc)))
      with (length (base ++ ((pre ++ [a; b]) ++ suf) ++ acc ++ [tag]))
      by (rewrite !length_app; cbn; lia).
    rewrite IH. f_equal.
    + rewrite !length_app. cbn. lia.
    + cbn [up]. fold tag. by rewrite <- !app_assoc.
Qed.

Lemma levels_length d : forall level, length level = (2 ^ d)%nat -> length (concat (levels d level)) = (2 * 2 ^ d - 1)%nat.
Proof.
  induction d as [|d IH]; intros level Hl; cbn [levels concat].
  - rewrite app_nil_r, Hl. done.
  - rewrite length_app, IH, Hl by (apply up_length; rewrite Hl; apply Nat.pow_succ_r').
    rewrite Nat.pow_succ_r'. pose proof (Nat.pow_nonzero 2 d). lia.
Qed.

(** The outer loop fills in all levels above [cur]. *)
Lemma tree_loop_spec d : forall (base cur todo rest : list bytes), length cur = (2 ^ d)%nat ->
  length todo = (2 ^ d - 1)%nat ->
  tree_loop d (length base) (2 ^ d) (length (base ++ cur)) (base ++ cur ++ todo ++ rest)
  = base ++ concat (levels d cur) ++ rest.
Proof.
  induction d as [|d IH]; intros base cur todo rest Hc Ht; cbn [tree_loop levels concat].
  - destruct todo; [|done]. by rewrite app_nil_r.
  - rewrite pow_half. rewrite Nat.pow_succ_r' in Hc, Ht. pose proof (Nat.pow_nonzero 2 d ltac:(lia)) as Hp.
    set (n := (2 ^ d)%nat) in *.
    pose proof (level_loop_spec n base [] cur [] (take n todo) (drop n todo ++ rest) Hc) as Hlv.
    cbn [app length] in Hlv. rewrite app_nil_r in Hlv. rewrite (app_assoc (take n todo)), take_drop in Hlv.
    rewrite Hlv by (rewrite length_take; lia).
    replace (length base + 2 ^ S d)%nat with (length (base ++ cur)) by (rewrite length_app, Nat.pow_succ_r'; lia).
    replace (length (base ++ cur) + n)%nat with (length ((base ++ cur) ++ up cur))
      by (rewrite (length_app (base ++ cur)), (up_length n) by done; done).
    rewrite (app_assoc base). rewrite (IH (base ++ cur) (up cur) (drop n todo) rest).
    + by rewrite <- !app_assoc.
    + by apply up_length.
    + rewrite length_drop. lia.
Qed.

(** The leaves: one tag for each entry, what was there before for the rest. *)
Definition leaf (e : bytes * bytes) : bytes := cmac (e.1 ++ e.2).
Definition leaves (h : nat) (entries : list (bytes * bytes)) (init : list bytes) : list bytes :=
  take (2 ^ h) (map leaf entries ++ drop (length entries) init).

Lemma leaf_loop_spec n entries : forall (acc todo : list bytes),
  (length acc + length todo = 2 * n)%nat -> (length acc <= n)%nat ->
  leaf_loop n entries (length acc) (acc ++ todo)
  = acc ++ take (n - length acc) (map leaf entries) ++ drop (Nat.min (n - length acc) (length entries)) todo.
Proof.
  induction entries as [|[k v] entries IH]; intros acc todo Hl Ha; cbn [leaf_loop map length].
  - rewrite take_nil, Nat.min_0_r. done.
  - destruct (Nat.ltb_spec (length acc) n) as [Hlt|Hge].
    + destruct todo as [|t todo]; [cbn in Hl; lia|].
      unfold set_node. rewrite <- (Nat.add_0_r (length acc)) at 2. rewrite insert_app_r. cbn [list_insert].
      change (<[0%nat:=cmac (k ++ v)]> (t :: todo)) with (cmac (k ++ v) :: todo).
      change (acc ++ cmac (k ++ v) :: todo) with (acc ++ [leaf (k, v)] ++ todo). rewrite app_assoc.
      replace (S (length acc)) with (length (acc ++ [leaf (k, v)])) by (rewrite length_app; cbn; lia).
      rewrite IH by (rewrite length_app; cbn in *; lia). rewrite length_app. cbn [length].
      replace (n - length acc)%nat with (S (n - (length acc + 1))) by lia. cbn [take Nat.min drop].
      by rewrite <- app_assoc.
    + replace (n - length acc)%nat with 0%nat by lia. done.
Qed.

(** The array that [BuildTable] computes: all levels, and one unused cell. *)
Lemma build_merkle_spec h entries init : length init = (2 * 2 ^ h)%nat ->
  exists x, build_merkle h entries init = concat (levels h (leaves h entries init)) ++ [x] /\
    length (leaves h entries init) = (2 ^ h)%nat.
Proof.
  intros Hl. unfold build_merkle. set (n := (2 ^ h)%nat) in *.
  assert (Hn : (1 <= n)%nat) by (pose proof (Nat.pow_nonzero 2 h); lia).
  pose proof (leaf_loop_spec n entries [] init ltac:(cbn; lia) ltac:(cbn; lia)) as Hleaf.
  cbn [app length] in Hleaf. rewrite Nat.sub_0_r in Hleaf. rewrite Hleaf.
  set (all := take n (map leaf entries) ++ drop (Nat.min n (length entries)) init).
  assert (Hall : length all = (2 * n)%nat).
  { unfold all. rewrite length_app, length_take, length_map, length_drop. lia. }
  assert (Hlv : take n all = leaves h entries init).
  { unfold all, leaves. fold n. rewrite !take_app, take_take, length_take, length_map, Nat.min_id.
    f_equal. destruct (Nat.le_gt_cases n (length entries)).
    - rewrite (proj2 (Nat.sub_0_le n (length entries))), Nat.min_l, Nat.sub_diag by lia. done.
    - by rewrite Nat.min_r by lia. }
  assert (Hlen : length (take n all) = n) by (rewrite length_take; lia).
  destruct (drop (n + (n - 1)) all) as [|x rest] eqn:Ed.
  { apply (f_equal length) in Ed. rewrite length_drop in Ed. cbn in Ed. lia. }
  assert (rest = []) as ->.
  { apply (f_equal length) in Ed. rewrite length_drop in Ed. cbn in Ed. destruct rest; [done|cbn in Ed; lia]. }
  exists x. rewrite <- Hlv. split; [|done].
  pose proof (tree_loop_spec h [] (take n all) (take (n - 1) (drop n all)) [x] Hlen) as Ht.
  cbn [app length] in Ht. fold n in Ht. rewrite Hlen in Ht.
  rewrite <- Ht by (rewrite length_take, length_drop; lia). f_equal.
  rewrite <- (take_drop n all) at 1. f_equal. rewrite <- (take_drop (n - 1) (drop n all)) at 1.
  f_equal. by rewrite drop_drop.
Qed.

(** ** Paths lead to the root *)

Fixpoint siblings (d : nat) (level : list bytes) (m : nat) : list bytes :=
  match d with
  | O => []
  | S d => default [] (level !! sibling m) :: siblings d (up level) (m / 2)
  end.

Lemma half_split m : (m = 2 * (m / 2) /\ m mod 2 = 0 \/ m = 2 * (m / 2) + 1 /\ m mod 2 = 1)%nat.
Proof. pose proof (Nat.div_mod_eq m 2). pose proof (Nat.mod_upper_bound m 2). lia. Qed.

Lemma sibling_even b m : sibling (2 * b + m) = (2 * b + sibling m)%nat.
Proof.
  unfold sibling. replace (2 * b + m)%nat with (m + b * 2)%nat by lia.
  rewrite Nat.Div0.mod_add. destruct (half_split m) as [[E ->]|[E ->]]; cbn; lia.
Qed.

Lemma sibling_lt d m : (m < 2 ^ S d)%nat -> (sibling m < 2 ^ S d)%nat /\ (m / 2 < 2 ^ d)%nat.
Proof.
  rewrite Nat.pow_succ_r'. intros Hm. unfold sibling.
  destruct (half_split m) as [[E ->]|[E ->]]; cbn [Nat.eqb]; lia.
Qed.

(** The path computed from array indices is the list of siblings. *)
Lemma path_siblings h d : forall (base cur rest : list bytes) m, (d <= h)%nat ->
  length base = (2 * (2 ^ h - 2 ^ d))%nat -> length cur = (2 ^ d)%nat -> (m < 2 ^ d)%nat ->
  path d (2 ^ h) (length base + m) (base ++ concat (levels d cur) ++ rest) = siblings d cur m.
Proof.
  induction d as [|d IH]; intros base cur rest m Hd Hb Hc Hm; [done|]. cbn [path siblings levels concat].
  destruct (sibling_lt d m Hm) as [Hs Hm2]. f_equal.
  - unfold get_node. rewrite Hb, sibling_even, <- Hb. rewrite lookup_app_r by lia.
    replace (length base + sibling m - length base)%nat with (sibling m) by lia.
    rewrite <- app_assoc, lookup_app_l by lia. done.
  - assert (Hpow : (2 ^ S d <= 2 ^ h)%nat) by (apply Nat.pow_le_mono_r; lia).
    rewrite Nat.pow_succ_r' in *. specialize (IH (base ++ cur) (up cur) rest (m / 2)%nat).
    replace (parent (2 ^ h) (length base + m)) with (length (base ++ cur) + m / 2)%nat.
    + rewrite <- IH; [by rewrite <- !app_assoc|lia|rewrite length_app; lia|by apply up_length|done].
    + unfold parent. rewrite Hb, length_app. rewrite Nat.mul_comm, Nat.div_add_l by lia. lia.
Qed.

Lemma root_top h d : forall (base cur : list bytes) x, (d <= h)%nat ->
  length base = (2 * (2 ^ h - 2 ^ d))%nat -> length cur = (2 ^ d)%nat ->
  root_hash h (base ++ concat (levels d cur) ++ [x]) = top d cur.
Proof.
  induction d as [|d IH]; intros base cur x Hd Hb Hc; cbn [levels concat top].
  - unfold root_hash, get_node. rewrite app_nil_r. rewrite lookup_app_r by (cbn in Hb; lia).
    replace (2 * 2 ^ h - 2 - length base)%nat with 0%nat by (cbn in Hb; lia).
    by rewrite lookup_app_l by (rewrite Hc; cbn; lia).
  - rewrite <- (IH (base ++ cur) (up cur) x); [by rewrite <- !app_assoc|lia| |].
    + assert (2 ^ S d <= 2 ^ h)%nat by (apply Nat.pow_le_mono_r; lia).
      rewrite length_app. rewrite Nat.pow_succ_r' in *. lia.
    + apply up_length. by rewrite <- Nat.pow_succ_r'.
Qed.

Lemma lookup_total (level : list bytes) i : (i < length level)%nat -> level !! i = Some (default [] (level !! i)).
Proof. intros Hi. destruct (lookup_lt_is_Some_2 level i Hi) as [x ->]. done. Qed.

(** The pair of a node and its sibling, in array order. *)
Lemma up_pair d level m : length level = (2 ^ S d)%nat -> (m < 2 ^ S d)%nat ->
  let a := default [] (level !! m) in
  let s := default [] (level !! sibling m) in
  default [] (up level !! (m / 2)%nat) = cmac (if (m mod 2 =? 1)%nat then s ++ a else a ++ s).
Proof.
  intros Hl Hm. cbv zeta. destruct (sibling_lt d m Hm) as [Hs Hm2]. unfold sibling in *.
  destruct (half_split m) as [[E Em]|[E Em]]; rewrite Em in *; cbn [Nat.eqb] in *.
  - rewrite (up_lookup (m / 2) level (default [] (level !! m)) (default [] (level !! (m + 1)%nat))); [done| |].
    + rewrite <- E. apply lookup_total. lia.
    + rewrite <- E. apply lookup_total. lia.
  - rewrite (up_lookup (m / 2) level (default [] (level !! (m - 1)%nat)) (default [] (level !! m))); [done| |].
    + replace (2 * (m / 2))%nat with (m - 1)%nat by lia. apply lookup_total. lia.
    + rewrite <- E. apply lookup_total. lia.
Qed.

Lemma verify_siblings d : forall level m, length level = (2 ^ d)%nat -> (m < 2 ^ d)%nat ->
  verify_path m (default [] (level !! m)) (siblings d level m) = top d level.
Proof.
  induction d as [|d IH]; intros level m Hl Hm; cbn [siblings verify_path top].
  - cbn in Hm. by replace m with 0%nat by lia.
  - rewrite <- (up_pair d level m Hl Hm). apply IH; [|by apply sibling_lt].
    apply up_length. by rewrite <- Nat.pow_succ_r'.
Qed.

(** ** Forgery needs a collision *)

(** Two different messages of the same length with the same tag. *)
Definition collision : Prop := exists x y, x <> y /\ length x = length y /\ cmac x = cmac y.

Lemma up_cells : (forall x, length (cmac x) = 16%nat) -> forall level, Forall (fun c => length c = 16%nat) (up level).
Proof.
  intros Hcm. fix IH 1. intros [|a [|b level]]; cbn; try constructor; [apply Hcm|apply IH].
Qed.

Lemma verify_sound d : forall level m tag proof, (forall x, length (cmac x) = 16%nat) ->
  Forall (fun c => length c = 16%nat) level -> length tag = 16%nat -> Forall (fun c => length c = 16%nat) proof ->
  length level = (2 ^ d)%nat -> (m < 2 ^ d)%nat -> length proof = d ->
  verify_path m tag proof = top d level -> tag = default [] (level !! m) \/ collision.
Proof.
  induction d as [|d IH]; intros level m tag proof Hcm Hlv Ht Hpf Hl Hm Hp Hv.
  - destruct proof; [|done]. cbn in *. left. by replace m with 0%nat by lia.
  - destruct proof as [|s proof]; [done|]. cbn [verify_path top] in Hv.
    apply Forall_cons_1 in Hpf as [Hs Hpf]. destruct (sibling_lt d m Hm) as [Hsl Hm2].
    rewrite Forall_lookup in Hlv.
    assert (Hcell : forall i, (i < 2 ^ S d)%nat -> length (default [] (level !! i)) = 16%nat).
    { intros i Hi. apply (Hlv i). apply lookup_total. lia. }
    apply (IH (up level) (m / 2)%nat) in Hv; try done; [|by apply up_cells|by apply up_length; rewrite Hl, Nat.pow_succ_r'|cbn in Hp; lia].
    destruct Hv as [E|Hc]; [|by right]. rewrite (up_pair d level m Hl Hm) in E.
    set (a := default [] (level !! m)) in *. set (b := default [] (level !! sibling m)) in *.
    assert (Ha : length a = 16%nat) by (by apply Hcell). assert (Hb : length b = 16%nat) by (by apply Hcell).
    destruct (decide ((if (m mod 2 =? 1)%nat then s ++ tag else tag ++ s) = (if (m mod 2 =? 1)%nat then b ++ a else a ++ b)))
      as [Eq|Hne].
    + left. destruct (m mod 2 =? 1)%nat; apply app_inj_1 in Eq as [E1 E2]; congruence.
    + right. eexists _, _. split; [exact Hne|]. split; [|exact E].
      destruct (m mod 2 =? 1)%nat; rewrite !length_app; lia.
Qed.

(** ** What BuildTable stores *)

Lemma leaves_lookup h entries init i e : (i < 2 ^ h)%nat -> entries !! i = Some e ->
  leaves h entries init !! i = Some (leaf e).
Proof.
  intros Hi He. unfold leaves. rewrite lookup_take_lt by done.
  rewrite lookup_app_l by (rewrite length_map; by eapply lookup_lt_Some).
  by rewrite list_lookup_fmap, He.
Qed.

Lemma leaves_cells h entries init : (forall x, length (cmac x) = 16%nat) ->
  Forall (fun c => length c = 16%nat) init -> Forall (fun c => length c = 16%nat) (leaves h entries init).
Proof.
  intros Hcm Hi. unfold leaves. apply Forall_take, Forall_app. split; [|by apply Forall_drop].
  apply Forall_fmap, Forall_forall. intros e _. apply Hcm.
Qed.

Lemma path_of_entry h entries init i : length init = (2 * 2 ^ h)%nat -> (i < 2 ^ h)%nat ->
  path h (2 ^ h) i (build_merkle h entries init) = siblings h (leaves h entries init) i /\
  root_hash h (build_merkle h entries init) = top h (leaves h entries init).
Proof.
  intros Hl Hi. destruct (build_merkle_spec h entries init Hl) as (x & -> & Hlen).
  pose proof (path_siblings h h [] (leaves h entries init) [x] i) as Hp. cbn [app length] in Hp.
  pose proof (root_top h h [] (leaves h entries init) x) as Hr. cbn [app length] in Hr.
  rewrite Nat.sub_diag in Hp, Hr. split; [by apply Hp|by apply Hr].
Qed.

Lemma path_verifies h entries init i e : length init = (2 * 2 ^ h)%nat -> (i < 2 ^ h)%nat ->
  entries !! i = Some e ->
  verify_path i (cmac (e.1 ++ e.2)) (path h (2 ^ h) i (build_merkle h entries init))
  = root_hash h (build_merkle h entries init).
Proof.
  intros Hl Hi He. destruct (path_of_entry h entries init i Hl Hi) as [-> ->].
  destruct (build_merkle_spec h entries init Hl) as (_ & _ & Hlen).
  rewrite <- (verify_siblings h (leaves h entries init) i Hlen Hi).
  by rewrite (leaves_lookup h entries init i e Hi He).
Qed.

Lemma forgery_collides h entries init i e record proof : (forall x, length (cmac x) = 16%nat) ->
  length init = (2 * 2 ^ h)%nat -> Forall (fun c => length c = 16%nat) init -> (i < 2 ^ h)%nat ->
  entries !! i = Some e -> length proof = h -> Forall (fun c => length c = 16%nat) proof ->
  length record = length (e.1 ++ e.2) ->
  verify_path i (cmac record) proof = root_hash h (build_merkle h entries init) ->
  record = e.1 ++ e.2 \/ collision.
Proof.
  intros Hcm Hl Hcells Hi He Hp Hpf Hrec Hv. destruct (path_of_entry h entries init i Hl Hi) as [_ Hroot].
  destruct (build_merkle_spec h entries init Hl) as (_ & _ & Hlen). rewrite Hroot in Hv.
  destruct (verify_sound h (leaves h entries init) i (cmac record) proof Hcm) as [E|Hc]; try done.
  - by apply leaves_cells.
  - rewrite (leaves_lookup h entries init i e Hi He) in E. cbn in E. unfold leaf in E.
    destruct (decide (record = e.1 ++ e.2)) as [->|Hne]; [by left|]. right. by exists record, (e.1 ++ e.2).
  - by right.
Qed.

Lemma add_entries_lookup h beyond merkle entries : forall ppos i e, entries !! i = Some e ->
  add_entries h beyond merkle ppos entries !! i
  = Some (e.1, proof_and_value e.2 (beyond (ppos + i)%nat) (path h (2 ^ h) (ppos + i) merkle)).
Proof.
  induction entries as [|[k v] entries IH]; intros ppos i e Hi; [done|].
  destruct i as [|i]; cbn in Hi.
  - injection Hi as <-. by rewrite Nat.add_0_r.
  - etransitivity; [exact (IH (S ppos) i e Hi)|]. by replace (ppos + S i)%nat with (S ppos + i)%nat by lia.
Qed.

End Merkle.

(** ** Properties *)

Lemma BuildTable_root cmac h w init entries meta : entries <> [] -> ok (bw_new_file w) = true ->
  br_added (BuildTable cmac h w init entries meta) = add_entries h (bw_beyond w) (build_merkle cmac h entries init) 0 entries /\
  rh (br_meta (BuildTable cmac h w init entries meta)) = Some (root_hash h (build_merkle cmac h entries init)).
Proof.
  intros Hne Hok. destruct entries as [|[k v] entries]; [done|]. unfold BuildTable. rewrite Hok. cbn [negb].
  unfold write_table. destruct (bw_finish w) as [s size]. by destruct (ok s).
Qed.


(** A tag for examples: the first sixteen bytes. *)
Definition toy_cmac (x : bytes) : bytes := take 16 (x ++ replicate 16 x00).

Definition toy_world : BuildWorld := {|
  bw_new_file := Status_OK; bw_finish := (Status_OK, 1000); bw_sync := Status_OK; bw_close := Status_OK;
  bw_usable := Status_OK; bw_iter_status := Status_OK; bw_beyond := fun _ => [] |}.

Definition toy_entries : list (bytes * bytes) := [(lit "key0", lit "v0"); (lit "key1", lit "v1"); (lit "key2", lit "v2")].



