(* ===== verification/Version.v ===== *)
(** * Versions: db/version_set.cpp, the file searches and the read path

    A [Version] is the set of table files of one moment, by level. This file
    models the searches over the files of a level, [Version::Get] and its
    statistics, the choice of a level for a flushed memtable and the set of
    files that overlap a range.

    Files are [FileMetaData] values; where the source mutates a file through
    a shared pointer ([UpdateStats]) the file is found again in the version by
    its level and number. *)

From S2P Require Import Prelude Coding Logging Status Comparator Dbformat MemTable VersionEdit.

Record Version := mkVersion {
  files_ : list (list FileMetaData);
  file_to_compact_ : option FileMetaData;
  file_to_compact_level_ : Z;
  compaction_score_ : Z * Z;            (** numerator and denominator *)
  compaction_level_ : Z
}.

Definition new_Version : Version := mkVersion (replicate kNumLevels []) None (-1) (-1, 1) (-1).

Definition level_files (v : Version) (level : nat) : list FileMetaData := default [] (files_ v !! level).

(** ** Sizes *)

Definition TargetFileSize (max_file_size : Z) : Z := max_file_size.
Definition MaxGrandParentOverlapBytes (max_file_size : Z) : Z := 10 * TargetFileSize max_file_size.
Definition ExpandedCompactionByteSizeLimit (max_file_size : Z) : Z := 25 * TargetFileSize max_file_size.
Definition MaxFileSizeForLevel (max_file_size : Z) (level : nat) : Z := TargetFileSize max_file_size.

(** The doubles of the source are exact here: every value is an integer
    below [2^53]. *)
Fixpoint MaxBytesForLevel (level : nat) : Z :=
  match level with
  | S (S _ as l) => MaxBytesForLevel l * 10
  | _ => 10 * 1048576
  end.

Definition TotalFileSize (files : list FileMetaData) : Z :=
  fold_left (fun sum f => sum + file_size f) files 0.

Module Saver.

Inductive SaverState := kNotFound | kFound | kDeleted | kCorrupt.

End Saver.

Section Files.
Context (ucmp : Comparator).

Abbreviation icmp := (InternalKey_Compare ucmp).

Definition smallest_user (f : FileMetaData) : bytes := ExtractUserKey (smallest f).
Definition largest_user (f : FileMetaData) : bytes := ExtractUserKey (largest f).

(** ** Binary search for a file *)

Fixpoint FindFile_loop (fuel : nat) (files : list FileMetaData) (key : bytes) (left right : Z) : option Z :=
  match fuel with
  | O => None
  | S fuel =>
      if left <? right then
        let mid := u32 (left + right) / 2 in
        f ← files !! Z.to_nat mid;
        if is_lt (icmp (largest f) key)
        then FindFile_loop fuel files key (u32 (mid + 1)) right
        else FindFile_loop fuel files key left mid
      else Some right
  end.

Definition FindFile (files : list FileMetaData) (key : bytes) : option Z :=
  FindFile_loop (S (length files)) files key 0 (u32 (zlen files)).

(** ** Overlap with a range of user keys; [None] is a [NULL] bound *)

Definition AfterFile (user_key : option bytes) (f : FileMetaData) : bool :=
  match user_key with
  | Some k => is_gt (Compare ucmp k (largest_user f))
  | None => false
  end.

Definition BeforeFile (user_key : option bytes) (f : FileMetaData) : bool :=
  match user_key with
  | Some k => is_lt (Compare ucmp k (smallest_user f))
  | None => false
  end.

Definition SomeFileOverlapsRange (disjoint_sorted_files : bool) (files : list FileMetaData)
    (smallest_user_key largest_user_key : option bytes) : option bool :=
  if negb disjoint_sorted_files then
    Some (existsb (fun f => negb (AfterFile smallest_user_key f || BeforeFile largest_user_key f)) files)
  else
    index ← match smallest_user_key with
            | Some k => FindFile files (InternalKey k kMaxSequenceNumber kValueTypeForSeek)
            | None => Some 0
            end;
    if zlen files <=? index then Some false
    else f ← files !! Z.to_nat index; Some (negb (BeforeFile largest_user_key f)).

Definition OverlapInLevel (v : Version) (level : nat) (small large : option bytes) : option bool :=
  SomeFileOverlapsRange (0 <? level)%nat (level_files v level) small large.

(** ** Files of a level that overlap a range

    [below] and [above] are the source's [begin != NULL && Compare(x, begin) < 0]
    and [end != NULL && Compare(x, end) > 0]. *)

Definition below (b : option bytes) (x : bytes) : bool :=
  match b with Some b => is_lt (Compare ucmp x b) | None => false end.
Definition above (e : option bytes) (x : bytes) : bool :=
  match e with Some e => is_gt (Compare ucmp x e) | None => false end.

(** The loop of [GetOverlappingInputs].

    [todo] are the files from index [i] on; a restart sets it back to the
    whole level. *)

Fixpoint GetOverlappingInputs_loop (fuel level : nat) (files todo : list FileMetaData)
    (user_begin user_end : option bytes) (inputs : list FileMetaData) : option (list FileMetaData) :=
  match fuel, todo with
  | O, _ => None
  | S _, [] => Some inputs
  | S fuel, f :: todo =>
      if below user_begin (largest_user f) then
        GetOverlappingInputs_loop fuel level files todo user_begin user_end inputs
      else if above user_end (smallest_user f) then
        GetOverlappingInputs_loop fuel level files todo user_begin user_end inputs
      else if (level =? 0)%nat then
        if below user_begin (smallest_user f) then
          GetOverlappingInputs_loop fuel level files files (Some (smallest_user f)) user_end []
        else if above user_end (largest_user f) then
          GetOverlappingInputs_loop fuel level files files user_begin (Some (largest_user f)) []
        else GetOverlappingInputs_loop fuel level files todo user_begin user_end (inputs ++ [f])
      else GetOverlappingInputs_loop fuel level files todo user_begin user_end (inputs ++ [f])
  end.

Definition overlap_fuel (n : nat) : nat := (S n * S (n + n))%nat.

Definition GetOverlappingInputs (v : Version) (level : nat) (begin end_ : option bytes)
    : option (list FileMetaData) :=
  let files := level_files v level in
  GetOverlappingInputs_loop (overlap_fuel (length files)) level files files
    (ExtractUserKey <$> begin) (ExtractUserKey <$> end_) [].

(** ** The level a flushed memtable goes to *)

Fixpoint PickLevel_loop (n : nat) (max_file_size : Z) (v : Version) (level : nat)
    (small large : bytes) : option nat :=
  match n with
  | O => Some level
  | S n =>
      o ← OverlapInLevel v (level + 1) (Some small) (Some large);
      if (o : bool) then Some level
      else if (level + 2 <? kNumLevels)%nat then
        overlaps ← GetOverlappingInputs v (level + 2)
          (Some (InternalKey small kMaxSequenceNumber kValueTypeForSeek)) (Some (InternalKey large 0 kTypeDeletion));
        if MaxGrandParentOverlapBytes max_file_size <? TotalFileSize overlaps then Some level
        else PickLevel_loop n max_file_size v (level + 1) small large
      else PickLevel_loop n max_file_size v (level + 1) small large
  end.

Definition PickLevelForMemTableOutput (max_file_size : Z) (v : Version) (small large : bytes) : option nat :=
  o ← OverlapInLevel v 0 (Some small) (Some large);
  if (o : bool) then Some 0%nat
  else PickLevel_loop kMaxMemCompactLevel max_file_size v 0 small large.

(** ** Reading a key *)

(** The callback of the table lookup: the saver's state and its value. *)
Definition SaveValue (user : bytes) (s : Saver.SaverState * bytes) (ikey v : bytes) : Saver.SaverState * bytes :=
  match ParseInternalKey ikey with
  | None => (Saver.kCorrupt, s.2)
  | Some parsed_key =>
      if is_eq (Compare ucmp (user_key parsed_key) user) then
        if decide (type parsed_key = kTypeValue) then (Saver.kFound, v) else (Saver.kDeleted, s.2)
      else s
  end.

(** [std::sort] with [NewestFirst]. *)
Definition NewestFirst (a b : FileMetaData) : bool := number b <? number a.

Fixpoint insert_newest (f : FileMetaData) (l : list FileMetaData) : list FileMetaData :=
  match l with
  | [] => [f]
  | g :: l' => if NewestFirst f g then f :: l else g :: insert_newest f l'
  end.

Definition sort_newest (l : list FileMetaData) : list FileMetaData := foldr insert_newest [] l.

(** The level-0 files whose range holds the key, newest first. *)
Definition level0_files (v : Version) (user : bytes) : list FileMetaData :=
  sort_newest (List.filter (fun f => negb (is_lt (Compare ucmp user (smallest_user f))) &&
                                     negb (is_gt (Compare ucmp user (largest_user f)))) (level_files v 0)).

(** The file of a deeper level that can hold the key, if there is one. *)
Definition level_file (v : Version) (level : nat) (user ikey : bytes) : option (list FileMetaData) :=
  index ← FindFile (level_files v level) ikey;
  if zlen (level_files v level) <=? index then Some []
  else
    f ← level_files v level !! Z.to_nat index;
    if is_lt (Compare ucmp user (smallest_user f)) then Some [] else Some [f].

Definition files_to_search (v : Version) (level : nat) (user ikey : bytes) : option (list FileMetaData) :=
  if (level =? 0)%nat then Some (level0_files v user) else level_file v level user ikey.

(** [ForEachOverlapping] visits the files to search level by level until the
    callback returns false. *)
Fixpoint visit {S : Type} (func : S -> nat -> FileMetaData -> bool * S) (level : nat)
    (fs : list FileMetaData) (s : S) : bool * S :=
  match fs with
  | [] => (true, s)
  | f :: fs => match func s level f with
               | (true, s') => visit func level fs s'
               | (false, s') => (false, s')
               end
  end.

Fixpoint ForEachOverlapping_loop {S : Type} (levels : list nat) (v : Version) (user ikey : bytes)
    (func : S -> nat -> FileMetaData -> bool * S) (s : S) : option S :=
  match levels with
  | [] => Some s
  | level :: levels =>
      fs ← files_to_search v level user ikey;
      match visit func level fs s with
      | (true, s') => ForEachOverlapping_loop levels v user ikey func s'
      | (false, s') => Some s'
      end
  end.

Definition ForEachOverlapping {S : Type} (v : Version) (user ikey : bytes)
    (func : S -> nat -> FileMetaData -> bool * S) (s : S) : option S :=
  ForEachOverlapping_loop (seq 0 kNumLevels) v user ikey func s.

Record GetStats := mkStats { seek_file : option FileMetaData; seek_file_level : Z }.

(** [TableCache::Get] on the state of the caches: its status and the pair it
    passes to the callback, if it calls it. *)
Context {TC : Type} (TableCache_Get : Z -> Z -> bytes -> TC -> option (Status * option (bytes * bytes) * TC)).

(** The locals of [Version::Get]: the statistics, the last file read with its
    level, and the caller's value. *)
Record GetState := mkGet {
  g_stats : GetStats;
  g_last : option FileMetaData;
  g_last_level : Z;
  g_value : bytes
}.

(** One round of the search: [inl] when it returns, [inr] when it goes on. *)
Definition get_file (level : nat) (user ikey : bytes) (f : FileMetaData) (g : GetState) (tc : TC)
    : option (((Status * GetStats * bytes) + GetState) * TC) :=
  let stats := match g_last g, seek_file (g_stats g) with
               | Some l, None => mkStats (Some l) (g_last_level g)
               | _, _ => g_stats g
               end in
  t ← TableCache_Get (number f) (file_size f) ikey tc;
  let '(s, hit, tc) := t in
  let '(state, value) := match hit with
                         | Some (k, v) => SaveValue user (Saver.kNotFound, g_value g) k v
                         | None => (Saver.kNotFound, g_value g)
                         end in
  Some (if negb (ok s) then inl (s, stats, value)
        else match state with
             | Saver.kNotFound => inr (mkGet stats (Some f) (Z.of_nat level) value)
             | Saver.kFound => inl (s, stats, value)
             | Saver.kDeleted => inl (NotFound [], stats, value)
             | Saver.kCorrupt => inl (Corruption2 (lit "corrupted key for ") user, stats, value)
             end, tc).

Fixpoint get_files (level : nat) (user ikey : bytes) (fs : list FileMetaData) (g : GetState) (tc : TC)
    : option (((Status * GetStats * bytes) + GetState) * TC) :=
  match fs with
  | [] => Some (inr g, tc)
  | f :: fs =>
      r ← get_file level user ikey f g tc;
      match r with
      | (inl r, tc) => Some (inl r, tc)
      | (inr g', tc) => get_files level user ikey fs g' tc
      end
  end.

Fixpoint get_levels (levels : list nat) (v : Version) (user ikey : bytes) (g : GetState) (tc : TC)
    : option (Status * GetStats * bytes * TC) :=
  match levels with
  | [] => Some (NotFound [], g_stats g, g_value g, tc)
  | level :: levels =>
      fs ← files_to_search v level user ikey;
      r ← get_files level user ikey fs g tc;
      match r with
      | (inl r, tc) => Some (r, tc)
      | (inr g', tc) => get_levels levels v user ikey g' tc
      end
  end.

Definition Version_Get (v : Version) (k : LookupKey) (value : bytes) (tc : TC) : option (Status * GetStats * bytes * TC) :=
  get_levels (seq 0 kNumLevels) v (lk_user_key k) (lk_internal_key k)
    (mkGet (mkStats None (-1)) None (-1) value) tc.

(** ** Seek statistics *)

Definition map_file (level : nat) (num : Z) (g : FileMetaData -> FileMetaData) (v : Version) : Version :=
  mkVersion (alter (map (fun f => if number f =? num then g f else f)) level (files_ v))
    (file_to_compact_ v) (file_to_compact_level_ v) (compaction_score_ v) (compaction_level_ v).

Definition charge_seek (f : FileMetaData) : FileMetaData :=
  mkFile (refs f) (allowed_seeks f - 1) (number f) (file_size f) (smallest f) (largest f) (rh f).

Definition UpdateStats (v : Version) (stats : GetStats) : bool * Version :=
  match seek_file stats with
  | None => (false, v)
  | Some f0 =>
      let level := Z.to_nat (seek_file_level stats) in
      let v := map_file level (number f0) charge_seek v in
      match List.find (fun f => number f =? number f0) (level_files v level) with
      | None => (false, v)
      | Some f =>
          match allowed_seeks f <=? 0, file_to_compact_ v with
          | true, None => (true, mkVersion (files_ v) (Some f) (seek_file_level stats)
                                   (compaction_score_ v) (compaction_level_ v))
          | _, _ => (false, v)
          end
      end
  end.

(** [State::Match]: remember the first file, stop at the second. *)
Definition Match (state : GetStats * Z) (level : nat) (f : FileMetaData) : bool * (GetStats * Z) :=
  let matches := state.2 + 1 in
  let stats := if matches =? 1 then mkStats (Some f) (Z.of_nat level) else state.1 in
  (matches <? 2, (stats, matches)).

Definition RecordReadSample (v : Version) (internal_key : bytes) : option (bool * Version) :=
  match ParseInternalKey internal_key with
  | None => Some (false, v)
  | Some ikey =>
      state ← ForEachOverlapping v (user_key ikey) internal_key Match (mkStats None (-1), 0);
      Some (if 2 <=? state.2 then UpdateStats v state.1 else (false, v))
  end.

End Files.

(** ** Printing *)

Definition file_DebugString (f : FileMetaData) : bytes :=
  lit " " ++ NumberToString (number f) ++ lit ":" ++ NumberToString (file_size f) ++ lit "[" ++
  InternalKey_DebugString (smallest f) ++ lit " .. " ++ InternalKey_DebugString (largest f) ++ lit "]" ++ [x0a].

Definition Version_DebugString (v : Version) : bytes :=
  concat (map (fun level => lit "--- level " ++ NumberToString (Z.of_nat level) ++ lit " ---" ++ [x0a] ++
                            concat (map file_DebugString (level_files v level))) (seq 0 kNumLevels)).

(** ** Well-formed levels *)

Section Levels.
Context (ucmp : Comparator) `{!TotalCmp (Compare ucmp)}.

Abbreviation icmp := (InternalKey_Compare ucmp).

Definition ikey_ok (k : bytes) : Prop := exists u s t, valid_seq s /\ k = InternalKey u s t.

Definition file_ok (f : FileMetaData) : Prop :=
  ikey_ok (smallest f) /\ ikey_ok (largest f) /\ icmp (smallest f) (largest f) <> Gt.

(** The files of a level above 0: in order and disjoint. *)
Definition level_ok (fs : list FileMetaData) : Prop :=
  StronglySorted (fun a b => icmp (largest a) (smallest b) = Lt) fs /\ Forall file_ok fs.

(** Linear search, the reference for [FindFile]. *)
Fixpoint first_file (files : list FileMetaData) (key : bytes) : nat :=
  match files with
  | [] => 0
  | f :: files => if is_lt (icmp (largest f) key) then S (first_file files key) else 0
  end.

(** A file overlaps a range of user keys. *)
Definition overlaps (small large : option bytes) (f : FileMetaData) : bool :=
  negb (AfterFile ucmp small f || BeforeFile ucmp large f).

Lemma first_file_unique files key : forall r, (r <= length files)%nat ->
  (forall i f, (i < r)%nat -> files !! i = Some f -> icmp (largest f) key = Lt) ->
  (forall f, files !! r = Some f -> icmp (largest f) key <> Lt) -> r = first_file files key.
Proof.
  induction files as [|g files IH]; intros r Hr Hlt Hge; cbn in *; [lia|].
  destruct r as [|r].
  - specialize (Hge g eq_refl). by destruct (icmp (largest g) key).
  - rewrite (Hlt 0%nat g ltac:(lia) eq_refl). cbn. f_equal. apply IH; [lia| |done].
    intros i f Hi Hf. apply (Hlt (S i)); [lia|done].
Qed.

Lemma level_ok_cons f fs : level_ok (f :: fs) ->
  file_ok f /\ level_ok fs /\ Forall (fun b => icmp (largest f) (smallest b) = Lt) fs.
Proof. intros [Hs Hf]. apply StronglySorted_inv in Hs as [? ?]. inversion Hf; subst. split; [done|]. split; [by split|done]. Qed.

Lemma level_ok_lookup fs i j a b : level_ok fs -> (i < j)%nat -> fs !! i = Some a -> fs !! j = Some b ->
  icmp (largest a) (smallest b) = Lt.
Proof.
  intros Hok. revert i j. induction fs as [|f fs IH]; intros i j Hij Ha Hb; [done|].
  apply level_ok_cons in Hok as (_ & Hok & Hall).
  destruct j as [|j]; [lia|]. destruct i as [|i]; cbn in *.
  - injection Ha as ->. rewrite Forall_forall in Hall. apply Hall. by eapply list_elem_of_lookup_2.
  - apply (IH Hok i j); [lia|done|done].
Qed.

Lemma level_ok_file fs i f : level_ok fs -> fs !! i = Some f -> file_ok f.
Proof. intros [_ H] Hi. rewrite Forall_forall in H. apply H. by eapply list_elem_of_lookup_2. Qed.

Lemma level_ok_largest fs i j a b : level_ok fs -> (i <= j)%nat -> fs !! i = Some a -> fs !! j = Some b ->
  icmp (largest a) (largest b) <> Gt.
Proof.
  intros Hok Hij Ha Hb. destruct (decide (i = j)) as [->|Hne].
  - rewrite Ha in Hb. injection Hb as ->. by rewrite (cmp_refl icmp).
  - pose proof (level_ok_lookup fs i j a b Hok ltac:(lia) Ha Hb) as H.
    destruct (level_ok_file fs j b Hok Hb) as (_ & _ & Hb').
    rewrite (cmp_lt_le_trans icmp _ _ _ H Hb'). done.
Qed.

(** Binary search keeps the files before [left] below the key and those from
    [right] on at or above it. *)
Lemma FindFile_loop_spec fuel : forall files key left right, level_ok files -> zlen files < 2 ^ 31 ->
  0 <= left <= right -> right <= zlen files -> right - left < Z.of_nat fuel ->
  (forall i f, Z.of_nat i < left -> files !! i = Some f -> icmp (largest f) key = Lt) ->
  (forall i f, right <= Z.of_nat i -> files !! i = Some f -> icmp (largest f) key <> Lt) ->
  FindFile_loop ucmp fuel files key left right = Some (Z.of_nat (first_file files key)).
Proof.
  induction fuel as [|fuel IH]; intros files key left right Hok Hsz Hlr Hr Hfuel Hlt Hge; [lia|].
  cbn [FindFile_loop]. destruct (Z.ltb_spec left right) as [Hl|Hl].
  - rewrite (u32_small (left + right)) by lia. set (mid := (left + right) / 2).
    assert (Hm : left <= mid < right) by (unfold mid; split; [apply Z.div_le_lower_bound|apply Z.div_lt_upper_bound]; lia).
    assert (Hz : zlen files = Z.of_nat (length files)) by done.
    destruct (lookup_lt_is_Some_2 files (Z.to_nat mid) ltac:(lia)) as [f Hf]. rewrite Hf. cbn [mbind option_bind].
    destruct (is_lt (icmp (largest f) key)) eqn:Hc.
    + apply is_lt_true in Hc. rewrite u32_small by lia. apply IH; [done..|lia|lia|lia| |done].
      intros i g Hi Hg. apply (cmp_le_lt_trans icmp _ (largest f)); [|done].
      eapply (level_ok_largest files i (Z.to_nat mid)); eauto; lia.
    + assert (Hc' : icmp (largest f) key <> Lt) by (intros H; by rewrite H in Hc).
      apply IH; [done..|lia|lia|lia|done|]. intros i g Hi Hg Hgl. apply Hc'.
      apply (cmp_le_lt_trans icmp _ (largest g)); [|done].
      eapply (level_ok_largest files (Z.to_nat mid) i); eauto; lia.
  - f_equal. replace right with (Z.of_nat (Z.to_nat right)) by lia. f_equal.
    assert (Hz : zlen files = Z.of_nat (length files)) by done.
    apply first_file_unique; [lia| |].
    + intros i f Hi Hf. apply (Hlt i); [lia|done].
    + intros f Hf. apply (Hge (Z.to_nat right)); [lia|done].
Qed.

Lemma FindFile_first files key : level_ok files -> zlen files < 2 ^ 31 ->
  FindFile ucmp files key = Some (Z.of_nat (first_file files key)).
Proof.
  intros Hok Hsz. unfold FindFile. pose proof (zlen_nonneg files). rewrite u32_small by lia.
  apply FindFile_loop_spec; try (unfold zlen; lia) || done.
  - intros i f Hi Hf. apply lookup_lt_Some in Hf. unfold zlen in Hi. lia.
Qed.


(** ** Overlap searches *)

Lemma icmp_user_le a b : icmp a b <> Gt -> Compare ucmp (ExtractUserKey a) (ExtractUserKey b) <> Gt.
Proof. unfold InternalKey_Compare. by destruct (Compare ucmp (ExtractUserKey a) (ExtractUserKey b)). Qed.

(** The seek key with the largest sequence number comes before every entry of
    its user key. *)
Lemma before_seek_key a k : ikey_ok a ->
  icmp a (InternalKey k kMaxSequenceNumber kValueTypeForSeek) = Lt <-> Compare ucmp k (ExtractUserKey a) = Gt.
Proof.
  intros (u & s & t & Hs & ->).
  pose proof (InternalKey_Compare_spec ucmp u s t k kMaxSequenceNumber kValueTypeForSeek Hs) as Hc. cbn [Compare] in Hc.
  rewrite ExtractUserKey_InternalKey.
  change (Compare (InternalKeyComparator ucmp)) with icmp in Hc.
  rewrite Hc by (split; [by vm_compute|lia]).
  rewrite (cmp_opp (Compare ucmp) u k). destruct (Compare ucmp u k); cbn; try done.
  split; [|done]. unfold valid_seq in Hs. destruct (Z.compare_spec kMaxSequenceNumber s); try lia; [|done].
  by destruct t.
Qed.

Lemma AfterFile_seek k f : ikey_ok (largest f) ->
  AfterFile ucmp (Some k) f = is_lt (icmp (largest f) (InternalKey k kMaxSequenceNumber kValueTypeForSeek)).
Proof.
  intros Hf. unfold AfterFile, largest_user. pose proof (before_seek_key (largest f) k Hf) as H.
  destruct (Compare ucmp k (ExtractUserKey (largest f))), (icmp (largest f) _); cbn; try done;
    by (discriminate (proj1 H eq_refl) || discriminate (proj2 H eq_refl)).
Qed.

Lemma BeforeFile_later large f g : file_ok f -> icmp (largest f) (smallest g) = Lt ->
  BeforeFile ucmp large f = true -> BeforeFile ucmp large g = true.
Proof.
  intros (_ & _ & Hf) Hfg. unfold BeforeFile. destruct large as [k|]; [|done]. rewrite !is_lt_true. intros Hk.
  apply (cmp_lt_le_trans (Compare ucmp) _ (smallest_user f)); [done|].
  apply icmp_user_le. rewrite (cmp_le_lt_trans icmp _ (largest f)); done.
Qed.

Lemma no_later_overlap small large f fs : file_ok f ->
  Forall (fun b => icmp (largest f) (smallest b) = Lt) fs -> BeforeFile ucmp large f = true ->
  existsb (overlaps small large) fs = false.
Proof.
  intros Hf Hall Hb. apply not_true_iff_false. rewrite existsb_exists. intros (g & Hg & Ho).
  rewrite Forall_forall in Hall. unfold overlaps in Ho.
  rewrite (BeforeFile_later large f g Hf) in Ho; [by rewrite orb_true_r in Ho| |done].
  apply Hall. by apply list_elem_of_In.
Qed.

Lemma first_overlap files k large : level_ok files ->
  match files !! first_file files (InternalKey k kMaxSequenceNumber kValueTypeForSeek) with
  | Some f => negb (BeforeFile ucmp large f)
  | None => false
  end = existsb (overlaps (Some k) large) files.
Proof.
  induction files as [|f files IH]; intros Hok; [done|].
  apply level_ok_cons in Hok as (Hf & Hok & Hall). cbn [first_file existsb].
  unfold overlaps at 1. rewrite (AfterFile_seek k f) by apply Hf. destruct (is_lt _).
  - exact (IH Hok).
  - cbn. destruct (BeforeFile ucmp large f) eqn:Hb; [|done]. cbn. symmetry. by apply (no_later_overlap _ _ f).
Qed.

(** The binary search answers what the scan of every file answers. *)
Lemma SomeFileOverlapsRange_scan d files small large : (d = true -> level_ok files) -> zlen files < 2 ^ 31 ->
  SomeFileOverlapsRange ucmp d files small large = Some (existsb (overlaps small large) files).
Proof.
  intros Hok Hsz. destruct d; [specialize (Hok eq_refl)|done]. unfold SomeFileOverlapsRange.
  cbn [negb]. destruct small as [k|].
  - rewrite FindFile_first by done. cbn [mbind option_bind]. rewrite <- first_overlap by done.
    set (r := first_file files _). rewrite Nat2Z.id. unfold zlen.
    destruct (Z.leb_spec (Z.of_nat (length files)) (Z.of_nat r)).
    + by rewrite lookup_ge_None_2 by lia.
    + destruct (lookup_lt_is_Some_2 files r ltac:(lia)) as [f Hf]. by rewrite Hf.
  - cbn [mbind option_bind]. destruct files as [|f files]; [done|].
    apply level_ok_cons in Hok as (Hf & Hok & Hall).
    assert (E : (zlen (f :: files) <=? 0) = false) by (apply Z.leb_gt; unfold zlen; cbn [length]; lia).
    rewrite E. cbn [existsb]. unfold overlaps at 1. cbn.
    change (Some (negb (BeforeFile ucmp large f)) =
            Some (negb (BeforeFile ucmp large f) || existsb (overlaps None large) files)). f_equal.
    destruct (BeforeFile ucmp large f) eqn:Hb; [|done]. symmetry. by apply (no_later_overlap _ _ f).
Qed.

(** ** The files that overlap a range

    Bounds are ordered with [None] as the unbounded end. *)

Definition lo_le (a b : option bytes) : Prop :=
  match a, b with
  | None, _ => True
  | Some x, Some y => Compare ucmp x y <> Gt
  | Some _, None => False
  end.

Definition hi_le (a b : option bytes) : Prop :=
  match a, b with
  | _, None => True
  | Some x, Some y => Compare ucmp x y <> Gt
  | None, Some _ => False
  end.

(** [[b, e]] lies inside [[b', e']]. *)
Definition range_sub (b e b' e' : option bytes) : Prop := lo_le b' b /\ hi_le e e'.

Definition within (b e : option bytes) (f : FileMetaData) : Prop :=
  range_sub (Some (smallest_user f)) (Some (largest_user f)) b e.

(** No file that overlaps the range reaches out of it. *)
Definition closed_range (files : list FileMetaData) (b e : option bytes) : Prop :=
  forall f, f ∈ files -> overlaps b e f = true -> within b e f.

Lemma below_false b x : below ucmp b x = false <-> lo_le b (Some x).
Proof.
  destruct b as [b|]; [|done]. cbn. rewrite (cmp_opp (Compare ucmp) x b). by destruct (Compare ucmp x b).
Qed.

Lemma above_false e x : above ucmp e x = false <-> hi_le (Some x) e.
Proof. destruct e as [e|]; [|done]. cbn. by destruct (Compare ucmp x e). Qed.

Lemma overlaps_spec b e f :
  overlaps b e f = negb (below ucmp b (largest_user f)) && negb (above ucmp e (smallest_user f)).
Proof.
  unfold overlaps, AfterFile, BeforeFile, below, above. rewrite negb_orb. f_equal; f_equal.
  - destruct b as [b|]; [|done]. rewrite (cmp_opp (Compare ucmp) b). by destruct (Compare ucmp b _).
  - destruct e as [e|]; [|done]. rewrite (cmp_opp (Compare ucmp) e). by destruct (Compare ucmp e _).
Qed.

Lemma overlaps_true b e f : overlaps b e f = true <->
  lo_le b (Some (largest_user f)) /\ hi_le (Some (smallest_user f)) e.
Proof. by rewrite overlaps_spec, andb_true_iff, !negb_true_iff, below_false, above_false. Qed.

Lemma lo_le_trans a b c : lo_le a b -> lo_le b c -> lo_le a c.
Proof. destruct a, b, c; cbn; try done. apply (cmp_le_trans (Compare ucmp)). Qed.

Lemma hi_le_trans a b c : hi_le a b -> hi_le b c -> hi_le a c.
Proof. destruct a, b, c; cbn; try done. apply (cmp_le_trans (Compare ucmp)). Qed.

Lemma overlaps_mono b e b' e' f : range_sub b e b' e' -> overlaps b e f = true -> overlaps b' e' f = true.
Proof.
  intros [Hl Hh]. rewrite !overlaps_true. intros [H1 H2].
  split; [by eapply lo_le_trans|by eapply hi_le_trans].
Qed.

Lemma filter_strict {A} (P Q : A -> bool) l x : (forall y, P y = true -> Q y = true) ->
  x ∈ l -> Q x = true -> P x = false -> (length (List.filter P l) < length (List.filter Q l))%nat.
Proof.
  intros Hpq. assert (Hle : forall l, (length (List.filter P l) <= length (List.filter Q l))%nat).
  { induction l0 as [|y l0 IH]; cbn; [done|]. destruct (P y) eqn:Ep; [rewrite (Hpq _ Ep); cbn; lia|].
    destruct (Q y); cbn; lia. }
  induction l as [|y l IH]; intros Hx Hq Hp; [by apply not_elem_of_nil in Hx|]. cbn.
  apply elem_of_cons in Hx as [<-|Hx].
  - rewrite Hq, Hp. cbn. specialize (Hle l). lia.
  - specialize (IH Hx Hq Hp). destruct (P y) eqn:Ep; [rewrite (Hpq _ Ep); cbn; lia|]. destruct (Q y); cbn; lia.
Qed.

(** How many times the range can still grow. *)
Definition growth (files : list FileMetaData) (b e : option bytes) : nat :=
  length (List.filter (fun f => below ucmp b (smallest_user f)) files) +
  length (List.filter (fun f => above ucmp e (largest_user f)) files).

Lemma growth_begin files b e f : f ∈ files -> below ucmp b (smallest_user f) = true ->
  (growth files (Some (smallest_user f)) e < growth files b e)%nat.
Proof.
  intros Hf Hb. unfold growth. apply Nat.add_lt_mono_r. apply (filter_strict _ _ files f); [|done..|].
  - intros g Hg. destruct b as [b|]; [|done]. cbn in *. rewrite is_lt_true in *. by eapply (cmp_lt_trans (Compare ucmp)).
  - cbn. by rewrite (cmp_refl (Compare ucmp)).
Qed.

Lemma growth_end files b e f : f ∈ files -> above ucmp e (largest_user f) = true ->
  (growth files b (Some (largest_user f)) < growth files b e)%nat.
Proof.
  intros Hf He. unfold growth. apply Nat.add_lt_mono_l. apply (filter_strict _ _ files f); [|done..|].
  - intros g Hg. destruct e as [e|]; [|done]. cbn in *.
    assert (H1 : Compare ucmp (largest_user g) (largest_user f) = Gt) by by destruct (Compare ucmp (largest_user g) _).
    assert (H2 : Compare ucmp (largest_user f) e = Gt) by by destruct (Compare ucmp (largest_user f) _).
    rewrite (cmp_gt_lt (Compare ucmp)) in H1, H2.
    assert (H3 : Compare ucmp (largest_user g) e = Gt)
      by (apply (cmp_gt_lt (Compare ucmp)); by eapply (cmp_lt_trans (Compare ucmp))).
    by rewrite H3.
  - cbn. by rewrite (cmp_refl (Compare ucmp)).
Qed.


Lemma overlapping_deep fuel : forall level files todo b e inputs, level <> 0%nat -> (length todo < fuel)%nat ->
  GetOverlappingInputs_loop ucmp fuel level files todo b e inputs = Some (inputs ++ List.filter (overlaps b e) todo).
Proof.
  induction fuel as [|fuel IH]; intros level files todo b e inputs Hl Hf; [lia|].
  destruct todo as [|f todo]; cbn in Hf |- *; [by rewrite app_nil_r|].
  rewrite overlaps_spec. apply Nat.eqb_neq in Hl as Hl'. rewrite Hl'.
  destruct (below ucmp b (largest_user f)); cbn; [apply IH; [done|lia]|].
  destruct (above ucmp e (smallest_user f)); cbn; [apply IH; [done|lia]|].
  rewrite IH by (done || lia). by rewrite <- app_assoc.
Qed.

(** What the level-0 search returns for the range [b, e]: the files that
    overlap the least closed range around it. *)
Definition closure_of (files : list FileMetaData) (b e : option bytes) (r : list FileMetaData) : Prop :=
  exists b' e', range_sub b e b' e' /\ closed_range files b' e' /\ r = List.filter (overlaps b' e') files /\
    forall b2 e2, range_sub b e b2 e2 -> closed_range files b2 e2 -> range_sub b' e' b2 e2.

Lemma range_sub_refl b e : range_sub b e b e.
Proof. destruct b, e; split; cbn; rewrite ?(cmp_refl (Compare ucmp)); done. Qed.

Lemma range_sub_trans b e b1 e1 b2 e2 : range_sub b e b1 e1 -> range_sub b1 e1 b2 e2 -> range_sub b e b2 e2.
Proof. intros [? ?] [? ?]. split; [by eapply lo_le_trans|by eapply hi_le_trans]. Qed.

(** A restart with a wider range [b1, e1] that every closed range contains
    finds the same closure. *)
Lemma closure_widen files b e b1 e1 r : range_sub b e b1 e1 ->
  (forall b2 e2, range_sub b e b2 e2 -> closed_range files b2 e2 -> range_sub b1 e1 b2 e2) ->
  closure_of files b1 e1 r -> closure_of files b e r.
Proof.
  intros H1 Hmin (b' & e' & Hs & Hc & -> & Hl). exists b', e'.
  split; [by eapply range_sub_trans|]. split; [done|]. split; [done|]. intros b2 e2 H2 Hc2. apply Hl; [|done].
  by apply Hmin.
Qed.

Lemma widen_begin files b e f : f ∈ files -> overlaps b e f = true -> below ucmp b (smallest_user f) = true ->
  range_sub b e (Some (smallest_user f)) e /\
  forall b2 e2, range_sub b e b2 e2 -> closed_range files b2 e2 -> range_sub (Some (smallest_user f)) e b2 e2.
Proof.
  intros Hf Ho Hb. split.
  - split; [|apply (range_sub_refl b e)]. destruct b as [b|]; [|done]. cbn in *. apply is_lt_true in Hb. by rewrite Hb.
  - intros b2 e2 Hs Hc. destruct (Hc f Hf) as [Hl _]; [by eapply overlaps_mono|]. split; [done|apply Hs].
Qed.

Lemma widen_end files b e f : f ∈ files -> overlaps b e f = true -> above ucmp e (largest_user f) = true ->
  range_sub b e b (Some (largest_user f)) /\
  forall b2 e2, range_sub b e b2 e2 -> closed_range files b2 e2 -> range_sub b (Some (largest_user f)) b2 e2.
Proof.
  intros Hf Ho He. split.
  - split; [apply (range_sub_refl b e)|]. destruct e as [e|]; [|done]. cbn in *.
    rewrite (cmp_opp (Compare ucmp)). by destruct (Compare ucmp (largest_user f) e).
  - intros b2 e2 Hs Hc. destruct (Hc f Hf) as [_ Hh]; [by eapply overlaps_mono|]. split; [apply Hs|done].
Qed.

Lemma overlapping_level0 fuel : forall files done_ todo b e, files = done_ ++ todo ->
  (forall f, f ∈ done_ -> overlaps b e f = true -> within b e f) ->
  (growth files b e * S (length files) + length todo < fuel)%nat ->
  exists r, GetOverlappingInputs_loop ucmp fuel 0 files todo b e (List.filter (overlaps b e) done_) = Some r /\
    closure_of files b e r.
Proof.
  induction fuel as [|fuel IH]; intros files done_ todo b e Hfs Hdone Hfuel; [lia|].
  destruct todo as [|f todo].
  { eexists. split; [done|]. rewrite app_nil_r in Hfs. subst done_. exists b, e.
    split; [apply range_sub_refl|]. split; [done|]. split; [done|]. by intros. }
  assert (Hin : f ∈ files) by (rewrite Hfs; set_solver).
  assert (Hskip : forall inp, inp = List.filter (overlaps b e) (done_ ++ [f]) ->
    (overlaps b e f = true -> within b e f) -> exists r,
    GetOverlappingInputs_loop ucmp fuel 0 files todo b e inp = Some r /\ closure_of files b e r).
  { intros inp -> Hf. apply IH; [by rewrite <- app_assoc| |cbn in Hfuel; lia].
    intros g [Hg| ->%list_elem_of_singleton]%elem_of_app; [by apply Hdone|done]. }
  assert (Hrestart : forall b1 e1, (growth files b1 e1 < growth files b e)%nat -> exists r,
    GetOverlappingInputs_loop ucmp fuel 0 files files b1 e1 [] = Some r /\ closure_of files b1 e1 r).
  { intros b1 e1 Hg. apply (IH files [] files b1 e1); [done|set_solver|]. cbn in Hfuel. nia. }
  rewrite List.filter_app in Hskip. cbn in Hskip |- *. pose proof (overlaps_spec b e f) as Ho.
  destruct (below ucmp b (largest_user f)); cbn in Ho;
    [rewrite Ho, app_nil_r in Hskip; by apply Hskip|].
  destruct (above ucmp e (smallest_user f)); cbn in Ho;
    [rewrite Ho, app_nil_r in Hskip; by apply Hskip|].
  rewrite Ho in Hskip.
  destruct (below ucmp b (smallest_user f)) eqn:Hb.
  { destruct (Hrestart _ _ (growth_begin files b e f Hin Hb)) as (r & -> & Hr). exists r. split; [done|].
    destruct (widen_begin files b e f Hin Ho Hb). by eapply closure_widen. }
  destruct (above ucmp e (largest_user f)) eqn:He.
  { destruct (Hrestart _ _ (growth_end files b e f Hin He)) as (r & -> & Hr). exists r. split; [done|].
    destruct (widen_end files b e f Hin Ho He). by eapply closure_widen. }
  apply Hskip; [done|]. intros _. split; [by apply below_false|by apply above_false].
Qed.

Lemma GetOverlappingInputs_level0 v b e :
  exists r, GetOverlappingInputs ucmp v 0 b e = Some r /\
    closure_of (level_files v 0) (ExtractUserKey <$> b) (ExtractUserKey <$> e) r.
Proof.
  unfold GetOverlappingInputs. set (fs := level_files v 0).
  apply (overlapping_level0 _ fs [] fs); [done|set_solver|]. unfold overlap_fuel, growth.
  pose proof (List.filter_length_le (fun f => below ucmp (ExtractUserKey <$> b) (smallest_user f)) fs).
  pose proof (List.filter_length_le (fun f => above ucmp (ExtractUserKey <$> e) (largest_user f)) fs). nia.
Qed.

Lemma GetOverlappingInputs_deep v level b e : level <> 0%nat ->
  GetOverlappingInputs ucmp v level b e =
  Some (List.filter (overlaps (ExtractUserKey <$> b) (ExtractUserKey <$> e)) (level_files v level)).
Proof. intros Hl. unfold GetOverlappingInputs. apply overlapping_deep; [done|]. unfold overlap_fuel. lia. Qed.

(** ** Versions *)

(** The state a [VersionSet] keeps: seven levels, those above 0 ordered. *)
Definition version_ok (v : Version) : Prop :=
  length (files_ v) = kNumLevels /\
  (forall level, zlen (level_files v level) < 2 ^ 31) /\
  Forall file_ok (level_files v 0) /\
  forall level, level <> 0%nat -> level_ok (level_files v level).

Lemma OverlapInLevel_scan v level small large : version_ok v ->
  OverlapInLevel ucmp v level small large = Some (existsb (overlaps small large) (level_files v level)).
Proof.
  intros (_ & Hsz & _ & Hok). unfold OverlapInLevel. apply SomeFileOverlapsRange_scan; [|done].
  intros Hl. apply Hok. apply Nat.ltb_lt in Hl. lia.
Qed.

Lemma PickLevel_loop_spec n : forall max v level small large, version_ok v ->
  existsb (overlaps (Some small) (Some large)) (level_files v level) = false ->
  exists l, PickLevel_loop ucmp n max v level small large = Some l /\ (level <= l <= level + n)%nat /\
    forall k, (level <= k <= l)%nat -> existsb (overlaps (Some small) (Some large)) (level_files v k) = false.
Proof.
  induction n as [|n IH]; intros max v level small large Hv Hno; cbn [PickLevel_loop].
  { exists level. split; [done|]. split; [lia|]. intros k Hk. by replace k with level by lia. }
  rewrite OverlapInLevel_scan by done. cbn [mbind option_bind].
  assert (Hstop : exists l, Some level = Some l /\ (level <= l <= level + S n)%nat /\
    forall k, (level <= k <= l)%nat -> existsb (overlaps (Some small) (Some large)) (level_files v k) = false).
  { exists level. split; [done|]. split; [lia|]. intros k Hk. by replace k with level by lia. }
  destruct (existsb _ (level_files v (level + 1))) eqn:Ho; [exact Hstop|].
  assert (Hgo : exists l, PickLevel_loop ucmp n max v (level + 1) small large = Some l /\ (level <= l <= level + S n)%nat /\
    forall k, (level <= k <= l)%nat -> existsb (overlaps (Some small) (Some large)) (level_files v k) = false).
  { destruct (IH max v (level + 1)%nat small large Hv Ho) as (l & Hl & Hr & Hk). exists l. split; [done|].
    split; [lia|]. intros k Hk'. destruct (decide (k = level)) as [->|]; [done|]. apply Hk. lia. }
  destruct (Nat.ltb_spec (level + 2) kNumLevels); [|exact Hgo].
  rewrite GetOverlappingInputs_deep by lia. cbn [mbind option_bind]. by destruct (_ <? _).
Qed.

End Levels.

(** ** The read path finds the newest visible entry *)

Section Reads.
Context (ucmp : Comparator) `{!TotalCmp (Compare ucmp)}.
Context (content : FileMetaData -> list Entry)
        {TC : Type} (TableCache_Get : Z -> Z -> bytes -> TC -> option (Status * option (bytes * bytes) * TC))
        (tinv : nat -> TC -> Prop).

Abbreviation icmp := (InternalKey_Compare ucmp).

Fixpoint seek_entry (es : list Entry) (ikey : bytes) : option Entry :=
  match es with
  | [] => None
  | e :: es => if is_lt (icmp (e_ikey e) ikey) then seek_entry es ikey else Some e
  end.

(** What a table lookup promises in the states [tinv] describes, where the
    number is that of the tables the caches can still open: the callback gets
    the first entry at or after the key; it may be skipped when the file has no
    entry the lookup can see, which is what a filter is for. *)
Definition table_answers (f : FileMetaData) : Prop := forall u s n tc, valid_seq s -> tinv (S n) tc ->
  exists r tc', TableCache_Get (number f) (file_size f) (seek_key u s) tc = Some (Status_OK, r, tc') /\ tinv n tc' /\
    (r = (fun e => (e_ikey e, e_value e)) <$> seek_entry (content f) (seek_key u s) \/
     r = None /\ forall e, e ∈ content f -> ~ visible ucmp u s e).

(** The entries of a file are ordered and lie in its range, which ends with
    an entry. *)
Definition content_ok (f : FileMetaData) : Prop :=
  Forall entry_ok (content f) /\ sorted_entries ucmp (content f) /\
  (forall e, e ∈ content f -> icmp (smallest f) (e_ikey e) <> Gt /\ icmp (e_ikey e) (largest f) <> Gt) /\
  exists e, e ∈ content f /\ e_ikey e = largest f.

Definition level_entries (v : Version) (level : nat) : list Entry := concat (map content (level_files v level)).
Definition version_entries (v : Version) : list Entry := concat (map (level_entries v) (seq 0 kNumLevels)).

(** Data only moves down: of two entries of one key the one the search meets
    first is the newer one. *)
Definition newer_first (v : Version) : Prop :=
  (forall l1 l2 e1 e2, (l1 < l2)%nat -> e1 ∈ level_entries v l1 -> e2 ∈ level_entries v l2 ->
     Compare ucmp (e_key e1) (e_key e2) = Eq -> e_seq e2 <= e_seq e1) /\
  (forall f1 f2 e1 e2, f1 ∈ level_files v 0 -> f2 ∈ level_files v 0 -> number f2 < number f1 ->
     e1 ∈ content f1 -> e2 ∈ content f2 -> Compare ucmp (e_key e1) (e_key e2) = Eq -> e_seq e2 <= e_seq e1) /\
  NoDup (map number (level_files v 0)).

Definition readable (v : Version) : Prop :=
  version_ok ucmp v /\ newer_first v /\
  forall level f, f ∈ level_files v level -> content_ok f /\ table_answers f.

(** Fewer tables can always be opened. *)
Definition budget : Prop := forall n tc, tinv (S n) tc -> tinv n tc.

Lemma budget_le m n tc : budget -> (n <= m)%nat -> tinv m tc -> tinv n tc.
Proof. intros Hb. induction 1 as [|m _ IH]; [done|]. intros Hm. by apply IH, Hb. Qed.

(** What [Get] returns for the entry it settles on. *)
Definition answer (e : Entry) (value : bytes) : Status * bytes :=
  match e_type e with
  | kTypeValue => (Status_OK, e_value e)
  | kTypeDeletion => (NotFound [], value)
  end.

Lemma seek_entry_spec es u s : Forall entry_ok es -> sorted_entries ucmp es -> valid_seq s ->
  match seek_entry es (seek_key u s) with
  | Some e => e ∈ es /\ if is_eq (Compare ucmp (e_key e) u) then newest ucmp es u s e
                        else forall e', e' ∈ es -> ~ visible ucmp u s e'
  | None => forall e', e' ∈ es -> ~ visible ucmp u s e'
  end.
Proof.
  intros Hok Hs Hv.
  assert (Hsplit : exists pre suf, es = pre ++ suf /\ seek_entry es (seek_key u s) = head suf /\
    (forall e, e ∈ pre -> icmp (e_ikey e) (seek_key u s) = Lt) /\
    (forall e, e ∈ suf -> icmp (e_ikey e) (seek_key u s) <> Lt)).
  { clear Hok. induction es as [|e es IH]; [exists [], []; set_solver|].
    apply StronglySorted_inv in Hs as [Hs Hall]. cbn [seek_entry]. destruct (is_lt (icmp (e_ikey e) (seek_key u s))) eqn:E.
    - destruct (IH Hs) as (pre & suf & -> & Hh & Hp & Hf). exists (e :: pre), suf. apply is_lt_true in E.
      split; [done|]. split; [done|]. set_solver.
    - exists [], (e :: es). split; [done|]. split; [done|]. split; [set_solver|].
      assert (He : icmp (e_ikey e) (seek_key u s) <> Lt) by (intros H; by rewrite H in E).
      intros e' [->|He']%elem_of_cons; [done|]. rewrite Forall_forall in Hall. intros Hlt. apply He.
      apply (cmp_lt_trans icmp _ (e_ikey e')); [by apply Hall|done]. }
  destruct Hsplit as (pre & suf & Hes & -> & Hp & Hf).
  pose proof (lookup_position ucmp es pre suf u s Hok Hs Hv Hes Hp Hf) as H.
  destruct suf as [|e suf]; cbn; [done|]. split; [rewrite Hes; set_solver|done].
Qed.

Lemma SaveValue_entry u s e v : entry_ok e ->
  SaveValue ucmp u s (e_ikey e) v =
  if is_eq (Compare ucmp (e_key e) u)
  then match e_type e with kTypeValue => (Saver.kFound, v) | kTypeDeletion => (Saver.kDeleted, s.2) end else s.
Proof.
  intros (He & _). unfold SaveValue, e_ikey. rewrite ParseInternalKey_InternalKey by done. cbn.
  destruct (is_eq _); [|done]. by destruct (e_type e).
Qed.

(** One file: either it has no visible entry and the search goes on, or it
    answers with its newest one. *)
Lemma get_file_spec level u s f g n tc : content_ok f -> table_answers f -> valid_seq s -> tinv (S n) tc ->
  exists tc', tinv n tc' /\
  ((exists g', get_file ucmp TableCache_Get level u (seek_key u s) f g tc = Some (inr g', tc') /\ g_value g' = g_value g /\
     forall e, e ∈ content f -> ~ visible ucmp u s e) \/
   (exists e st, newest ucmp (content f) u s e /\
     get_file ucmp TableCache_Get level u (seek_key u s) f g tc = Some (inl ((answer e (g_value g)).1, st, (answer e (g_value g)).2), tc'))).
Proof.
  intros (Hok & Hs & _ & _) Ht Hv Hi. unfold get_file. destruct (Ht u s n tc Hv Hi) as (r & tc' & -> & Hi' & Hr).
  cbn [mbind option_bind]. exists tc'. split; [done|]. destruct Hr as [->|[-> Hno]].
  - pose proof (seek_entry_spec (content f) u s Hok Hs Hv) as Hse.
    destruct (seek_entry _ _) as [e|]; cbn [fmap option_fmap option_map]; [|left; eauto].
    destruct Hse as [He Hse]. rewrite Forall_forall in Hok. rewrite SaveValue_entry by by apply Hok.
    destruct (is_eq _); [right|left; eauto]. exists e. unfold answer. destruct (e_type e); cbn; eauto.
  - left. eexists. split; [done|]. split; [done|]. exact Hno.
Qed.

Lemma get_files_spec level u s fs n : budget -> forall g tc, Forall (fun f => content_ok f /\ table_answers f) fs -> valid_seq s ->
  tinv (length fs + n) tc ->
  exists tc', tinv n tc' /\
  ((exists g', get_files ucmp TableCache_Get level u (seek_key u s) fs g tc = Some (inr g', tc') /\ g_value g' = g_value g /\
     forall f e, f ∈ fs -> e ∈ content f -> ~ visible ucmp u s e) \/
   (exists pre f suf e st, fs = pre ++ f :: suf /\ newest ucmp (content f) u s e /\
     (forall f' e', f' ∈ pre -> e' ∈ content f' -> ~ visible ucmp u s e') /\
     get_files ucmp TableCache_Get level u (seek_key u s) fs g tc = Some (inl ((answer e (g_value g)).1, st, (answer e (g_value g)).2), tc'))).
Proof.
  intros Hb. induction fs as [|f fs IH]; intros g tc Hall Hv Hi; cbn [get_files].
  { exists tc. split; [done|]. left. exists g. split; [done|]. split; [done|]. set_solver. }
  inversion Hall as [|? ? [Hc Ht] Hall']; subst.
  destruct (get_file_spec level u s f g (length fs + n) tc Hc Ht Hv Hi) as (tc1 & Hi1 & [(g1 & -> & Hg1 & Hno)|(e & st & Hn & ->)]);
    cbn [mbind option_bind].
  - rewrite <- Hg1. destruct (IH g1 tc1 Hall' Hv Hi1) as (tc' & Hi' & [(g' & -> & Hg & Hno')|(pre & h & suf & e & st & -> & Hn & Hpre & ->)]);
      exists tc'; (split; [done|]).
    + left. exists g'. split; [done|]. split; [congruence|]. set_solver.
    + right. exists (f :: pre), h, suf, e, st. split; [done|]. split; [done|]. split; [set_solver|done].
  - exists tc1. split; [by apply (budget_le (length fs + n)); [|lia|]|]. right. exists [], f, fs, e, st. split; [done|]. split; [done|]. split; [set_solver|done].
Qed.


(** *** Which files can hold a visible entry *)

Lemma visible_in_range f u s e : content_ok f -> e ∈ content f -> visible ucmp u s e ->
  Compare ucmp u (smallest_user f) <> Lt /\ Compare ucmp u (largest_user f) <> Gt.
Proof.
  intros (_ & _ & Hr & _) He [Hk _]. destruct (Hr e He) as [Hl Hh].
  apply icmp_user_le in Hl, Hh; try done. unfold e_ikey in Hl, Hh.
  rewrite ExtractUserKey_InternalKey in Hl, Hh. fold (smallest_user f) in Hl. fold (largest_user f) in Hh.
  rewrite (cmp_eq_r (Compare ucmp) _ _ _ Hk) in Hl. rewrite (cmp_eq_l (Compare ucmp) _ _ _ Hk) in Hh.
  split; [|done]. by apply (cmp_not_gt_le (Compare ucmp)).
Qed.

Lemma visible_not_below f u s e : content_ok f -> valid_seq s -> e ∈ content f -> visible ucmp u s e ->
  icmp (largest f) (seek_key u s) <> Lt.
Proof.
  intros (Hok & _ & Hr & _) Hs He Hv Hlt. rewrite Forall_forall in Hok.
  apply (not_before ucmp e u s (proj1 (Hok e He)) Hs); [by right|].
  destruct (Hr e He) as [_ Hh]. by apply (cmp_le_lt_trans icmp _ (largest f)).
Qed.

(** In a sorted level, if a file after [f] shows a visible entry then [f]
    shows one at least as new, unless it ends before the search key. *)
Lemma visible_later f g u s e : content_ok f -> content_ok g -> valid_seq s ->
  icmp (largest f) (smallest g) = Lt -> icmp (largest f) (seek_key u s) <> Lt ->
  e ∈ content g -> visible ucmp u s e ->
  exists e0, e0 ∈ content f /\ visible ucmp u s e0 /\ e_seq e <= e_seq e0.
Proof.
  intros (Hfok & _ & _ & e0 & He0 & Hl0) (Hgok & _ & Hgr & _) Hs Hfg Hseek He [Hk Hseq].
  rewrite Forall_forall in Hfok. rewrite Forall_forall in Hgok.
  assert (Hlt : icmp (e_ikey e0) (e_ikey e) = Lt).
  { rewrite Hl0. apply (cmp_lt_le_trans icmp _ (smallest g)); [done|]. by apply (Hgr e He). }
  destruct (ikey_lt_seq ucmp e0 e (proj1 (Hfok e0 He0)) (proj1 (Hgok e He)) Hlt) as [Hu Hsq].
  rewrite <- Hl0 in Hseek. apply (not_before ucmp e0 u s (proj1 (Hfok e0 He0)) Hs) in Hseek.
  rewrite (cmp_eq_r (Compare ucmp) _ _ _ Hk) in Hu, Hsq.
  destruct Hseek as [Hgt|Hv0]; [congruence|]. exists e0. split; [done|]. split; [done|]. apply Hsq, Hv0.
Qed.

Lemma first_file_below files key : forall i f, (i < first_file ucmp files key)%nat -> files !! i = Some f ->
  icmp (largest f) key = Lt.
Proof.
  induction files as [|g files IH]; intros i f Hi Hf; [done|]. cbn [first_file] in Hi.
  destruct (is_lt (icmp (largest g) key)) eqn:E; [|lia]. destruct i as [|i]; cbn in Hf.
  - injection Hf as <-. by apply is_lt_true.
  - apply (IH i); [lia|done].
Qed.

Lemma first_file_at files key f : files !! first_file ucmp files key = Some f -> icmp (largest f) key <> Lt.
Proof.
  induction files as [|g files IH]; [done|]. cbn [first_file].
  destruct (is_lt (icmp (largest g) key)) eqn:E; [exact IH|]. intros [= <-] H. by rewrite H in E.
Qed.

Lemma elem_level_entries v level e : e ∈ level_entries v level <->
  exists i f, level_files v level !! i = Some f /\ e ∈ content f.
Proof.
  unfold level_entries. rewrite list_elem_of_In, in_concat. split.
  - intros (l & (f & <- & Hf)%in_map_iff & He). apply list_elem_of_In, list_elem_of_lookup in Hf as [i Hi].
    exists i, f. split; [done|]. by apply list_elem_of_In.
  - intros (i & f & Hi & He). exists (content f). split; [|by apply list_elem_of_In].
    apply in_map. apply list_elem_of_In. by eapply list_elem_of_lookup_2.
Qed.

(** A search of one level: it either finds nothing visible and goes on, or
    answers with the newest visible entry of [es]. *)
Definition searched (level : nat) (es : list Entry) (u : bytes) (s : Z) (fs : list FileMetaData) (g : GetState) (n : nat) (tc : TC) : Prop :=
  exists tc', tinv n tc' /\
  ((exists g', get_files ucmp TableCache_Get level u (seek_key u s) fs g tc = Some (inr g', tc') /\ g_value g' = g_value g /\
     forall e, e ∈ es -> ~ visible ucmp u s e) \/
   (exists e st, newest ucmp es u s e /\
     get_files ucmp TableCache_Get level u (seek_key u s) fs g tc = Some (inl ((answer e (g_value g)).1, st, (answer e (g_value g)).2), tc'))).

Definition held (es : list Entry) (u : bytes) (s : Z) (e : Entry) : Prop :=
  exists e0, e0 ∈ es /\ visible ucmp u s e0 /\ e_seq e <= e_seq e0.

Lemma deep_first v level u s i h e : readable v -> valid_seq s -> level_files v level !! i = Some h ->
  e ∈ content h -> visible ucmp u s e -> (first_file ucmp (level_files v level) (seek_key u s) <= i)%nat.
Proof.
  intros (_ & _ & Hcont) Hs Hh He Hv. apply Nat.nlt_ge. intros Hi.
  destruct (Hcont level h) as [Hc _]; [by eapply list_elem_of_lookup_2|].
  apply (visible_not_below h u s e Hc Hs He Hv). by apply (first_file_below (level_files v level) _ i).
Qed.

(** Every visible entry of a sorted level is matched by one of the file the
    binary search finds. *)
Lemma deep_candidate v level u s f : readable v -> valid_seq s -> level <> 0%nat ->
  level_files v level !! first_file ucmp (level_files v level) (seek_key u s) = Some f ->
  forall e, e ∈ level_entries v level -> visible ucmp u s e -> held (content f) u s e.
Proof.
  intros Hrd Hs Hl Hf e (i & h & Hh & He)%elem_level_entries Hv.
  pose proof (deep_first v level u s i h e Hrd Hs Hh He Hv) as Hi.
  destruct Hrd as ((_ & _ & _ & Hlv) & _ & Hcont).
  destruct (decide (i = first_file ucmp (level_files v level) (seek_key u s))) as [->|Hne].
  - assert (h = f) as -> by congruence. exists e. split; [done|]. split; [done|lia].
  - apply (visible_later f h u s e); try done.
    + apply (Hcont level). by eapply list_elem_of_lookup_2.
    + apply (Hcont level). by eapply list_elem_of_lookup_2.
    + eapply (level_ok_lookup ucmp _ _ i f h (Hlv level Hl)); [|done|done]. lia.
    + by eapply first_file_at.
Qed.

Lemma search_deep v level u s g n tc : readable v -> budget -> valid_seq s -> tinv (length (level_files v level) + n) tc -> level <> 0%nat ->
  exists fs, level_file ucmp v level u (seek_key u s) = Some fs /\ searched level (level_entries v level) u s fs g n tc.
Proof.
  intros Hrd Hb Hs Hti Hl. pose proof (deep_candidate v level u s) as Hall.
  assert (Hfirst := deep_first v level u s). pose proof Hrd as ((_ & Hsz & _ & Hlv) & _ & Hcont).
  unfold level_file. rewrite (FindFile_first ucmp _ _ (Hlv level Hl) (Hsz level)). cbn [mbind option_bind].
  set (r := first_file ucmp (level_files v level) (seek_key u s)) in *.
  assert (Hnone : (forall e, e ∈ level_entries v level -> ~ visible ucmp u s e) ->
    exists fs, Some [] = Some fs /\ searched level (level_entries v level) u s fs g n tc).
  { intros Hno. exists []. split; [done|]. exists tc. split; [by apply (budget_le (length (level_files v level) + n)); [|lia|]|]. left. by exists g. }
  destruct (Z.leb_spec (zlen (level_files v level)) (Z.of_nat r)) as [Hr|Hr]; unfold zlen in Hr.
  { apply Hnone. intros e (i & f & Hf & He)%elem_level_entries Hv. pose proof (Hfirst i f e Hrd Hs Hf He Hv).
    apply lookup_lt_Some in Hf. lia. }
  rewrite Nat2Z.id. destruct (lookup_lt_is_Some_2 (level_files v level) r ltac:(lia)) as [f Hf].
  specialize (Hall f Hrd Hs Hl Hf). rewrite Hf. cbn [mbind option_bind].
  destruct (Hcont level f) as [Hcf Htf]; [by eapply list_elem_of_lookup_2|].
  destruct (is_lt (Compare ucmp u (smallest_user f))) eqn:Hlt.
  { apply Hnone. intros e He Hv. destruct (Hall e He Hv) as (e0 & He0 & Hv0 & _).
    destruct (visible_in_range f u s e0 Hcf He0 Hv0) as [H _]. by apply is_lt_true in Hlt. }
  exists [f]. split; [done|].
  apply (budget_le _ (1 + n)) in Hti; [|done|lia].
  destruct (get_files_spec level u s [f] n Hb g tc (Forall_cons_2 _ _ _ (conj Hcf Htf) (Forall_nil_2 _)) Hs Hti)
    as (tc' & Hti' & [(g' & Hg & Hval & Hno)|(pre & h & suf & e & st & Heq & Hn & _ & Hg)]); exists tc'; (split; [done|]).
  - left. exists g'. split; [done|]. split; [done|]. intros e He Hv.
    destruct (Hall e He Hv) as (e0 & He0 & Hv0 & _). by apply (Hno f e0 ltac:(by left)).
  - right. exists e, st. split; [|done].
    assert (h = f) as -> by (destruct pre as [|x pre]; [by injection Heq|by destruct pre]).
    destruct Hn as (He & Hv & Hmax). split; [apply elem_level_entries; by exists r, f|]. split; [done|].
    intros e' He' Hv'. destruct (Hall e' He' Hv') as (e0 & He0 & Hv0 & Hle). specialize (Hmax e0 He0 Hv0). lia.
Qed.


(** *** Level 0 *)

Lemma insert_newest_perm f l : insert_newest f l ≡ₚ f :: l.
Proof.
  induction l as [|g l IH]; cbn; [done|]. destruct (NewestFirst f g); [done|]. rewrite IH. apply Permutation_swap.
Qed.

Lemma sort_newest_perm l : sort_newest l ≡ₚ l.
Proof. induction l as [|f l IH]; cbn; [done|]. by rewrite insert_newest_perm, IH. Qed.

Lemma insert_newest_sorted f l : StronglySorted (fun a b => number b <= number a) l ->
  StronglySorted (fun a b => number b <= number a) (insert_newest f l).
Proof.
  induction l as [|g l IH]; cbn; intros Hs; [by repeat constructor|].
  apply StronglySorted_inv in Hs as [Hs Hall]. unfold NewestFirst. destruct (Z.ltb_spec (number g) (number f)).
  - constructor; [by constructor|]. constructor; [lia|]. eapply Forall_impl; [done|]. cbn. lia.
  - constructor; [by apply IH|]. rewrite insert_newest_perm. constructor; [done|done].
Qed.

Lemma sort_newest_sorted l : StronglySorted (fun a b => number b <= number a) (sort_newest l).
Proof. induction l as [|f l IH]; cbn; [constructor|by apply insert_newest_sorted]. Qed.

Lemma elem_level0 v u f : f ∈ level0_files ucmp v u <->
  f ∈ level_files v 0 /\ Compare ucmp u (smallest_user f) <> Lt /\ Compare ucmp u (largest_user f) <> Gt.
Proof.
  unfold level0_files. rewrite sort_newest_perm, !list_elem_of_In, filter_In, andb_true_iff, !negb_true_iff.
  destruct (Compare ucmp u (smallest_user f)), (Compare ucmp u (largest_user f)); cbn; naive_solver.
Qed.

Lemma same_number v f g : NoDup (map number (level_files v 0)) -> f ∈ level_files v 0 -> g ∈ level_files v 0 ->
  number f = number g -> f = g.
Proof.
  intros Hnd [i Hi]%list_elem_of_lookup [j Hj]%list_elem_of_lookup Hn.
  assert (i = j) as ->; [|congruence]. eapply (NoDup_lookup _ i j (number f) Hnd); rewrite list_lookup_fmap.
  - by rewrite Hi.
  - by rewrite Hj, Hn.
Qed.

Lemma level0_files_length v u : (length (level0_files ucmp v u) <= length (level_files v 0))%nat.
Proof.
  unfold level0_files. rewrite sort_newest_perm. induction (level_files v 0) as [|f fs IH]; cbn; [done|]. destruct (_ && _); cbn; lia.
Qed.

Lemma search_level0 v u s g n tc : readable v -> budget -> valid_seq s -> tinv (length (level_files v 0) + n) tc ->
  searched 0 (level_entries v 0) u s (level0_files ucmp v u) g n tc.
Proof.
  intros (_ & (_ & Hnew & Hnd) & Hcont) Hb Hs Hti.
  assert (Hin : forall i f e, level_files v 0 !! i = Some f -> e ∈ content f -> visible ucmp u s e ->
                f ∈ level0_files ucmp v u).
  { intros i f e Hf%list_elem_of_lookup_2 He Hv. apply elem_level0. split; [done|].
    apply (visible_in_range f u s e); [|done..]. by apply (Hcont 0%nat). }
  assert (Hall : Forall (fun f => content_ok f /\ table_answers f) (level0_files ucmp v u)).
  { apply Forall_forall. intros f [Hf _]%elem_level0. by apply (Hcont 0%nat). }
  pose proof (level0_files_length v u) as Hlen. apply (budget_le _ (length (level0_files ucmp v u) + n)) in Hti; [|done|lia].
  destruct (get_files_spec 0 u s _ n Hb g tc Hall Hs Hti) as (tc' & Hti' & [(g' & Hg & Hval & Hno)|(pre & f & suf & e & st & Heq & Hn & Hpre & Hg)]);
    exists tc'; (split; [done|]).
  - left. exists g'. split; [done|]. split; [done|]. intros e (i & f & Hf & He)%elem_level_entries Hv.
    apply (Hno f e); [by apply (Hin i f e)|done..].
  - right. exists e, st. split; [|done]. destruct Hn as (He & Hv & Hmax).
    assert (Hf : f ∈ level_files v 0) by (eapply elem_level0; rewrite Heq; set_solver).
    split; [apply list_elem_of_lookup in Hf as [i Hi]; apply elem_level_entries; by exists i, f|]. split; [done|].
    intros e' (j & h & Hh & He')%elem_level_entries Hv'. pose proof (Hin j h e' Hh He' Hv') as Hh0.
    apply list_elem_of_lookup_2 in Hh.
    rewrite Heq in Hh0. apply elem_of_app in Hh0 as [Hh0|[->|Hsuf]%elem_of_cons]; [by destruct (Hpre h e')|by apply Hmax|].
    pose proof (sort_newest_sorted (List.filter (fun f => negb (is_lt (Compare ucmp u (smallest_user f))) &&
      negb (is_gt (Compare ucmp u (largest_user f)))) (level_files v 0))) as Hsorted.
    fold (level0_files ucmp v u) in Hsorted. rewrite Heq in Hsorted.
    assert (Hle : number h <= number f).
    { clear -Hsorted Hsuf. induction pre as [|x pre IH]; apply StronglySorted_inv in Hsorted as [Hs Ha]; [|by apply IH].
      rewrite Forall_forall in Ha. by apply Ha. }
    destruct (decide (number h = number f)) as [Heqn|Hne].
    + apply Hmax; [|done]. by rewrite <- (same_number v h f).
    + apply (Hnew f h e e'); try done; [lia|].
      apply (cmp_eq_trans (Compare ucmp) _ u); [apply Hv|]. apply cmp_eq_sym; [done|apply Hv'].
Qed.

Lemma search_level v level u s g n tc : readable v -> budget -> valid_seq s -> tinv (length (level_files v level) + n) tc ->
  exists fs, files_to_search ucmp v level u (seek_key u s) = Some fs /\
    searched level (level_entries v level) u s fs g n tc.
Proof.
  intros Hrd Hb Hs Hti. unfold files_to_search. destruct (Nat.eqb_spec level 0) as [->|Hl].
  - eexists. split; [done|]. by apply search_level0.
  - by apply search_deep.
Qed.

(** The files of the levels: as many tables at most a lookup reads. *)
Definition num_files (v : Version) (levels : list nat) : nat := length (concat (map (level_files v) levels)).

Lemma get_levels_spec v u s m n : forall level g tc, readable v -> budget -> valid_seq s -> tinv (num_files v (seq level n) + m) tc ->
  let es := concat (map (level_entries v) (seq level n)) in
  exists st stats val tc', get_levels ucmp TableCache_Get (seq level n) v u (seek_key u s) g tc = Some (st, stats, val, tc') /\ tinv m tc' /\
    ((exists e, newest ucmp es u s e /\ (st, val) = answer e (g_value g)) \/
     ((forall e, e ∈ es -> ~ visible ucmp u s e) /\ st = NotFound [] /\ val = g_value g)).
Proof.
  induction n as [|n IH]; intros level g tc Hrd Hb Hs Hti; cbn [seq map concat get_levels].
  { do 4 eexists. split; [done|]. split; [done|]. right. split; [|done]. intros e He. by apply not_elem_of_nil in He. }
  unfold num_files in Hti. cbn [seq map concat] in Hti. rewrite length_app, <- Nat.add_assoc in Hti. fold (num_files v (seq (S level) n)) in Hti.
  destruct (search_level v level u s g (num_files v (seq (S level) n) + m) tc Hrd Hb Hs Hti) as (fs & -> & tc1 & Hti1 & Hsr). cbn [mbind option_bind].
  destruct Hsr as [(g' & -> & Hval & Hno)|(e & st & (He & Hv & Hmax) & ->)]; cbn [mbind option_bind].
  - destruct (IH (S level) g' tc1 Hrd Hb Hs Hti1) as (st & stats & val & tc' & -> & Hti' & Hres). do 4 eexists. split; [done|]. split; [done|].
    rewrite Hval in Hres. destruct Hres as [(e & (He & Hv & Hmax) & Heq)|(Hno' & Hst)].
    + left. exists e. split; [|done]. split; [apply elem_of_app; by right|]. split; [done|].
      intros e' [He'|He']%elem_of_app Hv'; [by destruct (Hno e')|by apply Hmax].
    + right. split; [|done]. intros e' [He'|He']%elem_of_app; [by apply Hno|by apply Hno'].
  - do 4 eexists. split; [done|]. split; [by apply (budget_le (num_files v (seq (S level) n) + m)); [|lia|]|]. left. exists e. split; [|by destruct (answer e (g_value g))].
    split; [apply elem_of_app; by left|]. split; [done|]. intros e' [He'|He']%elem_of_app Hv'; [by apply Hmax|].
    apply list_elem_of_In, in_concat in He' as (l & (k & <- & Hk)%in_map_iff & He').
    apply in_seq in Hk. apply list_elem_of_In in He'. destruct Hrd as (_ & (Hnew & _) & _).
    apply (Hnew level k); try done; [lia|].
    apply (cmp_eq_trans (Compare ucmp) _ u); [apply Hv|]. apply cmp_eq_sym; [done|apply Hv'].
Qed.

End Reads.

(** ** Properties *)

(** [Version::Get] returns the value of the newest entry of the key that
    the snapshot sees in all levels, NotFound if that entry is a deletion or
    there is none. *)
Theorem version_get_newest ucmp `{!TotalCmp (Compare ucmp)} content {TC} TableCache_Get (tinv : nat -> TC -> Prop) v u s value n tc :
  readable ucmp content TableCache_Get tinv v -> budget tinv -> valid_seq s -> tinv (num_files v (seq 0 kNumLevels) + n)%nat tc ->
  exists st stats val tc',
    Version_Get ucmp TableCache_Get v (make_LookupKey u s) value tc = Some (st, stats, val, tc') /\ tinv n tc' /\
    ((exists e, newest ucmp (version_entries content v) u s e /\ (st, val) = answer e value) \/
     ((forall e, e ∈ version_entries content v -> ~ visible ucmp u s e) /\ st = NotFound [] /\ val = value)).
Proof.
  intros Hrd Hb Hs Hti. unfold Version_Get. rewrite lk_internal_key_spec, lk_user_key_spec by done.
  by apply (get_levels_spec ucmp content TableCache_Get tinv v u s n kNumLevels 0).
Qed.

(** The binary search of [FindFile] finds the first file of a level whose
    largest key is at or behind the target. *)
Theorem find_file_is_linear_search ucmp `{!TotalCmp (Compare ucmp)} files key :
  level_ok ucmp files -> zlen files < 2 ^ 31 ->
  FindFile ucmp files key = Some (Z.of_nat (first_file ucmp files key)).
Proof. by apply FindFile_first. Qed.

(** [SomeFileOverlapsRange] decides whether a file shares a user key with
    the range, by scan or by search alike. *)
Theorem overlap_search_is_scan ucmp `{!TotalCmp (Compare ucmp)} disjoint files small large :
  (disjoint = true -> level_ok ucmp files) -> zlen files < 2 ^ 31 ->
  SomeFileOverlapsRange ucmp disjoint files small large = Some (existsb (overlaps ucmp small large) files).
Proof. by apply SomeFileOverlapsRange_scan. Qed.

(** C39. At level 0 [GetOverlappingInputs] ends, and its result is the set of
    files overlapping the least range around the given one that no file of
    the level straddles. *)
Theorem level0_inputs_least_closure ucmp `{!TotalCmp (Compare ucmp)} v b e :
  exists r, GetOverlappingInputs ucmp v 0 b e = Some r /\
    closure_of ucmp (level_files v 0) (ExtractUserKey <$> b) (ExtractUserKey <$> e) r.
Proof. by apply GetOverlappingInputs_level0. Qed.

(** A memtable's output goes to a level of at most [kMaxMemCompactLevel],
    and below level 0 only if neither that level nor one above it has a file
    that overlaps it. *)
Theorem memtable_output_level_free ucmp `{!TotalCmp (Compare ucmp)} max v small large : version_ok ucmp v ->
  exists l, PickLevelForMemTableOutput ucmp max v small large = Some l /\ (l <= kMaxMemCompactLevel)%nat /\
    ((l > 0)%nat -> forall k, (k <= l)%nat ->
      existsb (overlaps ucmp (Some small) (Some large)) (level_files v k) = false).
Proof.
  intros Hv. unfold PickLevelForMemTableOutput. rewrite OverlapInLevel_scan by done. cbn [mbind option_bind].
  destruct (existsb _ _) eqn:E; [exists 0%nat; split; [done|]; split; lia|].
  destruct (PickLevel_loop_spec ucmp kMaxMemCompactLevel max v 0 small large Hv E) as (l & Hl & Hr & Hk).
  exists l. split; [done|]. split; [lia|]. intros _ k Hle. apply Hk. lia.
Qed.

(** A version for examples: file 8 at level 0 over file 3 at level 1. *)
Definition sample_key (u : string) (s : Z) : bytes := InternalKey (lit u) s kTypeValue.
Definition sample_new : FileMetaData := new_file 8 178 (sample_key "b" 9) (sample_key "b" 9).
Definition sample_old : FileMetaData := new_file 3 191 (sample_key "a" 1) (sample_key "b" 2).
Definition sample_version : Version :=
  mkVersion [[sample_new]; [sample_old]; []; []; []; []; []] None (-1) (-1, 1) (-1).

Definition sample_content (f : FileMetaData) : list Entry :=
  if number f =? 8 then [mkEntry 9 kTypeValue (lit "b") (lit "new")]
  else [mkEntry 1 kTypeValue (lit "a") (lit "x"); mkEntry 2 kTypeValue (lit "b") (lit "old")].

Definition sample_get (num size : Z) (k : bytes) (tc : unit) : option (Status * option (bytes * bytes) * unit) :=
  Some (Status_OK, (fun e => (e_ikey e, e_value e)) <$>
    seek_entry BytewiseComparator (sample_content (new_file num size [] [])) k, tc).

Lemma sample_files level f : f ∈ level_files sample_version level ->
  (level = 0%nat /\ f = sample_new) \/ (level = 1%nat /\ f = sample_old).
Proof.
  do 2 (destruct level as [|level]; [intros ->%list_elem_of_singleton; auto|]).
  do 5 (destruct level as [|level]; [by intros ?%not_elem_of_nil|]). by intros ?%not_elem_of_nil.
Qed.

Lemma sample_ikey_ok u s : valid_seq s -> ikey_ok (sample_key u s).
Proof. by exists (lit u), s, kTypeValue. Qed.

Lemma sample_seq s : 0 <= s <= 9 -> valid_seq s.
Proof. rewrite valid_seq_range. lia. Qed.

Lemma sample_level_ok level : level_ok BytewiseComparator (level_files sample_version level).
Proof.
  assert (Hf : file_ok BytewiseComparator sample_new /\ file_ok BytewiseComparator sample_old).
  { split; (split; [|split]); try (apply sample_ikey_ok, sample_seq; lia); vm_compute; discriminate. }
  destruct Hf as [H1 H2]. split.
  - do 7 (destruct level as [|level]; [repeat constructor|]). constructor.
  - apply Forall_forall. intros f [[_ ->]|[_ ->]]%sample_files; done.
Qed.

Lemma sample_version_ok : version_ok BytewiseComparator sample_version.
Proof.
  split; [done|]. split; [|split; [apply (sample_level_ok 0)|intros level _; apply sample_level_ok]].
  intros level. do 7 (destruct level as [|level]; [done|]). done.
Qed.

Lemma sample_newer_first : newer_first BytewiseComparator sample_content sample_version.
Proof.
  split; [|split].
  - intros l1 l2 e1 e2 Hl H1 H2 _. destruct l1 as [|l1].
    + apply list_elem_of_singleton in H1 as ->. unfold level_entries in H2.
      apply list_elem_of_In, in_concat in H2 as (l & (f & <- & Hf)%in_map_iff & He). apply list_elem_of_In in Hf.
      apply sample_files in Hf as [[? ->]|[? ->]]; [lia|]. by destruct He as [<-|[<-|[]]].
    + unfold level_entries in H2. apply list_elem_of_In, in_concat in H2 as (l & (f & <- & Hf)%in_map_iff & He).
      apply list_elem_of_In in Hf. apply sample_files in Hf as [[? ->]|[? ->]]; lia.
  - intros f1 f2 e1 e2 [[_ ->]|[? _]]%sample_files [[_ ->]|[? _]]%sample_files; lia.
  - apply NoDup_singleton.
Qed.

Lemma sample_content_ok level f : f ∈ level_files sample_version level -> content_ok BytewiseComparator sample_content f.
Proof.
  intros [[_ ->]|[_ ->]]%sample_files; (split; [|split; [|split]]).
  - apply Forall_singleton. split; [apply sample_seq; cbn; lia|done].
  - apply SSorted_cons; constructor.
  - intros e ->%list_elem_of_singleton. split; vm_compute; discriminate.
  - eexists. split; [by apply list_elem_of_singleton|done].
  - apply Forall_cons; split; [|apply Forall_singleton]; (split; [apply sample_seq; cbn; lia|done]).
  - apply SSorted_cons; [apply SSorted_cons; constructor|]. apply Forall_singleton. vm_compute. reflexivity.
  - intros e [<-|[<-|[]]]%list_elem_of_In; split; vm_compute; discriminate.
  - eexists. split; [right; left|done].
Qed.

Lemma sample_readable : readable BytewiseComparator sample_content sample_get (fun _ _ => True) sample_version.
Proof.
  split; [apply sample_version_ok|]. split; [apply sample_newer_first|].
  intros level f Hf. split; [by apply (sample_content_ok level)|]. intros u s n [] _ _. eexists _, (). split; [done|]. split; [done|].
  left. by apply sample_files in Hf as [[_ ->]|[_ ->]].
Qed.

Lemma version_get_newest_witness :
  exists st stats val tc',
    Version_Get BytewiseComparator sample_get sample_version (make_LookupKey (lit "b") 9) [] () = Some (st, stats, val, tc') /\ True /\
    ((exists e, newest BytewiseComparator (version_entries sample_content sample_version) (lit "b") 9 e /\
       (st, val) = answer e []) \/
     ((forall e, e ∈ version_entries sample_content sample_version -> ~ visible BytewiseComparator (lit "b") 9 e) /\
       st = NotFound [] /\ val = [])).
Proof.
  apply (version_get_newest BytewiseComparator sample_content sample_get (fun _ _ => True) sample_version (lit "b") 9 [] 0);
    [exact sample_readable|by intros n tc|apply sample_seq; lia|exact I].
Defined.

Lemma find_file_is_linear_search_witness :
  FindFile BytewiseComparator [sample_old] (sample_key "b" 1)
  = Some (Z.of_nat (first_file BytewiseComparator [sample_old] (sample_key "b" 1))).
Proof. apply (find_file_is_linear_search BytewiseComparator); [exact (sample_level_ok 1)|reflexivity]. Defined.

Lemma overlap_search_is_scan_witness :
  SomeFileOverlapsRange BytewiseComparator true [sample_old] (Some (lit "aa")) None
  = Some (existsb (overlaps BytewiseComparator (Some (lit "aa")) None) [sample_old]).
Proof.
  apply (overlap_search_is_scan BytewiseComparator); [intros _; exact (sample_level_ok 1)|reflexivity].
Defined.

Lemma level0_inputs_least_closure_witness :
  exists r, GetOverlappingInputs BytewiseComparator sample_version 0 None None = Some r /\
    closure_of BytewiseComparator [sample_new] None None r.
Proof. exact (level0_inputs_least_closure BytewiseComparator sample_version None None). Defined.

Lemma memtable_output_level_free_witness :
  exists l, PickLevelForMemTableOutput BytewiseComparator 2000 sample_version (lit "c") (lit "d") = Some l /\
    (l <= kMaxMemCompactLevel)%nat /\
    ((l > 0)%nat -> forall k, (k <= l)%nat ->
      existsb (overlaps BytewiseComparator (Some (lit "c")) (Some (lit "d"))) (level_files sample_version k) = false).
Proof. apply (memtable_output_level_free BytewiseComparator). exact sample_version_ok. Defined.
