(* ===== verification/VersionSet.v ===== *)
(** * The version set: db/version_set.cpp, [VersionSet] and its [Builder]

    The builder that applies edits to a version, the log of edits (the
    MANIFEST), and recovery from it. Reference counts of files only decide
    when their memory is freed and are not modelled; those of versions decide
    which files are live and are. [option] results are [None] when an
    assertion of the source fails or the fuel of a file scan runs out. *)

From S2P Require Import Prelude Coding Logging Status Comparator Dbformat Env Filename MemTable VersionEdit Log Version.

(** ** Builder *)

Record LevelState := mkLevel {
  deleted_files : gset Z;
  added_files : list FileMetaData     (** a [std::set] in the order of [BySmallestKey] *)
}.

Record Builder := mkBuilder {
  b_compact_pointer : list bytes;     (** [vset_->compact_pointer_] *)
  base_ : Version;
  levels_ : list LevelState
}.

Definition new_Builder (compact_pointer : list bytes) (base : Version) : Builder :=
  mkBuilder compact_pointer base (replicate kNumLevels (mkLevel ∅ [])).

Section Builder.
Context (ucmp : Comparator).

Abbreviation icmp := (InternalKey_Compare ucmp).

Definition BySmallestKey (f1 f2 : FileMetaData) : bool :=
  match icmp (smallest f1) (smallest f2) with
  | Lt => true
  | Gt => false
  | Eq => number f1 <? number f2
  end.

(** [std::set::insert]: an equivalent element stays. *)
Fixpoint insert_file (f : FileMetaData) (l : list FileMetaData) : list FileMetaData :=
  match l with
  | [] => [f]
  | g :: l' => if BySmallestKey f g then f :: l else if BySmallestKey g f then g :: insert_file f l' else l
  end.

Definition set_pointer (p : list bytes) (cp : Z * bytes) : list bytes := <[Z.to_nat cp.1 := cp.2]> p.

Definition delete_file (ls : list LevelState) (d : Z * Z) : list LevelState :=
  alter (fun l => mkLevel ({[ d.2 ]} ∪ deleted_files l) (added_files l)) (Z.to_nat d.1) ls.

(** The copy of a new file the builder keeps. *)
Definition with_seeks (f : FileMetaData) : FileMetaData :=
  mkFile 1 (let a := file_size f / 16384 in if a <? 100 then 100 else a)
    (number f) (file_size f) (smallest f) (largest f) (rh f).

Definition add_file (ls : list LevelState) (nf : Z * FileMetaData) : list LevelState :=
  let f := with_seeks nf.2 in
  alter (fun l => mkLevel (deleted_files l ∖ {[ number f ]}) (insert_file f (added_files l))) (Z.to_nat nf.1) ls.

Definition Apply (edit : VersionEdit) (b : Builder) : Builder :=
  mkBuilder (fold_left set_pointer (compact_pointers_ edit) (b_compact_pointer b)) (base_ b)
    (fold_left add_file (new_files_ edit) (fold_left delete_file (deleted_files_ edit) (levels_ b))).

(** The assertion that a level above 0 stays ordered. *)
Definition MaybeAddFile (level : nat) (deleted : gset Z) (files : option (list FileMetaData)) (f : FileMetaData)
    : option (list FileMetaData) :=
  files ← files;
  if decide (number f ∈ deleted) then Some files
  else match last files with
       | Some g => if (0 <? level)%nat && negb (is_lt (icmp (largest g) (smallest f)))
                   then None else Some (files ++ [f])
       | None => Some (files ++ [f])
       end.

(** The base files before [std::upper_bound] of [a], and the others. *)
Fixpoint split_upper (a : FileMetaData) (base : list FileMetaData) : list FileMetaData * list FileMetaData :=
  match base with
  | [] => ([], [])
  | b :: base' => if BySmallestKey a b then ([], base)
                  else let '(pre, suf) := split_upper a base' in (b :: pre, suf)
  end.

Fixpoint merge_files (base added : list FileMetaData) : list FileMetaData :=
  match added with
  | [] => base
  | a :: added => let '(pre, suf) := split_upper a base in pre ++ a :: merge_files suf added
  end.

(** The check after the merge, in builds with assertions. *)
Fixpoint no_overlap (files : list FileMetaData) : bool :=
  match files with
  | a :: ((b :: _) as rest) => is_lt (icmp (largest a) (smallest b)) && no_overlap rest
  | _ => true
  end.

Definition SaveTo_level (b : Builder) (level : nat) : option (list FileMetaData) :=
  let ls := default (mkLevel ∅ []) (levels_ b !! level) in
  files ← fold_left (MaybeAddFile level (deleted_files ls))
            (merge_files (level_files (base_ b) level) (added_files ls)) (Some []);
  if (0 <? level)%nat && negb (no_overlap files) then None else Some files.

Definition SaveTo (b : Builder) (v : Version) : option Version :=
  files ← mapM (SaveTo_level b) (seq 0 kNumLevels);
  Some (mkVersion files (file_to_compact_ v) (file_to_compact_level_ v) (compaction_score_ v) (compaction_level_ v)).

End Builder.

(** ** The best level to compact

    Scores are exact fractions with positive denominators. *)

Definition score_gt (a b : Z * Z) : bool := b.1 * a.2 <? a.1 * b.2.

Definition level_score (v : Version) (level : nat) : Z * Z :=
  if (level =? 0)%nat then (zlen (level_files v level), kL0_CompactionTrigger)
  else (TotalFileSize (level_files v level), MaxBytesForLevel level).

Definition Finalize_step (v : Version) (best : Z * (Z * Z)) (level : nat) : Z * (Z * Z) :=
  if score_gt (level_score v level) best.2 then (Z.of_nat level, level_score v level) else best.

Definition Finalize (v : Version) : Version :=
  let '(level, score) := fold_left (Finalize_step v) (seq 0 (kNumLevels - 1)) (-1, (-1, 1)) in
  mkVersion (files_ v) (file_to_compact_ v) (file_to_compact_level_ v) score level.

(** ** The set *)

(** A version others refer to that is no longer current; a version object is
    named by a number that is never used again. *)
Record LiveVersion := mkLive { lv_id : nat; lv_refs : Z; lv_version : Version }.

(** [vs_old]: the live versions before the current one, with their reference
    counts; [vs_descriptor]: the block offset of the open MANIFEST's writer. *)
Record VersionSet := mkVS {
  vs_next_file_number : Z;
  vs_manifest_file_number : Z;
  vs_last_sequence : Z;
  vs_log_number : Z;
  vs_prev_log_number : Z;
  vs_descriptor : option Z;
  vs_compact_pointer : list bytes;
  vs_current : Version;
  vs_current_id : nat;
  vs_current_refs : Z;
  vs_old : list LiveVersion
}.

Definition new_VersionSet : VersionSet :=
  mkVS 2 0 0 0 0 None (replicate kNumLevels []) new_Version 0 1 [].

Definition NewFileNumber (vs : VersionSet) : Z * VersionSet :=
  (vs_next_file_number vs,
   mkVS (u64 (vs_next_file_number vs + 1)) (vs_manifest_file_number vs) (vs_last_sequence vs) (vs_log_number vs)
     (vs_prev_log_number vs) (vs_descriptor vs) (vs_compact_pointer vs) (vs_current vs) (vs_current_id vs) (vs_current_refs vs) (vs_old vs)).

Definition set_next_file (n : Z) (vs : VersionSet) : VersionSet :=
  mkVS n (vs_manifest_file_number vs) (vs_last_sequence vs) (vs_log_number vs)
    (vs_prev_log_number vs) (vs_descriptor vs) (vs_compact_pointer vs) (vs_current vs) (vs_current_id vs) (vs_current_refs vs) (vs_old vs).

Definition ReuseFileNumber (file_number : Z) (vs : VersionSet) : VersionSet :=
  if vs_next_file_number vs =? u64 (file_number + 1) then set_next_file file_number vs else vs.

Definition MarkFileNumberUsed (number : Z) (vs : VersionSet) : VersionSet :=
  if vs_next_file_number vs <=? number then set_next_file (u64 (number + 1)) vs else vs.

Definition vs_SetLastSequence (s : Z) (vs : VersionSet) : VersionSet :=
  mkVS (vs_next_file_number vs) (vs_manifest_file_number vs) s (vs_log_number vs)
    (vs_prev_log_number vs) (vs_descriptor vs) (vs_compact_pointer vs) (vs_current vs) (vs_current_id vs) (vs_current_refs vs) (vs_old vs).

Definition set_descriptor (d : option Z) (vs : VersionSet) : VersionSet :=
  mkVS (vs_next_file_number vs) (vs_manifest_file_number vs) (vs_last_sequence vs) (vs_log_number vs)
    (vs_prev_log_number vs) d (vs_compact_pointer vs) (vs_current vs) (vs_current_id vs) (vs_current_refs vs) (vs_old vs).

Definition set_pointers (p : list bytes) (vs : VersionSet) : VersionSet :=
  mkVS (vs_next_file_number vs) (vs_manifest_file_number vs) (vs_last_sequence vs) (vs_log_number vs)
    (vs_prev_log_number vs) (vs_descriptor vs) p (vs_current vs) (vs_current_id vs) (vs_current_refs vs) (vs_old vs).

(** The old current version stays in the list while others refer to it. *)
Definition AppendVersion (v : Version) (vs : VersionSet) : VersionSet :=
  mkVS (vs_next_file_number vs) (vs_manifest_file_number vs) (vs_last_sequence vs) (vs_log_number vs)
    (vs_prev_log_number vs) (vs_descriptor vs) (vs_compact_pointer vs) v (S (vs_current_id vs)) 1
    (if vs_current_refs vs - 1 =? 0 then vs_old vs
     else vs_old vs ++ [mkLive (vs_current_id vs) (vs_current_refs vs - 1) (vs_current vs)]).

Definition set_live (v : Version) (refs : Z) (old : list LiveVersion) (vs : VersionSet) : VersionSet :=
  mkVS (vs_next_file_number vs) (vs_manifest_file_number vs) (vs_last_sequence vs) (vs_log_number vs)
    (vs_prev_log_number vs) (vs_descriptor vs) (vs_compact_pointer vs) v (vs_current_id vs) refs old.

(** The version object [id], [None] once it is deleted. *)
Definition live_version (vs : VersionSet) (id : nat) : option LiveVersion :=
  if (id =? vs_current_id vs)%nat then Some (mkLive id (vs_current_refs vs) (vs_current vs))
  else List.find (fun l => (lv_id l =? id)%nat) (vs_old vs).

Definition map_live (id : nat) (f : LiveVersion -> LiveVersion) (old : list LiveVersion) : list LiveVersion :=
  map (fun l => if (lv_id l =? id)%nat then f l else l) old.

(** [Version::Ref] *)
Definition version_Ref (id : nat) (vs : VersionSet) : option VersionSet :=
  l ← live_version vs id;
  Some (if (id =? vs_current_id vs)%nat then set_live (vs_current vs) (vs_current_refs vs + 1) (vs_old vs) vs
        else set_live (vs_current vs) (vs_current_refs vs)
               (map_live id (fun l => mkLive (lv_id l) (lv_refs l + 1) (lv_version l)) (vs_old vs)) vs).

(** [Version::Unref]; the last reference to the current version goes only with
    the set itself. *)
Definition version_Unref (id : nat) (vs : VersionSet) : option VersionSet :=
  l ← live_version vs id;
  if (id =? vs_current_id vs)%nat then
    if lv_refs l <=? 1 then None else Some (set_live (vs_current vs) (vs_current_refs vs - 1) (vs_old vs) vs)
  else if lv_refs l <? 1 then None
  else Some (set_live (vs_current vs) (vs_current_refs vs)
         (if lv_refs l - 1 =? 0 then filter (fun l => lv_id l <> id) (vs_old vs)
          else map_live id (fun l => mkLive (lv_id l) (lv_refs l - 1) (lv_version l)) (vs_old vs)) vs).

(** A change of the version object [id]. *)
Definition update_version (id : nat) (v : Version) (vs : VersionSet) : VersionSet :=
  if (id =? vs_current_id vs)%nat then set_live v (vs_current_refs vs) (vs_old vs) vs
  else set_live (vs_current vs) (vs_current_refs vs) (map_live id (fun l => mkLive (lv_id l) (lv_refs l) v) (vs_old vs)) vs.

Definition install_logs (log prev_log : Z) (vs : VersionSet) : VersionSet :=
  mkVS (vs_next_file_number vs) (vs_manifest_file_number vs) (vs_last_sequence vs) log
    prev_log (vs_descriptor vs) (vs_compact_pointer vs) (vs_current vs) (vs_current_id vs) (vs_current_refs vs) (vs_old vs).

(** ** Queries *)

Definition version_numbers (v : Version) : list Z :=
  concat (map (fun level => map number (level_files v level)) (seq 0 kNumLevels)).

Definition AddLiveFiles (vs : VersionSet) (live : gset Z) : gset Z :=
  fold_left (fun live n => {[ n ]} ∪ live)
    (concat (map version_numbers (map lv_version (vs_old vs) ++ [vs_current vs]))) live.

Definition NumLevelFiles (vs : VersionSet) (level : nat) : Z := zlen (level_files (vs_current vs) level).
Definition NumLevelBytes (vs : VersionSet) (level : nat) : Z := TotalFileSize (level_files (vs_current vs) level).

Definition LevelSummary (vs : VersionSet) : bytes :=
  lit "files[ " ++ concat (map (fun level => NumberToString (NumLevelFiles vs level) ++ lit " ") (seq 0 kNumLevels)) ++ lit "]".

(** [compaction_score_ >= 1 || file_to_compact_ != NULL] *)
Definition NeedsCompaction (vs : VersionSet) : bool :=
  let '(num, den) := compaction_score_ (vs_current vs) in
  (den <=? num) || match file_to_compact_ (vs_current vs) with Some _ => true | None => false end.

(** ** Writing the MANIFEST *)

Section Manifest.
Context (ucmp : Comparator) {W : Type} (env : Env W) (dbname : bytes).

Definition snapshot_pointers (p : list bytes) (e : VersionEdit) : VersionEdit :=
  fold_left (fun e level => match default [] (p !! level) with
                            | [] => e
                            | key => SetCompactPointer (Z.of_nat level) key e
                            end) (seq 0 kNumLevels) e.

Definition snapshot_files (v : Version) (e : VersionEdit) : VersionEdit :=
  fold_left (fun e level =>
      fold_left (fun e f => AddFile (Z.of_nat level) (number f) (file_size f) (smallest f) (largest f) e)
        (level_files v level) e) (seq 0 kNumLevels) e.

Definition snapshot_edit (vs : VersionSet) : VersionEdit :=
  snapshot_files (vs_current vs)
    (snapshot_pointers (vs_compact_pointer vs) (SetComparatorName (cmp_Name ucmp) new_VersionEdit)).

(** Add a record to the open MANIFEST. *)
Definition manifest_AddRecord (record : bytes) (off : Z) (num : Z) (w : W) : option (Status * Z * W) :=
  r ← AddRecord (Env_writable env (DescriptorFileName dbname num)) record (mkWriter w off);
  Some (r.1, block_offset_ r.2, dest_ r.2).

Definition WriteSnapshot (vs : VersionSet) (off : Z) (w : W) : option (Status * Z * W) :=
  manifest_AddRecord (EncodeTo (snapshot_edit vs) []) off (vs_manifest_file_number vs) w.

(** The edit that is logged. *)
Definition complete_edit (edit : VersionEdit) (vs : VersionSet) : VersionEdit :=
  let edit := if has_log_number_ edit then edit else SetLogNumber (vs_log_number vs) edit in
  let edit := if has_prev_log_number_ edit then edit else SetPrevLogNumber (vs_prev_log_number vs) edit in
  SetLastSequence (vs_last_sequence vs) (SetNextFile (vs_next_file_number vs) edit).

(** Open a new MANIFEST when there is none: the status, the writer's offset,
    and the world. *)
Definition open_descriptor (vs : VersionSet) (w : W) : option (Status * option Z * W) :=
  match vs_descriptor vs with
  | Some off => Some (Status_OK, Some off, w)
  | None =>
      let '(s, w) := NewWritableFile env (DescriptorFileName dbname (vs_manifest_file_number vs)) w in
      if ok s then
        r ← WriteSnapshot vs 0 w;
        Some (r.1.1, Some r.1.2, r.2)
      else Some (s, None, w)
  end.

(** Append the edit and make it durable. *)
Definition log_edit (vs : VersionSet) (edit : VersionEdit) (s : Status) (d : option Z) (w : W) : option (Status * option Z * W) :=
  match ok s, d with
  | true, Some off =>
      r ← manifest_AddRecord (EncodeTo edit []) off (vs_manifest_file_number vs) w;
      let '(s, off, w) := r in
      let '(s, w) := if ok s then file_Sync env (DescriptorFileName dbname (vs_manifest_file_number vs)) w else (s, w) in
      Some (s, Some off, w)
  | _, _ => Some (s, d, w)
  end.

(** What is asserted of a log number the edit brings. *)
Definition log_number_allowed (edit : VersionEdit) (vs : VersionSet) : bool :=
  negb (has_log_number_ edit) || ((vs_log_number vs <=? log_number_ edit) && (log_number_ edit <? vs_next_file_number vs)).

Definition LogAndApply (edit : VersionEdit) (vs : VersionSet) (w : W) : option (Status * VersionSet * W) :=
  _ ← (if log_number_allowed edit vs then Some () else None);
  let edit := complete_edit edit vs in
  let b := Apply ucmp edit (new_Builder (vs_compact_pointer vs) (vs_current vs)) in
  v ← SaveTo ucmp b new_Version;
  let v := Finalize v in
  let vs := set_pointers (b_compact_pointer b) vs in
  let is_new := match vs_descriptor vs with None => true | Some _ => false end in
  o ← open_descriptor vs w;
  let '(s, d, w) := o in
  l ← log_edit vs edit s d w;
  let '(s, d, w) := l in
  let '(s, w) := if ok s && is_new then SetCurrentFile env dbname (vs_manifest_file_number vs) w else (s, w) in
  let vs := set_descriptor d vs in
  if ok s then
    Some (s, install_logs (log_number_ edit) (prev_log_number_ edit) (AppendVersion v vs), w)
  else if is_new then
    Some (s, set_descriptor None vs, (env_DeleteFile env (DescriptorFileName dbname (vs_manifest_file_number vs)) w).2)
  else Some (s, vs, w).

End Manifest.

(** ** Recovery *)

Section Recover.
Context (ucmp : Comparator) {W F : Type} (env : Env W) (renv : ReadEnv W F) (dbname : bytes).
Context (max_file_size : Z) (reuse_logs : bool).

(** The locals of [Recover]; [None] for a number not seen yet. *)
Record RecState := mkRec {
  r_status : Status;
  r_builder : Builder;
  r_log_number : option Z;
  r_prev_log_number : option Z;
  r_next_file : option Z;
  r_last_sequence : option Z
}.

(** [LogReporter]: the first corruption is the status. *)
Definition report (s : Status) (c : Z * Status) : Status := if ok s then c.2 else s.

Definition seen (has : bool) (value : Z) (before : option Z) : option Z := if has then Some value else before.

Definition recover_edit (edit : VersionEdit) (s : Status) (r : RecState) : RecState :=
  let s := if ok s && has_comparator_ edit && negb (bool_decide (comparator_ edit = cmp_Name ucmp))
           then InvalidArgument (comparator_ edit ++ lit " does not match existing comparator ") (cmp_Name ucmp)
           else s in
  mkRec s (if ok s then Apply ucmp edit (r_builder r) else r_builder r)
    (seen (has_log_number_ edit) (log_number_ edit) (r_log_number r))
    (seen (has_prev_log_number_ edit) (prev_log_number_ edit) (r_prev_log_number r))
    (seen (has_next_file_number_ edit) (next_file_number_ edit) (r_next_file r))
    (seen (has_last_sequence_ edit) (last_sequence_ edit) (r_last_sequence r)).

Definition set_status (s : Status) (r : RecState) : RecState :=
  mkRec s (r_builder r) (r_log_number r) (r_prev_log_number r) (r_next_file r) (r_last_sequence r).

Fixpoint Recover_loop (fuel : nat) (reader : Reader F) (r : RecState) : option RecState :=
  match fuel with
  | O => None
  | S fuel' =>
      o ← ReadRecord (env_sequential renv) fuel reader;
      let '(record, reader') := o in
      let r := set_status (fold_left report (drop (length (reports_ reader)) (reports_ reader')) (r_status r)) r in
      match record with
      | Some record =>
          if ok (r_status r) then
            d ← DecodeFrom record new_VersionEdit;
            Recover_loop fuel' reader' (recover_edit d.1 d.2 r)
          else Some r
      | None => Some r
      end
  end.

Definition ReuseManifest (dscname dscbase : bytes) (vs : VersionSet) (w : W) : bool * VersionSet * W :=
  if negb reuse_logs then (false, vs, w)
  else
    match ParseFileName dscbase with
    | Some (manifest_number, kDescriptorFile) =>
        let '(s, manifest_size) := env_GetFileSize env dscname w in
        if negb (ok s) || (TargetFileSize max_file_size <=? manifest_size) then (false, vs, w)
        else
          let '(r, w) := NewAppendableFile env dscname w in
          if negb (ok r) then (false, vs, w)
          else (true, mkVS (vs_next_file_number vs) manifest_number (vs_last_sequence vs) (vs_log_number vs)
                  (vs_prev_log_number vs) (Some (manifest_size mod kBlockSize)) (vs_compact_pointer vs) (vs_current vs)
                  (vs_current_id vs) (vs_current_refs vs) (vs_old vs), w)
    | _ => (false, vs, w)
    end.

(** After the scan: check the numbers and install the version. The result is
    the status, whether the manifest must be saved, the set and the world. *)
Definition Recover_install (dscname current : bytes) (r : RecState) (vs : VersionSet) (w : W)
    : option (Status * bool * VersionSet * W) :=
  let vs := set_pointers (b_compact_pointer (r_builder r)) vs in
  if negb (ok (r_status r)) then Some (r_status r, false, vs, w)
  else
    let log_number := default 0 (r_log_number r) in
    let prev_log_number := default 0 (r_prev_log_number r) in
    let vs := MarkFileNumberUsed log_number (MarkFileNumberUsed prev_log_number vs) in
    match r_next_file r, r_log_number r, r_last_sequence r with
    | None, _, _ => Some (Corruption (lit "no meta-nextfile entry in descriptor"), false, vs, w)
    | _, None, _ => Some (Corruption (lit "no meta-lognumber entry in descriptor"), false, vs, w)
    | _, _, None => Some (Corruption (lit "no last-sequence-number entry in descriptor"), false, vs, w)
    | Some next_file, Some _, Some last_sequence =>
        v ← SaveTo ucmp (r_builder r) new_Version;
        let vs := AppendVersion (Finalize v) vs in
        let vs := mkVS (u64 (next_file + 1)) next_file last_sequence log_number prev_log_number (vs_descriptor vs)
                    (vs_compact_pointer vs) (vs_current vs) (vs_current_id vs) (vs_current_refs vs) (vs_old vs) in
        let '(reused, vs, w) := ReuseManifest dscname current vs w in
        Some (r_status r, negb reused, vs, w)
    end.

Definition Recover (fuel : nat) (vs : VersionSet) (w : W) : option (Status * bool * VersionSet * W) :=
  c ← ReadFileToString renv fuel (CurrentFileName dbname) w;
  let '(s, current) := c in
  if negb (ok s) then Some (s, false, vs, w)
  else if negb (bool_decide (last current = Some x0a)) then
    Some (Corruption (lit "CURRENT file does not end with newline"), false, vs, w)
  else
    let current := take (length current - 1) current in
    let dscname := dbname ++ lit "/" ++ current in
    let '(s, file) := NewSequentialFile renv dscname w in
    if negb (ok s) then Some (s, false, vs, w)
    else
      r ← Recover_loop fuel (new_Reader file true 0)
            (mkRec s (new_Builder (vs_compact_pointer vs) (vs_current vs)) None None None None);
      Recover_install dscname current r vs w.

End Recover.

(** ** The builder, level by level *)

Definition level_state (b : Builder) (level : nat) : LevelState := default (mkLevel ∅ []) (levels_ b !! level).

Definition dels_at (e : VersionEdit) (level : nat) : list Z :=
  map snd (List.filter (fun d => (Z.to_nat d.1 =? level)%nat) (deleted_files_ e)).
Definition news_at (e : VersionEdit) (level : nat) : list FileMetaData :=
  map snd (List.filter (fun d => (Z.to_nat d.1 =? level)%nat) (new_files_ e)).

Definition keep (deleted : gset Z) (l : list FileMetaData) : list FileMetaData :=
  List.filter (fun f => negb (bool_decide (number f ∈ deleted))) l.

Section Levels.
Context (ucmp : Comparator) `{!TotalCmp (Compare ucmp)}.

Abbreviation icmp := (InternalKey_Compare ucmp).

Definition insert_all (l acc : list FileMetaData) : list FileMetaData :=
  fold_left (fun acc f => insert_file ucmp (with_seeks f) acc) l acc.

Lemma delete_fold ds : forall ls level l, ls !! level = Some l ->
  exists d, fold_left delete_file ds ls !! level = Some (mkLevel d (added_files l)) /\
    forall n, n ∈ d <-> n ∈ deleted_files l \/
      n ∈ map snd (List.filter (fun d => (Z.to_nat d.1 =? level)%nat) ds).
Proof.
  induction ds as [|[k n] ds IH]; intros ls level l Hl; cbn [fold_left List.filter map].
  { exists (deleted_files l). split; [by rewrite Hl; destruct l|]. set_solver. }
  cbn [fst snd]. destruct (Nat.eqb_spec (Z.to_nat k) level) as [E|Hne].
  - assert (Ha : delete_file ls (k, n) !! level = Some (mkLevel ({[n]} ∪ deleted_files l) (added_files l)))
      by (unfold delete_file; cbn [fst snd]; by rewrite E, list_lookup_alter_eq, Hl).
    destruct (IH _ _ _ Ha) as (d & Hd & Hiff).
    exists d. split; [exact Hd|]. intros m. rewrite Hiff. cbn. set_solver.
  - apply IH. unfold delete_file. by rewrite list_lookup_alter_ne by done.
Qed.

Lemma add_fold nfs : forall ls level l, ls !! level = Some l ->
  exists d, fold_left (add_file ucmp) nfs ls !! level
    = Some (mkLevel d (insert_all (map snd (List.filter (fun d => (Z.to_nat d.1 =? level)%nat) nfs)) (added_files l))) /\
    forall n, n ∈ d <-> n ∈ deleted_files l /\
      n ∉ map number (map snd (List.filter (fun d => (Z.to_nat d.1 =? level)%nat) nfs)).
Proof.
  induction nfs as [|[k f] nfs IH]; intros ls level l Hl; cbn [fold_left List.filter map].
  { exists (deleted_files l). split; [by rewrite Hl; destruct l|]. set_solver. }
  cbn [fst snd]. destruct (Nat.eqb_spec (Z.to_nat k) level) as [E|Hne].
  - assert (Ha : add_file ucmp ls (k, f) !! level
      = Some (mkLevel (deleted_files l ∖ {[ number f ]}) (insert_file ucmp (with_seeks f) (added_files l))))
      by (unfold add_file; cbn [fst snd]; by rewrite E, list_lookup_alter_eq, Hl).
    destruct (IH _ _ _ Ha) as (d & Hd & Hiff).
    exists d. split; [exact Hd|]. intros m. rewrite Hiff. cbn. set_solver.
  - apply IH. unfold add_file. by rewrite list_lookup_alter_ne by done.
Qed.

Lemma Apply_level e b level : (level < length (levels_ b))%nat ->
  exists d, level_state (Apply ucmp e b) level = mkLevel d (insert_all (news_at e level) (added_files (level_state b level))) /\
    forall n, n ∈ d <-> (n ∈ deleted_files (level_state b level) \/ n ∈ dels_at e level) /\ n ∉ map number (news_at e level).
Proof.
  intros Hl. destruct (lookup_lt_is_Some_2 (levels_ b) level Hl) as [l Hb].
  unfold level_state, Apply. cbn [levels_]. rewrite Hb. cbn [default].
  destruct (delete_fold (deleted_files_ e) _ level l Hb) as (d1 & H1 & Hd1).
  destruct (add_fold (new_files_ e) _ level _ H1) as (d2 & -> & Hd2). exists d2. split; [done|].
  intros n. rewrite Hd2. cbn. by rewrite Hd1.
Qed.

Lemma Apply_length e b : length (levels_ (Apply ucmp e b)) = length (levels_ b).
Proof.
  unfold Apply. cbn [levels_].
  assert (H1 : forall nfs ls, length (fold_left (add_file ucmp) nfs ls) = length ls).
  { induction nfs as [|nf nfs IH]; intros ls; cbn; [done|]. rewrite IH. unfold add_file. by rewrite length_alter. }
  assert (H2 : forall ds ls, length (fold_left delete_file ds ls) = length ls).
  { induction ds as [|d ds IH]; intros ls; cbn; [done|]. rewrite IH. unfold delete_file. by rewrite length_alter. }
  by rewrite H1, H2.
Qed.

(** ** The order of files *)

Definition bs_cmp (f g : FileMetaData) : comparison :=
  match icmp (smallest f) (smallest g) with Eq => number f ?= number g | c => c end.

#[global] Instance bs_cmp_total : TotalCmp bs_cmp.
Proof.
  unfold bs_cmp. split.
  - intros x. by rewrite (cmp_refl icmp), Z.compare_refl.
  - intros x y. rewrite (cmp_opp icmp (smallest x)). destruct (icmp (smallest x) (smallest y)); cbn; try done.
    by rewrite Z.compare_antisym.
  - intros x y z. destruct (icmp (smallest x) (smallest y)) eqn:E1, (icmp (smallest y) (smallest z)) eqn:E2; try done.
    + rewrite (cmp_eq_trans _ _ _ _ E1 E2). rewrite !Z.compare_lt_iff. lia.
    + by rewrite (cmp_eq_l _ _ _ _ E1), E2.
    + by rewrite <- (cmp_eq_r _ _ _ _ E2), E1.
    + by rewrite (cmp_lt_trans _ _ _ _ E1 E2).
  - intros x y z. destruct (icmp (smallest x) (smallest y)) eqn:E; try done. rewrite (cmp_eq_l _ _ _ _ E).
    intros H%Z.compare_eq. by rewrite H.
Qed.

Lemma BySmallestKey_cmp f g : BySmallestKey ucmp f g = is_lt (bs_cmp f g).
Proof.
  unfold BySmallestKey, bs_cmp. by destruct (icmp _ _).
Qed.

Definition files_sorted (l : list FileMetaData) : Prop := StronglySorted (fun a b => bs_cmp a b = Lt) l.

Lemma insert_file_elem f l x : x ∈ insert_file ucmp f l -> x = f \/ x ∈ l.
Proof.
  induction l as [|g l IH]; cbn; [set_solver|]. destruct (BySmallestKey ucmp f g); [set_solver|].
  destruct (BySmallestKey ucmp g f); set_solver.
Qed.

Lemma insert_file_perm f l : (forall g, g ∈ l -> number g <> number f) -> insert_file ucmp f l ≡ₚ f :: l.
Proof.
  induction l as [|g l IH]; intros Hn; cbn; [done|]. rewrite !BySmallestKey_cmp.
  destruct (bs_cmp f g) eqn:E; cbn.
  - unfold bs_cmp in E. destruct (icmp (smallest f) (smallest g)); try done.
    apply Z.compare_eq in E. by destruct (Hn g ltac:(by left)).
  - done.
  - apply (cmp_gt_lt bs_cmp) in E. rewrite E. cbn. rewrite IH; [apply Permutation_swap|]. intros h Hh. apply Hn. by right.
Qed.

Lemma insert_file_sorted f l : files_sorted l -> files_sorted (insert_file ucmp f l).
Proof.
  unfold files_sorted. induction l as [|g l IH]; cbn; intros Hs; [by repeat constructor|].
  pose proof Hs as Hs'. apply StronglySorted_inv in Hs as [Hs Hall]. rewrite !BySmallestKey_cmp.
  destruct (bs_cmp f g) eqn:E; cbn.
  - by rewrite (cmp_eq_sym bs_cmp _ _ E).
  - constructor; [done|]. constructor; [done|]. eapply Forall_impl; [done|]. cbn. intros h Hh.
    by apply (cmp_lt_trans bs_cmp _ g).
  - apply (cmp_gt_lt bs_cmp) in E. rewrite E. cbn. constructor; [by apply IH|]. apply Forall_forall.
    intros h [->|Hh]%insert_file_elem; [done|]. rewrite Forall_forall in Hall. by apply Hall.
Qed.

(** ** Merging *)

Lemma split_upper_spec a base : files_sorted base ->
  let '(pre, suf) := split_upper ucmp a base in
  base = pre ++ suf /\ Forall (fun b => bs_cmp a b <> Lt) pre /\ Forall (fun b => bs_cmp a b = Lt) suf.
Proof.
  induction base as [|b base IH]; intros Hs; cbn; [done|]. apply StronglySorted_inv in Hs as [Hs Hall].
  rewrite BySmallestKey_cmp. destruct (is_lt (bs_cmp a b)) eqn:E.
  - apply is_lt_true in E. split; [done|]. split; [done|]. constructor; [done|].
    eapply Forall_impl; [done|]. cbn. intros c. by apply (cmp_lt_trans bs_cmp).
  - specialize (IH Hs). destruct (split_upper ucmp a base) as [pre suf]. destruct IH as (-> & H1 & H2).
    split; [done|]. split; [|done]. constructor; [|done]. intros H. by rewrite H in E.
Qed.

Lemma split_upper_app a base : let '(pre, suf) := split_upper ucmp a base in base = pre ++ suf.
Proof.
  induction base as [|b base IH]; cbn; [done|]. destruct (BySmallestKey ucmp a b); [done|].
  destruct (split_upper ucmp a base). by rewrite IH.
Qed.

Lemma merge_files_perm added : forall base, merge_files ucmp base added ≡ₚ base ++ added.
Proof.
  induction added as [|a added IH]; intros base; cbn; [by rewrite app_nil_r|].
  pose proof (split_upper_app a base) as H. destruct (split_upper ucmp a base) as [pre suf]. subst base.
  rewrite IH. rewrite <- app_assoc. f_equiv. by rewrite Permutation_middle.
Qed.

Lemma files_sorted_app (l1 l2 : list FileMetaData) : files_sorted l1 -> files_sorted l2 ->
  (forall a b, a ∈ l1 -> b ∈ l2 -> bs_cmp a b = Lt) -> files_sorted (l1 ++ l2).
Proof.
  unfold files_sorted. induction l1 as [|a l1 IH]; cbn; intros H1 H2 H; [done|].
  apply StronglySorted_inv in H1 as [H1 Hall]. constructor; [apply IH; set_solver|].
  apply Forall_app. split; [done|]. apply Forall_forall. set_solver.
Qed.

Lemma files_sorted_app_inv (l1 l2 : list FileMetaData) : files_sorted (l1 ++ l2) -> files_sorted l1 /\ files_sorted l2.
Proof.
  unfold files_sorted. induction l1 as [|a l1 IH]; cbn; intros H; [by split; [constructor|]|].
  apply StronglySorted_inv in H as [H Hall]. destruct (IH H) as [H1 H2]. split; [|done].
  constructor; [done|]. by apply Forall_app in Hall as [? _].
Qed.

Lemma merge_files_sorted added : forall base, files_sorted base -> files_sorted added ->
  (forall a b, a ∈ added -> b ∈ base -> bs_cmp a b <> Eq) -> files_sorted (merge_files ucmp base added).
Proof.
  induction added as [|a added IH]; intros base Hb Ha Hne; cbn; [done|].
  apply StronglySorted_inv in Ha as [Ha Hall]. pose proof (split_upper_spec a base Hb) as H.
  destruct (split_upper ucmp a base) as [pre suf]. destruct H as (-> & Hpre & Hsuf).
  apply files_sorted_app_inv in Hb as [Hbp Hbs]. rewrite !Forall_forall in *.
  assert (Hpa : forall p, p ∈ pre -> bs_cmp p a = Lt).
  { intros p Hp. apply (cmp_gt_lt bs_cmp). specialize (Hpre p Hp). specialize (Hne a p ltac:(by left)).
    destruct (bs_cmp a p); [|done|done]. destruct Hne; [set_solver|done]. }
  assert (Ham : forall m, m ∈ merge_files ucmp suf added -> bs_cmp a m = Lt).
  { intros m. rewrite merge_files_perm, elem_of_app. intros [?|?]; auto. }
  apply files_sorted_app; [done| |].
  - constructor; [apply IH; [done|done|]; set_solver|]. by apply Forall_forall.
  - intros p m Hp [->|Hm]%elem_of_cons; [by apply Hpa|]. apply (cmp_lt_trans bs_cmp _ a); auto.
Qed.

Lemma elem_keep d l f : f ∈ keep d l <-> f ∈ l /\ number f ∉ d.
Proof. unfold keep. rewrite list_elem_of_In, filter_In, <- list_elem_of_In, negb_true_iff, bool_decide_eq_false. done. Qed.

Lemma keep_sorted d l : files_sorted l -> files_sorted (keep d l).
Proof.
  unfold files_sorted, keep. induction l as [|f l IH]; cbn; intros Hs; [done|].
  apply StronglySorted_inv in Hs as [Hs Hall]. case_match; [|by apply IH]. constructor; [by apply IH|].
  apply Forall_forall. intros g Hg. rewrite Forall_forall in Hall. apply Hall. by apply (elem_keep d l g) in Hg as [? _].
Qed.

(** Two ordered lists with the same files are the same list. *)
Lemma sorted_unique l1 : forall l2, files_sorted l1 -> files_sorted l2 -> (forall f, f ∈ l1 <-> f ∈ l2) -> l1 = l2.
Proof.
  unfold files_sorted. induction l1 as [|a l1 IH]; intros [|b l2] H1 H2 Hiff; [done|..].
  - by destruct (not_elem_of_nil b); apply Hiff; left.
  - by destruct (not_elem_of_nil a); apply Hiff; left.
  - apply StronglySorted_inv in H1 as [H1 Ha]. apply StronglySorted_inv in H2 as [H2 Hb].
    rewrite Forall_forall in Ha. rewrite Forall_forall in Hb.
    assert (Hirr : forall x, bs_cmp x x <> Lt) by (intros x; by rewrite (cmp_refl bs_cmp)).
    assert (a = b) as ->.
    { assert (Hab : a ∈ b :: l2) by (apply Hiff; by left). assert (Hba : b ∈ a :: l1) by (apply Hiff; by left).
      apply elem_of_cons in Hab as [->|Hab]; [done|]. apply elem_of_cons in Hba as [->|Hba]; [done|].
      destruct (Hirr a). apply (cmp_lt_trans bs_cmp _ b); auto. }
    f_equal. apply IH; [done|done|]. intros f. split; intros Hf.
    + assert (Hf' : f ∈ b :: l2) by (apply Hiff; by right). apply elem_of_cons in Hf' as [->|]; [|done].
      by destruct (Hirr b); apply Ha.
    + assert (Hf' : f ∈ b :: l1) by (apply Hiff; by right). apply elem_of_cons in Hf' as [->|]; [|done].
      by destruct (Hirr b); apply Hb.
Qed.

(** ** Saving a level *)

Lemma maybe_fold_None level d l : fold_left (MaybeAddFile ucmp level d) l None = None.
Proof. by induction l. Qed.

Lemma maybe_fold_sound level d l : forall acc r,
  fold_left (MaybeAddFile ucmp level d) l (Some acc) = Some r -> r = acc ++ keep d l.
Proof.
  induction l as [|f l IH]; intros acc r; cbn [fold_left]; [intros [= <-]; by rewrite app_nil_r|].
  unfold MaybeAddFile at 2, keep. cbn [mbind option_bind List.filter]. destruct (decide (number f ∈ d)) as [Hd|Hd].
  - rewrite bool_decide_eq_true_2 by done. apply IH.
  - rewrite bool_decide_eq_false_2 by done. cbn [negb].
    destruct (last acc); [case_match; [by rewrite maybe_fold_None|]|]; intros ->%IH; by rewrite <- app_assoc.
Qed.

Lemma no_overlap_app l1 l2 : no_overlap ucmp (l1 ++ l2) = true -> no_overlap ucmp l2 = true.
Proof.
  induction l1 as [|a l1 IH]; [done|]. cbn [app]. intros H. apply IH. destruct (l1 ++ l2); [done|].
  apply andb_true_iff in H as [_ H]. exact H.
Qed.

Lemma maybe_fold_complete level d l : forall acc, level = 0%nat \/ no_overlap ucmp (acc ++ keep d l) = true ->
  fold_left (MaybeAddFile ucmp level d) l (Some acc) = Some (acc ++ keep d l).
Proof.
  induction l as [|f l IH]; intros acc H; cbn [fold_left]; [by rewrite app_nil_r|].
  unfold MaybeAddFile at 2. change (keep d (f :: l)) with
    (if negb (bool_decide (number f ∈ d)) then f :: keep d l else keep d l) in *. cbn [mbind option_bind].
  destruct (decide (number f ∈ d)) as [Hd|Hd].
  - rewrite bool_decide_eq_true_2 in * by done. by apply IH.
  - rewrite bool_decide_eq_false_2 in * by done. cbn [negb] in *.
    assert (Hgo : fold_left (MaybeAddFile ucmp level d) l (Some (acc ++ [f])) = Some (acc ++ f :: keep d l))
      by (rewrite IH; rewrite <- app_assoc; done).
    destruct (last acc) as [g|] eqn:Hg; [|exact Hgo].
    assert (Hc : ((0 <? level)%nat && negb (is_lt (icmp (largest g) (smallest f)))) = false); [|by rewrite Hc].
    destruct H as [->|H]; [done|]. apply last_Some in Hg as [l' ->]. rewrite <- !app_assoc in H.
    apply no_overlap_app in H. apply andb_true_iff in H as [H _]. by rewrite H, andb_false_r.
Qed.

Lemma SaveTo_level_sound b level r : SaveTo_level ucmp b level = Some r ->
  r = keep (deleted_files (level_state b level)) (merge_files ucmp (level_files (base_ b) level) (added_files (level_state b level))) /\
  (level = 0%nat \/ no_overlap ucmp r = true).
Proof.
  unfold SaveTo_level. fold (level_state b level).
  destruct (fold_left _ _ _) as [fs|] eqn:E; [|done]. cbn [mbind option_bind].
  apply maybe_fold_sound in E. cbn [app] in E. subst fs. case_match eqn:Hc; [done|]. intros [= <-]. split; [done|].
  apply andb_false_iff in Hc as [Hc|Hc]; [left; apply Nat.ltb_ge in Hc; lia|right; by apply negb_false_iff].
Qed.

Lemma SaveTo_level_complete b level :
  let r := keep (deleted_files (level_state b level)) (merge_files ucmp (level_files (base_ b) level) (added_files (level_state b level))) in
  level = 0%nat \/ no_overlap ucmp r = true -> SaveTo_level ucmp b level = Some r.
Proof.
  intros r Hr. unfold SaveTo_level. fold (level_state b level).
  rewrite maybe_fold_complete by done. cbn [mbind option_bind app]. fold r.
  destruct Hr as [->|Hr]; [done|]. by rewrite Hr, andb_false_r.
Qed.

End Levels.

(** ** Saving a version *)

Section Save.
Context (ucmp : Comparator) `{!TotalCmp (Compare ucmp)}.

Lemma SaveTo_levels b v v' : SaveTo ucmp b v = Some v' ->
  length (files_ v') = kNumLevels /\
  forall level, (level < kNumLevels)%nat -> SaveTo_level ucmp b level = Some (level_files v' level).
Proof.
  unfold SaveTo. destruct (mapM _ _) as [files|] eqn:E; [|done]. cbn [mbind option_bind]. intros [= <-].
  apply mapM_Some in E. pose proof (Forall2_length _ _ _ E) as Hl. rewrite length_seq in Hl. cbn [files_].
  split; [done|]. intros level Hlev. unfold level_files. cbn [files_].
  destruct (lookup_lt_is_Some_2 files level ltac:(lia)) as [fs Hfs]. rewrite Hfs.
  eapply Forall2_lookup_lr in E; [exact E| |exact Hfs]. by rewrite lookup_seq_lt.
Qed.

Lemma SaveTo_total b v (r : nat -> list FileMetaData) :
  (forall level, (level < kNumLevels)%nat -> SaveTo_level ucmp b level = Some (r level)) ->
  exists v', SaveTo ucmp b v = Some v' /\ forall level, (level < kNumLevels)%nat -> level_files v' level = r level.
Proof.
  intros H. assert (E : mapM (SaveTo_level ucmp b) (seq 0 kNumLevels) = Some (map r (seq 0 kNumLevels))).
  { apply mapM_Some. apply Forall2_same_length_lookup_2; [by rewrite length_map|].
    intros i x y Hx. rewrite list_lookup_fmap, Hx. intros [= <-]. apply lookup_seq in Hx as [-> Hi]. by apply H. }
  unfold SaveTo. rewrite E. cbn [mbind option_bind]. eexists. split; [done|]. intros level Hl.
  unfold level_files. cbn [files_]. rewrite list_lookup_fmap, lookup_seq_lt by done. done.
Qed.

Lemma no_overlap_level_ok fs : Forall (file_ok ucmp) fs -> no_overlap ucmp fs = true -> level_ok ucmp fs.
Proof.
  intros Hf Hn. split; [|done]. induction fs as [|a fs IH]; [constructor|].
  inversion Hf as [|? ? Ha Hf']; subst. destruct fs as [|b fs]; [by repeat constructor|].
  apply andb_true_iff in Hn as [Hab Hn]. apply is_lt_true in Hab. specialize (IH Hf' Hn).
  constructor; [done|]. constructor; [done|]. apply StronglySorted_inv in IH as [_ Hall].
  inversion Hf' as [|? ? (_ & _ & Hb) _]; subst. eapply Forall_impl; [done|]. cbn. intros c Hc.
  apply (cmp_lt_trans (InternalKey_Compare ucmp) _ (largest b)); [|done].
  by apply (cmp_lt_le_trans (InternalKey_Compare ucmp) _ (smallest b)).
Qed.

Lemma insert_all_sorted l : forall acc, files_sorted ucmp acc -> files_sorted ucmp (insert_all ucmp l acc).
Proof. induction l as [|f l IH]; intros acc H; cbn; [done|]. apply IH. by apply insert_file_sorted. Qed.

Lemma insert_all_perm l : forall acc, NoDup (map number l) ->
  (forall f g, f ∈ l -> g ∈ acc -> number g <> number f) -> insert_all ucmp l acc ≡ₚ map with_seeks l ++ acc.
Proof.
  induction l as [|f l IH]; intros acc Hnd Hne; [done|].
  change (insert_all ucmp (f :: l) acc) with (insert_all ucmp l (insert_file ucmp (with_seeks f) acc)).
  inversion Hnd as [|? ? Hf Hnd']; subst.
  assert (Hp : insert_file ucmp (with_seeks f) acc ≡ₚ with_seeks f :: acc).
  { apply insert_file_perm; [done|]. intros g Hg. apply (Hne f g); [by left|done]. }
  rewrite (IH _ Hnd'); [rewrite Hp; cbn; by rewrite Permutation_middle|].
  intros h g Hh Hg. rewrite Hp in Hg. apply elem_of_cons in Hg as [->|Hg]; [|apply Hne; [by right|done]].
  cbn. intros Heq. apply Hf. rewrite Heq. apply list_elem_of_fmap. by exists h.
Qed.

Lemma merge_nil added : merge_files ucmp [] added = added.
Proof. induction added as [|a added IH]; cbn; [done|]. by rewrite IH. Qed.

(** A version with its order: every level by smallest key, those above 0
    disjoint. *)
Definition version_sorted (v : Version) : Prop :=
  forall level, (level < kNumLevels)%nat ->
    files_sorted ucmp (level_files v level) /\ (level = 0%nat \/ no_overlap ucmp (level_files v level) = true).

(** The files an edit adds are new in their level. *)
Definition fresh_edit (e : VersionEdit) (known : nat -> list Z) : Prop :=
  forall level, (level < kNumLevels)%nat ->
    NoDup (map number (news_at e level)) /\ forall f, f ∈ news_at e level -> number f ∉ known level.

Definition numbers_at (v : Version) (level : nat) : list Z := map number (level_files v level).

(** The files of a level after an edit. *)
Definition edited_level (e : VersionEdit) (v : Version) (level : nat) (l : list FileMetaData) : Prop :=
  files_sorted ucmp l /\ forall f, f ∈ l <->
    (f ∈ level_files v level /\ number f ∉ dels_at e level) \/ f ∈ map with_seeks (news_at e level).

(** The builder merges and filters to exactly these. *)
Lemma builder_level e p v level : version_sorted v -> fresh_edit e (numbers_at v) -> (level < kNumLevels)%nat ->
  let b := Apply ucmp e (new_Builder p v) in
  edited_level e v level (keep (deleted_files (level_state b level))
    (merge_files ucmp (level_files (base_ b) level) (added_files (level_state b level)))).
Proof.
  intros Hv Hfresh Hl b. destruct (Hfresh level Hl) as [Hnd Hnew]. destruct (Hv level Hl) as [Hsv _].
  destruct (Apply_level ucmp e (new_Builder p v) level Hl) as (d & Hst & Hd). fold b in Hst. rewrite Hst.
  assert (Hempty : level_state (new_Builder p v) level = mkLevel ∅ []).
  { unfold level_state, new_Builder. cbn [levels_]. by rewrite lookup_replicate_2. }
  rewrite Hempty in Hd |- *. cbn [deleted_files added_files] in Hd |- *. change (base_ b) with v.
  pose proof (insert_all_perm (news_at e level) [] Hnd ltac:(set_solver)) as Hp. rewrite app_nil_r in Hp.
  assert (Hdisj : forall f g, f ∈ news_at e level -> g ∈ level_files v level -> number f <> number g).
  { intros f g Hf Hg E. apply (Hnew f Hf). rewrite E. apply list_elem_of_fmap. by exists g. }
  split.
  - apply keep_sorted. apply merge_files_sorted; [done|done|by apply insert_all_sorted; constructor|].
    intros x y Hx Hy. rewrite Hp in Hx. apply list_elem_of_fmap in Hx as (f & -> & Hf).
    unfold bs_cmp. destruct (InternalKey_Compare ucmp _ _); try done. cbn [number with_seeks].
    intros E%Z.compare_eq. by apply (Hdisj f y).
  - intros f. rewrite elem_keep, merge_files_perm, elem_of_app, Hp, Hd.
    assert (Hn : forall g, g ∈ map with_seeks (news_at e level) -> number g ∈ map number (news_at e level)).
    { intros g (h & -> & Hh)%list_elem_of_fmap. cbn. apply list_elem_of_fmap. by exists h. }
    assert (Ho : f ∈ level_files v level -> number f ∉ map number (news_at e level)).
    { intros Hf (h & E & Hh)%list_elem_of_fmap. by apply (Hdisj h f). }
    specialize (Hn f). set_solver.
Qed.

(** One edit on a version: what the builder produces. *)
Lemma Apply_SaveTo e p v v' : version_sorted v -> fresh_edit e (numbers_at v) ->
  SaveTo ucmp (Apply ucmp e (new_Builder p v)) new_Version = Some v' ->
  version_sorted v' /\ forall level, (level < kNumLevels)%nat -> edited_level e v level (level_files v' level).
Proof.
  intros Hv Hfresh Hs. apply SaveTo_levels in Hs as [_ Hs].
  assert (H : forall level, (level < kNumLevels)%nat -> edited_level e v level (level_files v' level) /\
    (level = 0%nat \/ no_overlap ucmp (level_files v' level) = true)).
  { intros level Hl. destruct (SaveTo_level_sound ucmp _ _ _ (Hs level Hl)) as [Heq Hno].
    split; [|done]. rewrite Heq. by apply builder_level. }
  split; intros level Hl; [split|]; apply (H level Hl).
Qed.

Lemma SaveTo_edited e p v (target : nat -> list FileMetaData) : version_sorted v -> fresh_edit e (numbers_at v) ->
  (forall level, (level < kNumLevels)%nat -> edited_level e v level (target level) /\
     (level = 0%nat \/ no_overlap ucmp (target level) = true)) ->
  exists v', SaveTo ucmp (Apply ucmp e (new_Builder p v)) new_Version = Some v' /\
    forall level, (level < kNumLevels)%nat -> level_files v' level = target level.
Proof.
  intros Hv Hfresh Ht. apply SaveTo_total. intros level Hl. destruct (Ht level Hl) as [[Hs He] Hno].
  pose proof (builder_level e p v level Hv Hfresh Hl) as Hb. cbv zeta in Hb. destruct Hb as [Hbs Hbe].
  assert (Heq : target level = keep (deleted_files (level_state (Apply ucmp e (new_Builder p v)) level))
    (merge_files ucmp (level_files (base_ (Apply ucmp e (new_Builder p v))) level)
       (added_files (level_state (Apply ucmp e (new_Builder p v)) level)))).
  { apply (sorted_unique ucmp); [done|done|]. intros f. by rewrite He, Hbe. }
  rewrite Heq in Hno |- *. by apply SaveTo_level_complete.
Qed.

End Save.

(** ** Replaying the log of edits *)

(** What the MANIFEST keeps of a file: not its Merkle root. *)
Definition norm (f : FileMetaData) : FileMetaData := with_seeks (strip f).

Section Replay.
Context (ucmp : Comparator) `{!TotalCmp (Compare ucmp)}.

(** The builder of a recovery, started on the empty version, stands for [v]. *)
Record replays (b : Builder) (v : Version) : Prop := {
  rep_base : base_ b = new_Version;
  rep_length : length (levels_ b) = kNumLevels;
  rep_sorted : version_sorted ucmp v;
  rep_added : forall level, (level < kNumLevels)%nat -> files_sorted ucmp (added_files (level_state b level));
  rep_files : forall level, (level < kNumLevels)%nat ->
    keep (deleted_files (level_state b level)) (added_files (level_state b level)) = map norm (level_files v level)
}.

(** Every file the builder has seen in a level. *)
Definition known (b : Builder) (level : nat) : list Z := map number (added_files (level_state b level)).

Lemma norm_sorted l : files_sorted ucmp l -> files_sorted ucmp (map norm l).
Proof.
  unfold files_sorted. induction 1 as [|f l Hs IH Hall]; cbn; [constructor|]. constructor; [done|].
  by apply Forall_fmap.
Qed.

Lemma no_overlap_norm l : no_overlap ucmp (map norm l) = no_overlap ucmp l.
Proof. induction l as [|a [|b l] IH]; [done|done|]. cbn [map no_overlap] in *. by rewrite IH. Qed.

Lemma news_at_decoded e0 e level : news_at (decoded e0 e) level = map strip (news_at e level).
Proof.
  unfold news_at, decoded. cbn [new_files_]. induction (new_files_ e) as [|[k f] l IH]; [done|].
  cbn [map List.filter fst snd]. destruct (Z.to_nat k =? level)%nat; cbn [map]; by rewrite IH.
Qed.

Lemma map_number_strip l : map number (map strip l) = map number l.
Proof. by rewrite map_map. Qed.

Lemma new_Version_level level : level_files new_Version level = [].
Proof.
  unfold level_files, new_Version. cbn [files_]. destruct (replicate _ _ !! level) as [l|] eqn:E; [|done].
  by apply lookup_replicate in E as [-> _].
Qed.

(** Saving the recovered builder gives the version it stands for. *)
Lemma replays_SaveTo b v : replays b v ->
  exists v', SaveTo ucmp b new_Version = Some v' /\
    forall level, (level < kNumLevels)%nat -> level_files v' level = map norm (level_files v level).
Proof.
  intros [Hb Hl Hs Ha Hf]. apply SaveTo_total. intros level Hlev. rewrite <- (Hf level Hlev).
  rewrite <- (merge_nil ucmp (added_files (level_state b level))), <- (new_Version_level level), <- Hb.
  apply SaveTo_level_complete. rewrite Hb, new_Version_level, merge_nil, (Hf level Hlev), no_overlap_norm.
  by apply Hs.
Qed.

(** Applying the edit read back from the log keeps up with applying it in
    memory. *)
Lemma replays_step b v v' e p : replays b v -> fresh_edit e (known b) ->
  SaveTo ucmp (Apply ucmp e (new_Builder p v)) new_Version = Some v' ->
  replays (Apply ucmp (decoded new_VersionEdit e) b) v'.
Proof.
  intros [Hb Hl Hs Ha Hf] Hfresh Hsave.
  assert (Hknown : forall level, (level < kNumLevels)%nat -> forall f, f ∈ level_files v level -> number f ∈ known b level).
  { intros level Hlev f Hfl. assert (Hn : norm f ∈ map norm (level_files v level)) by (apply list_elem_of_fmap; by exists f).
    rewrite <- Hf in Hn by done. apply elem_keep in Hn as [Hn _]. apply list_elem_of_fmap. by exists (norm f). }
  assert (Hfv : fresh_edit e (numbers_at v)).
  { intros level Hlev. destruct (Hfresh level Hlev) as [Hnd Hne]. split; [done|]. intros f Hfn Hin.
    apply (Hne f Hfn). apply list_elem_of_fmap in Hin as (g & -> & Hg). by apply Hknown. }
  destruct (Apply_SaveTo ucmp e p v v' Hs Hfv Hsave) as [Hs' Hel].
  split; [done|by rewrite Apply_length|done| |].
  { intros level Hlev. destruct (Apply_level ucmp (decoded new_VersionEdit e) b level ltac:(lia)) as (d & -> & _).
    cbn [added_files]. apply insert_all_sorted; [done|]. by apply Ha. }
  intros level Hlev. destruct (Hfresh level Hlev) as [Hnd Hne].
  destruct (Apply_level ucmp (decoded new_VersionEdit e) b level ltac:(lia)) as (d & -> & Hd).
  cbn [added_files deleted_files]. rewrite news_at_decoded in *. rewrite map_number_strip in Hd.
  change (dels_at (decoded new_VersionEdit e) level) with (dels_at e level) in Hd.
  assert (Hp : insert_all ucmp (map strip (news_at e level)) (added_files (level_state b level)) ≡ₚ
               map norm (news_at e level) ++ added_files (level_state b level)).
  { rewrite insert_all_perm; [by rewrite map_map|done|by rewrite map_number_strip|].
    intros f g (h & -> & Hh)%list_elem_of_fmap Hg E. apply (Hne h Hh). apply list_elem_of_fmap. by exists g. }
  apply (sorted_unique ucmp); [|apply norm_sorted; by apply Hs'|].
  { apply keep_sorted. apply insert_all_sorted; [done|]. by apply Ha. }
  intros g. rewrite elem_keep, Hp, elem_of_app, Hd. specialize (Hel level Hlev). split.
  - intros [[(f & -> & Hfn)%list_elem_of_fmap|Hg] Hnd'].
    + apply list_elem_of_fmap. exists (with_seeks f). split; [done|]. apply Hel. right.
      apply list_elem_of_fmap. by exists f.
    + assert (Hgn : number g ∉ map number (news_at e level)).
      { intros (h & E & Hh)%list_elem_of_fmap. apply (Hne h Hh). rewrite <- E. apply list_elem_of_fmap. by exists g. }
      assert (Hk : g ∈ map norm (level_files v level)) by (rewrite <- Hf by done; apply elem_keep; naive_solver).
      apply list_elem_of_fmap in Hk as (f & -> & Hfl). apply list_elem_of_fmap. exists f. split; [done|].
      apply Hel. left. split; [done|]. naive_solver.
  - intros (f & -> & [[Hfl Hnd']|(h & -> & Hh)%list_elem_of_fmap]%Hel)%list_elem_of_fmap.
    + assert (Hk : norm f ∈ map norm (level_files v level)) by (apply list_elem_of_fmap; by exists f).
      rewrite <- Hf in Hk by done. apply elem_keep in Hk as [Hk1 Hk2]. split; [by right|].
      change (number (norm f)) with (number f) in *. naive_solver.
    + split; [left; apply list_elem_of_fmap; by exists h|]. intros [_ Hn]. apply Hn.
      apply list_elem_of_fmap. by exists h.
Qed.

End Replay.

(** ** Properties *)

(** C32. Applying an edit that brings new files: if the old files it does not
    delete and the files it adds, ordered by smallest key, are disjoint in
    every level above 0, the builder saves exactly them; and whatever it saves
    is that. *)
Theorem builder_applies_edit ucmp `{!TotalCmp (Compare ucmp)} e p v :
  version_sorted ucmp v -> fresh_edit e (numbers_at v) ->
  (forall target,
     (forall level, (level < kNumLevels)%nat -> edited_level ucmp e v level (target level) /\
        (level = 0%nat \/ no_overlap ucmp (target level) = true)) ->
     exists v', SaveTo ucmp (Apply ucmp e (new_Builder p v)) new_Version = Some v' /\
       forall level, (level < kNumLevels)%nat -> level_files v' level = target level) /\
  (forall v', SaveTo ucmp (Apply ucmp e (new_Builder p v)) new_Version = Some v' ->
     version_sorted ucmp v' /\
     forall level, (level < kNumLevels)%nat -> edited_level ucmp e v level (level_files v' level)).
Proof. intros Hv Hf. split; [intros target Ht; by apply SaveTo_edited|intros v' Hs; by apply (Apply_SaveTo ucmp e p)]. Qed.

Definition sample_move : VersionEdit :=
  AddFile 1 6 900 (sample_key "c" 1) (sample_key "d" 1) (DeleteFile 1 3 new_VersionEdit).

Lemma builder_applies_edit_witness :
  exists v', SaveTo BytewiseComparator (Apply BytewiseComparator sample_move (new_Builder [] sample_version)) new_Version
    = Some v' /\ version_sorted BytewiseComparator v'.
Proof.
  eexists. split; [vm_compute; reflexivity|].
  apply (proj2 (builder_applies_edit BytewiseComparator sample_move [] sample_version
    ltac:(intros level _; pose proof (sample_level_ok level) as [H _]; do 7 (destruct level as [|level];
            [split; [try apply (SSorted_nil _); apply SSorted_cons; constructor|right; reflexivity]|]);
          split; [apply (SSorted_nil _)|right; reflexivity])
    ltac:(intros level _; do 7 (destruct level as [|level];
            [split; [try apply NoDup_nil_2; apply NoDup_singleton
                    |intros f Hf; try (apply not_elem_of_nil in Hf; destruct Hf);
                     apply list_elem_of_singleton in Hf as ->; vm_compute; intros H; by inversion H; inversion H2]|]);
          split; [apply NoDup_nil_2|intros f Hf; by apply not_elem_of_nil in Hf]))).
  vm_compute. reflexivity.
Defined.
