(* ===== verification/Recovery.v ===== *)
(** * Recovery from the MANIFEST

    [VersionSet::LogAndApply] and [VersionSet::Recover] together: after any
    number of logged edits, and whatever part of the last records a crash
    loses, recovery rebuilds the files of one of the logged versions. *)

From S2P Require Import Prelude Coding Logging Status Comparator Dbformat Env Filename MemTable VersionEdit Log Version VersionSet.

(** ** Reading the edits back *)

Section Replay.
Context (ucmp : Comparator) `{!TotalCmp (Compare ucmp)}.

Definition encode (e : VersionEdit) : bytes := EncodeTo e [].

(** An edit that recovery accepts. *)
Definition loggable (e : VersionEdit) : Prop :=
  edit_ok e /\ (has_comparator_ e = true -> comparator_ e = cmp_Name ucmp).

Definition replay (es : list VersionEdit) (b : Builder) : Builder :=
  fold_left (fun b e => Apply ucmp (decoded new_VersionEdit e) b) es b.

Definition recover_all (es : list VersionEdit) (r : RecState) : RecState :=
  fold_left (fun r e => recover_edit ucmp (decoded new_VersionEdit e) Status_OK r) es r.

Lemma recover_edit_ok e r : loggable e ->
  recover_edit ucmp (decoded new_VersionEdit e) Status_OK r =
  mkRec Status_OK (Apply ucmp (decoded new_VersionEdit e) (r_builder r))
    (seen (has_log_number_ e) (log_number_ e) (r_log_number r))
    (seen (has_prev_log_number_ e) (prev_log_number_ e) (r_prev_log_number r))
    (seen (has_next_file_number_ e) (next_file_number_ e) (r_next_file r))
    (seen (has_last_sequence_ e) (last_sequence_ e) (r_last_sequence r)).
Proof.
  intros [_ Hc]. unfold recover_edit. cbn [ok Status_OK has_comparator_ comparator_ decoded andb].
  destruct (has_comparator_ e); [|done]. rewrite Hc by done. by rewrite bool_decide_eq_true_2.
Qed.

Lemma recover_all_spec es : forall r, Forall loggable es -> r_status r = Status_OK ->
  r_status (recover_all es r) = Status_OK /\ r_builder (recover_all es r) = replay es (r_builder r).
Proof.
  induction es as [|e es IH]; intros r Hes Hr; [done|]. inversion Hes as [|? ? He Hes']; subst.
  unfold recover_all, replay. cbn [fold_left]. rewrite recover_edit_ok by done. by apply IH.
Qed.

Lemma Recover_loop_edits {W} (renv : ReadEnv W bytes) es : env_sequential renv = MemSequential ->
  forall fuel reader reader' r, Forall loggable es -> r_status r = Status_OK ->
  read_all MemSequential fuel reader = Some (map encode es, reader') -> reports_ reader' = [] ->
  Recover_loop ucmp renv fuel reader r = Some (recover_all es r).
Proof.
  intros Hseq. induction es as [|e es IH]; intros fuel reader reader' r Hes Hr Hread Hrep;
    (destruct fuel as [|fuel]; [done|]); apply read_all_step in Hread as [Hr0 Hread]; try done;
    cbn [map] in Hread; cbn [Recover_loop]; rewrite Hseq.
  - destruct Hread as (r1 & -> & Hr1). cbn [mbind option_bind]. rewrite Hr0, Hr1. cbn.
    destruct r; cbn in Hr; by subst.
  - destruct Hread as (r1 & -> & Hr1 & Hrest). inversion Hes as [|? ? He Hes']; subst.
    cbn [mbind option_bind]. rewrite Hr0, Hr1. cbn [fold_left drop set_status r_status]. rewrite Hr. cbn [ok Status_OK].
    unfold encode. rewrite DecodeFrom_EncodeTo by apply He. cbn [mbind option_bind fst snd].
    replace (set_status Status_OK r) with r by (destruct r; cbn in Hr; by subst).
    cbn [recover_all fold_left]. apply (IH fuel r1 reader'); try done. by rewrite recover_edit_ok.
Qed.

(** The numbers of the last edit, when it has them all. *)
Definition full_edit (e : VersionEdit) : Prop :=
  has_log_number_ e = true /\ has_prev_log_number_ e = true /\
  has_next_file_number_ e = true /\ has_last_sequence_ e = true.

Lemma recover_all_last es e r : Forall loggable (es ++ [e]) -> full_edit e ->
  r_log_number (recover_all (es ++ [e]) r) = Some (log_number_ e) /\
  r_prev_log_number (recover_all (es ++ [e]) r) = Some (prev_log_number_ e) /\
  r_next_file (recover_all (es ++ [e]) r) = Some (next_file_number_ e) /\
  r_last_sequence (recover_all (es ++ [e]) r) = Some (last_sequence_ e).
Proof.
  intros Hes (H1 & H2 & H3 & H4). unfold recover_all. rewrite fold_left_app. cbn [fold_left].
  apply Forall_app in Hes as [_ He]. inversion He; subst. rewrite recover_edit_ok by done.
  cbn. by rewrite H1, H2, H3, H4.
Qed.

(** ** The snapshot that starts a MANIFEST *)

Definition numbers_logged (es : list VersionEdit) (level : nat) : list Z :=
  concat (map (fun e => map number (news_at e level)) es).

Lemma replay_length es : forall b, length (levels_ (replay es b)) = length (levels_ b).
Proof. induction es as [|e es IH]; intros b; [done|]. cbn. rewrite IH. apply Apply_length. Qed.

Lemma insert_all_numbers l : forall acc n, n ∈ map number (insert_all ucmp l acc) -> n ∈ map number l \/ n ∈ map number acc.
Proof.
  induction l as [|f l IH]; intros acc n; cbn; [by right|]. intros [H|H]%IH; [left; by right|].
  apply list_elem_of_fmap in H as (g & -> & Hg). apply (insert_file_elem ucmp) in Hg as [->|Hg].
  - left. by left.
  - right. apply list_elem_of_fmap. by exists g.
Qed.

(** The builder knows no other files than the logged ones. *)
Lemma known_replay es b level : (level < length (levels_ b))%nat -> known b level = [] ->
  forall n, n ∈ known (replay es b) level -> n ∈ numbers_logged es level.
Proof.
  intros Hl Hb n. assert (H : forall es b, (level < length (levels_ b))%nat -> n ∈ known (replay es b) level ->
    n ∈ numbers_logged es level \/ n ∈ known b level).
  { clear Hl Hb b es. intros es. induction es as [|e es IH]; intros b Hl; cbn; [by right|]. intros [H|H]%IH; [|..].
    - left. unfold numbers_logged. cbn. rewrite elem_of_app. by right.
    - unfold known in H. destruct (Apply_level ucmp (decoded new_VersionEdit e) b level Hl) as (d & Hst & _).
      rewrite Hst in H. cbn [added_files] in H. rewrite news_at_decoded in H.
      apply insert_all_numbers in H as [H|H]; [left|by right]. unfold numbers_logged. cbn.
      rewrite map_number_strip in H. rewrite elem_of_app. by left.
    - by rewrite Apply_length. }
  intros Hk. destruct (H es b Hl Hk) as [?|?]; [done|]. rewrite Hb in *. by apply not_elem_of_nil in H0.
Qed.


Lemma snapshot_pointers_files p e :
  new_files_ (snapshot_pointers p e) = new_files_ e /\ deleted_files_ (snapshot_pointers p e) = deleted_files_ e.
Proof.
  unfold snapshot_pointers. generalize (seq 0 kNumLevels). intros l. revert e.
  induction l as [|level l IH]; intros e; cbn; [done|]. destruct (IH (match default [] (p !! level) with
    | [] => e | key => SetCompactPointer (Z.of_nat level) key e end)) as [-> ->].
  by destruct (default [] (p !! level)).
Qed.

Definition level_news (v : Version) (level : nat) : list (Z * FileMetaData) :=
  map (fun f => (Z.of_nat level, strip f)) (level_files v level).

Lemma snapshot_files_new v e :
  new_files_ (snapshot_files v e) = new_files_ e ++ concat (map (level_news v) (seq 0 kNumLevels)) /\
  deleted_files_ (snapshot_files v e) = deleted_files_ e.
Proof.
  unfold snapshot_files. generalize (seq 0 kNumLevels). intros l. revert e.
  induction l as [|level l IH]; intros e; cbn; [by rewrite app_nil_r|].
  set (e1 := fold_left _ (level_files v level) e). destruct (IH e1) as [-> ->].
  assert (H : new_files_ e1 = new_files_ e ++ level_news v level /\ deleted_files_ e1 = deleted_files_ e).
  { unfold e1, level_news. clear IH e1. revert e. induction (level_files v level) as [|f fs IHf]; intros e; cbn;
      [by rewrite app_nil_r|].
    edestruct (IHf (AddFile (Z.of_nat level) (number f) (file_size f) (smallest f) (largest f) e)) as [H1 H2].
    rewrite H1, H2. cbn. split; [|done]. by rewrite <- app_assoc. }
  destruct H as [-> ->]. by rewrite <- app_assoc.
Qed.

Lemma news_at_snapshot vs level : (level < kNumLevels)%nat ->
  news_at (snapshot_edit ucmp vs) level = map strip (level_files (vs_current vs) level) /\
  dels_at (snapshot_edit ucmp vs) level = [].
Proof.
  intros Hl. unfold news_at, dels_at, snapshot_edit.
  destruct (snapshot_files_new (vs_current vs) (snapshot_pointers (vs_compact_pointer vs)
    (SetComparatorName (cmp_Name ucmp) new_VersionEdit))) as [-> ->].
  destruct (snapshot_pointers_files (vs_compact_pointer vs) (SetComparatorName (cmp_Name ucmp) new_VersionEdit)) as [-> ->].
  cbn [new_files_ deleted_files_ SetComparatorName new_VersionEdit app List.filter map]. split; [|done].
  assert (H : forall l, map snd (List.filter (fun d => (Z.to_nat d.1 =? level)%nat) (concat (map (level_news (vs_current vs)) l)))
    = concat (map (fun k => if (k =? level)%nat then map strip (level_files (vs_current vs) level) else []) l)).
  { induction l as [|k l IH]; cbn; [done|]. rewrite List.filter_app, map_app, IH. f_equal. clear IH.
    unfold level_news. destruct (Nat.eqb_spec k level) as [->|Hne].
    - induction (level_files (vs_current vs) level) as [|f fs IHf]; cbn; [done|].
      rewrite Nat2Z.id, Nat.eqb_refl. cbn. by rewrite IHf.
    - induction (level_files (vs_current vs) k) as [|f fs IHf]; cbn; [done|].
      rewrite Nat2Z.id. by destruct (Nat.eqb_spec k level). }
  rewrite H. unfold kNumLevels in *.
  do 7 (destruct level as [|level]; [cbn [seq map concat Nat.eqb app]; by rewrite ?app_nil_r|]). lia.
Qed.

(** ** Replaying a MANIFEST *)

Lemma replays_snapshot vs p : version_sorted ucmp (vs_current vs) ->
  (forall level, (level < kNumLevels)%nat -> NoDup (numbers_at (vs_current vs) level)) ->
  replays ucmp (Apply ucmp (decoded new_VersionEdit (snapshot_edit ucmp vs)) (new_Builder p new_Version)) (vs_current vs).
Proof.
  intros Hs Hnd. assert (Hst : forall level, (level < kNumLevels)%nat ->
    level_state (Apply ucmp (decoded new_VersionEdit (snapshot_edit ucmp vs)) (new_Builder p new_Version)) level
    = mkLevel ∅ (map norm (level_files (vs_current vs) level))).
  { intros level Hl.
    destruct (Apply_level ucmp (decoded new_VersionEdit (snapshot_edit ucmp vs)) (new_Builder p new_Version) level)
      as (d & -> & Hd); [by cbn; rewrite ?length_replicate|].
    assert (Hempty : level_state (new_Builder p new_Version) level = mkLevel ∅ []).
    { unfold level_state, new_Builder. cbn [levels_]. by rewrite lookup_replicate_2. }
    rewrite Hempty in Hd |- *. cbn [deleted_files added_files] in *. rewrite news_at_decoded in *.
    change (dels_at (decoded new_VersionEdit (snapshot_edit ucmp vs)) level) with (dels_at (snapshot_edit ucmp vs) level) in Hd.
    destruct (news_at_snapshot vs level Hl) as [Hn He]. rewrite Hn in *. rewrite He in Hd.
    assert (d = ∅) as -> by (apply set_eq; intros n; rewrite Hd; set_solver). f_equal.
    assert (Hp : insert_all ucmp (map strip (map strip (level_files (vs_current vs) level))) [] ≡ₚ
                 map norm (level_files (vs_current vs) level)).
    { rewrite insert_all_perm; [by rewrite app_nil_r, !map_map|done|by rewrite !map_number_strip; apply Hnd|set_solver]. }
    apply (sorted_unique ucmp); [apply insert_all_sorted; [done|constructor]|apply norm_sorted; by apply Hs|].
    intros f. by rewrite Hp. }
  split; [done|by rewrite Apply_length|done| |]; intros level Hl; rewrite Hst by done; cbn [added_files deleted_files].
  - apply norm_sorted. by apply Hs.
  - unfold keep. induction (map norm (level_files (vs_current vs) level)) as [|f l IH]; [done|]. cbn. by rewrite IH.
Qed.

End Replay.

(** ** The MANIFEST in memory *)

Section Crash.
Context (ucmp : Comparator) `{!TotalCmp (Compare ucmp)} (dbname : bytes).

Abbreviation manifest_name vs := (DescriptorFileName dbname (vs_manifest_file_number vs)).

Lemma Descriptor_not_current n : DescriptorFileName dbname n <> CurrentFileName dbname.
Proof. intros E. unfold DescriptorFileName, CurrentFileName in E. by apply app_inv_head in E. Qed.

Lemma Descriptor_not_temp n m : 0 <= m -> DescriptorFileName dbname n <> TempFileName dbname m.
Proof.
  intros Hm E. unfold DescriptorFileName, TempFileName, MakeFileName in E. apply app_inv_head in E.
  change (lit "/MANIFEST-") with (lit "/" ++ lit "MANIFEST-") in E. rewrite <- app_assoc in E. apply app_inv_head in E.
  pose proof (decimal06_digit m (lit "." ++ lit "dbtmp") Hm) as Hd. by rewrite <- E in Hd.
Qed.

(** [w'] is [w] but for the file [f]. *)
Definition only_changes (f : bytes) (w w' : MemFS) : Prop := forall g, g <> f -> mem_view w' g = mem_view w g.

(** The log writer on a file in memory. *)
Lemma AddRecord_file P record off w c c' off' s : mem_view w P = Some c ->
  AddRecord MemWritable record (mkWriter c off) = Some (s, mkWriter c' off') ->
  exists w', AddRecord (Env_writable MemEnv P) record (mkWriter w off) = Some (s, mkWriter w' off') /\ mem_view w' P = Some c' /\ only_changes P w w'.
Proof.
  intros Hc Ha. destruct (AddRecord_sim (Env_writable MemEnv P) MemWritable (fun a b => mem_view a P = Some b /\ only_changes P w a))
    with (record := record) (wa := mkWriter w off) (wb := mkWriter c off) (s := s) (wb' := mkWriter c' off')
    as ([w' off1] & Hw & [[H1 H2] H3]).
  - intros d a b [Hv Ho]. cbn -[mem_set mem_view]. rewrite Hv. cbn -[mem_set mem_view]. split; [done|].
    split; [rewrite mem_view_set; by case_decide|]. intros g Hg. rewrite mem_view_set. case_decide; [by subst|]. by apply Ho.
  - done.
  - by split.
  - done.
  - cbn [dest_ block_offset_] in *. subst off1. by exists w'.
Qed.

Lemma manifest_AddRecord_mem record off num w c c' off' s :
  mem_view w (DescriptorFileName dbname num) = Some c ->
  AddRecord MemWritable record (mkWriter c off) = Some (s, mkWriter c' off') ->
  exists w', manifest_AddRecord MemEnv dbname record off num w = Some (s, off', w') /\
    mem_view w' (DescriptorFileName dbname num) = Some c' /\ only_changes (DescriptorFileName dbname num) w w'.
Proof.
  intros Hc Ha. destruct (AddRecord_file _ record off w c c' off' s Hc Ha) as (w' & E & Hv & Ho). exists w'. unfold manifest_AddRecord. by rewrite E.
Qed.

(** The open MANIFEST holds exactly [records]. *)
Definition manifest_holds (vs : VersionSet) (w : MemFS) (records : list bytes) : Prop :=
  exists wr, write_all records = Some wr /\ mem_view w (manifest_name vs) = Some (dest_ wr) /\
    vs_descriptor vs = Some (block_offset_ wr).

Lemma write_all_snoc records r wr : write_all records = Some wr ->
  exists wr', AddRecord MemWritable r wr = Some (Status_OK, wr') /\ write_all (records ++ [r]) = Some wr'.
Proof.
  intros Hw. destruct (log_prefix_read (records ++ [r]) true) as (wr' & Hw' & _).
  unfold write_all in *. rewrite fold_left_app, Hw in *. cbn [fold_left write_step] in *.
  destruct (AddRecord MemWritable r wr) as [[[s|] x]|]; try done. cbn in Hw'. injection Hw' as ->. by exists wr'.
Qed.

(** Adding one record. *)
Lemma manifest_append vs w records r off : manifest_holds vs w records -> vs_descriptor vs = Some off ->
  exists w' off', manifest_AddRecord MemEnv dbname r off (vs_manifest_file_number vs) w = Some (Status_OK, off', w') /\
    manifest_holds (set_descriptor (Some off') vs) w' (records ++ [r]) /\ only_changes (manifest_name vs) w w'.
Proof.
  intros (wr & Hw & Hv & Hd) Ho. rewrite Ho in Hd. injection Hd as ->.
  destruct (write_all_snoc records r wr Hw) as ([c' off'] & Ha & Hw'). destruct wr as [c o]. cbn [dest_ block_offset_] in *.
  destruct (manifest_AddRecord_mem r o (vs_manifest_file_number vs) w c c' off' Status_OK Hv Ha) as (w' & H1 & H2 & H3).
  exists w', off'. split; [done|]. split; [|done]. by exists (mkWriter c' off').
Qed.

(** The version an edit makes. *)
Definition edited (e : VersionEdit) (vs : VersionSet) (v : Version) : Prop :=
  SaveTo ucmp (Apply ucmp (complete_edit e vs) (new_Builder (vs_compact_pointer vs) (vs_current vs))) new_Version = Some v.

Definition pointers_after (e : VersionEdit) (vs : VersionSet) : list bytes :=
  fold_left set_pointer (compact_pointers_ (complete_edit e vs)) (vs_compact_pointer vs).

Lemma LogAndApply_append records e vs w s vs' w' : manifest_holds vs w records ->
  LogAndApply ucmp MemEnv dbname e vs w = Some (s, vs', w') ->
  s = Status_OK /\ manifest_holds vs' w' (records ++ [encode (complete_edit e vs)]) /\
  (exists v, edited e vs v /\ files_ (vs_current vs') = files_ v) /\
  vs_manifest_file_number vs' = vs_manifest_file_number vs /\
  mem_view w' (CurrentFileName dbname) = mem_view w (CurrentFileName dbname).
Proof.
  intros Hm. unfold LogAndApply. destruct (log_number_allowed e vs); [|done]. cbn [mbind option_bind]. fold (edited e vs). set (b := Apply ucmp (complete_edit e vs) _).
  destruct (SaveTo ucmp b new_Version) as [v|] eqn:Hs; [|done]. cbn [mbind option_bind].
  set (vs1 := set_pointers (b_compact_pointer b) vs).
  assert (Hm1 : manifest_holds vs1 w records) by exact Hm. pose proof Hm as (wr & _ & _ & Hd).
  assert (Hd1 : vs_descriptor vs1 = Some (block_offset_ wr)) by exact Hd.
  unfold open_descriptor. rewrite Hd1. cbn [mbind option_bind]. unfold log_edit. cbn [ok Status_OK].
  destruct (manifest_append vs1 w records (encode (complete_edit e vs)) _ Hm1 Hd1) as (w1 & off' & Ha & Hm' & Ho).
  unfold encode in Ha. rewrite Ha. cbn [mbind option_bind ok Status_OK file_Sync MemEnv andb].
  intros [= <- <- <-]. split; [done|]. split; [exact Hm'|]. split.
  - exists v. split; [exact Hs|]. unfold Finalize. by destruct (fold_left _ _ _).
  - split; [done|]. apply Ho. intros E. by apply (Descriptor_not_current (vs_manifest_file_number vs)).
Qed.


(** The set whose snapshot a new MANIFEST starts with. *)
Definition opening (e : VersionEdit) (vs : VersionSet) : VersionSet := set_pointers (pointers_after e vs) vs.

Lemma SetCurrentFile_mem n w : (SetCurrentFile MemEnv dbname n w).1 = Status_OK.
Proof.
  unfold SetCurrentFile, WriteStringToFileSync, DoWriteStringToFile. set (t := TempFileName dbname n). cbn [NewWritableFile MemEnv ok Status_OK negb file_Append].
  rewrite mem_view_set, decide_True by done. cbn [ok Status_OK andb file_Sync file_Close negb fst snd env_RenameFile MemEnv]. by rewrite mem_view_set, decide_True.
Qed.

(** The first edit of a set without an open MANIFEST, on a file system that does not fail. *)
Lemma LogAndApply_opens e vs w v : vs_descriptor vs = None -> 0 <= vs_manifest_file_number vs -> log_number_allowed e vs = true -> edited e vs v ->
  exists vs' w' d, LogAndApply ucmp MemEnv dbname e vs w = Some (Status_OK, vs', w') /\
    vs' = install_logs (log_number_ (complete_edit e vs)) (prev_log_number_ (complete_edit e vs)) (AppendVersion (Finalize v) (set_descriptor d (opening e vs))) /\
    manifest_holds vs' w' [encode (snapshot_edit ucmp (opening e vs)); encode (complete_edit e vs)] /\
    mem_view w' (CurrentFileName dbname) = Some (current_contents (vs_manifest_file_number vs)) /\
    (forall g, g <> manifest_name vs -> g <> CurrentFileName dbname -> g <> TempFileName dbname (vs_manifest_file_number vs) -> mem_view w' g = mem_view w g).
Proof.
  intros Hd Hn Hlog Hs. unfold LogAndApply. rewrite Hlog. cbn [mbind option_bind]. unfold edited in Hs. rewrite Hs. cbn [mbind option_bind]. set (b := Apply ucmp (complete_edit e vs) _).
  change (set_pointers (b_compact_pointer b) vs) with (opening e vs). set (vs1 := opening e vs).
  assert (Hd1 : vs_descriptor vs1 = None) by exact Hd. rewrite Hd1.
  unfold open_descriptor. rewrite Hd1. cbn [NewWritableFile MemEnv ok Status_OK]. unfold WriteSnapshot.
  set (w1 := mem_set (manifest_name vs1) [] w). set (vs2 := set_descriptor (Some 0) vs1).
  assert (Hm0 : manifest_holds vs2 w1 []).
  { exists (new_Writer []). split; [done|]. split; [|done]. unfold w1, vs2. rewrite mem_view_set. by case_decide. }
  destruct (manifest_append vs2 w1 [] (encode (snapshot_edit ucmp vs1)) 0 Hm0 eq_refl) as (w2 & off2 & Ha & Hm2 & Ho2).
  change (vs_manifest_file_number vs2) with (vs_manifest_file_number vs1) in Ha. unfold encode in Ha.
  rewrite Ha. cbn [mbind option_bind fst snd]. unfold log_edit. cbn [ok Status_OK].
  set (vs3 := set_descriptor (Some off2) vs2) in *.
  destruct (manifest_append vs3 w2 _ (encode (complete_edit e vs)) off2 Hm2 eq_refl) as (w3 & off3 & Ha3 & Hm3 & Ho3).
  change (vs_manifest_file_number vs3) with (vs_manifest_file_number vs1) in Ha3. unfold encode in Ha3.
  rewrite Ha3. cbn [mbind option_bind ok Status_OK file_Sync MemEnv andb].
  pose proof (SetCurrentFile_spec MemEnv mem_view dbname (vs_manifest_file_number vs1) w3 Hn) as Hset.
  cbv zeta in Hset. destruct Hset as [Hcur Hframe]. pose proof (SetCurrentFile_mem (vs_manifest_file_number vs1) w3) as Hok.
  destruct (SetCurrentFile MemEnv dbname (vs_manifest_file_number vs1) w3) as [s4 w4]. cbn [fst snd] in *. subst s4. cbn [ok Status_OK] in *.
  do 2 eexists. exists (Some off3). split; [done|]. split; [done|]. split; [|split; [exact Hcur|]].
  - destruct Hm3 as (wr & Hwr & Hv & Hoff). exists wr. split; [exact Hwr|]. split; [|exact Hoff].
    etrans; [|exact Hv]. apply Hframe; [apply Descriptor_not_current|by apply Descriptor_not_temp].
  - intros g H1 H2 H3. rewrite Hframe by done. rewrite Ho3, Ho2 by done. unfold w1. rewrite mem_view_set. by rewrite decide_False.
Qed.

Lemma LogAndApply_open e vs w s vs' w' : vs_descriptor vs = None -> 0 <= vs_manifest_file_number vs ->
  LogAndApply ucmp MemEnv dbname e vs w = Some (s, vs', w') -> ok s = true ->
  manifest_holds vs' w' [encode (snapshot_edit ucmp (opening e vs)); encode (complete_edit e vs)] /\
  (exists v, edited e vs v /\ files_ (vs_current vs') = files_ v) /\
  vs_manifest_file_number vs' = vs_manifest_file_number vs /\
  mem_view w' (CurrentFileName dbname) = Some (current_contents (vs_manifest_file_number vs)).
Proof.
  intros Hd Hn E _. assert (Hpre : log_number_allowed e vs = true /\ exists v, edited e vs v).
  { unfold LogAndApply in E. destruct (log_number_allowed e vs); [|done]. cbn [mbind option_bind] in E. split; [done|]. unfold edited. destruct (SaveTo _ _ _) as [v|]; [by exists v|done]. }
  destruct Hpre as (Hlog & v & Hv). destruct (LogAndApply_opens e vs w v Hd Hn Hlog Hv) as (vs2 & w2 & d & E2 & Hvs & Hm & Hcur & _).
  assert (s = Status_OK /\ vs' = vs2 /\ w' = w2) as (-> & -> & ->) by (repeat split; congruence). subst vs2. split; [done|]. split; [|done].
  exists v. split; [done|]. cbn [vs_current install_logs AppendVersion]. unfold Finalize. by destruct (fold_left _ _ _).
Qed.

(** ** A history of logged edits: the edits in the MANIFEST, the version after
    each of them, and where the set and its files stand *)

Inductive history : list VersionEdit -> list Version -> VersionSet -> MemFS -> Prop :=
| history_open e vs w s vs' w' :
    vs_descriptor vs = None -> 0 <= vs_manifest_file_number vs ->
    version_sorted ucmp (vs_current vs) ->
    (forall level, (level < kNumLevels)%nat -> NoDup (numbers_at (vs_current vs) level)) ->
    loggable ucmp (snapshot_edit ucmp (opening e vs)) -> loggable ucmp (complete_edit e vs) ->
    fresh_edit (complete_edit e vs) (numbers_at (vs_current vs)) ->
    LogAndApply ucmp MemEnv dbname e vs w = Some (s, vs', w') -> ok s = true ->
    history [snapshot_edit ucmp (opening e vs); complete_edit e vs] [vs_current vs; vs_current vs'] vs' w'
| history_step es versions e vs w s vs' w' :
    history es versions vs w ->
    loggable ucmp (complete_edit e vs) -> fresh_edit (complete_edit e vs) (numbers_logged es) ->
    LogAndApply ucmp MemEnv dbname e vs w = Some (s, vs', w') -> ok s = true ->
    history (es ++ [complete_edit e vs]) (versions ++ [vs_current vs']) vs' w'.

(** What a history keeps true. *)
Record history_inv (es : list VersionEdit) (versions : list Version) (vs : VersionSet) (w : MemFS) : Prop := {
  hi_manifest : manifest_holds vs w (map encode es);
  hi_current : mem_view w (CurrentFileName dbname) = Some (current_contents (vs_manifest_file_number vs));
  hi_loggable : Forall (loggable ucmp) es;
  hi_full : forall i e, (1 <= i)%nat -> es !! i = Some e -> full_edit e;
  hi_length : length versions = length es;
  hi_two : (2 <= length es)%nat;
  hi_last : last versions = Some (vs_current vs);
  hi_replays : forall i v p, versions !! i = Some v ->
    replays ucmp (replay ucmp (take (S i) es) (new_Builder p new_Version)) v
}.

Lemma replays_files b v v' : files_ v = files_ v' -> replays ucmp b v -> replays ucmp b v'.
Proof.
  intros E [H1 H2 H3 H4 H5]. assert (El : level_files v = level_files v') by (unfold level_files; by rewrite E).
  split; [done|done| |done|]; unfold version_sorted in *; by rewrite <- El.
Qed.

Lemma complete_full e vs : full_edit (complete_edit e vs).
Proof.
  unfold full_edit, complete_edit. destruct (has_log_number_ e) eqn:E1; cbn.
  - destruct (has_prev_log_number_ e) eqn:E2; cbn; by rewrite ?E1, ?E2.
  - destruct (has_prev_log_number_ e) eqn:E2; cbn; by rewrite ?E2.
Qed.

Lemma known_new p level : known (new_Builder p new_Version) level = [].
Proof.
  unfold known, level_state, new_Builder. cbn [levels_]. destruct (replicate _ _ !! level) as [l|] eqn:E; [|done].
  by apply lookup_replicate in E as [-> _].
Qed.

(** The next edit, replayed. *)
Lemma replays_next es e vs p v v' : replays ucmp (replay ucmp es (new_Builder p new_Version)) (vs_current vs) ->
  fresh_edit (complete_edit e vs) (numbers_logged es) -> edited e vs v -> files_ v' = files_ v ->
  replays ucmp (replay ucmp (es ++ [complete_edit e vs]) (new_Builder p new_Version)) v'.
Proof.
  intros Hr Hf He Hfiles. unfold replay. rewrite fold_left_app. cbn [fold_left].
  eapply replays_files; [by symmetry|]. eapply replays_step; [done|exact Hr| |exact He].
  intros level Hl. destruct (Hf level Hl) as [Hnd Hne]. split; [done|]. intros f Hfn Hk. apply (Hne f Hfn).
  eapply (known_replay ucmp); [|apply known_new|exact Hk]. by cbn [levels_ new_Builder]; rewrite length_replicate.
Qed.


Lemma fresh_snapshot e vs : fresh_edit e (numbers_at (vs_current vs)) -> fresh_edit e (numbers_logged [snapshot_edit ucmp vs]).
Proof.
  intros Hf level Hl. destruct (Hf level Hl) as [Hnd Hne]. split; [done|]. intros f Hfn. unfold numbers_logged. cbn [map concat].
  rewrite app_nil_r. destruct (news_at_snapshot ucmp vs level Hl) as [-> _]. rewrite map_number_strip. by apply Hne.
Qed.

Lemma history_holds es versions vs w : history es versions vs w -> history_inv es versions vs w.
Proof.
  induction 1 as [e vs w s vs' w' Hd Hn Hs Hnd Hl1 Hl2 Hf Hlog Hok|es versions e vs w s vs' w' Hh IH Hl Hf Hlog Hok].
  - destruct (LogAndApply_open e vs w s vs' w' Hd Hn Hlog Hok) as (Hm & (v & Hv & Hfiles) & Hnum & Hcur).
    assert (Hr0 : forall p, replays ucmp (replay ucmp [snapshot_edit ucmp (opening e vs)] (new_Builder p new_Version)) (vs_current vs))
      by (intros p; exact (replays_snapshot ucmp (opening e vs) p Hs Hnd)).
    split; [done|by rewrite Hnum|constructor; [done|by constructor]| |done|done|done|].
    + intros [|[|i]] x Hi; [lia| |done]. intros [= <-]. apply complete_full.
    + intros [|[|i]] x p; [intros [= <-]; apply Hr0| |done]. intros [= <-].
      apply (replays_next [snapshot_edit ucmp (opening e vs)] e vs p v); [apply Hr0| |done|done].
      by apply (fresh_snapshot _ (opening e vs)).
  - destruct IH as [I1 I2 I3 I4 I5 I6 I7 I8].
    destruct (LogAndApply_append _ e vs w s vs' w' I1 Hlog) as (_ & Hm & (v & Hv & Hfiles) & Hnum & Hcur).
    split; [by rewrite map_app|by rewrite Hcur, Hnum|by apply Forall_app; split; [|constructor]| | | | |].
    + intros i x Hi [Hx|(Hx1 & Hx2)]%lookup_app_Some; [by apply (I4 i)|].
      apply list_lookup_singleton_Some in Hx2 as [_ <-]. apply complete_full.
    + rewrite !length_app. cbn. lia.
    + rewrite length_app. lia.
    + by rewrite last_snoc.
    + intros i x p [Hx|[Hx1 Hx2]]%lookup_app_Some.
      * rewrite take_app_le by (apply lookup_lt_Some in Hx; lia). by apply I8.
      * apply list_lookup_singleton_Some in Hx2 as [Hi <-]. rewrite take_ge by (rewrite length_app; cbn; lia).
        apply (replays_next es e vs p v); [|done|done|done].
        assert (Hlast : versions !! pred (length versions) = Some (vs_current vs)) by by rewrite <- last_lookup.
        specialize (I8 _ _ p Hlast). by rewrite take_ge in I8 by lia.
Qed.

Lemma MarkFileNumberUsed_next n vs : exists m, MarkFileNumberUsed n vs = set_next_file m vs.
Proof. unfold MarkFileNumberUsed. destruct (_ <=? _); [by eexists|]. exists (vs_next_file_number vs). by destruct vs. Qed.

(** What the set is after a recovery. *)
Record recovered (v : Version) (log prev_log next_file last_sequence : Z) (vs : VersionSet) : Prop := {
  rc_files : forall level, (level < kNumLevels)%nat -> level_files (vs_current vs) level = map norm (level_files v level);
  rc_sequence : vs_last_sequence vs = last_sequence;
  rc_log : vs_log_number vs = log;
  rc_prev_log : vs_prev_log_number vs = prev_log;
  rc_manifest : vs_manifest_file_number vs = next_file;
  rc_next : vs_next_file_number vs = u64 (next_file + 1);
  rc_descriptor : vs_descriptor vs = None;
  rc_old : vs_old vs = [] /\ vs_current_refs vs = 1
}.

Abbreviation rec_start := (mkRec Status_OK (new_Builder (vs_compact_pointer new_VersionSet) new_Version) None None None None).

(** Recovery of a MANIFEST of which [es] can be read. *)
Lemma Recover_read max fuel w num c reader' es v log next_file last_sequence :
  mem_view w (CurrentFileName dbname) = Some (current_contents num) ->
  (length (current_contents num) < fuel)%nat ->
  mem_view w (DescriptorFileName dbname num) = Some c ->
  read_all MemSequential fuel (new_Reader c true 0) = Some (map encode es, reader') -> reports_ reader' = [] ->
  Forall (loggable ucmp) es -> replays ucmp (replay ucmp es (new_Builder (vs_compact_pointer new_VersionSet) new_Version)) v ->
  let r := recover_all ucmp es rec_start in
  r_log_number r = Some log -> r_next_file r = Some next_file -> r_last_sequence r = Some last_sequence ->
  exists vs2, Recover ucmp MemEnv MemReadEnv dbname max false fuel new_VersionSet w = Some (Status_OK, true, vs2, w) /\
    recovered v log (default 0 (r_prev_log_number r)) next_file last_sequence vs2.
Proof.
  intros Hcur Hfuel Hc Hread Hrep Hlog Hr r H1 H3 H4. unfold Recover.
  rewrite (ReadFileToString_mem fuel _ w _ Hcur Hfuel). cbn [mbind option_bind ok Status_OK negb].
  unfold current_contents. rewrite app_assoc, last_snoc, bool_decide_eq_true_2 by done. cbn [negb].
  rewrite length_app. cbn [length]. rewrite Nat.add_sub, take_app_length.
  replace (dbname ++ lit "/" ++ lit "MANIFEST-" ++ decimal06 num) with (DescriptorFileName dbname num) by done.
  cbn [NewSequentialFile MemReadEnv]. rewrite Hc. cbn [ok Status_OK negb].
  rewrite (Recover_loop_edits ucmp MemReadEnv es eq_refl fuel _ reader') by done. change (vs_current new_VersionSet) with new_Version. fold r.
  destruct (recover_all_spec ucmp es rec_start Hlog eq_refl) as [Hst Hb]. fold r in Hst, Hb.
  cbn [mbind option_bind]. unfold Recover_install. rewrite Hst, H1, H3, H4, Hb. cbn [ok Status_OK negb r_builder].
  destruct (replays_SaveTo ucmp _ v Hr) as (v' & Hsv & Hfiles).
  change (vs_current new_VersionSet) with new_Version. rewrite Hsv. cbn [mbind option_bind ReuseManifest negb].
  change (default 0 (Some log)) with log. set (vs0 := set_pointers _ new_VersionSet). destruct (MarkFileNumberUsed_next (default 0 (r_prev_log_number r)) vs0) as [m1 ->]. destruct (MarkFileNumberUsed_next log (set_next_file m1 vs0)) as [m2 ->].
  eexists. split; [done|]. split; try done. intros level Hl. rewrite <- Hfiles by done.
  cbn. unfold level_files, Finalize. by destruct (fold_left _ _ _).
Qed.

Lemma Recover_edits max fuel w num c reader' es e v :
  mem_view w (CurrentFileName dbname) = Some (current_contents num) ->
  (length (current_contents num) < fuel)%nat ->
  mem_view w (DescriptorFileName dbname num) = Some c ->
  read_all MemSequential fuel (new_Reader c true 0) = Some (map encode (es ++ [e]), reader') -> reports_ reader' = [] ->
  Forall (loggable ucmp) (es ++ [e]) -> full_edit e ->
  replays ucmp (replay ucmp (es ++ [e]) (new_Builder (vs_compact_pointer new_VersionSet) new_Version)) v ->
  exists vs2, Recover ucmp MemEnv MemReadEnv dbname max false fuel new_VersionSet w = Some (Status_OK, true, vs2, w) /\
    recovered v (log_number_ e) (prev_log_number_ e) (next_file_number_ e) (last_sequence_ e) vs2.
Proof.
  intros Hcur Hfuel Hc Hread Hrep Hlog Hfull Hr. destruct (recover_all_last ucmp es e rec_start Hlog Hfull) as (H1 & H2 & H3 & H4).
  destruct (Recover_read max fuel w num c reader' (es ++ [e]) v _ _ _ Hcur Hfuel Hc Hread Hrep Hlog Hr H1 H3 H4) as (vs2 & E & Hrec). rewrite H2 in Hrec. by exists vs2.
Qed.

Lemma replays_new p : replays ucmp (new_Builder p new_Version) new_Version.
Proof.
  assert (Hst : forall level, (level < kNumLevels)%nat -> level_state (new_Builder p new_Version) level = mkLevel ∅ []) by (intros level Hl; unfold level_state, new_Builder; cbn [levels_]; by rewrite lookup_replicate_2).
  split; [done|done| | |]; intros level Hl; rewrite ?new_Version_level.
  - split; [constructor|by right].
  - rewrite Hst by done. constructor.
  - by rewrite Hst.
Qed.

(** A MANIFEST with one edit: a new database, or a repaired one. *)
Lemma Recover_single max fuel w num e v wr :
  mem_view w (CurrentFileName dbname) = Some (current_contents num) -> (length (current_contents num) < fuel)%nat ->
  write_all [encode e] = Some wr -> mem_view w (DescriptorFileName dbname num) = Some (dest_ wr) -> (length (dest_ wr) + 2 <= fuel)%nat ->
  loggable ucmp e -> has_log_number_ e = true -> has_prev_log_number_ e = false -> has_next_file_number_ e = true -> has_last_sequence_ e = true ->
  fresh_edit e (fun _ => []) -> SaveTo ucmp (Apply ucmp e (new_Builder [] new_Version)) new_Version = Some v ->
  exists vs2, Recover ucmp MemEnv MemReadEnv dbname max false fuel new_VersionSet w = Some (Status_OK, true, vs2, w) /\
    recovered v (log_number_ e) 0 (next_file_number_ e) (last_sequence_ e) vs2.
Proof.
  intros Hcur Hfuel Hw Hc Hf Hlog F1 F2 F3 F4 Hfr Hs. destruct (log_prefix_read [encode e] true) as (wr' & Hw' & Hread). assert (wr' = wr) as -> by congruence.
  destruct (Hread (length (dest_ wr)) fuel Hf) as (j & r' & E & Hrep & Hj). rewrite firstn_all in E. rewrite take_ge in E by (apply (Hj 1%nat wr); [done|exact Hw|lia]).
  assert (Hall : Forall (loggable ucmp) [e]) by (by constructor).
  assert (Hrec : recover_all ucmp [e] rec_start = recover_edit ucmp (decoded new_VersionEdit e) Status_OK rec_start) by done.
  destruct (Recover_read max fuel w num (dest_ wr) r' [e] v (log_number_ e) (next_file_number_ e) (last_sequence_ e) Hcur Hfuel Hc E Hrep Hall) as (vs2 & E2 & Hv).
  - cbn [replay fold_left]. eapply replays_step; [done|apply replays_new| |exact Hs]. intros level Hl. destruct (Hfr level Hl) as [Hnd _]. split; [done|]. intros f _. unfold known, level_state, new_Builder. cbn [levels_]. rewrite lookup_replicate_2 by done. apply not_elem_of_nil.
  - by rewrite Hrec, (recover_edit_ok ucmp e rec_start Hlog), F1.
  - by rewrite Hrec, (recover_edit_ok ucmp e rec_start Hlog), F3.
  - by rewrite Hrec, (recover_edit_ok ucmp e rec_start Hlog), F4.
  - rewrite Hrec, (recover_edit_ok ucmp e rec_start Hlog), F2 in Hv. by exists vs2.
Qed.

(** A MANIFEST cut behind its first two records: what the next process finds. *)
Lemma crash_recovers es versions vs w max : history es versions vs w ->
  exists c, mem_view w (manifest_name vs) = Some c /\
  forall k fuel w2, (forall w, write_all (map encode (take 2 es)) = Some w -> (length (dest_ w) <= k)%nat) ->
    (k + 2 <= fuel)%nat -> (length (current_contents (vs_manifest_file_number vs)) < fuel)%nat ->
    mem_view w2 (CurrentFileName dbname) = mem_view w (CurrentFileName dbname) -> mem_view w2 (manifest_name vs) = Some (take k c) ->
    exists j e v vs2, es !! j = Some e /\ versions !! j = Some v /\
      (forall i wi, (i <= length es)%nat -> write_all (map encode (take i es)) = Some wi ->
         (length (dest_ wi) <= k)%nat -> (i <= S j)%nat) /\
      version_sorted ucmp v /\ full_edit e /\
      Recover ucmp MemEnv MemReadEnv dbname max false fuel new_VersionSet w2 = Some (Status_OK, true, vs2, w2) /\
      recovered v (log_number_ e) (prev_log_number_ e) (next_file_number_ e) (last_sequence_ e) vs2.
Proof.
  intros Hh. destruct (history_holds _ _ _ _ Hh) as [(wr & Hwr & Hv & _) Hcur Hlog Hfull Hlen Htwo _ Hrep].
  exists (dest_ wr). split; [done|]. intros k fuel w2 Hk Hf1 Hf2 Hcur2 Hman2.
  destruct (log_prefix_read (map encode es) true) as (wr' & Hwr' & Hread).
  rewrite Hwr in Hwr'. injection Hwr' as <-. destruct (Hread k fuel Hf1) as (j0 & r' & Hall & Hrp & Hcomplete).
  set (j := Nat.min j0 (length es)).
  assert (Htk : take j0 (map encode es) = map encode (take j es)).
  { rewrite <- fmap_take. f_equal. unfold j. destruct (decide (j0 <= length es)%nat); [f_equal; lia|].
    rewrite !take_ge by lia. done. }
  assert (Hj : forall i wi, (i <= length es)%nat -> write_all (map encode (take i es)) = Some wi ->
    (length (dest_ wi) <= k)%nat -> (i <= j)%nat).
  { intros i wi Hi Hwi Hlk. assert (Hij : (i <= j0)%nat); [|unfold j; lia].
    apply (Hcomplete i wi); [by rewrite length_map| |done]. by rewrite <- fmap_take. }
  destruct (log_prefix_read (map encode (take 2 es)) true) as (w0 & Hw0 & _).
  pose proof (Hj 2%nat w0 Htwo Hw0 (Hk w0 Hw0)) as Hj2. assert (Hjl : (j <= length es)%nat) by (unfold j; lia).
  destruct (lookup_lt_is_Some_2 es (j - 1) ltac:(lia)) as [e He].
  destruct (lookup_lt_is_Some_2 versions (j - 1) ltac:(lia)) as [v Hve].
  assert (Hsplit : take j es = take (j - 1) es ++ [e]).
  { replace j with (S (j - 1)) at 1 by lia. by apply take_S_r. }
  rewrite Htk, Hsplit in Hall. rewrite <- (Nat.sub_add 1 j) in Hj by lia.
  assert (Hfe : full_edit e) by (apply (Hfull (j - 1)%nat); [lia|done]).
  edestruct (Recover_edits max fuel w2 (vs_manifest_file_number vs)
    (take k (dest_ wr)) r' (take (j - 1) es) e v) as (vs2 & HR & Hrest); try done.
  - congruence.
  - rewrite <- Hsplit. by apply Forall_take.
  - rewrite <- Hsplit. replace j with (S (j - 1)) at 1 by lia. by apply Hrep.
  - exists (j - 1)%nat, e, v, vs2. split; [done|]. split; [done|]. split; [|split; [eapply rep_sorted, (Hrep (j - 1)%nat v []); exact Hve|done]].
    intros i wi Hi Hwi Hl. specialize (Hj i wi Hi Hwi Hl). lia.
Qed.

(** C2. Take any history of edits logged by [LogAndApply] and lose any tail of
    the MANIFEST behind its first two records. [Recover] succeeds, and the
    version it installs has in every level exactly the files of the version
    after one of the logged edits (up to what the MANIFEST keeps of a file),
    with that edit's sequence and log numbers; no edit whose record is
    complete is lost. *)
Theorem manifest_survives_crash es versions vs w max : history es versions vs w ->
  exists c, mem_view w (manifest_name vs) = Some c /\
  forall k fuel w2, (forall w, write_all (map encode (take 2 es)) = Some w -> (length (dest_ w) <= k)%nat) ->
    (k + 2 <= fuel)%nat -> (length (current_contents (vs_manifest_file_number vs)) < fuel)%nat ->
    w2 = mem_set (manifest_name vs) (take k c) w ->
    exists j e v vs2, es !! j = Some e /\ versions !! j = Some v /\
      (forall i wi, (i <= length es)%nat -> write_all (map encode (take i es)) = Some wi ->
         (length (dest_ wi) <= k)%nat -> (i <= S j)%nat) /\
      Recover ucmp MemEnv MemReadEnv dbname max false fuel new_VersionSet w2 = Some (Status_OK, true, vs2, w2) /\
      (forall level, (level < kNumLevels)%nat -> level_files (vs_current vs2) level = map norm (level_files v level)) /\
      vs_last_sequence vs2 = last_sequence_ e /\ vs_log_number vs2 = log_number_ e /\
      vs_prev_log_number vs2 = prev_log_number_ e /\ vs_manifest_file_number vs2 = next_file_number_ e.
Proof.
  intros Hh. destruct (crash_recovers es versions vs w max Hh) as (c & Hc & Hrec). exists c. split; [done|]. intros k fuel w2 Hk Hf1 Hf2 ->.
  destruct (Hrec k fuel (mem_set (manifest_name vs) (take k c) w) Hk Hf1 Hf2) as (j & e & v & vs2 & H1 & H2 & H3 & _ & _ & H4 & [H5 H6 H7 H8 H9 _ _ _]).
  - rewrite mem_view_set. case_decide as E; [|done]. by apply Descriptor_not_current in E.
  - rewrite mem_view_set. by case_decide.
  - by exists j, e, v, vs2.
Qed.

End Crash.

(** ** [LogAndApply] on a file system that fails *)

Section Failures.
Context (ucmp : Comparator) {W : Type} (env : Env W) (view : W -> bytes -> option bytes) `{!EnvLaws env view}.
Context (dbname : bytes).

Definition offset_ok (d : option Z) : Prop := forall off, d = Some off -> 0 <= off <= kBlockSize.

(** Nothing but the MANIFEST has changed. *)
Definition manifest_only (num : Z) (w w' : W) : Prop :=
  forall g, g <> DescriptorFileName dbname num -> view w' g = view w g.

Lemma manifest_AddRecord_frame record off num w : 0 <= off <= kBlockSize ->
  exists s off' w', manifest_AddRecord env dbname record off num w = Some (s, off', w') /\
    0 <= off' <= kBlockSize /\ manifest_only num w w'.
Proof.
  intros Hoff. unfold manifest_AddRecord. set (P := DescriptorFileName dbname num).
  destruct (AddRecord_any (Env_writable env P) (fun w' => forall g, g <> P -> view w' g = view w g))
    with (record := record) (w := mkWriter w off) as (s & w' & -> & H1 & H2).
  - intros d w1 H g Hg. cbn. rewrite append_frame by done. by apply H.
  - intros w1 H g Hg. cbn. rewrite flush_frame by done. by apply H.
  - done.
  - done.
  - exists s, (block_offset_ w'), (dest_ w'). done.
Qed.

Lemma open_descriptor_frame vs w : offset_ok (vs_descriptor vs) ->
  exists s d w', open_descriptor ucmp env dbname vs w = Some (s, d, w') /\ offset_ok d /\
    (ok s = true -> is_Some d) /\ manifest_only (vs_manifest_file_number vs) w w' /\
    (is_Some (vs_descriptor vs) -> is_Some d).
Proof.
  intros Hd. unfold open_descriptor. destruct (vs_descriptor vs) as [off|].
  { do 3 eexists. split; [reflexivity|]. split; [exact Hd|]. by split. }
  set (n := vs_manifest_file_number vs). pose proof (new_frame (DescriptorFileName dbname n) w) as Hf.
  destruct (NewWritableFile env (DescriptorFileName dbname n) w) as [s w1]. cbn [snd] in Hf.
  destruct (ok s) eqn:Ok.
  - unfold WriteSnapshot. destruct (manifest_AddRecord_frame (EncodeTo (snapshot_edit ucmp vs) []) 0 n w1)
      as (s' & off' & w' & E & Hr & Hm); [rewrite kBlockSize_val; lia|]. fold n. rewrite E. cbn [mbind option_bind fst snd].
    do 3 eexists. split; [done|]. split; [by intros ? [= <-]|]. split; [done|]. split; [|done].
    intros g Hg. rewrite Hm by done. by apply Hf.
  - do 3 eexists. split; [done|]. split; [done|]. split; [by rewrite Ok|]. by split; [|intros []].
Qed.

Lemma log_edit_frame vs e s d w : offset_ok d ->
  exists s' d' w', log_edit env dbname vs e s d w = Some (s', d', w') /\ (is_Some d' <-> is_Some d) /\
    manifest_only (vs_manifest_file_number vs) w w'.
Proof.
  intros Hd. unfold log_edit. set (n := vs_manifest_file_number vs).
  destruct (ok s), d as [off|]; try (do 3 eexists; split; [done|]; by split).
  destruct (manifest_AddRecord_frame (EncodeTo e []) off n w (Hd off eq_refl)) as (s' & off' & w' & E & _ & Hm).
  fold n. rewrite E. cbn [mbind option_bind]. pose proof (sync_frame (DescriptorFileName dbname n) w') as Hs.
  destruct (ok s'); [|by do 3 eexists].
  destruct (file_Sync env (DescriptorFileName dbname n) w') as [s2 w2]. cbn [snd] in Hs.
  do 3 eexists. split; [done|]. split; [by split|]. intros g Hg. rewrite Hs by done. by apply Hm.
Qed.

Lemma LogAndApply_atomic e vs w v :
  log_number_allowed e vs = true -> edited ucmp e vs v -> 0 <= vs_manifest_file_number vs -> offset_ok (vs_descriptor vs) ->
  exists s vs' w', LogAndApply ucmp env dbname e vs w = Some (s, vs', w') /\
    (if ok s then
       files_ (vs_current vs') = files_ v /\ vs_log_number vs' = log_number_ (complete_edit e vs) /\
       vs_prev_log_number vs' = prev_log_number_ (complete_edit e vs) /\
       (vs_descriptor vs = None ->
          view w' (CurrentFileName dbname) = Some (current_contents (vs_manifest_file_number vs)))
     else
       vs_current vs' = vs_current vs /\ vs_log_number vs' = vs_log_number vs /\
       vs_prev_log_number vs' = vs_prev_log_number vs /\ (vs_descriptor vs = None -> vs_descriptor vs' = None) /\
       view w' (CurrentFileName dbname) = view w (CurrentFileName dbname)) /\
    (forall g, g <> DescriptorFileName dbname (vs_manifest_file_number vs) -> g <> CurrentFileName dbname ->
       g <> TempFileName dbname (vs_manifest_file_number vs) -> view w' g = view w g).
Proof.
  intros Hlog Hv Hn Hd. unfold LogAndApply. rewrite Hlog. unfold edited in Hv. cbn [mbind option_bind]. rewrite Hv. cbn [mbind option_bind].
  set (b := Apply ucmp _ _) in *. set (vs1 := set_pointers _ vs).
  change (vs_manifest_file_number vs) with (vs_manifest_file_number vs1) in *.
  change (vs_descriptor vs) with (vs_descriptor vs1) in *. set (n := vs_manifest_file_number vs1) in *.
  destruct (open_descriptor_frame vs1 w Hd) as (s1 & d1 & w1 & -> & Hd1 & _ & Hm1 & _). cbn [mbind option_bind].
  destruct (log_edit_frame vs1 (complete_edit e vs) s1 d1 w1 Hd1) as (s2 & d2 & w2 & -> & _ & Hm2). cbn [mbind option_bind].
  assert (Hm : manifest_only n w w2) by (intros g Hg; rewrite Hm2 by done; by apply Hm1). clear Hm1 Hm2.
  assert (Hc : view w2 (CurrentFileName dbname) = view w (CurrentFileName dbname))
    by (apply Hm; intros E; by apply (Descriptor_not_current dbname n)).
  assert (HF : files_ (Finalize v) = files_ v) by (unfold Finalize; by destruct (fold_left _ _ _)).
  destruct (vs_descriptor vs1) as [off|] eqn:Hvd.
  - rewrite andb_false_r. destruct (ok s2) eqn:Ok; do 3 eexists; (split; [done|]); rewrite Ok; cbn; (split; [done|]);
      intros g Hg _ _; by apply Hm.
  - rewrite andb_true_r. destruct (ok s2) eqn:Ok2.
    + pose proof (SetCurrentFile_spec env view dbname n w2 Hn) as Hset. cbv zeta in Hset. destruct Hset as [Hcur Hfr].
      fold n. destruct (SetCurrentFile env dbname n w2) as [s3 w3]. cbn [fst snd] in *. destruct (ok s3) eqn:Ok3.
      * do 3 eexists. split; [done|]. rewrite Ok3. split; [done|]. intros g H1 H2 H3. rewrite Hfr by done. by apply Hm.
      * do 3 eexists. split; [done|]. rewrite Ok3. split.
        { do 3 (split; [done|]). split; [done|]. rewrite delete_frame by (intros E; by apply (Descriptor_not_current dbname n)). congruence. }
        intros g H1 H2 H3. rewrite delete_frame, Hfr by done. by apply Hm.
    + rewrite Ok2. do 3 eexists. split; [done|]. rewrite Ok2. split.
      { repeat (split; [done|]). rewrite delete_frame by (intros E; by apply (Descriptor_not_current dbname n)). congruence. }
      intros g H1 H2 H3. rewrite delete_frame by done. by apply Hm.
Qed.

(** C31. [LogAndApply] returns for every edit whose result is a version and
    whose log number, if it has one, is one the asserts allow, whatever the file system does. On success the new version, its log numbers
    and, for a new MANIFEST, CURRENT are installed. On failure the current
    version, the log numbers and CURRENT are as before, and a MANIFEST that
    was new is not kept open. No file but the MANIFEST, CURRENT and the
    temporary one changes. *)
Theorem log_and_apply_atomic e vs w v :
  log_number_allowed e vs = true -> edited ucmp e vs v -> 0 <= vs_manifest_file_number vs -> offset_ok (vs_descriptor vs) ->
  exists s vs' w', LogAndApply ucmp env dbname e vs w = Some (s, vs', w') /\
    (if ok s then
       files_ (vs_current vs') = files_ v /\ vs_log_number vs' = log_number_ (complete_edit e vs) /\
       vs_prev_log_number vs' = prev_log_number_ (complete_edit e vs) /\
       (vs_descriptor vs = None ->
          view w' (CurrentFileName dbname) = Some (current_contents (vs_manifest_file_number vs)))
     else
       vs_current vs' = vs_current vs /\ vs_log_number vs' = vs_log_number vs /\
       vs_prev_log_number vs' = vs_prev_log_number vs /\ (vs_descriptor vs = None -> vs_descriptor vs' = None) /\
       view w' (CurrentFileName dbname) = view w (CurrentFileName dbname)) /\
    (forall g, g <> DescriptorFileName dbname (vs_manifest_file_number vs) -> g <> CurrentFileName dbname ->
       g <> TempFileName dbname (vs_manifest_file_number vs) -> view w' g = view w g).
Proof. apply LogAndApply_atomic. Qed.

End Failures.

(** ** Examples *)

Definition first_edit : VersionEdit :=
  AddFile 0 5 800 (InternalKey (lit "a") 1 kTypeValue) (InternalKey (lit "c") 3 kTypeValue) new_VersionEdit.
Definition second_edit : VersionEdit :=
  AddFile 1 6 900 (InternalKey (lit "a") 1 kTypeValue) (InternalKey (lit "c") 3 kTypeValue)
    (DeleteFile 0 5 new_VersionEdit).

(** An empty database logs [first_edit], then [second_edit]. *)
Definition sample_run (e : VersionEdit) (p : VersionSet * MemFS) : VersionSet * MemFS :=
  match LogAndApply BytewiseComparator MemEnv (lit "/db") e p.1 p.2 with
  | Some (_, vs, w) => (vs, w)
  | None => p
  end.
Definition sample_one : VersionSet * MemFS := Eval vm_compute in sample_run first_edit (new_VersionSet, []).
Definition sample_two : VersionSet * MemFS := Eval vm_compute in sample_run second_edit sample_one.

Ltac edit_ok_by_computation :=
  split; [split; [repeat (apply Forall_cons; split); try apply Forall_nil; cbv; repeat split; discriminate
                 |intros H; first [reflexivity|discriminate H]..
                 |repeat (apply SSorted_cons; [|constructor]); constructor]
         |intros H; first [reflexivity|discriminate H]].

Lemma forall_levels (P : nat -> Prop) : Forall P (seq 0 kNumLevels) -> forall level, (level < kNumLevels)%nat -> P level.
Proof. rewrite Forall_forall. intros H level Hl. apply H, elem_of_seq. lia. Qed.

Ltac each_level := refine (forall_levels _ _); repeat (apply Forall_cons; split); [..|apply Forall_nil_2].

Lemma sample_history : history BytewiseComparator (lit "/db")
  [snapshot_edit BytewiseComparator (opening first_edit new_VersionSet); complete_edit first_edit new_VersionSet;
   complete_edit second_edit sample_one.1]
  [new_Version; vs_current sample_one.1; vs_current sample_two.1] sample_two.1 sample_two.2.
Proof.
  apply (history_step BytewiseComparator (lit "/db") [_; _] [_; _] second_edit sample_one.1 sample_one.2 Status_OK).
  - apply (history_open BytewiseComparator (lit "/db") first_edit new_VersionSet [] Status_OK).
    + reflexivity.
    + vm_compute. discriminate.
    + each_level; (split; [exact (SSorted_nil _)|right; reflexivity]).
    + each_level; exact (NoDup_nil_2).
    + edit_ok_by_computation.
    + edit_ok_by_computation.
    + each_level;
        (split; [try apply NoDup_singleton; constructor|intros f _; apply not_elem_of_nil]).
    + vm_compute. reflexivity.
    + reflexivity.
  - edit_ok_by_computation.
  - each_level;
      (split; [try apply NoDup_singleton; constructor|intros f Hf; try by apply not_elem_of_nil in Hf]).
    intros H. by apply not_elem_of_nil in H.
  - vm_compute. reflexivity.
  - reflexivity.
Qed.

Lemma manifest_survives_crash_witness :
  exists c, mem_view sample_two.2 (lit "/db/MANIFEST-000000") = Some c /\
    exists v vs2, v ∈ [new_Version; vs_current sample_one.1; vs_current sample_two.1] /\
      Recover BytewiseComparator MemEnv MemReadEnv (lit "/db") 2000 false 2000 new_VersionSet
        (mem_set (lit "/db/MANIFEST-000000") (take 100 c) sample_two.2)
      = Some (Status_OK, true, vs2, mem_set (lit "/db/MANIFEST-000000") (take 100 c) sample_two.2) /\
      level_files (vs_current vs2) 0 = map norm (level_files v 0).
Proof.
  destruct (manifest_survives_crash BytewiseComparator (lit "/db") _ _ _ _ 2000 sample_history) as (c & Hc & H).
  exists c. split; [exact Hc|].
  edestruct (H 100%nat 2000%nat) as (j & e & v & vs2 & _ & Hv & _ & HR & Hf & _).
  - intros w Hw. vm_compute in Hw. injection Hw as <-. cbn. lia.
  - lia.
  - vm_compute. lia.
  - reflexivity.
  - exists v, vs2. split; [by eapply list_elem_of_lookup_2|]. split; [exact HR|]. apply Hf. vm_compute. lia.
Defined.

Lemma log_and_apply_atomic_witness :
  exists v s vs' w', edited BytewiseComparator first_edit new_VersionSet v /\
    LogAndApply BytewiseComparator MemEnv (lit "/db") first_edit new_VersionSet [] = Some (s, vs', w') /\
    (forall g, g <> lit "/db/MANIFEST-000000" -> g <> lit "/db/CURRENT" -> g <> lit "/db/000000.dbtmp" ->
       mem_view w' g = None).
Proof.
  eexists. edestruct (log_and_apply_atomic BytewiseComparator MemEnv mem_view (lit "/db") first_edit new_VersionSet [])
    as (s & vs' & w' & H & _ & Hf).
  - reflexivity.
  - vm_compute. reflexivity.
  - vm_compute. discriminate.
  - intros off E. discriminate E.
  - exists s, vs', w'. split; [vm_compute; reflexivity|]. split; [exact H|].
    intros g H1 H2 H3. rewrite Hf; [reflexivity|exact H1|exact H2|exact H3].
Defined.
