(* ===== verification/Snapshot.v ===== *)
(** * Snapshots: db/snapshot.h

    The live snapshots are nodes of a circular doubly-linked list whose dummy
    head is a field of [SnapshotList]. The list is modelled with its links: a
    heap of nodes named by addresses, address 0 for the dummy, an operation
    that follows a dead pointer is [None]. [snap_rep] relates the links to the
    sequence of snapshots in the order of their creation. *)

From S2P Require Import Prelude.

Record SnapshotImpl := mkSnap { number_ : Z; prev_ : nat; next_ : nat }.

(** [sl_fresh]: the next address [new] gives out. *)
Record SnapshotList := mkSnapshots { sl_heap : gmap nat SnapshotImpl; sl_fresh : nat }.

(** The dummy head [list_]. *)
Definition list_ : nat := 0.

Definition new_SnapshotList : SnapshotList := mkSnapshots {[ list_ := mkSnap 0 list_ list_ ]} 1.

Definition set_prev (a p : nat) (h : gmap nat SnapshotImpl) : option (gmap nat SnapshotImpl) :=
  s ← h !! a; Some (<[a := mkSnap (number_ s) p (next_ s)]> h).
Definition set_next (a n : nat) (h : gmap nat SnapshotImpl) : option (gmap nat SnapshotImpl) :=
  s ← h !! a; Some (<[a := mkSnap (number_ s) (prev_ s) n]> h).

Definition snapshots_empty (l : SnapshotList) : option bool :=
  d ← sl_heap l !! list_; Some (next_ d =? list_)%nat.

(** The address of the oldest and the newest snapshot; [None] also for the
    failed assertion on an empty list. *)
Definition oldest (l : SnapshotList) : option nat :=
  d ← sl_heap l !! list_; if (next_ d =? list_)%nat then None else Some (next_ d).
Definition snapshots_newest (l : SnapshotList) : option nat :=
  d ← sl_heap l !! list_; if (next_ d =? list_)%nat then None else Some (prev_ d).

Definition snapshots_New (seq : Z) (l : SnapshotList) : option (nat * SnapshotList) :=
  let s := sl_fresh l in
  d ← sl_heap l !! list_;
  let h := <[s := mkSnap seq (prev_ d) list_]> (sl_heap l) in
  h ← set_next (prev_ d) s h;
  h ← set_prev list_ s h;
  Some (s, mkSnapshots h (S s)).

Definition snapshots_Delete (s : nat) (l : SnapshotList) : option SnapshotList :=
  if (s =? list_)%nat then None
  else
    n ← sl_heap l !! s;
    h ← set_next (prev_ n) (next_ n) (sl_heap l);
    h ← set_prev (next_ n) (prev_ n) h;
    Some (mkSnapshots (delete s h) (sl_fresh l)).

Definition snapshot_number (s : nat) (l : SnapshotList) : option Z := number_ <$> sl_heap l !! s.

(** ** The sequence the links represent *)

(** Neighbours in a list. *)
Fixpoint pairs (l : list nat) : list (nat * nat) :=
  match l with
  | a :: ((b :: _) as l') => (a, b) :: pairs l'
  | _ => []
  end.

Lemma pairs_split l1 x l2 : pairs (l1 ++ x :: l2) = pairs (l1 ++ [x]) ++ pairs (x :: l2).
Proof.
  induction l1 as [|a l1 IH]; [done|]. destruct l1 as [|b l1]; [done|].
  change ((a, b) :: pairs ((b :: l1) ++ x :: l2) = (a, b) :: (pairs ((b :: l1) ++ [x]) ++ pairs (x :: l2))). by rewrite IH.
Qed.

Lemma pairs_elem l a b : (a, b) ∈ pairs l -> exists l1 l2, l = l1 ++ a :: b :: l2.
Proof.
  induction l as [|x l IH]; [by intros ?%elem_of_nil|]. destruct l as [|y l]; [by intros ?%elem_of_nil|].
  change (pairs (x :: y :: l)) with ((x, y) :: pairs (y :: l)). intros [[= -> ->]|H]%elem_of_cons; [by exists [], l|].
  destruct (IH H) as (l1 & l2 & ->). by exists (x :: l1), l2.
Qed.

Lemma pairs_right x l a b : (a, b) ∈ pairs (x :: l) -> b ∈ l.
Proof.
  intros ([|y l1] & l2 & [= -> ->])%pairs_elem; [by left|]. apply elem_of_app. right. right. by left.
Qed.

Lemma pairs_left y l a b : (a, b) ∈ pairs (l ++ [y]) -> a ∈ l.
Proof.
  intros (l1 & l2 & E)%pairs_elem. destruct l2 as [|z l2 _] using rev_ind.
  - change (l1 ++ a :: [b]) with (l1 ++ [a] ++ [b]) in E. rewrite app_assoc in E. apply app_inj_tail in E as [-> _]. apply elem_of_app. right. by left.
  - change (l1 ++ a :: b :: l2 ++ [z]) with (l1 ++ (a :: b :: l2) ++ [z]) in E. rewrite app_assoc in E. apply app_inj_tail in E as [-> _].
    apply elem_of_app. right. by left.
Qed.

Definition linked (h : gmap nat SnapshotImpl) (a b : nat) : Prop := next_ <$> h !! a = Some b /\ prev_ <$> h !! b = Some a.

Definition ring (ids : list nat) : list nat := list_ :: ids ++ [list_].

(** The nodes of the list are [ss], with their numbers, oldest first. *)
Record snap_rep (l : SnapshotList) (ss : list (nat * Z)) : Prop := {
  sr_links : forall a b, (a, b) ∈ pairs (ring ss.*1) -> linked (sl_heap l) a b;
  sr_nodup : NoDup (list_ :: ss.*1);
  sr_dom : forall a, is_Some (sl_heap l !! a) <-> a ∈ list_ :: ss.*1;
  sr_fresh : forall a, a ∈ list_ :: ss.*1 -> (a < sl_fresh l)%nat;
  sr_number : forall a z, (a, z) ∈ ss -> number_ <$> sl_heap l !! a = Some z
}.

(** The neighbours of a node. *)
Lemma pair_intro l1 a b l2 : (a, b) ∈ pairs (l1 ++ a :: b :: l2).
Proof. rewrite pairs_split. apply elem_of_app. right. by left. Qed.

Lemma ring_next ids : exists b, (list_, b) ∈ pairs (ring ids) /\ b = default list_ (head ids).
Proof. destruct ids as [|x ids]; (eexists; split; [by left|done]). Qed.

Lemma ring_prev ids : exists a, (a, list_) ∈ pairs (ring ids) /\ a = default list_ (last ids).
Proof.
  destruct ids as [|x ids _] using rev_ind; [exists list_; split; [by left|done]|]. exists x. split; [|by rewrite last_snoc].
  unfold ring. rewrite <- app_assoc. apply (pair_intro (list_ :: ids)).
Qed.

Section Rep.
Context (l : SnapshotList) (ss : list (nat * Z)) (Hr : snap_rep l ss).

Lemma head_node : exists d, sl_heap l !! list_ = Some d /\ next_ d = default list_ (head ss.*1) /\ prev_ d = default list_ (last ss.*1).
Proof.
  destruct (proj2 (sr_dom l ss Hr list_) ltac:(by left)) as [d Hd]. exists d. split; [done|].
  destruct (ring_next ss.*1) as (b & Hb & <-). destruct (ring_prev ss.*1) as (a & Ha & <-).
  destruct (sr_links l ss Hr _ _ Hb) as [E1 _]. destruct (sr_links l ss Hr _ _ Ha) as [_ E2].
  rewrite Hd in E1. rewrite Hd in E2. cbn in E1, E2. split; congruence.
Qed.

Lemma member_not_dummy a : a ∈ ss.*1 -> a <> list_.
Proof. intros Ha ->. pose proof (sr_nodup l ss Hr) as Hn. by apply NoDup_cons in Hn as [Hn _]. Qed.

Lemma head_dummy : (default list_ (head ss.*1) =? list_)%nat = bool_decide (ss = []).
Proof.
  assert (H : forall a, a ∈ ss.*1 -> (a =? list_)%nat = false) by (intros a Ha; by apply Nat.eqb_neq, member_not_dummy).
  clear Hr. destruct ss as [|x ss']; [done|]. apply H. by left.
Qed.

Lemma oldest_spec : oldest l = fst <$> head ss.
Proof.
  destruct head_node as (d & Hd & Hn & _). unfold oldest. rewrite Hd. cbn [mbind option_bind]. rewrite Hn, head_dummy. clear. by destruct ss.
Qed.

Lemma snapshots_newest_spec : snapshots_newest l = fst <$> last ss.
Proof.
  destruct head_node as (d & Hd & Hn & Hp). unfold snapshots_newest. rewrite Hd. cbn [mbind option_bind]. rewrite Hn, Hp, head_dummy, fmap_last. clear.
  case_bool_decide as E; [by rewrite E|]. destruct (last ss) as [x|] eqn:El; [done|]. by apply last_None in El.
Qed.

Lemma snapshots_empty_spec : snapshots_empty l = Some (bool_decide (ss = [])).
Proof.
  destruct head_node as (d & Hd & Hn & _). unfold snapshots_empty. rewrite Hd. cbn [mbind option_bind]. by rewrite Hn, head_dummy.
Qed.

Lemma snapshot_number_spec a z : (a, z) ∈ ss -> snapshot_number a l = Some z.
Proof. apply (sr_number l ss Hr). Qed.

(** What writing a link leaves alone. *)
Lemma set_next_spec h a b : is_Some (h !! a) ->
  exists h', set_next a b h = Some h' /\ next_ <$> h' !! a = Some b /\ (forall x, x <> a -> next_ <$> h' !! x = next_ <$> h !! x) /\
    (forall x, prev_ <$> h' !! x = prev_ <$> h !! x) /\ (forall x, number_ <$> h' !! x = number_ <$> h !! x).
Proof.
  intros [n Hn]. unfold set_next. rewrite Hn. cbn [mbind option_bind]. eexists. split; [done|]. rewrite lookup_insert_eq. split; [done|].
  repeat split; intros x; intros; (destruct (decide (x = a)) as [->|?]; [|by rewrite lookup_insert_ne by done]); rewrite lookup_insert_eq, Hn; done.
Qed.

Lemma set_prev_spec h a b : is_Some (h !! a) ->
  exists h', set_prev a b h = Some h' /\ prev_ <$> h' !! a = Some b /\ (forall x, x <> a -> prev_ <$> h' !! x = prev_ <$> h !! x) /\
    (forall x, next_ <$> h' !! x = next_ <$> h !! x) /\ (forall x, number_ <$> h' !! x = number_ <$> h !! x).
Proof.
  intros [n Hn]. unfold set_prev. rewrite Hn. cbn [mbind option_bind]. eexists. split; [done|]. rewrite lookup_insert_eq. split; [done|].
  repeat split; intros x; intros; (destruct (decide (x = a)) as [->|?]; [|by rewrite lookup_insert_ne by done]); rewrite lookup_insert_eq, Hn; done.
Qed.

(** The same nodes. *)
Lemma same_dom {h h' : gmap nat SnapshotImpl} : (forall x, number_ <$> h' !! x = number_ <$> h !! x) -> forall x, is_Some (h' !! x) <-> is_Some (h !! x).
Proof. intros H x. rewrite <- !(fmap_is_Some number_). by rewrite H. Qed.

Lemma ends_in : exists l1, list_ :: ss.*1 = l1 ++ [default list_ (last ss.*1)].
Proof.
  clear. destruct (ss.*1) as [|x l _] using rev_ind; [by exists []|]. exists (list_ :: l). by rewrite last_snoc.
Qed.

Lemma snapshots_New_spec seq : exists l', snapshots_New seq l = Some (sl_fresh l, l') /\ snap_rep l' (ss ++ [(sl_fresh l, seq)]).
Proof.
  destruct head_node as (d & Hd & _ & Hp). set (s := sl_fresh l). unfold snapshots_New. fold s. rewrite Hd. cbn [mbind option_bind]. rewrite Hp.
  destruct ends_in as [l1 Hl1]. set (p := default list_ (last ss.*1)) in *.
  assert (Hs : s ∉ list_ :: ss.*1) by (intros H; apply (sr_fresh l ss Hr) in H; unfold s in H; lia).
  assert (Hpin : p ∈ list_ :: ss.*1) by (rewrite Hl1; apply elem_of_app; right; by left).
  assert (Hps : p <> s) by congruence. assert (Hs0 : s <> list_) by (intros E; apply Hs; rewrite E; by left).
  destruct (set_next_spec (<[s := mkSnap seq p list_]> (sl_heap l)) p s) as (h1 & -> & N1 & N2 & N3 & N4).
  { rewrite lookup_insert_ne by done. by apply (sr_dom l ss Hr). }
  destruct (set_prev_spec h1 list_ s) as (h2 & E2 & P1 & P2 & P3 & P4).
  { apply (same_dom N4). rewrite lookup_insert_ne by done. by exists d. }
  cbn [mbind option_bind]. rewrite E2. cbn [mbind option_bind]. eexists. split; [done|].
  assert (Hids : (ss ++ [(s, seq)]).*1 = ss.*1 ++ [s]) by (by rewrite fmap_app).
  assert (Hdom : forall x, is_Some (h2 !! x) <-> x = s \/ x ∈ list_ :: ss.*1).
  { intros x. rewrite (same_dom P4), (same_dom N4). destruct (decide (x = s)) as [->|Hx]; [rewrite lookup_insert_eq; split; [by left|by eexists]|].
    rewrite lookup_insert_ne by done. rewrite (sr_dom l ss Hr). naive_solver. }
  pose proof (sr_nodup l ss Hr) as Hnd. split; cbn [sl_heap sl_fresh]; rewrite ?Hids.
  - intros a b. unfold ring. rewrite <- app_assoc. change (list_ :: ss.*1 ++ [s] ++ [list_]) with ((list_ :: ss.*1) ++ s :: [list_]).
    rewrite pairs_split, Hl1, <- app_assoc. change (l1 ++ [p] ++ [s]) with (l1 ++ p :: [s]). rewrite pairs_split, <- Hl1. rewrite !elem_of_app.
    unfold linked. intros [[H|[= -> ->]%list_elem_of_singleton]|[= -> ->]%list_elem_of_singleton].
    + assert (Ha : a ∈ l1) by (rewrite Hl1 in H; by apply pairs_left in H). assert (Hb := pairs_right _ _ _ _ H).
      rewrite Hl1 in Hnd. apply NoDup_app in Hnd as (_ & Hnd & _). assert (Hap : a <> p) by (intros ->; apply (Hnd p Ha); by left).
      assert (Ha' : a ∈ list_ :: ss.*1) by (rewrite Hl1; apply elem_of_app; by left).
      rewrite P3, N2 by done. rewrite P2 by (by apply member_not_dummy). rewrite N3, !lookup_insert_ne by (intros ->; apply Hs; set_solver).
      apply (sr_links l ss Hr). unfold ring. change (list_ :: ss.*1 ++ [list_]) with ((list_ :: ss.*1) ++ [list_]). rewrite Hl1, <- app_assoc.
      change (l1 ++ [p] ++ [list_]) with (l1 ++ p :: [list_]). rewrite pairs_split, <- Hl1. apply elem_of_app. by left.
    + rewrite P3. split; [done|]. rewrite P2, N3, lookup_insert_eq by done. done.
    + split; [|done]. rewrite P3, N2, lookup_insert_eq by done. done.
  - rewrite app_comm_cons. apply NoDup_app. split; [done|]. split; [|apply NoDup_singleton]. intros x Hx ->%list_elem_of_singleton. done.
  - intros a. rewrite Hdom, app_comm_cons, elem_of_app, list_elem_of_singleton. naive_solver.
  - intros a. rewrite app_comm_cons, elem_of_app, list_elem_of_singleton. intros [H| ->]; [|lia]. apply (sr_fresh l ss Hr) in H. unfold s. lia.
  - intros a z. rewrite P4, N4. intros [H|[= -> ->]%list_elem_of_singleton]%elem_of_app; [|by rewrite lookup_insert_eq].
    rewrite lookup_insert_ne; [by apply (sr_number l ss Hr)|]. intros <-. apply Hs. right. by apply (list_elem_of_fmap_2 fst) in H.
Qed.

End Rep.

(** Where an element of the list with one more is. *)
Lemma elem_middle (x s : nat) (l1 l2 : list nat) : x ∈ list_ :: l1 ++ s :: l2 <-> x = s \/ x ∈ list_ :: l1 \/ x ∈ l2.
Proof. rewrite app_comm_cons, elem_of_app, (elem_of_cons l2 x s). tauto. Qed.

Lemma begins_with (l : list nat) : exists n l2, l ++ [list_] = n :: l2.
Proof. destruct l as [|x l]; [by exists list_, []|]. by exists x, (l ++ [list_]). Qed.

(** The links after [s] between [p] and [n] is gone. *)
Lemma Delete_links h h2 i1 i2 l1 l2 p s n a b : list_ :: i1 = l1 ++ [p] -> i2 ++ [list_] = n :: l2 ->
  NoDup (list_ :: i1) -> NoDup i2 -> s ∉ i2 -> (forall x, x ∈ list_ :: i1 -> x ∉ s :: i2) ->
  (forall a b, (a, b) ∈ pairs (l1 ++ [p]) ++ (p, s) :: (s, n) :: pairs (n :: l2) -> linked h a b) ->
  next_ <$> h2 !! p = Some n -> prev_ <$> h2 !! n = Some p ->
  (forall x, x <> p -> next_ <$> h2 !! x = next_ <$> h !! x) -> (forall x, x <> n -> prev_ <$> h2 !! x = prev_ <$> h !! x) ->
  (a, b) ∈ pairs (l1 ++ [p]) ++ (p, n) :: pairs (n :: l2) -> linked (delete s h2) a b.
Proof.
  intros Hl1 Hl2 Hn1 Hn2 Hs2 Hn12 Hl E1 E2 F1 F2 Hab.
  assert (Hp : p ∈ list_ :: i1) by (rewrite Hl1; apply elem_of_app; right; by left).
  assert (Hs1 : s ∉ list_ :: i1) by (intros H; apply (Hn12 s H); by left).
  assert (Hn20 : NoDup (i2 ++ [list_])).
  { apply NoDup_app. split; [done|]. split; [|apply NoDup_singleton]. intros x Hx ->%list_elem_of_singleton. apply (Hn12 list_); [by left|by right]. }
  assert (Hni : n ∈ i2 ++ [list_]) by (rewrite Hl2; by left). unfold linked.
  apply elem_of_app in Hab as [H|[[= -> ->]|H]%elem_of_cons].
  - assert (Ha := pairs_left _ _ _ _ H). assert (Hb : b ∈ i1) by (rewrite <- Hl1 in H; by apply pairs_right in H).
    assert (a <> p) by (intros ->; rewrite Hl1 in Hn1; apply NoDup_app in Hn1 as (_ & Hn1 & _); apply (Hn1 p Ha); by left).
    assert (a ∈ list_ :: i1) by (rewrite Hl1; apply elem_of_app; by left).
    assert (b <> n).
    { intros ->. apply elem_of_app in Hni as [Hni| ->%list_elem_of_singleton]; [apply (Hn12 n); by right|]. by apply NoDup_cons in Hn1 as [? _]. }
    assert (s <> a) by congruence. assert (s <> b) by (intros ->; apply Hs1; by right).
    rewrite !lookup_delete_ne, F1, F2 by done. apply Hl. apply elem_of_app. by left.
  - rewrite !lookup_delete_ne; [done|intros <-..]; [apply elem_of_app in Hni as [?| ->%list_elem_of_singleton]; [done|apply Hs1; by left]|done].
  - assert (Hb := pairs_right _ _ _ _ H). assert (Ha : a ∈ i2) by (rewrite <- Hl2 in H; by apply pairs_left in H).
    assert (b <> n) by (intros ->; rewrite Hl2 in Hn20; by apply NoDup_cons in Hn20 as [? _]).
    assert (a <> p) by (intros ->; apply (Hn12 p Hp); by right).
    assert (Hb0 : b ∈ i2 ++ [list_]) by (rewrite Hl2; by right).
    assert (s <> a) by congruence. assert (s <> b) by (intros <-; apply Hs1; apply elem_of_app in Hb0 as [?| ->%list_elem_of_singleton]; [done|by left]).
    rewrite !lookup_delete_ne, F1, F2 by done. apply Hl. apply elem_of_app. right. by right; right.
Qed.

Lemma snapshots_Delete_spec l ss1 s z ss2 : snap_rep l (ss1 ++ (s, z) :: ss2) ->
  exists l', snapshots_Delete s l = Some l' /\ snap_rep l' (ss1 ++ ss2).
Proof.
  intros Hr. pose proof (sr_links _ _ Hr) as Hl. pose proof (sr_nodup _ _ Hr) as Hnd. pose proof (sr_dom _ _ Hr) as Hd.
  pose proof (sr_fresh _ _ Hr) as Hf. pose proof (sr_number _ _ Hr) as Hz. unfold ring in Hl. rewrite fmap_app in Hl, Hnd, Hd, Hf.
  change (((s, z) :: ss2).*1) with (s :: ss2.*1) in Hl, Hnd, Hd, Hf. set (i1 := ss1.*1) in *. set (i2 := ss2.*1) in *.
  destruct (ends_in ss1) as [l1 Hl1]. fold i1 in Hl1. set (p := default list_ (last i1)) in *. destruct (begins_with i2) as (n & l2 & Hl2).
  assert (Eold : list_ :: (i1 ++ s :: i2) ++ [list_] = (l1 ++ [p]) ++ s :: n :: l2) by (by rewrite <- Hl1, <- Hl2, <- app_assoc).
  assert (Enew : list_ :: (i1 ++ i2) ++ [list_] = (l1 ++ [p]) ++ n :: l2) by (by rewrite <- Hl1, <- Hl2, <- app_assoc).
  rewrite Eold, <- app_assoc in Hl. cbn [app] in Hl. rewrite (pairs_split l1 p) in Hl.
  change (pairs (p :: s :: n :: l2)) with ((p, s) :: (s, n) :: pairs (n :: l2)) in Hl.
  rewrite app_comm_cons in Hnd. apply NoDup_app in Hnd as (Hn1 & Hn12 & Hn2). apply NoDup_cons in Hn2 as [Hs2 Hn2].
  assert (Hs1 : s ∉ list_ :: i1) by (intros H; apply (Hn12 s H); by left).
  assert (Hp1 : p ∈ list_ :: i1) by (rewrite Hl1; apply elem_of_app; right; by left).
  assert (Hni : n ∈ i2 ++ [list_]) by (rewrite Hl2; by left).
  assert (Hs0 : s <> list_) by (intros ->; apply Hs1; by left).
  assert (Hsn : n <> s) by (intros ->; apply elem_of_app in Hni as [?|?%list_elem_of_singleton]; done).
  assert (Hps : p <> s) by congruence.
  assert (Hall : forall x, x ∈ list_ :: i1 ++ s :: i2 -> is_Some (sl_heap l !! x)) by (intros x; apply Hd).
  destruct (Hl p s) as [_ Lp]; [apply elem_of_app; right; by left|]. destruct (Hl s n) as [Ln _]; [apply elem_of_app; right; right; by left|].
  destruct (Hall s) as [d Ed]; [apply elem_middle; by left|]. rewrite Ed in Lp, Ln. injection Lp as Lp. injection Ln as Ln.
  unfold snapshots_Delete. rewrite (proj2 (Nat.eqb_neq s list_) Hs0), Ed. cbn [mbind option_bind]. rewrite Lp, Ln.
  destruct (set_next_spec (sl_heap l) p n) as (h1 & -> & N1 & N2 & N3 & N4); [apply Hall, elem_middle; right; by left|]. cbn [mbind option_bind].
  destruct (set_prev_spec h1 n p) as (h2 & -> & P1 & P2 & P3 & P4); [apply (same_dom N4), Hall, elem_middle; right; apply elem_of_app in Hni as [?| ->%list_elem_of_singleton]; [by right|left; by left]|]. cbn [mbind option_bind].
  eexists. split; [done|]. split; cbn [sl_heap sl_fresh]; unfold ring; rewrite ?fmap_app; fold i1 i2.
  - intros a b. rewrite Enew, <- app_assoc. cbn [app]. rewrite (pairs_split l1 p). change (pairs (p :: n :: l2)) with ((p, n) :: pairs (n :: l2)).
    apply (Delete_links (sl_heap l) h2 i1 i2 l1 l2 p s n); try done; [by rewrite P3|by intros x Hx; rewrite P3; apply N2|by intros x Hx; rewrite P2, N3].
  - rewrite app_comm_cons. apply NoDup_app. split; [done|]. split; [|done]. intros x Hx Hx2. apply (Hn12 x Hx). by right.
  - intros a. destruct (decide (a = s)) as [->|Ha].
    + rewrite lookup_delete_eq. split; [by intros [? ?]|]. rewrite app_comm_cons. by intros [?|?]%elem_of_app.
    + rewrite lookup_delete_ne, (same_dom P4), (same_dom N4), Hd, elem_middle, app_comm_cons, elem_of_app by done. tauto.
  - intros a Ha. apply Hf, elem_middle. rewrite app_comm_cons, elem_of_app in Ha. tauto.
  - intros a y Ha. assert (a <> s).
    { intros ->. apply elem_of_app in Ha as [Ha|Ha]; apply (list_elem_of_fmap_2 fst) in Ha; [apply Hs1; by right|done]. }
    rewrite lookup_delete_ne, P4, N4 by done. apply Hz. rewrite elem_of_app, elem_of_cons. apply elem_of_app in Ha. tauto.
Qed.

Lemma new_SnapshotList_rep : snap_rep new_SnapshotList [].
Proof.
  split; cbn [new_SnapshotList sl_heap sl_fresh].
  - intros a b [[= -> ->]|H%elem_of_nil]%elem_of_cons; [|done]. done.
  - apply NoDup_singleton.
  - intros a. change ([].*1) with (@nil nat). rewrite list_elem_of_singleton. destruct (decide (a = list_)) as [->|Ha]; [by split; [|eexists]|].
    rewrite lookup_singleton_ne by done. split; [by intros [? ?]|done].
  - intros a ->%list_elem_of_singleton. unfold list_. lia.
  - by intros a z ?%elem_of_nil.
Qed.

(** ** Sequences of operations *)

Inductive SnapOp := SNew (seq : Z) | SDelete (s : nat).

Definition snap_step (op : SnapOp) (l : SnapshotList) : option SnapshotList :=
  match op with
  | SNew seq => snd <$> snapshots_New seq l
  | SDelete s => snapshots_Delete s l
  end.

(** On the next address and the sequence; only live snapshots are deleted. *)
Definition abs_step (op : SnapOp) (st : nat * list (nat * Z)) : option (nat * list (nat * Z)) :=
  match op with
  | SNew seq => Some (S st.1, st.2 ++ [(st.1, seq)])
  | SDelete s => if bool_decide (s ∈ st.2.*1) then Some (st.1, filter (fun x => x.1 <> s) st.2) else None
  end.

Definition run {A} (step : SnapOp -> A -> option A) (ops : list SnapOp) (a : A) : option A :=
  fold_left (fun acc op => acc ≫= step op) ops (Some a).

Lemma filter_out ss1 s z ss2 : NoDup ((ss1 ++ (s, z) :: ss2).*1) -> filter (fun x : nat * Z => x.1 <> s) (ss1 ++ (s, z) :: ss2) = ss1 ++ ss2.
Proof.
  rewrite fmap_app. change (((s, z) :: ss2).*1) with (s :: ss2.*1). intros (_ & Hd & [Hs _]%NoDup_cons)%NoDup_app.
  rewrite filter_app, filter_cons_False by (by intros ?).
  assert (H : forall l : list (nat * Z), s ∉ l.*1 -> filter (fun x : nat * Z => x.1 <> s) l = l).
  { intros l Hl. induction l as [|x l IH]; [done|]. apply not_elem_of_cons in Hl as [H1 H2]. rewrite filter_cons_True, IH by (try done; congruence). done. }
  rewrite !H; [done|done|]. intros Hx. apply (Hd s Hx). by left.
Qed.

Lemma step_refines op l st st' : snap_rep l st.2 -> sl_fresh l = st.1 -> abs_step op st = Some st' ->
  exists l', snap_step op l = Some l' /\ snap_rep l' st'.2 /\ sl_fresh l' = st'.1.
Proof.
  intros Hr Hf. destruct op as [seq|s]; cbn [abs_step snap_step].
  - intros [= <-]. destruct (snapshots_New_spec l st.2 Hr seq) as (l' & E & Hr'). rewrite E. exists l'. split; [done|]. rewrite <- Hf. split; [done|].
    unfold snapshots_New in E. repeat (apply bind_Some in E as (? & _ & E)). by injection E as <-.
  - case_bool_decide as Hs; [|done]. intros [= <-]. apply list_elem_of_fmap in Hs as ((s' & z) & -> & Hs). apply list_elem_of_split in Hs as (ss1 & ss2 & E).
    rewrite E in Hr. destruct (snapshots_Delete_spec l ss1 s' z ss2 Hr) as (l' & Hd & Hr'). exists l'. cbn [fst snd]. split; [done|].
    rewrite E, filter_out by (by pose proof (sr_nodup _ _ Hr) as [_ ?]%NoDup_cons). split; [done|]. rewrite <- Hf.
    unfold snapshots_Delete in Hd. destruct (_ =? _)%nat; [done|]. repeat (apply bind_Some in Hd as (? & _ & Hd)). by injection Hd as <-.
Qed.

Lemma run_None {A} (step : SnapOp -> A -> option A) ops : fold_left (fun acc op => acc ≫= step op) ops None = None.
Proof. by induction ops. Qed.

(** The linked list of snapshots is the sequence of the snapshots not yet
    released, in the order of their creation: any creations and releases of
    live snapshots follow no dead pointer, [oldest] and [newest] are the ends
    of the sequence and every snapshot keeps its number. *)
Theorem snapshot_list_refines ops n ss : run abs_step ops (1%nat, []) = Some (n, ss) ->
  exists l, run snap_step ops new_SnapshotList = Some l /\ oldest l = fst <$> head ss /\ snapshots_newest l = fst <$> last ss /\
    snapshots_empty l = Some (bool_decide (ss = [])) /\ forall a z, (a, z) ∈ ss -> snapshot_number a l = Some z.
Proof.
  assert (H : forall st l st', snap_rep l st.2 -> sl_fresh l = st.1 -> run abs_step ops st = Some st' ->
    exists l', run snap_step ops l = Some l' /\ snap_rep l' st'.2).
  { induction ops as [|op ops IH]; intros st l st' Hr Hf; [intros [= <-]; by exists l|]. unfold run. cbn [fold_left mbind option_bind].
    destruct (abs_step op st) as [st1|] eqn:E1; [|by rewrite run_None]. destruct (step_refines op l st st1 Hr Hf E1) as (l1 & -> & Hr1 & Hf1).
    by apply IH. }
  intros Hrun. destruct (H (1%nat, []) new_SnapshotList (n, ss) new_SnapshotList_rep eq_refl Hrun) as (l & E & Hr). cbn [snd] in Hr.
  exists l. split; [done|]. split; [by apply oldest_spec|]. split; [by apply snapshots_newest_spec|]. split; [by apply snapshots_empty_spec|].
  intros a z. by apply snapshot_number_spec.
Qed.

Lemma snapshot_list_refines_witness :
  exists l, run snap_step [SNew 5; SNew 7; SNew 9; SDelete 1] new_SnapshotList = Some l /\ oldest l = Some 2%nat /\ snapshots_newest l = Some 3%nat /\
    snapshots_empty l = Some false /\ snapshot_number 2 l = Some 7.
Proof.
  destruct (snapshot_list_refines [SNew 5; SNew 7; SNew 9; SDelete 1] 4 [(2%nat, 7); (3%nat, 9)] eq_refl) as (l & E & Ho & Hn & He & Hz).
  exists l. split; [exact E|]. split; [exact Ho|]. split; [exact Hn|]. split; [exact He|]. apply Hz. left.
Defined.
