(* ===== verification/Compaction.v ===== *)
(** * Choosing a compaction: the Compaction class and the parts of VersionSet
    that create one (db/version_set.cpp)

    A compaction merges files of a level with the files of the next level they
    overlap. [PickCompaction] and [CompactRange] choose the inputs;
    [IsBaseLevelForKey] and [ShouldStopBefore] keep cursors over the deeper
    levels while the merged keys go by. *)

From S2P Require Import Prelude Coding Status Comparator Dbformat MemTable VersionEdit Version VersionSet.

(** [c_input_version] is the version object and its files, until the inputs
    are released. *)
Record Compaction := mkCompaction {
  c_level : nat;
  c_max_output_file_size : Z;
  c_input_version : option (nat * Version);
  c_edit : VersionEdit;
  c_inputs0 : list FileMetaData;
  c_inputs1 : list FileMetaData;
  c_grandparents : list FileMetaData;
  c_grandparent_index : nat;
  c_seen_key : bool;
  c_overlapped_bytes : Z;
  c_level_ptrs : list nat
}.

Definition new_Compaction (max_file_size : Z) (level : nat) : Compaction :=
  mkCompaction level (MaxFileSizeForLevel max_file_size level) None new_VersionEdit [] [] [] 0 false 0 (replicate kNumLevels 0%nat).

Definition c_set_inputs (i0 i1 : list FileMetaData) (c : Compaction) : Compaction :=
  mkCompaction (c_level c) (c_max_output_file_size c) (c_input_version c) (c_edit c) i0 i1
    (c_grandparents c) (c_grandparent_index c) (c_seen_key c) (c_overlapped_bytes c) (c_level_ptrs c).
Definition c_set_version (v : option (nat * Version)) (c : Compaction) : Compaction :=
  mkCompaction (c_level c) (c_max_output_file_size c) v (c_edit c) (c_inputs0 c) (c_inputs1 c)
    (c_grandparents c) (c_grandparent_index c) (c_seen_key c) (c_overlapped_bytes c) (c_level_ptrs c).
Definition c_set_edit (e : VersionEdit) (c : Compaction) : Compaction :=
  mkCompaction (c_level c) (c_max_output_file_size c) (c_input_version c) e (c_inputs0 c) (c_inputs1 c)
    (c_grandparents c) (c_grandparent_index c) (c_seen_key c) (c_overlapped_bytes c) (c_level_ptrs c).
Definition c_set_grandparents (g : list FileMetaData) (c : Compaction) : Compaction :=
  mkCompaction (c_level c) (c_max_output_file_size c) (c_input_version c) (c_edit c) (c_inputs0 c) (c_inputs1 c)
    g (c_grandparent_index c) (c_seen_key c) (c_overlapped_bytes c) (c_level_ptrs c).
Definition c_set_cursor (index : nat) (seen : bool) (overlapped : Z) (c : Compaction) : Compaction :=
  mkCompaction (c_level c) (c_max_output_file_size c) (c_input_version c) (c_edit c) (c_inputs0 c) (c_inputs1 c)
    (c_grandparents c) index seen overlapped (c_level_ptrs c).
Definition c_set_ptrs (ptrs : list nat) (c : Compaction) : Compaction :=
  mkCompaction (c_level c) (c_max_output_file_size c) (c_input_version c) (c_edit c) (c_inputs0 c) (c_inputs1 c)
    (c_grandparents c) (c_grandparent_index c) (c_seen_key c) (c_overlapped_bytes c) ptrs.

Section Choose.
Context (ucmp : Comparator) (max_file_size : Z).

Abbreviation icmp := (InternalKey_Compare ucmp).

(** ** Ranges *)

Definition range_step (r : bytes * bytes) (f : FileMetaData) : bytes * bytes :=
  ((if is_lt (icmp (smallest f) r.1) then smallest f else r.1), (if is_gt (icmp (largest f) r.2) then largest f else r.2)).

(** The inputs must not be empty. *)
Definition GetRange (inputs : list FileMetaData) : option (bytes * bytes) :=
  match inputs with
  | [] => None
  | f :: inputs => Some (fold_left range_step inputs (smallest f, largest f))
  end.

Definition GetRange2 (inputs1 inputs2 : list FileMetaData) : option (bytes * bytes) := GetRange (inputs1 ++ inputs2).

(** ** The other inputs *)

(** The files of the level that can join without more files of the next one. *)
Definition expand_inputs (v : Version) (level : nat) (range all : bytes * bytes) (i0 i1 : list FileMetaData)
    : option ((bytes * bytes) * (bytes * bytes) * list FileMetaData * list FileMetaData) :=
  match i1 with
  | [] => Some (range, all, i0, i1)
  | _ =>
      expanded0 ← GetOverlappingInputs ucmp v level (Some all.1) (Some all.2);
      if (length i0 <? length expanded0)%nat && (TotalFileSize i1 + TotalFileSize expanded0 <? ExpandedCompactionByteSizeLimit max_file_size) then
        new ← GetRange expanded0;
        expanded1 ← GetOverlappingInputs ucmp v (level + 1) (Some new.1) (Some new.2);
        if (length expanded1 =? length i1)%nat then
          all ← GetRange2 expanded0 expanded1;
          Some (new, all, expanded0, expanded1)
        else Some (range, all, i0, i1)
      else Some (range, all, i0, i1)
  end.

Definition SetupOtherInputs (c : Compaction) (vs : VersionSet) : option (Compaction * VersionSet) :=
  let v := vs_current vs in
  let level := c_level c in
  range ← GetRange (c_inputs0 c);
  i1 ← GetOverlappingInputs ucmp v (level + 1) (Some range.1) (Some range.2);
  all ← GetRange2 (c_inputs0 c) i1;
  r ← expand_inputs v level range all (c_inputs0 c) i1;
  let '(range, all, i0, i1) := r in
  grandparents ← (if (level + 2 <? kNumLevels)%nat then GetOverlappingInputs ucmp v (level + 2) (Some all.1) (Some all.2)
                  else Some (c_grandparents c) : option (list FileMetaData));
  let c := c_set_grandparents grandparents (c_set_inputs i0 i1 c) in
  Some (c_set_edit (SetCompactPointer (Z.of_nat level) range.2 (c_edit c)) c,
        set_pointers (<[level := range.2]> (vs_compact_pointer vs)) vs).

(** [c->input_version_ = current_; c->input_version_->Ref()] *)
Definition take_version (c : Compaction) (vs : VersionSet) : option (Compaction * VersionSet) :=
  vs' ← version_Ref (vs_current_id vs) vs;
  Some (c_set_version (Some (vs_current_id vs, vs_current vs)) c, vs').

(** ** Picking *)

(** The first file behind the place where the last compaction of the level
    ended, or the first file. *)
Definition pick_file (files : list FileMetaData) (pointer : bytes) : option FileMetaData :=
  match List.find (fun f => bool_decide (pointer = []) || is_gt (icmp (largest f) pointer)) files with
  | Some f => Some f
  | None => files !! 0%nat
  end.

(** The level and the first input; [None] inside if there is nothing to do. *)
Definition pick_start (vs : VersionSet) : option (option (nat * FileMetaData)) :=
  let v := vs_current vs in
  let '(num, den) := compaction_score_ v in
  if den <=? num then
    let level := compaction_level_ v in
    if negb ((0 <=? level) && (level + 1 <? Z.of_nat kNumLevels)) then None
    else
      pointer ← vs_compact_pointer vs !! Z.to_nat level;
      f ← pick_file (level_files v (Z.to_nat level)) pointer;
      Some (Some (Z.to_nat level, f))
  else
    match file_to_compact_ v with
    | Some f => if file_to_compact_level_ v <? 0 then None else Some (Some (Z.to_nat (file_to_compact_level_ v), f))
    | None => Some None
    end.

Definition PickCompaction (vs : VersionSet) : option (option Compaction * VersionSet) :=
  start ← pick_start vs;
  match start with
  | None => Some (None, vs)
  | Some (level, f) =>
      r ← take_version (c_set_inputs [f] [] (new_Compaction max_file_size level)) vs;
      let '(c, vs) := r in
      i0 ← (if (level =? 0)%nat then
              range ← GetRange (c_inputs0 c);
              i0 ← GetOverlappingInputs ucmp (vs_current vs) 0 (Some range.1) (Some range.2);
              match i0 with [] => None | _ => Some i0 end
            else Some (c_inputs0 c) : option (list FileMetaData));
      r ← SetupOtherInputs (c_set_inputs i0 (c_inputs1 c) c) vs;
      Some (Some r.1, r.2)
  end.

(** The inputs up to the one with which their sizes reach the limit. *)
Fixpoint limit_inputs (limit total : Z) (inputs : list FileMetaData) : list FileMetaData :=
  match inputs with
  | [] => []
  | f :: inputs =>
      let total := u64 (total + file_size f) in
      if limit <=? total then [f] else f :: limit_inputs limit total inputs
  end.

Definition VersionSet_CompactRange (level : nat) (begin end_ : option bytes) (vs : VersionSet) : option (option Compaction * VersionSet) :=
  inputs ← GetOverlappingInputs ucmp (vs_current vs) level begin end_;
  match inputs with
  | [] => Some (None, vs)
  | _ =>
      let inputs := if (0 <? level)%nat then limit_inputs (MaxFileSizeForLevel max_file_size level) 0 inputs else inputs in
      r ← take_version (new_Compaction max_file_size level) vs;
      r ← SetupOtherInputs (c_set_inputs inputs [] r.1) r.2;
      Some (Some r.1, r.2)
  end.

(** ** During the merge *)

Definition IsTrivialMove (c : Compaction) : bool :=
  (length (c_inputs0 c) =? 1)%nat && (length (c_inputs1 c) =? 0)%nat &&
  (TotalFileSize (c_grandparents c) <=? MaxGrandParentOverlapBytes max_file_size).

Definition AddInputDeletions (c : Compaction) (edit : VersionEdit) : VersionEdit :=
  let del level := fold_left (fun e f => DeleteFile level (number f) e) in
  del (Z.of_nat (c_level c) + 1) (c_inputs1 c) (del (Z.of_nat (c_level c)) (c_inputs0 c) edit).

(** The cursor of one level: how many files are behind it, and whether the key
    lies in the range of the file it stops at. *)
Fixpoint advance (user_key : bytes) (files : list FileMetaData) (ptr : nat) : nat * bool :=
  match files with
  | [] => (ptr, false)
  | f :: files =>
      if negb (is_gt (Compare ucmp user_key (largest_user f))) then
        (ptr, negb (is_lt (Compare ucmp user_key (smallest_user f))))
      else advance user_key files (S ptr)
  end.

Fixpoint base_levels (user_key : bytes) (v : Version) (levels : list nat) (ptrs : list nat) : bool * list nat :=
  match levels with
  | [] => (true, ptrs)
  | lvl :: levels =>
      let ptr := default 0%nat (ptrs !! lvl) in
      let r := advance user_key (drop ptr (level_files v lvl)) ptr in
      let ptrs := <[lvl := r.1]> ptrs in
      if r.2 then (false, ptrs) else base_levels user_key v levels ptrs
  end.

Definition IsBaseLevelForKey (user_key : bytes) (c : Compaction) : option (bool * Compaction) :=
  v ← c_input_version c;
  let r := base_levels user_key v.2 (seq (c_level c + 2) (kNumLevels - (c_level c + 2))) (c_level_ptrs c) in
  Some (r.1, c_set_ptrs r.2 c).

(** [seen_key_] does not change in the loop. *)
Fixpoint pass_grandparents (internal_key : bytes) (seen : bool) (files : list FileMetaData) (index : nat) (overlapped : Z) : nat * Z :=
  match files with
  | [] => (index, overlapped)
  | f :: files =>
      if is_gt (icmp internal_key (largest f)) then
        pass_grandparents internal_key seen files (S index) (if seen then overlapped + file_size f else overlapped)
      else (index, overlapped)
  end.

Definition ShouldStopBefore (internal_key : bytes) (c : Compaction) : option (bool * Compaction) :=
  _ ← c_input_version c;
  let r := pass_grandparents internal_key (c_seen_key c) (drop (c_grandparent_index c) (c_grandparents c))
             (c_grandparent_index c) (c_overlapped_bytes c) in
  Some (if MaxGrandParentOverlapBytes max_file_size <? r.2 then (true, c_set_cursor r.1 true 0 c)
        else (false, c_set_cursor r.1 true r.2 c)).

Definition ReleaseInputs (c : Compaction) (vs : VersionSet) : option (Compaction * VersionSet) :=
  match c_input_version c with
  | None => Some (c, vs)
  | Some v => vs ← version_Unref v.1 vs; Some (c_set_version None c, vs)
  end.

(** The result is the largest; [TotalFileSize] is signed. *)
Definition MaxNextLevelOverlappingBytes (vs : VersionSet) : option Z :=
  let v := vs_current vs in
  fold_left (fun acc lf => result ← acc;
      over ← GetOverlappingInputs ucmp v (lf.1 + 1) (Some (smallest lf.2)) (Some (largest lf.2));
      Some (if result <? TotalFileSize over then TotalFileSize over else result))
    (concat (map (fun level => map (pair level) (level_files v level)) (seq 1 (kNumLevels - 2)))) (Some 0).

End Choose.

(** ** The cursors over the deeper levels *)

Section Base.
Context (ucmp : Comparator) `{!TotalCmp (Compare ucmp)}.

(** A file with the user key in its range. *)
Definition covers (u : bytes) : FileMetaData -> bool := overlaps ucmp (Some u) (Some u).

Lemma advance_spec u files ptr : level_ok ucmp files ->
  exists k, advance ucmp u files ptr = ((ptr + k)%nat, existsb (covers u) files) /\ (k <= length files)%nat /\
    forall i f, (i < k)%nat -> files !! i = Some f -> AfterFile ucmp (Some u) f = true.
Proof.
  revert ptr. induction files as [|f files IH]; intros ptr Hok; cbn [advance existsb length].
  - exists 0%nat. rewrite Nat.add_0_r. split; [done|]. split; [lia|]. intros i f Hi. lia.
  - destruct Hok as [Hs Hf]. apply StronglySorted_inv in Hs as [Hs Hall]. apply Forall_cons in Hf as [Hff Hf].
    change (is_gt (Compare ucmp u (largest_user f))) with (AfterFile ucmp (Some u) f). change (is_lt (Compare ucmp u (smallest_user f))) with (BeforeFile ucmp (Some u) f).
    destruct (AfterFile ucmp (Some u) f) eqn:Ea; cbn [negb].
    + destruct (IH (S ptr)) as (k & -> & Hk & Hb); [by split|]. exists (S k). unfold covers at 2, overlaps. rewrite Ea. cbn [orb negb].
      rewrite Nat.add_succ_r. split; [done|]. split; [lia|]. intros [|i] g Hi Hg; [by injection Hg as <-|]. apply (Hb i); [lia|done].
    + exists 0%nat. rewrite Nat.add_0_r. split; [|split; [lia|intros i g Hi; lia]]. f_equal. unfold covers at 1, overlaps. rewrite Ea. cbn [orb].
      destruct (BeforeFile ucmp (Some u) f) eqn:Eb; [|done]. cbn [negb orb]. symmetry. unfold covers. by eapply no_later_overlap.
Qed.

(** The files behind the cursors end before the key. *)
Definition ptrs_ok (u : bytes) (v : Version) (ptrs : list nat) : Prop :=
  length ptrs = kNumLevels /\ forall lvl i f, (i < default 0%nat (ptrs !! lvl))%nat -> level_files v lvl !! i = Some f -> AfterFile ucmp (Some u) f = true.

Lemma ptrs_ok_mono u u' v ptrs : Compare ucmp u u' <> Gt -> ptrs_ok u v ptrs -> ptrs_ok u' v ptrs.
Proof.
  intros Hu [Hl Hp]. split; [done|]. intros lvl i f Hi Hf. specialize (Hp lvl i f Hi Hf). cbn in Hp |- *.
  destruct (Compare ucmp u (largest_user f)) eqn:E; try done. apply (cmp_gt_lt (Compare ucmp)) in E.
  replace (Compare ucmp u' (largest_user f)) with Gt; [done|]. symmetry. apply (cmp_gt_lt (Compare ucmp)). by apply (cmp_lt_le_trans (Compare ucmp) _ u).
Qed.

Lemma existsb_drop {A} (p : A -> bool) n l : (forall i x, (i < n)%nat -> l !! i = Some x -> p x = false) -> existsb p (drop n l) = existsb p l.
Proof.
  revert l. induction n as [|n IH]; intros [|x l] Hp; try done. cbn [drop existsb]. rewrite (Hp 0%nat x) by (done || lia). cbn [orb]. apply IH.
  intros i y Hi Hy. apply (Hp (S i)); [lia|done].
Qed.

Lemma level_ok_drop n files : level_ok ucmp files -> level_ok ucmp (drop n files).
Proof.
  intros [Hs Hf]. split; [|by apply Forall_drop]. revert files Hs Hf. induction n as [|n IH]; intros [|f files] Hs Hf; try done.
  cbn [drop]. apply StronglySorted_inv in Hs as [Hs _]. apply Forall_cons in Hf as [_ Hf]. by apply IH.
Qed.

Lemma base_levels_spec u v levels : (forall lvl, lvl ∈ levels -> level_ok ucmp (level_files v lvl) /\ (lvl < kNumLevels)%nat) -> forall ptrs, ptrs_ok u v ptrs ->
  exists ptrs', base_levels ucmp u v levels ptrs = (negb (existsb (fun lvl => existsb (covers u) (level_files v lvl)) levels), ptrs') /\ ptrs_ok u v ptrs'.
Proof.
  induction levels as [|lvl levels IH]; intros Hlv ptrs Hp; cbn [base_levels existsb]; [by exists ptrs|].
  destruct (Hlv lvl ltac:(by left)) as [Hok Hlt]. set (ptr := default 0%nat (ptrs !! lvl)).
  destruct (advance_spec u (drop ptr (level_files v lvl)) ptr (level_ok_drop _ _ Hok)) as (k & -> & Hk & Hb). cbn [fst snd].
  assert (Ed : existsb (covers u) (drop ptr (level_files v lvl)) = existsb (covers u) (level_files v lvl)).
  { apply existsb_drop. intros i f Hi Hf. destruct Hp as [_ Hp]. unfold covers, overlaps. by rewrite (Hp lvl i f Hi Hf). }
  assert (Hp' : ptrs_ok u v (<[lvl := (ptr + k)%nat]> ptrs)).
  { destruct Hp as [Hl Hp]. split; [by rewrite length_insert|]. intros l i f Hi Hf. destruct (decide (l = lvl)) as [->|Hne].
    - rewrite list_lookup_insert_eq in Hi by lia. cbn in Hi. destruct (decide (i < ptr)%nat) as [Hip|Hip]; [by apply (Hp lvl i)|].
      apply (Hb (i - ptr)%nat); [lia|]. rewrite lookup_drop. by replace (ptr + (i - ptr))%nat with i by lia.
    - rewrite list_lookup_insert_ne in Hi by done. by apply (Hp l i). }
  rewrite Ed. destruct (existsb (covers u) (level_files v lvl)); cbn [orb negb]; [by eexists|].
  apply IH; [|done]. intros l Hl. apply Hlv. by right.
Qed.

(** No deeper level has a file with the key in its range. *)
Definition is_base (v : Version) (level : nat) (u : bytes) : bool :=
  negb (existsb (fun lvl => existsb (covers u) (level_files v lvl)) (seq (level + 2) (kNumLevels - (level + 2)))).

Lemma IsBaseLevelForKey_spec u c id v : c_input_version c = Some (id, v) -> version_ok ucmp v -> ptrs_ok u v (c_level_ptrs c) ->
  exists ptrs, IsBaseLevelForKey ucmp u c = Some (is_base v (c_level c) u, c_set_ptrs ptrs c) /\ ptrs_ok u v ptrs.
Proof.
  intros Hc Hv Hp. unfold IsBaseLevelForKey. rewrite Hc. cbn [mbind option_bind snd].
  destruct (base_levels_spec u v (seq (c_level c + 2) (kNumLevels - (c_level c + 2)))) with (ptrs := c_level_ptrs c) as (ptrs & -> & Hp'); [|done|by exists ptrs].
  intros lvl Hl. apply elem_of_seq in Hl. split; [apply Hv|]; lia.
Qed.

End Base.

(** ** The inputs of a compaction *)

Section Inputs.
Context (ucmp : Comparator) `{!TotalCmp (Compare ucmp)} (max_file_size : Z).

Abbreviation icmp := (InternalKey_Compare ucmp).

(** The least range with all the files in it. *)
Definition range_of (inputs : list FileMetaData) (r : bytes * bytes) : Prop :=
  (forall f, f ∈ inputs -> icmp r.1 (smallest f) <> Gt /\ icmp (largest f) r.2 <> Gt) /\
  (exists f, f ∈ inputs /\ smallest f = r.1) /\ (exists f, f ∈ inputs /\ largest f = r.2).

Lemma lo_step lo x y : icmp lo x <> Gt \/ x = y -> icmp (if is_lt (icmp y lo) then y else lo) x <> Gt.
Proof.
  intros H. destruct (is_lt (icmp y lo)) eqn:E.
  - apply is_lt_true in E. destruct H as [H| ->]; [by rewrite (cmp_lt_le_trans icmp _ lo)|by rewrite (cmp_refl icmp)].
  - destruct H as [H| ->]; [done|]. apply (cmp_not_gt_le icmp). intros E'. by rewrite E' in E.
Qed.

Lemma hi_step hi x y : icmp x hi <> Gt \/ x = y -> icmp x (if is_gt (icmp y hi) then y else hi) <> Gt.
Proof.
  intros H. destruct (is_gt (icmp y hi)) eqn:E.
  - destruct H as [H| ->]; [|by rewrite (cmp_refl icmp)]. destruct (icmp y hi) eqn:E'; try done. apply (cmp_gt_lt icmp) in E'. by rewrite (cmp_le_lt_trans icmp _ hi).
  - destruct H as [H| ->]; [done|]. intros E'. by rewrite E' in E.
Qed.

Lemma range_step_spec r f g : (icmp r.1 (smallest g) <> Gt /\ icmp (largest g) r.2 <> Gt \/ g = f) ->
  icmp (range_step ucmp r f).1 (smallest g) <> Gt /\ icmp (largest g) (range_step ucmp r f).2 <> Gt.
Proof.
  intros Hg. split; [apply lo_step|apply hi_step]; (destruct Hg as [[H1 H2]| ->]; [by left|by right]).
Qed.

Lemma GetRange_spec inputs : inputs <> [] -> exists r, GetRange ucmp inputs = Some r /\ range_of inputs r.
Proof.
  destruct inputs as [|f inputs]; [done|]. intros _. eexists. split; [done|].
  assert (H : forall rest seen r, range_of seen r -> range_of (seen ++ rest) (fold_left (range_step ucmp) rest r)).
  { induction rest as [|g rest IH]; intros seen r Hr; cbn [fold_left]; [by rewrite app_nil_r|].
    replace (seen ++ g :: rest) with ((seen ++ [g]) ++ rest) by (by rewrite <- app_assoc). apply IH. destruct Hr as (Ha & (a & Hain & Ea) & (b & Hbin & Eb)).
    split; [|split].
    - intros h [Hh| ->%list_elem_of_singleton]%elem_of_app; apply range_step_spec; [left; by apply Ha|by right].
    - unfold range_step. cbn [fst]. destruct (is_lt _); [exists g|exists a]; (split; [apply elem_of_app|done]); [right; by left|by left].
    - unfold range_step. cbn [snd]. destruct (is_gt _); [exists g|exists b]; (split; [apply elem_of_app|done]); [right; by left|by left]. }
  apply (H inputs [f]). split; [|split; (exists f; split; [by left|done])]. intros g ->%list_elem_of_singleton. by rewrite !(cmp_refl icmp).
Qed.

(** Files that share a user key with the range. *)
Definition in_range (r : bytes * bytes) : FileMetaData -> bool := overlaps ucmp (Some (ExtractUserKey r.1)) (Some (ExtractUserKey r.2)).

Lemma next_inputs v level r : GetOverlappingInputs ucmp v (level + 1) (Some r.1) (Some r.2) = Some (List.filter (in_range r) (level_files v (level + 1))).
Proof. apply (GetOverlappingInputs_deep ucmp). lia. Qed.

Lemma range_user_le fs r f : f ∈ fs -> range_of fs r ->
  Compare ucmp (ExtractUserKey r.1) (smallest_user f) <> Gt /\ Compare ucmp (largest_user f) (ExtractUserKey r.2) <> Gt.
Proof. intros Hf (Ha & _). destruct (Ha f Hf) as [H1 H2]. split; by apply (icmp_user_le ucmp). Qed.

Lemma in_range_self fs r f : f ∈ fs -> range_of fs r -> file_ok ucmp f -> in_range r f = true.
Proof.
  intros Hf Hr (_ & _ & Hfo). destruct (range_user_le fs r f Hf Hr) as [H1 H2]. apply (icmp_user_le ucmp) in Hfo. unfold in_range, overlaps, AfterFile, BeforeFile.
  assert (H3 : Compare ucmp (ExtractUserKey r.1) (largest_user f) <> Gt).
  { intros E. apply (cmp_gt_lt (Compare ucmp)) in E. apply H1. apply (cmp_gt_lt (Compare ucmp)). by apply (cmp_le_lt_trans (Compare ucmp) _ (largest_user f)). }
  assert (H4 : Compare ucmp (ExtractUserKey r.2) (smallest_user f) <> Lt).
  { intros E. apply H2. apply (cmp_gt_lt (Compare ucmp)). by apply (cmp_lt_le_trans (Compare ucmp) _ (smallest_user f)). }
  by destruct (Compare ucmp (ExtractUserKey r.1) (largest_user f)), (Compare ucmp (ExtractUserKey r.2) (smallest_user f)).
Qed.

(** No other file of level 0 shares a user key with the range of the inputs. *)
Definition closed_inputs (v : Version) (inputs : list FileMetaData) : Prop :=
  forall r, range_of inputs r -> forall f, f ∈ level_files v 0 -> in_range r f = true -> f ∈ inputs.

Lemma closure_closed v b e inputs : closure_of ucmp (level_files v 0) b e inputs -> closed_inputs v inputs.
Proof.
  intros (b' & e' & _ & Hc & -> & _) r (_ & (f1 & Hf1 & E1) & (f2 & Hf2 & E2)) f Hf Ho.
  apply list_elem_of_In, filter_In. split; [by apply list_elem_of_In|]. apply list_elem_of_In, filter_In in Hf1 as [Hf1 Ho1]. apply list_elem_of_In, filter_In in Hf2 as [Hf2 Ho2].
  destruct (Hc f1 ltac:(by apply list_elem_of_In) Ho1) as [Hlo _]. destruct (Hc f2 ltac:(by apply list_elem_of_In) Ho2) as [_ Hhi].
  apply (overlaps_mono ucmp (Some (ExtractUserKey r.1)) (Some (ExtractUserKey r.2)) b' e'); [|done]. unfold smallest_user in Hlo. unfold largest_user in Hhi. rewrite E1 in Hlo. rewrite E2 in Hhi. by split.
Qed.

(** Files of the level, and the files of the next level their range meets. *)
Record inputs_ok (v : Version) (level : nat) (i0 i1 : list FileMetaData) : Prop := {
  io_nonempty : i0 <> [];
  io_files : i0 `sublist_of` level_files v level;
  io_next : exists r, GetRange ucmp i0 = Some r /\ range_of i0 r /\ i1 = List.filter (in_range r) (level_files v (level + 1));
  io_closed : level = 0%nat -> closed_inputs v i0
}.

Lemma filter_sublist {A} (p : A -> bool) l : List.filter p l `sublist_of` l.
Proof. induction l as [|x l IH]; cbn; [constructor|]. destruct (p x); by constructor. Qed.

(** The files of the level in a range, closed at level 0. *)
Lemma overlapping_ok v level r : exists fs, GetOverlappingInputs ucmp v level (Some r.1) (Some r.2) = Some fs /\ fs `sublist_of` level_files v level /\
  (level = 0%nat -> closed_inputs v fs) /\ forall f, f ∈ level_files v level -> in_range r f = true -> f ∈ fs.
Proof.
  destruct (decide (level = 0%nat)) as [->|Hl].
  - destruct (GetOverlappingInputs_level0 ucmp v (Some r.1) (Some r.2)) as (fs & E & Hcl). exists fs. split; [done|].
    pose proof (closure_closed _ _ _ _ Hcl) as Hc. destruct Hcl as (b & e & Hsub & _ & -> & _). split; [apply filter_sublist|]. split; [done|].
    intros f Hf Hr. apply list_elem_of_In, filter_In. split; [by apply list_elem_of_In|]. by eapply overlaps_mono; [apply _|exact Hsub|].
  - eexists. split; [by apply (GetOverlappingInputs_deep ucmp)|]. split; [apply filter_sublist|]. split; [done|].
    intros f Hf Hr. apply list_elem_of_In, filter_In. split; [by apply list_elem_of_In|done].
Qed.

Lemma expand_inputs_spec v level range all i0 i1 : inputs_ok v level i0 i1 -> GetRange ucmp i0 = Some range -> GetRange2 ucmp i0 i1 = Some all ->
  exists range' all' i0' i1', expand_inputs ucmp max_file_size v level range all i0 i1 = Some (range', all', i0', i1') /\
    inputs_ok v level i0' i1' /\ GetRange ucmp i0' = Some range' /\ GetRange2 ucmp i0' i1' = Some all'.
Proof.
  intros Hio Hr Ha. unfold expand_inputs. destruct i1 as [|f1 i1]; [by exists range, all, i0, []|].
  destruct (overlapping_ok v level all) as (e0 & -> & Hsub & Hcl & _). cbn [mbind option_bind].
  destruct (Nat.ltb_spec (length i0) (length e0)) as [Hlen|]; cbn [andb]; [|by exists range, all, i0, (f1 :: i1)].
  destruct (_ <? _); [|by exists range, all, i0, (f1 :: i1)]. assert (Hne : e0 <> []) by (intros ->; cbn in Hlen; lia).
  destruct (GetRange_spec e0 Hne) as (new & Enew & Hnew). rewrite Enew. cbn [mbind option_bind]. rewrite next_inputs. cbn [mbind option_bind].
  destruct (_ =? _)%nat; [|by exists range, all, i0, (f1 :: i1)].
  destruct (GetRange_spec (e0 ++ List.filter (in_range new) (level_files v (level + 1)))) as (all' & Eall & _); [by destruct e0|].
  unfold GetRange2. rewrite Eall. cbn [mbind option_bind]. do 4 eexists. split; [done|]. split; [|done]. split; try done. by exists new.
Qed.

(** The compaction set up: its inputs are closed, the deeper cursors start. *)
Lemma SetupOtherInputs_spec c vs : (c_level c + 1 < kNumLevels)%nat -> c_inputs0 c <> [] -> c_inputs0 c `sublist_of` level_files (vs_current vs) (c_level c) ->
  (c_level c = 0%nat -> closed_inputs (vs_current vs) (c_inputs0 c)) ->
  exists c' pointers, SetupOtherInputs ucmp max_file_size c vs = Some (c', set_pointers pointers vs) /\ inputs_ok (vs_current vs) (c_level c) (c_inputs0 c') (c_inputs1 c') /\
    c_level c' = c_level c /\ c_input_version c' = c_input_version c /\ c_level_ptrs c' = c_level_ptrs c /\ length pointers = length (vs_compact_pointer vs).
Proof.
  intros Hl Hne Hsub Hcl. unfold SetupOtherInputs. destruct (GetRange_spec _ Hne) as (range & Er & Hr). rewrite Er. cbn [mbind option_bind].
  rewrite next_inputs. cbn [mbind option_bind]. set (i1 := List.filter _ _).
  destruct (GetRange_spec (c_inputs0 c ++ i1)) as (all & Ea & _); [by destruct (c_inputs0 c)|]. unfold GetRange2. rewrite Ea. cbn [mbind option_bind].
  destruct (expand_inputs_spec (vs_current vs) (c_level c) range all (c_inputs0 c) i1) as (range' & all' & i0' & i1' & -> & Hio & Er' & Ea'); [by split; try done; exists range|done|done|].
  cbn [mbind option_bind]. assert (Hg : exists g, (if (c_level c + 2 <? kNumLevels)%nat then GetOverlappingInputs ucmp (vs_current vs) (c_level c + 2) (Some all'.1) (Some all'.2)
    else Some (c_grandparents c)) = Some g).
  { destruct (_ <? _)%nat; [|by eexists]. eexists. apply (GetOverlappingInputs_deep ucmp). lia. }
  destruct Hg as [g ->]. cbn [mbind option_bind]. do 2 eexists. split; [done|]. split; [done|]. split; [done|]. split; [done|]. split; [done|]. apply length_insert.
Qed.

(** What [Finalize] and [UpdateStats] leave for [PickCompaction]. *)
Record pickable (vs : VersionSet) : Prop := {
  pk_pointers : length (vs_compact_pointer vs) = kNumLevels;
  pk_score : let v := vs_current vs in (compaction_score_ v).2 <= (compaction_score_ v).1 ->
    0 <= compaction_level_ v /\ compaction_level_ v + 1 < Z.of_nat kNumLevels /\ level_files v (Z.to_nat (compaction_level_ v)) <> [];
  pk_seek : let v := vs_current vs in forall f, file_to_compact_ v = Some f ->
    0 <= file_to_compact_level_ v /\ file_to_compact_level_ v + 1 < Z.of_nat kNumLevels /\ f ∈ level_files v (Z.to_nat (file_to_compact_level_ v))
}.

Lemma pick_file_spec files pointer : files <> [] -> exists f, pick_file ucmp files pointer = Some f /\ f ∈ files.
Proof.
  intros Hne. unfold pick_file. destruct (List.find _ files) as [f|] eqn:E.
  - exists f. split; [done|]. apply find_some in E as [E _]. by apply list_elem_of_In.
  - destruct files as [|f files]; [done|]. exists f. split; [done|]. by left.
Qed.

Lemma pick_start_spec vs : pickable vs ->
  (pick_start ucmp vs = Some None /\ NeedsCompaction vs = false) \/
  exists level f, pick_start ucmp vs = Some (Some (level, f)) /\ (level + 1 < kNumLevels)%nat /\ f ∈ level_files (vs_current vs) level.
Proof.
  intros [Hp Hsc Hse]. unfold pick_start, NeedsCompaction. cbn zeta in Hsc, Hse. destruct (compaction_score_ (vs_current vs)) as [num den]. cbn [fst snd] in Hsc.
  destruct (Z.leb_spec den num) as [Hle|Hlt].
  - right. destruct (Hsc Hle) as (H0 & H1 & Hne). rewrite (proj2 (Z.leb_le _ _) H0), (proj2 (Z.ltb_lt _ _) H1). cbn [andb negb].
    destruct (lookup_lt_is_Some_2 (vs_compact_pointer vs) (Z.to_nat (compaction_level_ (vs_current vs)))) as [pointer ->]; [rewrite Hp; lia|]. cbn [mbind option_bind].
    destruct (pick_file_spec _ pointer Hne) as (f & -> & Hf). cbn [mbind option_bind]. exists (Z.to_nat (compaction_level_ (vs_current vs))), f. split; [done|]. split; [lia|done].
  - destruct (file_to_compact_ (vs_current vs)) as [f|]; [|by left]. right. destruct (Hse f eq_refl) as (H0 & H1 & Hf).
    rewrite (proj2 (Z.ltb_ge _ _) H0). do 2 eexists. split; [done|]. split; [lia|done].
Qed.

Lemma singleton_sublist {A} (x : A) l : x ∈ l -> [x] `sublist_of` l.
Proof. intros Hx. apply list_elem_of_split in Hx as (l1 & l2 & ->). apply sublist_inserts_l. constructor. apply sublist_nil_l. Qed.

Lemma take_version_eq c vs : take_version c vs = Some (c_set_version (Some (vs_current_id vs, vs_current vs)) c,
  set_live (vs_current vs) (vs_current_refs vs + 1) (vs_old vs) vs).
Proof. unfold take_version, version_Ref, live_version. by rewrite Nat.eqb_refl. Qed.

(** A compaction of the current version, which it pins. *)
Record compaction_ok (vs : VersionSet) (c : Compaction) : Prop := {
  co_level : (c_level c + 1 < kNumLevels)%nat;
  co_inputs : inputs_ok (vs_current vs) (c_level c) (c_inputs0 c) (c_inputs1 c);
  co_version : c_input_version c = Some (vs_current_id vs, vs_current vs);
  co_ptrs : c_level_ptrs c = replicate kNumLevels 0%nat
}.

Lemma PickCompaction_spec vs : version_ok ucmp (vs_current vs) -> pickable vs ->
  (PickCompaction ucmp max_file_size vs = Some (None, vs) /\ NeedsCompaction vs = false) \/
  exists c pointers, PickCompaction ucmp max_file_size vs =
      Some (Some c, set_pointers pointers (set_live (vs_current vs) (vs_current_refs vs + 1) (vs_old vs) vs)) /\
    compaction_ok vs c /\ length pointers = kNumLevels.
Proof.
  intros Hv Hpk. unfold PickCompaction. destruct (pick_start_spec vs Hpk) as [[-> Hn]|(level & f & -> & Hl & Hf)]; [by left|right]. cbn [mbind option_bind].
  rewrite take_version_eq. cbn [mbind option_bind]. set (vs1 := set_live _ _ _ vs). assert (Hsub := singleton_sublist f _ Hf).
  assert (Hi0 : exists i0, (if (level =? 0)%nat then
      range ← GetRange ucmp [f]; i0 ← GetOverlappingInputs ucmp (vs_current vs1) 0 (Some range.1) (Some range.2);
      match i0 with [] => None | _ => Some i0 end else Some [f]) = Some i0 /\ i0 <> [] /\ i0 `sublist_of` level_files (vs_current vs) level /\
      (level = 0%nat -> closed_inputs (vs_current vs) i0)).
  { destruct (Nat.eqb_spec level 0) as [->|Hne]; [|by exists [f]]. destruct (GetRange_spec [f] ltac:(done)) as (range & -> & Hr). cbn [mbind option_bind].
    destruct (overlapping_ok (vs_current vs) 0 range) as (fs & E & Hs & Hc & Hin). change (vs_current vs1) with (vs_current vs). rewrite E. cbn [mbind option_bind].
    assert (Hfs : f ∈ fs). { apply Hin; [done|]. apply (in_range_self [f] range f); [by left|done|]. destruct Hv as (_ & _ & H0 & _). rewrite Forall_forall in H0. by apply H0. }
    destruct fs as [|g fs]; [by apply elem_of_nil in Hfs|]. exists (g :: fs). split; [done|]. split; [done|]. by split. }
  destruct Hi0 as (i0 & E0 & Hne & Hs & Hc). cbn [c_inputs0 c_set_version c_set_inputs new_Compaction]. cbn [c_inputs0 c_set_version c_set_inputs new_Compaction] in E0. rewrite E0. cbn [mbind option_bind].
  destruct (SetupOtherInputs_spec (c_set_inputs i0 [] (c_set_version (Some (vs_current_id vs, vs_current vs)) (c_set_inputs [f] [] (new_Compaction max_file_size level)))) vs1)
    as (c & pointers & E & Hio & El & Ev & Ep & Elen); [done..|]. cbn [c_inputs1 c_set_version c_set_inputs new_Compaction]. cbn [c_set_inputs] in E. rewrite E. cbn [mbind option_bind].
  exists c, pointers. split; [done|]. cbn in El, Ev, Ep. split; [|rewrite Elen; apply Hpk]. split; [by rewrite El|by rewrite El|done|done].
Qed.

End Inputs.

(** ** The score of a version *)

Lemma level_score_pos v level : 0 < (level_score v level).2.
Proof.
  unfold level_score. destruct (level =? 0)%nat; [done|]. cbn [snd].
  assert (H : forall l, 0 < MaxBytesForLevel l) by (induction l as [|[|l] IH]; [done|done|]; change (0 < MaxBytesForLevel (S l) * 10); lia). apply H.
Qed.

Lemma level_score_nonempty v level : (level_score v level).2 <= (level_score v level).1 -> level_files v level <> [].
Proof.
  pose proof (level_score_pos v level) as Hp. unfold level_score in *. intros Hle E. destruct (level =? 0)%nat; cbn [fst snd] in *; rewrite E in Hle;
    [change (kL0_CompactionTrigger <= 0) in Hle|change (MaxBytesForLevel level <= 0) in Hle]; lia.
Qed.

Lemma Finalize_score v : let v' := Finalize v in (compaction_score_ v').2 <= (compaction_score_ v').1 ->
  0 <= compaction_level_ v' /\ compaction_level_ v' + 1 < Z.of_nat kNumLevels /\ level_files v' (Z.to_nat (compaction_level_ v')) <> [].
Proof.
  cbn zeta. unfold Finalize. assert (H : forall levels best, (forall l, l ∈ levels -> (l + 1 < kNumLevels)%nat) ->
    (best = (-1, (-1, 1)) \/ exists l, (l + 1 < kNumLevels)%nat /\ best = (Z.of_nat l, level_score v l)) ->
    let r := fold_left (Finalize_step v) levels best in r = (-1, (-1, 1)) \/ exists l, (l + 1 < kNumLevels)%nat /\ r = (Z.of_nat l, level_score v l)).
  { induction levels as [|l levels IH]; intros best Hl Hb; [done|]. cbn [fold_left]. apply IH; [intros x Hx; apply Hl; by right|].
    unfold Finalize_step. destruct (score_gt _ _); [|done]. right. exists l. split; [apply Hl; by left|done]. }
  destruct (H (seq 0 (kNumLevels - 1)) (-1, (-1, 1))) as [->|(l & Hl & ->)]; [intros l Hl; apply elem_of_seq in Hl; lia|by left|cbn; intros ?; exfalso; lia|].
  cbn [compaction_score_ compaction_level_]. intros Hle. rewrite Nat2Z.id. split; [lia|]. split; [lia|]. by apply (level_score_nonempty v).
Qed.

(** C33. The compaction chosen for a version that [Finalize] has scored: either
    nothing needs compacting, or its inputs are files of one level below the
    last together with exactly the files of the next level that share a user
    key with their range; at level 0 no other file shares a user key with that
    range. The version stays pinned. *)
Theorem pick_compaction_closed ucmp max_file_size vs v : ComparatorLaws ucmp -> vs_current vs = Finalize v -> version_ok ucmp v ->
  length (vs_compact_pointer vs) = kNumLevels ->
  (forall f, file_to_compact_ v = Some f -> 0 <= file_to_compact_level_ v /\ file_to_compact_level_ v + 1 < Z.of_nat kNumLevels /\
     f ∈ level_files v (Z.to_nat (file_to_compact_level_ v))) ->
  exists r vs', PickCompaction ucmp max_file_size vs = Some (r, vs') /\
    match r with
    | None => NeedsCompaction vs = false
    | Some c => (c_level c + 1 < kNumLevels)%nat /\ inputs_ok ucmp v (c_level c) (c_inputs0 c) (c_inputs1 c) /\ vs_current_refs vs' = vs_current_refs vs + 1
    end.
Proof.
  intros Hc Ev Hv Hp Hseek. assert (Hfiles : forall level, level_files (Finalize v) level = level_files v level) by (intros level; unfold Finalize; by destruct (fold_left _ _ _)).
  assert (Hv' : version_ok ucmp (vs_current vs)).
  { rewrite Ev. unfold Finalize. destruct (fold_left _ _ _). exact Hv. }
  assert (Hpk : pickable vs).
  { split; [done|rewrite Ev; apply Finalize_score|]. cbn zeta. rewrite Ev. intros f. rewrite Hfiles. unfold Finalize. destruct (fold_left _ _ _). apply Hseek. }
  destruct (PickCompaction_spec ucmp max_file_size vs Hv' Hpk) as [[-> Hn]|(c & pointers & -> & [Hl Hio _ _] & _)]; [by exists None, vs|].
  exists (Some c). eexists. split; [done|]. split; [done|]. split; [|done]. rewrite Ev in Hio. destruct Hio as [H1 H2 H3 H4]. unfold closed_inputs in H4.
  rewrite Hfiles in H2. setoid_rewrite Hfiles in H3. setoid_rewrite Hfiles in H4. by split.
Qed.

(** ** A user key that spans two files

    The entries of one user key may fill the end of a file and the beginning
    of the next one of its level. A compaction that takes only the first file
    moves the newer entries below the older ones. *)

(** The edit of a trivial move in [BackgroundCompaction]. *)
Definition move_edit (c : Compaction) (f : FileMetaData) : VersionEdit :=
  AddFile (Z.of_nat (c_level c) + 1) (number f) (file_size f) (smallest f) (largest f) (DeleteFile (Z.of_nat (c_level c)) (number f) (c_edit c)).

Module Boundary.

Definition first : FileMetaData := new_file 8 100 (sample_key "b" 9) (sample_key "k" 9).
Definition second : FileMetaData := new_file 3 100 (sample_key "k" 2) (sample_key "k" 2).
Definition before : Version := mkVersion [[]; [first; second]; []; []; []; []; []] (Some first) 1 (-1, 1) (-1).
Definition content (f : FileMetaData) : list Entry :=
  if number f =? 8 then [mkEntry 9 kTypeValue (lit "b") (lit "x"); mkEntry 9 kTypeValue (lit "k") (lit "new")] else [mkEntry 2 kTypeValue (lit "k") (lit "old")].
Definition get (num size : Z) (k : bytes) (tc : unit) : option (Status * option (bytes * bytes) * unit) :=
  Some (Status_OK, kv <$> seek_entry BytewiseComparator (content (new_file num size [] [])) k, tc).
Definition set_before : VersionSet := set_live before 1 [] new_VersionSet.

(** What [Version::Get] finds for [k]. *)
Definition read (v : Version) : option (Status * bytes) :=
  r ← Version_Get BytewiseComparator get v (make_LookupKey (lit "k") 9) [] ();
  Some (r.1.1.1, r.1.2).

Lemma files_are_ok : file_ok BytewiseComparator first /\ file_ok BytewiseComparator second.
Proof. split; (split; [|split]); try (apply sample_ikey_ok, sample_seq; lia); vm_compute; discriminate. Qed.

Lemma levels_ok (l0 l1 l2 : list FileMetaData) f n sc lv : Forall (file_ok BytewiseComparator) l0 -> level_ok BytewiseComparator l1 -> level_ok BytewiseComparator l2 ->
  zlen l0 < 2 ^ 31 -> zlen l1 < 2 ^ 31 -> zlen l2 < 2 ^ 31 -> version_ok BytewiseComparator (mkVersion [l0; l1; l2; []; []; []; []] f n sc lv).
Proof.
  intros H0 H1 H2 S0 S1 S2. assert (Hn : level_ok BytewiseComparator []) by (by split; constructor).
  split; [done|]. split; [|split; [exact H0|]]; intros level; do 7 (destruct level as [|level]; [done|]); done.
Qed.

Lemma before_ok : version_ok BytewiseComparator before.
Proof. destruct files_are_ok. apply levels_ok; try done; split; repeat (apply SSorted_cons || apply SSorted_nil || apply Forall_cons_2 || apply Forall_nil_2); done. Qed.

Lemma after_ok f1 f2 : file_ok BytewiseComparator f1 -> file_ok BytewiseComparator f2 ->
  version_ok BytewiseComparator (mkVersion [[]; [f2]; [f1]; []; []; []; []] None (-1) (-1, 1) (-1)).
Proof. intros ??. apply levels_ok; try done; split; repeat (apply SSorted_cons || apply SSorted_nil || apply Forall_cons_2 || apply Forall_nil_2); done. Qed.

Lemma before_newer : newer_first BytewiseComparator content before.
Proof.
  split; [|split; [by intros f1 f2 e1 e2 ?%not_elem_of_nil|constructor]]. intros l1 l2 e1 e2 Hl H1 H2.
  destruct l2 as [|[|l2]]; [by apply not_elem_of_nil in H2| |do 5 (destruct l2 as [|l2]; [by apply not_elem_of_nil in H2|]); by apply not_elem_of_nil in H2].
  assert (l1 = 0%nat) as -> by lia. by apply not_elem_of_nil in H1.
Qed.

End Boundary.

(** The chosen compaction is a trivial move of the first file alone; the
    version it makes answers a lookup with the older value. *)
Theorem move_reorders_user_key :
  version_ok BytewiseComparator Boundary.before /\ newer_first BytewiseComparator Boundary.content Boundary.before /\
  Boundary.read Boundary.before = Some (Status_OK, lit "new") /\
  exists c vs v', PickCompaction BytewiseComparator 2097152 Boundary.set_before = Some (Some c, vs) /\ c_inputs0 c = [Boundary.first] /\
    IsTrivialMove 2097152 c = true /\
    SaveTo BytewiseComparator (Apply BytewiseComparator (move_edit c Boundary.first) (new_Builder (vs_compact_pointer vs) (vs_current vs))) new_Version = Some v' /\
    version_ok BytewiseComparator v' /\ Boundary.read v' = Some (Status_OK, lit "old").
Proof.
  split; [exact Boundary.before_ok|]. split; [exact Boundary.before_newer|]. split; [by vm_compute|].
  do 3 eexists. split; [vm_compute; reflexivity|]. split; [done|]. split; [by vm_compute|]. split; [vm_compute; reflexivity|]. split; [apply Boundary.after_ok; apply Boundary.files_are_ok|by vm_compute].
Qed.

Lemma pick_compaction_closed_witness :
  let vs := set_live (Finalize Boundary.before) 1 [] new_VersionSet in
  NeedsCompaction vs = true /\
  exists r vs', PickCompaction BytewiseComparator 2097152 vs = Some (r, vs') /\
    match r with
    | None => NeedsCompaction vs = false
    | Some c => (c_level c + 1 < kNumLevels)%nat /\ inputs_ok BytewiseComparator Boundary.before (c_level c) (c_inputs0 c) (c_inputs1 c) /\
        vs_current_refs vs' = vs_current_refs vs + 1
    end.
Proof.
  intros vs. split; [by vm_compute|].
  refine (pick_compaction_closed BytewiseComparator 2097152 vs Boundary.before _ eq_refl Boundary.before_ok eq_refl _).
  intros f [= <-]. split; [vm_compute; discriminate|]. split; [by vm_compute|]. left.
Defined.
