(* ===== verification/Iterator.v ===== *)
(** * Iterators: include/leveldb/iterator.h, table/iterator.cpp

    The [Iterator] interface as a record of operations on a state, with what
    it promises - a cursor in a list of entries - as the class [IteratorSpec].
    The iterators of blocks, tables, memtables, merges and versions are
    instances, and each is proved against the interface of the iterators it
    uses. An operation returns [None] when an assertion of the source fails. *)

From S2P Require Import Prelude Coding Status.

(** ** The interface *)

Record Iterator (S : Type) := {
  it_Valid : S -> bool;
  it_SeekToFirst : S -> option S;
  it_SeekToLast : S -> option S;
  it_Seek : bytes -> S -> option S;
  it_Next : S -> option S;
  it_Prev : S -> option S;
  it_key : S -> option bytes;
  it_value : S -> option bytes;
  it_status : S -> Status
}.
Arguments it_Valid {S}.
Arguments it_SeekToFirst {S}.
Arguments it_SeekToLast {S}.
Arguments it_Seek {S}.
Arguments it_Next {S}.
Arguments it_Prev {S}.
Arguments it_key {S}.
Arguments it_value {S}.
Arguments it_status {S}.

(** ** The contract *)

(** A position in a list of entries, [None] when the iterator is not valid. *)
Abbreviation entries := (list (bytes * bytes)).

Definition first_pos (es : entries) : option nat := if es is [] then None else Some 0%nat.
Definition last_pos (es : entries) : option nat := if es is [] then None else Some (length es - 1)%nat.
Definition next_pos (es : entries) (i : nat) : option nat :=
  if (S i <? length es)%nat then Some (S i) else None.
Definition prev_pos (i : nat) : option nat := match i with O => None | S i => Some i end.

(** The first entry at or behind [target]. *)
Fixpoint seek_pos (cmp : bytes -> bytes -> comparison) (es : entries) (target : bytes) : option nat :=
  match es with
  | [] => None
  | e :: es => if is_lt (cmp e.1 target) then S <$> seek_pos cmp es target else Some 0%nat
  end.

(** [pos s p]: the state [s] is good and stands at [p]; [T] are the targets
    [Seek] accepts. *)
Class IteratorSpecOn {S} (T : bytes -> Prop) (it : Iterator S) (cmp : bytes -> bytes -> comparison) (es : entries)
    (pos : S -> option nat -> Prop) : Prop := {
  spec_valid : forall s p, pos s p -> it_Valid it s = bool_decide (is_Some p);
  spec_lt : forall s i, pos s (Some i) -> (i < length es)%nat;
  spec_key : forall s i e, pos s (Some i) -> es !! i = Some e -> it_key it s = Some e.1;
  spec_value : forall s i e, pos s (Some i) -> es !! i = Some e -> it_value it s = Some e.2;
  spec_first : forall s p, pos s p -> exists s', it_SeekToFirst it s = Some s' /\ pos s' (first_pos es);
  spec_last : forall s p, pos s p -> exists s', it_SeekToLast it s = Some s' /\ pos s' (last_pos es);
  spec_seek : forall s p t, T t -> pos s p -> exists s', it_Seek it t s = Some s' /\ pos s' (seek_pos cmp es t);
  spec_next : forall s i, pos s (Some i) -> exists s', it_Next it s = Some s' /\ pos s' (next_pos es i);
  spec_prev : forall s i, pos s (Some i) -> exists s', it_Prev it s = Some s' /\ pos s' (prev_pos i);
  spec_status : forall s p, pos s p -> it_status it s = Status_OK
}.

Abbreviation IteratorSpec := (IteratorSpecOn (fun _ => True)).

(** The lengths of keys are stored in 32 bits. *)
Definition small_target (t : bytes) : Prop := zlen t < 2 ^ 32.

(** Entries in strictly increasing order. *)
Definition sorted_keys (cmp : bytes -> bytes -> comparison) (es : entries) : Prop :=
  StronglySorted (fun a b => cmp a.1 b.1 = Lt) es.

(** ** Empty and error iterators: the state is the status *)

Definition EmptyIterator : Iterator Status := {|
  it_Valid := fun _ => false;
  it_SeekToFirst := fun s => Some s;
  it_SeekToLast := fun s => Some s;
  it_Seek := fun _ s => Some s;
  it_Next := fun _ => None;
  it_Prev := fun _ => None;
  it_key := fun _ => None;
  it_value := fun _ => None;
  it_status := fun s => s
|}.

Definition NewEmptyIterator : Status := Status_OK.
Definition NewErrorIterator (status : Status) : Status := status.

#[global] Instance EmptyIterator_spec cmp : IteratorSpec EmptyIterator cmp [] (fun s p => s = NewEmptyIterator /\ p = None).
Proof.
  split; cbn.
  - by intros s p [-> ->].
  - by intros s i [_ [=]].
  - by intros s i e [_ [=]].
  - by intros s i e [_ [=]].
  - intros s p [-> ->]. by eexists.
  - intros s p [-> ->]. by eexists.
  - intros s p t _ [-> ->]. by eexists.
  - by intros s i [_ [=]].
  - by intros s i [_ [=]].
  - by intros s p [-> ->].
Qed.

(** ** Cleanup functions: run by the destructor from the head of the list *)

Definition RegisterCleanup {A} (func : A) (cleanup : list A) : list A :=
  match cleanup with
  | [] => [func]
  | c :: rest => c :: func :: rest
  end.

(** Every registered function is run exactly once. *)
Lemma RegisterCleanup_perm {A} (fs : list A) : fold_left (fun c f => RegisterCleanup f c) fs [] ≡ₚ fs.
Proof.
  assert (H : forall (fs c : list A), fold_left (fun c f => RegisterCleanup f c) fs c ≡ₚ c ++ fs); [|apply H].
  clear fs. induction fs as [|f fs IH]; intros c; [by rewrite app_nil_r|]. cbn [fold_left]. rewrite IH.
  rewrite (Permutation_app_comm c). cbn. rewrite (Permutation_app_comm fs). destruct c; cbn; [done|]. apply perm_swap.
Qed.

(** ** Positions *)

Lemma first_pos_Some es i : first_pos es = Some i -> i = 0%nat /\ (0 < length es)%nat.
Proof. destruct es; [done|]. intros [= <-]. cbn. split; [done|lia]. Qed.

Lemma first_pos_None es : first_pos es = None -> length es = 0%nat.
Proof. by destruct es. Qed.

Lemma last_pos_Some es i : last_pos es = Some i -> S i = length es.
Proof. destruct es; [done|]. intros [= <-]. cbn. lia. Qed.

Lemma last_pos_None es : last_pos es = None -> length es = 0%nat.
Proof. by destruct es. Qed.

Lemma last_pos_prev es : last_pos es = prev_pos (length es).
Proof. destruct es as [|e es]; [done|]. cbn. f_equal. lia. Qed.

Lemma first_pos_0 (es : entries) : first_pos es = if (0 <? length es)%nat then Some 0%nat else None.
Proof. by destruct es. Qed.

Lemma seek_pos_at cmp es t i e : (forall j f, (j < i)%nat -> es !! j = Some f -> cmp f.1 t = Lt) ->
  es !! i = Some e -> cmp e.1 t <> Lt -> seek_pos cmp es t = Some i.
Proof.
  revert i. induction es as [|f es IH]; intros i Hlt He Hge; [done|]. destruct i as [|i]; cbn.
  - injection He as ->. by destruct (cmp e.1 t).
  - rewrite (Hlt 0%nat f) by (done || lia). cbn. rewrite (IH i); [done| |done|done].
    intros j g Hj Hg. apply (Hlt (S j)); [lia|done].
Qed.

Lemma seek_pos_none cmp es t : (forall j f, es !! j = Some f -> cmp f.1 t = Lt) -> seek_pos cmp es t = None.
Proof.
  induction es as [|f es IH]; intros Hlt; [done|]. cbn. rewrite (Hlt 0%nat f) by done. cbn.
  rewrite IH; [done|]. intros j g Hg. by apply (Hlt (S j)).
Qed.

Lemma seek_pos_inv cmp es t : match seek_pos cmp es t with
  | Some i => exists e, es !! i = Some e /\ cmp e.1 t <> Lt /\ forall j f, (j < i)%nat -> es !! j = Some f -> cmp f.1 t = Lt
  | None => forall j f, es !! j = Some f -> cmp f.1 t = Lt
  end.
Proof.
  induction es as [|e es IH]; cbn; [done|]. destruct (is_lt (cmp e.1 t)) eqn:E.
  - assert (cmp e.1 t = Lt) by (by destruct (cmp e.1 t)). destruct (seek_pos cmp es t) as [i|]; cbn.
    + destruct IH as (f & Hf & Hge & Hlt). exists f. split; [done|]. split; [done|].
      intros [|j] g Hj Hg; [by injection Hg as <-|]. apply (Hlt j); [lia|done].
    + intros [|j] g Hg; [by injection Hg as <-|]. by apply (IH j).
  - exists e. split; [done|]. split; [by intros H; rewrite H in E|]. intros j f Hj. lia.
Qed.

Lemma sorted_keys_suffix cmp a b : sorted_keys cmp (a ++ b) -> sorted_keys cmp b.
Proof. induction a as [|e a IH]; [done|]. intros [H _]%StronglySorted_inv. by apply IH. Qed.

Lemma sorted_keys_prefix cmp a b : sorted_keys cmp (a ++ b) -> sorted_keys cmp a.
Proof.
  induction a as [|e a IH]; intros H; [constructor|]. apply StronglySorted_inv in H as [H He].
  constructor; [by apply IH|]. by apply Forall_app in He as [? _].
Qed.

Lemma sorted_keys_lookup cmp es i j a b : sorted_keys cmp es -> es !! i = Some a -> es !! j = Some b ->
  (i < j)%nat -> cmp a.1 b.1 = Lt.
Proof.
  intros Hs. revert i j. induction Hs as [|e es Hs IH Hall]; intros i j Ha Hb Hij; [done|].
  destruct i as [|i], j as [|j]; try lia; cbn in *.
  - injection Ha as ->. rewrite Forall_forall in Hall. apply Hall. by eapply list_elem_of_lookup_2.
  - apply (IH i j); [done|done|lia].
Qed.

Lemma sorted_keys_app cmp a b : sorted_keys cmp a -> sorted_keys cmp b -> (forall x y, x ∈ a -> y ∈ b -> cmp x.1 y.1 = Lt) -> sorted_keys cmp (a ++ b).
Proof.
  intros Ha Hb Hab. induction Ha as [|e a Ha IH Hall]; [done|]. cbn. constructor.
  - apply IH. intros x y Hx Hy. apply Hab; [by right|done].
  - apply Forall_app. split; [done|]. apply Forall_forall. intros y Hy. apply Hab; [by left|done].
Qed.

Lemma sorted_keys_of_lookup (c : bytes -> bytes -> comparison) (es : entries) :
  (forall i j a b, (i < j)%nat -> es !! i = Some a -> es !! j = Some b -> c a.1 b.1 = Lt) -> sorted_keys c es.
Proof.
  induction es as [|e es IH]; intros H; constructor.
  - apply IH. intros i j a b Hij Ha Hb. by apply (H (S i) (S j)); [lia|..].
  - apply Forall_forall. intros x [j Hj]%list_elem_of_lookup. by apply (H 0%nat (S j)); [lia|..].
Qed.

(** ** An iterator of one of two kinds behind the interface *)

Definition SumIterator {A B} (ia : Iterator A) (ib : Iterator B) : Iterator (A + B) := {|
  it_Valid := fun s => match s with inl a => it_Valid ia a | inr b => it_Valid ib b end;
  it_SeekToFirst := fun s => match s with inl a => inl <$> it_SeekToFirst ia a | inr b => inr <$> it_SeekToFirst ib b end;
  it_SeekToLast := fun s => match s with inl a => inl <$> it_SeekToLast ia a | inr b => inr <$> it_SeekToLast ib b end;
  it_Seek := fun t s => match s with inl a => inl <$> it_Seek ia t a | inr b => inr <$> it_Seek ib t b end;
  it_Next := fun s => match s with inl a => inl <$> it_Next ia a | inr b => inr <$> it_Next ib b end;
  it_Prev := fun s => match s with inl a => inl <$> it_Prev ia a | inr b => inr <$> it_Prev ib b end;
  it_key := fun s => match s with inl a => it_key ia a | inr b => it_key ib b end;
  it_value := fun s => match s with inl a => it_value ia a | inr b => it_value ib b end;
  it_status := fun s => match s with inl a => it_status ia a | inr b => it_status ib b end
|}.

Definition pos_inl {A B} (pos : A -> option nat -> Prop) (s : A + B) (p : option nat) : Prop :=
  match s with inl a => pos a p | inr _ => False end.
Definition pos_inr {A B} (pos : B -> option nat -> Prop) (s : A + B) (p : option nat) : Prop :=
  match s with inl _ => False | inr b => pos b p end.

Lemma SumIterator_inl {A B} (ia : Iterator A) (ib : Iterator B) cmp es pos : IteratorSpec ia cmp es pos ->
  IteratorSpec (SumIterator ia ib) cmp es (pos_inl pos).
Proof.
  intros Hs. assert (Hop : forall (op : A -> option A) a (P : A -> Prop), (exists a', op a = Some a' /\ P a') ->
    exists s' : A + B, inl <$> op a = Some s' /\ match s' with inl a' => P a' | inr _ => False end).
  { intros op a P (a' & -> & HP). by exists (inl a'). }
  split; intros [a|b]; cbn; try done.
  - intros p. apply spec_valid.
  - intros i. apply spec_lt.
  - intros i e. apply spec_key.
  - intros i e. apply spec_value.
  - intros p Hp. apply Hop. by eapply spec_first.
  - intros p Hp. apply Hop. by eapply spec_last.
  - intros p t Ht Hp. apply Hop. by eapply spec_seek.
  - intros i Hp. apply Hop. by eapply spec_next.
  - intros i Hp. apply Hop. by eapply spec_prev.
  - intros p. apply spec_status.
Qed.

Lemma SumIterator_inr {A B} (ia : Iterator A) (ib : Iterator B) cmp es pos : IteratorSpec ib cmp es pos ->
  IteratorSpec (SumIterator ia ib) cmp es (pos_inr pos).
Proof.
  intros Hs. assert (Hop : forall (op : B -> option B) b (P : B -> Prop), (exists b', op b = Some b' /\ P b') ->
    exists s' : A + B, inr <$> op b = Some s' /\ match s' with inl _ => False | inr b' => P b' end).
  { intros op b P (b' & -> & HP). by exists (inr b'). }
  split; intros [a|b]; cbn; try done.
  - intros p. apply spec_valid.
  - intros i. apply spec_lt.
  - intros i e. apply spec_key.
  - intros i e. apply spec_value.
  - intros p Hp. apply Hop. by eapply spec_first.
  - intros p Hp. apply Hop. by eapply spec_last.
  - intros p t Ht Hp. apply Hop. by eapply spec_seek.
  - intros i Hp. apply Hop. by eapply spec_next.
  - intros i Hp. apply Hop. by eapply spec_prev.
  - intros p. apply spec_status.
Qed.

(** A family of good states. *)
Lemma IteratorSpec_exists {S Z} (it : Iterator S) cmp es (P : Z -> Prop) (pos : Z -> S -> option nat -> Prop) :
  (forall z, P z -> IteratorSpec it cmp es (pos z)) -> IteratorSpec it cmp es (fun s p => exists z, P z /\ pos z s p).
Proof.
  intros Hs. assert (Hop : forall (o : option S) z p, P z -> (exists s', o = Some s' /\ pos z s' p) ->
    exists s', o = Some s' /\ exists z, P z /\ pos z s' p) by (intros o z p Hz (s' & Ho & Hp); eauto).
  split.
  - intros s p (z & Hz & Hp). pose proof (Hs z Hz). by eapply spec_valid.
  - intros s i (z & Hz & Hp). pose proof (Hs z Hz). by eapply spec_lt.
  - intros s i e (z & Hz & Hp). pose proof (Hs z Hz). by apply spec_key.
  - intros s i e (z & Hz & Hp). pose proof (Hs z Hz). by apply spec_value.
  - intros s p (z & Hz & Hp). pose proof (Hs z Hz). apply (Hop _ z); [done|]. by eapply spec_first.
  - intros s p (z & Hz & Hp). pose proof (Hs z Hz). apply (Hop _ z); [done|]. by eapply spec_last.
  - intros s p t Ht (z & Hz & Hp). pose proof (Hs z Hz). apply (Hop _ z); [done|]. by eapply spec_seek.
  - intros s i (z & Hz & Hp). pose proof (Hs z Hz). apply (Hop _ z); [done|]. by eapply spec_next.
  - intros s i (z & Hz & Hp). pose proof (Hs z Hz). apply (Hop _ z); [done|]. by eapply spec_prev.
  - intros s p (z & Hz & Hp). pose proof (Hs z Hz). by eapply spec_status.
Qed.

(** ** Positions by a property of keys: the first and the last entry with it *)

Definition at_first (P : bytes -> Prop) (es : entries) (p : option nat) : Prop :=
  match p with
  | Some i => exists e, es !! i = Some e /\ P e.1 /\ forall j f, (j < i)%nat -> es !! j = Some f -> ~ P f.1
  | None => forall j f, es !! j = Some f -> ~ P f.1
  end.

Definition at_last (P : bytes -> Prop) (es : entries) (p : option nat) : Prop :=
  match p with
  | Some i => exists e, es !! i = Some e /\ P e.1 /\ forall j f, (i < j)%nat -> es !! j = Some f -> ~ P f.1
  | None => forall j f, es !! j = Some f -> ~ P f.1
  end.

Lemma at_first_ext P Q es p : (forall e, e ∈ es -> P e.1 <-> Q e.1) -> at_first P es p -> at_first Q es p.
Proof.
  intros H. destruct p as [i|]; cbn.
  - intros (e & He & HP & Hn). exists e. split; [done|]. split; [apply H; [by eapply list_elem_of_lookup_2|done]|].
    intros j f Hj Hf HQ. apply (Hn j f Hj Hf). apply H; [by eapply list_elem_of_lookup_2|done].
  - intros Hn j f Hf HQ. apply (Hn j f Hf). apply H; [by eapply list_elem_of_lookup_2|done].
Qed.

Lemma at_last_ext P Q es p : (forall e, e ∈ es -> P e.1 <-> Q e.1) -> at_last P es p -> at_last Q es p.
Proof.
  intros H. destruct p as [i|]; cbn.
  - intros (e & He & HP & Hn). exists e. split; [done|]. split; [apply H; [by eapply list_elem_of_lookup_2|done]|].
    intros j f Hj Hf HQ. apply (Hn j f Hj Hf). apply H; [by eapply list_elem_of_lookup_2|done].
  - intros Hn j f Hf HQ. apply (Hn j f Hf). apply H; [by eapply list_elem_of_lookup_2|done].
Qed.

Lemma at_first_unique P es p q : at_first P es p -> at_first P es q -> p = q.
Proof.
  destruct p as [i|], q as [j|]; cbn.
  - intros (e & He & HP & Hn) (f & Hf & HQ & Hm). f_equal. destruct (Nat.lt_trichotomy i j) as [H|[H|H]]; [|done|].
    + by destruct (Hm i e H He).
    + by destruct (Hn j f H Hf).
  - intros (e & He & HP & _) Hn. by destruct (Hn i e He).
  - intros Hn (e & He & HP & _). by destruct (Hn j e He).
  - done.
Qed.

Lemma at_last_unique P es p q : at_last P es p -> at_last P es q -> p = q.
Proof.
  destruct p as [i|], q as [j|]; cbn.
  - intros (e & He & HP & Hn) (f & Hf & HQ & Hm). f_equal. destruct (Nat.lt_trichotomy i j) as [H|[H|H]]; [|done|].
    + by destruct (Hn j f H Hf).
    + by destruct (Hm i e H He).
  - intros (e & He & HP & _) Hn. by destruct (Hn i e He).
  - intros Hn (e & He & HP & _). by destruct (Hn j e He).
  - done.
Qed.

Lemma at_first_all es : at_first (fun _ => True) es (first_pos es).
Proof. destruct es as [|e es]; cbn; [done|]. exists e. split; [done|]. split; [done|]. intros j f Hj. lia. Qed.

Lemma at_last_all es : at_last (fun _ => True) es (last_pos es).
Proof.
  destruct (last_pos es) as [i|] eqn:E.
  - apply last_pos_Some in E. destruct (lookup_lt_is_Some_2 es i ltac:(lia)) as [e He]. exists e. split; [done|]. split; [done|].
    intros j f Hj Hf. apply lookup_lt_Some in Hf. lia.
  - apply last_pos_None in E. intros j f Hf. apply lookup_lt_Some in Hf. lia.
Qed.

Section Positions.
Context (cmp : bytes -> bytes -> comparison) `{!TotalCmp cmp}.

Lemma at_first_seek es t : at_first (fun k => cmp k t <> Lt) es (seek_pos cmp es t).
Proof.
  pose proof (seek_pos_inv cmp es t) as H. destruct (seek_pos cmp es t) as [i|]; cbn.
  - destruct H as (e & He & Hge & Hlt). exists e. split; [done|]. split; [done|]. intros j f Hj Hf Hn. by apply Hn, (Hlt j).
  - intros j f Hf Hn. by apply Hn, (H j).
Qed.

Context (es : entries) (Hsorted : sorted_keys cmp es).

Lemma at_first_next i e : es !! i = Some e -> at_first (fun k => cmp k e.1 = Gt) es (next_pos es i).
Proof.
  intros He. unfold next_pos. destruct (Nat.ltb_spec (S i) (length es)) as [Hlt|Hge]; cbn.
  - destruct (lookup_lt_is_Some_2 es (S i) Hlt) as [f Hf]. exists f. split; [done|].
    split; [apply cmp_gt_lt; [done|]; apply (sorted_keys_lookup cmp es i (S i)); (done || lia)|].
    intros j g Hj Hg Hgt. apply cmp_gt_lt in Hgt; [|done]. destruct (decide (j = i)) as [->|].
    + rewrite He in Hg. injection Hg as <-. by apply (cmp_lt_irrefl cmp) in Hgt.
    + pose proof (sorted_keys_lookup cmp es j i g e Hsorted Hg He ltac:(lia)) as H.
      apply (cmp_lt_irrefl cmp e.1). by apply (cmp_lt_trans cmp _ g.1).
  - intros j g Hg Hgt. apply cmp_gt_lt in Hgt; [|done]. apply lookup_lt_Some in Hg as Hl. destruct (decide (j = i)) as [->|].
    + rewrite He in Hg. injection Hg as <-. by apply (cmp_lt_irrefl cmp) in Hgt.
    + pose proof (sorted_keys_lookup cmp es j i g e Hsorted Hg He ltac:(lia)) as H.
      apply (cmp_lt_irrefl cmp e.1). by apply (cmp_lt_trans cmp _ g.1).
Qed.

(** The entry in front of the first one at or behind a key. *)
Lemma at_last_prev k p : at_first (fun x => cmp x k <> Lt) es p ->
  at_last (fun x => cmp x k = Lt) es (match p with Some i => prev_pos i | None => last_pos es end).
Proof.
  assert (Hbehind : forall i e, es !! i = Some e -> cmp e.1 k <> Lt -> forall j f, (i <= j)%nat -> es !! j = Some f -> cmp f.1 k <> Lt).
  { intros i e He Hge j f Hj Hf Hlt. destruct (decide (i = j)) as [->|]; [congruence|].
    apply Hge. apply (cmp_lt_trans cmp _ f.1); [|done]. apply (sorted_keys_lookup cmp es i j); (done || lia). }
  destruct p as [i|].
  - intros (e & He & Hge & Hn). destruct i as [|i]; cbn.
    + intros j f Hf. apply (Hbehind 0%nat e He Hge j f); [lia|done].
    + apply lookup_lt_Some in He as Hl. destruct (lookup_lt_is_Some_2 es i ltac:(lia)) as [f Hf]. exists f. split; [done|].
      split; [destruct (cmp f.1 k) eqn:E; [|done|]; destruct (Hn i f ltac:(lia) Hf); by rewrite E|].
      intros j g Hj Hg. by apply (Hbehind (S i) e He Hge j g).
  - intros Hn. apply (at_last_ext (fun _ => True)); [|apply at_last_all]. intros e He. split; [|done]. intros _.
    apply list_elem_of_lookup in He as [j Hj]. destruct (cmp e.1 k) eqn:E; [|done|]; destruct (Hn j e Hj); by rewrite E.
Qed.

Lemma at_first_own i e : es !! i = Some e -> at_first (fun k => cmp k e.1 <> Lt) es (Some i).
Proof.
  intros He. exists e. split; [done|]. split; [by apply (cmp_lt_irrefl cmp)|]. intros j f Hj Hf Hn. apply Hn.
  by apply (sorted_keys_lookup cmp es j i).
Qed.

Lemma at_last_own i e : es !! i = Some e -> at_last (fun k => cmp k e.1 <> Gt) es (Some i).
Proof.
  intros He. exists e. split; [done|]. split; [by rewrite (cmp_refl cmp)|]. intros j f Hj Hf Hn. apply Hn.
  apply cmp_gt_lt; [done|]. by apply (sorted_keys_lookup cmp es i j).
Qed.

End Positions.
