(* ===== verification/MemIter.v ===== *)
(** * The iterator of a memtable: MemTableIterator in db/memtable.cpp

    A thin layer over the iterator of the skip list that takes the entries
    apart. The memtable it belongs to does not change while it is used here. *)

From S2P Require Import Prelude Coding Status Comparator Dbformat SkipList MemTable Iterator.

(** The table and the node [iter_] stands at. *)
Record MemTableIterator := mkMemIter {
  mi_table : MemTable;
  mi_node : option nat
}.

Section MemIter.
Context (ucmp : Comparator).

Definition mi_move (s : MemTableIterator) (node : option (option nat)) : option MemTableIterator := mkMemIter (mi_table s) <$> node.

Definition MemTable_NewIterator (m : MemTable) : MemTableIterator := mkMemIter m None.

Definition MemIterator : Iterator MemTableIterator := {|
  it_Valid := fun s => Iter_Valid (mi_node s);
  it_SeekToFirst := fun s => mi_move s (Iter_SeekToFirst (table_ (mi_table s)));
  it_SeekToLast := fun s => mi_move s (Iter_SeekToLast (table_ (mi_table s)));
  it_Seek := fun k s => mi_move s (MemIter_Seek ucmp (mi_table s) k);
  it_Next := fun s => mi_move s (Iter_Next (table_ (mi_table s)) (mi_node s));
  it_Prev := fun s => mi_move s (Iter_Prev (KeyComparator ucmp) (table_ (mi_table s)) (mi_node s));
  it_key := fun s => MemIter_key (mi_table s) (mi_node s);
  it_value := fun s => MemIter_value (mi_table s) (mi_node s);
  it_status := fun _ => Status_OK
|}.

Context `{!TotalCmp (Compare ucmp)}.

(** A cursor in the entries of the table. *)
Definition mem_pos (m : MemTable) (ids : list nat) (s : MemTableIterator) (p : option nat) : Prop :=
  mi_table s = m /\ match p with Some i => exists x, ids !! i = Some x /\ mi_node s = Some x | None => mi_node s = None end.

Lemma KeyComparator_EncodeKey e t : entry_ok e -> small_target t -> KeyComparator ucmp (enc e) (EncodeKey t) = InternalKey_Compare ucmp (e_ikey e) t.
Proof.
  intros He Ht. unfold KeyComparator, MemTable_GetLengthPrefixedSlice. rewrite slice_enc by done. unfold EncodeKey, PutVarint32. rewrite app_nil_l.
  rewrite <- (app_nil_r t) at 2. by rewrite slice_and_rest_put.
Qed.

Lemma count_seek es t : Forall entry_ok es -> small_target t -> let c := count_lt (KeyComparator ucmp) (EncodeKey t) (map enc es) in
  seek_pos (InternalKey_Compare ucmp) (map kv es) t = if (c <? length es)%nat then Some c else None.
Proof.
  intros Hok Ht. induction Hok as [|e es He Hok IH]; [done|]. cbn [map seek_pos count_lt kv fst length] in IH |- *.
  rewrite KeyComparator_EncodeKey by done. destruct (is_lt _); [|done]. rewrite IH.
  change (S ?a <? S ?b)%nat with (a <? b)%nat. by destruct (_ <? _)%nat.
Qed.

Lemma mem_sorted m es : mem_rep ucmp m es -> Iterator.sorted_keys (InternalKey_Compare ucmp) (map kv es).
Proof.
  intros [Hok [ids Hinv]]. pose proof (inv_sorted _ _ _ _ Hinv) as Hs. clear -Hok Hs. induction Hok as [|e es He Hok IH]; [constructor|].
  cbn in Hs. apply StronglySorted_inv in Hs as [H1 H2]. constructor; [by apply IH|]. apply Forall_forall. intros x Hx.
  apply list_elem_of_fmap in Hx as (f & -> & Hf). rewrite Forall_forall in H2. rewrite Forall_forall in Hok. cbn [fst kv]. rewrite <- KeyComparator_enc; [|done|by apply Hok].
  apply H2. by apply list_elem_of_fmap_2.
Qed.

Lemma MemIterator_spec m es ids : Forall entry_ok es -> skip_inv (KeyComparator ucmp) (table_ m) ids (map enc es) ->
  IteratorSpecOn small_target MemIterator (InternalKey_Compare ucmp) (map kv es) (mem_pos m ids).
Proof.
  intros Hok Hinv. assert (Hlen : length ids = length es).
  { by rewrite (Forall2_length _ _ _ (inv_keys _ _ _ _ Hinv)), length_map. }
  assert (Hat : forall s i, mem_pos m ids s (Some i) -> exists e, es !! i = Some e /\ entry_ok e /\ mi_node s = ids !! i /\
    Iter_key (table_ (mi_table s)) (mi_node s) = Some (enc e)).
  { intros s i (Ht & x & Hx & Hn). destruct (lookup_lt_is_Some_2 es i) as [e He]; [rewrite <- Hlen; by eapply lookup_lt_Some|].
    exists e. split; [done|]. split; [rewrite Forall_forall in Hok; apply Hok; by eapply list_elem_of_lookup_2|]. split; [by rewrite Hx|].
    rewrite Ht, Hn, <- Hx, (Iter_key_spec _ _ _ _ i Hinv), list_lookup_fmap, He. done. }
  assert (Hgo : forall s c, mi_table s = m ->
    exists s', mi_move s (Some (ids !! c)) = Some s' /\ mem_pos m ids s' (if (c <? length ids)%nat then Some c else None)).
  { intros s c Ht. eexists. split; [done|]. split; [done|]. cbn [mi_node]. destruct (Nat.ltb_spec c (length ids)) as [Hc|Hc].
    - destruct (lookup_lt_is_Some_2 _ _ Hc) as [x Hx]. by exists x.
    - by apply lookup_ge_None_2. }
  split; cbn [MemIterator it_Valid it_SeekToFirst it_SeekToLast it_Seek it_Next it_Prev it_key it_value it_status].
  - intros s [i|] (_ & H); [destruct H as (x & _ & ->)|rewrite H]; done.
  - intros s i (_ & x & Hx & _). rewrite length_map, <- Hlen. by eapply lookup_lt_Some.
  - intros s i e' Hp He'. destruct (Hat s i Hp) as (e & He & Heok & _ & Hk). rewrite list_lookup_fmap, He in He'. injection He' as <-.
    unfold MemIter_key. rewrite Hk. cbn [mbind option_bind]. unfold MemTable_GetLengthPrefixedSlice. by rewrite slice_enc.
  - intros s i e' Hp He'. destruct (Hat s i Hp) as (e & He & Heok & _ & Hk). rewrite list_lookup_fmap, He in He'. injection He' as <-.
    unfold MemIter_value. rewrite Hk. cbn [mbind option_bind]. rewrite slice_enc by done. cbn [mbind option_bind snd]. apply value_slice. apply Heok.
  - intros s p [Ht _]. rewrite Ht, (Iter_SeekToFirst_spec _ _ _ _ Hinv), first_pos_0, length_map, <- Hlen. by apply Hgo.
  - intros s p [Ht _]. rewrite Ht, (Iter_SeekToLast_spec _ _ _ _ Hinv), last_lookup, last_pos_prev, length_map, <- Hlen.
    destruct (Hgo s (pred (length ids)) Ht) as (s' & Hs & Hp). exists s'. split; [done|]. destruct ids as [|x ids']; [done|]. cbn [length pred prev_pos] in Hp |- *.
    by rewrite (proj2 (Nat.ltb_lt _ _) (Nat.lt_succ_diag_r _)) in Hp.
  - intros s p t Hsm [Ht _]. unfold MemIter_Seek. rewrite Ht, (Iter_Seek_spec _ _ _ _ _ Hinv), (count_seek es t Hok Hsm), <- Hlen. by apply Hgo.
  - intros s i Hp. destruct (Hat s i Hp) as (e & He & _ & Hn & _). destruct Hp as (Ht & x & Hx & _).
    rewrite Ht, Hn, (Iter_Next_spec _ _ _ _ i x Hinv Hx). unfold next_pos. rewrite length_map, <- Hlen. by apply Hgo.
  - intros s i Hp. destruct (Hat s i Hp) as (e & He & _ & Hn & _). destruct Hp as (Ht & x & Hx & _).
    rewrite Ht, Hn, (Iter_Prev_spec _ _ _ _ i x Hinv Hx), last_lookup, length_take. apply lookup_lt_Some in Hx.
    destruct i as [|i]; [by eexists; split; [done|]|]. replace (pred (S i `min` length ids)) with i by lia. rewrite lookup_take_lt by lia.
    destruct (Hgo s i Ht) as (s' & Hs & Hp). exists s'. split; [done|]. cbn [prev_pos].
    by rewrite (proj2 (Nat.ltb_lt i (length ids)) ltac:(lia)) in Hp.
  - done.
Qed.

End MemIter.
