(* ===== verification/World.v ===== *)
(** * Iterators on shared state: table/iterator_wrapper.h and the destructors

    The iterators of tables and versions read blocks through caches they share
    and hold handles of them. Their operations are computations [M G] on the
    shared state [G]; what a computation does is stated by triples: it takes
    the resources [l] it holds, with everything held by others left alone, and
    may open at most [k] tables. The interface of [Iterator] is repeated for
    such computations, with the destructor, and [IteratorWrapper] is modelled
    on it. *)

From S2P Require Import Prelude Coding Status Iterator.

(** ** Computations *)

Definition M (G A : Type) : Type := G -> option (A * G).

#[global] Instance M_ret G : MRet (M G) := fun A a g => Some (a, g).
#[global] Instance M_bind G : MBind (M G) := fun A B f m g =>
  match m g with Some (a, g') => f a g' | None => None end.

Lemma M_bind_eq {G A B} (m : M G A) (f : A -> M G B) g a g' : m g = Some (a, g') -> (m ≫= f) g = f a g'.
Proof. unfold mbind, M_bind. by intros ->. Qed.

Lemma bind_run {G A B} (m : M G A) (f : A -> M G B) g a g' r : m g = Some (a, g') -> f a g' = r -> (m ≫= f) g = r.
Proof. intros E <-. by apply M_bind_eq. Qed.

(** A step that only touches local state, or an assertion. *)
Definition lift {G A} (o : option A) : M G A := fun g => match o with Some a => Some (a, g) | None => None end.

(** [ginv n l g]: the state is good, [l] are all resources given out and [n]
    more tables can be opened. *)
Class World {G R : Type} (ginv : nat -> list R -> G -> Prop) : Prop := {
  ginv_perm : forall n l l' g, l ≡ₚ l' -> ginv n l g -> ginv n l' g;
  ginv_fewer : forall n l g, ginv (S n) l g -> ginv n l g
}.

Lemma ginv_le {G R} {ginv : nat -> list R -> G -> Prop} `{!World ginv} n m l g : (n <= m)%nat -> ginv m l g -> ginv n l g.
Proof. induction 1 as [|m _ IH]; [done|]. intros Hm. by apply IH, ginv_fewer. Qed.

Section Triples.
Context {G R : Type} (ginv : nat -> list R -> G -> Prop) `{!World ginv}.

Definition triple {A} (k : nat) (l : list R) (m : M G A) (Q : A -> list R -> Prop) : Prop :=
  forall n rest g, ginv (k + n) (l ++ rest) g ->
    exists a l' g', m g = Some (a, g') /\ ginv n (l' ++ rest) g' /\ Q a l'.

Lemma triple_ret {A} l (a : A) (Q : A -> list R -> Prop) : Q a l -> triple 0 l (mret a) Q.
Proof. intros HQ n rest g Hg. by exists a, l, g. Qed.

Lemma triple_lift {A} l (o : option A) a (Q : A -> list R -> Prop) : o = Some a -> Q a l -> triple 0 l (lift o) Q.
Proof. intros -> HQ n rest g Hg. by exists a, l, g. Qed.

Lemma triple_bind {A B} k1 k2 l (m : M G A) (f : A -> M G B) Q Q' : triple k1 l m Q ->
  (forall a l', Q a l' -> triple k2 l' (f a) Q') -> triple (k1 + k2) l (m ≫= f) Q'.
Proof.
  intros Hm Hf n rest g Hg. rewrite <- Nat.add_assoc in Hg. destruct (Hm _ rest g Hg) as (a & l' & g' & E & Hg' & HQ).
  unfold mbind, M_bind. rewrite E. by apply (Hf a l' HQ).
Qed.

Lemma triple_mono {A} k k' l (m : M G A) (Q Q' : A -> list R -> Prop) : triple k l m Q -> (k <= k')%nat ->
  (forall a l', Q a l' -> Q' a l') -> triple k' l m Q'.
Proof.
  intros Hm Hk HQ n rest g Hg. destruct (Hm n rest g) as (a & l' & g' & E & Hg' & Ha); [by apply (ginv_le _ (k' + n)); [lia|]|].
  exists a, l', g'. auto.
Qed.

Lemma triple_perm {A} k l l2 (m : M G A) (Q : A -> list R -> Prop) : l ≡ₚ l2 -> triple k l m Q -> triple k l2 m Q.
Proof.
  intros Hp Hm n rest g Hg. apply (Hm n rest g). eapply ginv_perm; [|exact Hg]. by rewrite Hp.
Qed.

(** What others hold in the same list stays. *)
Lemma triple_frame {A} k l l2 (m : M G A) (Q : A -> list R -> Prop) : triple k l m Q ->
  triple k (l ++ l2) m (fun a l' => exists l1, l' = l1 ++ l2 /\ Q a l1).
Proof.
  intros Hm n rest g Hg. rewrite <- app_assoc in Hg. destruct (Hm n (l2 ++ rest) g Hg) as (a & l' & g' & E & Hg' & HQ).
  exists a, (l' ++ l2), g'. rewrite <- app_assoc. split; [done|]. split; [done|]. by exists l'.
Qed.

Lemma triple_frame_l {A} k l l2 (m : M G A) (Q : A -> list R -> Prop) : triple k l m Q ->
  triple k (l2 ++ l) m (fun a l' => exists l1, l' ≡ₚ l2 ++ l1 /\ Q a l1).
Proof.
  intros Hm. apply (triple_perm _ (l ++ l2)); [apply Permutation_app_comm|].
  eapply triple_mono; [by apply triple_frame|done|]. intros a l' (l1 & -> & HQ). exists l1. split; [|done].
  apply Permutation_app_comm.
Qed.

(** The same with the frame taken out of the list in any order. *)
Lemma triple_frame_perm {A} k L l F (m : M G A) (Q : A -> list R -> Prop) : triple k l m Q -> L ≡ₚ l ++ F ->
  triple k L m (fun a L' => exists l1, L' = l1 ++ F /\ Q a l1).
Proof. intros Hm Hp. apply (triple_perm _ (l ++ F)); [by symmetry|]. by apply triple_frame. Qed.

Lemma triple_seq {A B} k k1 k2 l (m : M G A) (f : A -> M G B) Q Q' : triple k1 l m Q ->
  (forall a l', Q a l' -> triple k2 l' (f a) Q') -> (k1 + k2 <= k)%nat -> triple k l (m ≫= f) Q'.
Proof. intros Hm Hf Hk. eapply triple_mono; [by eapply triple_bind|done|done]. Qed.

Lemma triple_now {A} k l (a : A) (Q : A -> list R -> Prop) : Q a l -> triple k l (mret a) Q.
Proof. intros HQ. eapply (triple_mono 0); [by apply triple_ret|lia|done]. Qed.

(** A step that only computes a value. *)
Lemma triple_let {A B} k l (o : option A) (a : A) (f : A -> M G B) Q : o = Some a -> triple k l (f a) Q -> triple k l (lift o ≫= f) Q.
Proof. intros -> Hf. exact Hf. Qed.

End Triples.

(** ** The interface, with the destructor *)

Record IteratorM (G S : Type) := {
  im_Valid : S -> bool;
  im_SeekToFirst : S -> M G S;
  im_SeekToLast : S -> M G S;
  im_Seek : bytes -> S -> M G S;
  im_Next : S -> M G S;
  im_Prev : S -> M G S;
  im_key : S -> option bytes;
  im_value : S -> option bytes;
  im_status : S -> Status;
  im_delete : S -> M G unit
}.
Arguments im_Valid {G S}.
Arguments im_SeekToFirst {G S}.
Arguments im_SeekToLast {G S}.
Arguments im_Seek {G S}.
Arguments im_Next {G S}.
Arguments im_Prev {G S}.
Arguments im_key {G S}.
Arguments im_value {G S}.
Arguments im_status {G S}.
Arguments im_delete {G S}.

(** [pos s l p]: the state [s] is good, holds [l] and stands at [p]; an
    operation opens at most [k] tables. *)
Class IteratorMSpec {G S R} (ginv : nat -> list R -> G -> Prop) (T : bytes -> Prop) (it : IteratorM G S) (cmp : bytes -> bytes -> comparison)
    (es : entries) (k : nat) (pos : S -> list R -> option nat -> Prop) : Prop := {
  ms_valid : forall s l p, pos s l p -> im_Valid it s = bool_decide (is_Some p);
  ms_lt : forall s l i, pos s l (Some i) -> (i < length es)%nat;
  ms_key : forall s l i e, pos s l (Some i) -> es !! i = Some e -> im_key it s = Some e.1;
  ms_value : forall s l i e, pos s l (Some i) -> es !! i = Some e -> im_value it s = Some e.2;
  ms_first : forall s l p, pos s l p -> triple ginv k l (im_SeekToFirst it s) (fun s' l' => pos s' l' (first_pos es));
  ms_last : forall s l p, pos s l p -> triple ginv k l (im_SeekToLast it s) (fun s' l' => pos s' l' (last_pos es));
  ms_seek : forall s l p t, T t -> pos s l p -> triple ginv k l (im_Seek it t s) (fun s' l' => pos s' l' (seek_pos cmp es t));
  ms_next : forall s l i, pos s l (Some i) -> triple ginv k l (im_Next it s) (fun s' l' => pos s' l' (next_pos es i));
  ms_prev : forall s l i, pos s l (Some i) -> triple ginv k l (im_Prev it s) (fun s' l' => pos s' l' (prev_pos i));
  ms_status : forall s l p, pos s l p -> im_status it s = Status_OK;
  ms_delete : forall s l p, pos s l p -> triple ginv k l (im_delete it s) (fun _ l' => l' = [])
}.

(** An iterator that only touches its own state, with what its registered
    cleanups do. *)
Definition PureIterator {G S D} (it : Iterator S) (cleanup : D -> M G unit) : IteratorM G (S * D) := {|
  im_Valid := fun s => it_Valid it s.1;
  im_SeekToFirst := fun s => a ← lift (it_SeekToFirst it s.1); mret (a, s.2);
  im_SeekToLast := fun s => a ← lift (it_SeekToLast it s.1); mret (a, s.2);
  im_Seek := fun t s => a ← lift (it_Seek it t s.1); mret (a, s.2);
  im_Next := fun s => a ← lift (it_Next it s.1); mret (a, s.2);
  im_Prev := fun s => a ← lift (it_Prev it s.1); mret (a, s.2);
  im_key := fun s => it_key it s.1;
  im_value := fun s => it_value it s.1;
  im_status := fun s => it_status it s.1;
  im_delete := fun s => cleanup s.2
|}.

Section Pure.
Context {G R : Type} (ginv : nat -> list R -> G -> Prop) `{!World ginv}.
Context {S D : Type} (it : Iterator S) (cleanup : D -> M G unit).

Lemma PureIterator_spec (T T0 : bytes -> Prop) cmp es pos (held : D -> list R -> Prop) : (forall t, T t -> T0 t) -> IteratorSpecOn T0 it cmp es pos ->
  (forall d l, held d l -> triple ginv 0 l (cleanup d) (fun _ l' => l' = [])) ->
  IteratorMSpec ginv T (PureIterator it cleanup) cmp es 0 (fun s l p => pos s.1 p /\ held s.2 l).
Proof.
  intros HT Hs Hd.
  assert (Hop : forall (op : S -> option S) s d l p, (exists s', op s = Some s' /\ pos s' p) -> held d l ->
    triple ginv 0 l (a ← lift (op s); mret (a, d)) (fun s' l' => pos s'.1 p /\ held s'.2 l')).
  { intros op s d l p (s' & E & Hp) Hh. apply (triple_bind _ 0 0 _ _ _ (fun a l' => a = s' /\ l' = l)); [by eapply triple_lift|].
    intros a l' [-> ->]. by apply triple_ret. }
  split; intros [s d] l; cbn [fst snd PureIterator im_Valid im_SeekToFirst im_SeekToLast im_Seek im_Next im_Prev im_key im_value im_status im_delete].
  - intros p [Hp _]. by apply spec_valid.
  - intros i [Hp _]. by eapply spec_lt.
  - intros i e [Hp _]. by apply spec_key.
  - intros i e [Hp _]. by apply spec_value.
  - intros p [Hp Hh]. apply Hop; [by eapply spec_first|done].
  - intros p [Hp Hh]. apply Hop; [by eapply spec_last|done].
  - intros p t Ht [Hp Hh]. apply (Hop (it_Seek it t)); [by apply (spec_seek s p t); [apply HT|]|done].
  - intros i [Hp Hh]. apply Hop; [by eapply spec_next|done].
  - intros i [Hp Hh]. apply Hop; [by eapply spec_prev|done].
  - intros p [Hp _]. by eapply spec_status.
  - intros p [_ Hh]. by apply Hd.
Qed.

End Pure.

(** A family of good states. *)
Lemma IteratorMSpec_exists {G S R Z} (ginv : nat -> list R -> G -> Prop) `{!World ginv} T (it : IteratorM G S) cmp es k (P : Z -> Prop)
    (pos : Z -> S -> list R -> option nat -> Prop) :
  (forall z, P z -> IteratorMSpec ginv T it cmp es k (pos z)) ->
  IteratorMSpec ginv T it cmp es k (fun s l p => exists z, P z /\ pos z s l p).
Proof.
  intros Hs. assert (Hop : forall (m : M G S) z l p, P z -> triple ginv k l m (fun s' l' => pos z s' l' p) ->
    triple ginv k l m (fun s' l' => exists z, P z /\ pos z s' l' p)).
  { intros m z l p Hz Hm. apply (triple_mono ginv k _ _ _ _ _ Hm); [done|]. intros s' l' Hp. by exists z. }
  split.
  - intros s l p (z & Hz & Hp). pose proof (Hs z Hz). by eapply ms_valid.
  - intros s l i (z & Hz & Hp). pose proof (Hs z Hz). by eapply ms_lt.
  - intros s l i e (z & Hz & Hp). pose proof (Hs z Hz). by eapply ms_key.
  - intros s l i e (z & Hz & Hp). pose proof (Hs z Hz). by eapply ms_value.
  - intros s l p (z & Hz & Hp). pose proof (Hs z Hz). apply (Hop _ z); [done|]. by eapply ms_first.
  - intros s l p (z & Hz & Hp). pose proof (Hs z Hz). apply (Hop _ z); [done|]. by eapply ms_last.
  - intros s l p t Ht (z & Hz & Hp). pose proof (Hs z Hz). apply (Hop _ z); [done|]. by eapply ms_seek.
  - intros s l i (z & Hz & Hp). pose proof (Hs z Hz). apply (Hop _ z); [done|]. by eapply ms_next.
  - intros s l i (z & Hz & Hp). pose proof (Hs z Hz). apply (Hop _ z); [done|]. by eapply ms_prev.
  - intros s l p (z & Hz & Hp). pose proof (Hs z Hz). by eapply ms_status.
  - intros s l p (z & Hz & Hp). pose proof (Hs z Hz). by eapply ms_delete.
Qed.

Lemma IteratorMSpec_cost {G S R} (ginv : nat -> list R -> G -> Prop) `{!World ginv} T (it : IteratorM G S) cmp es k k' pos :
  (k <= k')%nat -> IteratorMSpec ginv T it cmp es k pos -> IteratorMSpec ginv T it cmp es k' pos.
Proof.
  intros Hk Hs. assert (Hop : forall A l (m : M G A) Q, triple ginv k l m Q -> triple ginv k' l m Q).
  { intros A l m Q Hm. by apply (triple_mono ginv k _ _ _ _ _ Hm). }
  destruct Hs. split; eauto.
Qed.

(** ** An iterator of one of two kinds *)

Definition fmapM {G A B} (f : A -> B) (m : M G A) : M G B := a ← m; mret (f a).

Definition SumIteratorM {G A B} (ia : IteratorM G A) (ib : IteratorM G B) : IteratorM G (A + B) := {|
  im_Valid := fun s => match s with inl a => im_Valid ia a | inr b => im_Valid ib b end;
  im_SeekToFirst := fun s => match s with inl a => fmapM inl (im_SeekToFirst ia a) | inr b => fmapM inr (im_SeekToFirst ib b) end;
  im_SeekToLast := fun s => match s with inl a => fmapM inl (im_SeekToLast ia a) | inr b => fmapM inr (im_SeekToLast ib b) end;
  im_Seek := fun t s => match s with inl a => fmapM inl (im_Seek ia t a) | inr b => fmapM inr (im_Seek ib t b) end;
  im_Next := fun s => match s with inl a => fmapM inl (im_Next ia a) | inr b => fmapM inr (im_Next ib b) end;
  im_Prev := fun s => match s with inl a => fmapM inl (im_Prev ia a) | inr b => fmapM inr (im_Prev ib b) end;
  im_key := fun s => match s with inl a => im_key ia a | inr b => im_key ib b end;
  im_value := fun s => match s with inl a => im_value ia a | inr b => im_value ib b end;
  im_status := fun s => match s with inl a => im_status ia a | inr b => im_status ib b end;
  im_delete := fun s => match s with inl a => im_delete ia a | inr b => im_delete ib b end
|}.

Section Sum.
Context {G R : Type} (ginv : nat -> list R -> G -> Prop) `{!World ginv} {A B : Type} (ia : IteratorM G A) (ib : IteratorM G B).

Lemma triple_fmap {X Y} k l (f : X -> Y) (m : M G X) (Q : X -> list R -> Prop) (Q' : Y -> list R -> Prop) :
  triple ginv k l m Q -> (forall a l', Q a l' -> Q' (f a) l') -> triple ginv k l (fmapM f m) Q'.
Proof.
  intros Hm HQ. apply (triple_seq ginv k k 0 _ _ _ Q); [done| |lia]. intros a l' Ha. apply (triple_ret ginv). by apply HQ.
Qed.

Definition mpos_inl (pos : A -> list R -> option nat -> Prop) (s : A + B) (l : list R) (p : option nat) : Prop :=
  match s with inl a => pos a l p | inr _ => False end.
Definition mpos_inr (pos : B -> list R -> option nat -> Prop) (s : A + B) (l : list R) (p : option nat) : Prop :=
  match s with inl _ => False | inr b => pos b l p end.

Lemma SumIteratorM_inl T cmp es k pos : IteratorMSpec ginv T ia cmp es k pos -> IteratorMSpec ginv T (SumIteratorM ia ib) cmp es k (mpos_inl pos).
Proof.
  intros Hs. split; intros [a|b]; cbn; try done; intros l p.
  - apply ms_valid.
  - apply ms_lt.
  - apply ms_key.
  - apply ms_value.
  - intros Hp. eapply triple_fmap; [by eapply ms_first|done].
  - intros Hp. eapply triple_fmap; [by eapply ms_last|done].
  - intros t Ht Hp. eapply triple_fmap; [by eapply ms_seek|done].
  - intros Hp. eapply triple_fmap; [by eapply ms_next|done].
  - intros Hp. eapply triple_fmap; [by eapply ms_prev|done].
  - apply ms_status.
  - apply ms_delete.
Qed.

Lemma SumIteratorM_inr T cmp es k pos : IteratorMSpec ginv T ib cmp es k pos -> IteratorMSpec ginv T (SumIteratorM ia ib) cmp es k (mpos_inr pos).
Proof.
  intros Hs. split; intros [a|b]; cbn; try done; intros l p.
  - apply ms_valid.
  - apply ms_lt.
  - apply ms_key.
  - apply ms_value.
  - intros Hp. eapply triple_fmap; [by eapply ms_first|done].
  - intros Hp. eapply triple_fmap; [by eapply ms_last|done].
  - intros t Ht Hp. eapply triple_fmap; [by eapply ms_seek|done].
  - intros Hp. eapply triple_fmap; [by eapply ms_next|done].
  - intros Hp. eapply triple_fmap; [by eapply ms_prev|done].
  - apply ms_status.
  - apply ms_delete.
Qed.

End Sum.

(** ** IteratorWrapper: an iterator that may be NULL, with its validity and
    key cached *)

Record IteratorWrapper (S : Type) := mkWrapper {
  w_iter : option S;
  w_valid : bool;
  w_key : bytes
}.
Arguments mkWrapper {S}.
Arguments w_iter {S}.
Arguments w_valid {S}.
Arguments w_key {S}.

Section Wrapper.
Context {G S : Type} (it : IteratorM G S).

Definition empty_wrapper : IteratorWrapper S := mkWrapper None false [].

(** [Update], after an operation that left the iterator in [s]. *)
Definition wrapper_Update (s : S) (w : IteratorWrapper S) : option (IteratorWrapper S) :=
  if im_Valid it s then k ← im_key it s; Some (mkWrapper (Some s) true k)
  else Some (mkWrapper (Some s) false (w_key w)).

(** [delete iter_]; deleting NULL does nothing. *)
Definition wrapper_delete (w : IteratorWrapper S) : M G unit :=
  match w_iter w with Some s => im_delete it s | None => mret () end.

Definition wrapper_Set (iter : option S) (w : IteratorWrapper S) : M G (IteratorWrapper S) :=
  _ ← wrapper_delete w;
  match iter with
  | None => mret (mkWrapper None false (w_key w))
  | Some s => lift (wrapper_Update s w)
  end.

Definition wrapper_op (op : S -> M G S) (w : IteratorWrapper S) : M G (IteratorWrapper S) :=
  s ← lift (w_iter w); s ← op s; lift (wrapper_Update s w).

Definition wrapper_Next := wrapper_op (im_Next it).
Definition wrapper_Prev := wrapper_op (im_Prev it).
Definition wrapper_Seek (k : bytes) := wrapper_op (im_Seek it k).
Definition wrapper_SeekToFirst := wrapper_op (im_SeekToFirst it).
Definition wrapper_SeekToLast := wrapper_op (im_SeekToLast it).
Definition wrapper_key (w : IteratorWrapper S) : option bytes := if w_valid w then Some (w_key w) else None.
Definition wrapper_value (w : IteratorWrapper S) : option bytes :=
  if w_valid w then s ← w_iter w; im_value it s else None.
Definition wrapper_status (w : IteratorWrapper S) : option Status := im_status it <$> w_iter w.

Context {R : Type} (ginv : nat -> list R -> G -> Prop) `{!World ginv}.

(** A wrapper around an iterator that stands at [p], and one around NULL. *)
Definition wraps (es : entries) (pos : S -> list R -> option nat -> Prop) (w : IteratorWrapper S) (l : list R) (p : option nat) : Prop :=
  exists s, w_iter w = Some s /\ pos s l p /\ w_valid w = bool_decide (is_Some p) /\
    forall i e, p = Some i -> es !! i = Some e -> w_key w = e.1.

Definition unset (w : IteratorWrapper S) : Prop := w_iter w = None /\ w_valid w = false.

Section Spec.
Context {T : bytes -> Prop} {cmp : bytes -> bytes -> comparison} {es : entries} {k : nat} {pos : S -> list R -> option nat -> Prop}.
Context `{!IteratorMSpec ginv T it cmp es k pos}.

Lemma Update_wraps s l p w : pos s l p -> exists w', wrapper_Update s w = Some w' /\ wraps es pos w' l p.
Proof.
  intros Hp. unfold wrapper_Update. rewrite (ms_valid _ _ _ Hp). destruct p as [i|].
  - rewrite bool_decide_eq_true_2 by done. pose proof (ms_lt _ _ _ Hp) as Hi.
    destruct (lookup_lt_is_Some_2 es i Hi) as [e He]. rewrite (ms_key _ _ _ _ Hp He). eexists. split; [done|].
    exists s. cbn. split; [done|]. split; [done|]. split; [done|]. intros j f [= <-] Hf. congruence.
  - rewrite bool_decide_eq_false_2 by (by intros []). eexists. split; [done|]. by exists s.
Qed.

Lemma wrapper_op_wraps (op : S -> M G S) w l p p' : wraps es pos w l p ->
  (forall s, pos s l p -> triple ginv k l (op s) (fun s' l' => pos s' l' p')) ->
  triple ginv k l (wrapper_op op w) (fun w' l' => wraps es pos w' l' p').
Proof.
  intros (s & Hi & Hp & _) Hop. unfold wrapper_op. rewrite Hi. cbn [lift].
  apply (triple_bind _ 0 k _ _ _ (fun a l' => a = s /\ l' = l)); [by eapply triple_lift|]. intros a l' [-> ->].
  rewrite <- (Nat.add_0_r k). eapply triple_bind; [by apply Hop|]. intros s' l' Hs'. cbn beta in Hs'.
  destruct (Update_wraps s' l' p' w Hs') as (w' & E & Hw). by eapply triple_lift.
Qed.

Lemma wrapper_first w l p : wraps es pos w l p -> triple ginv k l (wrapper_SeekToFirst w) (fun w' l' => wraps es pos w' l' (first_pos es)).
Proof. intros H. apply (wrapper_op_wraps _ w l p); [done|]. intros s. apply ms_first. Qed.

Lemma wrapper_last w l p : wraps es pos w l p -> triple ginv k l (wrapper_SeekToLast w) (fun w' l' => wraps es pos w' l' (last_pos es)).
Proof. intros H. apply (wrapper_op_wraps _ w l p); [done|]. intros s. apply ms_last. Qed.

Lemma wrapper_seek w l p t : T t -> wraps es pos w l p -> triple ginv k l (wrapper_Seek t w) (fun w' l' => wraps es pos w' l' (seek_pos cmp es t)).
Proof. intros Ht H. apply (wrapper_op_wraps _ w l p); [done|]. intros s. by apply ms_seek. Qed.

Lemma wrapper_next w l i : wraps es pos w l (Some i) -> triple ginv k l (wrapper_Next w) (fun w' l' => wraps es pos w' l' (next_pos es i)).
Proof. intros H. apply (wrapper_op_wraps _ w l (Some i)); [done|]. intros s. apply ms_next. Qed.

Lemma wrapper_prev w l i : wraps es pos w l (Some i) -> triple ginv k l (wrapper_Prev w) (fun w' l' => wraps es pos w' l' (prev_pos i)).
Proof. intros H. apply (wrapper_op_wraps _ w l (Some i)); [done|]. intros s. apply ms_prev. Qed.

Lemma wraps_valid w l p : wraps es pos w l p -> w_valid w = bool_decide (is_Some p).
Proof. by intros (s & _ & _ & H & _). Qed.

Lemma wraps_lt w l i : wraps es pos w l (Some i) -> (i < length es)%nat.
Proof. intros (s & _ & H & _). by apply ms_lt in H. Qed.

Lemma wraps_key w l i e : wraps es pos w l (Some i) -> es !! i = Some e -> w_valid w = true /\ w_key w = e.1 /\ wrapper_key w = Some e.1.
Proof.
  intros (s & _ & Hp & Hv & Hk) He. rewrite bool_decide_eq_true_2 in Hv by done. unfold wrapper_key.
  rewrite Hv, (Hk i e eq_refl He). done.
Qed.

Lemma wraps_value w l i e : wraps es pos w l (Some i) -> es !! i = Some e -> wrapper_value w = Some e.2.
Proof.
  intros (s & Hi & Hp & Hv & _) He. unfold wrapper_value. rewrite Hv, bool_decide_eq_true_2, Hi by done.
  by apply (ms_value s l i).
Qed.

Lemma wraps_status w l p : wraps es pos w l p -> wrapper_status w = Some Status_OK.
Proof. intros (s & Hi & Hp & _). unfold wrapper_status. rewrite Hi. cbn. by rewrite (ms_status s l p). Qed.

Lemma wraps_delete w l p : wraps es pos w l p -> triple ginv k l (wrapper_delete w) (fun _ l' => l' = []).
Proof. intros (s & Hi & Hp & _). unfold wrapper_delete. rewrite Hi. by eapply ms_delete. Qed.

End Spec.

Lemma unset_delete w l : unset w -> l = [] -> triple ginv 0 l (wrapper_delete w) (fun _ l' => l' = []).
Proof. intros [Hi _] ->. unfold wrapper_delete. rewrite Hi. by apply triple_ret. Qed.

(** [Set] to a new iterator or to NULL, when the old one can be deleted. *)
Lemma wrapper_Set_wraps {T cmp es k pos} `{!IteratorMSpec ginv T it cmp es k pos} kd s l l0 p w : pos s l p ->
  triple ginv kd l0 (wrapper_delete w) (fun _ l' => l' = []) ->
  triple ginv kd (l ++ l0) (wrapper_Set (Some s) w) (fun w' l' => wraps es pos w' l' p).
Proof.
  intros Hp Hd. unfold wrapper_Set. rewrite <- (Nat.add_0_r kd). eapply triple_bind.
  { apply (triple_perm _ _ (l0 ++ l)); [apply Permutation_app_comm|]. by apply triple_frame. }
  intros _ l' (l1 & -> & ->). destruct (Update_wraps s l p w Hp) as (w' & E & Hw). by eapply triple_lift.
Qed.

Lemma wrapper_Set_null kd l0 w : triple ginv kd l0 (wrapper_delete w) (fun _ l' => l' = []) ->
  triple ginv kd l0 (wrapper_Set None w) (fun w' l' => unset w' /\ l' = []).
Proof.
  intros Hd. unfold wrapper_Set. rewrite <- (Nat.add_0_r kd). eapply triple_bind; [exact Hd|]. intros _ l' ->. by apply triple_ret.
Qed.

End Wrapper.

(** ** Reading forward from a position *)

Definition from_pos (es : entries) (p : option nat) : entries := match p with Some i => drop i es | None => [] end.

Section Collect.
Context {G S : Type} (it : IteratorM G S).

(** The loop [for (; it->Valid(); it->Next())] over keys and values. *)
Fixpoint collect (fuel : nat) (s : S) : M G (entries * S) :=
  match fuel with
  | O => fun _ => None
  | Datatypes.S fuel =>
    if im_Valid it s then
      k ← lift (im_key it s);
      v ← lift (im_value it s);
      s ← im_Next it s;
      r ← collect fuel s;
      mret ((k, v) :: r.1, r.2)
    else mret ([], s)
  end.

(** A new iterator moved to the first key at or behind [target], read to the
    end and deleted. *)
Definition scan (new : M G S) (target : bytes) (fuel : nat) : M G entries :=
  s ← new;
  s ← im_Seek it target s;
  r ← collect fuel s;
  _ ← im_delete it r.2;
  mret r.1.

Context {R : Type} (ginv : nat -> list R -> G -> Prop) `{!World ginv}.
Context {T : bytes -> Prop} {cmp : bytes -> bytes -> comparison} {es : entries} {k : nat} {pos : S -> list R -> option nat -> Prop}.
Context `{!IteratorMSpec ginv T it cmp es k pos}.

Lemma from_next i e : es !! i = Some e -> from_pos es (Some i) = e :: from_pos es (next_pos es i).
Proof.
  intros He. cbn. rewrite (drop_S _ _ _ He). f_equal. unfold next_pos. destruct (Nat.ltb_spec (Datatypes.S i) (length es)); [done|]. cbn. by apply drop_ge.
Qed.

Lemma collect_spec fuel s l p : (length (from_pos es p) < fuel)%nat -> pos s l p ->
  triple ginv (fuel * k) l (collect fuel s) (fun r l' => r.1 = from_pos es p /\ pos r.2 l' None).
Proof.
  revert s l p. induction fuel as [|fuel IH]; intros s l p Hf Hp; [lia|]. cbn [collect]. rewrite (ms_valid _ _ _ Hp).
  destruct p as [i|].
  2:{ rewrite bool_decide_eq_false_2 by (by intros []). apply (triple_mono ginv 0 _ l _ (fun r l2 => r = ([], s) /\ l2 = l)); [by apply (triple_ret ginv)|lia|]. by intros r l2 [-> ->]. }
  rewrite bool_decide_eq_true_2 by done. destruct (lookup_lt_is_Some_2 es i (ms_lt _ _ _ Hp)) as [e He].
  apply (triple_seq ginv _ 0 (Datatypes.S fuel * k) _ _ _ (fun a l' => a = e.1 /\ l' = l)); [|intros a l' [-> ->]|lia].
  { eapply triple_lift; [by apply (ms_key _ _ _ e Hp)|done]. }
  apply (triple_seq ginv _ 0 (Datatypes.S fuel * k) _ _ _ (fun a l' => a = e.2 /\ l' = l)); [|intros a l' [-> ->]|lia].
  { eapply triple_lift; [by apply (ms_value _ _ _ e Hp)|done]. }
  rewrite (from_next i e He) in Hf |- *. cbn [length] in Hf.
  apply (triple_seq ginv _ k (fuel * k) _ _ _ _ _ (ms_next _ _ _ Hp)); [|lia]. intros s' l' Hp'. cbn beta in Hp'.
  apply (triple_seq ginv _ (fuel * k) 0 _ _ _ _ _ (IH s' l' (next_pos es i) ltac:(lia) Hp')); [|lia]. intros r l2 [-> Hr].
  apply (triple_ret ginv). cbn [fst snd]. by destruct e.
Qed.

Lemma scan_entries kn new target fuel : T target -> (length es < fuel)%nat -> triple ginv kn [] new (fun s l => exists p, pos s l p) ->
  triple ginv (kn + (fuel + 2) * k) [] (scan new target fuel) (fun r l => r = from_pos es (seek_pos cmp es target) /\ l = []).
Proof.
  intros Ht Hf Hn. unfold scan. apply (triple_bind ginv kn ((fuel + 2) * k) _ _ _ _ _ Hn). intros s l [p Hp].
  apply (triple_seq ginv _ k ((fuel + 1) * k) _ _ _ _ _ (ms_seek _ _ _ target Ht Hp)); [|lia]. intros s' l' Hs'. cbn beta in Hs'.
  apply (triple_seq ginv _ (fuel * k) k _ _ _ (fun r l' => r.1 = from_pos es (seek_pos cmp es target) /\ pos r.2 l' None)); [| |lia].
  { apply collect_spec; [|done]. destruct (seek_pos cmp es target) as [i|]; cbn [from_pos length]; [|lia]. rewrite length_drop. lia. }
  intros r l2 [Hr Hp2]. apply (triple_seq ginv _ k 0 _ _ _ _ _ (ms_delete _ _ _ Hp2)); [|lia]. intros _ l3 ->. by apply (triple_ret ginv).
Qed.

End Collect.

(** ** More state beside the shared one

    [G * X]: resources are those of the first part and those of the second. *)

Section Beside.
Context {G R X P : Type}.

Definition beside (ginv : nat -> list R -> G -> Prop) (xinv : list P -> X -> Prop) (n : nat) (l : list (R + P)) (g : G * X) : Prop :=
  ginv n (omap (fun r => match r with inl a => Some a | inr _ => None end) l) g.1 /\
  xinv (omap (fun r => match r with inl _ => None | inr b => Some b end) l) g.2.

Definition on_first {A} (m : M G A) : M (G * X) A := fun g => match m g.1 with Some (a, g') => Some (a, (g', g.2)) | None => None end.
Definition on_second {A} (m : M X A) : M (G * X) A := fun g => match m g.2 with Some (a, x) => Some (a, (g.1, x)) | None => None end.

(** An iterator on the first part. *)
Definition FirstIterator {S} (it : IteratorM G S) : IteratorM (G * X) S := {|
  im_Valid := im_Valid it;
  im_SeekToFirst := fun s => on_first (im_SeekToFirst it s);
  im_SeekToLast := fun s => on_first (im_SeekToLast it s);
  im_Seek := fun t s => on_first (im_Seek it t s);
  im_Next := fun s => on_first (im_Next it s);
  im_Prev := fun s => on_first (im_Prev it s);
  im_key := im_key it;
  im_value := im_value it;
  im_status := im_status it;
  im_delete := fun s => on_first (im_delete it s)
|}.

(** [RegisterCleanup]: the destructor calls the function at its end. *)
Definition WithCleanup {S D} (it : IteratorM (G * X) S) (function : D -> M (G * X) unit) : IteratorM (G * X) (S * D) := {|
  im_Valid := fun s => im_Valid it s.1;
  im_SeekToFirst := fun s => fmapM (fun a => (a, s.2)) (im_SeekToFirst it s.1);
  im_SeekToLast := fun s => fmapM (fun a => (a, s.2)) (im_SeekToLast it s.1);
  im_Seek := fun t s => fmapM (fun a => (a, s.2)) (im_Seek it t s.1);
  im_Next := fun s => fmapM (fun a => (a, s.2)) (im_Next it s.1);
  im_Prev := fun s => fmapM (fun a => (a, s.2)) (im_Prev it s.1);
  im_key := fun s => im_key it s.1;
  im_value := fun s => im_value it s.1;
  im_status := fun s => im_status it s.1;
  im_delete := fun s => _ ← im_delete it s.1; function s.2
|}.

Context (ginv : nat -> list R -> G -> Prop) `{!World ginv} (xinv : list P -> X -> Prop) (Hperm : forall l l' x, l ≡ₚ l' -> xinv l x -> xinv l' x).

#[export] Instance beside_World : World (beside ginv xinv).
Proof.
  split.
  - intros n l l' g Hp [Hg Hx]. split; [eapply ginv_perm; [|exact Hg]; by rewrite Hp|eapply Hperm; [|exact Hx]; by rewrite Hp].
  - intros n l g [Hg Hx]. split; [by apply ginv_fewer|done].
Qed.

Lemma omap_all {A B} (f : A -> option B) (h : B -> A) l : (forall b, f (h b) = Some b) -> omap f (map h l) = l.
Proof. intros Hf. induction l as [|b l IH]; [done|]. cbn. by rewrite Hf, IH. Qed.

Lemma omap_none {A B C} (f : A -> option B) (h : C -> A) l : (forall b, f (h b) = None) -> omap f (map h l) = [].
Proof. intros Hf. induction l as [|b l IH]; [done|]. cbn. by rewrite Hf, IH. Qed.

(** Resources of the two parts side by side. *)
Lemma beside_split n l p g : beside ginv xinv n (map inl l ++ map inr p) g <-> ginv n l g.1 /\ xinv p g.2.
Proof. unfold beside. rewrite !omap_app, !omap_all, !omap_none by done. by rewrite app_nil_r. Qed.

Lemma triple_first {A} k l (m : M G A) Q : triple ginv k l m Q ->
  triple (beside ginv xinv) k (map inl l) (on_first m) (fun a l' => exists l1, l' = map inl l1 /\ Q a l1).
Proof.
  intros Hm n rest [g x] [Hg Hx]. cbn [fst snd] in Hg, Hx. rewrite omap_app, omap_all in Hg by done. rewrite omap_app, omap_none in Hx by done.
  destruct (Hm n _ g Hg) as (a & l' & g' & E & Hg' & HQ). exists a, (map inl l'), (g', x). unfold on_first. cbn [fst snd]. rewrite E.
  split; [done|]. split; [|by exists l']. split; cbn [fst snd]; rewrite omap_app; [by rewrite omap_all|by rewrite omap_none].
Qed.

Lemma triple_second {A} l (m : M X A) Q :
  (forall rest x, xinv (l ++ rest) x -> exists a l' x', m x = Some (a, x') /\ xinv (l' ++ rest) x' /\ Q a l') ->
  triple (beside ginv xinv) 0 (map inr l) (on_second m) (fun a l' => exists l1, l' = map inr l1 /\ Q a l1).
Proof.
  intros Hm n rest [g x] [Hg Hx]. cbn [fst snd] in Hg, Hx. rewrite omap_app, omap_none in Hg by done. rewrite omap_app, omap_all in Hx by done.
  destruct (Hm _ x Hx) as (a & l' & x' & E & Hx' & HQ). exists a, (map inr l'), (g, x'). unfold on_second. cbn [fst snd]. rewrite E.
  split; [done|]. split; [|by exists l']. split; cbn [fst snd]; rewrite omap_app; [by rewrite omap_none|by rewrite omap_all].
Qed.

Lemma FirstIterator_spec {S} T (it : IteratorM G S) cmp es k pos : IteratorMSpec ginv T it cmp es k pos ->
  IteratorMSpec (beside ginv xinv) T (FirstIterator it) cmp es k (fun s l p => exists l1, l = map inl l1 /\ pos s l1 p).
Proof.
  intros Hs. split; cbn [FirstIterator im_Valid im_SeekToFirst im_SeekToLast im_Seek im_Next im_Prev im_key im_value im_status im_delete]; intros s L0.
  - intros p (l & -> & Hp). by eapply ms_valid.
  - intros i (l & -> & Hp). by eapply ms_lt.
  - intros i e (l & -> & Hp). by eapply ms_key.
  - intros i e (l & -> & Hp). by eapply ms_value.
  - intros p (l & -> & Hp). eapply triple_first, ms_first, Hp.
  - intros p (l & -> & Hp). eapply triple_first, ms_last, Hp.
  - intros p t Ht (l & -> & Hp). eapply triple_first, ms_seek, Hp. done.
  - intros i (l & -> & Hp). eapply triple_first, ms_next, Hp.
  - intros i (l & -> & Hp). eapply triple_first, ms_prev, Hp.
  - intros p (l & -> & Hp). by eapply ms_status.
  - intros p (l & -> & Hp). eapply (triple_mono (beside ginv xinv)); [eapply triple_first, ms_delete, Hp|done|]. by intros _ l' (l1 & -> & ->).
Qed.

Lemma WithCleanup_spec {S D} T (it : IteratorM (G * X) S) (function : D -> M (G * X) unit) cmp es k pos (held : D -> list (R + P) -> Prop) :
  IteratorMSpec (beside ginv xinv) T it cmp es k pos ->
  (forall d l, held d l -> triple (beside ginv xinv) 0 l (function d) (fun _ l' => l' = [])) ->
  IteratorMSpec (beside ginv xinv) T (WithCleanup it function) cmp es k
    (fun s l p => exists l1 l2, l ≡ₚ l1 ++ l2 /\ pos s.1 l1 p /\ held s.2 l2).
Proof.
  intros Hs Hf.
  assert (Hop : forall (m : M (G * X) S) d l l1 l2 p, triple (beside ginv xinv) k l1 m (fun s' l' => pos s' l' p) -> l ≡ₚ l1 ++ l2 -> held d l2 ->
    triple (beside ginv xinv) k l (fmapM (fun a => (a, d)) m) (fun s' l' => exists l1 l2, l' ≡ₚ l1 ++ l2 /\ pos s'.1 l1 p /\ held s'.2 l2)).
  { intros m d l l1 l2 p Hm Hl Hh. eapply triple_fmap; [apply _|by eapply triple_frame_perm; [apply _|exact Hm|]|].
    intros a l' (l3 & -> & Ha). exists l3, l2. by split. }
  split; cbn [WithCleanup im_Valid im_SeekToFirst im_SeekToLast im_Seek im_Next im_Prev im_key im_value im_status im_delete]; intros [s d] l; cbn [fst snd].
  - intros p (l1 & l2 & _ & Hp & _). by eapply ms_valid.
  - intros i (l1 & l2 & _ & Hp & _). by eapply ms_lt.
  - intros i e (l1 & l2 & _ & Hp & _). by eapply ms_key.
  - intros i e (l1 & l2 & _ & Hp & _). by eapply ms_value.
  - intros p (l1 & l2 & Hl & Hp & Hh). eapply Hop; [eapply ms_first, Hp|done..].
  - intros p (l1 & l2 & Hl & Hp & Hh). eapply Hop; [eapply ms_last, Hp|done..].
  - intros p t Ht (l1 & l2 & Hl & Hp & Hh). eapply Hop; [eapply ms_seek; [done|exact Hp]|done..].
  - intros i (l1 & l2 & Hl & Hp & Hh). eapply Hop; [eapply ms_next, Hp|done..].
  - intros i (l1 & l2 & Hl & Hp & Hh). eapply Hop; [eapply ms_prev, Hp|done..].
  - intros p (l1 & l2 & _ & Hp & _). by eapply ms_status.
  - intros p (l1 & l2 & Hl & Hp & Hh). eapply (triple_seq (beside ginv xinv) k k 0);
      [eapply triple_frame_perm; [apply _|eapply ms_delete, Hp|exact Hl]| |lia].
    intros _ l' (l3 & -> & ->). by apply Hf.
Qed.

End Beside.
