(* ===== verification/TwoLevel.v ===== *)
(** * Two-level iterators: table/two_level_iterator.cpp

    An iterator over an index whose values name blocks, and a function that
    makes an iterator for a block. The two together are a cursor in the
    concatenation of the blocks, whatever blocks are empty. *)

From S2P Require Import Prelude Coding Status Iterator World.

Record TwoLevelIterator (I D X : Type) := mkTwoLevel {
  tl_status : Status;
  tl_index : IteratorWrapper I;
  tl_data : IteratorWrapper D;
  tl_handle : bytes;
  tl_arg : X                 (** [arg_], with what the registered cleanups are given *)
}.
Arguments mkTwoLevel {I D X}.
Arguments tl_status {I D X}.
Arguments tl_index {I D X}.
Arguments tl_data {I D X}.
Arguments tl_handle {I D X}.
Arguments tl_arg {I D X}.

Section TwoLevel.
Context {G I D X : Type} (index : IteratorM G I) (data : IteratorM G D) (block_function : X -> bytes -> M G D) (cleanup : X -> M G unit).

Abbreviation T := (TwoLevelIterator I D X).

Definition tl_set_index (w : IteratorWrapper I) (t : T) : T := mkTwoLevel (tl_status t) w (tl_data t) (tl_handle t) (tl_arg t).
Definition tl_set_data (w : IteratorWrapper D) (t : T) : T := mkTwoLevel (tl_status t) (tl_index t) w (tl_handle t) (tl_arg t).
Definition tl_set_handle (h : bytes) (t : T) : T := mkTwoLevel (tl_status t) (tl_index t) (tl_data t) h (tl_arg t).

Definition SaveError (s : Status) (t : T) : T :=
  if ok (tl_status t) && negb (ok s) then mkTwoLevel s (tl_index t) (tl_data t) (tl_handle t) (tl_arg t) else t.

Definition new_TwoLevelIterator (i : I) (x : X) : option T :=
  w ← wrapper_Update index i empty_wrapper; Some (mkTwoLevel Status_OK w empty_wrapper [] x).

Definition SetDataIterator (iter : option D) (t : T) : M G T :=
  let t := match wrapper_status data (tl_data t) with Some s => SaveError s t | None => t end in
  w ← wrapper_Set data iter (tl_data t); mret (tl_set_data w t).

Definition InitDataBlock (t : T) : M G T :=
  if negb (w_valid (tl_index t)) then SetDataIterator None t
  else
    handle ← lift (wrapper_value index (tl_index t));
    if bool_decide (is_Some (w_iter (tl_data t))) && bool_decide (handle = tl_handle t) then mret t
    else iter ← block_function (tl_arg t) handle; SetDataIterator (Some iter) (tl_set_handle handle t).

(** [if (data_iter_.iter() != NULL) data_iter_.op()] *)
Definition data_op (op : IteratorWrapper D -> M G (IteratorWrapper D)) (t : T) : M G T :=
  match w_iter (tl_data t) with
  | Some _ => w ← op (tl_data t); mret (tl_set_data w t)
  | None => mret t
  end.

Definition data_done (t : T) : bool := negb (bool_decide (is_Some (w_iter (tl_data t))) && w_valid (tl_data t)).

Fixpoint SkipEmptyDataBlocksForward (fuel : nat) (t : T) : M G T :=
  match fuel with
  | O => lift None
  | S fuel =>
      if data_done t then
        if negb (w_valid (tl_index t)) then SetDataIterator None t
        else
          w ← wrapper_Next index (tl_index t);
          t ← InitDataBlock (tl_set_index w t);
          t ← data_op (wrapper_SeekToFirst data) t;
          SkipEmptyDataBlocksForward fuel t
      else mret t
  end.

Fixpoint SkipEmptyDataBlocksBackward (fuel : nat) (t : T) : M G T :=
  match fuel with
  | O => lift None
  | S fuel =>
      if data_done t then
        if negb (w_valid (tl_index t)) then SetDataIterator None t
        else
          w ← wrapper_Prev index (tl_index t);
          t ← InitDataBlock (tl_set_index w t);
          t ← data_op (wrapper_SeekToLast data) t;
          SkipEmptyDataBlocksBackward fuel t
      else mret t
  end.

(** [fuel] bounds the rounds of the loops that skip empty blocks. *)
Context (fuel : nat).

Definition TwoLevel_Seek (target : bytes) (t : T) : M G T :=
  w ← wrapper_Seek index target (tl_index t);
  t ← InitDataBlock (tl_set_index w t);
  t ← data_op (wrapper_Seek data target) t;
  SkipEmptyDataBlocksForward fuel t.

Definition TwoLevel_SeekToFirst (t : T) : M G T :=
  w ← wrapper_SeekToFirst index (tl_index t);
  t ← InitDataBlock (tl_set_index w t);
  t ← data_op (wrapper_SeekToFirst data) t;
  SkipEmptyDataBlocksForward fuel t.

Definition TwoLevel_SeekToLast (t : T) : M G T :=
  w ← wrapper_SeekToLast index (tl_index t);
  t ← InitDataBlock (tl_set_index w t);
  t ← data_op (wrapper_SeekToLast data) t;
  SkipEmptyDataBlocksBackward fuel t.

Definition TwoLevel_Next (t : T) : M G T :=
  if w_valid (tl_data t) then
    w ← wrapper_Next data (tl_data t); SkipEmptyDataBlocksForward fuel (tl_set_data w t)
  else lift None.

Definition TwoLevel_Prev (t : T) : M G T :=
  if w_valid (tl_data t) then
    w ← wrapper_Prev data (tl_data t); SkipEmptyDataBlocksBackward fuel (tl_set_data w t)
  else lift None.

Definition TwoLevel_status (t : T) : Status :=
  match wrapper_status index (tl_index t), wrapper_status data (tl_data t) with
  | Some s, d => if negb (ok s) then s
                 else match d with
                      | Some s => if negb (ok s) then s else tl_status t
                      | None => tl_status t
                      end
  | None, _ => tl_status t
  end.

(** The members are destroyed in reverse order, then the base class runs the
    cleanups. *)
Definition TwoLevel_delete (t : T) : M G unit :=
  _ ← wrapper_delete data (tl_data t); _ ← wrapper_delete index (tl_index t); cleanup (tl_arg t).

Definition NewTwoLevelIterator : IteratorM G T := {|
  im_Valid := fun t => w_valid (tl_data t);
  im_SeekToFirst := TwoLevel_SeekToFirst;
  im_SeekToLast := TwoLevel_SeekToLast;
  im_Seek := TwoLevel_Seek;
  im_Next := TwoLevel_Next;
  im_Prev := TwoLevel_Prev;
  im_key := fun t => wrapper_key (tl_data t);
  im_value := fun t => wrapper_value data (tl_data t);
  im_status := TwoLevel_status;
  im_delete := TwoLevel_delete
|}.

End TwoLevel.

(** ** A cursor in the concatenation *)

Section Spec.
Context {G R : Type} (ginv : nat -> list R -> G -> Prop) `{!World ginv}.
Context {I D X : Type} (index : IteratorM G I) (data : IteratorM G D) (block_function : X -> bytes -> M G D) (cleanup : X -> M G unit).
Context (T0 : bytes -> Prop) (cmp : bytes -> bytes -> comparison) `{!TotalCmp cmp}.

(** The index, and the entries of each block. *)
Context (ies : entries) (blocks : list entries) (Hlen : length blocks = length ies).
Context (ki kd kb : nat) (ipos : I -> list R -> option nat -> Prop) (dpos : nat -> D -> list R -> option nat -> Prop).
Context `{!IteratorMSpec ginv T0 index cmp ies ki ipos}.
Context (Hdata : forall i es, blocks !! i = Some es -> IteratorMSpec ginv T0 data cmp es kd (dpos i)).

(** The resources the block function works with stay with the iterator. *)
Context (arg : X -> list R -> Prop) (x : X).
Context (Hblock : forall i e l, ies !! i = Some e -> arg x l ->
  triple ginv kb l (block_function x e.2) (fun d l' => exists ld la, l' ≡ₚ ld ++ la /\ arg x la /\ dpos i d ld None)).
Context (Hcleanup : forall l, arg x l -> triple ginv 0 l (cleanup x) (fun _ l' => l' = [])).

(** Different blocks have different handles, and the index keys separate them. *)
Context (Hhandles : NoDup ies.*2).
Context (Hseps : forall i es e, blocks !! i = Some es -> e ∈ es -> forall s, ies !! i = Some s -> cmp e.1 s.1 <> Gt).
Context (Hseps' : forall i j es e, (i < j)%nat -> blocks !! j = Some es -> e ∈ es -> forall s, ies !! i = Some s -> cmp s.1 e.1 = Lt).

Abbreviation T := (TwoLevelIterator I D X).

Definition start (i : nat) : nat := length (concat (take i blocks)).

Definition handle_at (i : nat) : bytes := from_option snd [] (ies !! i).

(** The data iterator: NULL, or an iterator of block [a] with its handle
    remembered. *)
Definition data_state (t : T) (ld : list R) (d : option (nat * option nat)) : Prop :=
  match d with
  | None => unset (tl_data t) /\ ld = []
  | Some (a, q) => exists es, blocks !! a = Some es /\ wraps es (dpos a) (tl_data t) ld q /\ tl_handle t = handle_at a
  end.

Definition state (t : T) (L : list R) (pi : option nat) (d : option (nat * option nat)) : Prop :=
  tl_status t = Status_OK /\ tl_arg t = x /\
  exists li ld la, L ≡ₚ li ++ ld ++ la /\ wraps ies ipos (tl_index t) li pi /\ arg x la /\ data_state t ld d.

(** The position in the concatenation. *)
Definition tpos (t : T) (L : list R) (p : option nat) : Prop :=
  match p with
  | None => state t L None None
  | Some n => exists i j, state t L (Some i) (Some (i, Some j)) /\ n = (start i + j)%nat
  end.

(** *** Positions *)

Lemma start_S i es : blocks !! i = Some es -> start (S i) = (start i + length es)%nat.
Proof. intros H. unfold start. rewrite (take_S_r _ _ _ H), concat_app, length_app. cbn. by rewrite app_nil_r. Qed.

Lemma start_le i : (start i <= length (concat blocks))%nat.
Proof. unfold start. rewrite <- (take_drop i blocks) at 2. rewrite concat_app, length_app. lia. Qed.

Lemma start_mono a b : (a <= b)%nat -> (start a <= start b)%nat.
Proof.
  intros H. unfold start. rewrite <- (take_drop a (take b blocks)), take_take, Nat.min_l by done.
  rewrite concat_app, length_app. lia.
Qed.

Lemma start_end i : (length blocks <= i)%nat -> start i = length (concat blocks).
Proof. intros H. unfold start. by rewrite take_ge. Qed.

Lemma concat_block i es j : blocks !! i = Some es -> (j < length es)%nat -> concat blocks !! (start i + j)%nat = es !! j.
Proof.
  intros H Hj. rewrite <- (take_drop_middle blocks i es H). unfold start. rewrite concat_app. cbn [concat].
  rewrite lookup_app_r by lia. rewrite Nat.add_comm, Nat.add_sub. by rewrite lookup_app_l.
Qed.

(** Where the entry [n] of the concatenation lies. *)
Lemma concat_split n e : concat blocks !! n = Some e -> exists i es j, blocks !! i = Some es /\ es !! j = Some e /\ n = (start i + j)%nat.
Proof.
  intros Hn. assert (Hex : exists i, (i < length blocks)%nat /\ (start i <= n < start (S i))%nat).
  { apply lookup_lt_Some in Hn. clear -Hn. rewrite <- (start_end (length blocks)) in Hn by lia.
    assert (Hk : forall k, (n < start k)%nat -> (k <= length blocks)%nat -> exists i, (i < length blocks)%nat /\ (start i <= n < start (S i))%nat).
    { induction k as [|k IH]; intros Hs Hk; [change (start 0) with 0%nat in Hs; lia|].
      destruct (decide (n < start k)%nat); [apply IH; lia|]. exists k. lia. }
    by apply (Hk (length blocks)). }
  destruct Hex as (i & Hi & Hs). destruct (lookup_lt_is_Some_2 blocks i Hi) as [es Hes]. rewrite (start_S i es Hes) in Hs.
  exists i, es, (n - start i)%nat. split; [done|]. split; [|lia]. rewrite <- (concat_block i es) by (done || lia).
  rewrite <- Hn. f_equal. lia.
Qed.

Definition end_or (n : nat) : option nat := if (n <? length (concat blocks))%nat then Some n else None.

(** Where the cursor gets to from position [q] of block [i], going forward and
    going backward. *)
Definition forward (i : nat) (q : option nat) : option nat :=
  match q with Some j => Some (start i + j)%nat | None => end_or (start (S i)) end.
Definition backward (i : nat) (q : option nat) : option nat :=
  match q with Some j => Some (start i + j)%nat | None => prev_pos (start i) end.

(** *** Setting the data iterator *)

Lemma SetData_eq (t t0 : T) ld d iter : data_state t0 ld d -> tl_data t = tl_data t0 ->
  SetDataIterator data iter t = (w ← wrapper_Set data iter (tl_data t); mret (tl_set_data w t)).
Proof.
  intros Hd Ht. unfold SetDataIterator.
  assert (E : match wrapper_status data (tl_data t) with Some s => SaveError s t | None => t end = t); [|by rewrite E].
  rewrite Ht. destruct d as [[a q]|].
  - destruct Hd as (es & Hes & Hw & _). pose proof (Hdata a es Hes) as Hsp. rewrite (wraps_status data ginv (tl_data t0) ld q Hw).
    unfold SaveError. cbn [ok Status_OK negb]. by rewrite andb_false_r.
  - destruct Hd as [[Hn _] _]. unfold wrapper_status. by rewrite Hn.
Qed.

Lemma data_delete t ld d : data_state t ld d -> triple ginv kd ld (wrapper_delete data (tl_data t)) (fun _ l' => l' = []).
Proof.
  intros Hd. destruct d as [[a q]|].
  - destruct Hd as (es & Hes & Hw & _). pose proof (Hdata a es Hes) as Hsp. by apply (wraps_delete data ginv _ _ q).
  - destruct Hd as [Hu ->]. apply (triple_mono ginv 0 _ _ _ (fun _ l' => l' = [])); [by apply (unset_delete data ginv)|lia|done].
Qed.

Lemma SetData_null t L pi d : state t L pi d ->
  triple ginv kd L (SetDataIterator data None t) (fun t' L' => state t' L' pi None).
Proof.
  intros (Hst & Hx & li & ld & la & HL & Hi & Ha & Hd). rewrite (SetData_eq t t ld d _ Hd eq_refl).
  apply (triple_seq _ kd kd 0 _ _ _ (fun w L' => exists l1, L' = l1 ++ (li ++ la) /\ unset w /\ l1 = [])); [| |lia].
  - eapply (triple_frame_perm ginv); [apply (wrapper_Set_null data ginv); by eapply data_delete|]. rewrite HL. by rewrite Permutation_app_swap_app.
  - intros w L' (l1 & -> & Hu & ->). apply (triple_ret ginv). split; [done|]. split; [done|]. exists li, [], la. done.
Qed.

Lemma SetData_iter t L L0 pi d i dd ld' es : state t L0 pi d -> L ≡ₚ ld' ++ L0 -> blocks !! i = Some es -> dpos i dd ld' None ->
  triple ginv kd L (SetDataIterator data (Some dd) (tl_set_handle (handle_at i) t)) (fun t' L' => state t' L' pi (Some (i, None))).
Proof.
  intros (Hst & Hx & li & ld & la & HL & Hi & Ha & Hd) HL0 Hes Hdd. pose proof (Hdata i es Hes) as Hsp.
  assert (Hdel : triple ginv kd ld (wrapper_delete data (tl_data t)) (fun _ l' => l' = [])) by (by eapply data_delete).
  rewrite (SetData_eq (tl_set_handle (handle_at i) t) t ld d _ Hd eq_refl). cbn [tl_data tl_set_handle].
  apply (triple_seq _ kd kd 0 _ _ _ (fun w L' => exists l1, L' = l1 ++ (li ++ la) /\ wraps es (dpos i) w l1 None)); [| |lia].
  - eapply (triple_frame_perm ginv); [by apply (wrapper_Set_wraps data ginv kd dd ld' ld None (tl_data t))|]. rewrite HL0, HL.
    rewrite <- !app_assoc. apply Permutation_app_head. by rewrite Permutation_app_swap_app.
  - intros w L' (l1 & -> & Hw). apply (triple_ret ginv). split; [done|]. split; [done|]. exists li, l1, la.
    split; [by rewrite Permutation_app_swap_app|]. split; [done|]. split; [done|]. exists es. done.
Qed.

Lemma handle_inj i j e : ies !! i = Some e -> e.2 = handle_at j -> (j < length blocks)%nat -> i = j.
Proof.
  intros Hi He Hj. rewrite Hlen in Hj. destruct (lookup_lt_is_Some_2 ies j Hj) as [f Hf]. unfold handle_at in He. rewrite Hf in He. cbn in He.
  apply (NoDup_lookup ies.*2 i j e.2 Hhandles); rewrite list_lookup_fmap; [by rewrite Hi|by rewrite Hf, He].
Qed.

(** After [InitDataBlock] the data iterator is one of the block the index
    stands at. *)
Definition at_block (t : T) (L : list R) (pi : option nat) (q : nat -> option nat -> Prop) : Prop :=
  match pi with
  | None => state t L None None
  | Some i => exists es p, blocks !! i = Some es /\ q i p /\ state t L (Some i) (Some (i, p))
  end.

Lemma InitDataBlock_spec t L pi d : state t L pi d ->
  triple ginv (kb + kd) L (InitDataBlock index data block_function t) (fun t' L' => at_block t' L' pi (fun _ _ => True)).
Proof.
  intros Hs. pose proof Hs as (Hst & Hx & li & ld & la & HL & Hi & Ha & Hd). unfold InitDataBlock.
  rewrite (wraps_valid (S := I) (tl_index t) li pi Hi). destruct pi as [i|].
  2:{ rewrite bool_decide_eq_false_2 by (by intros []). cbn [negb].
      apply (triple_mono ginv kd _ _ _ (fun t' L' => state t' L' None None)); [by eapply SetData_null|lia|done]. }
  rewrite bool_decide_eq_true_2 by done. cbn [negb]. pose proof (wraps_lt index ginv _ _ _ Hi) as Hlt.
  destruct (lookup_lt_is_Some_2 ies i Hlt) as [e He]. rewrite <- Hlen in Hlt. destruct (lookup_lt_is_Some_2 blocks i Hlt) as [es Hes].
  assert (Hh : handle_at i = e.2) by (unfold handle_at; by rewrite He).
  apply (triple_seq ginv _ 0 (kb + kd) _ _ _ (fun h l' => h = e.2 /\ l' = L)); [eapply (triple_lift ginv); [by eapply (wraps_value index ginv)|done]| |lia].
  intros h l' [-> ->]. destruct (bool_decide (is_Some (w_iter (tl_data t))) && bool_decide (e.2 = tl_handle t)) eqn:Eq.
  - apply andb_prop in Eq as [E1%bool_decide_eq_true E2%bool_decide_eq_true].
    apply (triple_mono ginv 0 _ _ _ (fun t' L' => t' = t /\ L' = L)); [by apply (triple_ret ginv)|apply Nat.le_0_l|]. intros t' L' [-> ->].
    destruct d as [[a q]|]; [|destruct Hd as [[Hn _] _]; rewrite Hn in E1; by destruct E1].
    assert (i = a) as <-. { destruct Hd as (es' & Hes' & _ & Hh'). apply (handle_inj i a e He); [congruence|by eapply lookup_lt_Some]. }
    exists es, q. done.
  - clear Eq. rewrite Hx. apply (triple_seq ginv _ kb kd _ _ _ (fun dd L' => exists l1, L' = l1 ++ (li ++ ld) /\ exists ld' la', l1 ≡ₚ ld' ++ la' /\ arg x la' /\ dpos i dd ld' None)).
    + eapply (triple_frame_perm ginv); [by apply (Hblock i)|]. rewrite HL. solve_Permutation.
    + intros dd L' (l1 & -> & ld' & la' & Hl1 & Ha' & Hdd). rewrite <- Hh.
      apply (triple_mono ginv kd _ _ _ (fun t' L' => state t' L' (Some i) (Some (i, None)))); [|lia|].
      * eapply (SetData_iter t _ (li ++ ld ++ la') (Some i) d i dd ld' es); [|rewrite Hl1; solve_Permutation|done|done].
        split; [done|]. split; [done|]. exists li, ld, la'. done.
      * intros t' L' Hs'. exists es, None. done.
    + lia.
Qed.

(** An operation of the data iterator that moves it to [f] of its block. *)
Definition moves (op : IteratorWrapper D -> M G (IteratorWrapper D)) (f : entries -> option nat) : Prop :=
  forall i es w l q, blocks !! i = Some es -> wraps es (dpos i) w l q -> triple ginv kd l (op w) (fun w' l' => wraps es (dpos i) w' l' (f es)).

Lemma first_moves : moves (wrapper_SeekToFirst data) first_pos.
Proof. intros i es w l q Hes Hw. pose proof (Hdata i es Hes). by apply (wrapper_first data ginv w l q). Qed.

Lemma last_moves : moves (wrapper_SeekToLast data) last_pos.
Proof. intros i es w l q Hes Hw. pose proof (Hdata i es Hes). by apply (wrapper_last data ginv w l q). Qed.

Lemma seek_moves tgt : T0 tgt -> moves (wrapper_Seek data tgt) (fun es => seek_pos cmp es tgt).
Proof. intros Ht i es w l q Hes Hw. pose proof (Hdata i es Hes). by apply (wrapper_seek data ginv w l q). Qed.

Lemma data_moves t L pi i q es (m : M G (IteratorWrapper D)) q' : state t L pi (Some (i, q)) -> blocks !! i = Some es ->
  (forall l, wraps es (dpos i) (tl_data t) l q -> triple ginv kd l m (fun w' l' => wraps es (dpos i) w' l' q')) ->
  triple ginv kd L m (fun w' L' => state (tl_set_data w' t) L' pi (Some (i, q'))).
Proof.
  intros (Hst & Hx & li & ld & la & HL & Hi & Ha & es' & Hes' & Hw & Hh) Hes Hm. rewrite Hes in Hes'. injection Hes' as <-.
  apply (triple_mono ginv kd _ _ _ (fun w' L' => exists l1, L' = l1 ++ (li ++ la) /\ wraps es (dpos i) w' l1 q')); [|lia|].
  - eapply (triple_frame_perm ginv); [by apply Hm|]. rewrite HL. solve_Permutation.
  - intros w' L' (l1 & -> & Hw'). split; [done|]. split; [done|]. exists li, l1, la. split; [solve_Permutation|].
    split; [done|]. split; [done|]. by exists es.
Qed.

(** The common part of the seeks and of the loops: a new block and a position
    in it, and then [k]. *)
Lemma block_step t L pi d op f (k : T -> M G T) kk Q : state t L pi d -> moves op f ->
  (forall t' L', at_block t' L' pi (fun i p => forall es, blocks !! i = Some es -> p = f es) -> triple ginv kk L' (k t') Q) ->
  triple ginv (kb + 2 * kd + kk) L (t ← InitDataBlock index data block_function t; t ← data_op op t; k t) Q.
Proof.
  intros Hs Hop Hk. apply (triple_seq ginv _ (kb + kd) (kd + kk) _ _ _ (fun t' L' => at_block t' L' pi (fun _ _ => True))); [by eapply InitDataBlock_spec| |lia].
  intros t1 L1 Hat. eapply (triple_seq ginv _ kd kk); [|exact Hk|lia]. unfold data_op. destruct pi as [i|].
  - destruct Hat as (es & p & Hes & _ & Hst). pose proof Hst as (_ & _ & _ & _ & _ & _ & _ & _ & _ & _ & (s0 & Hs0 & _) & _). rewrite Hs0.
    apply (triple_seq ginv _ kd 0 _ _ _ (fun w' L' => state (tl_set_data w' t1) L' (Some i) (Some (i, f es)))); [| |lia].
    + eapply data_moves; [done|done|]. intros l Hw. by eapply Hop.
    + intros w' L' Hst'. apply (triple_ret ginv). exists es, (f es). split; [done|]. split; [|done].
      intros es' Hes'. congruence.
  - pose proof Hat as (_ & _ & _ & _ & _ & _ & _ & _ & [Hn _] & _). rewrite Hn.
    apply (triple_mono ginv 0 _ _ _ (fun t' L' => t' = t1 /\ L' = L1)); [by apply (triple_ret ginv)|lia|]. by intros t' L' [-> ->].
Qed.

(** *** The loops *)

Definition step_cost : nat := (ki + kb + 3 * kd)%nat.

Lemma cost_ge n : (1 <= n)%nat -> (kd <= n * step_cost)%nat.
Proof. intros Hn. transitivity (1 * step_cost)%nat; [unfold step_cost; lia|by apply Nat.mul_le_mono_r]. Qed.

Lemma data_done_at t L pi i q : state t L pi (Some (i, q)) -> data_done t = negb (bool_decide (is_Some q)).
Proof.
  intros (_ & _ & _ & _ & _ & _ & _ & _ & es & _ & (s0 & Hs0 & _ & Hv & _) & _). unfold data_done. rewrite Hs0, Hv.
  by rewrite bool_decide_eq_true_2.
Qed.

Lemma data_done_none t L pi : state t L pi None -> data_done t = true.
Proof. intros (_ & _ & _ & _ & _ & _ & _ & _ & [Hn _] & _). unfold data_done. rewrite Hn. done. Qed.

Lemma index_valid t L pi d : state t L pi d -> w_valid (tl_index t) = bool_decide (is_Some pi).
Proof. intros (_ & _ & li & _ & _ & _ & Hi & _). by eapply wraps_valid. Qed.

Lemma index_moves t L pi d (m : M G (IteratorWrapper I)) pi' : state t L pi d ->
  (forall l, wraps ies ipos (tl_index t) l pi -> triple ginv ki l m (fun w' l' => wraps ies ipos w' l' pi')) ->
  triple ginv ki L m (fun w' L' => state (tl_set_index w' t) L' pi' d).
Proof.
  intros (Hst & Hx & li & ld & la & HL & Hi & Ha & Hd) Hm.
  apply (triple_mono ginv ki _ _ _ (fun w' L' => exists l1, L' = l1 ++ (ld ++ la) /\ wraps ies ipos w' l1 pi')); [|lia|].
  - eapply (triple_frame_perm ginv); [by apply Hm|done].
  - intros w' L' (l1 & -> & Hw'). split; [done|]. split; [done|]. exists l1, ld, la. by destruct d as [[a q]|].
Qed.

Lemma skip_end t L : state t L None None -> forall fuel,
  triple ginv kd L (SkipEmptyDataBlocksForward index data block_function (S fuel) t) (fun t' L' => tpos t' L' None) /\
  triple ginv kd L (SkipEmptyDataBlocksBackward index data block_function (S fuel) t) (fun t' L' => tpos t' L' None).
Proof.
  intros Hs fuel. cbn [SkipEmptyDataBlocksForward SkipEmptyDataBlocksBackward]. rewrite (data_done_none _ _ _ Hs), (index_valid _ _ _ _ Hs).
  rewrite bool_decide_eq_false_2 by (by intros []). split; by apply SetData_null with None.
Qed.

(** One round of a loop. *)
Lemma skip_round t L i d pi' op f (mv : IteratorWrapper I -> M G (IteratorWrapper I)) (k : T -> M G T) kk Q :
  state t L (Some i) d -> moves op f ->
  (forall l, wraps ies ipos (tl_index t) l (Some i) -> triple ginv ki l (mv (tl_index t)) (fun w' l' => wraps ies ipos w' l' pi')) ->
  (forall t' L', at_block t' L' pi' (fun i p => forall es, blocks !! i = Some es -> p = f es) -> triple ginv kk L' (k t') Q) ->
  triple ginv (step_cost + kk) L
    (w ← mv (tl_index t); t ← InitDataBlock index data block_function (tl_set_index w t); t ← data_op op t; k t) Q.
Proof.
  intros Hs Hop Hmv Hk. apply (triple_seq ginv _ ki (kb + 2 * kd + kk) _ _ _ (fun w L' => state (tl_set_index w t) L' pi' d)).
  - by eapply index_moves.
  - intros w L1 Hs1. by eapply block_step.
  - unfold step_cost. lia.
Qed.

Lemma skip_forward fuel : forall t L i q, state t L (Some i) (Some (i, q)) -> (length ies - i <= fuel)%nat ->
  triple ginv ((length ies - i + 1) * step_cost) L (SkipEmptyDataBlocksForward index data block_function (S fuel) t)
    (fun t' L' => tpos t' L' (forward i q)).
Proof.
  induction fuel as [|fuel IH]; intros t L i q Hs Hf.
  all: assert (Hi : (i < length ies)%nat) by (destruct Hs as (_ & _ & ? & _ & _ & _ & Hx & _); by apply (wraps_lt index ginv) in Hx).
  { lia. }
  set (n := S fuel) in *. cbn [SkipEmptyDataBlocksForward].
  rewrite (data_done_at _ _ _ _ _ Hs), (index_valid _ _ _ _ Hs). rewrite (bool_decide_eq_true_2 (is_Some (Some i))) by done. cbn [negb].
  destruct q as [j|].
  { rewrite bool_decide_eq_true_2 by done. cbn [negb]. apply (triple_mono ginv 0 _ _ _ (fun t' L' => t' = t /\ L' = L)); [by apply (triple_ret ginv)|apply Nat.le_0_l|].
    intros t' L' [-> ->]. by exists i, j. }
  rewrite bool_decide_eq_false_2 by (by intros []). cbn [negb]. replace (length ies - i + 1)%nat with (S (length ies - i)) by lia. cbn [Nat.mul].
  eapply (skip_round t L i _ (next_pos ies i)); [exact Hs|exact first_moves|intros l Hw; by apply (wrapper_next index ginv)|].
  intros t1 L1. unfold next_pos. destruct (Nat.ltb_spec (S i) (length ies)) as [Hlt|Hge].
  - intros (es & p & Hes & Hp & Hs1). rewrite (Hp es Hes) in Hs1. unfold n.
    apply (triple_mono ginv ((length ies - S i + 1) * step_cost) _ _ _ (fun t' L' => tpos t' L' (forward (S i) (first_pos es)))); [apply IH; [done|lia]|apply Nat.mul_le_mono_r; lia|].
    intros t2 L2. replace (forward (S i) (first_pos es)) with (forward i None); [done|]. unfold forward, end_or.
    pose proof (start_S (S i) es Hes) as Hst. pose proof (start_le (S (S i))) as Hle. destruct es as [|e es]; cbn [first_pos length] in *.
    + by rewrite Hst, Nat.add_0_r.
    + destruct (Nat.ltb_spec (start (S i)) (length (concat blocks))); [f_equal; lia|lia].
  - intros Hs1. apply (triple_mono ginv kd _ _ _ (fun t' L' => tpos t' L' None)); [by apply skip_end|apply cost_ge; lia|].
    unfold forward, end_or. rewrite start_end, Nat.ltb_irrefl by lia. done.
Qed.

Lemma skip_backward fuel : forall t L i q, state t L (Some i) (Some (i, q)) -> (i < fuel)%nat ->
  triple ginv ((i + 2) * step_cost) L (SkipEmptyDataBlocksBackward index data block_function (S fuel) t)
    (fun t' L' => tpos t' L' (backward i q)).
Proof.
  induction fuel as [|fuel IH]; intros t L i q Hs Hf; [lia|].
  set (n := S fuel) in *. cbn [SkipEmptyDataBlocksBackward].
  rewrite (data_done_at _ _ _ _ _ Hs), (index_valid _ _ _ _ Hs). rewrite (bool_decide_eq_true_2 (is_Some (Some i))) by done. cbn [negb].
  destruct q as [j|].
  { rewrite bool_decide_eq_true_2 by done. cbn [negb]. apply (triple_mono ginv 0 _ _ _ (fun t' L' => t' = t /\ L' = L)); [by apply (triple_ret ginv)|apply Nat.le_0_l|].
    intros t' L' [-> ->]. by exists i, j. }
  rewrite bool_decide_eq_false_2 by (by intros []). cbn [negb]. replace (i + 2)%nat with (S (i + 1)) by lia. cbn [Nat.mul].
  eapply (skip_round t L i _ (prev_pos i)); [exact Hs|exact last_moves|intros l Hw; by apply (wrapper_prev index ginv)|].
  intros t1 L1. destruct i as [|i]; cbn [prev_pos].
  - intros Hs1. apply (triple_mono ginv kd _ _ _ (fun t' L' => tpos t' L' None)); [by apply skip_end|apply cost_ge; lia|done].
  - intros (es & p & Hes & Hp & Hs1). rewrite (Hp es Hes) in Hs1. unfold n.
    apply (triple_mono ginv ((i + 2) * step_cost) _ _ _ (fun t' L' => tpos t' L' (backward i (last_pos es)))); [apply IH; [done|lia]|apply Nat.mul_le_mono_r; lia|].
    intros t2 L2. replace (backward i (last_pos es)) with (backward (S i) None); [done|]. unfold backward.
    pose proof (start_S i es Hes) as Hst. destruct es as [|e es]; cbn [last_pos length] in *.
    + by rewrite Hst, Nat.add_0_r.
    + rewrite Hst. rewrite Nat.add_succ_r. cbn [prev_pos]. f_equal. lia.
Qed.

(** *** Where the operations lead *)

Lemma concat_seek_none tgt : seek_pos cmp ies tgt = None -> seek_pos cmp (concat blocks) tgt = None.
Proof.
  intros Hi. apply seek_pos_none. intros n e Hn. destruct (concat_split n e Hn) as (i & es & j & Hes & Hj & ->).
  pose proof (seek_pos_inv cmp ies tgt) as Hinv. rewrite Hi in Hinv.
  destruct (lookup_lt_is_Some_2 ies i) as [s Hs]; [rewrite <- Hlen; by eapply lookup_lt_Some|].
  apply (cmp_le_lt_trans cmp _ s.1); [|by apply (Hinv i)]. apply (Hseps i es e Hes); [by eapply list_elem_of_lookup_2|done].
Qed.

Lemma concat_seek tgt i es : seek_pos cmp ies tgt = Some i -> blocks !! i = Some es ->
  seek_pos cmp (concat blocks) tgt = forward i (seek_pos cmp es tgt).
Proof.
  intros Hi Hes. pose proof (seek_pos_inv cmp ies tgt) as Hinv. rewrite Hi in Hinv. destruct Hinv as (s & Hs & Hge & Hlt).
  assert (Hbefore : forall n f, (n < start i)%nat -> concat blocks !! n = Some f -> cmp f.1 tgt = Lt).
  { intros n f Hn Hf. destruct (concat_split n f Hf) as (a & es' & j & Ha & Hj & ->).
    assert (Hai : (a < i)%nat).
    { apply Nat.nle_gt. intros Hle. pose proof (start_mono i a Hle). lia. }
    destruct (lookup_lt_is_Some_2 ies a) as [sa Hsa]; [apply lookup_lt_Some in Hs; lia|].
    apply (cmp_le_lt_trans cmp _ sa.1); [|by apply (Hlt a)]. apply (Hseps a es' f Ha); [by eapply list_elem_of_lookup_2|done]. }
  pose proof (seek_pos_inv cmp es tgt) as Hinv. destruct (seek_pos cmp es tgt) as [j|]; cbn [forward].
  - destruct Hinv as (e & He & Hge' & Hlt'). pose proof (lookup_lt_Some _ _ _ He).
    apply (seek_pos_at _ _ _ _ e); [|by rewrite (concat_block i es)|done].
    intros n f Hn Hf. destruct (decide (n < start i)%nat); [by apply (Hbefore n)|].
    apply (Hlt' (n - start i)%nat); [lia|]. rewrite <- (concat_block i es) by (done || lia). rewrite <- Hf. f_equal. lia.
  - unfold end_or. pose proof (start_S i es Hes) as Hst.
    assert (Hbefore' : forall n f, (n < start (S i))%nat -> concat blocks !! n = Some f -> cmp f.1 tgt = Lt).
    { intros n f Hn Hf. destruct (decide (n < start i)%nat); [by apply (Hbefore n)|].
      apply (Hinv (n - start i)%nat). rewrite <- (concat_block i es) by (done || lia). rewrite <- Hf. f_equal. lia. }
    destruct (Nat.ltb_spec (start (S i)) (length (concat blocks))) as [Hb|Hb].
    + destruct (lookup_lt_is_Some_2 _ _ Hb) as [e He]. apply (seek_pos_at _ _ _ _ e); [done|done|].
      destruct (concat_split _ e He) as (a & es' & j & Ha & Hj & Heq).
      assert (Hai : (i < a)%nat).
      { apply Nat.nle_gt. intros Hle. pose proof (lookup_lt_Some _ _ _ Hj). pose proof (start_S a es' Ha).
        pose proof (start_mono (S a) (S i) ltac:(lia)). lia. }
      assert (cmp s.1 e.1 = Lt) by (apply (Hseps' i a es' e Hai Ha); [by eapply list_elem_of_lookup_2|done]).
      intros Het. apply Hge. by apply (cmp_lt_trans cmp _ e.1).
    + apply seek_pos_none. intros n f Hf. apply (Hbefore' n f); [|done]. apply lookup_lt_Some in Hf. lia.
Qed.

Lemma empty_concat : length ies = 0%nat -> concat blocks = [].
Proof. intros Hn. rewrite <- Hlen in Hn. apply nil_length_inv in Hn. by rewrite Hn. Qed.

Lemma concat_first es : blocks !! 0%nat = Some es -> first_pos (concat blocks) = forward 0 (first_pos es).
Proof.
  intros Hes. pose proof (start_S 0 es Hes) as Hst. change (start 0) with 0%nat in Hst. pose proof (start_le 1) as Hle.
  rewrite !first_pos_0. unfold forward, end_or. destruct (Nat.ltb_spec 0 (length es)).
  - destruct (Nat.ltb_spec 0 (length (concat blocks))); [done|lia].
  - rewrite Hst. by replace (0 + length es)%nat with 0%nat by lia.
Qed.

Lemma concat_last i es : (S i = length blocks)%nat -> blocks !! i = Some es -> last_pos (concat blocks) = backward i (last_pos es).
Proof.
  intros Hi Hes. pose proof (start_S i es Hes) as Hst. rewrite start_end in Hst by lia. unfold backward.
  rewrite last_pos_prev, Hst, last_pos_prev. destruct (length es) as [|n]; cbn [prev_pos]; [by rewrite Nat.add_0_r|].
  by rewrite Nat.add_succ_r.
Qed.

Lemma concat_next i es j : blocks !! i = Some es -> (j < length es)%nat -> next_pos (concat blocks) (start i + j) = forward i (next_pos es j).
Proof.
  intros Hes Hj. pose proof (start_S i es Hes) as Hst. pose proof (start_le (S i)) as Hle. unfold next_pos.
  destruct (Nat.ltb_spec (S j) (length es)); cbn [forward].
  - destruct (Nat.ltb_spec (S (start i + j)) (length (concat blocks))); [f_equal; lia|lia].
  - unfold end_or. replace (start (S i)) with (S (start i + j)) by lia. done.
Qed.

Lemma concat_prev i j : prev_pos (start i + j) = backward i (prev_pos j).
Proof. destruct j as [|j]; cbn [prev_pos backward]; [by rewrite Nat.add_0_r|]. by rewrite Nat.add_succ_r. Qed.

Definition op_cost : nat := ((length ies + 4) * step_cost)%nat.

Lemma op_cost_ge n : (n <= length ies + 4)%nat -> (n * step_cost <= op_cost)%nat.
Proof. intros H. unfold op_cost. by apply Nat.mul_le_mono_r. Qed.

Context (fuel : nat) (Hfuel : (length ies <= fuel)%nat).
Abbreviation twolevel := (NewTwoLevelIterator index data block_function cleanup (S fuel)).

Lemma tpos_state t L p : tpos t L p -> exists pi d, state t L pi d.
Proof. destruct p as [n|]; [intros (i & j & Hs & _)|intros Hs]; eauto. Qed.

(** The seeks: a position of the index, a position in its block, and the loop. *)
Lemma seek_op t L p pi' op f mv (k : T -> M G T) Q : tpos t L p -> moves op f ->
  (forall l pi, wraps ies ipos (tl_index t) l pi -> triple ginv ki l (mv (tl_index t)) (fun w' l' => wraps ies ipos w' l' pi')) ->
  (forall t' L', at_block t' L' pi' (fun i p => forall es, blocks !! i = Some es -> p = f es) ->
    triple ginv ((length ies + 3) * step_cost) L' (k t') Q) ->
  triple ginv op_cost L (w ← mv (tl_index t); t ← InitDataBlock index data block_function (tl_set_index w t); t ← data_op op t; k t) Q.
Proof.
  intros (pi & d & Hs)%tpos_state Hop Hmv Hk.
  apply (triple_seq ginv _ ki (kb + 2 * kd + (length ies + 3) * step_cost) _ _ _ (fun w L' => state (tl_set_index w t) L' pi' d)).
  - eapply index_moves; [exact Hs|]. intros l Hw. by eapply Hmv.
  - intros w L1 Hs1. by eapply block_step.
  - unfold op_cost. replace (length ies + 4)%nat with (S (length ies + 3)) by lia. cbn [Nat.mul]. unfold step_cost at 2. lia.
Qed.

Lemma forward_ends t L pi q p : at_block t L pi q -> (pi = None -> p = None) ->
  (forall i es d, pi = Some i -> blocks !! i = Some es -> q i d -> p = forward i d) ->
  triple ginv ((length ies + 3) * step_cost) L (SkipEmptyDataBlocksForward index data block_function (S fuel) t) (fun t' L' => tpos t' L' p).
Proof.
  intros Hat Hn Hsm. destruct pi as [i|].
  - destruct Hat as (es & d & Hes & Hq & Hs). rewrite (Hsm i es d eq_refl Hes Hq).
    apply (triple_mono ginv ((length ies - i + 1) * step_cost) _ _ _ (fun t' L' => tpos t' L' (forward i d))); [apply skip_forward; [done|lia]|apply Nat.mul_le_mono_r; lia|done].
  - rewrite (Hn eq_refl). apply (triple_mono ginv kd _ _ _ (fun t' L' => tpos t' L' None)); [by apply skip_end|apply cost_ge; lia|done].
Qed.

Lemma backward_ends t L pi q p : at_block t L pi q -> (pi = None -> p = None) ->
  (forall i es d, pi = Some i -> blocks !! i = Some es -> q i d -> p = backward i d) ->
  triple ginv ((length ies + 3) * step_cost) L (SkipEmptyDataBlocksBackward index data block_function (S fuel) t) (fun t' L' => tpos t' L' p).
Proof.
  intros Hat Hn Hsm. destruct pi as [i|].
  - destruct Hat as (es & d & Hes & Hq & Hs). rewrite (Hsm i es d eq_refl Hes Hq).
    assert (Hi : (i < length ies)%nat) by (rewrite <- Hlen; by eapply lookup_lt_Some).
    apply (triple_mono ginv ((i + 2) * step_cost) _ _ _ (fun t' L' => tpos t' L' (backward i d))); [apply skip_backward; [done|lia]|apply Nat.mul_le_mono_r; lia|done].
  - rewrite (Hn eq_refl). apply (triple_mono ginv kd _ _ _ (fun t' L' => tpos t' L' None)); [by apply skip_end|apply cost_ge; lia|done].
Qed.

Lemma two_level_seek t L p tgt : T0 tgt -> tpos t L p ->
  triple ginv op_cost L (im_Seek twolevel tgt t) (fun t' L' => tpos t' L' (seek_pos cmp (concat blocks) tgt)).
Proof.
  intros HT Hp. apply (seek_op t L p (seek_pos cmp ies tgt) _ _ (wrapper_Seek index tgt) _ _ Hp (seek_moves tgt HT)).
  { intros l pi Hw. by apply (wrapper_seek index ginv _ _ pi). }
  intros t' L' Hat. eapply forward_ends; [exact Hat|apply concat_seek_none|].
  intros i es d Hi Hes Hd. rewrite (Hd es Hes). by apply concat_seek.
Qed.

Lemma two_level_first t L p : tpos t L p ->
  triple ginv op_cost L (im_SeekToFirst twolevel t) (fun t' L' => tpos t' L' (first_pos (concat blocks))).
Proof.
  intros Hp. apply (seek_op t L p (first_pos ies) _ _ (wrapper_SeekToFirst index) _ _ Hp first_moves).
  { intros l pi Hw. by apply (wrapper_first index ginv _ _ pi). }
  intros t' L' Hat. eapply forward_ends; [exact Hat| |].
  - intros Hn%first_pos_None. by rewrite empty_concat.
  - intros i es d Hi Hes Hd. rewrite (Hd es Hes). apply first_pos_Some in Hi as [-> _]. by apply concat_first.
Qed.

Lemma two_level_last t L p : tpos t L p ->
  triple ginv op_cost L (im_SeekToLast twolevel t) (fun t' L' => tpos t' L' (last_pos (concat blocks))).
Proof.
  intros Hp. apply (seek_op t L p (last_pos ies) _ _ (wrapper_SeekToLast index) _ _ Hp last_moves).
  { intros l pi Hw. by apply (wrapper_last index ginv _ _ pi). }
  intros t' L' Hat. eapply backward_ends; [exact Hat| |].
  - intros Hn%last_pos_None. by rewrite empty_concat.
  - intros i es d Hi Hes Hd. rewrite (Hd es Hes). apply concat_last; [|done]. rewrite Hlen. by apply last_pos_Some.
Qed.

Lemma at_own_block t L i q : state t L (Some i) (Some (i, q)) -> at_block t L (Some i) (fun j p => j = i /\ p = q).
Proof. intros Hs. pose proof Hs as (_ & _ & _ & _ & _ & _ & _ & _ & es & Hes & _). by exists es, q. Qed.

Lemma valid_data t L i j : state t L (Some i) (Some (i, Some j)) -> w_valid (tl_data t) = true.
Proof. intros (_ & _ & _ & _ & _ & _ & _ & _ & es & _ & (s0 & _ & _ & -> & _) & _). done. Qed.

Lemma own_block t L i j : state t L (Some i) (Some (i, Some j)) -> exists es l, blocks !! i = Some es /\
  wraps es (dpos i) (tl_data t) l (Some j) /\ (j < length es)%nat.
Proof.
  intros (_ & _ & _ & ld & _ & _ & _ & _ & es & Hes & Hw & _). exists es, ld. split; [done|]. split; [done|].
  pose proof (Hdata i es Hes). by apply (wraps_lt data ginv) in Hw.
Qed.

Lemma two_level_next t L n : tpos t L (Some n) ->
  triple ginv op_cost L (im_Next twolevel t) (fun t' L' => tpos t' L' (next_pos (concat blocks) n)).
Proof.
  intros (i & j & Hs & ->). destruct (own_block t L i j Hs) as (es & l0 & Hes & Hw0 & Hj). pose proof (Hdata i es Hes) as Hsp.
  cbn [im_Next NewTwoLevelIterator]. unfold TwoLevel_Next. rewrite (valid_data t L i j Hs).
  apply (triple_seq ginv _ kd ((length ies + 3) * step_cost) _ _ _ (fun w L' => state (tl_set_data w t) L' (Some i) (Some (i, next_pos es j)))).
  - eapply data_moves; [exact Hs|exact Hes|]. intros l Hw. by apply (wrapper_next data ginv).
  - intros w L1 Hs1. eapply forward_ends; [by apply at_own_block|done|]. intros i' es' d [= <-] _ [_ ->]. by apply concat_next.
  - unfold op_cost. replace (length ies + 4)%nat with (S (length ies + 3)) by lia. cbn [Nat.mul]. unfold step_cost at 2. lia.
Qed.

Lemma two_level_prev t L n : tpos t L (Some n) ->
  triple ginv op_cost L (im_Prev twolevel t) (fun t' L' => tpos t' L' (prev_pos n)).
Proof.
  intros (i & j & Hs & ->). destruct (own_block t L i j Hs) as (es & l0 & Hes & Hw0 & Hj). pose proof (Hdata i es Hes) as Hsp.
  cbn [im_Prev NewTwoLevelIterator]. unfold TwoLevel_Prev. rewrite (valid_data t L i j Hs).
  apply (triple_seq ginv _ kd ((length ies + 3) * step_cost) _ _ _ (fun w L' => state (tl_set_data w t) L' (Some i) (Some (i, prev_pos j)))).
  - eapply data_moves; [exact Hs|exact Hes|]. intros l Hw. by apply (wrapper_prev data ginv).
  - intros w L1 Hs1. eapply backward_ends; [by apply at_own_block|done|]. intros i' es' d [= <-] _ [_ ->]. apply concat_prev.
  - unfold op_cost. replace (length ies + 4)%nat with (S (length ies + 3)) by lia. cbn [Nat.mul]. unfold step_cost at 2. lia.
Qed.

Lemma two_level_delete t L p : tpos t L p -> triple ginv op_cost L (im_delete twolevel t) (fun _ L' => L' = []).
Proof.
  intros (pi & d & Hst & Hx & li & ld & la & HL & Hi & Ha & Hd)%tpos_state. cbn [im_delete NewTwoLevelIterator]. unfold TwoLevel_delete.
  apply (triple_seq ginv _ kd ki _ _ _ (fun _ L' => exists l1, L' = l1 ++ (li ++ la) /\ l1 = [])).
  - eapply (triple_frame_perm ginv); [by eapply data_delete|]. rewrite HL. solve_Permutation.
  - intros _ L1 (l1 & -> & ->). cbn [app]. apply (triple_seq ginv _ ki 0 _ _ _ (fun _ L' => exists l1, L' = l1 ++ la /\ l1 = [])); [| |lia].
    + eapply (triple_frame_perm ginv); [by eapply (wraps_delete index ginv)|done].
    + intros _ L2 (l2 & -> & ->). rewrite Hx. by apply Hcleanup.
  - unfold op_cost. replace (length ies + 4)%nat with (S (length ies + 3)) by lia. cbn [Nat.mul]. unfold step_cost at 1. lia.
Qed.

Lemma two_level_status t L p : tpos t L p -> TwoLevel_status index data t = Status_OK.
Proof.
  intros (pi & d & Hst & Hx & li & ld & la & HL & Hi & Ha & Hd)%tpos_state. unfold TwoLevel_status.
  rewrite (wraps_status index ginv _ _ _ Hi). cbn [ok Status_OK negb]. destruct d as [[a q]|].
  - destruct Hd as (es & Hes & Hw & _). pose proof (Hdata a es Hes). by rewrite (wraps_status data ginv _ _ _ Hw).
  - destruct Hd as [[Hn _] _]. unfold wrapper_status. by rewrite Hn.
Qed.

(** The two-level iterator is a cursor in the concatenation of the blocks. *)
Lemma TwoLevel_spec : IteratorMSpec ginv T0 twolevel cmp (concat blocks) op_cost tpos.
Proof.
  split.
  - intros t L [n|]; [intros (i & j & Hs & _); by apply (valid_data t L i j)|]. intros (_ & _ & _ & _ & _ & _ & _ & _ & [_ Hv] & _). done.
  - intros t L n (i & j & Hs & ->). destruct (own_block t L i j Hs) as (es & _ & Hes & _ & Hj).
    pose proof (start_S i es Hes). pose proof (start_le (S i)). lia.
  - intros t L n e (i & j & Hs & ->) He. destruct (own_block t L i j Hs) as (es & l & Hes & Hw & Hj). pose proof (Hdata i es Hes).
    rewrite (concat_block i es j Hes Hj) in He. by apply (wraps_key (es := es) (pos := dpos i) _ l j).
  - intros t L n e (i & j & Hs & ->) He. destruct (own_block t L i j Hs) as (es & l & Hes & Hw & Hj). pose proof (Hdata i es Hes).
    rewrite (concat_block i es j Hes Hj) in He. by apply (wraps_value data ginv _ l j).
  - apply two_level_first.
  - apply two_level_last.
  - intros t L p tgt. apply two_level_seek.
  - apply two_level_next.
  - apply two_level_prev.
  - apply two_level_status.
  - apply two_level_delete.
Qed.

Lemma new_TwoLevel_spec i l la : ipos i l None -> arg x la ->
  exists t, new_TwoLevelIterator index i x = Some t /\ tpos t (l ++ la) None.
Proof.
  intros Hi Ha. unfold new_TwoLevelIterator. destruct (Update_wraps index ginv i l None empty_wrapper Hi) as (w & -> & Hw).
  cbn [mbind option_bind]. eexists. split; [done|]. split; [done|]. split; [done|]. exists l, [], la. done.
Qed.

End Spec.
