(* ===== verification/Merger.v ===== *)
(** * Merging iterators: table/merger.cpp

    The merge of several sorted iterators: all children are kept on one side
    of the current entry and the smallest (going backward: the largest) of
    them is taken. When the direction changes the other children are moved to
    the other side first. The result is a cursor in the sorted union of the
    children, which are only used through the iterator interface. *)

From S2P Require Import Prelude Coding Status Comparator Iterator World.

Inductive Direction := kForward | kReverse.

#[global] Instance Direction_eq_dec : EqDecision Direction.
Proof. solve_decision. Defined.

Record MergingIterator (S : Type) := mkMerging {
  mg_children : list (IteratorWrapper S);
  mg_current : option nat;
  mg_direction : Direction
}.
Arguments mkMerging {S}.
Arguments mg_children {S}.
Arguments mg_current {S}.
Arguments mg_direction {S}.

Section Merger.
Context {G S : Type} (comparator : Comparator) (it : IteratorM G S).

Abbreviation W := (IteratorWrapper S).
Abbreviation T := (MergingIterator S).

(** A loop over [children_], in order. *)
Fixpoint each_child (f : nat -> W -> M G W) (i : nat) (ws : list W) : M G (list W) :=
  match ws with
  | [] => mret []
  | w :: ws => w ← f i w; ws ← each_child f (Datatypes.S i) ws; mret (w :: ws)
  end.

Definition new_MergingIterator (children : list S) : M G T :=
  ws ← each_child (fun i => wrapper_Set it (children !! i)) 0 (replicate (length children) empty_wrapper);
  mret (mkMerging ws None kForward).

(** One round of the search for the best valid child. *)
Definition pick_step (better : bytes -> bytes -> bool) (best : option (nat * W)) (child : nat * W) : option (nat * W) :=
  if w_valid child.2 then
    match best with
    | None => Some child
    | Some b => if better (w_key child.2) (w_key b.2) then Some child else best
    end
  else best.

Definition FindSmallest (ws : list W) : option nat :=
  fst <$> fold_left (pick_step (fun a b => is_lt (Compare comparator a b))) (imap pair ws) None.

Definition FindLargest (ws : list W) : option nat :=
  fst <$> fold_left (pick_step (fun a b => is_lt (CompOpp (Compare comparator a b)))) (rev (imap pair ws)) None.

Definition Merging_SeekToFirst (m : T) : M G T :=
  ws ← each_child (fun _ => wrapper_SeekToFirst it) 0 (mg_children m);
  mret (mkMerging ws (FindSmallest ws) kForward).

Definition Merging_SeekToLast (m : T) : M G T :=
  ws ← each_child (fun _ => wrapper_SeekToLast it) 0 (mg_children m);
  mret (mkMerging ws (FindLargest ws) kReverse).

Definition Merging_Seek (target : bytes) (m : T) : M G T :=
  ws ← each_child (fun _ => wrapper_Seek it target) 0 (mg_children m);
  mret (mkMerging ws (FindSmallest ws) kForward).

(** [current_], which must not be NULL. *)
Definition current (m : T) : option (nat * W) := c ← mg_current m; w ← mg_children m !! c; Some (c, w).

Definition Merging_key (m : T) : option bytes := cw ← current m; wrapper_key cw.2.
Definition Merging_value (m : T) : option bytes := cw ← current m; wrapper_value it cw.2.

(** What [Next] does to a child other than [current_] when it was going
    backward: on to the first entry behind the current one. *)
Definition behind_key (key : bytes) (child : W) : M G W :=
  child ← wrapper_Seek it key child;
  if w_valid child then
    match Compare comparator key (w_key child) with
    | Eq => wrapper_Next it child
    | _ => mret child
    end
  else mret child.

(** What [Prev] does to them when it was going forward. *)
Definition before_key (key : bytes) (child : W) : M G W :=
  child ← wrapper_Seek it key child;
  if w_valid child then wrapper_Prev it child else wrapper_SeekToLast it child.

Definition turn (dir : Direction) (f : bytes -> W -> M G W) (c : nat) (m : T) : M G (list W) :=
  if decide (mg_direction m = dir) then mret (mg_children m)
  else
    key ← lift (Merging_key m);
    each_child (fun i w => if decide (i = c) then mret w else f key w) 0 (mg_children m).

Definition move_current (c : nat) (op : W -> M G W) (ws : list W) : M G (list W) :=
  w ← lift (ws !! c); w ← op w; mret (<[c := w]> ws).

Definition Merging_Next (m : T) : M G T :=
  c ← lift (mg_current m);
  ws ← turn kForward behind_key c m;
  ws ← move_current c (wrapper_Next it) ws;
  mret (mkMerging ws (FindSmallest ws) kForward).

Definition Merging_Prev (m : T) : M G T :=
  c ← lift (mg_current m);
  ws ← turn kReverse before_key c m;
  ws ← move_current c (wrapper_Prev it) ws;
  mret (mkMerging ws (FindLargest ws) kReverse).

(** The first error; children are never NULL. *)
Fixpoint merged_status (ws : list W) (status : Status) : Status :=
  match ws with
  | [] => status
  | w :: ws =>
      match wrapper_status it w with
      | Some s => if negb (ok s) then s else merged_status ws s
      | None => merged_status ws status
      end
  end.

(** [delete[] children_] destroys from the end. *)
Fixpoint delete_children (ws : list W) : M G unit :=
  match ws with
  | [] => mret ()
  | w :: ws => _ ← delete_children ws; wrapper_delete it w
  end.

Definition MergingIteratorM : IteratorM G T := {|
  im_Valid := fun m => bool_decide (is_Some (mg_current m));
  im_SeekToFirst := Merging_SeekToFirst;
  im_SeekToLast := Merging_SeekToLast;
  im_Seek := Merging_Seek;
  im_Next := Merging_Next;
  im_Prev := Merging_Prev;
  im_key := Merging_key;
  im_value := Merging_value;
  im_status := fun m => merged_status (mg_children m) Status_OK;
  im_delete := fun m => delete_children (mg_children m)
|}.

(** [NewMergingIterator]: nothing to merge, one child, or a merge. *)
Definition AnyMerged : IteratorM G ((Status * unit) + (S + T)) :=
  SumIteratorM (PureIterator EmptyIterator (fun _ => mret ())) (SumIteratorM it MergingIteratorM).

Definition NewMergingIterator (list : list S) : M G ((Status * unit) + (S + T)) :=
  match list with
  | [] => mret (inl (NewEmptyIterator, ()))
  | [s] => mret (inr (inl s))
  | _ => fmapM (fun m => inr (inr m)) (new_MergingIterator list)
  end.

End Merger.

(** ** A cursor in the sorted union *)

(** The best child is at least as good as all others. *)
Lemma pick_spec {S} (better : bytes -> bytes -> bool) (cs : list (nat * IteratorWrapper S)) :
  (forall a, better a a = false) -> (forall a b c, better a b = true -> better c b = false -> better c a = false) ->
  match fold_left (pick_step better) cs None with
  | Some r => r ∈ cs /\ w_valid r.2 = true /\ forall c, c ∈ cs -> w_valid c.2 = true -> better (w_key c.2) (w_key r.2) = false
  | None => forall c, c ∈ cs -> w_valid c.2 = false
  end.
Proof.
  intros Hirr Htr. induction cs as [|x cs IH] using rev_ind; [by intros c ?%elem_of_nil|]. rewrite fold_left_app. cbn [fold_left].
  unfold pick_step at 1. destruct (w_valid x.2) eqn:Ex; destruct (fold_left _ cs None) as [b|].
  - destruct IH as (Hb & Hv & Hbest). destruct (better (w_key x.2) (w_key b.2)) eqn:E.
    + split; [apply elem_of_app; right; by left|]. split; [done|]. intros c [Hc|Hc%list_elem_of_singleton]%elem_of_app Hcv.
      * apply (Htr _ _ _ E). by apply Hbest.
      * by subst c.
    + split; [apply elem_of_app; by left|]. split; [done|]. intros c [Hc|Hc%list_elem_of_singleton]%elem_of_app Hcv; [by apply Hbest|by subst c].
  - split; [apply elem_of_app; right; by left|]. split; [done|]. intros c [Hc|Hc%list_elem_of_singleton]%elem_of_app Hcv.
    + by rewrite (IH c Hc) in Hcv.
    + subst c. apply Hirr.
  - destruct IH as (Hb & Hv & Hbest). split; [apply elem_of_app; by left|]. split; [done|].
    intros c [Hc|Hc%list_elem_of_singleton]%elem_of_app Hcv; [by apply Hbest|]. subst c. congruence.
  - intros c [Hc|Hc%list_elem_of_singleton]%elem_of_app; [by apply IH|by subst c].
Qed.

Section Spec.
Context {G R : Type} (ginv : nat -> list R -> G -> Prop) `{!World ginv}.
Context {S : Type} (comparator : Comparator) `{!TotalCmp (Compare comparator)} (it : IteratorM G S).

Abbreviation W := (IteratorWrapper S).
Abbreviation cmp := (Compare comparator).

Context (T0 : bytes -> Prop) (k : nat) (pos : nat -> S -> list R -> option nat -> Prop).

(** Children number [i] and on stand at [ps], the resources are split among them. *)
Fixpoint children (i : nat) (ess : list entries) (ps : nat -> option nat) (ws : list W) (L : list R) : Prop :=
  match ess, ws with
  | [], [] => L = []
  | es :: ess, w :: ws => exists l L', L ≡ₚ l ++ L' /\ wraps es (pos i) w l (ps i) /\ children (Datatypes.S i) ess ps ws L'
  | _, _ => False
  end.

Lemma children_lookup i ess ps ws L j es : children i ess ps ws L -> ess !! j = Some es ->
  exists w l, ws !! j = Some w /\ wraps es (pos (i + j)) w l (ps (i + j)%nat).
Proof.
  revert i ws L j. induction ess as [|es0 ess IH]; intros i [|w ws] L j Hc He; try done. destruct Hc as (l & L' & _ & Hw & Hc).
  destruct j as [|j].
  - injection He as <-. rewrite Nat.add_0_r. by exists w, l.
  - rewrite <- Nat.add_succ_comm. by apply (IH _ ws L').
Qed.

Lemma children_length i ess ps ws L : children i ess ps ws L -> length ws = length ess.
Proof.
  revert i ws L. induction ess as [|es0 ess IH]; intros i [|w ws] L Hc; try done. destruct Hc as (l & L' & _ & _ & Hc).
  cbn. f_equal. by eapply IH.
Qed.

Lemma children_ext i ess ps ps' ws L : (forall j, (i <= j)%nat -> ps j = ps' j) -> children i ess ps ws L -> children i ess ps' ws L.
Proof.
  revert i ws L. induction ess as [|es0 ess IH]; intros i [|w ws] L Hp Hc; try done. destruct Hc as (l & L' & HL & Hw & Hc).
  exists l, L'. rewrite <- (Hp i (le_n _)). split; [done|]. split; [done|]. apply IH; [|done]. intros j Hj. apply Hp. lia.
Qed.

(** A loop that moves every child. *)
Lemma each_child_spec kf f i ess ps ps' ws L : children i ess ps ws L ->
  (forall j es w l, ess !! j = Some es -> wraps es (pos (i + j)) w l (ps (i + j)%nat) ->
    triple ginv kf l (f (i + j)%nat w) (fun w' l' => wraps es (pos (i + j)) w' l' (ps' (i + j)%nat))) ->
  triple ginv (length ess * kf) L (each_child f i ws) (fun ws' L' => children i ess ps' ws' L').
Proof.
  revert i ws L. induction ess as [|es0 ess IH]; intros i [|w ws] L Hc Hf; try done; cbn [each_child length].
  - cbn in Hc. subst L. by apply (triple_ret ginv).
  - destruct Hc as (l & L' & HL & Hw & Hc). pose proof (Hf 0%nat es0 w l eq_refl) as H0. rewrite Nat.add_0_r in H0.
    apply (triple_seq ginv _ kf (length ess * kf) _ _ _ _ _ (triple_frame_perm ginv _ _ _ L' _ _ (H0 Hw) HL)); [|lia].
    intros w' l' (l1 & -> & Hw').
    assert (Hr : triple ginv (length ess * kf) L' (each_child f (Datatypes.S i) ws) (fun ws' L' => children (Datatypes.S i) ess ps' ws' L')).
    { apply IH; [done|]. intros j es w2 l2 Hj. rewrite Nat.add_succ_comm. by apply Hf. }
    apply (triple_seq ginv _ (length ess * kf) 0 _ _ _ _ _ (triple_frame_l ginv _ _ l1 _ _ Hr)); [|lia].
    intros ws' l2 (L2 & HL2 & Hc'). apply (triple_ret ginv). by exists l1, L2.
Qed.

(** One child moved alone. *)
Lemma children_focus i ess ps ws L c es : children i ess ps ws L -> ess !! c = Some es ->
  exists w l rest, ws !! c = Some w /\ L ≡ₚ l ++ rest /\ wraps es (pos (i + c)) w l (ps (i + c)%nat) /\
    forall w' l' p', wraps es (pos (i + c)) w' l' p' ->
      children i ess (fun j => if decide (j = i + c)%nat then p' else ps j) (<[c := w']> ws) (l' ++ rest).
Proof.
  revert i ws L c. induction ess as [|es0 ess IH]; intros i [|w ws] L c Hc He; try done. destruct Hc as (l & L' & HL & Hw & Hc).
  destruct c as [|c].
  - injection He as <-. rewrite Nat.add_0_r. exists w, l, L'. split; [done|]. split; [done|]. split; [done|]. intros w' l' p' Hw'.
    cbn [list_insert insert children]. exists l', L'. split; [done|]. rewrite decide_True by done. split; [done|].
    eapply children_ext; [|exact Hc]. intros j Hj. by rewrite decide_False by lia.
  - destruct (IH _ ws L' c Hc He) as (w2 & l2 & rest & Hc2 & HL2 & Hw2 & Hset). rewrite Nat.add_succ_comm in Hw2, Hset.
    exists w2, l2, (l ++ rest). split; [done|]. split; [rewrite HL, HL2; solve_Permutation|]. split; [done|]. intros w' l' p' Hw'.
    cbn [list_insert insert children]. exists l, (l' ++ rest). split; [solve_Permutation|]. rewrite decide_False by lia. split; [done|].
    by apply Hset.
Qed.

(** ** The entries of all children, in order *)

Context (ess : list entries) (merged : entries) (Hperm : merged ≡ₚ concat ess) (Hsorted : sorted_keys cmp merged).
Context (Hes : forall i es, ess !! i = Some es -> sorted_keys cmp es) (Hkeys : forall e, e ∈ merged -> T0 e.1).
Context (Hspec : forall i es, ess !! i = Some es -> IteratorMSpec ginv T0 it cmp es k (pos i)).

Lemma merged_elem e : e ∈ merged <-> exists i es, ess !! i = Some es /\ e ∈ es.
Proof.
  rewrite Hperm, list_elem_of_In, in_concat. split.
  - intros (es & Hi & He). apply list_elem_of_In in Hi. apply list_elem_of_lookup in Hi as [i Hi]. exists i, es. by rewrite list_elem_of_In.
  - intros (i & es & Hi & He). exists es. rewrite <- !list_elem_of_In. split; [by eapply list_elem_of_lookup_2|done].
Qed.

Lemma merged_same a b : a ∈ merged -> b ∈ merged -> cmp a.1 b.1 = Eq -> a = b.
Proof.
  intros [i Hi]%list_elem_of_lookup [j Hj]%list_elem_of_lookup E. destruct (Nat.lt_trichotomy i j) as [H|[->|H]]; [|congruence|].
  - pose proof (sorted_keys_lookup cmp merged i j a b Hsorted Hi Hj H). congruence.
  - pose proof (sorted_keys_lookup cmp merged j i b a Hsorted Hj Hi H) as H2. apply (cmp_gt_lt cmp) in H2. congruence.
Qed.

(** A key of one child is a key of no other child. *)
Lemma merged_once i j es es' e : ess !! i = Some es -> ess !! j = Some es' -> e ∈ es -> e ∈ es' -> i = j.
Proof.
  intros Hi Hj He He'. assert (Hnd : NoDup merged).
  { apply NoDup_alt. intros a b x Ha Hb. destruct (Nat.lt_trichotomy a b) as [H|[H|H]]; [|done|]; exfalso; eapply (cmp_lt_irrefl cmp).
    - by eapply (sorted_keys_lookup cmp merged a b x x).
    - by eapply (sorted_keys_lookup cmp merged b a x x). }
  rewrite Hperm in Hnd. clear -Hi Hj He He' Hnd. revert i j Hi Hj. induction ess as [|es0 l IH]; intros i j Hi Hj; [done|].
  cbn [concat] in Hnd. apply NoDup_app in Hnd as (_ & Hdis & Hnd).
  assert (Hin : forall n es, l !! n = Some es -> e ∈ es -> e ∈ concat l).
  { intros n x Hx Hex. apply list_elem_of_In, in_concat. exists x. rewrite <- !list_elem_of_In. split; [by eapply list_elem_of_lookup_2|done]. }
  destruct i as [|i], j as [|j]; cbn in Hi, Hj; [done| | |f_equal; by apply IH].
  - injection Hi as ->. by destruct (Hdis e He (Hin j es' Hj He')).
  - injection Hj as ->. by destruct (Hdis e He' (Hin i es Hi He)).
Qed.

(** A valid child, by its place in [children_]. *)
Lemma child_at ps ws L c w : children 0 ess ps ws L -> (c, w) ∈ imap pair ws -> w_valid w = true ->
  exists es i e, ess !! c = Some es /\ ps c = Some i /\ es !! i = Some e /\ w_key w = e.1.
Proof.
  intros Hc Hin Hv. apply list_elem_of_lookup in Hin as [n Hn]. rewrite list_lookup_imap in Hn.
  destruct (ws !! n) as [w'|] eqn:Ew; [|done]. injection Hn as -> ->.
  assert (Hlt : (c < length ess)%nat) by (rewrite <- (children_length _ _ _ _ _ Hc); by eapply lookup_lt_Some).
  destruct (lookup_lt_is_Some_2 ess c Hlt) as [es Hess]. destruct (children_lookup _ _ _ _ _ c es Hc Hess) as (w' & l & Hw' & Hw).
  rewrite Ew in Hw'. injection Hw' as <-. cbn in Hw. pose proof (Hspec c es Hess).
  rewrite (wraps_valid w l _ Hw) in Hv. apply bool_decide_eq_true in Hv as [i Hi]. rewrite Hi in Hw.
  destruct (lookup_lt_is_Some_2 es i (wraps_lt it ginv w l i Hw)) as [e He]. exists es, i, e.
  destruct (wraps_key w l i e Hw He) as (_ & Hk & _). done.
Qed.

Lemma child_valid ps ws L c es i : children 0 ess ps ws L -> ess !! c = Some es -> ps c = Some i ->
  exists w e, (c, w) ∈ imap pair ws /\ w_valid w = true /\ es !! i = Some e /\ w_key w = e.1.
Proof.
  intros Hc Hess Hi. destruct (children_lookup _ _ _ _ _ c es Hc Hess) as (w & l & Hw & Hwr). cbn in Hwr. rewrite Hi in Hwr.
  pose proof (Hspec c es Hess). destruct (lookup_lt_is_Some_2 es i (wraps_lt it ginv w l i Hwr)) as [e He].
  destruct (wraps_key w l i e Hwr He) as (Hv & Hk & _). exists w, e. split; [|done].
  apply list_elem_of_lookup. exists c. by rewrite list_lookup_imap, Hw.
Qed.

(** The state in which child [c] stands at entry [n] of the union and all
    children are on one side of it. *)
Definition merging_at (m : MergingIterator S) (L : list R) (p : option nat) : Prop :=
  exists ps, children 0 ess ps (mg_children m) L /\
    match p with
    | None => mg_current m = None
    | Some n => exists e c es, merged !! n = Some e /\ mg_current m = Some c /\ ess !! c = Some es /\ e ∈ es /\
        forall i es', ess !! i = Some es' ->
          match mg_direction m with
          | kForward => at_first (fun x => cmp x e.1 <> Lt) es' (ps i)
          | kReverse => at_last (fun x => cmp x e.1 <> Gt) es' (ps i)
          end
    end.

Lemma pick_child better cs ps ws L : children 0 ess ps ws L -> (forall x, x ∈ cs <-> x ∈ imap pair ws) ->
  (forall a, better a a = false) -> (forall a b c, better a b = true -> better c b = false -> better c a = false) ->
  match fst <$> fold_left (pick_step better) cs None with
  | Some c => exists es i e, ess !! c = Some es /\ ps c = Some i /\ es !! i = Some e /\
      forall j es' h f, ess !! j = Some es' -> ps j = Some h -> es' !! h = Some f -> better f.1 e.1 = false
  | None => forall j es', ess !! j = Some es' -> ps j = None
  end.
Proof.
  intros Hc Hcs Hirr Htr. pose proof (pick_spec better cs Hirr Htr) as Hpick.
  destruct (fold_left _ cs None) as [[c w]|]; cbn [fmap option_fmap option_map fst].
  - destruct Hpick as (Hin & Hv & Hbest). rewrite Hcs in Hin. destruct (child_at ps ws L c w Hc Hin Hv) as (es & i & e & Hess & Hi & He & Hkw).
    exists es, i, e. split; [done|]. split; [done|]. split; [done|]. intros j es' h f Hj Hh Hf.
    destruct (child_valid ps ws L j es' h Hc Hj Hh) as (w' & f' & Hw' & Hv' & Hf' & Hkf). assert (f' = f) as -> by congruence.
    rewrite <- Hcs in Hw'. pose proof (Hbest _ Hw' Hv') as Hb. cbn [snd] in Hb. by rewrite Hkf, Hkw in Hb.
  - intros j es' Hj. destruct (ps j) as [h|] eqn:Eh; [|done]. destruct (child_valid ps ws L j es' h Hc Hj Eh) as (w & g & Hw & Hv & _).
    rewrite <- Hcs in Hw. apply Hpick in Hw. cbn in Hw. congruence.
Qed.

Lemma smaller_irrefl a : is_lt (cmp a a) = false.
Proof. by rewrite (cmp_refl cmp). Qed.

Lemma smaller_trans a b c : is_lt (cmp a b) = true -> is_lt (cmp c b) = false -> is_lt (cmp c a) = false.
Proof. intros Hab%is_lt_true Hcb. destruct (cmp c a) eqn:E; try done. by rewrite (cmp_lt_trans cmp _ _ _ E Hab) in Hcb. Qed.

Lemma FindSmallest_spec (P : bytes -> Prop) ps ws L q : children 0 ess ps ws L ->
  (forall a b, P a -> cmp a b <> Gt -> P b) -> (forall i es, ess !! i = Some es -> at_first P es (ps i)) ->
  at_first P merged q -> merging_at (mkMerging ws (FindSmallest comparator ws) kForward) L q.
Proof.
  intros Hc Hup Hps Hq. exists ps. split; [done|]. cbn [mg_current mg_direction]. unfold FindSmallest.
  pose proof (pick_child _ (imap pair ws) ps ws L Hc (fun _ => iff_refl _) smaller_irrefl smaller_trans) as Hpick.
  destruct (fst <$> _) as [c|].
  - destruct Hpick as (es & i & e & Hess & Hi & He & Hbest).
    assert (Hmin : forall x, x ∈ merged -> P x.1 -> cmp e.1 x.1 <> Gt).
    { intros x Hx HPx. apply merged_elem in Hx as (j & es' & Hj & Hx). pose proof (Hps j es' Hj) as Hpj.
      apply list_elem_of_lookup in Hx as [m Hm]. destruct (ps j) as [h|] eqn:Eh; [|by destruct (Hpj m x Hm)].
      destruct Hpj as (f & Hf & _ & Hn). pose proof (Hbest j es' h f Hj Eh Hf) as Hb. apply (cmp_le_trans cmp _ f.1).
      - apply (cmp_not_gt_le cmp). by destruct (cmp f.1 e.1).
      - destruct (Nat.lt_trichotomy h m) as [H|[->|H]]; [|replace x with f by congruence; by rewrite (cmp_refl cmp)|by destruct (Hn m x H Hm)].
        by rewrite (sorted_keys_lookup cmp es' h m f x (Hes j es' Hj) Hf Hm H). }
    assert (Hem : e ∈ merged) by (apply merged_elem; exists c, es; split; [done|]; by eapply list_elem_of_lookup_2).
    pose proof Hem as [n Hn]%list_elem_of_lookup.
    assert (Hfirst : at_first P merged (Some n)).
    { pose proof (Hps c es Hess) as Hpe. rewrite Hi in Hpe. destruct Hpe as (e' & He' & HPe & _). assert (e' = e) as -> by congruence.
      exists e. split; [done|]. split; [done|]. intros j f Hj Hf HPf. apply (Hmin f); [by eapply list_elem_of_lookup_2|done|].
      apply (cmp_gt_lt cmp). by apply (sorted_keys_lookup cmp merged j n). }
    rewrite (at_first_unique _ _ _ _ Hq Hfirst). exists e, c, es. split; [done|]. split; [done|]. split; [done|].
    split; [by eapply list_elem_of_lookup_2|]. intros j es' Hj. apply (at_first_ext P); [|by apply Hps]. intros x Hx.
    rewrite <- (cmp_not_gt_le cmp). destruct Hfirst as (e' & He' & HPe & _). assert (e' = e) as -> by congruence.
    split; [|by apply Hup]. apply Hmin. apply merged_elem. by exists j, es'.
  - destruct q as [n|]; [exfalso|done]. destruct Hq as (e & He & HP & _). apply list_elem_of_lookup_2 in He.
    apply merged_elem in He as (c & es & Hess & Hin). pose proof (Hps c es Hess) as Hpe. rewrite (Hpick c es Hess) in Hpe.
    apply list_elem_of_lookup in Hin as [i Hi]. by destruct (Hpe i e Hi).
Qed.

Lemma elem_of_rev {A} (l : list A) x : x ∈ rev l <-> x ∈ l.
Proof. rewrite !list_elem_of_In. symmetry. apply in_rev. Qed.

Lemma larger_irrefl a : is_lt (CompOpp (cmp a a)) = false.
Proof. by rewrite (cmp_refl cmp). Qed.

Lemma larger_trans a b c : is_lt (CompOpp (cmp a b)) = true -> is_lt (CompOpp (cmp c b)) = false -> is_lt (CompOpp (cmp c a)) = false.
Proof. rewrite <- !(cmp_opp cmp). intros Hab%is_lt_true Hcb. destruct (cmp a c) eqn:E; try done. by rewrite (cmp_lt_trans cmp _ _ _ Hab E) in Hcb. Qed.

Lemma FindLargest_spec (P : bytes -> Prop) ps ws L q : children 0 ess ps ws L ->
  (forall a b, P a -> cmp b a <> Gt -> P b) -> (forall i es, ess !! i = Some es -> at_last P es (ps i)) ->
  at_last P merged q -> merging_at (mkMerging ws (FindLargest comparator ws) kReverse) L q.
Proof.
  intros Hc Hup Hps Hq. exists ps. split; [done|]. cbn [mg_current mg_direction]. unfold FindLargest.
  pose proof (pick_child _ (rev (imap pair ws)) ps ws L Hc (elem_of_rev _) larger_irrefl larger_trans) as Hpick.
  destruct (fst <$> _) as [c|].
  - destruct Hpick as (es & i & e & Hess & Hi & He & Hbest).
    assert (Hmax : forall x, x ∈ merged -> P x.1 -> cmp x.1 e.1 <> Gt).
    { intros x Hx HPx. apply merged_elem in Hx as (j & es' & Hj & Hx). pose proof (Hps j es' Hj) as Hpj.
      apply list_elem_of_lookup in Hx as [m Hm]. destruct (ps j) as [h|] eqn:Eh; [|by destruct (Hpj m x Hm)].
      destruct Hpj as (f & Hf & _ & Hn). pose proof (Hbest j es' h f Hj Eh Hf) as Hb. apply (cmp_le_trans cmp _ f.1).
      2:{ by destruct (cmp f.1 e.1). }
      destruct (Nat.lt_trichotomy h m) as [H|[->|H]]; [by destruct (Hn m x H Hm)|replace x with f by congruence; by rewrite (cmp_refl cmp)|].
        by rewrite (sorted_keys_lookup cmp es' m h x f (Hes j es' Hj) Hm Hf H). }
    assert (Hem : e ∈ merged) by (apply merged_elem; exists c, es; split; [done|]; by eapply list_elem_of_lookup_2).
    pose proof Hem as [n Hn]%list_elem_of_lookup.
    assert (Hlast : at_last P merged (Some n)).
    { pose proof (Hps c es Hess) as Hpe. rewrite Hi in Hpe. destruct Hpe as (e' & He' & HPe & _). assert (e' = e) as -> by congruence.
      exists e. split; [done|]. split; [done|]. intros j f Hj Hf HPf. apply (Hmax f); [by eapply list_elem_of_lookup_2|done|].
      apply (cmp_gt_lt cmp). by apply (sorted_keys_lookup cmp merged n j). }
    rewrite (at_last_unique _ _ _ _ Hq Hlast). exists e, c, es. split; [done|]. split; [done|]. split; [done|].
    split; [by eapply list_elem_of_lookup_2|]. intros j es' Hj. apply (at_last_ext P); [|by apply Hps]. intros x Hx.
    destruct Hlast as (e' & He' & HPe & _). assert (e' = e) as -> by congruence.
    split; [|by apply Hup]. apply Hmax. apply merged_elem. by exists j, es'.
  - destruct q as [n|]; [exfalso|done]. destruct Hq as (e & He & HP & _). apply list_elem_of_lookup_2 in He.
    apply merged_elem in He as (c & es & Hess & Hin). pose proof (Hps c es Hess) as Hpe. rewrite (Hpick c es Hess) in Hpe.
    apply list_elem_of_lookup in Hin as [i Hi]. by destruct (Hpe i e Hi).
Qed.

Lemma move_all f kf (g : entries -> option nat) ps ws L : children 0 ess ps ws L ->
  (forall j es w l, ess !! j = Some es -> wraps es (pos j) w l (ps j) -> triple ginv kf l (f j w) (fun w' l' => wraps es (pos j) w' l' (g es))) ->
  triple ginv (length ess * kf) L (each_child f 0 ws)
    (fun ws' L' => exists ps', children 0 ess ps' ws' L' /\ forall j es, ess !! j = Some es -> ps' j = g es).
Proof.
  intros Hc Hf. eapply (triple_mono ginv).
  - apply (each_child_spec kf f 0 ess ps (fun j => from_option g None (ess !! j)) ws L Hc).
    intros j es w l Hj Hw. cbn [Nat.add] in Hw |- *. rewrite Hj. by apply Hf.
  - done.
  - intros ws' L' Hc'. eexists. split; [done|]. intros j es Hj. cbn. by rewrite Hj.
Qed.

(** The entry the merge stands at. *)
Lemma merging_current m L n : merging_at m L (Some n) -> exists ps e c es i, children 0 ess ps (mg_children m) L /\
  merged !! n = Some e /\ mg_current m = Some c /\ ess !! c = Some es /\ es !! i = Some e /\ ps c = Some i /\
  (forall j es', ess !! j = Some es' -> j <> c -> forall x, x ∈ es' -> cmp x.1 e.1 <> Eq) /\
  (forall j es', ess !! j = Some es' ->
     match mg_direction m with
     | kForward => at_first (fun x => cmp x e.1 <> Lt) es' (ps j)
     | kReverse => at_last (fun x => cmp x e.1 <> Gt) es' (ps j)
     end).
Proof.
  intros (ps & Hc & e & c & es & Hn & Hcur & Hess & Hin & Hps). pose proof Hin as [i Hi]%list_elem_of_lookup.
  exists ps, e, c, es, i. split; [done|]. split; [done|]. split; [done|]. split; [done|]. split; [done|]. split; [|split; [|done]].
  - specialize (Hps c es Hess). destruct (mg_direction m).
    + apply (at_first_unique _ _ _ _ Hps). by apply (at_first_own cmp es (Hes c es Hess)).
    + apply (at_last_unique _ _ _ _ Hps). by apply (at_last_own cmp es (Hes c es Hess)).
  - intros j es' Hj Hjc x Hx E. apply Hjc. apply (merged_once j c es' es e Hj Hess); [|done].
    replace e with x; [done|]. apply merged_same; [apply merged_elem; by exists j, es'|by eapply list_elem_of_lookup_2|done].
Qed.

Lemma merging_key_value m L n e : merging_at m L (Some n) -> merged !! n = Some e -> Merging_key m = Some e.1 /\ Merging_value it m = Some e.2.
Proof.
  intros Hm He. destruct (merging_current m L n Hm) as (ps & e' & c & es & i & Hc & He' & Hcur & Hess & Hi & Hpc & _).
  assert (e' = e) as -> by congruence. destruct (children_lookup _ _ _ _ _ c es Hc Hess) as (w & l & Hw & Hwr). cbn [Nat.add] in Hwr.
  rewrite Hpc in Hwr. unfold Merging_key, Merging_value, current. rewrite Hcur. cbn [mbind option_bind]. rewrite Hw. cbn [mbind option_bind snd].
  pose proof (Hspec c es Hess). destruct (wraps_key w l i e Hwr Hi) as (_ & _ & ->). split; [done|]. by apply (wraps_value it ginv w l i e).
Qed.

(** Where the others stand once they were moved behind or in front of [key]. *)
Lemma behind_spec j es w l p key : ess !! j = Some es -> T0 key -> (forall x, x ∈ es -> cmp x.1 key <> Eq) -> wraps es (pos j) w l p ->
  triple ginv (2 * k) l (behind_key comparator it key w) (fun w' l' => wraps es (pos j) w' l' (seek_pos cmp es key)).
Proof.
  intros Hj Hkey Hne Hw. pose proof (Hspec j es Hj). unfold behind_key.
  apply (triple_seq ginv _ k 0 _ _ _ _ _ (wrapper_seek it ginv w l p key Hkey Hw)); [|lia]. intros w' l' Hw'. cbn beta in Hw'.
  rewrite (wraps_valid w' l' _ Hw'). destruct (seek_pos cmp es key) as [i|] eqn:Ei.
  2:{ rewrite bool_decide_eq_false_2 by (by intros []). by apply (triple_ret ginv). }
  rewrite bool_decide_eq_true_2 by done. destruct (lookup_lt_is_Some_2 es i (wraps_lt it ginv w' l' i Hw')) as [x Hx].
  destruct (wraps_key w' l' i x Hw' Hx) as (_ & -> & _). destruct (cmp key x.1) eqn:E; [|by apply (triple_ret ginv)..].
  apply (cmp_eq_sym cmp) in E. destruct (Hne x); [by eapply list_elem_of_lookup_2|done].
Qed.

Lemma before_spec j es w l p key : ess !! j = Some es -> T0 key -> wraps es (pos j) w l p ->
  triple ginv (2 * k) l (before_key it key w)
    (fun w' l' => wraps es (pos j) w' l' (match seek_pos cmp es key with Some i => prev_pos i | None => last_pos es end)).
Proof.
  intros Hj Hkey Hw. pose proof (Hspec j es Hj). unfold before_key.
  apply (triple_seq ginv _ k k _ _ _ _ _ (wrapper_seek it ginv w l p key Hkey Hw)); [|lia]. intros w' l' Hw'. cbn beta in Hw'.
  rewrite (wraps_valid w' l' _ Hw'). destruct (seek_pos cmp es key) as [i|].
  - rewrite bool_decide_eq_true_2 by done. by apply (wrapper_prev it ginv).
  - rewrite bool_decide_eq_false_2 by (by intros []). by apply (wrapper_last it ginv w' l' None).
Qed.

(** [turn] leaves the current child and puts the others on the other side. *)
Lemma turn_spec dir f m L n (side : bytes -> entries -> option nat -> Prop) (g : bytes -> entries -> option nat) ps e c es i :
  children 0 ess ps (mg_children m) L -> mg_current m = Some c -> ess !! c = Some es -> ps c = Some i ->
  merging_at m L (Some n) -> merged !! n = Some e ->
  (mg_direction m = dir -> forall j es', ess !! j = Some es' -> side e.1 es' (ps j)) ->
  (forall j es', ess !! j = Some es' -> side e.1 es' (g e.1 es')) ->
  (forall j es' w l, ess !! j = Some es' -> j <> c -> wraps es' (pos j) w l (ps j) ->
    triple ginv (2 * k) l (f e.1 w) (fun w' l' => wraps es' (pos j) w' l' (g e.1 es'))) ->
  triple ginv (length ess * (2 * k)) L (turn dir f c m) (fun ws L' => exists ps', children 0 ess ps' ws L' /\ ps' c = Some i /\
    forall j es', ess !! j = Some es' -> j <> c -> side e.1 es' (ps' j)).
Proof.
  intros Hc Hcur Hess Hpc Hm He Hsame Hg Hf. unfold turn. destruct (decide (mg_direction m = dir)) as [Hd|Hd].
  - apply (triple_mono ginv 0 _ L _ (fun ws L' => ws = mg_children m /\ L' = L)); [by apply (triple_ret ginv)|lia|].
    intros ws L' [-> ->]. exists ps. split; [done|]. split; [done|]. intros j es' Hj _. by apply Hsame.
  - destruct (merging_key_value m L n e Hm He) as [Hk _].
    apply (triple_seq ginv _ 0 (length ess * (2 * k)) _ _ _ (fun a l' => a = e.1 /\ l' = L)); [by eapply (triple_lift ginv)| |lia].
    intros a l' [-> ->]. eapply (triple_mono ginv).
    + apply (each_child_spec (2 * k) _ 0 ess ps (fun j => if decide (j = c) then Some i else from_option (g e.1) None (ess !! j)) _ L Hc).
      intros j es' w l Hj Hw. cbn [Nat.add] in Hw |- *. destruct (decide (j = c)) as [->|Hjc].
      * apply (triple_mono ginv 0 _ l _ (fun w' l' => w' = w /\ l' = l)); [by apply (triple_ret ginv)|lia|].
        intros w' l' [-> ->]. by rewrite Hpc in Hw.
      * rewrite Hj. by apply Hf.
    + done.
    + intros ws L' Hc'. eexists. split; [done|]. cbn beta. rewrite decide_True by done. split; [done|]. intros j es' Hj Hjc.
      rewrite decide_False by done. rewrite Hj. by apply (Hg j).
Qed.

Lemma move_current_spec op ps ws L c es i p' : children 0 ess ps ws L -> ess !! c = Some es -> ps c = Some i ->
  (forall w l, wraps es (pos c) w l (Some i) -> triple ginv k l (op w) (fun w' l' => wraps es (pos c) w' l' p')) ->
  triple ginv k L (move_current c op ws) (fun ws' L' => children 0 ess (fun j => if decide (j = c) then p' else ps j) ws' L').
Proof.
  intros Hc Hess Hpc Hop. destruct (children_focus 0 ess ps ws L c es Hc Hess) as (w & l & rest & Hw & HL & Hwr & Hset).
  cbn [Nat.add] in Hwr, Hset. rewrite Hpc in Hwr. unfold move_current. rewrite Hw.
  apply (triple_seq ginv _ 0 k _ _ _ (fun a l' => a = w /\ l' = L)); [by eapply (triple_lift ginv)| |lia]. intros a l' [-> ->].
  apply (triple_seq ginv _ k 0 _ _ _ _ _ (triple_frame_perm ginv _ _ _ rest _ _ (Hop w l Hwr) HL)); [|lia].
  intros w' l' (l1 & -> & Hw'). apply (triple_ret ginv). by apply Hset.
Qed.

Definition merge_cost : nat := length ess * (2 * k) + k.

Lemma merging_next m L n : merging_at m L (Some n) ->
  triple ginv merge_cost L (Merging_Next comparator it m) (fun m' L' => merging_at m' L' (next_pos merged n)).
Proof.
  intros Hm. destruct (merging_current m L n Hm) as (ps & e & c & es & i & Hc & He & Hcur & Hess & Hi & Hpc & Hne & Hps).
  unfold Merging_Next. rewrite Hcur.
  apply (triple_seq ginv _ 0 merge_cost _ _ _ (fun a l' => a = c /\ l' = L)); [by eapply (triple_lift ginv)| |lia]. intros a l' [-> ->].
  apply (triple_seq ginv _ (length ess * (2 * k)) k _ _ _ (fun ws L' => exists ps', children 0 ess ps' ws L' /\ ps' c = Some i /\
    forall j es', ess !! j = Some es' -> j <> c -> at_first (fun x => cmp x e.1 <> Lt) es' (ps' j))); [| |unfold merge_cost; lia].
  { apply (turn_spec kForward _ m L n (fun key es' => at_first (fun x => cmp x key <> Lt) es') (fun key es' => seek_pos cmp es' key) ps e c es i); try done.
    - intros Hd j es' Hj. specialize (Hps j es' Hj). by rewrite Hd in Hps.
    - intros j es' Hj. apply at_first_seek.
    - intros j es' w l Hj Hjc Hw. apply (behind_spec j es' w l (ps j) e.1 Hj); [apply Hkeys; by eapply list_elem_of_lookup_2|by apply (Hne j)|done]. }
  intros ws L' (ps' & Hc' & Hpc' & Hps').
  apply (triple_seq ginv _ k 0 _ _ _ _ _ (move_current_spec _ ps' ws L' c es i (next_pos es i) Hc' Hess Hpc'
    (fun w l Hw => wrapper_next it ginv (IteratorMSpec0 := Hspec c es Hess) w l i Hw))); [|lia].
  intros ws2 L2 Hc2. apply (triple_ret ginv). apply (FindSmallest_spec (fun x => cmp x e.1 = Gt) _ ws2 L2 _ Hc2).
  - intros a b Ha Hab. apply (cmp_gt_lt cmp). apply (cmp_gt_lt cmp) in Ha. by apply (cmp_lt_le_trans cmp _ a).
  - intros j es' Hj. destruct (decide (j = c)) as [->|Hjc].
    + replace es' with es by congruence. by apply (at_first_next cmp es (Hes c es Hess)).
    + apply (at_first_ext (fun x => cmp x e.1 <> Lt)); [|by apply (Hps' j)]. intros x Hx. pose proof (Hne j es' Hj Hjc x Hx). by destruct (cmp x.1 e.1).
  - by apply (at_first_next cmp merged Hsorted).
Qed.

Lemma merging_prev m L n : merging_at m L (Some n) ->
  triple ginv merge_cost L (Merging_Prev comparator it m) (fun m' L' => merging_at m' L' (prev_pos n)).
Proof.
  intros Hm. destruct (merging_current m L n Hm) as (ps & e & c & es & i & Hc & He & Hcur & Hess & Hi & Hpc & Hne & Hps).
  unfold Merging_Prev. rewrite Hcur.
  apply (triple_seq ginv _ 0 merge_cost _ _ _ (fun a l' => a = c /\ l' = L)); [by eapply (triple_lift ginv)| |lia]. intros a l' [-> ->].
  apply (triple_seq ginv _ (length ess * (2 * k)) k _ _ _ (fun ws L' => exists ps', children 0 ess ps' ws L' /\ ps' c = Some i /\
    forall j es', ess !! j = Some es' -> j <> c -> (fun key es' q => (forall x, x ∈ es' -> cmp x.1 key <> Eq) -> at_last (fun x => cmp x key = Lt) es' q) e.1 es' (ps' j)));
    [| |unfold merge_cost; lia].
  { apply (turn_spec kReverse _ m L n (fun key es' q => (forall x, x ∈ es' -> cmp x.1 key <> Eq) -> at_last (fun x => cmp x key = Lt) es' q)
      (fun key es' => match seek_pos cmp es' key with Some i => prev_pos i | None => last_pos es' end) ps e c es i); try done.
    - intros Hd j es' Hj Hx. specialize (Hps j es' Hj). rewrite Hd in Hps. apply (at_last_ext (fun x => cmp x e.1 <> Gt)); [|done].
      intros x Hin. pose proof (Hx x Hin). by destruct (cmp x.1 e.1).
    - intros j es' Hj _. apply (at_last_prev cmp es' (Hes j es' Hj)). apply at_first_seek.
    - intros j es' w l Hj Hjc Hw. apply (before_spec j es' w l (ps j) e.1 Hj); [apply Hkeys; by eapply list_elem_of_lookup_2|done]. }
  intros ws L' (ps' & Hc' & Hpc' & Hps').
  apply (triple_seq ginv _ k 0 _ _ _ _ _ (move_current_spec _ ps' ws L' c es i (prev_pos i) Hc' Hess Hpc'
    (fun w l Hw => wrapper_prev it ginv (IteratorMSpec0 := Hspec c es Hess) w l i Hw))); [|lia].
  intros ws2 L2 Hc2. apply (triple_ret ginv). apply (FindLargest_spec (fun x => cmp x e.1 = Lt) _ ws2 L2 _ Hc2).
  - intros a b Ha Hab. by apply (cmp_le_lt_trans cmp _ a).
  - intros j es' Hj. destruct (decide (j = c)) as [->|Hjc].
    + replace es' with es by congruence. by apply (at_last_prev cmp es (Hes c es Hess) e.1 (Some i)), (at_first_own cmp es (Hes c es Hess)).
    + apply (Hps' j); [done|done|]. by apply (Hne j).
  - by apply (at_last_prev cmp merged Hsorted e.1 (Some n)), (at_first_own cmp merged Hsorted).
Qed.

Lemma children_status i ess' ps ws L st : (forall j es, ess' !! j = Some es -> IteratorMSpec ginv T0 it cmp es k (pos (i + j))) ->
  children i ess' ps ws L -> ok st = true -> merged_status it ws st = st \/ merged_status it ws st = Status_OK.
Proof.
  revert i ws L st. induction ess' as [|es0 l IH]; intros i [|w ws] L st Hs Hc Hok; try done; [by left|].
  destruct Hc as (l0 & L' & _ & Hw & Hc). pose proof (Hs 0%nat es0 eq_refl) as H0. rewrite Nat.add_0_r in H0.
  cbn [merged_status]. rewrite (wraps_status it ginv w l0 _ Hw). cbn [ok Status_OK negb]. right.
  destruct (IH (Datatypes.S i) ws L' Status_OK) as [->| ->]; try done. intros j es Hj. rewrite Nat.add_succ_comm. by apply Hs.
Qed.

Lemma delete_children_spec i ess' ps ws L : (forall j es, ess' !! j = Some es -> IteratorMSpec ginv T0 it cmp es k (pos (i + j))) ->
  children i ess' ps ws L -> triple ginv (length ess' * k) L (delete_children it ws) (fun _ l' => l' = []).
Proof.
  revert i ws L. induction ess' as [|es0 l IH]; intros i [|w ws] L Hs Hc; try done; cbn [delete_children length].
  - cbn in Hc. subst L. by apply (triple_ret ginv).
  - destruct Hc as (l0 & L' & HL & Hw & Hc). pose proof (Hs 0%nat es0 eq_refl) as H0. rewrite Nat.add_0_r in H0.
    assert (Hr : triple ginv (length l * k) L' (delete_children it ws) (fun _ l' => l' = [])).
    { apply (IH (Datatypes.S i) ws L'); [|done]. intros j es Hj. rewrite Nat.add_succ_comm. by apply Hs. }
    assert (HL2 : L ≡ₚ L' ++ l0) by (rewrite HL; apply Permutation_app_comm).
    apply (triple_seq ginv _ (length l * k) k _ _ _ _ _ (triple_frame_perm ginv _ _ _ l0 _ _ Hr HL2)); [|lia].
    intros [] l' (l1 & -> & ->). by apply (wraps_delete it ginv w l0 (ps i)).
Qed.

(** Where a seek of all children ends. *)
Lemma seek_all_spec f (P : bytes -> Prop) (g : entries -> option nat) m L p :
  (forall j es w l p, ess !! j = Some es -> wraps es (pos j) w l p -> triple ginv k l (f w) (fun w' l' => wraps es (pos j) w' l' (g es))) ->
  (forall a b, P a -> cmp a b <> Gt -> P b) -> (forall es, at_first P es (g es)) -> merging_at m L p ->
  triple ginv merge_cost L (ws ← each_child (fun _ => f) 0 (mg_children m); mret (mkMerging ws (FindSmallest comparator ws) kForward))
    (fun m' L' => merging_at m' L' (g merged)).
Proof.
  intros Hf Hup Hg (ps & Hc & _). apply (triple_seq ginv _ (length ess * k) 0 _ _ _ _ _ (move_all (fun _ => f) k g ps _ L Hc
    (fun j es w l Hj Hw => Hf j es w l _ Hj Hw))); [|unfold merge_cost; lia].
  intros ws L' (ps' & Hc' & Hps'). apply (triple_ret ginv). apply (FindSmallest_spec P ps'); [done|done| |done].
  intros j es Hj. rewrite (Hps' j es Hj). apply Hg.
Qed.

Lemma merging_last m L p : merging_at m L p ->
  triple ginv merge_cost L (Merging_SeekToLast comparator it m) (fun m' L' => merging_at m' L' (last_pos merged)).
Proof.
  intros (ps & Hc & _). apply (triple_seq ginv _ (length ess * k) 0 _ _ _ _ _ (move_all (fun _ => wrapper_SeekToLast it) k last_pos ps _ L Hc
    (fun j es w l Hj Hw => wrapper_last it ginv (IteratorMSpec0 := Hspec j es Hj) w l _ Hw))); [|unfold merge_cost; lia].
  intros ws L' (ps' & Hc' & Hps'). apply (triple_ret ginv). apply (FindLargest_spec (fun _ => True) ps'); [done|done| |apply at_last_all].
  intros j es Hj. rewrite (Hps' j es Hj). apply at_last_all.
Qed.

Lemma Merging_spec : IteratorMSpec ginv T0 (MergingIteratorM comparator it) cmp merged merge_cost merging_at.
Proof.
  split.
  - intros m L [n|]; [intros (ps & Hc & e & c & es & _ & Hcur & _)|intros (ps & Hc & Hcur)]; cbn; by rewrite Hcur.
  - intros m L n (ps & _ & e & c & es & He & _). by eapply lookup_lt_Some.
  - intros m L n e Hm He. by apply (merging_key_value m L n e).
  - intros m L n e Hm He. by apply (merging_key_value m L n e).
  - intros m L p Hm. apply (seek_all_spec (wrapper_SeekToFirst it) (fun _ => True) first_pos m L p); [|done|apply at_first_all|done].
    intros j es w l q Hj Hw. pose proof (Hspec j es Hj). by apply (wrapper_first it ginv w l q).
  - intros m L p Hm. by apply (merging_last m L p).
  - intros m L p t HT Hm. apply (seek_all_spec (wrapper_Seek it t) (fun x => cmp x t <> Lt) (fun es => seek_pos cmp es t) m L p); [| |intros es; apply at_first_seek|done].
    + intros j es w l q Hj Hw. pose proof (Hspec j es Hj). by apply (wrapper_seek it ginv w l q).
    + intros a b Ha Hab. apply (cmp_not_gt_le cmp). apply (cmp_not_gt_le cmp) in Ha. by apply (cmp_le_trans cmp _ a).
  - intros m L n Hm. by apply merging_next.
  - intros m L n Hm. by apply merging_prev.
  - intros m L p (ps & Hc & _). cbn [im_status MergingIteratorM].
    destruct (children_status 0 ess ps (mg_children m) L Status_OK) as [->| ->]; done.
  - intros m L p (ps & Hc & _). eapply (triple_mono ginv); [by apply (delete_children_spec 0 ess ps)|unfold merge_cost; lia|done].
Qed.

(** ** NewMergingIterator *)

(** The iterators handed in. *)
Fixpoint started (i : nat) (ess : list entries) (ss : list S) (L : list R) : Prop :=
  match ess, ss with
  | [], [] => L = []
  | es :: ess, s :: ss => exists l L' p, L ≡ₚ l ++ L' /\ pos i s l p /\ started (Datatypes.S i) ess ss L'
  | _, _ => False
  end.

Lemma set_children i ess' pre ss L : (forall j es, ess' !! j = Some es -> IteratorMSpec ginv T0 it cmp es k (pos (i + j))) ->
  length pre = i -> started i ess' ss L ->
  triple ginv 0 L (each_child (fun j => wrapper_Set it ((pre ++ ss) !! j)) i (replicate (length ss) empty_wrapper))
    (fun ws L' => exists ps, children i ess' ps ws L').
Proof.
  revert i pre ss L. induction ess' as [|es0 l IH]; intros i pre [|s ss] L Hs Hi Hst; try done; cbn [length replicate each_child].
  - cbn in Hst. subst L. apply (triple_ret ginv). by exists (fun _ => None).
  - destruct Hst as (l0 & L' & p & HL & Hp & Hst). pose proof (Hs 0%nat es0 eq_refl) as H0. rewrite Nat.add_0_r in H0.
    rewrite list_lookup_middle by done.
    assert (Hset : triple ginv 0 l0 (wrapper_Set it (Some s) empty_wrapper) (fun w' l' => wraps es0 (pos i) w' l' p)).
    { rewrite <- (app_nil_r l0). apply (wrapper_Set_wraps it ginv 0 s l0 [] p); [done|]. by apply (unset_delete it ginv). }
    apply (triple_seq ginv _ 0 0 _ _ _ _ _ (triple_frame_perm ginv _ _ _ L' _ _ Hset HL)); [|lia]. intros w l' (l1 & -> & Hw).
    assert (Hr := IH (Datatypes.S i) (pre ++ [s]) ss L'). rewrite <- app_assoc in Hr. cbn [app] in Hr.
    apply (triple_seq ginv _ 0 0 _ _ _ (fun ws L2 => exists L3 ps, L2 ≡ₚ l1 ++ L3 /\ children (Datatypes.S i) l ps ws L3)); [| |lia].
    { eapply (triple_mono ginv); [apply (triple_frame_l ginv _ _ l1 _ _ (Hr ltac:(intros j es Hj; rewrite Nat.add_succ_comm; by apply Hs)
        ltac:(rewrite length_app; cbn; lia) Hst))|done|]. intros ws L2 (L3 & HL3 & ps & Hps). by exists L3, ps. }
    intros ws L2 (L3 & ps & HL3 & Hps). apply (triple_ret ginv). exists (fun j => if decide (j = i) then p else ps j). cbn [children].
    exists l1, L3. split; [done|]. rewrite decide_True by done. split; [done|].
    eapply children_ext; [|exact Hps]. intros j Hj. by rewrite decide_False by lia.
Qed.

(** What [NewMergingIterator] returns, by the number of children. *)
Definition any_merged_at : (Status * unit) + (S + MergingIterator S) -> list R -> option nat -> Prop :=
  match ess with
  | [] => mpos_inl (fun s l p => (s.1 = NewEmptyIterator /\ p = None) /\ l = [])
  | [_] => mpos_inr (mpos_inl (pos 0))
  | _ => mpos_inr (mpos_inr merging_at)
  end.

Lemma sorted_unique_list es es' : sorted_keys cmp es -> sorted_keys cmp es' -> es ≡ₚ es' -> es = es'.
Proof.
  intros H1. revert es'. induction H1 as [|e es H1 IH Hall]; intros es' H2 Hp; [by apply Permutation_nil_l in Hp|].
  destruct es' as [|e' es']; [by apply Permutation_nil_r in Hp|]. apply StronglySorted_inv in H2 as [H2 Hall'].
  assert (e = e') as ->.
  { assert (He : e ∈ e' :: es') by (rewrite <- Hp; by left). assert (He' : e' ∈ e :: es) by (rewrite Hp; by left).
    apply elem_of_cons in He as [->|He]; [done|]. apply elem_of_cons in He' as [->|He']; [done|].
    rewrite Forall_forall in Hall, Hall'. destruct (cmp_lt_irrefl cmp e.1). by apply (cmp_lt_trans cmp _ e'.1); [apply Hall|apply Hall']. }
  f_equal. apply IH; [done|]. by apply Permutation_cons_inv in Hp.
Qed.

Lemma AnyMerged_spec : IteratorMSpec ginv T0 (AnyMerged comparator it) cmp merged merge_cost any_merged_at.
Proof.
  pose proof Merging_spec as Hm. unfold any_merged_at, AnyMerged. destruct ess as [|es l] eqn:E; [|destruct l].
  - apply (IteratorMSpec_cost ginv _ _ _ _ 0); [unfold merge_cost; lia|]. apply (SumIteratorM_inl ginv).
    cbn in Hperm. symmetry in Hperm. apply Permutation_nil_l in Hperm. rewrite <- Hperm.
    apply (PureIterator_spec ginv EmptyIterator (fun _ => mret ()) T0 (fun _ => True) cmp [] (fun s p => s = NewEmptyIterator /\ p = None) (fun _ l => l = [])).
    + done.
    + apply EmptyIterator_spec.
    + intros d l ->. by apply (triple_ret ginv).
  - apply (IteratorMSpec_cost ginv _ _ _ _ k); [unfold merge_cost; cbn; lia|]. apply (SumIteratorM_inr ginv), (SumIteratorM_inl ginv).
    cbn [concat] in Hperm. rewrite app_nil_r in Hperm. rewrite (sorted_unique_list merged es Hsorted (Hes 0%nat es eq_refl) Hperm).
    by apply (Hspec 0%nat).
  - by apply (SumIteratorM_inr ginv), (SumIteratorM_inr ginv).
Qed.

Lemma NewMergingIterator_spec ss L : started 0 ess ss L ->
  triple ginv 0 L (NewMergingIterator it ss) (fun s L' => exists p, any_merged_at s L' p).
Proof.
  unfold any_merged_at. destruct ess as [|es l] eqn:E; [|destruct l as [|es2 l]]; intros Hst.
  - destruct ss; [|done]. cbn in Hst. subst L. apply (triple_ret ginv). by exists None.
  - destruct ss as [|s [|s2 ss]]; try done; destruct Hst as (l & L' & p & HL & Hp & Hst); [|done]. cbn in Hst. subst L'. rewrite app_nil_r in HL.
    cbn [NewMergingIterator]. apply (triple_perm ginv _ l); [by symmetry|]. apply (triple_ret ginv). by exists p.
  - destruct ss as [|s [|s2 ss]]; try done; [by destruct Hst as (? & ? & ? & _ & _ & [])|]. cbn [NewMergingIterator].
    apply (triple_fmap ginv _ _ _ _ (fun m L' => merging_at m L' None)); [|intros m L' Hm; by exists None].
    unfold new_MergingIterator. apply (triple_seq ginv _ 0 0 _ _ _ (fun ws L' => exists ps, children 0 ess ps ws L')); [| |lia].
    + rewrite E. apply (set_children 0 (es :: es2 :: l) [] (s :: s2 :: ss) L); [|done|done]. intros j x Hj. cbn [Nat.add]. apply Hspec. by rewrite <- Hj.
    + intros ws L' (ps & Hc). apply (triple_ret ginv). by exists ps.
Qed.

End Spec.

(** ** Children given by their entries and their good states *)

Section Described.
Context {G R : Type} (ginv : nat -> list R -> G -> Prop) `{!World ginv}.
Context {S : Type} (comparator : Comparator) `{!TotalCmp (Compare comparator)} (it : IteratorM G S).

Abbreviation Child := (entries * (S -> list R -> option nat -> Prop))%type.
Abbreviation cmp := (Compare comparator).

Fixpoint described (cs : list Child) (ss : list S) (L : list R) : Prop :=
  match cs, ss with
  | [], [] => L = []
  | c :: cs, s :: ss => exists l L' p, L ≡ₚ l ++ L' /\ c.2 s l p /\ described cs ss L'
  | _, _ => False
  end.

Definition child_pos (cs : list Child) (i : nat) : S -> list R -> option nat -> Prop := from_option snd (fun _ _ _ => False) (cs !! i).

Lemma described_app cs cs' ss ss' L L' : described cs ss L -> described cs' ss' L' -> described (cs ++ cs') (ss ++ ss') (L ++ L').
Proof.
  revert ss L. induction cs as [|c cs IH]; intros [|s ss] L Hd Hd'; try done.
  - cbn in Hd. by subst L.
  - destruct Hd as (l & L2 & p & HL & Hp & Hd). exists l, (L2 ++ L'), p. split; [by rewrite HL, app_assoc|]. split; [done|]. by apply IH.
Qed.

Lemma described_started pre cs ss L : described cs ss L -> started (child_pos (pre ++ cs)) (length pre) (map fst cs) ss L.
Proof.
  revert pre ss L. induction cs as [|c cs IH]; intros pre [|s ss] L Hd; try done. destruct Hd as (l & L' & p & HL & Hp & Hd).
  exists l, L', p. split; [done|]. split.
  - unfold child_pos. by rewrite list_lookup_middle.
  - assert (H := IH (pre ++ [c]) ss L' Hd). rewrite <- app_assoc, length_app, Nat.add_comm in H. exact H.
Qed.

Context (T0 : bytes -> Prop) (k : nat) (cs : list Child) (merged : entries) (Hperm : merged ≡ₚ concat (map fst cs)) (Hsorted : sorted_keys cmp merged).
Context (Hkeys : forall e, e ∈ merged -> T0 e.1).
Context (Hcs : forall c, c ∈ cs -> sorted_keys cmp c.1 /\ IteratorMSpec ginv T0 it cmp c.1 k c.2).

Definition merged_pos : (Status * unit) + (S + MergingIterator S) -> list R -> option nat -> Prop :=
  any_merged_at comparator (child_pos cs) (map fst cs) merged.

Lemma child_lookup i es : map fst cs !! i = Some es -> sorted_keys cmp es /\ IteratorMSpec ginv T0 it cmp es k (child_pos cs i).
Proof.
  intros Hi. rewrite list_lookup_fmap in Hi. unfold child_pos. destruct (cs !! i) as [c|] eqn:Ec; [|done]. injection Hi as <-. cbn.
  apply Hcs. by eapply list_elem_of_lookup_2.
Qed.

Lemma merged_children_spec : IteratorMSpec ginv T0 (AnyMerged comparator it) cmp merged (merge_cost k (map fst cs)) merged_pos.
Proof. apply AnyMerged_spec; try done; by intros i es [? ?]%child_lookup. Qed.

Lemma merge_children ss L : described cs ss L -> triple ginv 0 L (NewMergingIterator it ss) (fun s L' => exists p, merged_pos s L' p).
Proof.
  intros Hd. apply (NewMergingIterator_spec ginv comparator it T0 k (child_pos cs) (map fst cs) merged Hperm); [by intros i es [? ?]%child_lookup..|].
  by apply (described_started []).
Qed.

End Described.

(** The same children with their states in a larger type. *)
Lemma described_map {R S S'} (child : entries * (S -> list R -> option nat -> Prop) -> entries * (S' -> list R -> option nat -> Prop)) (inj : S -> S') cs ss L :
  (forall c s l p, c.2 s l p -> (child c).2 (inj s) l p) -> described cs ss L -> described (map child cs) (map inj ss) L.
Proof.
  intros Hc. revert ss L. induction cs as [|c cs IH]; intros [|s ss] L Hd; try done.
  destruct Hd as (l & L' & p & HL & Hp & Hd). exists l, L', p. split; [done|]. split; [by apply Hc|by apply IH].
Qed.
