(* ===== verification/Block.v ===== *)
(** * Blocks: table/block_builder.cpp, table/block.cpp

    A block is a sequence of entries whose keys share prefixes with their
    predecessors, cut by restart points, followed by the array of restart
    offsets. The builder and the iterator are translated function by function;
    pointers into the block are offsets. A result [None] stands for a failed
    assertion or a read outside the block. *)

From S2P Require Import Prelude Coding Status Comparator Iterator.

(** ** BlockBuilder *)

Record BlockBuilder := mkBlockBuilder {
  buffer_ : bytes;
  restarts_ : list Z;
  counter_ : Z;
  total_ : Z;
  finished_ : bool;
  last_key_ : bytes;
  BLT : list bytes                    (** digests of 32 bytes, never used *)
}.

Section BlockBuilder.
Context (block_restart_interval : Z) (cmp : Comparator).

(** The constructor asserts that the interval is at least 1. *)
Definition new_BlockBuilder : option BlockBuilder :=
  if 1 <=? block_restart_interval
  then Some (mkBlockBuilder [] [0] 0 0 false [] (replicate 64 (replicate 32 x00)))
  else None.

Definition BlockBuilder_Reset (b : BlockBuilder) : BlockBuilder :=
  mkBlockBuilder [] [0] 0 (total_ b) false [] (BLT b).

Definition CurrentSizeEstimate (b : BlockBuilder) : Z := zlen (buffer_ b) + zlen (restarts_ b) * 4 + 4.

Definition BlockBuilder_empty (b : BlockBuilder) : bool := if buffer_ b is [] then true else false.

(** The contents of the block, and the builder afterwards. *)
Definition BlockBuilder_Finish (b : BlockBuilder) : bytes * BlockBuilder :=
  let buffer := fold_left PutFixed32 (restarts_ b) (buffer_ b) in
  let buffer := PutFixed32 buffer (u32 (zlen (restarts_ b))) in
  (buffer, mkBlockBuilder buffer (restarts_ b) (counter_ b) (total_ b) true (last_key_ b) (BLT b)).

Definition BlockBuilder_Add (key value : bytes) (b : BlockBuilder) : option BlockBuilder :=
  if finished_ b then None
  else if block_restart_interval <? counter_ b then None
  else if negb (BlockBuilder_empty b || is_gt (Compare cmp key (last_key_ b))) then None
  else
    let '(shared, restarts, counter) :=
      if counter_ b <? block_restart_interval
      then (shared_prefix (last_key_ b) key, restarts_ b, counter_ b)
      else (0%nat, restarts_ b ++ [u32 (zlen (buffer_ b))], 0) in
    let non_shared := (length key - shared)%nat in
    let buffer := PutVarint32 (buffer_ b) (u32 (Z.of_nat shared)) in
    let buffer := PutVarint32 buffer (u32 (Z.of_nat non_shared)) in
    let buffer := PutVarint32 buffer (u32 (zlen value)) in
    let buffer := buffer ++ drop shared key in
    let buffer := buffer ++ value in
    let last_key := take shared (last_key_ b) ++ drop shared key in
    if decide (last_key = key)
    then Some (mkBlockBuilder buffer restarts (counter + 1) (total_ b + 1) (finished_ b) last_key (BLT b))
    else None.

End BlockBuilder.

(** ** Block *)

(** [contents.data]; [size_] is 0 after an error. *)
Record Block := mkBlock { b_data : bytes; b_size : Z; b_restart_offset : Z }.

(** [NumRestarts] reads the last word of a block of at least four bytes. *)
Definition NumRestarts (data : bytes) : Z := DecodeFixed32 (drop (length data - 4) data).

Definition new_Block (contents : bytes) : Block :=
  let size := zlen contents in
  if size <? 4 then mkBlock contents 0 0
  else
    let max_restarts_allowed := (size - 4) / 4 in
    if max_restarts_allowed <? NumRestarts contents then mkBlock contents 0 0
    else mkBlock contents size (u32 (size - u32 (1 + NumRestarts contents) * 4)).

(** The bytes of [data] from offset [off]; [None] when they are not all there. *)
Definition read_at (data : bytes) (off len : Z) : option bytes :=
  if (0 <=? off) && (off + len <=? zlen data) then Some (take (Z.to_nat len) (drop (Z.to_nat off) data)) else None.

(** The bytes from [p] up to [limit]. *)
Definition between (data : bytes) (p limit : Z) : bytes := take (Z.to_nat (limit - p)) (drop (Z.to_nat p) data).

(** [DecodeEntry] on the bytes up to the limit: shared, non-shared and value
    length, and what follows these three numbers. *)
Definition DecodeEntry (p : bytes) : option (Z * Z * Z * bytes) :=
  if zlen p <? 3 then None
  else
    r ← (if Z.lor (Z.lor (uc p 0) (uc p 1)) (uc p 2) <? 128
         then Some (uc p 0, uc p 1, uc p 2, drop 3 p)
         else
           a ← GetVarint32Ptr p;
           b ← GetVarint32Ptr a.2;
           c ← GetVarint32Ptr b.2;
           Some (a.1, b.1, c.1, c.2));
    let '(shared, non_shared, value_length, q) := r : Z * Z * Z * bytes in
    if u32 (zlen q) <? u32 (non_shared + value_length) then None
    else Some (shared, non_shared, value_length, q).

(** ** Block::Iter *)

(** [value_] is the offset and length of a slice of the block, [None] for a
    cleared slice. *)
Record BlockIter := mkBlockIter {
  bi_data : bytes;
  bi_restarts : Z;
  bi_num_restarts : Z;
  bi_current : Z;
  bi_restart_index : Z;
  bi_key : bytes;
  bi_value : option (Z * Z);
  bi_status : Status
}.

Definition new_BlockIter (data : bytes) (restarts num_restarts : Z) : option BlockIter :=
  if 0 <? num_restarts then Some (mkBlockIter data restarts num_restarts restarts num_restarts [] None Status_OK) else None.

Section BlockIter.
Context (cmp : Comparator).

Definition BlockIter_Valid (it : BlockIter) : bool := bi_current it <? bi_restarts it.

Definition BlockIter_key (it : BlockIter) : option bytes := if BlockIter_Valid it then Some (bi_key it) else None.

Definition BlockIter_value (it : BlockIter) : option bytes :=
  if BlockIter_Valid it then v ← bi_value it; read_at (bi_data it) v.1 v.2 else None.

Definition NextEntryOffset (it : BlockIter) : option Z := (fun v => u32 (v.1 + v.2)) <$> bi_value it.

Definition GetRestartPoint (it : BlockIter) (index : Z) : option Z :=
  if index <? bi_num_restarts it
  then DecodeFixed32 <$> read_at (bi_data it) (bi_restarts it + index * 4) 4
  else None.

Definition SeekToRestartPoint (index : Z) (it : BlockIter) : option BlockIter :=
  offset ← GetRestartPoint it index;
  Some (mkBlockIter (bi_data it) (bi_restarts it) (bi_num_restarts it) (bi_current it) index [] (Some (offset, 0))
          (bi_status it)).

Definition CorruptionError (it : BlockIter) : BlockIter :=
  mkBlockIter (bi_data it) (bi_restarts it) (bi_num_restarts it) (bi_restarts it) (bi_num_restarts it) [] None
    (Corruption (lit "bad entry in block")).

(** [current_ = restarts_; restart_index_ = num_restarts_;] *)
Definition set_invalid (it : BlockIter) : BlockIter :=
  mkBlockIter (bi_data it) (bi_restarts it) (bi_num_restarts it) (bi_restarts it) (bi_num_restarts it) (bi_key it)
    (bi_value it) (bi_status it).

(** The [while] loop that advances [restart_index_]. *)
Fixpoint advance_restart (fuel : nat) (it : BlockIter) (current index : Z) : option Z :=
  match fuel with
  | O => None
  | S fuel =>
      if index + 1 <? bi_num_restarts it then
        r ← GetRestartPoint it (index + 1);
        if r <? current then advance_restart fuel it current (index + 1) else Some index
      else Some index
  end.

Definition ParseNextKey (it : BlockIter) : option (bool * BlockIter) :=
  current ← NextEntryOffset it;
  if bi_restarts it <=? current then Some (false, set_invalid it)
  else
    match DecodeEntry (between (bi_data it) current (bi_restarts it)) with
    | None => Some (false, CorruptionError it)
    | Some (shared, non_shared, value_length, q) =>
        if zlen (bi_key it) <? shared then Some (false, CorruptionError it)
        else
          let p := bi_restarts it - zlen q in
          delta ← read_at (bi_data it) p non_shared;
          index ← advance_restart (S (Z.to_nat (bi_num_restarts it))) it current (bi_restart_index it);
          Some (true, mkBlockIter (bi_data it) (bi_restarts it) (bi_num_restarts it) current index
                        (take (Z.to_nat shared) (bi_key it) ++ delta) (Some (p + non_shared, value_length)) (bi_status it))
    end.

Definition BlockIter_Next (it : BlockIter) : option BlockIter :=
  if BlockIter_Valid it then r ← ParseNextKey it; Some r.2 else None.

(** Every entry takes at least three bytes. *)
Definition scan_fuel (it : BlockIter) : nat := S (Z.to_nat (bi_restarts it)).

(** [ParseNextKey() && NextEntryOffset() < bound] until it fails. *)
Fixpoint skip_until (fuel : nat) (bound : Z) (it : BlockIter) : option BlockIter :=
  match fuel with
  | O => None
  | S fuel =>
      r ← ParseNextKey it;
      let '(more, it) := r : bool * BlockIter in
      if more then
        o ← NextEntryOffset it;
        if o <? bound then skip_until fuel bound it else Some it
      else Some it
  end.

(** Scan backwards to a restart point before [original]; [inl] is the
    iterator when there is none. *)
Fixpoint restart_before (fuel : nat) (original : Z) (it : BlockIter) (index : Z) : option (BlockIter + Z) :=
  match fuel with
  | O => None
  | S fuel =>
      r ← GetRestartPoint it index;
      if original <=? r then
        if index =? 0 then Some (inl (set_invalid it)) else restart_before fuel original it (index - 1)
      else Some (inr index)
  end.

Definition BlockIter_Prev (it : BlockIter) : option BlockIter :=
  if BlockIter_Valid it then
    let original := bi_current it in
    r ← restart_before (S (Z.to_nat (bi_num_restarts it))) original it (bi_restart_index it);
    match r with
    | inl it => Some it
    | inr index => it ← SeekToRestartPoint index it; skip_until (scan_fuel it) original it
    end
  else None.

Definition BlockIter_SeekToFirst (it : BlockIter) : option BlockIter :=
  it ← SeekToRestartPoint 0 it; r ← ParseNextKey it; Some r.2.

Definition BlockIter_SeekToLast (it : BlockIter) : option BlockIter :=
  it ← SeekToRestartPoint (bi_num_restarts it - 1) it; skip_until (scan_fuel it) (bi_restarts it) it.

(** The binary search over the restart array: the last restart point with a
    key before [target], [None] inside when an entry is corrupt. *)
Fixpoint seek_restart (fuel : nat) (it : BlockIter) (target : bytes) (left right : Z) : option (option Z) :=
  match fuel with
  | O => None
  | S fuel =>
      if left <? right then
        let mid := u32 (left + right + 1) / 2 in
        region_offset ← GetRestartPoint it mid;
        match DecodeEntry (between (bi_data it) region_offset (bi_restarts it)) with
        | None => Some None
        | Some (shared, non_shared, _, q) =>
            if negb (shared =? 0) then Some None
            else
              mid_key ← read_at (bi_data it) (bi_restarts it - zlen q) non_shared;
              if is_lt (Compare cmp mid_key target) then seek_restart fuel it target mid right
              else seek_restart fuel it target left (mid - 1)
        end
      else Some (Some left)
  end.

Fixpoint seek_linear (fuel : nat) (target : bytes) (it : BlockIter) : option BlockIter :=
  match fuel with
  | O => None
  | S fuel =>
      r ← ParseNextKey it;
      let '(more, it) := r : bool * BlockIter in
      if more && is_lt (Compare cmp (bi_key it) target) then seek_linear fuel target it else Some it
  end.

Definition BlockIter_Seek (target : bytes) (it : BlockIter) : option BlockIter :=
  r ← seek_restart (S (Z.to_nat (bi_num_restarts it))) it target 0 (bi_num_restarts it - 1);
  match r with
  | None => Some (CorruptionError it)
  | Some index => it ← SeekToRestartPoint index it; seek_linear (scan_fuel it) target it
  end.

Definition BlockIterator : Iterator BlockIter := {|
  it_Valid := BlockIter_Valid;
  it_SeekToFirst := BlockIter_SeekToFirst;
  it_SeekToLast := BlockIter_SeekToLast;
  it_Seek := BlockIter_Seek;
  it_Next := BlockIter_Next;
  it_Prev := BlockIter_Prev;
  it_key := BlockIter_key;
  it_value := BlockIter_value;
  it_status := bi_status
|}.

End BlockIter.

(** [NewIterator]: an error or empty iterator, given by its status, or an
    iterator over the entries. *)
Definition Block_NewIterator (b : Block) : option (Status + BlockIter) :=
  if b_size b <? 4 then Some (inl (NewErrorIterator (Corruption (lit "bad block contents"))))
  else
    let num_restarts := NumRestarts (b_data b) in
    if num_restarts =? 0 then Some (inl NewEmptyIterator)
    else it ← new_BlockIter (b_data b) (b_restart_offset b) num_restarts; Some (inr it).

(** ** What a block holds *)

(** The encoding of an entry that shares [s] bytes with its predecessor. *)
Definition chunk (s : nat) (e : bytes * bytes) : bytes :=
  EncodeVarint32 (Z.of_nat s) ++ EncodeVarint32 (Z.of_nat (length e.1 - s)) ++ EncodeVarint32 (zlen e.2) ++
  drop s e.1 ++ e.2.

(** Entries, the prefix length of each, and the entries that are restart
    points. *)
Record Layout := mkLayout { l_es : entries; l_shared : list nat; l_rs : list nat }.

Definition l_chunks (l : Layout) : list bytes := zip_with chunk (l_shared l) (l_es l).
Definition l_offset (l : Layout) (i : nat) : Z := zlen (concat (take i (l_chunks l))).
Definition l_restarts (l : Layout) : list Z := map (l_offset l) (l_rs l).
Definition l_data (l : Layout) : bytes :=
  concat (l_chunks l) ++ concat (map EncodeFixed32 (l_restarts l)) ++ EncodeFixed32 (zlen (l_rs l)).

Definition small_entry (e : bytes * bytes) : Prop := zlen e.1 + zlen e.2 < 2 ^ 32.

(** The key in front of entry [i]. *)
Definition prev_key (es : entries) (i : nat) : bytes :=
  match i with O => [] | S j => default [] (fst <$> es !! j) end.

Record layout_wf (l : Layout) : Prop := {
  lo_length : length (l_shared l) = length (l_es l);
  lo_shared : forall i s e, l_shared l !! i = Some s -> l_es l !! i = Some e ->
    (s <= length (prev_key (l_es l) i))%nat /\ (s <= length e.1)%nat /\ take s (prev_key (l_es l) i) = take s e.1;
  lo_first : head (l_rs l) = Some 0%nat;
  lo_rs : forall j r, l_rs l !! j = Some r -> (r <= length (l_es l))%nat /\
    (l_es l <> [] -> l_shared l !! r = Some 0%nat);
  lo_empty : l_es l = [] -> l_rs l = [0%nat];
  lo_small : Forall small_entry (l_es l)
}.

Lemma fits_Z z w : 0 <= z -> z < 2 ^ w -> fits w z.
Proof. by split. Qed.

(** The fast path of [DecodeEntry] reads what the general one reads. *)
Definition decode_three (p : bytes) : option (Z * Z * Z * bytes) :=
  a ← GetVarint32Ptr p; b ← GetVarint32Ptr a.2; c ← GetVarint32Ptr b.2; Some (a.1, b.1, c.1, c.2).

Lemma DecodeEntry_slow p : DecodeEntry p =
  if zlen p <? 3 then None
  else
    r ← decode_three p;
    let '(shared, non_shared, value_length, q) := r : Z * Z * Z * bytes in
    if u32 (zlen q) <? u32 (non_shared + value_length) then None
    else Some (shared, non_shared, value_length, q).
Proof.
  unfold DecodeEntry. destruct (Z.ltb_spec (zlen p) 3) as [|Hl]; [done|].
  destruct (Z.ltb_spec (Z.lor (Z.lor (uc p 0) (uc p 1)) (uc p 2)) 128) as [Hf|]; [|done].
  destruct p as [|x [|y [|z p]]]; try (unfold zlen in Hl; cbn in Hl; lia). unfold decode_three.
  unfold uc in *. cbn [nth] in *. pose proof (b2z_range x). pose proof (b2z_range y). pose proof (b2z_range z).
  assert (Hz : Z.land (Z.lor (Z.lor (b2z x) (b2z y)) (b2z z)) 128 = 0).
  { apply land128_zero. split; [|done]. apply Z.lor_nonneg. split; [apply Z.lor_nonneg|]; lia. }
  rewrite !Z.land_lor_distr_l in Hz. apply Z.lor_eq_0_iff in Hz as [Hz Hc]. apply Z.lor_eq_0_iff in Hz as [Ha Hb].
  unfold GetVarint32Ptr. rewrite Ha. cbn [Z.eqb mbind option_bind fst snd]. rewrite Hb.
  cbn [Z.eqb mbind option_bind fst snd]. by rewrite Hc.
Qed.

Lemma varint_length_pos z : 1 <= zlen (EncodeVarint32 z).
Proof. unfold EncodeVarint32, zlen. repeat case_match; cbn; lia. Qed.

Lemma GetVarint32Ptr_app v rest : fits 32 v -> GetVarint32Ptr (EncodeVarint32 v ++ rest) = Some (v, rest).
Proof. intros Hv. pose proof (GetVarint32_app v rest Hv) as H. unfold GetVarint32 in H. by repeat case_match. Qed.

(** [DecodeEntry] reads a chunk. *)
Lemma DecodeEntry_chunk s e rest : small_entry e -> (s <= length e.1)%nat -> zlen (chunk s e ++ rest) < 2 ^ 32 ->
  DecodeEntry (chunk s e ++ rest) =
  Some (Z.of_nat s, zlen e.1 - Z.of_nat s, zlen e.2, drop s e.1 ++ e.2 ++ rest).
Proof.
  intros He Hs Hsz. unfold small_entry, zlen in He.
  assert (H1 : fits 32 (Z.of_nat s)) by (split; lia).
  assert (H2 : fits 32 (Z.of_nat (length e.1 - s))) by (split; lia).
  assert (H3 : fits 32 (zlen e.2)) by (unfold zlen; split; lia).
  pose proof (varint_length_pos (Z.of_nat s)). pose proof (varint_length_pos (Z.of_nat (length e.1 - s))).
  pose proof (varint_length_pos (zlen e.2)). pose proof (zlen_nonneg rest). pose proof (zlen_nonneg e.2).
  pose proof (zlen_nonneg (drop s e.1)).
  rewrite DecodeEntry_slow. unfold chunk in *. rewrite <- !app_assoc in *.
  destruct (Z.ltb_spec (zlen (EncodeVarint32 (Z.of_nat s) ++ EncodeVarint32 (Z.of_nat (length e.1 - s)) ++
    EncodeVarint32 (zlen e.2) ++ drop s e.1 ++ e.2 ++ rest)) 3) as [Hl|_].
  { rewrite !zlen_app in Hl. lia. }
  unfold decode_three. rewrite GetVarint32Ptr_app by done. cbn [mbind option_bind fst snd].
  rewrite GetVarint32Ptr_app by done. cbn [mbind option_bind fst snd]. rewrite GetVarint32Ptr_app by done.
  cbn [mbind option_bind fst snd]. rewrite !zlen_app in Hsz.
  assert (Hd : zlen (drop s e.1) = zlen e.1 - Z.of_nat s)
    by (unfold zlen; rewrite length_drop; lia).
  replace (Z.of_nat (length e.1 - s)) with (zlen e.1 - Z.of_nat s) by (unfold zlen; lia).
  rewrite !u32_small by (rewrite ?zlen_app; lia).
  destruct (Z.ltb_spec (zlen (drop s e.1 ++ e.2 ++ rest)) (zlen e.1 - Z.of_nat s + zlen e.2)) as [Hbad|_]; [|done].
  rewrite !zlen_app in Hbad. lia.
Qed.

(** ** The iterator of a block built from a layout *)

Section Cursor.
Context (cmp : Comparator) (l : Layout) (Hok : layout_wf l) (Hsize : zlen (l_data l) < 2 ^ 32).

Abbreviation es := (l_es l).
Abbreviation limit := (l_offset l (length (l_es l))).

Lemma chunks_lookup i e : es !! i = Some e ->
  exists s, l_shared l !! i = Some s /\ l_chunks l !! i = Some (chunk s e).
Proof.
  intros He. destruct (lookup_lt_is_Some_2 (l_shared l) i) as [s Hs].
  { rewrite (lo_length l Hok). by eapply lookup_lt_Some. }
  exists s. split; [done|]. apply lookup_zip_with_Some. by exists s, e.
Qed.

Lemma chunks_length : length (l_chunks l) = length es.
Proof. unfold l_chunks. rewrite length_zip_with, (lo_length l Hok). lia. Qed.

Lemma limit_all : limit = zlen (concat (l_chunks l)).
Proof. unfold l_offset. by rewrite <- chunks_length, firstn_all. Qed.

Lemma data_length : zlen (l_data l) = limit + 4 * zlen (l_rs l) + 4.
Proof.
  unfold l_data. rewrite !zlen_app, <- limit_all. unfold zlen.
  rewrite fixed32_array_length, EncodeFixed32_length. unfold l_restarts. rewrite length_map. lia.
Qed.

Lemma rs_pos : 1 <= zlen (l_rs l).
Proof. pose proof (lo_first l Hok). destruct (l_rs l); [done|]. rewrite zlen_cons. pose proof (zlen_nonneg l0). lia. Qed.

Lemma offset_S i e s : es !! i = Some e -> l_shared l !! i = Some s ->
  l_offset l (S i) = l_offset l i + zlen (chunk s e).
Proof.
  intros He Hs. destruct (chunks_lookup i e He) as (s' & Hs' & Hc). rewrite Hs in Hs'. injection Hs' as <-.
  unfold l_offset. by rewrite (concat_take_S _ _ _ Hc), zlen_app.
Qed.

Lemma chunk_length s e : 3 + zlen e.2 <= zlen (chunk s e).
Proof.
  unfold chunk. rewrite !zlen_app. pose proof (varint_length_pos (Z.of_nat s)).
  pose proof (varint_length_pos (Z.of_nat (length e.1 - s))). pose proof (varint_length_pos (zlen e.2)).
  pose proof (zlen_nonneg (drop s e.1)). lia.
Qed.

Lemma offset_lt i j : (i < j)%nat -> (j <= length es)%nat -> l_offset l i + 3 * Z.of_nat (j - i) <= l_offset l j.
Proof.
  induction j as [|j IH]; intros Hij Hj; [lia|]. destruct (lookup_lt_is_Some_2 es j ltac:(lia)) as [e He].
  destruct (chunks_lookup j e He) as (s & Hs & _). rewrite (offset_S j e s He Hs).
  pose proof (chunk_length s e). pose proof (zlen_nonneg e.2).
  destruct (decide (i = j)) as [->|]; [lia|]. specialize (IH ltac:(lia) ltac:(lia)). lia.
Qed.

Lemma offset_0 : l_offset l 0 = 0.
Proof. done. Qed.

Lemma offset_range i : (i <= length es)%nat -> 0 <= l_offset l i <= limit.
Proof.
  intros Hi. split; [apply zlen_nonneg|]. destruct (decide (i = length es)) as [->|]; [lia|].
  pose proof (offset_lt i (length es)). lia.
Qed.

Lemma limit_small : limit < 2 ^ 32 /\ zlen (l_rs l) < 2 ^ 30.
Proof.
  pose proof Hsize as H. rewrite data_length in H. pose proof (offset_range (length es)). pose proof rs_pos. lia.
Qed.

Lemma offset_inj_lt i j : (i <= length es)%nat -> (j <= length es)%nat -> l_offset l i < l_offset l j -> (i < j)%nat.
Proof.
  intros Hi Hj H. destruct (decide (i < j)%nat); [done|]. destruct (decide (i = j)) as [->|]; [lia|].
  pose proof (offset_lt j i). lia.
Qed.

(** The bytes from entry [i] to the limit. *)
Lemma between_offset i e s : es !! i = Some e -> l_shared l !! i = Some s ->
  between (l_data l) (l_offset l i) limit = chunk s e ++ concat (drop (S i) (l_chunks l)).
Proof.
  intros He Hs. destruct (chunks_lookup i e He) as (s' & Hs' & Hc). rewrite Hs in Hs'. injection Hs' as <-.
  unfold between, l_data. rewrite limit_all. unfold l_offset. rewrite to_nat_zlen.
  assert (Hsplit : concat (l_chunks l) = concat (take i (l_chunks l)) ++ chunk s e ++ concat (drop (S i) (l_chunks l))).
  { rewrite <- (take_drop_middle _ _ _ Hc) at 1. by rewrite concat_app. }
  rewrite Hsplit at 2. rewrite <- app_assoc, drop_app_length. apply take_app_length'.
  rewrite Hsplit, zlen_app. unfold zlen. lia.
Qed.

(** An iterator over this block. *)
Record on_block (it : BlockIter) : Prop := {
  ob_data : bi_data it = l_data l;
  ob_restarts : bi_restarts it = limit;
  ob_num : bi_num_restarts it = zlen (l_rs l);
  ob_status : bi_status it = Status_OK
}.

(** It stands at entry [i], or behind the last one. *)
Definition bpos (it : BlockIter) (p : option nat) : Prop :=
  on_block it /\
  match p with
  | None => bi_current it = limit
  | Some i => exists e, es !! i = Some e /\ bi_current it = l_offset l i /\ bi_key it = e.1 /\
      bi_value it = Some (l_offset l (S i) - zlen e.2, zlen e.2) /\ 0 <= bi_restart_index it < zlen (l_rs l)
  end.

(** [ParseNextKey] will read entry [i]. *)
Definition next_at (it : BlockIter) (i : nat) : Prop :=
  on_block it /\ NextEntryOffset it = Some (l_offset l i) /\ 0 <= bi_restart_index it < zlen (l_rs l) /\
  forall s e, l_shared l !! i = Some s -> es !! i = Some e -> (s <= length (bi_key it))%nat /\ take s (bi_key it) = take s e.1.

Lemma GetRestartPoint_at it j r : on_block it -> l_rs l !! j = Some r ->
  GetRestartPoint it (Z.of_nat j) = Some (l_offset l r).
Proof.
  intros [Hd Hr Hn _] Hj. pose proof (lookup_lt_Some _ _ _ Hj) as Hlt. pose proof (offset_range (length es) ltac:(lia)).
  unfold GetRestartPoint. rewrite Hn, Hr, Hd.
  destruct (Z.ltb_spec (Z.of_nat j) (zlen (l_rs l))) as [_|]; [|unfold zlen in *; lia].
  unfold read_at. destruct (Z.leb_spec 0 (limit + Z.of_nat j * 4)); [|lia].
  destruct (Z.leb_spec (limit + Z.of_nat j * 4 + 4) (zlen (l_data l))) as [_|Hb];
    [|rewrite data_length in Hb; unfold zlen in Hb; lia].
  cbn [andb fmap option_fmap option_map]. f_equal. rewrite DecodeFixed32_le, take_take.
  change (Nat.min 4 (Z.to_nat 4)) with 4%nat. rewrite <- DecodeFixed32_le.
  replace (Z.to_nat (limit + Z.of_nat j * 4)) with (length (concat (l_chunks l)) + 4 * j)%nat
    by (rewrite limit_all; unfold zlen; lia).
  unfold l_data. rewrite <- drop_drop, drop_app_length.
  rewrite (fixed32_array_lookup (l_restarts l) j (l_offset l r)).
  - apply u32_small. destruct (lo_rs l Hok j r Hj) as [Hle _]. pose proof (offset_range r Hle). pose proof limit_small. lia.
  - unfold l_restarts. by rewrite list_lookup_fmap, Hj.
Qed.

Lemma restart_exists j : 0 <= j < zlen (l_rs l) -> exists r, l_rs l !! Z.to_nat j = Some r.
Proof. intros Hj. apply lookup_lt_is_Some_2. unfold zlen in Hj. lia. Qed.

Lemma GetRestartPoint_Z it j : on_block it -> 0 <= j < zlen (l_rs l) ->
  exists r, l_rs l !! Z.to_nat j = Some r /\ GetRestartPoint it j = Some (l_offset l r).
Proof.
  intros Hb Hj. destruct (restart_exists j Hj) as [r Hr]. exists r. split; [done|].
  rewrite <- (Z2Nat.id j) by lia. by apply GetRestartPoint_at.
Qed.

Lemma advance_restart_total it current : on_block it -> forall fuel index, 0 <= index < zlen (l_rs l) ->
  zlen (l_rs l) - index < Z.of_nat fuel ->
  exists index', advance_restart fuel it current index = Some index' /\ 0 <= index' < zlen (l_rs l).
Proof.
  intros Hb. induction fuel as [|fuel IH]; intros index Hi Hf; [lia|]. cbn [advance_restart].
  rewrite (ob_num it Hb). destruct (Z.ltb_spec (index + 1) (zlen (l_rs l))); [|by exists index].
  destruct (GetRestartPoint_Z it (index + 1) Hb ltac:(lia)) as (r & _ & ->). cbn [mbind option_bind].
  destruct (_ <? current); [apply IH; lia|by exists index].
Qed.

Lemma read_at_app a b c off len : off = zlen a -> len = zlen b -> read_at (a ++ b ++ c) off len = Some b.
Proof.
  intros -> ->. unfold read_at. rewrite !zlen_app. pose proof (zlen_nonneg a). pose proof (zlen_nonneg c).
  destruct (Z.leb_spec 0 (zlen a)); [|lia]. destruct (Z.leb_spec (zlen a + zlen b) (zlen a + (zlen b + zlen c))); [|lia].
  cbn [andb]. by rewrite !to_nat_zlen, drop_app_length, take_app_length.
Qed.

(** The block around entry [i]: its key delta and its value stand right in
    front of the next entry. *)
Lemma data_split i e s : es !! i = Some e -> l_shared l !! i = Some s -> exists front back,
  l_data l = front ++ drop s e.1 ++ e.2 ++ back /\
  zlen front + zlen (drop s e.1) + zlen e.2 = l_offset l (S i).
Proof.
  intros He Hs. destruct (chunks_lookup i e He) as (s' & Hs' & Hc). rewrite Hs in Hs'. injection Hs' as <-.
  eexists (concat (take i (l_chunks l)) ++ EncodeVarint32 (Z.of_nat s) ++ EncodeVarint32 (Z.of_nat (length e.1 - s)) ++
    EncodeVarint32 (zlen e.2)), _. split.
  - unfold l_data. rewrite <- (take_drop_middle _ _ _ Hc) at 1. rewrite concat_app. cbn [concat]. unfold chunk.
    rewrite <- !app_assoc. reflexivity.
  - rewrite (offset_S i e s He Hs). unfold l_offset, chunk. rewrite !zlen_app. lia.
Qed.

Lemma parse_at it i : next_at it i -> (i < length es)%nat ->
  exists it', ParseNextKey it = Some (true, it') /\ bpos it' (Some i).
Proof.
  intros (Hb & Hn & Hri & Hpre) Hi. destruct (lookup_lt_is_Some_2 es i Hi) as [e He].
  destruct (chunks_lookup i e He) as (s & Hs & _). destruct (Hpre s e Hs He) as [Hsl Htk].
  destruct (lo_shared l Hok i s e Hs He) as (_ & Hse & _).
  pose proof (offset_lt i (length es) Hi ltac:(lia)) as Hlt. pose proof (offset_S i e s He Hs) as HS.
  pose proof (offset_range (S i) ltac:(lia)) as HrS. pose proof limit_small as [Hlim _].
  unfold ParseNextKey. rewrite Hn. cbn [mbind option_bind]. rewrite (ob_restarts it Hb), (ob_data it Hb).
  destruct (Z.leb_spec limit (l_offset l i)); [lia|]. rewrite (between_offset i e s He Hs).
  set (rest := concat (drop (S i) (l_chunks l))).
  assert (Hrest : zlen rest = limit - l_offset l (S i)).
  { unfold rest. rewrite limit_all. unfold l_offset at 1. rewrite <- (take_drop (S i) (l_chunks l)) at 2.
    rewrite concat_app, zlen_app. lia. }
  pose proof (zlen_nonneg (chunk s e)). pose proof (offset_range i ltac:(lia)).
  rewrite DecodeEntry_chunk; [|by eapply Forall_lookup_1; [apply lo_small|]|done|rewrite zlen_app; lia].
  destruct (Z.ltb_spec (zlen (bi_key it)) (Z.of_nat s)) as [Hbad|_]; [unfold zlen in Hbad; lia|].
  set (p := limit - zlen (drop s e.1 ++ e.2 ++ rest)).
  assert (Hd : zlen (drop s e.1) = zlen e.1 - Z.of_nat s) by (unfold zlen; rewrite length_drop; lia).
  assert (Hp : p + (zlen e.1 - Z.of_nat s) = l_offset l (S i) - zlen e.2) by (unfold p; rewrite !zlen_app; lia).
  assert (Hread : read_at (l_data l) p (zlen e.1 - Z.of_nat s) = Some (drop s e.1)).
  { destruct (data_split i e s He Hs) as (front & back & -> & Hf). apply read_at_app; lia. }
  rewrite Hread. cbn [mbind option_bind].
  destruct (advance_restart_total it (l_offset l i) Hb (S (Z.to_nat (bi_num_restarts it))) (bi_restart_index it) Hri)
    as (index & -> & Hidx); [rewrite (ob_num it Hb); pose proof rs_pos; lia|].
  cbn [mbind option_bind]. eexists. split; [done|]. split; [split; cbn; try apply Hb; done|].
  exists e. cbn. split; [done|]. split; [done|]. split; [|split; [by rewrite Hp|done]].
  rewrite Nat2Z.id, Htk. apply take_drop.
Qed.

Lemma parse_end it : next_at it (length es) -> exists it', ParseNextKey it = Some (false, it') /\ bpos it' None.
Proof.
  intros (Hb & Hn & _). unfold ParseNextKey. rewrite Hn. cbn [mbind option_bind]. rewrite (ob_restarts it Hb), Z.leb_refl.
  eexists. split; [done|]. split; [split; cbn; apply Hb|]. apply (ob_restarts it Hb).
Qed.

Lemma bpos_next it i : bpos it (Some i) -> next_at it (S i).
Proof.
  intros (Hb & e & He & Hc & Hk & Hv & Hr). split; [done|]. unfold NextEntryOffset. rewrite Hv.
  pose proof (offset_range (S i)). pose proof limit_small. pose proof (lookup_lt_Some _ _ _ He).
  split; [cbn; f_equal; rewrite u32_small; lia|]. split; [done|]. intros s f Hs Hf.
  destruct (lo_shared l Hok (S i) s f Hs Hf) as (Hsl & _ & Htk). unfold prev_key in Hsl, Htk. rewrite He in Hsl, Htk.
  by rewrite Hk.
Qed.

Lemma restart_next it j : on_block it -> 0 <= j < zlen (l_rs l) -> exists r it', l_rs l !! Z.to_nat j = Some r /\
  SeekToRestartPoint j it = Some it' /\ next_at it' r /\ (r <= length es)%nat /\ (es <> [] -> r < length es)%nat.
Proof.
  intros Hb Hj. destruct (GetRestartPoint_Z it j Hb Hj) as (r & Hr & Hg). destruct (lo_rs l Hok _ _ Hr) as [Hle Hsh].
  unfold SeekToRestartPoint. rewrite Hg. cbn [mbind option_bind]. eexists r, _. split; [done|]. split; [done|].
  pose proof (offset_range r Hle). pose proof limit_small. split.
  - split; [split; cbn; apply Hb|]. cbn. split; [f_equal; rewrite u32_small; lia|]. split; [done|].
    intros s e Hs He. rewrite Hsh in Hs by (intros E; by rewrite E in He). injection Hs as <-. by split; [lia|].
  - split; [done|]. intros Hne. specialize (Hsh Hne). apply lookup_lt_Some in Hsh. by rewrite (lo_length l Hok) in Hsh.
Qed.

Lemma scan_fuel_enough it : on_block it -> (length es < scan_fuel it)%nat.
Proof.
  intros Hb. unfold scan_fuel. rewrite (ob_restarts it Hb). destruct (decide (length es = 0%nat)); [lia|].
  pose proof (offset_lt 0 (length es)). rewrite offset_0 in *. lia.
Qed.

Lemma skip_until_at b : (b <= length es)%nat -> forall fuel it i, next_at it i -> (i < b)%nat -> (b - i <= fuel)%nat ->
  exists it', skip_until fuel (l_offset l b) it = Some it' /\ bpos it' (Some (b - 1)%nat).
Proof.
  intros Hb. induction fuel as [|fuel IH]; intros it i Hn Hi Hf; [lia|]. cbn [skip_until].
  destruct (parse_at it i Hn ltac:(lia)) as (it' & -> & Hp). cbn [mbind option_bind].
  pose proof (bpos_next it' i Hp) as Hn'. destruct Hn' as (_ & Ho & _). rewrite Ho. cbn [mbind option_bind].
  destruct (decide (S i = b)) as [<-|Hne].
  - rewrite Z.ltb_irrefl. replace (S i - 1)%nat with i by lia. by exists it'.
  - pose proof (offset_lt (S i) b ltac:(lia) Hb). destruct (Z.ltb_spec (l_offset l (S i)) (l_offset l b)); [|lia].
    apply (IH it' (S i)); [by apply bpos_next|lia|lia].
Qed.

Lemma restart_before_spec it i : on_block it -> (i <= length es)%nat -> forall fuel index, 0 <= index < zlen (l_rs l) ->
  index < Z.of_nat fuel ->
  (restart_before fuel (l_offset l i) it index = Some (inl (set_invalid it)) /\ i = 0%nat) \/
  (exists j r, restart_before fuel (l_offset l i) it index = Some (inr j) /\ 0 <= j < zlen (l_rs l) /\
     l_rs l !! Z.to_nat j = Some r /\ (r < i)%nat).
Proof.
  intros Hb Hi. induction fuel as [|fuel IH]; intros index Hx Hf; [lia|]. cbn [restart_before].
  destruct (GetRestartPoint_Z it index Hb Hx) as (r & Hr & ->). cbn [mbind option_bind].
  destruct (lo_rs l Hok _ _ Hr) as [Hle _].
  destruct (Z.leb_spec (l_offset l i) (l_offset l r)) as [Hge|Hlt].
  - destruct (Z.eqb_spec index 0) as [->|]; [|apply IH; lia]. left. split; [done|].
    pose proof (lo_first l Hok) as H0. destruct (l_rs l); [done|]. injection H0 as ->. injection Hr as <-.
    rewrite offset_0 in Hge. destruct (decide (i = 0)%nat); [done|]. pose proof (offset_lt 0 i). rewrite offset_0 in *. lia.
  - right. exists index, r. split; [done|]. split; [done|]. split; [done|]. by apply offset_inj_lt.
Qed.

Lemma prev_at it i : bpos it (Some i) -> exists it', BlockIter_Prev it = Some it' /\ bpos it' (prev_pos i).
Proof.
  intros Hp. pose proof Hp as (Hb & e & He & Hc & Hk & Hv & Hr). pose proof (lookup_lt_Some _ _ _ He) as Hi.
  unfold BlockIter_Prev, BlockIter_Valid. pose proof (offset_lt i (length es) Hi ltac:(lia)).
  rewrite Hc, (ob_restarts it Hb). destruct (Z.ltb_spec (l_offset l i) limit); [|lia].
  destruct (restart_before_spec it i Hb ltac:(lia) (S (Z.to_nat (bi_num_restarts it))) (bi_restart_index it) Hr)
    as [[-> ->]|(j & r & -> & Hj & Hrj & Hri)]; [rewrite (ob_num it Hb); lia| |]; cbn [mbind option_bind].
  - eexists. split; [done|]. split; [split; cbn; apply Hb|]. apply (ob_restarts it Hb).
  - destruct (restart_next it j Hb Hj) as (r' & it' & Hr' & -> & Hn & _). rewrite Hrj in Hr'. injection Hr' as <-.
    cbn [mbind option_bind]. destruct (skip_until_at i ltac:(lia) (scan_fuel it') it' r Hn Hri) as (it2 & -> & H2).
    { pose proof (scan_fuel_enough it' ltac:(apply Hn)). lia. }
    exists it2. split; [done|]. destruct i; [lia|]. cbn. by replace (S i - 1)%nat with i in H2 by lia.
Qed.

Lemma first_at it p : bpos it p -> exists it', BlockIter_SeekToFirst it = Some it' /\ bpos it' (first_pos es).
Proof.
  intros [Hb _]. pose proof rs_pos. unfold BlockIter_SeekToFirst.
  destruct (restart_next it 0 Hb ltac:(lia)) as (r & it1 & Hr & -> & Hn & Hle & Hne). cbn [mbind option_bind].
  pose proof (lo_first l Hok) as H0. destruct (l_rs l); [done|]. injection H0 as ->. injection Hr as <-.
  destruct es as [|e es'] eqn:E.
  - destruct (parse_end it1) as (it2 & -> & H2); [by rewrite E|]. by exists it2.
  - destruct (parse_at it1 0 Hn) as (it2 & -> & H2); [rewrite E; cbn; lia|]. by exists it2.
Qed.

Lemma last_at it p : bpos it p -> exists it', BlockIter_SeekToLast it = Some it' /\ bpos it' (last_pos es).
Proof.
  intros [Hb _]. pose proof rs_pos. unfold BlockIter_SeekToLast. rewrite (ob_num it Hb).
  destruct (restart_next it (zlen (l_rs l) - 1) Hb ltac:(lia)) as (r & it1 & _ & -> & Hn & Hle & Hne).
  cbn [mbind option_bind]. pose proof Hn as [Hb1 _]. rewrite (ob_restarts it1 Hb1).
  pose proof (scan_fuel_enough it1 Hb1) as Hf. unfold last_pos. destruct es as [|e es'] eqn:E.
  - replace r with (length es) in Hn by (rewrite E; cbn in *; lia).
    destruct (parse_end it1 Hn) as (it2 & Hp & H2). destruct (scan_fuel it1); [lia|]. cbn [skip_until].
    rewrite Hp. by exists it2.
  - rewrite <- E in *. destruct (skip_until_at (length es) ltac:(lia) (scan_fuel it1) it1 r Hn) as (it2 & Hs & H2).
    + apply Hne. by rewrite E.
    + lia.
    + by exists it2.
Qed.

Lemma next_after it i : bpos it (Some i) -> exists it', BlockIter_Next it = Some it' /\ bpos it' (next_pos es i).
Proof.
  intros Hp. pose proof Hp as (Hb & e & He & Hc & _). pose proof (lookup_lt_Some _ _ _ He) as Hi.
  unfold BlockIter_Next, BlockIter_Valid. pose proof (offset_lt i (length es) Hi ltac:(lia)).
  rewrite Hc, (ob_restarts it Hb). destruct (Z.ltb_spec (l_offset l i) limit); [|lia].
  apply bpos_next in Hp. unfold next_pos. destruct (Nat.ltb_spec (S i) (length es)).
  - destruct (parse_at it (S i) Hp ltac:(lia)) as (it2 & -> & H2). by exists it2.
  - replace (S i) with (length es) in Hp by lia. destruct (parse_end it Hp) as (it2 & -> & H2). by exists it2.
Qed.

Context `{!TotalCmp (Compare cmp)} (Hsorted : sorted_keys (Compare cmp) (l_es l)).

Lemma seek_restart_spec it t : on_block it -> forall fuel a b, 0 <= a <= b -> b < zlen (l_rs l) -> b - a < Z.of_nat fuel ->
  (forall r j e, l_rs l !! Z.to_nat a = Some r -> (j < r)%nat -> es !! j = Some e -> Compare cmp e.1 t = Lt) ->
  exists a', seek_restart cmp fuel it t a b = Some (Some a') /\ 0 <= a' < zlen (l_rs l) /\
    (forall r j e, l_rs l !! Z.to_nat a' = Some r -> (j < r)%nat -> es !! j = Some e -> Compare cmp e.1 t = Lt).
Proof.
  intros Hb. induction fuel as [|fuel IH]; intros a b Hab Hbn Hf Hinv; [lia|]. cbn [seek_restart].
  destruct (Z.ltb_spec a b) as [Hlt|]; [|exists a; split; [done|]; split; [lia|done]].
  pose proof limit_small as [Hlim Hnum]. rewrite u32_small by lia. set (mid := (a + b + 1) / 2).
  assert (Hmid : a < mid <= b) by (unfold mid; Z.to_euclidean_division_equations; lia).
  destruct (GetRestartPoint_Z it mid Hb ltac:(lia)) as (r & Hr & ->). cbn [mbind option_bind].
  assert (Hne : es <> []).
  { intros E. apply (lo_empty l Hok) in E. rewrite E in Hbn. unfold zlen in Hbn. cbn in Hbn. lia. }
  destruct (lo_rs l Hok _ _ Hr) as [_ Hsh]. specialize (Hsh Hne).
  pose proof (lookup_lt_Some _ _ _ Hsh) as Hrl. rewrite (lo_length l Hok) in Hrl.
  destruct (lookup_lt_is_Some_2 es r Hrl) as [e He]. rewrite (ob_data it Hb), (ob_restarts it Hb).
  rewrite (between_offset r e 0 He Hsh). set (rest := concat (drop (S r) (l_chunks l))).
  assert (Hrest : zlen rest = limit - l_offset l (S r)).
  { unfold rest. rewrite limit_all. unfold l_offset at 1. rewrite <- (take_drop (S r) (l_chunks l)) at 2.
    rewrite concat_app, zlen_app. lia. }
  pose proof (offset_S r e 0 He Hsh). pose proof (offset_range r ltac:(lia)).
  rewrite DecodeEntry_chunk; [|by eapply Forall_lookup_1; [apply lo_small|]|lia|rewrite zlen_app; lia].
  cbn [Z.of_nat Z.eqb negb]. rewrite Z.sub_0_r, drop_0.
  assert (Hread : read_at (l_data l) (limit - zlen (e.1 ++ e.2 ++ rest)) (zlen e.1) = Some e.1).
  { destruct (data_split r e 0 He Hsh) as (front & back & -> & Hfr). rewrite drop_0 in Hfr |- *.
    apply read_at_app; [rewrite !zlen_app; lia|done]. }
  rewrite Hread. cbn [mbind option_bind]. destruct (is_lt (Compare cmp e.1 t)) eqn:Elt.
  - apply IH; [lia|lia|lia|]. intros r' j f Hr' Hj Hf'. rewrite Hr in Hr'. injection Hr' as <-.
    apply (cmp_lt_trans (Compare cmp) _ e.1); [by apply (sorted_keys_lookup _ es j r)|]. by destruct (Compare cmp e.1 t).
  - apply IH; [lia|lia|lia|done].
Qed.

Lemma seek_linear_spec t : forall fuel it i, next_at it i -> (i <= length es)%nat -> (length es - i < fuel)%nat ->
  (forall j e, (j < i)%nat -> es !! j = Some e -> Compare cmp e.1 t = Lt) ->
  exists it', seek_linear cmp fuel t it = Some it' /\ bpos it' (seek_pos (Compare cmp) es t).
Proof.
  induction fuel as [|fuel IH]; intros it i Hn Hi Hf Hlt; [lia|]. cbn [seek_linear].
  destruct (decide (i = length es)) as [->|].
  - destruct (parse_end it Hn) as (it' & -> & Hp). cbn [mbind option_bind andb]. exists it'. split; [done|].
    rewrite seek_pos_none; [done|]. intros j f Hf'. apply (Hlt j); [by eapply lookup_lt_Some|done].
  - destruct (parse_at it i Hn ltac:(lia)) as (it' & -> & Hp). cbn [mbind option_bind andb].
    pose proof Hp as (_ & e & He & _ & Hk & _). rewrite Hk. destruct (is_lt (Compare cmp e.1 t)) eqn:Elt.
    + apply (IH it' (S i)); [by apply bpos_next|lia|lia|]. intros j f Hj Hf'.
      destruct (decide (j = i)) as [->|]; [|apply (Hlt j); [lia|done]].
      rewrite He in Hf'. injection Hf' as <-. by destruct (Compare cmp e.1 t).
    + exists it'. split; [done|]. rewrite (seek_pos_at _ _ _ i e); [done|done|done|]. intros E. by rewrite E in Elt.
Qed.

Lemma seek_at it p t : bpos it p -> exists it', BlockIter_Seek cmp t it = Some it' /\ bpos it' (seek_pos (Compare cmp) es t).
Proof.
  intros [Hb _]. pose proof rs_pos. unfold BlockIter_Seek. rewrite (ob_num it Hb).
  destruct (seek_restart_spec it t Hb (S (Z.to_nat (zlen (l_rs l)))) 0 (zlen (l_rs l) - 1)) as (a & -> & Ha & Hlt); try lia.
  { pose proof (lo_first l Hok) as H0. destruct (l_rs l); [done|]. injection H0 as ->. intros r j e [= <-]. lia. }
  cbn [mbind option_bind]. destruct (restart_next it a Hb Ha) as (r & it1 & Hr & -> & Hn & Hle & _). cbn [mbind option_bind].
  apply (seek_linear_spec t _ it1 r); [done|done| |].
  - pose proof (scan_fuel_enough it1 ltac:(apply Hn)). lia.
  - intros j e Hj He. by apply (Hlt r j e).
Qed.

(** The iterator of a block is a cursor in its entries. *)
#[global] Instance BlockIterator_spec : IteratorSpec (BlockIterator cmp) (Compare cmp) (l_es l) bpos.
Proof.
  assert (Hv : forall it i, bpos it (Some i) -> BlockIter_Valid it = true).
  { intros it i (Hb & e & He & Hc & _). unfold BlockIter_Valid. rewrite Hc, (ob_restarts it Hb). apply Z.ltb_lt.
    apply lookup_lt_Some in He. pose proof (offset_lt i (length es)). lia. }
  split; cbn [it_Valid it_key it_value it_SeekToFirst it_SeekToLast it_Seek it_Next it_Prev it_status BlockIterator].
  - intros it [i|] H; [by rewrite (Hv it i)|]. destruct H as [Hb Hc]. unfold BlockIter_Valid.
    rewrite Hc, (ob_restarts it Hb), Z.ltb_irrefl. by rewrite bool_decide_eq_false_2 by (by intros []).
  - intros it i (_ & e & He & _). by eapply lookup_lt_Some.
  - intros it i e Hp He. unfold BlockIter_key. rewrite (Hv it i Hp). destruct Hp as (_ & e' & He' & _ & -> & _). congruence.
  - intros it i e Hp He. unfold BlockIter_value. rewrite (Hv it i Hp). destruct Hp as (Hb & e' & He' & _ & _ & -> & _).
    rewrite He in He'. injection He' as <-. cbn [mbind option_bind fst snd]. rewrite (ob_data it Hb).
    destruct (chunks_lookup i e He) as (s & Hs & _). destruct (data_split i e s He Hs) as (front & back & -> & Hf).
    rewrite app_assoc. apply read_at_app; [rewrite zlen_app; lia|done].
  - apply first_at.
  - apply last_at.
  - intros it p t _. apply seek_at.
  - apply next_after.
  - apply prev_at.
  - intros it p [Hb _]. apply (ob_status it Hb).
Qed.

End Cursor.

(** ** What the builder builds *)

Section Built.
Context (interval : Z) (cmp : Comparator) `{!TotalCmp (Compare cmp)}.

Definition add_block (es : entries) (b : option BlockBuilder) : option BlockBuilder :=
  fold_left (fun b e => b ← b; BlockBuilder_Add interval cmp e.1 e.2 b) es b.

Record building (b : BlockBuilder) (l : Layout) : Prop := {
  bd_wf : layout_wf l;
  bd_buffer : buffer_ b = concat (l_chunks l);
  bd_restarts : restarts_ b = map (fun r => u32 (l_offset l r)) (l_rs l);
  bd_finished : finished_ b = false;
  bd_last : last_key_ b = prev_key (l_es l) (length (l_es l));
  bd_counter : 0 <= counter_ b <= interval;
  bd_empty : l_es l = [] -> counter_ b = 0
}.

Definition l_add (l : Layout) (restart : bool) (s : nat) (e : bytes * bytes) : Layout :=
  mkLayout (l_es l ++ [e]) (l_shared l ++ [s]) (if restart then l_rs l ++ [length (l_es l)] else l_rs l).

Lemma l_add_chunks l r s e : layout_wf l -> l_chunks (l_add l r s e) = l_chunks l ++ [chunk s e].
Proof. intros H. unfold l_chunks. cbn. rewrite zip_with_app by (apply (lo_length l H)). done. Qed.

Lemma l_add_offset l r s e i : layout_wf l -> (i <= length (l_es l))%nat -> l_offset (l_add l r s e) i = l_offset l i.
Proof.
  intros H Hi. unfold l_offset. rewrite l_add_chunks by done. rewrite take_app_le; [done|]. by rewrite chunks_length.
Qed.

Lemma prev_key_app (es es' : entries) i : (i <= length es)%nat -> prev_key (es ++ es') i = prev_key es i.
Proof. intros Hi. destruct i as [|i]; [done|]. cbn. by rewrite lookup_app_l by lia. Qed.

Lemma l_add_wf l r s e : layout_wf l -> small_entry e -> (r = true -> s = 0%nat /\ l_es l <> []) ->
  (s <= length (prev_key (l_es l) (length (l_es l))))%nat -> (s <= length e.1)%nat ->
  take s (prev_key (l_es l) (length (l_es l))) = take s e.1 -> layout_wf (l_add l r s e).
Proof.
  intros H He Hr H1 H2 H3. pose proof (lo_length l H) as Hl. split; cbn.
  - rewrite !length_app. cbn. lia.
  - intros i t f Ht Hf. destruct (decide (i < length (l_es l))%nat) as [Hi|Hi].
    + rewrite lookup_app_l in Ht by lia. rewrite lookup_app_l in Hf by lia. rewrite prev_key_app by lia. by apply (lo_shared l H i).
    + apply lookup_lt_Some in Hf as Hi'. rewrite length_app in Hi'. cbn in Hi'.
      replace i with (length (l_es l)) in * by lia. rewrite list_lookup_middle in Hf by done.
      rewrite list_lookup_middle in Ht by lia. injection Ht as <-. injection Hf as <-. by rewrite prev_key_app by lia.
  - pose proof (lo_first l H). destruct r; [|done]. by destruct (l_rs l).
  - assert (Hold : forall j x, l_rs l !! j = Some x -> (x <= length (l_es l ++ [e]))%nat /\
      (l_es l ++ [e] <> [] -> (l_shared l ++ [s]) !! x = Some 0%nat)).
    { intros j x Hx. destruct (lo_rs l H j x Hx) as [Hle Hsh]. rewrite length_app. split; [lia|]. intros _.
      destruct (l_es l) as [|g es'] eqn:E.
      - assert (x = 0)%nat as -> by (cbn in Hle; lia). destruct (l_shared l); [|done]. cbn.
        destruct r; [by destruct (Hr eq_refl)|]. f_equal. cbn in H1. lia.
      - rewrite lookup_app_l; [by apply Hsh|]. specialize (Hsh ltac:(done)). by eapply lookup_lt_Some. }
    intros j x. destruct r; [|apply Hold]. destruct (Hr eq_refl) as [-> _]. intros Hx.
    apply lookup_app_Some in Hx as [Hx|[_ Hx]]; [by apply (Hold j)|]. apply list_lookup_singleton_Some in Hx as [_ <-].
    rewrite length_app. split; [lia|]. intros _. by rewrite list_lookup_middle.
  - by destruct (l_es l).
  - apply Forall_app. split; [apply (lo_small l H)|by apply Forall_singleton].
Qed.

(** The assertion on the order of the keys holds. *)
Lemma building_order b l e : building b l -> sorted_keys (Compare cmp) (l_es l ++ [e]) ->
  BlockBuilder_empty b || is_gt (Compare cmp e.1 (last_key_ b)) = true.
Proof.
  intros [Hwf Hbuf _ _ Hlast _ _] Hs. destruct (last (l_es l)) as [g|] eqn:Eg.
  - apply orb_true_iff. right. rewrite Hlast. rewrite last_lookup in Eg.
    destruct (length (l_es l)) as [|n] eqn:En; [destruct (l_es l); done|]. cbn in Eg |- *. rewrite Eg. cbn.
    assert (Hlt : Compare cmp g.1 e.1 = Lt).
    { apply (sorted_keys_lookup _ _ n (S n) g e Hs); [by rewrite lookup_app_l by lia| |lia].
      by rewrite list_lookup_middle. }
    apply (cmp_gt_lt (Compare cmp)) in Hlt. by rewrite Hlt.
  - apply last_None in Eg. unfold BlockBuilder_empty. rewrite Hbuf. unfold l_chunks. rewrite Eg.
    by destruct (l_shared l).
Qed.

Lemma building_add b l e : 1 <= interval -> building b l -> small_entry e -> sorted_keys (Compare cmp) (l_es l ++ [e]) ->
  exists b' l', BlockBuilder_Add interval cmp e.1 e.2 b = Some b' /\ building b' l' /\ l_es l' = l_es l ++ [e].
Proof.
  intros Hint [Hwf Hbuf Hres Hfin Hlast Hcnt Hemp] He Hs. pose proof (lo_length l Hwf) as Hl.
  unfold BlockBuilder_Add. rewrite Hfin. destruct (Z.ltb_spec interval (counter_ b)); [lia|].
  pose proof (building_order b l e ltac:(by split) Hs) as Hord.
  rewrite Hord. cbn [negb]. set (restart := negb (counter_ b <? interval)).
  set (s := if counter_ b <? interval then shared_prefix (last_key_ b) e.1 else 0%nat).
  assert (Hsp : (s <= length (last_key_ b))%nat /\ (s <= length e.1)%nat /\ take s (last_key_ b) = take s e.1).
  { unfold s. destruct (counter_ b <? interval); [|split; [lia|split; [lia|done]]].
    pose proof (shared_prefix_le (last_key_ b) e.1). split; [lia|]. split; [lia|]. apply shared_prefix_take. }
  destruct Hsp as (Hs1 & Hs2 & Hs3).
  assert (Hcase : (if counter_ b <? interval then (shared_prefix (last_key_ b) e.1, restarts_ b, counter_ b)
      else (0%nat, restarts_ b ++ [u32 (zlen (buffer_ b))], 0)) =
    (s, map (fun r => u32 (l_offset (l_add l restart s e) r)) (l_rs (l_add l restart s e)),
     if restart then 0 else counter_ b)).
  { assert (Hmap : map (fun r => u32 (l_offset (l_add l restart s e) r)) (l_rs l) = restarts_ b).
    { rewrite Hres. apply map_ext_in. intros r Hr. apply list_elem_of_In, list_elem_of_lookup in Hr as [j Hj].
      rewrite l_add_offset; [done|done|]. by apply (lo_rs l Hwf j). }
    unfold restart, s in *. cbn [l_rs l_add] in *. destruct (Z.ltb_spec (counter_ b) interval); cbn [negb] in *; [by rewrite Hmap|].
    rewrite map_app, Hmap. cbn. rewrite l_add_offset by (done || lia). by rewrite Hbuf, <- limit_all. }
  rewrite Hcase. cbv beta iota zeta. rewrite Hs3, take_drop, decide_True by done.
  eexists _, (l_add l restart s e). split; [reflexivity|]. split; [|done].
  unfold small_entry, zlen in He. split; cbn [buffer_ restarts_ finished_ last_key_ counter_].
  - apply l_add_wf; try done; [| by rewrite <- Hlast..]. unfold restart, s. intros Hr.
    apply negb_true_iff, Z.ltb_ge in Hr. destruct (Z.ltb_spec (counter_ b) interval); [lia|]. split; [done|].
    intros E. rewrite (Hemp E) in Hr. lia.
  - rewrite l_add_chunks by done. rewrite concat_app. cbn [concat]. rewrite app_nil_r. unfold chunk, PutVarint32.
    unfold zlen. rewrite !u32_small by lia. by rewrite Hbuf, <- !app_assoc.
  - done.
  - done.
  - cbn [l_es l_add]. rewrite length_app, Nat.add_1_r. cbn. by rewrite list_lookup_middle.
  - unfold restart. destruct (Z.ltb_spec (counter_ b) interval); cbn [negb]; lia.
  - cbn. by destruct (l_es l).
Qed.

Lemma add_block_built es : 1 <= interval -> sorted_keys (Compare cmp) es -> Forall small_entry es ->
  exists b l, add_block es (new_BlockBuilder interval) = Some b /\ building b l /\ l_es l = es.
Proof.
  intros Hint. induction es as [|e es IH] using rev_ind; intros Hs Hsm.
  - unfold add_block, new_BlockBuilder. destruct (Z.leb_spec 1 interval); [|lia].
    eexists _, (mkLayout [] [] [0%nat]). split; [done|]. split; [|done]. split; cbn; try done; [|lia].
    split; cbn; try done. intros j r Hj. apply list_lookup_singleton_Some in Hj as [_ <-]. by split; [lia|].
  - apply Forall_app in Hsm as [Hsm He]. apply Forall_inv in He.
    destruct (IH (sorted_keys_prefix _ _ _ Hs) Hsm) as (b & l & Hb & Hbd & Hes). subst es.
    destruct (building_add b l e Hint Hbd He Hs) as (b' & l' & Hb' & Hbd' & Hes'). exists b', l'.
    split; [|done]. unfold add_block in *. rewrite fold_left_app, Hb. cbn. exact Hb'.
Qed.

Lemma building_finish b l : building b l -> zlen (BlockBuilder_Finish b).1 < 2 ^ 32 ->
  (BlockBuilder_Finish b).1 = l_data l /\ zlen (l_data l) < 2 ^ 32.
Proof.
  intros [Hwf Hbuf Hres _ _ _ _]. unfold BlockBuilder_Finish. cbn [fst].
  unfold PutFixed32 at 1 3. rewrite !fold_PutFixed32, Hbuf, Hres. rewrite !zlen_app. intros Hsz.
  pose proof (limit_all l Hwf) as Hlim. pose proof (zlen_nonneg (concat (l_chunks l))).
  assert (Harr : forall (f : nat -> Z), zlen (concat (map EncodeFixed32 (map f (l_rs l)))) = 4 * zlen (l_rs l)).
  { intros f. unfold zlen. rewrite fixed32_array_length, length_map. lia. }
  rewrite Harr in Hsz. assert (Hlen : forall z, zlen (EncodeFixed32 z) = 4) by (intros z; unfold zlen; by rewrite EncodeFixed32_length).
  rewrite Hlen in Hsz. pose proof (zlen_nonneg (l_rs l)).
  assert (E : (concat (l_chunks l) ++ concat (map EncodeFixed32 (map (fun r => u32 (l_offset l r)) (l_rs l)))) ++
    EncodeFixed32 (u32 (zlen (map (fun r => u32 (l_offset l r)) (l_rs l)))) = l_data l).
  { unfold l_data, l_restarts. rewrite <- app_assoc. f_equal. f_equal.
    - f_equal. f_equal. apply map_ext_in. intros r Hr. apply list_elem_of_In, list_elem_of_lookup in Hr as [j Hj].
      destruct (lo_rs l Hwf j r Hj) as [Hle _]. pose proof (offset_range l Hwf r Hle). rewrite u32_small; lia.
    - f_equal. unfold zlen. rewrite length_map. unfold zlen in *. rewrite u32_small; lia. }
  split; [exact E|]. unfold l_data. rewrite !zlen_app, Hlen. unfold l_restarts. rewrite Harr. lia.
Qed.

Lemma new_Block_layout l : layout_wf l -> zlen (l_data l) < 2 ^ 32 ->
  exists it, Block_NewIterator (new_Block (l_data l)) = Some (inr it) /\ bpos l it None.
Proof.
  intros Hwf Hsz. pose proof (data_length l Hwf) as Hlen. pose proof (rs_pos l Hwf). pose proof (limit_small l Hwf Hsz).
  pose proof (offset_range l Hwf (length (l_es l)) ltac:(lia)) as Hr.
  assert (Hnum : NumRestarts (l_data l) = zlen (l_rs l)).
  { unfold NumRestarts, l_data. rewrite app_assoc, length_app, EncodeFixed32_length, Nat.add_sub, drop_app_length.
    rewrite DecodeFixed32_encode. apply u32_small. lia. }
  unfold new_Block. destruct (Z.ltb_spec (zlen (l_data l)) 4); [lia|]. rewrite Hnum.
  destruct (Z.ltb_spec ((zlen (l_data l) - 4) / 4) (zlen (l_rs l))) as [Hbad|_].
  { Z.to_euclidean_division_equations. lia. }
  rewrite (u32_small (1 + _)) by lia. rewrite u32_small by lia. unfold Block_NewIterator. cbn [b_size b_data b_restart_offset].
  destruct (Z.ltb_spec (zlen (l_data l)) 4); [lia|]. rewrite Hnum. destruct (Z.eqb_spec (zlen (l_rs l)) 0); [lia|].
  unfold new_BlockIter. destruct (Z.ltb_spec 0 (zlen (l_rs l))); [|lia]. eexists. split; [done|].
  split; [split; cbn; try done; lia|]. cbn. lia.
Qed.

End Built.

(** ** Properties *)

(** C26. Entries in order, added to a block builder with any restart interval:
    every [Add] succeeds, and the iterator of the finished block is a cursor in
    exactly these entries - [SeekToFirst], [SeekToLast], [Next], [Prev] and
    the binary search of [Seek] all stop at the entry they should, with its
    key and value. *)
Theorem block_iterates_entries interval cmp `{!TotalCmp (Compare cmp)} es :
  1 <= interval -> sorted_keys (Compare cmp) es -> Forall small_entry es ->
  exists b, add_block interval cmp es (new_BlockBuilder interval) = Some b /\
    (zlen (BlockBuilder_Finish b).1 < 2 ^ 32 ->
     exists it pos, Block_NewIterator (new_Block (BlockBuilder_Finish b).1) = Some (inr it) /\
       IteratorSpec (BlockIterator cmp) (Compare cmp) es pos /\ pos it None).
Proof.
  intros Hi Hs Hsm. destruct (add_block_built interval cmp es Hi Hs Hsm) as (b & l & Hb & Hbd & <-).
  exists b. split; [done|]. intros Hsz. destruct (building_finish interval b l Hbd Hsz) as [-> Hsz'].
  destruct (new_Block_layout l (bd_wf _ _ _ Hbd) Hsz') as (it & Hit & Hp). exists it, (bpos l). split; [done|].
  split; [|done]. apply BlockIterator_spec; [apply Hbd|done|done|done].
Qed.

Definition sample_block : entries := [(lit "apple", lit "1"); (lit "apply", lit "2"); (lit "bat", lit "3")].

Lemma block_iterates_entries_witness :
  exists b, add_block 2 BytewiseComparator sample_block (new_BlockBuilder 2) = Some b /\
    (zlen (BlockBuilder_Finish b).1 < 2 ^ 32 ->
     exists it pos, Block_NewIterator (new_Block (BlockBuilder_Finish b).1) = Some (inr it) /\
       IteratorSpec (BlockIterator BytewiseComparator) (Compare BytewiseComparator) sample_block pos /\ pos it None).
Proof.
  apply (block_iterates_entries 2 BytewiseComparator sample_block).
  - lia.
  - repeat (apply SSorted_cons; [|repeat (apply Forall_cons; split; [vm_compute; reflexivity|]); apply Forall_nil_2]). constructor.
  - repeat (apply Forall_cons; split; [vm_compute; reflexivity|]). apply Forall_nil_2.
Defined.

(** ** Blocks that were not built here *)

Lemma GetVarint32Ptr_bounds p v q : GetVarint32Ptr p = Some (v, q) -> zlen q <= zlen p /\ 0 <= v.
Proof.
  rewrite GetVarint32Ptr_fallback. unfold GetVarint32PtrFallback. intros H.
  apply GetVarint_loop_suffix in H as [(pre & -> & _) Hv]; [|lia|unfold fits; lia].
  rewrite zlen_app. pose proof (zlen_nonneg pre). unfold fits in Hv. lia.
Qed.

Lemma DecodeEntry_bounds p sh ns vl q : DecodeEntry p = Some (sh, ns, vl, q) ->
  zlen q <= zlen p /\ 0 <= ns /\ 0 <= vl /\ u32 (ns + vl) <= u32 (zlen q).
Proof.
  rewrite DecodeEntry_slow. destruct (zlen p <? 3); [done|]. unfold decode_three.
  destruct (GetVarint32Ptr p) as [[a p1]|] eqn:E1; [|done]. cbn [mbind option_bind fst snd].
  destruct (GetVarint32Ptr p1) as [[b p2]|] eqn:E2; [|done]. cbn [mbind option_bind fst snd].
  destruct (GetVarint32Ptr p2) as [[c p3]|] eqn:E3; [|done]. cbn [mbind option_bind fst snd].
  apply GetVarint32Ptr_bounds in E1, E2, E3. destruct (Z.ltb_spec (u32 (zlen p3)) (u32 (b + c))); [done|].
  intros [= <- <- <- <-]. lia.
Qed.

(** The sum of the two lengths of an entry is computed in 32 bits: an entry
    that claims a key of 2^32 - 1 bytes passes the check with no byte left. *)
Lemma DecodeEntry_overflow :
  DecodeEntry (x00 :: EncodeVarint32 (2 ^ 32 - 1) ++ EncodeVarint32 1) = Some (0, 2 ^ 32 - 1, 1, []).
Proof. vm_compute. reflexivity. Qed.

(** The restart array lies inside the block. *)
Definition in_block (it : BlockIter) : Prop :=
  0 <= bi_restarts it < 2 ^ 32 /\ 0 <= bi_num_restarts it /\ bi_restarts it + 4 * bi_num_restarts it <= zlen (bi_data it).

Lemma GetRestartPoint_reads it index : in_block it -> 0 <= index < bi_num_restarts it ->
  exists r, GetRestartPoint it index = Some r.
Proof.
  intros (Hr & Hn & Hsz) Hi. unfold GetRestartPoint, read_at. destruct (Z.ltb_spec index (bi_num_restarts it)); [|lia].
  destruct (Z.leb_spec 0 (bi_restarts it + index * 4)); [|lia].
  destruct (Z.leb_spec (bi_restarts it + index * 4 + 4) (zlen (bi_data it))); [|lia]. by eexists.
Qed.

Lemma advance_restart_reads it current : in_block it -> forall fuel index, 0 <= index ->
  bi_num_restarts it - index < Z.of_nat (S fuel) -> exists index', advance_restart (S fuel) it current index = Some index'.
Proof.
  intros Hin. induction fuel as [|fuel IH]; intros index Hi Hf; cbn [advance_restart];
    (destruct (Z.ltb_spec (index + 1) (bi_num_restarts it)); [|by exists index]); [lia|].
  destruct (GetRestartPoint_reads it (index + 1) Hin ltac:(lia)) as [r ->]. cbn [mbind option_bind].
  destruct (r <? current); [|by exists index]. apply IH; lia.
Qed.

Lemma in_block_parse it current : in_block it -> 0 <= bi_restart_index it -> NextEntryOffset it = Some current ->
  match ParseNextKey it with
  | Some (_, it') => in_block it'
  | None => exists sh ns vl q,
      DecodeEntry (between (bi_data it) current (bi_restarts it)) = Some (sh, ns, vl, q) /\ 2 ^ 32 <= ns + vl
  end.
Proof.
  intros Hin Hri Hn. unfold ParseNextKey. rewrite Hn. cbn [mbind option_bind].
  destruct (Z.leb_spec (bi_restarts it) current); [exact Hin|].
  destruct (DecodeEntry _) as [[[[sh ns] vl] q]|] eqn:Ed; [|exact Hin].
  destruct (zlen (bi_key it) <? sh); [exact Hin|]. pose proof Hin as (Hr & Hnum & Hsz).
  assert (Hc : 0 <= current).
  { unfold NextEntryOffset in Hn. destruct (bi_value it); [|done]. injection Hn as <-. unfold u32. apply Z.mod_pos_bound. lia. }
  pose proof (DecodeEntry_bounds _ _ _ _ _ Ed) as (Hq & Hns & Hvl & Hchk).
  assert (Hbt : zlen (between (bi_data it) current (bi_restarts it)) <= bi_restarts it - current).
  { unfold between, zlen. rewrite length_take. lia. }
  pose proof (zlen_nonneg q). destruct (Z_lt_le_dec (ns + vl) (2 ^ 32)) as [Hok|Hbad].
  - rewrite !u32_small in Hchk by lia. unfold read_at.
    destruct (Z.leb_spec 0 (bi_restarts it - zlen q)); [|lia].
    destruct (Z.leb_spec (bi_restarts it - zlen q + ns) (zlen (bi_data it))); [|lia]. cbn [andb mbind option_bind].
    destruct (advance_restart_reads it current Hin (Z.to_nat (bi_num_restarts it)) (bi_restart_index it) Hri) as [x ->]; [lia|].
    exact Hin.
  - destruct (read_at _ _ _); cbn [mbind option_bind]; [|by exists sh, ns, vl, q].
    destruct (advance_restart_reads it current Hin (Z.to_nat (bi_num_restarts it)) (bi_restart_index it) Hri) as [x ->]; [lia|].
    exact Hin.
Qed.

(** On arbitrary contents [NewIterator] either reports the corruption or
    returns an iterator whose restart array lies in the block, and from any
    position [ParseNextKey] stays inside the block unless the two lengths of an
    entry overflow 32 bits. *)
Theorem block_parse_stays_inside contents : zlen contents < 2 ^ 32 ->
  (exists s, Block_NewIterator (new_Block contents) = Some (inl s)) \/
  (exists it, Block_NewIterator (new_Block contents) = Some (inr it) /\ in_block it /\
     forall current index key value s, 0 <= index ->
       let it' := mkBlockIter (bi_data it) (bi_restarts it) (bi_num_restarts it) current index key (Some value) s in
       match ParseNextKey it' with
       | Some (_, it2) => in_block it2
       | None => exists sh ns vl q, DecodeEntry (between contents (u32 (value.1 + value.2)) (bi_restarts it))
           = Some (sh, ns, vl, q) /\ 2 ^ 32 <= ns + vl
       end).
Proof.
  intros Hsz. unfold new_Block, Block_NewIterator.
  destruct (Z.ltb_spec (zlen contents) 4); [left; by eexists|].
  destruct (Z.ltb_spec ((zlen contents - 4) / 4) (NumRestarts contents)); [left; by eexists|].
  cbn [b_size b_data b_restart_offset]. destruct (Z.ltb_spec (zlen contents) 4); [lia|].
  destruct (Z.eqb_spec (NumRestarts contents) 0); [left; by eexists|]. right.
  pose proof (DecodeFixed32_range (drop (length contents - 4) contents)) as [Hn _]. fold (NumRestarts contents) in Hn.
  assert (Hmax : 4 * NumRestarts contents + 4 <= zlen contents) by (Z.to_euclidean_division_equations; lia).
  rewrite (u32_small (1 + _)) by lia. rewrite u32_small by lia.
  unfold new_BlockIter. destruct (Z.ltb_spec 0 (NumRestarts contents)); [|lia]. cbn [mbind option_bind].
  eexists. split; [done|]. assert (Hin : forall c x k v s, in_block (mkBlockIter contents (zlen contents - (1 + NumRestarts contents) * 4)
    (NumRestarts contents) c x k v s)) by (intros; unfold in_block; cbn [bi_data bi_restarts bi_num_restarts]; lia).
  split; [apply Hin|].
  intros current index key value s Hi.
  by apply (in_block_parse (mkBlockIter _ _ _ current index key (Some value) s) (u32 (value.1 + value.2))); [apply Hin|..].
Qed.

Lemma block_parse_stays_inside_witness :
  (exists s, Block_NewIterator (new_Block (replicate 8 x00)) = Some (inl s)) \/
  (exists it, Block_NewIterator (new_Block (replicate 8 x00)) = Some (inr it) /\ in_block it).
Proof.
  destruct (block_parse_stays_inside (replicate 8 x00)) as [H|(it & H1 & H2 & _)].
  - reflexivity.
  - left. exact H.
  - right. exists it. split; [exact H1|exact H2].
Defined.
