(* ===== verification/Format.v ===== *)
(** * Table files: table/format.h, table/format.cpp

    Block handles, the footer, and reading a block with its trailer. The
    snappy library is a parameter. [None] stands for a failed assertion or a
    read outside a buffer. *)

From S2P Require Import Prelude Coding Status Crc32c Env.

(** ** Block handles *)

Record BlockHandle := mkHandle { h_offset : Z; h_size : Z }.

Definition new_BlockHandle : BlockHandle := mkHandle (2 ^ 64 - 1) (2 ^ 64 - 1).

Definition kMaxEncodedLength : Z := 10 + 10.

Definition BlockHandle_EncodeTo (h : BlockHandle) (dst : bytes) : option bytes :=
  if (h_offset h =? 2 ^ 64 - 1) || (h_size h =? 2 ^ 64 - 1) then None
  else Some (PutVarint64 (PutVarint64 dst (h_offset h)) (h_size h)).

(** The handle may be half read when the status is not OK. *)
Definition BlockHandle_DecodeFrom (input : bytes) (h : BlockHandle) : Status * BlockHandle * bytes :=
  match GetVarint64 input with
  | None => (Corruption (lit "bad block handle"), h, input)
  | Some (offset, input) =>
      match GetVarint64 input with
      | None => (Corruption (lit "bad block handle"), mkHandle offset (h_size h), input)
      | Some (size, input) => (Status_OK, mkHandle offset size, input)
      end
  end.

(** ** The footer *)

Record Footer := mkFooter { f_metaindex : BlockHandle; f_index : BlockHandle }.

Definition kEncodedLength : Z := 2 * kMaxEncodedLength + 8.
Definition kTableMagicNumber : Z := 0xdb4775248b80fb57.
Definition kBlockTrailerSize : Z := 5.

(** [std::string::resize] *)
Definition resize (n : Z) (s : bytes) : bytes :=
  take (Z.to_nat n) s ++ replicate (Z.to_nat n - length s) x00.

Definition Footer_EncodeTo (f : Footer) (dst : bytes) : option bytes :=
  let original_size := zlen dst in
  dst ← BlockHandle_EncodeTo (f_metaindex f) dst;
  dst ← BlockHandle_EncodeTo (f_index f) dst;
  let dst := resize (2 * kMaxEncodedLength) dst in
  let dst := PutFixed32 dst (Z.land kTableMagicNumber 0xffffffff) in
  let dst := PutFixed32 dst (Z.shiftr kTableMagicNumber 32) in
  if zlen dst =? original_size + kEncodedLength then Some dst else None.

Definition Footer_DecodeFrom (input : bytes) : option (Status * Footer * bytes) :=
  if zlen input <? kEncodedLength then None
  else
    let magic_ptr := drop (Z.to_nat (kEncodedLength - 8)) input in
    let magic_lo := DecodeFixed32 magic_ptr in
    let magic_hi := DecodeFixed32 (drop 4 magic_ptr) in
    let magic := Z.lor (Z.shiftl magic_hi 32) magic_lo in
    let fresh := mkFooter new_BlockHandle new_BlockHandle in
    if negb (magic =? kTableMagicNumber)
    then Some (Corruption (lit "not an sstable (bad magic number)"), fresh, input)
    else
      let '(s, m, rest) := BlockHandle_DecodeFrom input new_BlockHandle in
      if negb (ok s) then Some (s, mkFooter m new_BlockHandle, rest)
      else
        let '(s, i, rest) := BlockHandle_DecodeFrom rest new_BlockHandle in
        Some (s, mkFooter m i, if ok s then drop (Z.to_nat kEncodedLength) input else rest).

(** ** Files and compression *)

(** [Read(flag, offset, n, &result, scratch)]: the status, the data, and
    whether the data is in [scratch]. *)
Record RandomAccessFile := { rf_Read : Z -> Z -> Z -> Status * bytes * bool }.

Inductive CompressionType := kNoCompression | kSnappyCompression.

Definition compression_byte (t : CompressionType) : Z :=
  match t with kNoCompression => 0 | kSnappyCompression => 1 end.

(** The snappy functions of port.h; they fail when snappy is not there. *)
Record Snappy := {
  Snappy_Compress : bytes -> option bytes;
  Snappy_GetUncompressedLength : bytes -> option Z;
  Snappy_Uncompress : bytes -> option bytes
}.

Class SnappyLaws (snappy : Snappy) : Prop := {
  snappy_roundtrip : forall x c, Snappy_Compress snappy x = Some c ->
    Snappy_GetUncompressedLength snappy c = Some (zlen x) /\ Snappy_Uncompress snappy c = Some x
}.

(** Without the library, as port_posix.h has it. *)
Definition NoSnappy : Snappy := {|
  Snappy_Compress := fun _ => None;
  Snappy_GetUncompressedLength := fun _ => None;
  Snappy_Uncompress := fun _ => None |}.

#[global] Instance NoSnappy_laws : SnappyLaws NoSnappy.
Proof. by split. Qed.

(** ** Reading a block *)

Record BlockContents := mkContents { c_data : bytes; c_cachable : bool; c_heap_allocated : bool }.

Definition no_contents : BlockContents := mkContents [] false false.

Definition ReadBlock (snappy : Snappy) (file : RandomAccessFile) (verify_checksums : bool) (handle : BlockHandle) :
    option (Status * BlockContents) :=
  let n := h_size handle in
  let total := u64 (n + kBlockTrailerSize) in
  let '(s, data, in_scratch) := rf_Read file 0 (h_offset handle) total in
  if negb (ok s) then Some (s, no_contents)
  else if negb (zlen data =? total) then Some (Corruption (lit "truncated block read"), no_contents)
  else if zlen data <? n + kBlockTrailerSize then None
  else
    let crc := Unmask (DecodeFixed32 (drop (Z.to_nat (n + 1)) data)) in
    let actual := Value (take (Z.to_nat (n + 1)) data) in
    if verify_checksums && negb (actual =? crc) then Some (Corruption (lit "block checksum mismatch"), no_contents)
    else
      let type := uc data (Z.to_nat n) in
      let raw := take (Z.to_nat n) data in
      if type =? compression_byte kNoCompression then
        Some (Status_OK, if in_scratch then mkContents raw true true else mkContents raw false false)
      else if type =? compression_byte kSnappyCompression then
        match Snappy_GetUncompressedLength snappy raw with
        | None => Some (Corruption (lit "corrupted compressed block contents"), no_contents)
        | Some _ =>
            match Snappy_Uncompress snappy raw with
            | None => Some (Corruption (lit "corrupted compressed block contents"), no_contents)
            | Some data => Some (Status_OK, mkContents data true true)
            end
        end
      else Some (Corruption (lit "bad block type"), no_contents).

(** A file in memory: a read past the end returns what is there. *)
Definition MemRandomAccess (contents : bytes) : RandomAccessFile := {|
  rf_Read := fun _ offset n => (Status_OK, take (Z.to_nat n) (drop (Z.to_nat offset) contents), true) |}.

(** ** Round trips *)

Definition handle_ok (h : BlockHandle) : Prop := 0 <= h_offset h < 2 ^ 64 - 1 /\ 0 <= h_size h < 2 ^ 64 - 1.

(** The encoding of a handle. *)
Definition handle_bytes (h : BlockHandle) : bytes := EncodeVarint64 (h_offset h) ++ EncodeVarint64 (h_size h).

Lemma BlockHandle_EncodeTo_ok h dst : handle_ok h -> BlockHandle_EncodeTo h dst = Some (dst ++ handle_bytes h).
Proof.
  intros [Ho Hs]. unfold BlockHandle_EncodeTo. destruct (Z.eqb_spec (h_offset h) (2 ^ 64 - 1)); [lia|].
  destruct (Z.eqb_spec (h_size h) (2 ^ 64 - 1)); [lia|]. cbn [orb]. unfold PutVarint64, handle_bytes. by rewrite app_assoc.
Qed.

Lemma BlockHandle_decode h h0 rest : handle_ok h ->
  BlockHandle_DecodeFrom (handle_bytes h ++ rest) h0 = (Status_OK, h, rest).
Proof.
  intros [Ho Hs]. unfold BlockHandle_DecodeFrom, handle_bytes. rewrite <- app_assoc.
  rewrite GetVarint64_app by (split; lia). rewrite GetVarint64_app by (split; lia). by destruct h.
Qed.

Lemma varint64_length v : fits 64 v -> zlen (EncodeVarint64 v) <= 10.
Proof.
  intros Hv. assert (H : forall n v, (length (EncodeVarint64_loop n v) <= n)%nat).
  { clear. induction n as [|n IH]; intros v; cbn; [lia|]. destruct (128 <=? v); cbn; [|lia]. specialize (IH (Z.shiftr v 7)). lia. }
  unfold EncodeVarint64, zlen. specialize (H 10%nat v). lia.
Qed.

Lemma handle_bytes_length h : handle_ok h -> zlen (handle_bytes h) <= 20.
Proof.
  intros [Ho Hs]. unfold handle_bytes. rewrite zlen_app.
  pose proof (varint64_length (h_offset h) ltac:(split; lia)). pose proof (varint64_length (h_size h) ltac:(split; lia)). lia.
Qed.

(** The footer is always 48 bytes and is read back. *)
Lemma Footer_roundtrip f : handle_ok (f_metaindex f) -> handle_ok (f_index f) ->
  exists enc, Footer_EncodeTo f [] = Some enc /\ zlen enc = kEncodedLength /\
    forall rest, Footer_DecodeFrom (enc ++ rest) = Some (Status_OK, f, rest).
Proof.
  intros Hm Hi. pose proof (handle_bytes_length _ Hm). pose proof (handle_bytes_length _ Hi).
  unfold Footer_EncodeTo. rewrite BlockHandle_EncodeTo_ok by done. cbn [mbind option_bind].
  rewrite BlockHandle_EncodeTo_ok by done. cbn [mbind option_bind]. rewrite app_nil_l.
  set (hs := handle_bytes (f_metaindex f) ++ handle_bytes (f_index f)).
  assert (Hhs : zlen hs <= 40) by (unfold hs; rewrite zlen_app; lia).
  unfold resize. change (Z.to_nat (2 * kMaxEncodedLength)) with 40%nat. rewrite take_ge by (unfold zlen in Hhs; lia).
  set (pad := replicate (40 - length hs) x00). unfold PutFixed32.
  assert (Hlen : zlen (hs ++ pad) = 40) by (rewrite zlen_app; unfold zlen, pad in *; rewrite length_replicate; lia).
  assert (H4 : forall z, zlen (EncodeFixed32 z) = 4) by (intros z; unfold zlen; by rewrite EncodeFixed32_length).
  set (lo := EncodeFixed32 _). set (hi := EncodeFixed32 (Z.shiftr _ _)).
  rewrite !zlen_app, <- zlen_app, Hlen. unfold lo at 1, hi at 1. rewrite !H4. change (zlen []) with 0. cbn [Z.add Z.eqb].
  change (40 + 4 + 4 =? 0 + kEncodedLength) with true. eexists. split; [reflexivity|].
  split; [rewrite !zlen_app, <- zlen_app, Hlen; unfold lo, hi; by rewrite !H4|]. intros rest.
  unfold Footer_DecodeFrom. rewrite <- !app_assoc, (app_assoc hs pad).
  destruct (Z.ltb_spec (zlen ((hs ++ pad) ++ lo ++ hi ++ rest)) kEncodedLength) as [Hbad|_].
  { rewrite !(zlen_app _ (lo ++ _)), !zlen_app in Hbad. rewrite <- zlen_app, Hlen in Hbad. unfold lo, hi in Hbad.
    rewrite !H4 in Hbad. pose proof (zlen_nonneg rest). unfold kEncodedLength, kMaxEncodedLength in Hbad. lia. }
  assert (Hd : drop (Z.to_nat (kEncodedLength - 8)) ((hs ++ pad) ++ lo ++ hi ++ rest) = lo ++ hi ++ rest).
  { apply drop_app_length'. unfold zlen in Hlen. change (Z.to_nat (kEncodedLength - 8)) with 40%nat. lia. }
  rewrite Hd. unfold lo, hi. rewrite DecodeFixed32_app, (drop_app_length' (EncodeFixed32 _)) by (by rewrite EncodeFixed32_length).
  rewrite DecodeFixed32_app. match goal with |- context [negb ?b] => change b with true end. cbn [negb]. fold lo hi. unfold hs.
  rewrite <- !app_assoc, BlockHandle_decode by done. cbn [ok Status_OK negb]. rewrite BlockHandle_decode by done.
  cbn [ok Status_OK]. destruct f; cbn [f_metaindex f_index]. do 2 f_equal.
  rewrite !app_assoc. apply drop_app_length'. rewrite !length_app. unfold zlen in Hlen. rewrite length_app in Hlen.
  unfold hs in Hlen. rewrite length_app in Hlen. unfold lo, hi. rewrite !EncodeFixed32_length.
  change (Z.to_nat kEncodedLength) with 48%nat. cbn [f_metaindex f_index] in *. lia.
Qed.
