(* ===== verification/TableBuilder.v ===== *)
(** * Writing a table: table/table_builder.cpp

    The builder cuts the entries into data blocks, writes each with its type
    and checksum, keeps a separator key and the handle of every block for the
    index block, and ends the file with the filter, the metaindex, the index
    and the footer. *)

From S2P Require Import Prelude Coding Status Comparator Crc32c Filter FilterBlock Env Iterator Block Format.

(** ** Options and state *)

Record TableOptions := mkTableOptions {
  o_comparator : Comparator;
  o_block_size : Z;
  o_block_restart_interval : Z;
  o_compression : CompressionType;
  o_filter_policy : option FilterPolicy
}.

(** [TableBuilder::Rep]; [t_file] is the file written so far. *)
Record TableRep (W : Type) := mkTableRep {
  t_options : TableOptions;
  t_file : W;
  t_offset : Z;
  t_status : Status;
  t_data_block : BlockBuilder;
  t_index_block : BlockBuilder;
  t_last_key : bytes;
  t_num_entries : Z;
  t_closed : bool;
  t_filter_block : option (FilterPolicy * FilterBlockBuilder);
  t_pending_index_entry : bool;
  t_pending_handle : BlockHandle
}.
Arguments mkTableRep {W}.
Arguments t_options {W}.
Arguments t_file {W}.
Arguments t_offset {W}.
Arguments t_status {W}.
Arguments t_data_block {W}.
Arguments t_index_block {W}.
Arguments t_last_key {W}.
Arguments t_num_entries {W}.
Arguments t_closed {W}.
Arguments t_filter_block {W}.
Arguments t_pending_index_entry {W}.
Arguments t_pending_handle {W}.

Section TableBuilder.
Context {W : Type} (file : WritableFile W) (snappy : Snappy).

Definition t_ok (r : TableRep W) : bool := ok (t_status r).

Definition new_TableBuilder (options : TableOptions) (f : W) : option (TableRep W) :=
  data_block ← new_BlockBuilder (o_block_restart_interval options);
  index_block ← new_BlockBuilder 1;
  let filter := (fun p => (p, StartBlock p 0 new_FilterBlockBuilder)) <$> o_filter_policy options in
  Some (mkTableRep options f 0 Status_OK data_block index_block [] 0 false filter false new_BlockHandle).

(** The comparator must stay the same object. *)
Definition ChangeOptions (options : TableOptions) (same_comparator : bool) (r : TableRep W) : Status * TableRep W :=
  if negb same_comparator then (InvalidArgument (lit "changing comparator while building table") [], r)
  else (Status_OK, mkTableRep options (t_file r) (t_offset r) (t_status r) (t_data_block r) (t_index_block r) (t_last_key r)
          (t_num_entries r) (t_closed r) (t_filter_block r) (t_pending_index_entry r) (t_pending_handle r)).

(** ** Field updates *)

Definition set_written (f : W) (offset : Z) (s : Status) (r : TableRep W) : TableRep W :=
  mkTableRep (t_options r) f offset s (t_data_block r) (t_index_block r) (t_last_key r) (t_num_entries r) (t_closed r)
    (t_filter_block r) (t_pending_index_entry r) (t_pending_handle r).

Definition set_data_block (b : BlockBuilder) (r : TableRep W) : TableRep W :=
  mkTableRep (t_options r) (t_file r) (t_offset r) (t_status r) b (t_index_block r) (t_last_key r) (t_num_entries r) (t_closed r)
    (t_filter_block r) (t_pending_index_entry r) (t_pending_handle r).

Definition set_index (b : BlockBuilder) (last_key : bytes) (pending : bool) (r : TableRep W) : TableRep W :=
  mkTableRep (t_options r) (t_file r) (t_offset r) (t_status r) (t_data_block r) b last_key (t_num_entries r) (t_closed r)
    (t_filter_block r) pending (t_pending_handle r).

Definition set_pending (pending : bool) (h : BlockHandle) (r : TableRep W) : TableRep W :=
  mkTableRep (t_options r) (t_file r) (t_offset r) (t_status r) (t_data_block r) (t_index_block r) (t_last_key r)
    (t_num_entries r) (t_closed r) (t_filter_block r) pending h.

Definition set_filter (f : option (FilterPolicy * FilterBlockBuilder)) (r : TableRep W) : TableRep W :=
  mkTableRep (t_options r) (t_file r) (t_offset r) (t_status r) (t_data_block r) (t_index_block r) (t_last_key r)
    (t_num_entries r) (t_closed r) f (t_pending_index_entry r) (t_pending_handle r).

Definition set_entry (key : bytes) (b : BlockBuilder) (r : TableRep W) : TableRep W :=
  mkTableRep (t_options r) (t_file r) (t_offset r) (t_status r) b (t_index_block r) key (t_num_entries r + 1) (t_closed r)
    (t_filter_block r) (t_pending_index_entry r) (t_pending_handle r).

Definition set_closed (r : TableRep W) : TableRep W :=
  mkTableRep (t_options r) (t_file r) (t_offset r) (t_status r) (t_data_block r) (t_index_block r) (t_last_key r)
    (t_num_entries r) true (t_filter_block r) (t_pending_index_entry r) (t_pending_handle r).

(** ** Blocks *)

Definition block_trailer (type : CompressionType) (contents : bytes) : bytes :=
  let trailer := [z2b (compression_byte type)] in
  trailer ++ EncodeFixed32 (Mask (Extend (Value contents) trailer)).

Definition WriteRawBlock (contents : bytes) (type : CompressionType) (r : TableRep W) : BlockHandle * TableRep W :=
  let handle := mkHandle (t_offset r) (zlen contents) in
  let '(s, f) := wf_Append file contents (t_file r) in
  if ok s then
    let '(s, f) := wf_Append file (block_trailer type contents) f in
    (handle, set_written f (if ok s then u64 (t_offset r + (zlen contents + kBlockTrailerSize)) else t_offset r) s r)
  else (handle, set_written f (t_offset r) s r).

(** The contents and type a block is stored with. *)
Definition compress (type : CompressionType) (raw : bytes) : bytes * CompressionType :=
  match type with
  | kNoCompression => (raw, kNoCompression)
  | kSnappyCompression =>
      match Snappy_Compress snappy raw with
      | Some c => if zlen c <? zlen raw - zlen raw / 8 then (c, kSnappyCompression) else (raw, kNoCompression)
      | None => (raw, kNoCompression)
      end
  end.

Definition WriteBlock (block : BlockBuilder) (r : TableRep W) : option (BlockHandle * BlockBuilder * TableRep W) :=
  if t_ok r then
    let '(raw, block) := BlockBuilder_Finish block in
    let '(contents, type) := compress (o_compression (t_options r)) raw in
    let '(handle, r) := WriteRawBlock contents type r in
    Some (handle, BlockBuilder_Reset block, r)
  else None.

Definition TableBuilder_Flush (r : TableRep W) : option (TableRep W) :=
  if t_closed r then None
  else if negb (t_ok r) then Some r
  else if BlockBuilder_empty (t_data_block r) then Some r
  else if t_pending_index_entry r then None
  else
    w ← WriteBlock (t_data_block r) r;
    let '(handle, block, r) := w in
    let r := set_pending (t_pending_index_entry r) handle (set_data_block block r) in
    let r :=
      if t_ok r then
        let r := set_pending true (t_pending_handle r) r in
        let '(s, f) := wf_Flush file (t_file r) in
        set_written f (t_offset r) s r
      else r in
    Some (set_filter ((fun fb => (fb.1, StartBlock fb.1 (t_offset r) fb.2)) <$> t_filter_block r) r).

(** Add the pending entry to the index block, under the key [k]. *)
Definition add_index_entry (k : bytes) (r : TableRep W) : option (TableRep W) :=
  handle_encoding ← BlockHandle_EncodeTo (t_pending_handle r) [];
  index_block ← BlockBuilder_Add 1 (o_comparator (t_options r)) k handle_encoding (t_index_block r);
  Some (set_index index_block k false r).

Definition TableBuilder_Add (key value : bytes) (r : TableRep W) : option (TableRep W) :=
  if t_closed r then None
  else if negb (t_ok r) then Some r
  else if (0 <? t_num_entries r) && negb (is_gt (Compare (o_comparator (t_options r)) key (t_last_key r))) then None
  else
    r ← (if t_pending_index_entry r then
           if BlockBuilder_empty (t_data_block r)
           then add_index_entry (FindShortestSeparator (o_comparator (t_options r)) (t_last_key r) key) r
           else None
         else Some r);
    let r := set_filter ((fun fb => (fb.1, AddKey key fb.2)) <$> t_filter_block r) r in
    data_block ← BlockBuilder_Add (o_block_restart_interval (t_options r)) (o_comparator (t_options r)) key value (t_data_block r);
    let r := set_entry key data_block r in
    if o_block_size (t_options r) <=? CurrentSizeEstimate (t_data_block r) then TableBuilder_Flush r else Some r.

(** ** The end of the file *)

Definition filter_key (p : FilterPolicy) : bytes := lit "filter." ++ fp_Name p.

(** The filter block and the entry of the metaindex block for it. *)
Definition write_filter (r : TableRep W) : BlockHandle * TableRep W :=
  match t_ok r, t_filter_block r with
  | true, Some (p, fb) => WriteRawBlock (FilterBlock_Finish p fb) kNoCompression r
  | _, _ => (new_BlockHandle, r)
  end.

Definition write_metaindex (filter_handle : BlockHandle) (r : TableRep W) : option (BlockHandle * TableRep W) :=
  if t_ok r then
    block ← new_BlockBuilder (o_block_restart_interval (t_options r));
    block ← match t_filter_block r with
            | Some (p, _) =>
                handle_encoding ← BlockHandle_EncodeTo filter_handle [];
                BlockBuilder_Add (o_block_restart_interval (t_options r)) (o_comparator (t_options r)) (filter_key p)
                  handle_encoding block
            | None => Some block
            end;
    w ← WriteBlock block r;
    Some (w.1.1, w.2)
  else Some (new_BlockHandle, r).

Definition write_index (r : TableRep W) : option (BlockHandle * TableRep W) :=
  if t_ok r then
    r ← (if t_pending_index_entry r
         then add_index_entry (FindShortSuccessor (o_comparator (t_options r)) (t_last_key r)) r
         else Some r);
    w ← WriteBlock (t_index_block r) r;
    let '(handle, block, r) := w in
    Some (handle, set_index block (t_last_key r) (t_pending_index_entry r) r)
  else Some (new_BlockHandle, r).

Definition write_footer (metaindex index : BlockHandle) (r : TableRep W) : option (TableRep W) :=
  if t_ok r then
    footer_encoding ← Footer_EncodeTo (mkFooter metaindex index) [];
    let '(s, f) := wf_Append file footer_encoding (t_file r) in
    Some (set_written f (if ok s then u64 (t_offset r + zlen footer_encoding) else t_offset r) s r)
  else Some r.

Definition TableBuilder_Finish (r : TableRep W) : option (Status * TableRep W) :=
  r ← TableBuilder_Flush r;
  if t_closed r then None
  else
    let r := set_closed r in
    let '(filter_handle, r) := write_filter r in
    m ← write_metaindex filter_handle r;
    i ← write_index m.2;
    r ← write_footer m.1 i.1 i.2;
    Some (t_status r, r).

Definition Abandon (r : TableRep W) : option (TableRep W) := if t_closed r then None else Some (set_closed r).
Definition NumEntries (r : TableRep W) : Z := t_num_entries r.
Definition FileSize (r : TableRep W) : Z := t_offset r.

End TableBuilder.

(** ** What a table file holds *)

(** The file [F] has, at [h], a block that reads back as [raw], with or without
    checking the checksum, and whatever follows in the file. *)
Definition stores (snappy : Snappy) (F : bytes) (h : BlockHandle) (raw : bytes) : Prop :=
  handle_ok h /\ forall more verify,
    ReadBlock snappy (MemRandomAccess (F ++ more)) verify h = Some (Status_OK, mkContents raw true true).

Lemma stores_more snappy F h raw more : stores snappy F h raw -> stores snappy (F ++ more) h raw.
Proof. intros [Hh H]. split; [done|]. intros more' verify. rewrite <- app_assoc. apply H. Qed.

Lemma block_trailer_length type c : zlen (block_trailer type c) = 5.
Proof. unfold block_trailer, zlen. by rewrite length_app, EncodeFixed32_length. Qed.

(** Reading back what [WriteRawBlock] appends. *)
Lemma ReadBlock_written snappy pre contents type post verify : zlen contents < 2 ^ 63 ->
  ReadBlock snappy (MemRandomAccess (pre ++ contents ++ block_trailer type contents ++ post)) verify
    (mkHandle (zlen pre) (zlen contents))
  = match type with
    | kNoCompression => Some (Status_OK, mkContents contents true true)
    | kSnappyCompression =>
        match Snappy_GetUncompressedLength snappy contents, Snappy_Uncompress snappy contents with
        | Some _, Some data => Some (Status_OK, mkContents data true true)
        | _, _ => Some (Corruption (lit "corrupted compressed block contents"), no_contents)
        end
    end.
Proof.
  intros Hsz. pose proof (zlen_nonneg contents) as Hn. pose proof (block_trailer_length type contents) as Ht.
  unfold ReadBlock. cbn [h_size h_offset rf_Read MemRandomAccess ok Status_OK negb].
  unfold kBlockTrailerSize. rewrite u64_small by lia. rewrite to_nat_zlen, drop_app_length.
  set (data := contents ++ block_trailer type contents).
  assert (Hdata : take (Z.to_nat (zlen contents + 5)) (contents ++ block_trailer type contents ++ post) = data).
  { rewrite app_assoc. apply take_app_length'. unfold data. rewrite length_app. unfold zlen in *. lia. }
  rewrite Hdata. assert (Hdl : zlen data = zlen contents + 5) by (unfold data; rewrite zlen_app; lia).
  rewrite Hdl, Z.eqb_refl. cbn [negb]. destruct (Z.ltb_spec (zlen contents + 5) (zlen contents + 5)); [lia|].
  set (tb := [z2b (compression_byte type)]). set (crc := Extend (Value contents) tb).
  assert (Hcrc : fits 32 crc) by (apply Extend_fits, Value_fits).
  assert (Htake : take (Z.to_nat (zlen contents + 1)) data = contents ++ tb).
  { unfold data, block_trailer. rewrite app_assoc. apply take_app_length'. rewrite length_app. unfold zlen. cbn. lia. }
  assert (Hdrop : drop (Z.to_nat (zlen contents + 1)) data = EncodeFixed32 (Mask crc)).
  { unfold data, block_trailer. rewrite app_assoc. apply drop_app_length'. rewrite length_app. unfold zlen. cbn. lia. }
  rewrite Htake, Hdrop, DecodeFixed32_encode, u32_small by apply Mask_fits. rewrite Unmask_Mask by done.
  unfold crc. rewrite Value_app, Z.eqb_refl. rewrite andb_false_r.
  assert (Huc : uc data (Z.to_nat (zlen contents)) = compression_byte type).
  { unfold data, uc. rewrite to_nat_zlen, app_nth2 by lia. rewrite Nat.sub_diag. cbn. rewrite b2z_small; [done|].
    destruct type; cbn; lia. }
  assert (Hraw : take (Z.to_nat (zlen contents)) data = contents) by (unfold data; by rewrite to_nat_zlen, take_app_length).
  rewrite Huc, Hraw. destruct type; cbn [compression_byte Z.eqb]; [done|].
  destruct (Snappy_GetUncompressedLength snappy contents); [|done]. by destruct (Snappy_Uncompress snappy contents).
Qed.

Lemma stores_written snappy `{!SnappyLaws snappy} F raw t : zlen raw < 2 ^ 62 -> zlen F < 2 ^ 63 ->
  let '(contents, type) := compress snappy t raw in
  stores snappy (F ++ contents ++ block_trailer type contents) (mkHandle (zlen F) (zlen contents)) raw /\
  zlen contents <= zlen raw.
Proof.
  intros Hr HF. unfold compress. pose proof (zlen_nonneg F). pose proof (zlen_nonneg raw).
  assert (Hno : stores snappy (F ++ raw ++ block_trailer kNoCompression raw) (mkHandle (zlen F) (zlen raw)) raw /\ zlen raw <= zlen raw).
  { split; [|lia]. split; [split; cbn; lia|]. intros more verify. rewrite <- !app_assoc.
    by rewrite ReadBlock_written by lia. }
  destruct t; [exact Hno|]. destruct (Snappy_Compress snappy raw) as [c|] eqn:Ec; [|exact Hno].
  destruct (Z.ltb_spec (zlen c) (zlen raw - zlen raw / 8)) as [Hlt|]; [|exact Hno].
  assert (zlen c <= zlen raw) by (Z.to_euclidean_division_equations; lia). pose proof (zlen_nonneg c).
  split; [|done]. split; [split; cbn; lia|]. intros more verify. rewrite <- !app_assoc.
  rewrite ReadBlock_written by lia. by destruct (snappy_roundtrip raw c Ec) as [-> ->].
Qed.

(** A block of a table: its entries can be iterated. *)
Definition block_at (snappy : Snappy) (F : bytes) (h : BlockHandle) (es : entries) : Prop :=
  exists l, stores snappy F h (l_data l) /\ layout_wf l /\ zlen (l_data l) < 2 ^ 32 /\ l_es l = es.

Lemma block_at_more snappy F h es more : block_at snappy F h es -> block_at snappy (F ++ more) h es.
Proof. intros (l & Hs & H). exists l. split; [by apply stores_more|done]. Qed.
