(* ===== verification/Cache.v ===== *)
(** * The cache interface: include/leveldb/cache.h

    A cache maps keys to values and hands out counted references. The record
    has the operations of the class, on a state [C] with handles [H]; the class
    of laws says which entries may be found and that a handle keeps its value
    until it is released. An operation returns [None] when an assertion of an
    implementation fails. *)

From S2P Require Import Prelude Coding.

Record Cache (C H V : Type) := {
  cache_Insert : bytes -> V -> Z -> C -> option (H * C);        (** key, value, charge *)
  cache_Lookup : bytes -> C -> option (option H * C);
  cache_Release : H -> C -> option C;
  cache_Value : H -> C -> option V;
  cache_Erase : bytes -> C -> option C;
  cache_NewId : C -> Z * C
}.
Arguments cache_Insert {C H V}.
Arguments cache_Lookup {C H V}.
Arguments cache_Release {C H V}.
Arguments cache_Value {C H V}.
Arguments cache_Erase {C H V}.
Arguments cache_NewId {C H V}.

(** [cinv c m held id]: [m] is what a lookup finds, [held] are the handles
    given out and not yet released, with their values, and [id] is the last
    number [NewId] has given out. An insertion may evict other entries,
    and its own when the capacity is 0. *)
Class CacheLaws {C H V} (cache : Cache C H V) (cinv : C -> gmap bytes V -> list (H * V) -> Z -> Prop) : Prop := {
  held_law : forall c m held held' id, held ≡ₚ held' -> cinv c m held id -> cinv c m held' id;
  insert_law : forall c m held id k v charge, cinv c m held id ->
    exists h c' m', cache_Insert cache k v charge c = Some (h, c') /\ cinv c' m' ((h, v) :: held) id /\ m' ⊆ <[k:=v]> m;
  lookup_law : forall c m held id k, cinv c m held id ->
    exists r c', cache_Lookup cache k c = Some (r, c') /\
      match m !! k with
      | None => r = None /\ c' = c
      | Some v => exists h, r = Some h /\ cinv c' m ((h, v) :: held) id
      end;
  value_law : forall c m held id h v, cinv c m held id -> (h, v) ∈ held -> cache_Value cache h c = Some v;
  release_law : forall c m held id h v held', cinv c m held id -> held ≡ₚ (h, v) :: held' ->
    exists c', cache_Release cache h c = Some c' /\ cinv c' m held' id;
  erase_law : forall c m held id k, cinv c m held id ->
    exists c', cache_Erase cache k c = Some c' /\ cinv c' (delete k m) held id;
  new_id_law : forall c m held id, cinv c m held id -> 0 <= id < 2 ^ 64 - 1 ->
    exists c', cache_NewId cache c = (id + 1, c') /\ cinv c' m held (id + 1)
}.

(** ** A cache that keeps nothing: the least the interface allows *)

Definition NoCache {V} : Cache (list V * Z) nat V := {|
  cache_Insert := fun _ v _ c => Some (length c.1, (c.1 ++ [v], c.2));
  cache_Lookup := fun _ c => Some (None, c);
  cache_Release := fun _ c => Some c;
  cache_Value := fun h c => c.1 !! h;
  cache_Erase := fun _ c => Some c;
  cache_NewId := fun c => (c.2 + 1, (c.1, c.2 + 1)) |}.

Definition no_cache_inv {V} (c : list V * Z) (m : gmap bytes V) (held : list (nat * V)) (id : Z) : Prop :=
  m = ∅ /\ c.2 = id /\ forall h v, (h, v) ∈ held -> c.1 !! h = Some v.

#[global] Instance NoCache_laws {V} : CacheLaws (@NoCache V) no_cache_inv.
Proof.
  unfold no_cache_inv. split; cbn.
  - intros c m held held' id Hp (-> & Hid & Hh). split; [done|]. split; [done|]. intros h v Hv. apply Hh. by rewrite Hp.
  - intros [vs n] m held id k v charge (-> & <- & Hh). eexists _, _, ∅. split; [done|]. split; [|apply map_empty_subseteq].
    split; [done|]. split; [done|]. intros h w [[= -> ->]|Hw]%elem_of_cons; cbn; [by apply list_lookup_middle|].
    apply Hh in Hw. by apply lookup_app_l_Some.
  - intros c m held id k (-> & Hid & Hh). exists None, c. split; [done|]. by rewrite lookup_empty.
  - intros c m held id h v (_ & _ & Hh) Hv. by apply Hh.
  - intros c m held id h v held' (-> & Hid & Hh) Hp. exists c. split; [done|]. split; [done|]. split; [done|].
    intros h' v' Hv. apply Hh. rewrite Hp. by right.
  - intros c m held id k (-> & Hid & Hh). exists c. split; [done|]. by rewrite delete_empty.
  - intros [vs n] m held id (-> & <- & Hh) _. by exists (vs, n + 1).
Qed.
