(* ===== verification/LRU.v ===== *)
(** * One shard of the LRU cache: util/cache.cpp

    Handles live in a heap and are addressed by numbers. The chains of the hash
    table and the two rings of a shard are pointers between them, as in the
    source; the dummy heads of the rings are the nodes 0 and 1 of the shard.
    Counters are not wrapped here: [LRURun] shows that they stay below
    their widths. Freeing a value with its deleter is not observable and not
    modelled; freeing the handle removes it from the heap. *)

From S2P Require Import Prelude Coding Snapshot.

(** What the lists of the cache do not touch. *)
Record HandleData (V : Type) := mkData {
  d_value : option V;
  d_charge : Z;
  d_key : bytes;
  d_in_cache : bool;
  d_refs : Z;
  d_hash : Z
}.
Arguments mkData {V}.
Arguments d_value {V}.
Arguments d_charge {V}.
Arguments d_key {V}.
Arguments d_in_cache {V}.
Arguments d_refs {V}.
Arguments d_hash {V}.

(** [h_next] and [h_prev] are [None] before they are set; [h_next_hash] is
    [NULL] at the end of a chain. *)
Record LRUHandle (V : Type) := mkHandle {
  h_next_hash : option nat;
  h_next : option nat;
  h_prev : option nat;
  h_data : HandleData V
}.
Arguments mkHandle {V}.
Arguments h_next_hash {V}.
Arguments h_next {V}.
Arguments h_prev {V}.
Arguments h_data {V}.

Abbreviation Heap V := (gmap nat (LRUHandle V)).

Section Fields.
Context {V : Type}.

(** Writing through a pointer to a handle. *)
Definition update (f : LRUHandle V -> LRUHandle V) (a : nat) (h : Heap V) : option (Heap V) :=
  e ← h !! a; Some (<[a := f e]> h).

Definition set_next_hash (p : option nat) : nat -> Heap V -> option (Heap V) := update (fun e => mkHandle p (h_next e) (h_prev e) (h_data e)).
Definition set_next (p : nat) : nat -> Heap V -> option (Heap V) := update (fun e => mkHandle (h_next_hash e) (Some p) (h_prev e) (h_data e)).
Definition set_prev (p : nat) : nat -> Heap V -> option (Heap V) := update (fun e => mkHandle (h_next_hash e) (h_next e) (Some p) (h_data e)).
Definition set_data (f : HandleData V -> HandleData V) : nat -> Heap V -> option (Heap V) :=
  update (fun e => mkHandle (h_next_hash e) (h_next e) (h_prev e) (f (h_data e))).

Definition with_refs (n : Z) (d : HandleData V) : HandleData V := mkData (d_value d) (d_charge d) (d_key d) (d_in_cache d) n (d_hash d).
Definition with_in_cache (b : bool) (d : HandleData V) : HandleData V := mkData (d_value d) (d_charge d) (d_key d) b (d_refs d) (d_hash d).

(** [LRUHandle::key]: a handle that is its own [next] has no key of its own. *)
Definition handle_key (a : nat) (e : LRUHandle V) : option bytes :=
  n ← h_next e; if (n =? a)%nat then None else Some (d_key (h_data e)).

End Fields.

(** ** HandleTable *)

Record HandleTable := mkTable { length_ : Z; elems_ : Z; list_ : list (option nat) }.

(** A pointer to a pointer: a bucket or the [next_hash] of a handle. *)
Inductive Slot := Bucket (i : nat) | NextHash (a : nat).

Section Table.
Context {V : Type}.

Definition bucket (hash : Z) (t : HandleTable) : nat := Z.to_nat (Z.land hash (length_ t - 1)).

Definition read_slot (p : Slot) (t : HandleTable) (h : Heap V) : option (option nat) :=
  match p with
  | Bucket i => list_ t !! i
  | NextHash a => h_next_hash <$> h !! a
  end.

Definition write_slot (p : Slot) (v : option nat) (t : HandleTable) (h : Heap V) : option (HandleTable * Heap V) :=
  match p with
  | Bucket i => _ ← list_ t !! i; Some (mkTable (length_ t) (elems_ t) (<[i := v]> (list_ t)), h)
  | NextHash a => h ← set_next_hash v a h; Some (t, h)
  end.

Fixpoint FindPointer_loop (fuel : nat) (key : bytes) (hash : Z) (p : Slot) (t : HandleTable) (h : Heap V) : option Slot :=
  match fuel with
  | O => None
  | S fuel =>
      v ← read_slot p t h;
      match v with
      | None => Some p
      | Some a =>
          e ← h !! a;
          if negb (d_hash (h_data e) =? hash) then FindPointer_loop fuel key hash (NextHash a) t h
          else
            k ← handle_key a e;
            if bool_decide (k = key) then Some p else FindPointer_loop fuel key hash (NextHash a) t h
      end
  end.

Definition FindPointer (key : bytes) (hash : Z) (t : HandleTable) (h : Heap V) : option Slot :=
  FindPointer_loop (S (size h)) key hash (Bucket (bucket hash t)) t h.

Definition table_Lookup (key : bytes) (hash : Z) (t : HandleTable) (h : Heap V) : option (option nat) :=
  p ← FindPointer key hash t h; read_slot p t h.

(** *** Resizing *)

Fixpoint grow (fuel : nat) (new_length elems : Z) : option Z :=
  match fuel with
  | O => None
  | S fuel => if new_length <? elems then grow fuel (new_length * 2) elems else Some new_length
  end.

(** The handles of one chain go to the front of their new buckets. *)
Fixpoint rehash_chain (fuel : nat) (p : option nat) (new_length : Z) (new_list : list (option nat)) (count : Z) (h : Heap V)
    : option (list (option nat) * Z * Heap V) :=
  match p with
  | None => Some (new_list, count, h)
  | Some a =>
      match fuel with
      | O => None
      | S fuel =>
          e ← h !! a;
          let i := Z.to_nat (Z.land (d_hash (h_data e)) (new_length - 1)) in
          old ← new_list !! i;
          h ← set_next_hash old a h;
          rehash_chain fuel (h_next_hash e) new_length (<[i := Some a]> new_list) (count + 1) h
      end
  end.

Fixpoint rehash (buckets : list (option nat)) (new_length : Z) (new_list : list (option nat)) (count : Z) (h : Heap V)
    : option (list (option nat) * Z * Heap V) :=
  match buckets with
  | [] => Some (new_list, count, h)
  | p :: buckets =>
      r ← rehash_chain (size h) p new_length new_list count h;
      rehash buckets new_length r.1.1 r.1.2 r.2
  end.

Definition Resize (t : HandleTable) (h : Heap V) : option (HandleTable * Heap V) :=
  new_length ← grow (S (Z.to_nat (elems_ t))) 4 (elems_ t);
  r ← rehash (list_ t) new_length (replicate (Z.to_nat new_length) None) 0 h;
  if elems_ t =? r.1.2 then Some (mkTable new_length (elems_ t) r.1.1, r.2) else None.

Definition new_HandleTable (h : Heap V) : option (HandleTable * Heap V) := Resize (mkTable 0 0 []) h.

(** *** Changes *)

Definition table_Insert (a : nat) (t : HandleTable) (h : Heap V) : option (option nat * HandleTable * Heap V) :=
  e ← h !! a;
  key ← handle_key a e;
  p ← FindPointer key (d_hash (h_data e)) t h;
  old ← read_slot p t h;
  next ← (match old with None => Some None | Some o => h_next_hash <$> h !! o end : option (option nat));
  h ← set_next_hash next a h;
  r ← write_slot p (Some a) t h;
  let '(t, h) := r in
  match old with
  | Some o => Some (Some o, t, h)
  | None =>
      let t := mkTable (length_ t) (elems_ t + 1) (list_ t) in
      if length_ t <? elems_ t then r ← Resize t h; Some (None, r.1, r.2) else Some (None, t, h)
  end.

Definition table_Remove (key : bytes) (hash : Z) (t : HandleTable) (h : Heap V) : option (option nat * HandleTable * Heap V) :=
  p ← FindPointer key hash t h;
  result ← read_slot p t h;
  match result with
  | None => Some (None, t, h)
  | Some a =>
      e ← h !! a;
      r ← write_slot p (h_next_hash e) t h;
      Some (Some a, mkTable (length_ r.1) (elems_ r.1 - 1) (list_ r.1), r.2)
  end.

End Table.

(** ** LRUCache *)

Definition lru_ : nat := 0.
Definition in_use_ : nat := 1.

Record LRUCache (V : Type) := mkLRU { capacity_ : Z; usage_ : Z; table_ : HandleTable; heap_ : Heap V }.
Arguments mkLRU {V}.
Arguments capacity_ {V}.
Arguments usage_ {V}.
Arguments table_ {V}.
Arguments heap_ {V}.

Section Shard.
Context {V : Type}.

Abbreviation Shard := (LRUCache V).

Definition with_heap (h : Heap V) (s : Shard) : Shard := mkLRU (capacity_ s) (usage_ s) (table_ s) h.

Definition dummy_head (a : nat) : LRUHandle V := mkHandle None (Some a) (Some a) (mkData None 0 [] false 0 0).

Definition new_LRUCache : option Shard :=
  r ← new_HandleTable ({[ lru_ := dummy_head lru_; in_use_ := dummy_head in_use_ ]} : Heap V);
  Some (mkLRU 0 0 r.1 r.2).

Definition SetCapacity (capacity : Z) (s : Shard) : Shard := mkLRU capacity (usage_ s) (table_ s) (heap_ s).

Definition TotalCharge (s : Shard) : Z := usage_ s.

(** *** The rings *)

Definition LRU_Remove (a : nat) (h : Heap V) : option (Heap V) :=
  e ← h !! a; n ← h_next e; p ← h_prev e;
  h ← set_prev p n h;
  e ← h !! a; n ← h_next e; p ← h_prev e;
  set_next n p h.

Definition LRU_Append (head a : nat) (h : Heap V) : option (Heap V) :=
  h ← set_next head a h;
  d ← h !! head; p ← h_prev d;
  h ← set_prev p a h;
  e ← h !! a; p ← h_prev e;
  h ← set_next a p h;
  e ← h !! a; n ← h_next e;
  set_prev a n h.

Definition Ref (a : nat) (h : Heap V) : option (Heap V) :=
  e ← h !! a;
  h ← (if (d_refs (h_data e) =? 1) && d_in_cache (h_data e) then h ← LRU_Remove a h; LRU_Append in_use_ a h else Some h : option (Heap V));
  e ← h !! a;
  set_data (with_refs (d_refs (h_data e) + 1)) a h.

(** At zero references the handle is freed. *)
Definition Unref (a : nat) (h : Heap V) : option (Heap V) :=
  e ← h !! a;
  if d_refs (h_data e) <=? 0 then None
  else
    let refs := d_refs (h_data e) - 1 in
    h ← set_data (with_refs refs) a h;
    if refs =? 0 then if d_in_cache (h_data e) then None else Some (delete a h)
    else if d_in_cache (h_data e) && (refs =? 1) then h ← LRU_Remove a h; LRU_Append lru_ a h
    else Some h.

(** *** The operations *)

Definition FinishErase (e : option nat) (s : Shard) : option (bool * Shard) :=
  match e with
  | None => Some (false, s)
  | Some a =>
      e ← heap_ s !! a;
      if negb (d_in_cache (h_data e)) then None
      else
        h ← LRU_Remove a (heap_ s);
        h ← set_data (with_in_cache false) a h;
        h ← Unref a h;
        Some (true, mkLRU (capacity_ s) (usage_ s - d_charge (h_data e)) (table_ s) h)
  end.

Definition shard_Lookup (key : bytes) (hash : Z) (s : Shard) : option (option nat * Shard) :=
  r ← table_Lookup key hash (table_ s) (heap_ s);
  match r with
  | None => Some (None, s)
  | Some a => h ← Ref a (heap_ s); Some (Some a, with_heap h s)
  end.

Definition shard_Release (a : nat) (s : Shard) : option Shard := h ← Unref a (heap_ s); Some (with_heap h s).

Definition shard_Erase (key : bytes) (hash : Z) (s : Shard) : option Shard :=
  r ← table_Remove key hash (table_ s) (heap_ s);
  let '(e, t, h) := r in
  f ← FinishErase e (mkLRU (capacity_ s) (usage_ s) t h);
  Some f.2.

(** The oldest entry of the LRU list goes; there must be one. *)
Definition erase_oldest (a : nat) (s : Shard) : option Shard :=
  e ← heap_ s !! a;
  if negb (d_refs (h_data e) =? 1) then None
  else
    key ← handle_key a e;
    r ← table_Remove key (d_hash (h_data e)) (table_ s) (heap_ s);
    let '(e, t, h) := r in
    f ← FinishErase e (mkLRU (capacity_ s) (usage_ s) t h);
    if (f.1 : bool) then Some f.2 else None.

Fixpoint evict (fuel : nat) (s : Shard) : option Shard :=
  match fuel with
  | O => None
  | S fuel =>
      d ← heap_ s !! lru_; n ← h_next d;
      if (capacity_ s <? usage_ s) && negb (n =? lru_)%nat then s ← erase_oldest n s; evict fuel s
      else Some s
  end.

(** [a] is the address of the new handle. *)
Definition shard_Insert (a : nat) (key : bytes) (hash : Z) (value : V) (charge : Z) (s : Shard) : option Shard :=
  let caching := 0 <? capacity_ s in
  let h := <[a := mkHandle None None None (mkData (Some value) charge key caching (if caching then 2 else 1) hash)]> (heap_ s) in
  s ← (if caching then
         h ← LRU_Append in_use_ a h;
         r ← table_Insert a (table_ s) h;
         let '(old, t, h) := r in
         f ← FinishErase old (mkLRU (capacity_ s) (usage_ s + charge) t h);
         Some f.2
       else Some (with_heap h s) : option Shard);
  evict (size (heap_ s)) s.

Fixpoint Prune_loop (fuel : nat) (s : Shard) : option Shard :=
  match fuel with
  | O => None
  | S fuel =>
      d ← heap_ s !! lru_; n ← h_next d;
      if (n =? lru_)%nat then Some s else s ← erase_oldest n s; Prune_loop fuel s
  end.

Definition shard_Prune (s : Shard) : option Shard := Prune_loop (size (heap_ s)) s.

(** [~LRUCache]: no handle may be in use; the others are freed. *)
Fixpoint destroy_loop (fuel : nat) (a : nat) (h : Heap V) : option (Heap V) :=
  match fuel with
  | O => None
  | S fuel =>
      if (a =? lru_)%nat then Some h
      else
        e ← h !! a; next ← h_next e;
        if negb (d_in_cache (h_data e)) then None
        else
          h ← set_data (with_in_cache false) a h;
          if negb (d_refs (h_data e) =? 1) then None
          else h ← Unref a h; destroy_loop fuel next h
  end.

Definition delete_LRUCache (s : Shard) : option (Heap V) :=
  d ← heap_ s !! in_use_; n ← h_next d;
  if negb (n =? in_use_)%nat then None
  else d ← heap_ s !! lru_; n ← h_next d; destroy_loop (size (heap_ s)) n (heap_ s).

End Shard.
