(* ===== verification/LRULists.v ===== *)
(** * The lists behind the pointers of a shard

    The pointers of a shard represent lists: the chains of the hash table and
    the two rings. Linking and unlinking of [LRU_Append] and [LRU_Remove], and
    lookup, insertion, removal and resizing of the hash table, are shown to act
    on these lists and on nothing else of the heap. *)

From S2P Require Import Prelude Coding Snapshot LRU.

(** ** Views of the heap

    The chains, the rings and the data are separate functions of the heap; an
    operation changes one of them. *)

Section Views.
Context {V : Type}.

Definition nh (h : Heap V) (a : nat) : option (option nat) := h_next_hash <$> h !! a.
Definition nx (h : Heap V) (a : nat) : option nat := h !! a ≫= h_next.
Definition pv (h : Heap V) (a : nat) : option nat := h !! a ≫= h_prev.
Definition info (h : Heap V) (a : nat) : option (HandleData V) := h_data <$> h !! a.

Definition same_nh (h h' : Heap V) : Prop := forall a, nh h' a = nh h a.
Definition same_links (h h' : Heap V) : Prop := forall a, nx h' a = nx h a /\ pv h' a = pv h a.
Definition same_info (h h' : Heap V) : Prop := forall a, info h' a = info h a.

Lemma info_Some (h : Heap V) a : is_Some (info h a) <-> is_Some (h !! a).
Proof. apply fmap_is_Some. Qed.

Lemma info_dom (h h' : Heap V) : same_info h h' -> dom h' = dom h.
Proof. intros Hs. apply set_eq. intros a. by rewrite !elem_of_dom, <- !info_Some, Hs. Qed.

Lemma info_size (h h' : Heap V) : same_info h h' -> size h' = size h.
Proof. intros Hs. by rewrite <- !size_dom, (info_dom _ _ Hs). Qed.

Lemma update_total f a (h : Heap V) : is_Some (info h a) -> exists e, h !! a = Some e /\ update f a h = Some (<[a := f e]> h).
Proof. intros [e He]%info_Some. exists e. unfold update. by rewrite He. Qed.

Ltac view_eqs He :=
  unfold same_nh, same_links, same_info, nh, nx, pv, info; repeat first [split | let b := fresh "b" in intros b];
  match goal with |- context [<[?a := _]> _ !! ?b] => destruct (decide (b = a)) as [->|] end;
  rewrite ?lookup_insert_eq, ?lookup_insert_ne, ?He by congruence; done.

Ltac views Ha := let e := fresh "e" in let He := fresh "He" in let E := fresh "E" in
  unfold set_next_hash, set_next, set_prev;
  match goal with |- exists h', update ?f ?a ?h = Some h' /\ _ => destruct (update_total f a h Ha) as (e & He & E) end; eexists; split; [exact E|]; view_eqs He.

Lemma set_next_hash_spec v a (h : Heap V) : is_Some (info h a) -> exists h', set_next_hash v a h = Some h' /\
  (forall b, nh h' b = if decide (b = a) then Some v else nh h b) /\ same_links h h' /\ same_info h h'.
Proof. intros Ha. views Ha. Qed.

Lemma write_next_spec n a (h : Heap V) : is_Some (info h a) -> exists h', set_next n a h = Some h' /\
  (forall b, nx h' b = if decide (b = a) then Some n else nx h b) /\ (forall b, pv h' b = pv h b) /\ same_nh h h' /\ same_info h h'.
Proof. intros Ha. views Ha. Qed.

Lemma write_prev_spec p a (h : Heap V) : is_Some (info h a) -> exists h', set_prev p a h = Some h' /\
  (forall b, pv h' b = if decide (b = a) then Some p else pv h b) /\ (forall b, nx h' b = nx h b) /\ same_nh h h' /\ same_info h h'.
Proof. intros Ha. views Ha. Qed.

Lemma set_data_spec f a (h : Heap V) d : info h a = Some d -> exists h', set_data f a h = Some h' /\
  (forall b, info h' b = if decide (b = a) then Some (f d) else info h b) /\ same_links h h' /\ same_nh h h'.
Proof.
  intros Hd. assert (Ha : is_Some (info h a)) by (by exists d). destruct (update_total (fun e => mkHandle (h_next_hash e) (h_next e) (h_prev e) (f (h_data e))) a h Ha) as (e & He & E).
  exists (<[a := mkHandle (h_next_hash e) (h_next e) (h_prev e) (f (h_data e))]> h). split; [exact E|]. unfold info in Hd. rewrite He in Hd. injection Hd as <-.
  view_eqs He.
Qed.

(** What a read of a field finds. *)
Lemma read_data (h : Heap V) a d : info h a = Some d -> exists e, h !! a = Some e /\ h_data e = d /\ nh h a = Some (h_next_hash e) /\ nx h a = h_next e /\ pv h a = h_prev e.
Proof. unfold info, nh, nx, pv. destruct (h !! a) as [e|]; [|done]. intros [= <-]. by exists e. Qed.

Lemma nx_read (h : Heap V) a n : nx h a = Some n -> exists e, h !! a = Some e /\ h_next e = Some n.
Proof. unfold nx. destruct (h !! a) as [e|]; [|done]. intros E. by exists e. Qed.

Lemma pv_read (h : Heap V) a n : pv h a = Some n -> exists e, h !! a = Some e /\ h_prev e = Some n.
Proof. unfold pv. destruct (h !! a) as [e|]; [|done]. intros E. by exists e. Qed.

Lemma nx_info (h : Heap V) a n : nx h a = Some n -> is_Some (info h a).
Proof. intros (e & He & _)%nx_read. apply info_Some. by exists e. Qed.

Lemma pv_info (h : Heap V) a n : pv h a = Some n -> is_Some (info h a).
Proof. intros (e & He & _)%pv_read. apply info_Some. by exists e. Qed.

End Views.

(** ** Rings *)

Definition ring_at (nx pv : nat -> option nat) (head : nat) (l : list nat) : Prop :=
  forall a b, (a, b) ∈ pairs (head :: l ++ [head]) -> nx a = Some b /\ pv b = Some a.

(** In a ring every node has one neighbour on each side. *)
Lemma pairs_unique s l a b a' b' : NoDup (s :: l) -> (a, b) ∈ pairs (s :: l ++ [s]) -> (a', b') ∈ pairs (s :: l ++ [s]) -> (a = a' <-> b = b').
Proof.
  intros Hn (x1 & y1 & E1)%pairs_elem (x2 & y2 & E2)%pairs_elem. change (s :: l ++ [s]) with ((s :: l) ++ [s]) in *.
  assert (Hl : forall i z w, ((s :: l) ++ [s]) !! i = Some z -> ((s :: l) ++ [s]) !! S i = Some w -> (s :: l) !! i = Some z /\ (l ++ [s]) !! i = Some w).
  { intros i z w Hz Hw. split; [|done]. rewrite lookup_app_l in Hz; [done|]. apply lookup_lt_Some in Hw. rewrite length_app in Hw. cbn in Hw |- *. lia. }
  assert (Hn' : NoDup (l ++ [s])) by (rewrite Permutation_app_comm; done).
  destruct (Hl (length x1) a b) as [A1 B1]; [rewrite E1; by rewrite list_lookup_middle|rewrite E1, lookup_app_r, Nat.sub_succ_l, Nat.sub_diag by lia; done|].
  destruct (Hl (length x2) a' b') as [A2 B2]; [rewrite E2; by rewrite list_lookup_middle|rewrite E2, lookup_app_r, Nat.sub_succ_l, Nat.sub_diag by lia; done|].
  split; intros <-.
  - assert (E : length x1 = length x2) by (by apply (NoDup_lookup _ _ _ a Hn)). rewrite E in B1. congruence.
  - assert (E : length x1 = length x2) by (by apply (NoDup_lookup _ _ _ b Hn')). rewrite E in A1. congruence.
Qed.

(** A node between two neighbours, with the list before and behind it. *)
Lemma between (s : nat) (l1 l2 : list nat) : exists x p n y, s :: l1 = x ++ [p] /\ l2 ++ [s] = n :: y /\
  forall m, s :: (l1 ++ m ++ l2) ++ [s] = x ++ p :: m ++ n :: y.
Proof.
  destruct (exists_last (l := s :: l1)) as (x & p & E1); [done|]. destruct (l2 ++ [s]) as [|n y] eqn:E2; [by destruct l2|].
  exists x, p, n, y. split; [done|]. split; [done|]. intros m. rewrite <- !app_assoc, E2, app_comm_cons, E1, <- app_assoc. done.
Qed.

Lemma ring_remove nx pv nx' pv' s l1 a l2 : NoDup (s :: l1 ++ a :: l2) -> ring_at nx pv s (l1 ++ a :: l2) ->
  exists p n, nx a = Some n /\ pv a = Some p /\ p ∈ s :: l1 ++ l2 /\ n ∈ s :: l1 ++ l2 /\
  ((forall b, nx' b = if decide (b = p) then Some n else nx b) -> (forall b, pv' b = if decide (b = n) then Some p else pv b) -> ring_at nx' pv' s (l1 ++ l2)).
Proof.
  intros Hn Hr. destruct (between s l1 l2) as (x & p & n & y & E1 & E2 & E). exists p, n. unfold ring_at in *. specialize (E [a]) as Ea. specialize (E []) as E0. cbn [app] in Ea, E0. rewrite Ea in Hr.
  destruct (Hr a n) as [Hnx _]; [change (x ++ p :: a :: n :: y) with (x ++ [p] ++ a :: n :: y); rewrite app_assoc; apply pair_intro|].
  destruct (Hr p a) as [_ Hpv]; [apply pair_intro|]. split; [done|]. split; [done|].
  assert (Hp : p ∈ s :: l1) by (rewrite E1; apply elem_of_app; right; by left). assert (Hnn : n ∈ l2 ++ [s]) by (rewrite E2; by left).
  split; [rewrite app_comm_cons; apply elem_of_app; by left|]. split; [apply elem_of_cons; apply elem_of_app in Hnn as [?| ->%list_elem_of_singleton]; [right; apply elem_of_app; by right|by left]|].
  intros Hnx' Hpv' b c Hbc. assert (Hn0 : NoDup (s :: l1 ++ l2)) by (eapply sublist_NoDup; [exact Hn|]; apply sublist_skip, sublist_app; [done|by apply sublist_cons]).
  assert (Hpn : (p, n) ∈ pairs (s :: (l1 ++ l2) ++ [s])) by (rewrite E0; apply pair_intro).
  pose proof (pairs_unique s (l1 ++ l2) b c p n Hn0 Hbc Hpn) as Hu. rewrite Hnx', Hpv'. destruct (decide (b = p)) as [->|Eb]; [destruct Hu as [Hu _]; rewrite (Hu eq_refl); by rewrite decide_True|].
  rewrite decide_False by tauto. apply Hr. rewrite E0, pairs_split in Hbc. rewrite pairs_split. apply elem_of_app in Hbc as [?|Hbc]; apply elem_of_app; [by left|right].
  change ((b, c) ∈ (p, n) :: pairs (n :: y)) in Hbc. change ((b, c) ∈ (p, a) :: (a, n) :: pairs (n :: y)). apply elem_of_cons in Hbc as [[= -> ->]|?]; [done|]. right. by right.
Qed.

Lemma ring_append nx pv nx' pv' s l a : NoDup (s :: l ++ [a]) -> ring_at nx pv s l ->
  exists p, pv s = Some p /\ p ∈ s :: l /\
  ((forall b, nx' b = if decide (b = p) then Some a else if decide (b = a) then Some s else nx b) ->
   (forall b, pv' b = if decide (b = s) then Some a else if decide (b = a) then Some p else pv b) -> ring_at nx' pv' s (l ++ [a])).
Proof.
  intros Hn Hr. destruct (exists_last (l := s :: l)) as (x & p & E1); [done|]. exists p. assert (E0 : s :: l ++ [s] = x ++ [p; s]) by (rewrite app_comm_cons, E1, <- app_assoc; done).
  assert (E : s :: (l ++ [a]) ++ [s] = x ++ [p; a; s]) by (rewrite <- app_assoc, app_comm_cons, E1, <- app_assoc; done). unfold ring_at in *. rewrite E0 in Hr.
  destruct (Hr p s (pair_intro x p s [])) as [Hps Hsp]. split; [done|]. assert (Hp : p ∈ s :: l) by (rewrite E1; apply elem_of_app; right; by left). split; [done|].
  rewrite app_comm_cons in Hn. apply NoDup_app in Hn as (Hn & Ha & _). assert (Hna : a ∉ s :: l) by (intros H; apply (Ha a H); by left).
  intros Hnx' Hpv' b c. rewrite E. rewrite pairs_split. intros [Hbc|Hbc]%elem_of_app.
  - assert (Hold : (b, c) ∈ pairs (s :: l ++ [s])) by (rewrite E0, pairs_split; apply elem_of_app; by left). assert (Hps' : (p, s) ∈ pairs (s :: l ++ [s])) by (rewrite E0; apply pair_intro).
    destruct (Hr b c) as [H1 H2]; [by rewrite <- E0|]. pose proof (pairs_unique s l b c p s Hn Hold Hps') as Hu.
    assert (Hb : b <> p).
    { intros ->. assert (c = s) as -> by tauto. apply pairs_elem in Hbc as (z1 & z2 & Ez). assert (Hdup : NoDup (s :: l)) by done. rewrite E1, Ez in Hdup.
      assert (Ez2 : s :: l = z1 ++ p :: s :: z2) by congruence. destruct z1 as [|z z1]; cbn in Ez2; injection Ez2 as -> Ez3.
      - rewrite Ez3 in Hn. apply NoDup_cons in Hn as [Hn _]. apply Hn. by left.
      - rewrite Ez3 in Hn. apply NoDup_cons in Hn as [Hn _]. apply Hn, elem_of_app. right. right. by left. }
    assert (Hc : c <> s) by tauto. assert (Hbl : b ∈ s :: l) by (rewrite app_comm_cons in Hold; by apply pairs_left in Hold).
    assert (Hcl : c ∈ l ++ [s]) by (by apply pairs_right in Hold). assert (Hca : c <> a) by (intros ->; apply elem_of_app in Hcl as [?|?%list_elem_of_singleton]; [apply Hna; by right|congruence]).
    rewrite Hnx', Hpv'. rewrite !decide_False by congruence. done.
  - change ((b, c) ∈ [(p, a); (a, s)]) in Hbc. assert (Hap : a <> p) by congruence. assert (Has : a <> s) by (intros ->; apply Hna; by left).
    apply elem_of_cons in Hbc as [[= -> ->]|[= -> ->]%list_elem_of_singleton]; rewrite Hnx', Hpv'; repeat case_decide; done.
Qed.

(** A ring only depends on its own nodes. *)
Lemma ring_ext nx pv nx' pv' s l : ring_at nx pv s l -> (forall b, b ∈ s :: l -> nx' b = nx b /\ pv' b = pv b) -> ring_at nx' pv' s l.
Proof.
  intros Hr He a b Hab. destruct (Hr a b Hab) as [H1 H2]. assert (Ha : a ∈ s :: l) by (rewrite app_comm_cons in Hab; by apply pairs_left in Hab).
  assert (Hb : b ∈ s :: l) by (apply pairs_right in Hab; apply elem_of_app in Hab as [?| ->%list_elem_of_singleton]; [by right|by left]).
  by rewrite (proj1 (He a Ha)), (proj2 (He b Hb)).
Qed.

Section Links.
Context {V : Type}.

Definition links_off (l : list nat) (h h' : Heap V) : Prop := forall b, b ∉ l -> nx h' b = nx h b /\ pv h' b = pv h b.

Lemma ring_info (h : Heap V) s l a : ring_at (nx h) (pv h) s l -> a ∈ s :: l -> is_Some (info h a).
Proof.
  intros Hr Ha. destruct (list_elem_of_split (s :: l) a Ha) as (x & y & E).
  assert (Hp : exists b, (a, b) ∈ pairs (s :: l ++ [s])).
  { rewrite app_comm_cons, E, <- app_assoc. destruct y as [|b y]; [exists s|exists b]; apply pair_intro. }
  destruct Hp as [b Hb]. apply Hr in Hb as [Hb _]. by eapply nx_info.
Qed.

Lemma LRU_Remove_spec (h : Heap V) s l1 a l2 : NoDup (s :: l1 ++ a :: l2) -> ring_at (nx h) (pv h) s (l1 ++ a :: l2) ->
  exists h', LRU_Remove a h = Some h' /\ ring_at (nx h') (pv h') s (l1 ++ l2) /\ links_off (s :: l1 ++ l2) h h' /\ same_nh h h' /\ same_info h h'.
Proof.
  intros Hn Hr. destruct (ring_remove _ _ (nx h) (pv h) s l1 a l2 Hn Hr) as (p & n & Hnx & Hpv & Hp & Hnn & _).
  assert (Hin : forall b, b ∈ s :: l1 ++ l2 -> is_Some (info h b)).
  { intros b Hb. apply (ring_info h s (l1 ++ a :: l2)); [done|]. apply elem_of_cons in Hb as [->|Hb]; [by left|right]. apply elem_of_app in Hb as [?|?]; apply elem_of_app; [by left|right; by right]. }
  assert (Han : a <> n /\ a <> p).
  { apply NoDup_cons in Hn as [Hs Hn]. apply NoDup_app in Hn as (_ & Hd & Hn). apply NoDup_cons in Hn as [Ha2 _].
    assert (Ha : a ∉ s :: l1 ++ l2); [|split; congruence]. intros [->|[Hx|Hx]%elem_of_app]%elem_of_cons; [apply Hs, elem_of_app; right; by left|apply (Hd a Hx); by left|done]. }
  unfold LRU_Remove. destruct (nx_read h a n Hnx) as (e & He & En). rewrite He. cbn [mbind option_bind]. rewrite En. cbn [mbind option_bind].
  destruct (pv_read h a p Hpv) as (e' & He' & Ep). rewrite He in He'. injection He' as <-. rewrite Ep. cbn [mbind option_bind].
  destruct (write_prev_spec p n h (Hin n Hnn)) as (h1 & -> & P1 & N1 & K1 & I1). cbn [mbind option_bind].
  destruct (nx_read h1 a n) as (e1 & He1 & En1); [by rewrite N1|]. rewrite He1. cbn [mbind option_bind]. rewrite En1. cbn [mbind option_bind].
  destruct (pv_read h1 a p) as (e1' & He1' & Ep1); [rewrite P1, decide_False by tauto; done|]. rewrite He1 in He1'. injection He1' as <-. rewrite Ep1. cbn [mbind option_bind].
  destruct (write_next_spec n p h1) as (h2 & -> & N2 & P2 & K2 & I2); [rewrite I1; by apply Hin|]. exists h2. split; [done|].
  assert (Hx : forall b, nx h2 b = if decide (b = p) then Some n else nx h b) by (intros b; rewrite N2; by rewrite N1).
  assert (Hy : forall b, pv h2 b = if decide (b = n) then Some p else pv h b) by (intros b; rewrite P2; by rewrite P1).
  split; [|split; [|split]].
  - destruct (ring_remove (nx h) (pv h) (nx h2) (pv h2) s l1 a l2 Hn Hr) as (p' & n' & E1 & E2 & _ & _ & H). assert (p' = p) as -> by congruence. assert (n' = n) as -> by congruence. by apply H.
  - intros b Hb. rewrite Hx, Hy, !decide_False by congruence. done.
  - intros b. by rewrite K2, K1.
  - intros b. by rewrite I2, I1.
Qed.

Lemma LRU_Append_spec (h : Heap V) s l a : NoDup (s :: l ++ [a]) -> ring_at (nx h) (pv h) s l -> is_Some (info h a) ->
  exists h', LRU_Append s a h = Some h' /\ ring_at (nx h') (pv h') s (l ++ [a]) /\ links_off (s :: l ++ [a]) h h' /\ same_nh h h' /\ same_info h h'.
Proof.
  intros Hn Hr Ha. destruct (ring_append _ _ (nx h) (pv h) s l a Hn Hr) as (p & Hps & Hp & _).
  assert (Hna : a ∉ s :: l) by (rewrite app_comm_cons in Hn; apply NoDup_app in Hn as (_ & Hd & _); intros Hx; apply (Hd a Hx); by left).
  assert (Has : a <> s) by (intros ->; apply Hna; by left). assert (Hap : a <> p) by congruence.
  unfold LRU_Append. destruct (write_next_spec s a h Ha) as (h1 & -> & N1 & P1 & K1 & I1). cbn [mbind option_bind].
  destruct (pv_read h1 s p) as (d & Hd & Ed); [by rewrite P1|]. rewrite Hd. cbn [mbind option_bind]. rewrite Ed. cbn [mbind option_bind].
  destruct (write_prev_spec p a h1) as (h2 & -> & P2 & N2 & K2 & I2); [by rewrite I1|]. cbn [mbind option_bind].
  destruct (pv_read h2 a p) as (e & He & Ee); [by rewrite P2, decide_True|]. rewrite He. cbn [mbind option_bind]. rewrite Ee. cbn [mbind option_bind].
  destruct (write_next_spec a p h2) as (h3 & -> & N3 & P3 & K3 & I3); [rewrite I2, I1; by apply (ring_info h s l)|]. cbn [mbind option_bind].
  destruct (nx_read h3 a s) as (e3 & He3 & Ee3); [rewrite N3, decide_False, N2, N1, decide_True by done; done|]. rewrite He3. cbn [mbind option_bind]. rewrite Ee3. cbn [mbind option_bind].
  destruct (write_prev_spec a s h3) as (h4 & -> & P4 & N4 & K4 & I4); [rewrite I3, I2, I1; apply (ring_info h s l); [done|by left]|]. exists h4. split; [done|].
  assert (Hx : forall b, nx h4 b = if decide (b = p) then Some a else if decide (b = a) then Some s else nx h b) by (intros b; rewrite N4, N3, N2, N1; done).
  assert (Hy : forall b, pv h4 b = if decide (b = s) then Some a else if decide (b = a) then Some p else pv h b) by (intros b; rewrite P4, P3, P2, P1; done).
  split; [|split; [|split]].
  - destruct (ring_append (nx h) (pv h) (nx h4) (pv h4) s l a Hn Hr) as (p' & E & _ & H). assert (p' = p) as -> by congruence. by apply H.
  - intros b Hb. rewrite app_comm_cons in Hb. rewrite Hx, Hy, !decide_False; [done|intros ->; apply Hb, elem_of_app; right; by left|intros ->; apply Hb; by left|intros ->; apply Hb, elem_of_app; right; by left|].
    intros ->. apply Hb, elem_of_app. by left.
  - intros b. by rewrite K4, K3, K2, K1.
  - intros b. by rewrite I4, I3, I2, I1.
Qed.

End Links.

(** ** Chains of the hash table *)

Fixpoint chain (nh : nat -> option (option nat)) (p : option nat) (l : list nat) : Prop :=
  match l with
  | [] => p = None
  | a :: l => p = Some a /\ exists q, nh a = Some q /\ chain nh q l
  end.

Lemma chain_ext nh nh' l : forall p, chain nh p l -> (forall a, a ∈ l -> nh' a = nh a) -> chain nh' p l.
Proof.
  induction l as [|a l IH]; intros p; [done|]. intros [-> (q & Hq & Hc)] He. split; [done|]. exists q. rewrite He by (by left). split; [done|].
  apply IH; [done|]. intros b Hb. apply He. by right.
Qed.

Lemma chains_ext nh nh' ps bs : Forall2 (chain nh) ps bs -> (forall a, a ∈ concat bs -> nh' a = nh a) -> Forall2 (chain nh') ps bs.
Proof.
  induction 1 as [|p b ps bs Hp _ IH]; intros He; constructor.
  - eapply chain_ext; [exact Hp|]. intros a Ha. apply He, elem_of_app. by left.
  - apply IH. intros a Ha. apply He, elem_of_app. by right.
Qed.

Lemma chain_head nh p l : chain nh p l -> p = head l.
Proof. destruct l; [done|]. by intros [-> _]. Qed.

Lemma chain_tail nh l1 a l2 q : forall p, chain nh p (l1 ++ a :: l2) -> nh a = Some q -> chain nh q l2.
Proof.
  induction l1 as [|x l1 IH]; intros p; cbn [app chain]; [intros [_ (q' & Hq & Hq2)] Ha; by simplify_eq|]. intros [_ (q' & _ & Hq)]. by apply (IH q').
Qed.

(** The tail of a chain is replaced. *)
Lemma chain_update nh nh' z l1 l2 v new : forall p, chain nh p (l1 ++ z :: l2) -> z ∉ l1 -> z ∉ new -> chain nh v new ->
  (forall b, nh' b = if decide (b = z) then Some v else nh b) -> chain nh' p (l1 ++ z :: new).
Proof.
  induction l1 as [|a l1 IH]; intros p; cbn [app chain].
  - intros [-> _] _ Hz Hv He. split; [done|]. exists v. rewrite He, decide_True by done. split; [done|]. eapply chain_ext; [exact Hv|]. intros b Hb. rewrite He, decide_False by congruence. done.
  - intros [-> (q & Hq & Hc)] Hza Hz Hv He. split; [done|]. exists q. rewrite He, decide_False by (intros ->; apply Hza; by left). split; [done|].
    apply IH; try done. intros Hin. apply Hza. by right.
Qed.

Lemma concat_insert {A} (bs : list (list A)) i b b' : bs !! i = Some b -> concat (<[i := b']> bs) ++ b ≡ₚ b' ++ concat bs.
Proof.
  intros Hi. rewrite <- (take_drop_middle bs i b Hi) at 2. rewrite insert_take_drop by (by eapply lookup_lt_Some).
  rewrite !concat_app. cbn [concat]. rewrite <- !app_assoc. rewrite (Permutation_app_comm (concat (drop _ _)) b). rewrite !app_assoc.
  do 2 apply Permutation_app_tail. apply Permutation_app_comm.
Qed.

Lemma bucket_elem {A} (bs : list (list A)) i b a : bs !! i = Some b -> a ∈ b -> a ∈ concat bs.
Proof. intros Hi Ha. apply list_elem_of_In, in_concat. exists b. split; apply list_elem_of_In; [by eapply list_elem_of_lookup_2|done]. Qed.

Lemma bucket_disjoint {A} (bs : list (list A)) i j b c a : NoDup (concat bs) -> bs !! i = Some b -> bs !! j = Some c -> i <> j -> a ∈ b -> a ∉ c.
Proof.
  revert i j. induction bs as [|x bs IH]; intros i j Hn Hi Hj Hij Ha Hc; [done|]. cbn [concat] in Hn. apply NoDup_app in Hn as (_ & Hd & Hn).
  destruct i as [|i], j as [|j]; cbn in Hi, Hj; [done|..].
  - injection Hi as ->. apply (Hd a Ha). by eapply bucket_elem.
  - injection Hj as ->. apply (Hd a Hc). by eapply bucket_elem.
  - by apply (IH i j); [..|congruence| |].
Qed.

Lemma bucket_nodup {A} (bs : list (list A)) i b : NoDup (concat bs) -> bs !! i = Some b -> NoDup b.
Proof.
  revert i. induction bs as [|x bs IH]; intros i Hn Hi; [done|]. cbn [concat] in Hn. apply NoDup_app in Hn as (Hx & _ & Hn). destruct i; cbn in Hi; [by injection Hi as ->|by eapply IH].
Qed.

Section Table.
Context {V : Type}.

(** The key of a handle is its own. *)
Definition keyed (h : Heap V) (a : nat) : Prop := exists d n, info h a = Some d /\ nx h a = Some n /\ n <> a.

Definition matches (h : Heap V) (key : bytes) (hash : Z) (a : nat) : Prop := exists d, info h a = Some d /\ d_hash d = hash /\ d_key d = key.

Definition slot_after (p : Slot) (l : list nat) : Slot := match last l with Some a => NextHash a | None => p end.

Lemma slot_after_cons p a l : slot_after p (a :: l) = slot_after (NextHash a) l.
Proof. unfold slot_after. rewrite last_cons. by destruct (last l). Qed.

Lemma find_spec key hash t (h : Heap V) l : forall fuel p v, read_slot p t h = Some v -> chain (nh h) v l -> (forall a, a ∈ l -> keyed h a) -> (length l < fuel)%nat ->
  exists l1 l2, FindPointer_loop fuel key hash p t h = Some (slot_after p l1) /\ l = l1 ++ l2 /\ read_slot (slot_after p l1) t h = Some (head l2) /\
    (forall a, a ∈ l1 -> ~ matches h key hash a) /\ (forall a, head l2 = Some a -> matches h key hash a).
Proof.
  induction l as [|a l IH]; intros [|fuel] p v Hv Hc Hk Hf; cbn in Hf; try lia; cbn [FindPointer_loop]; rewrite Hv; cbn [mbind option_bind].
  { cbn [chain] in Hc. subst v. exists [], []. split; [done|]. split; [done|]. split; [done|]. split; [by intros a ?%elem_of_nil|done]. }
  destruct Hc as [-> (q & Hq & Hc)]. destruct (Hk a ltac:(by left)) as (d & n & Hd & Hn & Hna). destruct (read_data h a d Hd) as (e & He & Ed & _ & En & _).
  rewrite He. cbn [mbind option_bind]. rewrite Ed. unfold handle_key. rewrite <- En, Hn. cbn [mbind option_bind]. rewrite (proj2 (Nat.eqb_neq n a)) by done. rewrite Ed.
  assert (Hgo : ~ matches h key hash a -> exists l1 l2, FindPointer_loop fuel key hash (NextHash a) t h = Some (slot_after p l1) /\ a :: l = l1 ++ l2 /\
    read_slot (slot_after p l1) t h = Some (head l2) /\ (forall a, a ∈ l1 -> ~ matches h key hash a) /\ (forall a, head l2 = Some a -> matches h key hash a)).
  { intros Hm. destruct (IH fuel (NextHash a) q) as (l1 & l2 & E & -> & Hr & H1 & H2); [done|done|intros b Hb; apply Hk; by right|lia|].
    exists (a :: l1), l2. rewrite slot_after_cons. split; [done|]. split; [done|]. split; [done|]. split; [|done]. intros b [->|Hb]%elem_of_cons; [done|by apply H1]. }
  destruct (Z.eqb_spec (d_hash d) hash) as [Eh|Eh]; cbn [negb].
  - cbn [mbind option_bind]. case_bool_decide as Ek.
    + exists [], (a :: l). split; [done|]. split; [done|]. split; [done|]. split; [by intros b ?%elem_of_nil|]. intros b [= <-]. by exists d.
    + apply Hgo. intros (d' & Hd' & _ & Ek'). congruence.
  - apply Hgo. intros (d' & Hd' & Eh' & _). congruence.
Qed.

Definition home_ok (h : Heap V) (len : Z) (bs : list (list nat)) : Prop :=
  forall i b a, bs !! i = Some b -> a ∈ b -> exists d, info h a = Some d /\ Z.to_nat (Z.land (d_hash d) (len - 1)) = i.

(** The table [t] holds the handles of [bs], bucket by bucket. *)
Record table_rep (t : HandleTable) (h : Heap V) (bs : list (list nat)) : Prop := {
  tr_chains : Forall2 (chain (nh h)) (list_ t) bs;
  tr_nodup : NoDup (concat bs);
  tr_home : home_ok h (length_ t) bs;
  tr_length : exists k, 0 <= k /\ length_ t = 2 ^ k /\ length_ t = zlen bs;
  tr_elems : elems_ t = zlen (concat bs)
}.

Lemma bucket_range hash k n : 0 <= k -> n = 2 ^ k -> (Z.to_nat (Z.land hash (n - 1)) < Z.to_nat n)%nat.
Proof. intros Hk ->. replace (2 ^ k - 1) with (Z.ones k) by (rewrite Z.ones_equiv; lia). rewrite Z.land_ones by done. pose proof (Z.mod_pos_bound hash (2 ^ k) ltac:(lia)). lia. Qed.

Lemma write_spec (t : HandleTable) (h : Heap V) bs i l1 l2 v new : Forall2 (chain (nh h)) (list_ t) bs -> NoDup (concat bs) -> bs !! i = Some (l1 ++ l2) ->
  chain (nh h) v new -> (forall a, a ∈ l1 -> a ∉ new /\ is_Some (info h a)) ->
  exists t' h', write_slot (slot_after (Bucket i) l1) v t h = Some (t', h') /\ length_ t' = length_ t /\ elems_ t' = elems_ t /\
    Forall2 (chain (nh h')) (list_ t') (<[i := l1 ++ new]> bs) /\ same_links h h' /\ same_info h h'.
Proof.
  intros Hf Hn Hi Hv Hd. destruct l1 as [|z x _] using rev_ind.
  - destruct (Forall2_lookup_r _ _ _ _ _ Hf Hi) as (p & Hp & _). cbn [slot_after last write_slot]. rewrite Hp. cbn [mbind option_bind]. do 2 eexists. split; [done|].
    split; [done|]. split; [done|]. split; [by apply Forall2_insert|done].
  - unfold slot_after. rewrite last_snoc. cbn [write_slot]. destruct (Hd z) as [Hz Hzi]; [apply elem_of_app; right; by left|].
    destruct (set_next_hash_spec v z h Hzi) as (h' & -> & K & L & I). cbn [mbind option_bind]. do 2 eexists. split; [done|]. split; [done|]. split; [done|]. split; [|done].
    apply Forall2_same_length_lookup_2; [rewrite length_insert; by eapply Forall2_length|]. intros j p b Hp Hb. destruct (decide (j = i)) as [->|Hj].
    + rewrite list_lookup_insert_eq in Hb by (by eapply lookup_lt_Some). injection Hb as <-. pose proof (Forall2_lookup_lr _ _ _ _ _ _ Hf Hp Hi) as Hc.
      rewrite <- app_assoc in Hc |- *. cbn [app] in Hc |- *. eapply chain_update; [exact Hc| |done|done|done]. pose proof (bucket_nodup bs i _ Hn Hi) as Hnb. rewrite <- app_assoc in Hnb.
      apply NoDup_app in Hnb as (_ & Hnb & _). intros Hx. apply (Hnb z Hx). by left.
    + rewrite list_lookup_insert_ne in Hb by done. pose proof (Forall2_lookup_lr _ _ _ _ _ _ Hf Hp Hb) as Hc. eapply chain_ext; [exact Hc|].
      intros a Ha. rewrite K, decide_False; [done|]. intros ->. eapply (bucket_disjoint bs i j _ b z); [done|done|done|congruence| |done]. rewrite <- app_assoc. apply elem_of_app. right. by left.
Qed.

Lemma nodup_size (h : Heap V) l : NoDup l -> (forall a, a ∈ l -> is_Some (info h a)) -> (length l <= size h)%nat.
Proof.
  intros Hn Hd. rewrite <- size_dom, <- (size_list_to_set (C := gset nat) l Hn). apply subseteq_size. intros a Ha%elem_of_list_to_set. apply elem_of_dom, info_Some, Hd, Ha.
Qed.

Lemma FindPointer_spec (t : HandleTable) (h : Heap V) bs key hash : table_rep t h bs -> (forall a, a ∈ concat bs -> keyed h a) ->
  exists i l1 l2, bs !! i = Some (l1 ++ l2) /\ FindPointer key hash t h = Some (slot_after (Bucket i) l1) /\ read_slot (slot_after (Bucket i) l1) t h = Some (head l2) /\
    i = bucket hash t /\ (head l2 = None -> forall a, a ∈ concat bs -> ~ matches h key hash a) /\ (forall a, head l2 = Some a -> matches h key hash a).
Proof.
  intros [Hc Hn Hh (k & Hk & El & Ez) He] Hkey. set (i := bucket hash t). assert (Hi : (i < length bs)%nat).
  { unfold i, bucket. pose proof (bucket_range hash k (length_ t) Hk El) as H. unfold zlen in Ez. lia. }
  destruct (lookup_lt_is_Some_2 bs i Hi) as [b Hb]. destruct (Forall2_lookup_r _ _ _ _ _ Hc Hb) as (p & Hp & Hchain).
  destruct (find_spec key hash t h b (S (size h)) (Bucket i) p Hp Hchain) as (l1 & l2 & E & -> & Hr & H1 & H2).
  { intros a Ha. apply Hkey. by eapply bucket_elem. }
  { apply Nat.lt_succ_r, nodup_size; [by eapply bucket_nodup|]. intros a Ha. destruct (Hkey a) as (d & _ & Hd & _); [by eapply bucket_elem|by exists d]. }
  exists i, l1, l2. split; [done|]. split; [exact E|]. split; [done|]. split; [done|]. split; [|done].
  intros Hl2 a Ha Hm. destruct l2; [|done]. rewrite app_nil_r in Hb. apply (H1 a); [|done]. apply list_elem_of_In, in_concat in Ha as (c & Hc' & Ha).
  apply list_elem_of_In, list_elem_of_lookup in Hc' as [j Hj]. apply list_elem_of_In in Ha. destruct (Hh j c a Hj Ha) as (d & Hd & Ej). destruct Hm as (d' & Hd' & Eh & _).
  assert (d' = d) as -> by congruence. rewrite Eh in Ej. assert (j = i) as -> by done. by assert (c = l1) as -> by congruence.
Qed.

Lemma table_Lookup_spec (t : HandleTable) (h : Heap V) bs key hash : table_rep t h bs -> (forall a, a ∈ concat bs -> keyed h a) ->
  exists r, table_Lookup key hash t h = Some r /\
    match r with Some a => a ∈ concat bs /\ matches h key hash a | None => forall a, a ∈ concat bs -> ~ matches h key hash a end.
Proof.
  intros Ht Hk. destruct (FindPointer_spec t h bs key hash Ht Hk) as (i & l1 & l2 & Hb & E & Hr & _ & Hno & Hyes). exists (head l2). unfold table_Lookup. rewrite E. cbn [mbind option_bind].
  split; [done|]. destruct l2 as [|a l2]; cbn [head]; [by apply Hno|]. split; [|by apply Hyes]. eapply bucket_elem; [exact Hb|]. apply elem_of_app. right. by left.
Qed.

(** What changing one bucket does to the table. *)
Lemma table_rep_bucket (t t' : HandleTable) (h h' : Heap V) bs i b b' : table_rep t h bs -> bs !! i = Some b -> same_info h h' ->
  Forall2 (chain (nh h')) (list_ t') (<[i := b']> bs) -> NoDup (concat (<[i := b']> bs)) -> length_ t' = length_ t -> elems_ t' = zlen (concat (<[i := b']> bs)) ->
  (forall a, a ∈ b' -> a ∈ b \/ exists d, info h a = Some d /\ bucket (d_hash d) t = i) -> table_rep t' h' (<[i := b']> bs).
Proof.
  intros [Hc Hn Hh (k & Hk & El & Ez) He] Hi Hs Hc' Hn' E1 E2 Hb'. split; try done.
  - intros j c a Hj Ha. rewrite Hs, E1. destruct (decide (j = i)) as [->|Hne].
    + rewrite list_lookup_insert_eq in Hj by (by eapply lookup_lt_Some). injection Hj as <-. destruct (Hb' a Ha) as [Hab|(d & Hd & Ed)]; [by apply (Hh i b)|by exists d].
    + rewrite list_lookup_insert_ne in Hj by done. by apply (Hh j c).
  - exists k. rewrite E1. split; [done|]. split; [done|]. rewrite Ez. unfold zlen. by rewrite length_insert.
Qed.

Lemma table_Remove_spec (t : HandleTable) (h : Heap V) bs key hash : table_rep t h bs -> (forall a, a ∈ concat bs -> keyed h a) ->
  exists r t' h', table_Remove key hash t h = Some (r, t', h') /\ same_links h h' /\ same_info h h' /\
    match r with
    | Some a => matches h key hash a /\ exists bs', table_rep t' h' bs' /\ concat bs ≡ₚ a :: concat bs'
    | None => (forall a, a ∈ concat bs -> ~ matches h key hash a) /\ t' = t /\ h' = h
    end.
Proof.
  intros Ht Hk. destruct (FindPointer_spec t h bs key hash Ht Hk) as (i & l1 & l2 & Hb & E & Hr & _ & Hno & Hyes). unfold table_Remove. rewrite E. cbn [mbind option_bind]. rewrite Hr. cbn [mbind option_bind].
  destruct l2 as [|a l2]; cbn [head] in *; [exists None, t, h; split; [done|]; split; [done|]; split; [done|]; split; [by apply Hno|done]|].
  pose proof Ht as [Hc Hn Hh Hlen He]. assert (Ha : is_Some (info h a)) by (destruct (Hyes a eq_refl) as (d & Hd & _); by exists d).
  destruct Ha as [d Hd]. destruct (read_data h a d Hd) as (e & Hea & _ & Hnh & _). rewrite Hea. cbn [mbind option_bind].
  assert (Hchain : chain (nh h) (h_next_hash e) l2).
  { destruct (Forall2_lookup_r _ _ _ _ _ Hc Hb) as (p & _ & Hp). by eapply chain_tail. }
  pose proof (bucket_nodup bs i _ Hn Hb) as Hnb. apply NoDup_app in Hnb as (_ & Hdis & Hnb2). apply NoDup_cons in Hnb2 as [Ha2 _].
  destruct (write_spec t h bs i l1 (a :: l2) (h_next_hash e) l2 Hc Hn Hb Hchain) as (t' & h' & -> & E1 & E2 & Hc' & Hl & Hi).
  { intros x Hx. split; [intros Hx2; apply (Hdis x Hx); by right|]. destruct (Hk x) as (dx & _ & Hdx & _); [eapply bucket_elem; [exact Hb|]; apply elem_of_app; by left|by exists dx]. }
  cbn [mbind option_bind fst snd]. do 3 eexists. split; [done|]. split; [done|]. split; [done|]. split; [by apply Hyes|]. exists (<[i := l1 ++ l2]> bs).
  assert (Hperm : concat bs ≡ₚ a :: concat (<[i := l1 ++ l2]> bs)).
  { pose proof (concat_insert bs i (l1 ++ a :: l2) (l1 ++ l2) Hb) as Hp. rewrite <- Permutation_middle in Hp. apply (Permutation_app_inv_r (l1 ++ l2)).
    rewrite (Permutation_app_comm (concat bs)), <- Hp. symmetry. apply Permutation_middle. }
  split; [|done]. eapply table_rep_bucket; [exact Ht|exact Hb|done|done| |done| |].
  - rewrite Hperm in Hn. by apply NoDup_cons in Hn as [_ ?].
  - cbn [elems_]. rewrite E2, He. unfold zlen. rewrite Hperm. cbn [length]. lia.
  - intros x Hx. left. apply elem_of_app in Hx as [?|?]; apply elem_of_app; [by left|right; by right].
Qed.

(** *** Resizing *)

Lemma grow_spec fuel : forall j n elems, (0 < fuel)%nat -> 0 <= j -> n = 2 ^ j -> elems < n + Z.of_nat fuel -> exists k, 0 <= k /\ grow fuel n elems = Some (2 ^ k).
Proof.
  induction fuel as [|fuel IH]; intros j n elems H0 Hj -> Hf; cbn [grow]; [lia|]. destruct (Z.ltb_spec (2 ^ j) elems) as [H|H]; [|by exists j].
  pose proof (Z.pow_pos_nonneg 2 j ltac:(lia) Hj). apply (IH (j + 1)); [lia|lia|rewrite Z.pow_add_r by lia; lia|lia].
Qed.

Lemma rehash_chain_spec len k l : 0 <= k -> len = 2 ^ k -> forall fuel p new_list nbs count (h : Heap V), chain (nh h) p l -> NoDup (l ++ concat nbs) -> (length l <= fuel)%nat ->
  Forall2 (chain (nh h)) new_list nbs -> len = zlen nbs -> home_ok h len nbs -> (forall a, a ∈ l -> is_Some (info h a)) ->
  exists new_list' nbs' h', rehash_chain fuel p len new_list count h = Some (new_list', count + zlen l, h') /\ Forall2 (chain (nh h')) new_list' nbs' /\ len = zlen nbs' /\
    concat nbs' ≡ₚ l ++ concat nbs /\ home_ok h' len nbs' /\ same_links h h' /\ same_info h h' /\ (forall b, b ∉ l -> nh h' b = nh h b).
Proof.
  intros Hk Elen. induction l as [|a l IH]; intros fuel p new_list nbs count h Hc Hn Hf Hnew Hlen Hhome Hin.
  { cbn [chain] in Hc. subst p. exists new_list, nbs, h. replace (count + zlen []) with count by (rewrite zlen_nil; lia). destruct fuel; by repeat split. }
  destruct Hc as [-> (q & Hq & Hc)]. destruct fuel as [|fuel]; [cbn in Hf; lia|]. cbn [rehash_chain]. destruct (Hin a ltac:(by left)) as [d Hd].
  destruct (read_data h a d Hd) as (e & He & Ed & Enh & _). rewrite He. cbn [mbind option_bind]. rewrite Ed. set (i := Z.to_nat (Z.land (d_hash d) (len - 1))).
  assert (Hi : (i < length nbs)%nat) by (pose proof (bucket_range (d_hash d) k len Hk Elen) as Hr; unfold i, zlen in *; lia).
  destruct (lookup_lt_is_Some_2 nbs i Hi) as [b Hb]. destruct (Forall2_lookup_r _ _ _ _ _ Hnew Hb) as (old & Hold & Hcb). rewrite Hold. cbn [mbind option_bind].
  assert (E : q = h_next_hash e) by congruence. subst q.
  destruct (set_next_hash_spec old a h ltac:(by exists d)) as (h1 & -> & K1 & L1 & I1). cbn [mbind option_bind].
  cbn [app] in Hn. apply NoDup_cons in Hn as [Ha Hn]. assert (Hal : a ∉ l) by (intros Hx; apply Ha, elem_of_app; by left). assert (Hab : a ∉ concat nbs) by (intros Hx; apply Ha, elem_of_app; by right).
  assert (Hoff : forall b, b <> a -> nh h1 b = nh h b) by (intros x Hx; by rewrite K1, decide_False).
  pose proof (concat_insert nbs i b (a :: b) Hb) as Hp. assert (Hperm : concat (<[i := a :: b]> nbs) ≡ₚ a :: concat nbs).
  { apply (Permutation_app_inv_r b). rewrite Hp. cbn [app]. apply Permutation_skip, Permutation_app_comm. }
  destruct (IH fuel (h_next_hash e) (<[i := Some a]> new_list) (<[i := a :: b]> nbs) (count + 1) h1) as (nl & nbs' & h' & -> & Hnl & Elen' & Hp' & Hh' & L' & I' & K').
  - eapply chain_ext; [exact Hc|]. intros x Hx. apply Hoff. congruence.
  - rewrite Hperm, <- Permutation_middle. by constructor.
  - cbn in Hf. lia.
  - apply Forall2_insert.
    + eapply chains_ext; [exact Hnew|]. intros z Hz. apply Hoff. congruence.
    + split; [done|]. exists old. rewrite K1, decide_True by done. split; [done|]. eapply chain_ext; [exact Hcb|]. intros z Hz. apply Hoff. intros ->. apply Hab. by eapply bucket_elem.
  - unfold zlen in *. by rewrite length_insert.
  - intros j c x Hj Hx. rewrite I1. destruct (decide (j = i)) as [->|Hne].
    + rewrite list_lookup_insert_eq in Hj by done. injection Hj as <-. apply elem_of_cons in Hx as [->|Hx]; [by exists d|by apply (Hhome i b)].
    + rewrite list_lookup_insert_ne in Hj by done. by apply (Hhome j c).
  - intros x Hx. rewrite I1. apply Hin. by right.
  - exists nl, nbs', h'. rewrite zlen_cons. replace (count + (1 + zlen l)) with (count + 1 + zlen l) by lia. split; [done|]. split; [done|]. split; [done|].
    split; [rewrite Hp', Hperm; cbn [app]; by rewrite Permutation_middle|]. split; [done|].
    split; [intros x; destruct (L' x) as [-> ->]; apply L1|]. split; [intros x; by rewrite I', I1|]. intros x Hx. rewrite elem_of_cons in Hx. rewrite K', Hoff by tauto. done.
Qed.

Lemma rehash_spec len k bs : 0 <= k -> len = 2 ^ k -> forall ps new_list nbs count (h : Heap V), Forall2 (chain (nh h)) ps bs -> NoDup (concat bs ++ concat nbs) ->
  Forall2 (chain (nh h)) new_list nbs -> len = zlen nbs -> home_ok h len nbs -> (forall a, a ∈ concat bs -> is_Some (info h a)) ->
  exists new_list' nbs' h', rehash ps len new_list count h = Some (new_list', count + zlen (concat bs), h') /\ Forall2 (chain (nh h')) new_list' nbs' /\ len = zlen nbs' /\
    concat nbs' ≡ₚ concat bs ++ concat nbs /\ home_ok h' len nbs' /\ same_links h h' /\ same_info h h'.
Proof.
  intros Hk Elen. induction bs as [|b bs IH]; intros ps new_list nbs count h Hc Hn Hnew Hlen Hhome Hin.
  { apply Forall2_nil_inv_r in Hc as ->. exists new_list, nbs, h. cbn [concat rehash]. replace (count + zlen []) with count by (rewrite zlen_nil; lia). by repeat split. }
  apply Forall2_cons_inv_r in Hc as (p & ps' & Hp & Hc & ->). cbn [concat rehash] in *. rewrite <- app_assoc in Hn.
  assert (Hdis : forall a, a ∈ b -> a ∉ concat bs) by (intros a Ha Hx; apply NoDup_app in Hn as (_ & Hn & _); apply (Hn a Ha), elem_of_app; by left).
  destruct (rehash_chain_spec len k b Hk Elen (size h) p new_list nbs count h Hp) as (nl & nbs1 & h1 & -> & Hnl & El1 & Hp1 & Hh1 & L1 & I1 & K1); try done.
  - rewrite Permutation_app_swap_app in Hn. by apply NoDup_app in Hn as (_ & _ & ?).
  - apply nodup_size; [by apply NoDup_app in Hn as (? & _)|]. intros a Ha. apply Hin, elem_of_app. by left.
  - intros a Ha. apply Hin, elem_of_app. by left.
  - cbn [mbind option_bind fst snd]. destruct (IH ps' nl nbs1 (count + zlen b) h1) as (nl2 & nbs2 & h2 & -> & Hnl2 & El2 & Hp2 & Hh2 & L2 & I2); try done.
    + eapply chains_ext; [exact Hc|]. intros z Hz. apply K1. intros Hzb. by apply (Hdis z Hzb).
    + rewrite Hp1. by rewrite Permutation_app_swap_app.
    + intros a Ha. rewrite I1. apply Hin, elem_of_app. by right.
    + exists nl2, nbs2, h2. rewrite zlen_app. replace (count + (zlen b + zlen (concat bs))) with (count + zlen b + zlen (concat bs)) by lia. split; [done|]. split; [done|]. split; [done|].
      split; [rewrite Hp2, Hp1, <- app_assoc; by rewrite Permutation_app_swap_app|]. split; [done|]. split; [intros x; destruct (L2 x) as [-> ->]; apply L1|]. intros x. by rewrite I2, I1.
Qed.

Lemma concat_empty n : concat (replicate n ([] : list nat)) = [].
Proof. by induction n. Qed.

Lemma Resize_spec (t : HandleTable) (h : Heap V) bs : Forall2 (chain (nh h)) (list_ t) bs -> NoDup (concat bs) -> elems_ t = zlen (concat bs) ->
  (forall a, a ∈ concat bs -> is_Some (info h a)) ->
  exists t' h' bs', Resize t h = Some (t', h') /\ table_rep t' h' bs' /\ concat bs' ≡ₚ concat bs /\ same_links h h' /\ same_info h h'.
Proof.
  intros Hc Hn He Hin. pose proof (zlen_nonneg (concat bs)). unfold Resize. destruct (grow_spec (S (Z.to_nat (elems_ t))) 2 4 (elems_ t)) as (k & Hk & ->); [lia|lia|done|lia|].
  cbn [mbind option_bind]. set (len := 2 ^ k). assert (Hlen : 0 <= len) by (pose proof (Z.pow_nonneg 2 k); lia).
  destruct (rehash_spec len k bs Hk eq_refl (list_ t) (replicate (Z.to_nat len) None) (replicate (Z.to_nat len) []) 0 h Hc) as (nl & nbs & h' & -> & Hnl & El & Hp & Hh & L & I).
  - by rewrite concat_empty, app_nil_r.
  - apply Forall2_replicate. done.
  - unfold zlen. rewrite length_replicate. lia.
  - intros i b a Hi Ha. apply lookup_replicate in Hi as [-> _]. by apply elem_of_nil in Ha.
  - done.
  - cbn [mbind option_bind fst snd]. rewrite He, (proj2 (Z.eqb_eq _ _)) by lia. rewrite concat_empty, app_nil_r in Hp. exists (mkTable len (zlen (concat bs)) nl), h', nbs.
    split; [done|]. split; [|done]. split; cbn [list_ length_ elems_]; try done; [by rewrite Hp|by exists k|]. unfold zlen. by rewrite Hp.
Qed.

(** *** Insertion *)

Lemma insert_perm (bs : list (list nat)) i l1 l2 a : bs !! i = Some (l1 ++ l2) ->
  match l2 with [] => concat (<[i := l1 ++ [a]]> bs) ≡ₚ a :: concat bs | o :: l => o :: concat (<[i := l1 ++ a :: l]> bs) ≡ₚ a :: concat bs end.
Proof.
  intros Hb. destruct l2 as [|o l].
  - pose proof (concat_insert bs i _ (l1 ++ [a]) Hb) as Hp. rewrite app_nil_r in Hp. apply (Permutation_app_inv_r l1). rewrite Hp. cbn [app].
    rewrite <- app_assoc. cbn [app]. rewrite <- Permutation_middle. apply Permutation_skip, Permutation_app_comm.
  - pose proof (concat_insert bs i _ (l1 ++ a :: l) Hb) as Hp. apply (Permutation_app_inv_r (l1 ++ l)). cbn [app]. rewrite (Permutation_app_comm (concat bs)).
    transitivity ((l1 ++ a :: l) ++ concat bs); [rewrite <- Hp, <- (Permutation_middle l1 l o); apply Permutation_middle|]. rewrite <- (Permutation_middle l1 l a). done.
Qed.

Lemma insert_slot_spec (t : HandleTable) (h : Heap V) bs i l1 l2 a d : table_rep t h bs -> (forall b, b ∈ concat bs -> keyed h b) -> bs !! i = Some (l1 ++ l2) ->
  info h a = Some d -> a ∉ concat bs -> i = bucket (d_hash d) t ->
  exists next h1 t' h', (match head l2 with None => Some None | Some o => h_next_hash <$> h !! o end) = Some next /\ set_next_hash next a h = Some h1 /\
    write_slot (slot_after (Bucket i) l1) (Some a) t h1 = Some (t', h') /\ same_links h h' /\ same_info h h' /\ elems_ t' = elems_ t /\
    (forall n, n = zlen (concat (<[i := l1 ++ a :: tail l2]> bs)) -> table_rep (mkTable (length_ t') n (list_ t')) h' (<[i := l1 ++ a :: tail l2]> bs)).
Proof.
  intros Ht Hk Hb Hd Ha Ei. pose proof Ht as [Hc Hn Hh Hlen He]. destruct (Forall2_lookup_r _ _ _ _ _ Hc Hb) as (p & _ & Hp).
  assert (Hin : forall b, b ∈ concat bs -> is_Some (info h b)) by (intros b (db & _ & Hdb & _)%Hk; by exists db).
  assert (Hnext : exists next, (match head l2 with None => Some None | Some o => h_next_hash <$> h !! o end) = Some next /\ chain (nh h) next (tail l2)).
  { destruct l2 as [|o l2]; cbn [head tail]; [by exists None|]. destruct (Hin o) as [od Ho]; [eapply bucket_elem; [exact Hb|]; apply elem_of_app; right; by left|].
    destruct (read_data h o od Ho) as (e & Hea & _ & Hnh & _). exists (h_next_hash e). split; [by rewrite Hea|by eapply chain_tail]. }
  destruct Hnext as (next & En & Hnext). destruct (set_next_hash_spec next a h ltac:(by exists d)) as (h1 & E1 & K1 & L1 & I1).
  assert (Hoff : forall b, b ∈ concat bs -> nh h1 b = nh h b) by (intros b Hx; rewrite K1, decide_False by congruence; done).
  assert (Hsub : forall b, b ∈ l1 \/ b ∈ l2 -> b ∈ concat bs) by (intros b Hx; eapply bucket_elem; [exact Hb|]; by apply elem_of_app).
  assert (Htl : forall b, b ∈ tail l2 -> b ∈ l2) by (intros b; destruct l2; [done|by right]).
  destruct (write_spec t h1 bs i l1 l2 (Some a) (a :: tail l2)) as (t' & h' & E2 & El & Ee & Hc' & L2 & I2); [by eapply chains_ext|done|done| | |].
  { split; [done|]. exists next. rewrite K1, decide_True by done. split; [done|]. eapply chain_ext; [exact Hnext|]. intros b Hx. apply Hoff, Hsub. right. by apply Htl. }
  { intros b Hx. rewrite I1. split; [|apply Hin, Hsub; by left]. intros [->|Hy]%elem_of_cons; [apply Ha, Hsub; by left|]. pose proof (bucket_nodup bs i _ Hn Hb) as Hnb.
    apply NoDup_app in Hnb as (_ & Hdis & _). by apply (Hdis b Hx), Htl. }
  exists next, h1, t', h'. split; [done|]. split; [done|]. split; [done|]. split; [intros x; destruct (L2 x) as [-> ->]; apply L1|].
  assert (I : same_info h h') by (intros x; by rewrite I2, I1). split; [done|]. split; [done|]. intros n ->. eapply table_rep_bucket; [exact Ht|exact Hb|done|done| |done|done|].
  - pose proof (insert_perm bs i l1 l2 a Hb) as Hperm. assert (Hna : NoDup (a :: concat bs)) by (by constructor). destruct l2 as [|o l2]; cbn [tail]; [by rewrite Hperm|]. rewrite <- Hperm in Hna. by apply NoDup_cons in Hna as [_ ?].
  - intros x [Hx|[->|Hx]%elem_of_cons]%elem_of_app; [left; apply elem_of_app; by left|right; by exists d|left; apply elem_of_app; right; by apply Htl].
Qed.

Lemma table_Insert_spec (t : HandleTable) (h : Heap V) bs a d : table_rep t h bs -> (forall b, b ∈ concat bs -> keyed h b) -> keyed h a -> info h a = Some d -> a ∉ concat bs ->
  exists old t' h' bs', table_Insert a t h = Some (old, t', h') /\ same_links h h' /\ same_info h h' /\ table_rep t' h' bs' /\
    match old with
    | Some o => matches h (d_key d) (d_hash d) o /\ o ∈ concat bs /\ o :: concat bs' ≡ₚ a :: concat bs
    | None => (forall b, b ∈ concat bs -> ~ matches h (d_key d) (d_hash d) b) /\ concat bs' ≡ₚ a :: concat bs
    end.
Proof.
  intros Ht Hk (d' & n & Hd' & Hn & Hna) Hd Ha. assert (d' = d) as -> by congruence. clear Hd'. destruct (read_data h a d Hd) as (e & He & Ed & _ & En & _).
  unfold table_Insert. rewrite He. cbn [mbind option_bind]. unfold handle_key. rewrite <- En, Hn. cbn [mbind option_bind]. rewrite (proj2 (Nat.eqb_neq n a)) by done. cbn [mbind option_bind]. rewrite Ed.
  destruct (FindPointer_spec t h bs (d_key d) (d_hash d) Ht Hk) as (i & l1 & l2 & Hb & E & Hr & Ei & Hno & Hyes). rewrite E. cbn [mbind option_bind]. rewrite Hr. cbn [mbind option_bind].
  destruct (insert_slot_spec t h bs i l1 l2 a d Ht Hk Hb Hd Ha Ei) as (next & h1 & t' & h' & -> & E1 & E2 & L & I & Ee & Hrep). cbn [mbind option_bind]. rewrite E1. cbn [mbind option_bind]. rewrite E2. cbn [mbind option_bind].
  pose proof (insert_perm bs i l1 l2 a Hb) as Hperm. pose proof (tr_elems _ _ _ Ht) as Hel. destruct l2 as [|o l2]; cbn [head tail] in *.
  - assert (Hrep' : table_rep (mkTable (length_ t') (elems_ t' + 1) (list_ t')) h' (<[i := l1 ++ [a]]> bs)) by (apply Hrep; rewrite Ee, Hel; unfold zlen; rewrite Hperm; cbn [length]; lia).
    cbn [length_ elems_]. destruct (length_ t' <? elems_ t' + 1).
    + pose proof Hrep' as [Hc' Hn' Hh' _ He']. destruct (Resize_spec _ h' _ Hc' Hn' He') as (t2 & h2 & bs2 & -> & Hrep2 & Hp2 & L2 & I2).
      { intros x Hx. rewrite Hperm in Hx. rewrite I. apply elem_of_cons in Hx as [->|(dx & _ & Hdx & _)%Hk]; [by exists d|by exists dx]. }
      cbn [mbind option_bind fst snd]. exists None, t2, h2, bs2. split; [done|]. split; [intros x; destruct (L2 x) as [-> ->]; apply L|]. split; [intros x; by rewrite I2, I|]. split; [done|]. split; [by apply Hno|].
      by rewrite Hp2.
    + exists None. do 3 eexists. split; [done|]. split; [done|]. split; [done|]. split; [exact Hrep'|]. split; [by apply Hno|done].
  - exists (Some o), t', h', (<[i := l1 ++ a :: l2]> bs). split; [done|]. split; [done|]. split; [done|]. split; [|split; [by apply Hyes|split; [eapply bucket_elem; [exact Hb|]; apply elem_of_app; right; by left|done]]].
    replace t' with (mkTable (length_ t') (elems_ t') (list_ t')) by (by destruct t'). apply Hrep. rewrite Ee, Hel. unfold zlen. apply Permutation_length in Hperm. cbn [length] in Hperm. lia.
Qed.

End Table.
