(* ===== verification/LRUShard.v ===== *)
(** * A shard of the LRU cache keeps a map

    The invariant of a shard: which handles are cached, which of them are in
    use, in which order the others were released, and how the reference counts
    follow from it. Every operation of [LRU] keeps it and does to the map of
    the cached entries what its name says. *)

From S2P Require Import Prelude Coding Snapshot LRU LRULists.

(** ** References *)

(** How often a handle has been given out. *)
Definition refs_of (ext : list nat) (a : nat) : Z := Z.of_nat (count_occ Nat.eq_dec ext a).

Lemma refs_of_cons ext a b : refs_of (a :: ext) b = (if decide (b = a) then 1 else 0) + refs_of ext b.
Proof. unfold refs_of. cbn [count_occ]. destruct (Nat.eq_dec a b), (decide (b = a)); try congruence; lia. Qed.

Lemma refs_of_elem ext a : a ∈ ext <-> 0 < refs_of ext a.
Proof. unfold refs_of. rewrite list_elem_of_In, (count_occ_In Nat.eq_dec). lia. Qed.

Lemma refs_of_nonneg ext a : 0 <= refs_of ext a.
Proof. unfold refs_of. lia. Qed.

Lemma refs_of_not_elem ext a : a ∉ ext <-> refs_of ext a = 0.
Proof. rewrite refs_of_elem. pose proof (refs_of_nonneg ext a). lia. Qed.

Lemma refs_of_perm ext ext' a : ext ≡ₚ ext' -> refs_of ext a = refs_of ext' a.
Proof. intros Hp. unfold refs_of. by rewrite (Permutation_count_occ Nat.eq_dec ext ext') in Hp; rewrite Hp. Qed.

Lemma ring_link nx pv s l a : NoDup (s :: l) -> ring_at nx pv s l -> a ∈ l -> exists n, nx a = Some n /\ n <> a.
Proof.
  intros Hn Hr (l1 & l2 & ->)%list_elem_of_split. destruct (ring_remove nx pv nx pv s l1 a l2 Hn Hr) as (p & n & Ha & _ & _ & Hin & _). exists n. split; [done|]. intros ->.
  apply NoDup_cons in Hn as [Hs Hn]. apply NoDup_app in Hn as (_ & Hd & Hn). apply NoDup_cons in Hn as [Ha2 _].
  apply elem_of_cons in Hin as [->|[Hin|Hin]%elem_of_app]; [apply Hs, elem_of_app; right; by left|apply (Hd _ Hin); by left|done].
Qed.

(** Unlinking from one ring leaves the other alone. *)
Lemma remove_spec {V} (h : Heap V) s t l1 a l2 m : NoDup (s :: t :: (l1 ++ a :: l2) ++ m) -> ring_at (nx h) (pv h) s (l1 ++ a :: l2) -> ring_at (nx h) (pv h) t m ->
  exists h', LRU_Remove a h = Some h' /\ ring_at (nx h') (pv h') s (l1 ++ l2) /\ ring_at (nx h') (pv h') t m /\ same_nh h h' /\ same_info h h'.
Proof.
  intros Hn Hs Ht. assert (Hp : s :: t :: (l1 ++ a :: l2) ++ m ≡ₚ (s :: l1 ++ a :: l2) ++ t :: m) by (cbn [app]; apply Permutation_skip, Permutation_middle).
  rewrite Hp in Hn. apply NoDup_app in Hn as (Hn & Hd & _). destruct (LRU_Remove_spec h s l1 a l2 Hn Hs) as (h' & E & Hr & Hoff & K & I). exists h'. split; [done|]. split; [done|]. split; [|done].
  eapply ring_ext; [exact Ht|]. intros b Hb. apply Hoff. intros Hx. apply (Hd b); [|done]. apply elem_of_cons in Hx as [->|[Hx|Hx]%elem_of_app]; [by left|right; apply elem_of_app; by left|right; apply elem_of_app; right; by right].
Qed.

Lemma append_spec {V} (h : Heap V) s t l a m : NoDup (s :: t :: l ++ a :: m) -> ring_at (nx h) (pv h) s l -> ring_at (nx h) (pv h) t m -> is_Some (info h a) ->
  exists h', LRU_Append t a h = Some h' /\ ring_at (nx h') (pv h') s l /\ ring_at (nx h') (pv h') t (m ++ [a]) /\ same_nh h h' /\ same_info h h'.
Proof.
  intros Hn Hs Ht Ha. assert (Hp : s :: t :: l ++ a :: m ≡ₚ (s :: l) ++ t :: m ++ [a]) by (cbn [app]; rewrite <- (Permutation_middle l (m ++ [a]) t); do 2 apply Permutation_skip; apply Permutation_app_head, Permutation_cons_append).
  rewrite Hp in Hn. apply NoDup_app in Hn as (_ & Hd & Hn). destruct (LRU_Append_spec h t m a Hn Ht Ha) as (h' & E & Hr & Hoff & K & I). exists h'. split; [done|]. split; [|done].
  eapply ring_ext; [exact Hs|]. intros b Hb. apply Hoff. by apply Hd.
Qed.

Lemma move_spec {V} (h : Heap V) s t l1 a l2 m : NoDup (s :: t :: (l1 ++ a :: l2) ++ m) -> ring_at (nx h) (pv h) s (l1 ++ a :: l2) -> ring_at (nx h) (pv h) t m ->
  exists h', (h ← LRU_Remove a h; LRU_Append t a h) = Some h' /\ ring_at (nx h') (pv h') s (l1 ++ l2) /\ ring_at (nx h') (pv h') t (m ++ [a]) /\ same_nh h h' /\ same_info h h'.
Proof.
  intros Hn Hs Ht. assert (Ha : is_Some (info h a)) by (eapply ring_info; [exact Hs|]; right; apply elem_of_app; right; by left).
  destruct (remove_spec h s t l1 a l2 m Hn Hs Ht) as (h1 & -> & Hs1 & Ht1 & K1 & I1). cbn [mbind option_bind].
  destruct (append_spec h1 s t (l1 ++ l2) a m) as (h2 & -> & Hs2 & Ht2 & K2 & I2); [|done|done|by rewrite I1|].
  - assert (Hp : (l1 ++ l2) ++ a :: m ≡ₚ (l1 ++ a :: l2) ++ m); [|by rewrite Hp]. rewrite <- !app_assoc. apply Permutation_app_head. cbn [app]. symmetry. apply Permutation_middle.
  - exists h2. split; [done|]. split; [done|]. split; [done|]. split; intros b; [by rewrite K2, K1|by rewrite I2, I1].
Qed.

Section Shard.
Context {V : Type} (hashf : bytes -> Z).

(** ** The heap of a shard

    [lru] are the cached handles nobody holds, the longest unused first, [use]
    the cached handles in use, and [ext] the references given out. *)

Definition node_ok (lru use ext : list nat) (a : nat) (d : HandleData V) : Prop :=
  (d_in_cache d = true <-> a ∈ lru ++ use) /\ d_refs d = Z.b2z (d_in_cache d) + refs_of ext a /\ 0 < d_refs d /\ d_hash d = hashf (d_key d).

Definition is_handle (a : nat) : Prop := a <> lru_ /\ a <> in_use_.

Record heap_ok (h : Heap V) (lru use ext : list nat) : Prop := {
  ho_lru : ring_at (nx h) (pv h) lru_ lru;
  ho_use : ring_at (nx h) (pv h) in_use_ use;
  ho_nodup : NoDup (lru_ :: in_use_ :: lru ++ use);
  ho_nodes : forall a d, info h a = Some d -> is_handle a -> node_ok lru use ext a d;
  ho_ext : forall a, a ∈ ext -> is_Some (info h a) /\ is_handle a;
  ho_idle : forall a, a ∈ lru -> a ∉ ext;
  ho_busy : forall a, a ∈ use -> a ∈ ext
}.

Lemma heap_ok_cached h lru use ext a : heap_ok h lru use ext -> a ∈ lru ++ use -> is_handle a /\ exists d, info h a = Some d.
Proof.
  intros [Hl Hu Hn _ _ _ _] Ha. apply NoDup_cons in Hn as [H0 Hn]. apply NoDup_cons in Hn as [H1 Hn].
  split; [split; intros ->; [apply H0; by right|by apply H1]|]. apply elem_of_app in Ha as [Ha|Ha]; eapply ring_info; [exact Hl|by right|exact Hu|by right].
Qed.

Lemma heap_ok_lru_nodup h lru use ext : heap_ok h lru use ext -> NoDup (lru_ :: lru).
Proof. intros [_ _ Hn _ _ _ _]. eapply sublist_NoDup; [exact Hn|]. apply sublist_skip, sublist_cons, sublist_inserts_r. done. Qed.

Lemma heap_ok_use_nodup h lru use ext : heap_ok h lru use ext -> NoDup (in_use_ :: use).
Proof. intros [_ _ Hn _ _ _ _]. eapply sublist_NoDup; [exact Hn|]. apply sublist_cons, sublist_skip, sublist_inserts_l. done. Qed.

Lemma heap_ok_keyed h lru use ext a : heap_ok h lru use ext -> a ∈ lru ++ use -> keyed h a.
Proof.
  intros Hh Ha. destruct (heap_ok_cached h lru use ext a Hh Ha) as [_ [d Hd]]. pose proof Hh as [Hl Hu _ _ _ _ _].
  assert (Hx : exists n, nx h a = Some n /\ n <> a) by (apply elem_of_app in Ha as [Ha|Ha]; eapply ring_link; try exact Ha; eauto using heap_ok_lru_nodup, heap_ok_use_nodup).
  destruct Hx as (n & Hx & Hna). by exists d, n.
Qed.

(** One handle gets another number of references and may change its ring. *)
Lemma heap_ok_refs h h' lru use ext lru' use' ext' a d n : heap_ok h lru use ext -> ring_at (nx h') (pv h') lru_ lru' -> ring_at (nx h') (pv h') in_use_ use' ->
  lru' ++ use' ≡ₚ lru ++ use -> info h a = Some d -> is_handle a -> (forall b, info h' b = if decide (b = a) then Some (with_refs n d) else info h b) ->
  n = Z.b2z (d_in_cache d) + refs_of ext' a -> 0 < n -> (forall b, b <> a -> refs_of ext' b = refs_of ext b) ->
  (forall b, b ∈ lru' -> b ∉ ext') -> (forall b, b ∈ use' -> b ∈ ext') -> heap_ok h' lru' use' ext'.
Proof.
  intros [_ _ Hn Hnodes Hext _ _] Hl Hu Hp Hd Ha Hi En Hpos Hoth Hidle Hbusy. split; try done.
  - by rewrite Hp.
  - intros b db. rewrite Hi. destruct (decide (b = a)) as [->|Hne].
    + intros [= <-] Hb. destruct (Hnodes a d Hd Hb) as (H1 & _ & _ & H4). unfold node_ok. cbn. by rewrite Hp.
    + intros Hdb Hb. destruct (Hnodes b db Hdb Hb) as (H1 & H2 & H3 & H4). unfold node_ok. by rewrite Hp, (Hoth b Hne).
  - intros b Hb. rewrite Hi. destruct (decide (b = a)) as [->|Hne]; [by split; [eexists|]|]. apply Hext. apply refs_of_elem. rewrite <- (Hoth b Hne). by apply refs_of_elem.
Qed.

(** ** References are taken and given back *)

Definition without (a : nat) (l : list nat) : list nat := filter (fun b => b <> a) l.

Lemma without_none a l : a ∉ l -> without a l = l.
Proof.
  unfold without. induction l as [|b l IH]; [done|]. intros Ha. rewrite not_elem_of_cons in Ha. rewrite filter_cons_True by (intros ->; tauto). f_equal. apply IH. tauto.
Qed.

Lemma without_split a l1 l2 : NoDup (l1 ++ a :: l2) -> without a (l1 ++ a :: l2) = l1 ++ l2.
Proof.
  intros Hn. apply NoDup_app in Hn as (_ & Hd & Hn). apply NoDup_cons in Hn as [Ha _]. unfold without. rewrite filter_app, filter_cons_False by tauto.
  f_equal; apply without_none; [|done]. intros Hx. apply (Hd a Hx). by left.
Qed.

Lemma without_perm a l : NoDup l -> a ∈ l -> l ≡ₚ a :: without a l.
Proof. intros Hn (l1 & l2 & ->)%list_elem_of_split. rewrite without_split by done. symmetry. apply Permutation_middle. Qed.

Lemma elem_of_without a b l : b ∈ without a l <-> b <> a /\ b ∈ l.
Proof. unfold without. by rewrite list_elem_of_filter. Qed.

(** What happens to the rings when a cached handle is given out. *)
Definition taken (a : nat) (use : list nat) : list nat := if decide (a ∈ use) then use else use ++ [a].

Lemma Ref_spec h lru use ext a d : heap_ok h lru use ext -> a ∈ lru ++ use -> info h a = Some d ->
  exists h', Ref a h = Some h' /\ heap_ok h' (without a lru) (taken a use) (a :: ext) /\ without a lru ++ taken a use ≡ₚ lru ++ use /\ same_nh h h' /\
    (forall b, info h' b = if decide (b = a) then Some (with_refs (d_refs d + 1) d) else info h b).
Proof.
  intros Hh Ha Hd. pose proof Hh as [Hl Hu Hn Hnodes Hext Hidle Hbusy]. destruct (heap_ok_cached h lru use ext a Hh Ha) as [Hha _].
  destruct (Hnodes a d Hd Hha) as (Hc & Hr & Hpos & _). assert (Ein : d_in_cache d = true) by tauto. rewrite Ein in Hr. cbn in Hr.
  pose proof (NoDup_app lru use) as [(Hnl & Hdis & Hnu) _]; [by do 2 apply NoDup_cons in Hn as [_ Hn]|].
  assert (Hmove : exists h1, (if (d_refs d =? 1) && d_in_cache d then h ← LRU_Remove a h; LRU_Append in_use_ a h else Some h) = Some h1 /\
    ring_at (nx h1) (pv h1) lru_ (without a lru) /\ ring_at (nx h1) (pv h1) in_use_ (taken a use) /\ without a lru ++ taken a use ≡ₚ lru ++ use /\ same_nh h h1 /\ same_info h h1).
  { rewrite Ein, andb_true_r. apply elem_of_app in Ha as [Ha|Ha].
    - pose proof (proj1 (refs_of_not_elem ext a) (Hidle a Ha)) as E0. rewrite E0 in Hr. rewrite (proj2 (Z.eqb_eq _ _)) by lia. unfold taken. rewrite decide_False by (by apply Hdis).
      destruct (list_elem_of_split lru a Ha) as (l1 & l2 & ->). rewrite without_split by done. destruct (move_spec h lru_ in_use_ l1 a l2 use Hn Hl Hu) as (h1 & E & H1 & H2 & K & I).
      exists h1. split; [done|]. split; [done|]. split; [done|]. split; [|done]. rewrite <- !app_assoc. apply Permutation_app_head. cbn [app]. rewrite app_assoc. symmetry. apply Permutation_cons_append.
    - pose proof (proj1 (refs_of_elem ext a) (Hbusy a Ha)) as E0. rewrite (proj2 (Z.eqb_neq _ _)) by lia. unfold taken. rewrite decide_True by done. rewrite without_none by (intros Hx; by apply (Hdis a Hx)).
      exists h. done. }
  destruct Hmove as (h1 & E1 & Hl1 & Hu1 & Hp & K1 & I1). unfold Ref. destruct (read_data h a d Hd) as (e & He & Ed & _). rewrite He. cbn [mbind option_bind]. rewrite Ed. cbn [mbind option_bind] in E1. rewrite E1. cbn [mbind option_bind].
  assert (Hd1 : info h1 a = Some d) by (by rewrite I1). destruct (read_data h1 a d Hd1) as (e1 & He1 & Ed1 & _). rewrite He1. cbn [mbind option_bind]. rewrite Ed1.
  destruct (set_data_spec (with_refs (d_refs d + 1)) a h1 d Hd1) as (h2 & -> & I2 & L2 & K2). exists h2. split; [done|].
  assert (Hi : forall b, info h2 b = if decide (b = a) then Some (with_refs (d_refs d + 1) d) else info h b) by (intros b; by rewrite I2, I1). split; [|by repeat split; try intros b; rewrite ?K2, ?K1].
  apply (heap_ok_refs h h2 lru use ext _ _ _ a d (d_refs d + 1) Hh); try done.
  - eapply ring_ext; [exact Hl1|]. intros b _. apply L2.
  - eapply ring_ext; [exact Hu1|]. intros b _. apply L2.
  - rewrite Ein, refs_of_cons, decide_True by done. cbn. lia.
  - lia.
  - intros b Hb. rewrite refs_of_cons, decide_False by done. done.
  - intros b [Hb Hbl]%elem_of_without [->|Hx]%elem_of_cons; [done|by apply (Hidle b)].
  - intros b. unfold taken. destruct (decide (a ∈ use)); [intros Hb; right; by apply Hbusy|]. intros [Hb| ->%list_elem_of_singleton]%elem_of_app; [right; by apply Hbusy|by left].
Qed.

(** What happens to the rings when a reference to [a] goes and those to [ext] stay. *)
Definition idle_after (a : nat) (lru use ext : list nat) : list nat := if decide (a ∈ use /\ a ∉ ext) then lru ++ [a] else lru.
Definition used_after (a : nat) (use ext : list nat) : list nat := if decide (a ∈ ext) then use else without a use.

Lemma after_perm a lru use ext : NoDup use -> idle_after a lru use ext ++ used_after a use ext ≡ₚ lru ++ use.
Proof.
  intros Hn. unfold idle_after, used_after. destruct (decide (a ∈ ext)) as [He|He]; [by rewrite decide_False by tauto|]. destruct (decide (a ∈ use)) as [Hu|Hu].
  - rewrite decide_True by tauto. rewrite (without_perm a use Hn Hu) at 2. by rewrite <- app_assoc.
  - rewrite decide_False by tauto. by rewrite without_none.
Qed.

(** The handle is freed when it is not cached and nobody holds it. *)
Lemma heap_ok_free h h' lru use ext a : heap_ok h lru use (a :: ext) -> a ∉ lru ++ use -> a ∉ ext -> info h' a = None ->
  (forall b, b <> a -> nx h' b = nx h b /\ pv h' b = pv h b /\ info h' b = info h b) -> heap_ok h' lru use ext.
Proof.
  intros [Hl Hu Hn Hnodes Hext Hidle Hbusy] Ha He Hnone Hv. destruct (Hext a ltac:(by left)) as [_ Hha].
  split; try done.
  - eapply ring_ext; [exact Hl|]. intros b [->|Hb]%elem_of_cons; [split; apply (Hv lru_); symmetry; apply Hha|]. assert (b <> a) by (intros ->; apply Ha, elem_of_app; by left). split; by apply Hv.
  - eapply ring_ext; [exact Hu|]. intros b [->|Hb]%elem_of_cons; [split; apply (Hv in_use_); symmetry; apply Hha|]. assert (b <> a) by (intros ->; apply Ha, elem_of_app; by right). split; by apply Hv.
  - intros b d Hd Hb. assert (Hba : b <> a) by congruence. destruct (Hv b Hba) as (_ & _ & E). rewrite E in Hd. destruct (Hnodes b d Hd Hb) as (H1 & H2 & H3 & H4).
    rewrite refs_of_cons, decide_False in H2 by done. done.
  - intros b Hb. assert (Hba : b <> a) by congruence. destruct (Hv b Hba) as (_ & _ & ->). apply Hext. by right.
  - intros b Hb Hx. apply (Hidle b Hb). by right.
  - intros b Hb. pose proof (Hbusy b Hb) as [->|?]%elem_of_cons; [|done]. exfalso. apply Ha, elem_of_app. by right.
Qed.

Lemma heap_ok_perm h lru use ext ext' : heap_ok h lru use ext -> ext ≡ₚ ext' -> heap_ok h lru use ext'.
Proof.
  intros [Hl Hu Hn Hnodes Hext Hidle Hbusy] Hp. split; try done.
  - intros a d Hd Ha. unfold node_ok. rewrite <- (refs_of_perm ext ext' a Hp). by apply Hnodes.
  - intros a Ha. apply Hext. by rewrite Hp.
  - intros a Ha. rewrite <- Hp. by apply Hidle.
  - intros a Ha. rewrite <- Hp. by apply Hbusy.
Qed.

Lemma Unref_spec h lru use ext a d : heap_ok h lru use (a :: ext) -> info h a = Some d ->
  exists h', Unref a h = Some h' /\ heap_ok h' (idle_after a lru use ext) (used_after a use ext) ext /\ (forall b, b <> a -> info h' b = info h b /\ nh h' b = nh h b) /\
    (if decide (a ∈ lru ++ use \/ a ∈ ext) then info h' a = Some (with_refs (d_refs d - 1) d) /\ nh h' a = nh h a else info h' a = None).
Proof.
  intros Hh Hd. pose proof Hh as [Hl Hu Hn Hnodes Hext Hidle Hbusy]. destruct (Hext a ltac:(by left)) as [_ Hha]. destruct (Hnodes a d Hd Hha) as (Hc & Hr & Hpos & _).
  rewrite refs_of_cons, decide_True in Hr by done. assert (Hal : a ∉ lru) by (intros Hx; apply (Hidle a Hx); by left). pose proof (refs_of_nonneg ext a) as H0.
  assert (Hnu : NoDup use) by (apply heap_ok_use_nodup in Hh; by apply NoDup_cons in Hh as [_ ?]). pose proof (after_perm a lru use ext Hnu) as Hperm.
  unfold Unref. destruct (read_data h a d Hd) as (e & He & Ed & _). rewrite He. cbn [mbind option_bind]. rewrite Ed. rewrite (proj2 (Z.leb_gt _ _)) by lia.
  destruct (set_data_spec (with_refs (d_refs d - 1)) a h d Hd) as (h1 & -> & I1 & L1 & K1). cbn [mbind option_bind].
  assert (Hl1 : ring_at (nx h1) (pv h1) lru_ lru) by (eapply ring_ext; [exact Hl|]; intros b _; apply L1).
  assert (Hu1 : ring_at (nx h1) (pv h1) in_use_ use) by (eapply ring_ext; [exact Hu|]; intros b _; apply L1).
  assert (Hnext : forall h2, ring_at (nx h2) (pv h2) lru_ (idle_after a lru use ext) -> ring_at (nx h2) (pv h2) in_use_ (used_after a use ext) -> same_nh h1 h2 -> same_info h1 h2 -> 0 < d_refs d - 1 ->
    heap_ok h2 (idle_after a lru use ext) (used_after a use ext) ext /\ (forall b, b <> a -> info h2 b = info h b /\ nh h2 b = nh h b) /\ info h2 a = Some (with_refs (d_refs d - 1) d) /\ nh h2 a = nh h a).
  { intros h2 H1 H2 K2 I2 Hp2. split; [|split; [intros b Hb; by rewrite I2, I1, decide_False, K2, K1 by done|by rewrite I2, I1, decide_True, K2, K1 by done]].
    apply (heap_ok_refs h h2 lru use (a :: ext) _ _ _ a d (d_refs d - 1) Hh); try done; [intros b; by rewrite I2, I1|lia|intros b Hb; rewrite refs_of_cons, decide_False by done; done| |].
    - intros b. unfold idle_after. case_decide as Hx; [intros [Hb| ->%list_elem_of_singleton]%elem_of_app; [|tauto]|intros Hb]; intros Hbe; apply (Hidle b Hb); by right.
    - intros b. unfold used_after. case_decide as Hx; [intros Hb; pose proof (Hbusy b Hb) as [->|?]%elem_of_cons; done|]. intros [Hba Hb]%elem_of_without. pose proof (Hbusy b Hb) as [->|?]%elem_of_cons; done. }
  destruct (Z.eqb_spec (d_refs d - 1) 0) as [Ez|Ez].
  - assert (Ec : d_in_cache d = false) by (destruct (d_in_cache d); [cbn in Hr; lia|done]). rewrite Ec in *. assert (Hau : a ∉ lru ++ use) by (intros Hx; by apply Hc in Hx).
    assert (Hae : a ∉ ext) by (apply refs_of_not_elem; cbn in Hr; lia). assert (Hau2 : a ∉ use) by (intros Hx; apply Hau, elem_of_app; by right).
    exists (delete a h1). split; [done|]. rewrite decide_False by tauto. unfold idle_after, used_after. rewrite (decide_False (P := a ∈ ext)), decide_False, without_none by tauto.
    assert (Hoth : forall b, b <> a -> info (delete a h1) b = info h b /\ nh (delete a h1) b = nh h b).
    { intros b Hb. unfold info at 1, nh at 1. rewrite lookup_delete_ne by done. split; [|apply K1]. specialize (I1 b). rewrite decide_False in I1 by done. exact I1. }
    assert (Hnone : info (delete a h1) a = None) by (unfold info; by rewrite lookup_delete_eq). split; [|done].
    apply (heap_ok_free h (delete a h1) lru use ext a); [done..|]. intros b Hb. destruct (Hoth b Hb) as [-> _]. destruct (L1 b) as [<- <-]. unfold nx, pv. by rewrite lookup_delete_ne.
  - assert (Hcond : d_in_cache d && (d_refs d - 1 =? 1) = bool_decide (a ∈ use /\ a ∉ ext)).
    { destruct (d_in_cache d) eqn:Ec; cbn [andb Z.b2z] in *.
      - pose proof (proj1 Hc eq_refl) as [?|Hx]%elem_of_app; [done|]. destruct (Z.eqb_spec (d_refs d - 1) 1); symmetry;
          [apply bool_decide_eq_true_2; split; [done|apply refs_of_not_elem; lia]|apply bool_decide_eq_false_2; intros [_ Hy%refs_of_not_elem]; lia].
      - symmetry. apply bool_decide_eq_false_2. intros [Hx _]. assert (false = true) by (apply Hc, elem_of_app; by right). done. }
    assert (Hstay : a ∈ lru ++ use \/ a ∈ ext) by (destruct (d_in_cache d) eqn:Ec; [left; tauto|right; apply refs_of_elem; cbn in Hr; lia]).
    rewrite Hcond. unfold idle_after, used_after in *. case_bool_decide as Hb.
    + rewrite (decide_True (P := _ /\ _)) in * by done. rewrite (decide_False (P := a ∈ ext)) in * by tauto. destruct Hb as [Hau Hae]. destruct (list_elem_of_split use a Hau) as (u1 & u2 & ->).
      rewrite without_split in * by done. destruct (move_spec h1 in_use_ lru_ u1 a u2 lru) as (h2 & E & H2 & H3 & K2 & I2); [|done|done|].
      { rewrite perm_swap, (Permutation_app_comm _ lru). done. }
      cbn [mbind option_bind] in E. exists h2. split; [exact E|]. rewrite (decide_True (P := _ \/ _)) by done. apply Hnext; try done. lia.
    + rewrite (decide_False (P := _ /\ _)) in * by done. exists h1. split; [done|]. rewrite (decide_True (P := _ \/ _)) by done. apply Hnext; try done; [|lia]. case_decide; [done|]. rewrite without_none by tauto. done.
Qed.

(** A new handle, cached or not, is in use. *)
Lemma heap_ok_new h h' lru use ext use' a d : heap_ok h lru use ext -> info h a = None -> is_handle a -> ring_at (nx h') (pv h') lru_ lru -> ring_at (nx h') (pv h') in_use_ use' ->
  (forall b, info h' b = if decide (b = a) then Some d else info h b) -> use' = (if d_in_cache d then use ++ [a] else use) ->
  d_refs d = Z.b2z (d_in_cache d) + 1 -> d_hash d = hashf (d_key d) -> heap_ok h' lru use' (a :: ext).
Proof.
  intros Hh Hnone Ha Hl Hu Hi Euse Er Eh. pose proof Hh as [_ _ Hn Hnodes Hext Hidle Hbusy]. assert (Hal : a ∉ lru ++ use) by (intros [_ [x Hx]]%(heap_ok_cached h lru use ext _ Hh); congruence).
  assert (Hae : a ∉ ext) by (intros [[x Hx] _]%Hext; congruence). assert (Hin : forall b, b <> a -> b ∈ lru ++ use' <-> b ∈ lru ++ use).
  { intros b Hb. rewrite Euse. destruct (d_in_cache d); [|done]. rewrite app_assoc, elem_of_app, list_elem_of_singleton. tauto. }
  split; try done.
  - rewrite Euse. destruct (d_in_cache d); [|done]. rewrite app_assoc, !app_comm_cons, <- Permutation_cons_append. constructor; [|done].
    intros [E|[E|?]%elem_of_cons]%elem_of_cons; [by destruct Ha|by destruct Ha|done].
  - intros b db. rewrite Hi. destruct (decide (b = a)) as [->|Hne].
    + intros [= <-] _. unfold node_ok. rewrite refs_of_cons, decide_True, (proj1 (refs_of_not_elem ext a) Hae), Er by done. split; [|by destruct (d_in_cache d)].
      rewrite Euse. destruct (d_in_cache d); [|done]. split; [intros _; apply elem_of_app; right; apply elem_of_app; right; by left|done].
    + intros Hdb Hb. destruct (Hnodes b db Hdb Hb) as (H1 & H2 & H3 & H4). unfold node_ok. rewrite refs_of_cons, decide_False, (Hin b Hne) by done. done.
  - intros b [->|Hb]%elem_of_cons; rewrite Hi; [rewrite decide_True by done; by split; [eexists|]|]. rewrite decide_False by congruence. by apply Hext.
  - intros b Hb [->|Hx]%elem_of_cons; [apply Hal, elem_of_app; by left|by apply (Hidle b)].
  - intros b Hb. rewrite Euse in Hb. destruct (d_in_cache d); [apply elem_of_app in Hb as [Hb| ->%list_elem_of_singleton]; [|by left]|]; right; by apply Hbusy.
Qed.

Lemma heap_ok_ext h h' lru use ext : heap_ok h lru use ext -> same_links h h' -> same_info h h' -> heap_ok h' lru use ext.
Proof.
  intros [Hl Hu Hn Hnodes Hext Hidle Hbusy] L I. split; try done.
  - eapply ring_ext; [exact Hl|]. intros b _. apply L.
  - eapply ring_ext; [exact Hu|]. intros b _. apply L.
  - intros a d. rewrite I. apply Hnodes.
  - intros a. rewrite I. apply Hext.
Qed.

(** A cached handle leaves its ring and is marked as not cached: what was the
    reference of the cache is one more reference from outside. *)
Lemma unlink_spec h lru use ext a d : heap_ok h lru use ext -> a ∈ lru ++ use -> info h a = Some d ->
  exists h1 h2, LRU_Remove a h = Some h1 /\ set_data (with_in_cache false) a h1 = Some h2 /\ heap_ok h2 (without a lru) (without a use) (a :: ext) /\ same_nh h h2 /\
    (forall b, info h2 b = if decide (b = a) then Some (with_in_cache false d) else info h b).
Proof.
  intros Hh Ha Hd. pose proof Hh as [Hl Hu Hn Hnodes Hext Hidle Hbusy]. destruct (heap_ok_cached h lru use ext a Hh Ha) as [Hha _]. destruct (Hnodes a d Hd Hha) as (Hc & Hr & Hpos & Hhash).
  assert (Ein : d_in_cache d = true) by tauto. rewrite Ein in Hr. cbn in Hr. pose proof (NoDup_app lru use) as [(Hnl & Hdis & Hnu) _]; [by do 2 apply NoDup_cons in Hn as [_ Hn]|].
  assert (Hrem : exists h1, LRU_Remove a h = Some h1 /\ ring_at (nx h1) (pv h1) lru_ (without a lru) /\ ring_at (nx h1) (pv h1) in_use_ (without a use) /\ same_nh h h1 /\ same_info h h1).
  { apply elem_of_app in Ha as [Ha|Ha].
    - rewrite (without_none a use) by (by apply Hdis). destruct (list_elem_of_split lru a Ha) as (l1 & l2 & ->). rewrite without_split by done. by apply remove_spec.
    - rewrite (without_none a lru) by (intros Hx; by apply (Hdis a Hx)). destruct (list_elem_of_split use a Ha) as (l1 & l2 & ->). rewrite without_split by done.
      destruct (remove_spec h in_use_ lru_ l1 a l2 lru) as (h1 & E & H1 & H2 & K & I); [|done|done|by exists h1]. rewrite perm_swap, (Permutation_app_comm _ lru). done. }
  destruct Hrem as (h1 & E1 & Hl1 & Hu1 & K1 & I1). assert (Hd1 : info h1 a = Some d) by (by rewrite I1). destruct (set_data_spec (with_in_cache false) a h1 d Hd1) as (h2 & E2 & I2 & L2 & K2).
  exists h1, h2. split; [done|]. split; [done|]. split; [|split; [intros b; by rewrite K2, K1|intros b; by rewrite I2, I1]].
  assert (Hsub : forall b, b ∈ without a lru ++ without a use <-> b <> a /\ b ∈ lru ++ use) by (intros b; rewrite !elem_of_app, !elem_of_without; tauto). split.
  - eapply ring_ext; [exact Hl1|]. intros b _. apply L2.
  - eapply ring_ext; [exact Hu1|]. intros b _. apply L2.
  - eapply sublist_NoDup; [exact Hn|]. do 2 apply sublist_skip. apply sublist_app; apply sublist_filter.
  - intros b db. rewrite I2, I1. destruct (decide (b = a)) as [->|Hne].
    + intros [= <-] _. unfold node_ok. cbn. rewrite refs_of_cons, decide_True, Hsub by done. split; [|split; [lia|done]]. split; [done|tauto].
    + intros Hdb Hb. destruct (Hnodes b db Hdb Hb) as (H1 & H2 & H3 & H4). unfold node_ok. rewrite refs_of_cons, decide_False, Hsub by done. repeat split; try done; tauto.
  - intros b [->|Hb]%elem_of_cons; rewrite I2, I1; [rewrite decide_True by done; by split; [eexists|]|]. destruct (Hext b Hb) as [Hx Hy]. split; [|done]. destruct (decide (b = a)); [by eexists|done].
  - intros b [Hb Hbl]%elem_of_without [->|Hx]%elem_of_cons; [done|by apply (Hidle b)].
  - intros b [Hb Hbl]%elem_of_without. right. by apply Hbusy.
Qed.

(** ** The shard *)

Definition key_of (h : Heap V) (a : nat) : option bytes := d_key <$> info h a.
Definition value_of (h : Heap V) (a : nat) : option V := info h a ≫= d_value.
Definition charge_of (h : Heap V) (a : nat) : Z := default 0 (d_charge <$> info h a).
Definition total_charge (h : Heap V) (l : list nat) : Z := foldr (fun a n => charge_of h a + n) 0 l.

#[global] Instance total_charge_proper h : Proper ((≡ₚ) ==> eq) (total_charge h).
Proof. intros l l' Hp. induction Hp; cbn [total_charge foldr] in *; unfold total_charge in *; lia. Qed.

(** The handles of [l] stay what they are, up to their references. *)
Definition keeps (h h' : Heap V) (l : list nat) : Prop :=
  forall a, a ∈ l -> nh h' a = nh h a /\ key_of h' a = key_of h a /\ value_of h' a = value_of h a /\ charge_of h' a = charge_of h a /\ (d_hash <$> info h' a) = (d_hash <$> info h a).

Lemma keeps_info h h' a d d' : info h a = Some d -> info h' a = Some d' -> nh h' a = nh h a -> d_key d' = d_key d -> d_value d' = d_value d -> d_charge d' = d_charge d -> d_hash d' = d_hash d ->
  nh h' a = nh h a /\ key_of h' a = key_of h a /\ value_of h' a = value_of h a /\ charge_of h' a = charge_of h a /\ (d_hash <$> info h' a) = (d_hash <$> info h a).
Proof. intros Hd Hd' Hn E1 E2 E3 E4. unfold key_of, value_of, charge_of. rewrite Hd, Hd'. cbn. by rewrite E1, E2, E3, E4. Qed.

Lemma keeps_same h h' a : nh h' a = nh h a -> info h' a = info h a ->
  nh h' a = nh h a /\ key_of h' a = key_of h a /\ value_of h' a = value_of h a /\ charge_of h' a = charge_of h a /\ (d_hash <$> info h' a) = (d_hash <$> info h a).
Proof. intros Hn Hi. unfold key_of, value_of, charge_of. by rewrite Hi. Qed.

Lemma keeps_charge h h' l : keeps h h' l -> total_charge h' l = total_charge h l.
Proof.
  induction l as [|a l IH]; intros Hk; [done|]. cbn [total_charge foldr]. destruct (Hk a ltac:(by left)) as (_ & _ & _ & -> & _). f_equal. apply IH. intros b Hb. apply Hk. by right.
Qed.

Lemma same_charge h h' l : same_info h h' -> total_charge h' l = total_charge h l.
Proof. intros I. induction l as [|a l IH]; [done|]. cbn [total_charge foldr]. unfold charge_of at 1. rewrite I. f_equal. apply IH. Qed.

Lemma keeps_sub h h' l l' : keeps h h' l -> (forall a, a ∈ l' -> a ∈ l) -> keeps h h' l'.
Proof. intros Hk Hs a Ha. by apply Hk, Hs. Qed.

Lemma table_rep_keeps t h h' bs : table_rep t h bs -> keeps h h' (concat bs) -> table_rep t h' bs.
Proof.
  intros [Hc Hn Hh Hlen He] Hk. split; try done.
  - eapply chains_ext; [exact Hc|]. intros a Ha. by apply Hk.
  - intros i b a Hi Ha. destruct (Hh i b a Hi Ha) as (d & Hd & Ed). destruct (Hk a) as (_ & _ & _ & _ & E); [by eapply bucket_elem|]. rewrite Hd in E.
    destruct (info h' a) as [d'|]; [|done]. injection E as E. exists d'. by rewrite E.
Qed.

Definition keys_distinct (h : Heap V) (l : list nat) : Prop := forall a b, a ∈ l -> b ∈ l -> key_of h a = key_of h b -> a = b.

(** The hash table holds what is cached, but for [gone]: between two steps of
    an operation one handle may be in a ring and not in the table. *)
Record shard_inv (s : LRUCache V) (lru use gone ext : list nat) : Prop := {
  sv_heap : heap_ok (heap_ s) lru use ext;
  sv_table : exists bs, table_rep (table_ s) (heap_ s) bs /\ gone ++ concat bs ≡ₚ lru ++ use /\ keys_distinct (heap_ s) (concat bs);
  sv_usage : usage_ s = total_charge (heap_ s) (lru ++ use);
  sv_capacity : capacity_ s <= 0 -> lru ++ use = []
}.

Abbreviation shard_ok s lru use ext := (shard_inv s lru use [] ext).

Lemma shard_keyed s lru use gone ext bs a : heap_ok (heap_ s) lru use ext -> gone ++ concat bs ≡ₚ lru ++ use -> a ∈ concat bs -> keyed (heap_ s) a.
Proof. intros Hh Hp Ha. eapply heap_ok_keyed; [exact Hh|]. rewrite <- Hp. apply elem_of_app. by right. Qed.

Lemma keys_distinct_keeps h h' l : keys_distinct h l -> keeps h h' l -> keys_distinct h' l.
Proof. intros Hd Hk a b Ha Hb. destruct (Hk a Ha) as (_ & -> & _), (Hk b Hb) as (_ & -> & _). by apply Hd. Qed.

Lemma shard_inv_keeps s h' lru use gone ext lru' use' ext' : shard_inv s lru use gone ext -> heap_ok h' lru' use' ext' -> lru' ++ use' ≡ₚ lru ++ use -> keeps (heap_ s) h' (lru ++ use) ->
  shard_inv (with_heap h' s) lru' use' gone ext'.
Proof.
  intros [Hh (bs & Ht & Hp & Hd) Hu Hc] Hh' Hp' Hk. assert (Hkb : keeps (heap_ s) h' (concat bs)) by (eapply keeps_sub; [exact Hk|]; intros a Ha; rewrite <- Hp; apply elem_of_app; by right).
  split; cbn [with_heap heap_ table_ usage_ capacity_]; [done| | |].
  - exists bs. split; [by eapply table_rep_keeps|]. split; [by rewrite Hp'|by eapply keys_distinct_keeps].
  - by rewrite Hp', (keeps_charge _ _ _ Hk).
  - intros Hcap. apply Permutation_nil. symmetry. by rewrite Hp', Hc.
Qed.

Lemma matches_key s lru use ext a key : heap_ok (heap_ s) lru use ext -> is_handle a -> matches (heap_ s) key (hashf key) a <-> key_of (heap_ s) a = Some key.
Proof.
  intros Hh Ha. unfold matches, key_of. split; [intros (d & -> & _ & <-); done|]. destruct (info (heap_ s) a) as [d|] eqn:Ed; [|done]. intros [= <-]. exists d.
  split; [done|]. split; [|done]. by apply (ho_nodes _ _ _ _ Hh a d).
Qed.

(** *** Lookup and release *)

Lemma shard_Lookup_spec s lru use ext key : shard_ok s lru use ext ->
  exists r s', shard_Lookup key (hashf key) s = Some (r, s') /\
    match r with
    | None => s' = s /\ forall a, a ∈ lru ++ use -> key_of (heap_ s) a <> Some key
    | Some a => a ∈ lru ++ use /\ key_of (heap_ s) a = Some key /\ shard_ok s' (without a lru) (taken a use) (a :: ext) /\ without a lru ++ taken a use ≡ₚ lru ++ use /\
        (forall l, keeps (heap_ s) (heap_ s') l) /\ capacity_ s' = capacity_ s
    end.
Proof.
  intros Hs. pose proof Hs as [Hh (bs & Ht & Hp & Hd) Hu Hc]. cbn [app] in Hp. unfold shard_Lookup.
  destruct (table_Lookup_spec (table_ s) (heap_ s) bs key (hashf key) Ht) as (r & -> & Hr); [intros a Ha; by apply (shard_keyed s lru use [] ext bs)|]. cbn [mbind option_bind]. destruct r as [a|].
  - destruct Hr as [Ha Hm]. rewrite Hp in Ha. destruct (heap_ok_cached _ _ _ _ a Hh Ha) as [Hha [d Hda]]. destruct (Ref_spec _ lru use ext a d Hh Ha Hda) as (h' & -> & Hh' & Hp' & K & I).
    assert (Hk : forall l, keeps (heap_ s) h' l).
    { intros l b _. destruct (decide (b = a)) as [->|Hne]; [|apply keeps_same; [apply K|by rewrite I, decide_False]]. eapply keeps_info; [exact Hda|by rewrite I, decide_True|apply K|done..]. }
    exists (Some a), (with_heap h' s). split; [done|]. split; [done|]. split; [by eapply matches_key|]. split; [by eapply shard_inv_keeps|]. done.
  - exists None, s. split; [done|]. split; [done|]. intros a Ha Hk. apply (Hr a); [by rewrite Hp|]. eapply matches_key; [done| |done]. by eapply heap_ok_cached.
Qed.

Lemma shard_Release_spec s lru use ext a : shard_ok s lru use (a :: ext) ->
  exists s', shard_Release a s = Some s' /\ shard_ok s' (idle_after a lru use ext) (used_after a use ext) ext /\ keeps (heap_ s) (heap_ s') (lru ++ use ++ ext) /\ capacity_ s' = capacity_ s.
Proof.
  intros Hs. pose proof Hs as [Hh _ _ _]. destruct (ho_ext _ _ _ _ Hh a ltac:(by left)) as [[d Hd] _]. unfold shard_Release.
  destruct (Unref_spec _ lru use ext a d Hh Hd) as (h' & -> & Hh' & Hoth & Ha). cbn [mbind option_bind].
  assert (Hk : keeps (heap_ s) h' (lru ++ use ++ ext)).
  { intros b Hb. destruct (decide (b = a)) as [->|Hne]; [|by destruct (Hoth b Hne); apply keeps_same]. rewrite app_assoc, elem_of_app in Hb. rewrite decide_True in Ha by done. destruct Ha as [Hi Hn].
    by eapply keeps_info. }
  exists (with_heap h' s). split; [done|]. split; [|done]. eapply shard_inv_keeps; [exact Hs|done| |eapply keeps_sub; [exact Hk|]; intros b Hb; rewrite app_assoc, elem_of_app; by left].
  apply after_perm. apply heap_ok_use_nodup in Hh. by apply NoDup_cons in Hh as [_ ?].
Qed.

(** *** Leaving the cache *)

(** The handles with another key. *)
Definition without_key (h : Heap V) (key : bytes) (l : list nat) : list nat := filter (fun a => key_of h a <> Some key) l.

Lemma without_key_none h key l : (forall a, a ∈ l -> key_of h a <> Some key) -> without_key h key l = l.
Proof.
  unfold without_key. induction l as [|a l IH]; [done|]. intros Hl. rewrite filter_cons_True by (apply Hl; by left). f_equal. apply IH. intros b Hb. apply Hl. by right.
Qed.

Lemma without_key_one h key l a : key_of h a = Some key -> (forall b, b ∈ l -> key_of h b = Some key -> b = a) -> without_key h key l = without a l.
Proof.
  intros Ha. unfold without_key, without. induction l as [|b l IH]; [done|]. intros Hl. assert (Hrest : filter (fun b => key_of h b <> Some key) l = filter (fun b => b <> a) l) by (apply IH; intros c Hc; apply Hl; by right).
  destruct (decide (b = a)) as [->|Hne]; [rewrite !filter_cons_False by tauto; done|]. rewrite !filter_cons_True; [by rewrite Hrest|done|]. intros E. by apply Hne, Hl; [left|].
Qed.

Lemma FinishErase_spec s lru use ext a : shard_inv s lru use [a] ext ->
  exists s', FinishErase (Some a) s = Some (true, s') /\ shard_ok s' (without a lru) (without a use) ext /\ keeps (heap_ s) (heap_ s') (without a lru ++ without a use ++ ext) /\
    capacity_ s' = capacity_ s /\ usage_ s' = usage_ s - charge_of (heap_ s) a.
Proof.
  intros [Hh (bs & Ht & Hp & Hdis) Hu Hc]. assert (Ha : a ∈ lru ++ use) by (rewrite <- Hp; by left). destruct (heap_ok_cached _ _ _ _ a Hh Ha) as [Hha [d Hd]].
  unfold FinishErase. destruct (read_data (heap_ s) a d Hd) as (e & He & Ed & _). rewrite He. cbn [mbind option_bind]. rewrite Ed.
  rewrite (proj2 (proj1 (ho_nodes _ _ _ _ Hh a d Hd Hha)) Ha). cbn [negb]. destruct (unlink_spec _ lru use ext a d Hh Ha Hd) as (h1 & h2 & -> & E2 & Hh2 & K2 & I2). cbn [mbind option_bind]. rewrite E2. cbn [mbind option_bind].
  destruct (Unref_spec h2 _ _ ext a (with_in_cache false d) Hh2) as (h3 & -> & Hh3 & Hoth & Ha3); [by rewrite I2, decide_True|]. cbn [mbind option_bind].
  assert (Hnu : a ∉ without a use) by (rewrite elem_of_without; tauto). unfold idle_after, used_after in Hh3. rewrite decide_False in Hh3 by tauto.
  assert (Eu : (if decide (a ∈ ext) then without a use else without a (without a use)) = without a use) by (destruct (decide (a ∈ ext)); [done|by apply without_none]). rewrite Eu in Hh3.
  assert (Hk : keeps (heap_ s) h3 (without a lru ++ without a use ++ ext)).
  { intros b Hb. destruct (decide (b = a)) as [->|Hne]; [|destruct (Hoth b Hne) as [Hi Hn]; apply keeps_same; [by rewrite Hn, K2|by rewrite Hi, I2, decide_False]].
    rewrite !elem_of_app, !elem_of_without in Hb. rewrite decide_True in Ha3 by tauto. destruct Ha3 as [Hi Hn]. eapply keeps_info; [exact Hd|exact Hi|by rewrite Hn, K2|done..]. }
  assert (Hn : NoDup (lru ++ use)) by (pose proof (ho_nodup _ _ _ _ Hh) as Hn; by do 2 apply NoDup_cons in Hn as [_ Hn]).
  assert (Hp' : a :: without a lru ++ without a use ≡ₚ lru ++ use) by (unfold without; rewrite <- filter_app; symmetry; by apply (without_perm a (lru ++ use))).
  assert (Hpb : concat bs ≡ₚ without a lru ++ without a use) by (apply (Permutation_cons_inv (a := a)); by rewrite Hp'). eexists. split; [done|]. cbn [heap_ capacity_ usage_].
  assert (Hkb : keeps (heap_ s) h3 (without a lru ++ without a use)) by (eapply keeps_sub; [exact Hk|]; intros b Hb; rewrite app_assoc, elem_of_app; by left).
  assert (Hkc : keeps (heap_ s) h3 (concat bs)) by (eapply keeps_sub; [exact Hkb|]; intros b Hb; by rewrite <- Hpb).
  split; [|split; [done|split; [done|unfold charge_of; by rewrite Hd]]]. split; cbn [heap_ table_ usage_ capacity_]; [done| | |].
  - exists bs. split; [by eapply table_rep_keeps|]. split; [done|by eapply keys_distinct_keeps].
  - rewrite (keeps_charge _ _ _ Hkb), Hu, <- Hp'. cbn [total_charge foldr]. unfold charge_of at 1. rewrite Hd. cbn. unfold total_charge. lia.
  - intros Hcap. rewrite (Hc Hcap) in Hp'. by apply Permutation_nil_r in Hp'.
Qed.

(** The handle found is taken out of the table. *)
Lemma shard_Remove_spec s lru use ext key : shard_ok s lru use ext ->
  exists r t h, table_Remove key (hashf key) (table_ s) (heap_ s) = Some (r, t, h) /\
    match r with
    | Some a => a ∈ lru ++ use /\ key_of (heap_ s) a = Some key /\ shard_inv (mkLRU (capacity_ s) (usage_ s) t h) lru use [a] ext /\ same_info (heap_ s) h
    | None => t = table_ s /\ h = heap_ s /\ forall a, a ∈ lru ++ use -> key_of (heap_ s) a <> Some key
    end.
Proof.
  intros [Hh (bs & Ht & Hp & Hdis) Hu Hc]. cbn [app] in Hp.
  destruct (table_Remove_spec (table_ s) (heap_ s) bs key (hashf key) Ht) as (r & t & h & E & L & I & Hr); [intros a Ha; by apply (shard_keyed s lru use [] ext bs)|].
  exists r, t, h. split; [done|]. destruct r as [a|].
  - destruct Hr as (Hm & bs' & Ht' & Hp'). assert (Ha : a ∈ lru ++ use) by (rewrite <- Hp, Hp'; by left). split; [done|]. split; [eapply matches_key; [done| |done]; by eapply heap_ok_cached|]. split; [|done].
    split; cbn [heap_ table_ usage_ capacity_]; [by eapply heap_ok_ext| | |done].
    + exists bs'. split; [done|]. split; [cbn [app]; by rewrite <- Hp'|]. intros b c Hb Hcc. unfold key_of. rewrite !I. apply Hdis; rewrite Hp'; by right.
    + by rewrite Hu, (same_charge _ _ _ I).
  - destruct Hr as (Hno & -> & ->). split; [done|]. split; [done|]. intros a Ha Hk. apply (Hno a); [by rewrite Hp|]. eapply matches_key; [done| |done]. by eapply heap_ok_cached.
Qed.

(** What a client sees of the handles of [l] stays. *)
Definition same_entries (h h' : Heap V) (l : list nat) : Prop :=
  forall a, a ∈ l -> key_of h' a = key_of h a /\ value_of h' a = value_of h a /\ charge_of h' a = charge_of h a.

Lemma keeps_entries h h' l : keeps h h' l -> same_entries h h' l.
Proof. intros Hk a Ha. by destruct (Hk a Ha) as (_ & ? & ? & ? & _). Qed.

Lemma info_entries h h' l : same_info h h' -> same_entries h h' l.
Proof. intros I a _. unfold key_of, value_of, charge_of. by rewrite I. Qed.

Lemma entries_trans h1 h2 h3 l l' : same_entries h1 h2 l -> same_entries h2 h3 l' -> (forall a, a ∈ l' -> a ∈ l) -> same_entries h1 h3 l'.
Proof. intros H1 H2 Hs a Ha. destruct (H1 a (Hs a Ha)) as (<- & <- & <-). by apply H2. Qed.

Lemma entries_sub h h' l l' : same_entries h h' l -> (forall a, a ∈ l' -> a ∈ l) -> same_entries h h' l'.
Proof. intros H1 Hs a Ha. by apply H1, Hs. Qed.

Lemma shard_keys s lru use ext : shard_ok s lru use ext -> keys_distinct (heap_ s) (lru ++ use).
Proof. intros [_ (bs & _ & Hp & Hd) _ _]. cbn [app] in Hp. intros a b Ha Hb. apply Hd; by rewrite Hp. Qed.

Lemma elem_of_without_key h key l a : a ∈ without_key h key l <-> key_of h a <> Some key /\ a ∈ l.
Proof. unfold without_key. by rewrite list_elem_of_filter. Qed.

Lemma erase_key_spec s lru use ext key : shard_ok s lru use ext -> let lru' := without_key (heap_ s) key lru in let use' := without_key (heap_ s) key use in
  exists r t h s', table_Remove key (hashf key) (table_ s) (heap_ s) = Some (r, t, h) /\ FinishErase r (mkLRU (capacity_ s) (usage_ s) t h) = Some (bool_decide (is_Some r), s') /\
    shard_ok s' lru' use' ext /\ same_entries (heap_ s) (heap_ s') (lru' ++ use' ++ ext) /\ capacity_ s' = capacity_ s /\ (forall a, a ∈ lru ++ use -> key_of (heap_ s) a = Some key -> r = Some a).
Proof.
  intros Hs lru' use'. pose proof (shard_keys s lru use ext Hs) as Hdis. destruct (shard_Remove_spec s lru use ext key Hs) as (r & t & h & E & Hr). exists r, t, h. destruct r as [a|].
  - destruct Hr as (Ha & Hk & Hinv & I). destruct (FinishErase_spec _ lru use ext a Hinv) as (s' & E' & Hs' & Hkeep & Hcap & _). exists s'. split; [done|]. split; [done|].
    assert (E1 : lru' = without a lru) by (apply without_key_one; [done|]; intros b Hb Hkb; apply Hdis; [apply elem_of_app; by left|done|congruence]).
    assert (E2 : use' = without a use) by (apply without_key_one; [done|]; intros b Hb Hkb; apply Hdis; [apply elem_of_app; by right|done|congruence]). rewrite E1, E2.
    split; [done|]. split; [eapply entries_trans; [by apply info_entries|apply keeps_entries, Hkeep|done]|]. split; [done|]. intros b Hb Hkb. f_equal. apply Hdis; [done|done|congruence].
  - destruct Hr as (-> & -> & Hno). exists s. split; [done|]. split; [by destruct s|].
    assert (E1 : lru' = lru) by (apply without_key_none; intros b Hb; apply Hno, elem_of_app; by left). assert (E2 : use' = use) by (apply without_key_none; intros b Hb; apply Hno, elem_of_app; by right).
    rewrite E1, E2. split; [done|]. split; [by apply info_entries|]. split; [done|]. intros a Ha Hk. by destruct (Hno a Ha).
Qed.

Lemma shard_Erase_spec s lru use ext key : shard_ok s lru use ext -> let lru' := without_key (heap_ s) key lru in let use' := without_key (heap_ s) key use in
  exists s', shard_Erase key (hashf key) s = Some s' /\ shard_ok s' lru' use' ext /\ same_entries (heap_ s) (heap_ s') (lru' ++ use' ++ ext) /\ capacity_ s' = capacity_ s.
Proof.
  intros Hs lru' use'. destruct (erase_key_spec s lru use ext key Hs) as (r & t & h & s' & E & E' & Hs' & Hk & Hc & _). exists s'. unfold shard_Erase. rewrite E. cbn [mbind option_bind]. rewrite E'. done.
Qed.

Lemma without_key_head h key a l : key_of h a = Some key -> NoDup (a :: l) -> keys_distinct h (a :: l) -> without_key h key (a :: l) = l.
Proof.
  intros Ha Hn Hd. unfold without_key. rewrite filter_cons_False by tauto. apply without_key_none. intros b Hb Hk. apply NoDup_cons in Hn as [Hn _]. apply Hn.
  assert (b = a) as <-; [|done]. apply Hd; [by right|by left|congruence].
Qed.

Lemma erase_oldest_spec s a lru use ext : shard_ok s (a :: lru) use ext ->
  exists s', erase_oldest a s = Some s' /\ shard_ok s' lru use ext /\ same_entries (heap_ s) (heap_ s') (lru ++ use ++ ext) /\ capacity_ s' = capacity_ s.
Proof.
  intros Hs. pose proof (sv_heap _ _ _ _ _ Hs) as Hh. pose proof (shard_keys _ _ _ _ Hs) as Hdis. assert (Ha : a ∈ (a :: lru) ++ use) by by left.
  destruct (heap_ok_cached _ _ _ _ a Hh Ha) as [Hha [d Hd]]. destruct (ho_nodes _ _ _ _ Hh a d Hd Hha) as (Hc & Hr & _ & Hhash). apply Hc in Ha as Hin. rewrite Hin in Hr.
  rewrite (proj1 (refs_of_not_elem ext a)) in Hr by (apply (ho_idle _ _ _ _ Hh); by left). cbn in Hr.
  destruct (heap_ok_keyed _ _ _ _ a Hh Ha) as (d' & n & Hd' & Hn & Hna). assert (d' = d) as -> by congruence. destruct (read_data (heap_ s) a d Hd) as (e & He & Ed & _ & En & _).
  assert (Hk : key_of (heap_ s) a = Some (d_key d)) by (unfold key_of; by rewrite Hd).
  destruct (erase_key_spec s (a :: lru) use ext (d_key d) Hs) as (r & t & h & s' & E & E' & Hs' & Hkeep & Hcap & Hra). pose proof (Hra a Ha Hk) as ->.
  unfold erase_oldest. rewrite He. cbn [mbind option_bind]. rewrite Ed, (proj2 (Z.eqb_eq _ 1)) by lia. cbn [negb]. unfold handle_key. rewrite <- En, Hn. cbn [mbind option_bind].
  rewrite (proj2 (Nat.eqb_neq n a)) by done. cbn [mbind option_bind]. rewrite Ed, Hhash, E. cbn [mbind option_bind]. rewrite E'. cbn [mbind option_bind]. rewrite bool_decide_true by (by eexists). cbn [fst snd].
  pose proof (ho_nodup _ _ _ _ Hh) as Hnd. do 2 apply NoDup_cons in Hnd as [_ Hnd].
  assert (El : without_key (heap_ s) (d_key d) (a :: lru) = lru) by (apply without_key_head; [done|by apply NoDup_app in Hnd as (? & _)|intros x y Hx Hy; apply Hdis; apply elem_of_app; by left]).
  assert (Eu : without_key (heap_ s) (d_key d) use = use).
  { apply without_key_none. intros b Hb Hkb. cbn [app] in Hnd. apply NoDup_cons in Hnd as [Hnd _]. apply Hnd, elem_of_app. right. assert (b = a) as <-; [|done]. apply Hdis; [apply elem_of_app; by right|by left|congruence]. }
  rewrite El, Eu in Hs', Hkeep.
  by exists s'.
Qed.

(** *** Eviction *)

Lemma lru_first s lru use gone ext : shard_inv s lru use gone ext -> exists d, heap_ s !! lru_ = Some d /\ h_next d = Some (default lru_ (head lru)).
Proof.
  intros [[Hl _ _ _ _ _ _] _ _ _]. apply nx_read. destruct lru as [|a lru]; cbn [head from_option id]; [apply (Hl lru_ lru_)|apply (Hl lru_ a)]; by left.
Qed.

Lemma oldest_is_handle s a lru use ext : shard_ok s (a :: lru) use ext -> (a =? lru_)%nat = false.
Proof. intros [Hh _ _ _]. destruct (heap_ok_cached _ _ _ _ a Hh) as [[Ha _] _]; [by left|]. by apply Nat.eqb_neq. Qed.

Lemma entries_charge h h' l l' : same_entries h h' l' -> (forall a, a ∈ l -> a ∈ l') -> total_charge h' l = total_charge h l.
Proof.
  intros He. induction l as [|a l IH]; intros Hs; [done|]. cbn [total_charge foldr]. destruct (He a) as (_ & _ & ->); [apply Hs; by left|]. f_equal. apply IH. intros b Hb. apply Hs. by right.
Qed.

(** The oldest unused entries go, and no more of them than necessary. *)
Lemma evict_spec lru : forall fuel s use ext, shard_ok s lru use ext -> (length lru < fuel)%nat ->
  exists n s', evict fuel s = Some s' /\ shard_ok s' (drop n lru) use ext /\ same_entries (heap_ s) (heap_ s') (drop n lru ++ use ++ ext) /\ capacity_ s' = capacity_ s /\
    (usage_ s' <= capacity_ s \/ drop n lru = []) /\ (forall i, (i < n)%nat -> capacity_ s < usage_ s - total_charge (heap_ s) (take i lru)).
Proof.
  induction lru as [|a lru IH]; intros [|fuel] s use ext Hs Hf; cbn [length] in Hf; try lia; cbn [evict]; destruct (lru_first _ _ _ _ _ Hs) as (d & -> & En); cbn [mbind option_bind]; rewrite En; cbn [mbind option_bind from_option id head].
  - rewrite Nat.eqb_refl, andb_false_r. exists 0%nat, s. split; [done|]. split; [done|]. split; [done|]. split; [done|]. split; [by right|lia].
  - rewrite (oldest_is_handle s a lru use ext Hs). cbn [negb]. rewrite andb_true_r. destruct (Z.ltb_spec (capacity_ s) (usage_ s)) as [Hu|Hu].
    2: { exists 0%nat, s. split; [done|]. split; [done|]. split; [done|]. split; [done|]. split; [by left|lia]. }
    destruct (erase_oldest_spec s a lru use ext Hs) as (s1 & -> & Hs1 & He1 & Hc1). cbn [mbind option_bind].
    destruct (IH fuel s1 use ext Hs1 ltac:(lia)) as (n & s2 & -> & Hs2 & He2 & Hc2 & Hstop & Hnec). rewrite Hc1 in *. exists (S n), s2. cbn [drop].
    assert (Hsub : forall b, b ∈ drop n lru ++ use ++ ext -> b ∈ lru ++ use ++ ext) by (intros b; rewrite !elem_of_app; intros [Hb|Hb]; [left; by eapply elem_of_submseteq, sublist_submseteq, sublist_drop|by right]).
    split; [done|]. split; [done|]. split; [by eapply entries_trans|]. split; [done|]. split; [done|].
    assert (Eu : usage_ s1 = usage_ s - charge_of (heap_ s) a).
    { rewrite (sv_usage _ _ _ _ _ Hs1), (sv_usage _ _ _ _ _ Hs). cbn [app total_charge foldr]. rewrite (entries_charge _ _ (lru ++ use) _ He1); [unfold total_charge; lia|].
      intros b. rewrite !elem_of_app. tauto. }
    intros [|i] Hi; cbn [take total_charge foldr]; [lia|]. specialize (Hnec i ltac:(lia)). rewrite (entries_charge _ _ (take i lru) _ He1) in Hnec; [unfold total_charge in *; lia|].
    intros b Hb. apply elem_of_app. left. by eapply elem_of_submseteq, sublist_submseteq, sublist_take.
Qed.

Lemma Prune_spec lru : forall fuel s use ext, shard_ok s lru use ext -> (length lru < fuel)%nat ->
  exists s', Prune_loop fuel s = Some s' /\ shard_ok s' [] use ext /\ same_entries (heap_ s) (heap_ s') (use ++ ext) /\ capacity_ s' = capacity_ s.
Proof.
  induction lru as [|a lru IH]; intros [|fuel] s use ext Hs Hf; cbn [length] in Hf; try lia; cbn [Prune_loop]; destruct (lru_first _ _ _ _ _ Hs) as (d & -> & En); cbn [mbind option_bind]; rewrite En; cbn [mbind option_bind from_option id head].
  - rewrite Nat.eqb_refl. by exists s.
  - rewrite (oldest_is_handle s a lru use ext Hs). destruct (erase_oldest_spec s a lru use ext Hs) as (s1 & -> & Hs1 & He1 & Hc1). cbn [mbind option_bind].
    destruct (IH fuel s1 use ext Hs1 ltac:(lia)) as (s2 & -> & Hs2 & He2 & Hc2). exists s2. split; [done|]. split; [done|]. split; [|congruence]. eapply entries_trans; [exact He1|done|]. intros b. rewrite !elem_of_app. tauto.
Qed.

Lemma lru_fuel s lru use gone ext : shard_inv s lru use gone ext -> (length lru < size (heap_ s))%nat.
Proof.
  intros [Hh _ _ _]. apply (nodup_size (heap_ s) (lru_ :: lru)); [by eapply heap_ok_lru_nodup|]. intros a Ha. eapply ring_info; [apply (ho_lru _ _ _ _ Hh)|done].
Qed.

(** *** Insertion *)

Definition new_handle (key : bytes) (v : V) (charge : Z) (caching : bool) : HandleData V := mkData (Some v) charge key caching (if caching then 2 else 1) (hashf key).

Lemma new_views (h : Heap V) a d : h !! a = None -> (forall b, b <> a -> nh (<[a := mkHandle None None None d]> h) b = nh h b /\ nx (<[a := mkHandle None None None d]> h) b = nx h b /\ pv (<[a := mkHandle None None None d]> h) b = pv h b) /\
  (forall b, info (<[a := mkHandle None None None d]> h) b = if decide (b = a) then Some d else info h b).
Proof.
  intros Ha. unfold nh, nx, pv, info. split; intros b; [intros Hb; by rewrite lookup_insert_ne|]. destruct (decide (b = a)) as [->|Hb]; [by rewrite lookup_insert_eq|by rewrite lookup_insert_ne].
Qed.

Lemma new_rings (h : Heap V) lru use ext a d : heap_ok h lru use ext -> h !! a = None -> let h0 := <[a := mkHandle None None None d]> h in
  ring_at (nx h0) (pv h0) lru_ lru /\ ring_at (nx h0) (pv h0) in_use_ use /\ a ∉ lru ++ use /\ is_Some (info h lru_) /\ is_Some (info h in_use_).
Proof.
  intros Hh Ha h0. destruct (new_views h a d Ha) as [Hv _]. pose proof Hh as [Hl Hu _ _ _ _ _].
  assert (H0 : forall b, b ∈ lru_ :: lru -> is_Some (info h b)) by (intros b; by apply ring_info). assert (H1 : forall b, b ∈ in_use_ :: use -> is_Some (info h b)) by (intros b; by apply ring_info).
  assert (Hne : forall b, is_Some (info h b) -> b <> a) by (intros b [e He]%info_Some ->; congruence).
  split; [eapply ring_ext; [exact Hl|]; intros b Hb%H0%Hne; by apply Hv|]. split; [eapply ring_ext; [exact Hu|]; intros b Hb%H1%Hne; by apply Hv|].
  split; [|split; [apply H0|apply H1]; by left]. intros [Hx|Hx]%elem_of_app; apply (Hne a); [apply H0|done|apply H1|done]; by right.
Qed.

(** The new handle is linked, and not yet in the table. *)
Lemma insert_link_spec s lru use ext a key v charge : shard_ok s lru use ext -> heap_ s !! a = None -> is_handle a -> 0 < capacity_ s -> let d := new_handle key v charge true in
  exists h1, LRU_Append in_use_ a (<[a := mkHandle None None None d]> (heap_ s)) = Some h1 /\ shard_inv (mkLRU (capacity_ s) (usage_ s + charge) (table_ s) h1) lru (use ++ [a]) [a] (a :: ext) /\
    (forall b, info h1 b = if decide (b = a) then Some d else info (heap_ s) b).
Proof.
  intros [Hh (bs & Ht & Hp & Hd) Hu Hc] Ha Hha Hcap d. cbn [app] in Hp. destruct (new_rings _ lru use ext a d Hh Ha) as (Hl0 & Hu0 & Hnew & _). destruct (new_views _ a d Ha) as [Hv Hi].
  pose proof (ho_nodup _ _ _ _ Hh) as Hn. destruct (append_spec (<[a := mkHandle None None None d]> (heap_ s)) lru_ in_use_ lru a use) as (h1 & E & Hl1 & Hu1 & K1 & I1); [|done|done|rewrite Hi, decide_True by done; by eexists|].
  { rewrite <- Permutation_middle. assert (Hx : NoDup (a :: lru_ :: in_use_ :: lru ++ use)) by (constructor; [intros [?|[?|?]%elem_of_cons]%elem_of_cons; by destruct Hha|done]). by rewrite (perm_swap lru_ a), (perm_swap in_use_ a) in Hx. }
  assert (Hi1 : forall b, info h1 b = if decide (b = a) then Some d else info (heap_ s) b) by (intros b; by rewrite I1, Hi).
  assert (Hnone : info (heap_ s) a = None) by (unfold info; by rewrite Ha).
  assert (Hk : keeps (heap_ s) h1 (lru ++ use)).
  { intros b Hb. assert (b <> a) by congruence. apply keeps_same; [rewrite K1; by apply Hv|by rewrite Hi1, decide_False]. }
  assert (Hkb : keeps (heap_ s) h1 (concat bs)) by (eapply keeps_sub; [exact Hk|]; intros b Hb; by rewrite <- Hp).
  exists h1. split; [done|]. split; [|done]. split; cbn [heap_ table_ usage_ capacity_].
  - by apply (heap_ok_new (heap_ s) h1 lru use ext (use ++ [a]) a d).
  - exists bs. split; [by eapply table_rep_keeps|]. split; [|by eapply keys_distinct_keeps]. cbn [app]. rewrite Hp, app_assoc. apply Permutation_cons_append.
  - rewrite app_assoc, <- Permutation_cons_append. cbn [total_charge foldr]. unfold charge_of at 1. rewrite Hi1, decide_True by done. fold (total_charge h1 (lru ++ use)). rewrite (keeps_charge _ _ _ Hk), Hu. cbn. lia.
  - lia.
Qed.

(** It enters the table; an older handle with its key leaves it. *)
Lemma insert_table_spec s lru use ext a key : shard_inv s lru use [a] ext -> key_of (heap_ s) a = Some key ->
  exists old t h, table_Insert a (table_ s) (heap_ s) = Some (old, t, h) /\ same_info (heap_ s) h /\ shard_inv (mkLRU (capacity_ s) (usage_ s) t h) lru use (option_list old) ext /\
    (forall b, old = Some b -> b <> a /\ key_of (heap_ s) b = Some key) /\ (forall b, b ∈ lru ++ use -> b <> a -> key_of (heap_ s) b = Some key -> old = Some b).
Proof.
  intros [Hh (bs & Ht & Hp & Hdis) Hu Hc] Hkey. assert (Ha : a ∈ lru ++ use) by (rewrite <- Hp; by left). destruct (heap_ok_cached _ _ _ _ a Hh Ha) as [Hha [d Hd]].
  assert (Hn : NoDup (a :: concat bs)) by (change (a :: concat bs) with ([a] ++ concat bs); rewrite Hp; pose proof (ho_nodup _ _ _ _ Hh) as Hn; by do 2 apply NoDup_cons in Hn as [_ Hn]).
  apply NoDup_cons in Hn as [Hab Hn]. assert (Hsub : forall b, b ∈ concat bs -> b ∈ lru ++ use) by (intros b Hb; rewrite <- Hp; apply elem_of_app; by right).
  destruct (table_Insert_spec (table_ s) (heap_ s) bs a d Ht) as (old & t & h & bs' & E & L & I & Ht' & Hold); [intros b Hb; by apply (shard_keyed s lru use [a] ext bs)|by eapply heap_ok_keyed|done|done|].
  assert (Hdk : d_key d = key) by (unfold key_of in Hkey; rewrite Hd in Hkey; by injection Hkey). rewrite (proj2 (proj2 (proj2 (ho_nodes _ _ _ _ Hh a d Hd Hha)))), Hdk in Hold.
  assert (Hm : forall b, b ∈ concat bs -> matches (heap_ s) key (hashf key) b <-> key_of (heap_ s) b = Some key) by (intros b Hb; eapply matches_key; [done|]; eapply heap_ok_cached; [done|by apply Hsub]).
  assert (Hcase : forall b, b ∈ lru ++ use -> b <> a -> b ∈ concat bs) by (intros b; rewrite <- Hp; cbn [app]; intros [->|Hb]%elem_of_cons; done).
  assert (Hinv : forall g, g ++ concat bs' ≡ₚ lru ++ use -> keys_distinct (heap_ s) (concat bs') -> shard_inv (mkLRU (capacity_ s) (usage_ s) t h) lru use g ext).
  { intros g Hg Hdd. split; cbn [heap_ table_ usage_ capacity_]; [by eapply heap_ok_ext| |by rewrite (same_charge _ _ _ I)|done]. exists bs'. split; [done|]. split; [done|].
    intros b c Hb Hcc. unfold key_of. rewrite !I. by apply Hdd. }
  exists old, t, h. split; [done|]. split; [done|]. destruct old as [o|]; cbn [option_list].
  - destruct Hold as (Hmo & Ho & Hp'). apply Hm in Hmo; [|done]. assert (Hoa : o <> a) by congruence. split; [|split; [by intros b [= <-]|intros b Hb Hba Hkb; f_equal; apply Hdis; [done|by apply Hcase|congruence]]].
    apply Hinv; [cbn [app]; by rewrite Hp'|]. assert (Hno : forall b, b ∈ concat bs' -> b = a \/ b ∈ concat bs /\ key_of (heap_ s) b <> Some key).
    { intros b Hb. assert (Hbo : b <> o). { intros ->. assert (Hx : NoDup (o :: concat bs')) by (rewrite Hp'; by constructor). by apply NoDup_cons in Hx as [? _]. }
      assert (Hb' : b ∈ a :: concat bs) by (rewrite <- Hp'; by right). apply elem_of_cons in Hb' as [->|Hb']; [by left|right]. split; [done|]. intros Hx. apply Hbo, Hdis; [done|done|congruence]. }
    intros b c [->|[Hb Hkb]]%Hno [->|[Hcc Hkc]]%Hno Ek; [done|congruence|congruence|by apply Hdis].
  - destruct Hold as (Hno & Hp'). split; [|split; [done|]]. 2: { intros b Hb Hba Hkb. destruct (Hno b (Hcase b Hb Hba)). by apply Hm; [apply Hcase|]. }
    apply Hinv; [cbn [app]; by rewrite Hp'|]. intros b c. rewrite Hp'. intros [->|Hb]%elem_of_cons [->|Hcc]%elem_of_cons Ek; [done| | |by apply Hdis].
    + destruct (Hno c Hcc). apply Hm; [done|congruence].
    + destruct (Hno b Hb). apply Hm; [done|congruence].
Qed.

(** The entry of a handle. *)
Definition entry (h : Heap V) (a : nat) (key : bytes) (v : V) (charge : Z) : Prop := key_of h a = Some key /\ value_of h a = Some v /\ charge_of h a = charge.

Lemma insert_cached_spec s lru use ext a key v charge : shard_ok s lru use ext -> heap_ s !! a = None -> is_handle a -> 0 < capacity_ s ->
  let lru' := without_key (heap_ s) key lru in let use' := without_key (heap_ s) key use in
  exists h1 old t h2 f s', LRU_Append in_use_ a (<[a := mkHandle None None None (new_handle key v charge true)]> (heap_ s)) = Some h1 /\ table_Insert a (table_ s) h1 = Some (old, t, h2) /\
    FinishErase old (mkLRU (capacity_ s) (usage_ s + charge) t h2) = Some (f, s') /\ shard_ok s' lru' (use' ++ [a]) (a :: ext) /\
    same_entries (heap_ s) (heap_ s') (lru' ++ use' ++ ext) /\ entry (heap_ s') a key v charge /\ capacity_ s' = capacity_ s.
Proof.
  intros Hs Ha Hha Hcap lru' use'. destruct (insert_link_spec s lru use ext a key v charge Hs Ha Hha Hcap) as (h1 & E1 & Hs1 & I1).
  assert (Hka : key_of h1 a = Some key) by (unfold key_of; by rewrite I1, decide_True).
  destruct (insert_table_spec _ _ _ _ _ key Hs1 Hka) as (old & t & h2 & E2 & I2 & Hs2 & Hold & Hall). cbn [heap_ capacity_ usage_ table_] in *.
  assert (Hnone : info (heap_ s) a = None) by (unfold info; by rewrite Ha). pose proof Hs as [Hh _ _ _].
  assert (Hnew : forall b, b ∈ lru \/ b ∈ use \/ b ∈ ext -> b <> a).
  { intros b Hb ->. assert (Hx : is_Some (info (heap_ s) a)); [|rewrite Hnone in Hx; by destruct Hx]. rewrite (assoc (A := Prop) or), <- elem_of_app in Hb. destruct Hb as [Hb|Hb]; [by eapply heap_ok_cached|by eapply (ho_ext _ _ _ _ Hh)]. }
  assert (Hent : forall b, b <> a -> key_of h1 b = key_of (heap_ s) b) by (intros b Hb; unfold key_of; by rewrite I1, decide_False).
  assert (He : same_entries (heap_ s) h2 (lru ++ use ++ ext)).
  { intros b Hb. rewrite !elem_of_app in Hb. apply Hnew in Hb. unfold key_of, value_of, charge_of. by rewrite I2, I1, decide_False. }
  assert (Hea : entry h2 a key v charge) by (unfold entry, key_of, value_of, charge_of; by rewrite I2, I1, decide_True).
  exists h1, old, t, h2. destruct old as [o|]; cbn [option_list] in Hs2.
  - destruct (Hold o eq_refl) as [Hoa Hko]. rewrite (Hent o Hoa) in Hko. destruct (FinishErase_spec _ _ _ _ o Hs2) as (s' & E3 & Hs' & Hk & Hc & _). exists true, s'. cbn [heap_ capacity_] in *.
    assert (E4 : lru' = without o lru) by (apply without_key_one; [done|]; intros b Hb Hkb; assert (Hba : b <> a) by (apply Hnew; by left); rewrite <- (Hent b Hba) in Hkb; assert (Some o = Some b) by (apply Hall; [apply elem_of_app; by left|done..]); congruence).
    assert (E5 : use' = without o use) by (apply without_key_one; [done|]; intros b Hb Hkb; assert (Hba : b <> a) by (apply Hnew; right; by left); rewrite <- (Hent b Hba) in Hkb; assert (Some o = Some b) by (apply Hall; [rewrite !elem_of_app; tauto|done..]); congruence).
    assert (E6 : without o (use ++ [a]) = use' ++ [a]) by (rewrite E5; unfold without; by rewrite filter_app, filter_cons_True by congruence). rewrite E6, <- E4 in Hs', Hk. split; [done|]. split; [done|]. split; [done|]. split; [done|].
    apply keeps_entries in Hk. split; [|split; [|done]].
    + eapply entries_trans; [exact He|eapply entries_sub; [exact Hk|]|]; intros b; [rewrite !elem_of_app, !elem_of_cons; tauto|]. rewrite E4, E5, !elem_of_app, !elem_of_without. tauto.
    + destruct (Hk a) as (K1 & K2 & K3); [rewrite !elem_of_app, list_elem_of_singleton; tauto|]. destruct Hea as (A1 & A2 & A3). split; [congruence|]. split; congruence.
  - exists false. eexists. split; [done|]. split; [done|]. split; [done|]. cbn [heap_ capacity_].
    assert (E4 : lru' = lru) by (apply without_key_none; intros b Hb Hkb; assert (Hba : b <> a) by (apply Hnew; by left); rewrite <- (Hent b Hba) in Hkb; assert (None = Some b) by (apply Hall; [apply elem_of_app; by left|done..]); done).
    assert (E5 : use' = use) by (apply without_key_none; intros b Hb Hkb; assert (Hba : b <> a) by (apply Hnew; right; by left); rewrite <- (Hent b Hba) in Hkb; assert (None = Some b) by (apply Hall; [rewrite !elem_of_app; tauto|done..]); done).
    by rewrite E4, E5.
Qed.

(** After an insertion into a shard that caches: an older entry of the key is
    gone, the new one is in use, and of the unused ones the oldest have left,
    as many as the capacity requires and no more. *)
Definition inserted (s s' : LRUCache V) (lru use lru' use' : list nat) (a : nat) (key : bytes) (charge : Z) : Prop :=
  let lru1 := without_key (heap_ s) key lru in let use1 := without_key (heap_ s) key use in
  exists n, lru' = drop n lru1 /\ use' = use1 ++ [a] /\ (usage_ s' <= capacity_ s \/ lru' = []) /\
    forall i, (i < n)%nat -> capacity_ s < charge + total_charge (heap_ s) (drop i lru1 ++ use1).

Lemma take_drop_charge h i l : total_charge h (take i l) + total_charge h (drop i l) = total_charge h l.
Proof. revert l. induction i as [|i IH]; intros [|a l]; cbn [take drop total_charge foldr]; try done. specialize (IH l). unfold total_charge in *. lia. Qed.

Lemma total_charge_app h l l' : total_charge h (l ++ l') = total_charge h l + total_charge h l'.
Proof. induction l as [|a l IH]; [done|]. cbn [app total_charge foldr]. unfold total_charge in *. lia. Qed.

Lemma shard_Insert_spec s lru use ext a key v charge : shard_ok s lru use ext -> heap_ s !! a = None -> is_handle a ->
  exists s' lru' use', shard_Insert a key (hashf key) v charge s = Some s' /\ shard_ok s' lru' use' (a :: ext) /\ entry (heap_ s') a key v charge /\ capacity_ s' = capacity_ s /\
    same_entries (heap_ s) (heap_ s') (lru' ++ without a use' ++ ext) /\ (forall b, b ∈ lru' -> b ∈ lru /\ key_of (heap_ s) b <> Some key) /\
    (forall b, b ∈ use' -> b = a \/ b ∈ use /\ key_of (heap_ s) b <> Some key) /\ (0 < capacity_ s -> inserted s s' lru use lru' use' a key charge).
Proof.
  intros Hs Ha Hha. unfold shard_Insert. destruct (Z.ltb_spec 0 (capacity_ s)) as [Hcap|Hcap].
  - destruct (insert_cached_spec s lru use ext a key v charge Hs Ha Hha Hcap) as (h1 & old & t & h2 & f & s1 & E1 & E2 & E3 & Hs1 & He1 & Hea & Hc1). unfold new_handle in E1. rewrite E1. cbn [mbind option_bind]. rewrite E2. cbn [mbind option_bind]. rewrite E3. cbn [mbind option_bind fst snd].
    set (lru1 := without_key (heap_ s) key lru) in *. set (use1 := without_key (heap_ s) key use) in *.
    destruct (evict_spec lru1 (size (heap_ s1)) s1 _ _ Hs1 (lru_fuel _ _ _ _ _ Hs1)) as (n & s' & -> & Hs' & He' & Hc' & Hstop & Hnec). rewrite Hc1 in *. exists s', (drop n lru1), (use1 ++ [a]).
    assert (Hdrop : forall b, b ∈ drop n lru1 -> b ∈ lru1) by (intros b Hb; by eapply elem_of_submseteq, sublist_submseteq, sublist_drop).
    assert (Hau : a ∉ use1) by (intros [_ Hx]%elem_of_without_key; assert (Hy : a ∈ lru ++ use) by (apply elem_of_app; by right); apply (heap_ok_cached _ _ _ _ a (sv_heap _ _ _ _ _ Hs)) in Hy as [_ [d Hd]]; unfold info in Hd; by rewrite Ha in Hd).
    assert (Eu : without a (use1 ++ [a]) = use1) by (unfold without; rewrite filter_app, filter_cons_False, filter_nil, app_nil_r by tauto; by apply without_none).
    split; [done|]. split; [done|]. split; [|split; [done|split; [|split; [|split]]]].
    + destruct (He' a) as (K1 & K2 & K3); [rewrite !elem_of_app, list_elem_of_singleton; tauto|]. destruct Hea as (A1 & A2 & A3). split; [congruence|]. split; congruence.
    + rewrite Eu. eapply entries_trans; [exact He1|eapply entries_sub; [exact He'|]|]; intros b; rewrite !elem_of_app, ?elem_of_cons; [tauto|]. intros [Hb|Hb]; [left; by apply Hdrop|by right].
    + intros b [? ?]%Hdrop%elem_of_without_key. done.
    + intros b [[? ?]%elem_of_without_key| ->%list_elem_of_singleton]%elem_of_app; [by right|by left].
    + intros _. exists n. split; [done|]. split; [done|]. split; [done|]. intros i Hi. specialize (Hnec i Hi). rewrite (sv_usage _ _ _ _ _ Hs1), !total_charge_app in Hnec. rewrite total_charge_app. fold lru1 use1.
      pose proof (take_drop_charge (heap_ s1) i lru1). assert (El : forall l, (forall b, b ∈ l -> b ∈ lru1 \/ b ∈ use1) -> total_charge (heap_ s1) l = total_charge (heap_ s) l).
      { intros l Hl. apply (entries_charge _ _ _ _ He1). intros b Hb%Hl. rewrite !elem_of_app. tauto. }
      assert (total_charge (heap_ s1) [a] = charge) by (cbn [total_charge foldr]; destruct Hea as (_ & _ & ->); lia).
      rewrite <- (El (drop i lru1)), <- (El use1); [lia|by right|]. intros b Hb. left. by eapply elem_of_submseteq, sublist_submseteq, sublist_drop.
  - pose proof (sv_capacity _ _ _ _ _ Hs Hcap) as Enil. apply app_eq_nil in Enil as [-> ->]. cbn [mbind option_bind]. pose proof Hs as [Hh (bs & Ht & Hp & Hd) Hu _]. set (d := new_handle key v charge false).
    destruct (new_rings _ [] [] ext a d Hh Ha) as (Hl0 & Hu0 & _). destruct (new_views _ a d Ha) as [Hv Hi]. assert (Hnone : info (heap_ s) a = None) by (unfold info; by rewrite Ha).
    cbn [app] in Hp. apply Permutation_nil_r in Hp. assert (Hs' : shard_ok (with_heap (<[a := mkHandle None None None d]> (heap_ s)) s) [] [] (a :: ext)).
    { split; cbn [with_heap heap_ table_ usage_ capacity_]; [by apply (heap_ok_new (heap_ s) _ [] [] ext [] a d)| |done|done]. exists bs. split; [eapply table_rep_keeps; [exact Ht|]; rewrite Hp; by intros b ?%elem_of_nil|]. rewrite Hp. split; [done|]. by intros b c ?%elem_of_nil. }
    destruct (evict_spec [] (size (heap_ (with_heap (<[a := mkHandle None None None d]> (heap_ s)) s))) _ _ _ Hs' (lru_fuel _ _ _ _ _ Hs')) as (n & s' & E & Hs2 & He & Hc & _). rewrite drop_nil in *.
    exists s', [], []. split; [exact E|]. split; [done|]. cbn [with_heap heap_ capacity_] in He, Hc. split; [|split; [done|split; [|split; [by intros b ?%elem_of_nil|split; [by intros b ?%elem_of_nil|lia]]]]].
    + destruct (He a) as (K1 & K2 & K3); [by left|]. unfold entry. rewrite K1, K2, K3. unfold key_of, value_of, charge_of. by rewrite Hi, decide_True.
    + intros b Hb. destruct (He b) as (-> & -> & ->); [by right|]. unfold key_of, value_of, charge_of. rewrite Hi, decide_False; [done|]. intros ->. by destruct (ho_ext _ _ _ _ Hh a Hb) as [[x Hx] _]; rewrite Hnone in Hx.
Qed.

(** *** Construction and destruction *)

Lemma new_LRUCache_spec capacity : 0 <= capacity -> exists s, new_LRUCache = Some s /\ shard_ok (SetCapacity capacity s) [] [] [] /\ dom (heap_ s) = {[lru_; in_use_]}.
Proof.
  intros Hc. unfold new_LRUCache, new_HandleTable. set (h := {[lru_ := dummy_head lru_; in_use_ := dummy_head in_use_]} : Heap V).
  destruct (Resize_spec (mkTable 0 0 []) h []) as (t & h' & bs & -> & Ht & Hp & L & I); [constructor|constructor|done|by intros a ?%elem_of_nil|]. cbn [mbind option_bind fst snd].
  exists (mkLRU 0 0 t h'). split; [done|]. apply Permutation_nil_r in Hp. split; [|cbn [heap_]; rewrite (info_dom _ _ I); unfold h; set_solver]. split; cbn [SetCapacity heap_ table_ usage_ capacity_]; [|exists bs; rewrite Hp; split; [done|]; split; [done|by intros a b ?%elem_of_nil]|done|done].
  apply (heap_ok_ext h); [|done|done]. split; try by intros a ?%elem_of_nil.
  - intros a b Hab. by apply list_elem_of_singleton in Hab as [= -> ->].
  - intros a b Hab. by apply list_elem_of_singleton in Hab as [= -> ->].
  - constructor; [by intros ?%list_elem_of_singleton|]. apply NoDup_singleton.
  - intros a d Hd [H0 H1]. unfold info, h in Hd. rewrite lookup_insert_ne, lookup_singleton_ne in Hd by done. done.
Qed.

Fixpoint path (nx : nat -> option nat) (a : nat) (l : list nat) (z : nat) : Prop :=
  match l with
  | [] => a = z
  | b :: l => a = b /\ exists n, nx b = Some n /\ path nx n l z
  end.

Lemma ring_path nx pv z : forall l s, (forall a b, (a, b) ∈ pairs (s :: l ++ [z]) -> nx a = Some b /\ pv b = Some a) -> exists n, nx s = Some n /\ path nx n l z.
Proof.
  induction l as [|a l IH]; intros s Hr; [exists z; split; [apply (Hr s z); by left|done]|]. exists a. split; [apply (Hr s a); by left|]. split; [done|]. apply IH. intros b c Hb. apply Hr. by right.
Qed.

Lemma path_ext nx nx' z l : forall a, path nx a l z -> (forall b, b ∈ l -> nx' b = nx b) -> path nx' a l z.
Proof.
  induction l as [|b l IH]; intros a; [done|]. intros [-> (n & Hn & Hp)] He. split; [done|]. exists n. rewrite He by (by left). split; [done|]. apply IH; [done|]. intros c Hc. apply He. by right.
Qed.

Lemma free_spec (h : Heap V) a d : info h a = Some d -> d_refs d = 1 -> exists h1, set_data (with_in_cache false) a h = Some h1 /\ Unref a h1 = Some (delete a h).
Proof.
  intros Hi Er. destruct (read_data h a d Hi) as (e & He & Ed & _). unfold set_data, update. rewrite He. cbn [mbind option_bind]. eexists. split; [done|].
  unfold Unref. rewrite lookup_insert_eq. cbn [mbind option_bind h_data]. rewrite Ed. cbn [with_in_cache d_refs d_in_cache]. rewrite Er. cbn [Z.leb Z.compare].
  unfold set_data, update. rewrite lookup_insert_eq. cbn [mbind option_bind]. by rewrite insert_insert_eq, delete_insert_eq.
Qed.

Lemma destroy_spec l : forall fuel a (h : Heap V), path (nx h) a l lru_ -> NoDup l -> lru_ ∉ l -> (length l < fuel)%nat -> (forall b, b ∈ l -> exists d, info h b = Some d /\ d_refs d = 1 /\ d_in_cache d = true) ->
  exists h', destroy_loop fuel a h = Some h' /\ forall b, h' !! b = if decide (b ∈ l) then None else h !! b.
Proof.
  induction l as [|b l IH]; intros [|fuel] a h; cbn [path length]; intros Hp Hn Hl Hf Hd; try lia; cbn [destroy_loop].
  { subst a. rewrite Nat.eqb_refl. exists h. done. }
  destruct Hp as [-> (n & Hnx & Hp)]. apply NoDup_cons in Hn as [Hb Hn]. rewrite not_elem_of_cons in Hl. rewrite (proj2 (Nat.eqb_neq b lru_)) by (destruct Hl; congruence).
  destruct (Hd b ltac:(by left)) as (d & Hi & Er & Ec). destruct (read_data h b d Hi) as (e & He & Ed & _ & Een & _). rewrite He. cbn [mbind option_bind]. rewrite <- Een, Hnx. cbn [mbind option_bind]. rewrite Ed, Ec, Er. cbn [negb Z.eqb Pos.eqb].
  destruct (free_spec h b d Hi Er) as (h1 & -> & E1). cbn [mbind option_bind]. rewrite E1. cbn [mbind option_bind].
  destruct (IH fuel n (delete b h)) as (h' & E & Hh').
  - eapply path_ext; [exact Hp|]. intros c Hc. unfold nx. rewrite lookup_delete_ne; [done|congruence].
  - done.
  - tauto.
  - lia.
  - intros c Hc. destruct (Hd c ltac:(by right)) as (dc & Hdc). exists dc. unfold info. rewrite lookup_delete_ne by congruence. done.
  - exists h'. split; [exact E|]. intros c. rewrite Hh'. destruct (decide (c = b)) as [->|Hcb]; [rewrite (decide_False (P := b ∈ l)), decide_True by (done || by left); by rewrite lookup_delete_eq|].
    rewrite lookup_delete_ne by done. destruct (decide (c ∈ l)); [rewrite decide_True by (by right); done|]. rewrite decide_False; [done|]. rewrite elem_of_cons. tauto.
Qed.

(** When nobody holds a handle, the destructor frees them all. *)
Lemma delete_LRUCache_spec s lru use : shard_ok s lru use [] -> exists h, delete_LRUCache s = Some h /\ dom h = {[lru_; in_use_]}.
Proof.
  intros Hs. pose proof (sv_heap _ _ _ _ _ Hs) as Hh. pose proof Hh as [Hl Hu Hn Hnodes Hext Hidle Hbusy]. assert (use = []) as ->.
  { destruct use as [|a use]; [done|]. assert (Hx : a ∈ []) by (apply Hbusy; by left). by apply elem_of_nil in Hx. }
  unfold delete_LRUCache. destruct (nx_read (heap_ s) in_use_ in_use_) as (e & -> & En); [apply (Hu in_use_ in_use_); by left|]. cbn [mbind option_bind]. rewrite En. cbn [mbind option_bind]. rewrite Nat.eqb_refl. cbn [negb].
  destruct (ring_path (nx (heap_ s)) (pv (heap_ s)) lru_ lru lru_ Hl) as (n & Hnx & Hpath). destruct (nx_read _ _ _ Hnx) as (e0 & -> & En0). cbn [mbind option_bind]. rewrite En0. cbn [mbind option_bind].
  pose proof (heap_ok_lru_nodup _ _ _ _ Hh) as Hnl. apply NoDup_cons in Hnl as [H0 Hnl].
  destruct (destroy_spec lru (size (heap_ s)) n (heap_ s) Hpath Hnl H0 (lru_fuel _ _ _ _ _ Hs)) as (h & E & Hd).
  - intros b Hb. assert (Hbl : b ∈ lru ++ []) by (by rewrite app_nil_r). destruct (heap_ok_cached _ _ _ _ b Hh Hbl) as [Hhb [d Hdb]]. exists d. destruct (Hnodes b d Hdb Hhb) as (Hc & Hr & _). rewrite (proj2 Hc Hbl) in Hr. by apply Hc in Hbl.
  - exists h. split; [exact E|]. apply set_eq. intros b. rewrite elem_of_dom, Hd, elem_of_union, !elem_of_singleton. split.
    + destruct (decide (b ∈ lru)) as [|Hb]; [by intros [? ?]|]. intros [eb Heb]. destruct (decide (b = lru_)); [by left|]. destruct (decide (b = in_use_)); [by right|]. exfalso.
      destruct (Hnodes b (h_data eb)) as (Hc & Hr & Hpos & _); [unfold info; by rewrite Heb|done|]. destruct (d_in_cache (h_data eb)); [|unfold refs_of in Hr; cbn in Hr; lia]. rewrite app_nil_r in Hc. tauto.
    + assert (Hin : forall c, is_Some (info (heap_ s) c) -> c ∉ lru -> is_Some (if decide (c ∈ lru) then None else heap_ s !! c)) by (intros c Hx%info_Some Hc; by rewrite decide_False).
      intros [->| ->]; apply Hin; [eapply ring_info; [exact Hl|by left]|done|eapply ring_info; [exact Hu|by left]|]. rewrite app_nil_r in Hn. apply NoDup_cons in Hn as [_ Hn]. by apply NoDup_cons in Hn as [? _].
Qed.

End Shard.

Abbreviation shard_ok hashf s lru use ext := (shard_inv hashf s lru use [] ext).
