(* ===== verification/ShardedCache.v ===== *)
(** * The LRU cache of sixteen shards: util/cache.cpp

    The hash of a key selects its shard; a handle is released in the shard its
    hash names. Handles get addresses nobody had before, and are found in the
    shard whose heap has them. The cache satisfies the laws of [Cache], so what
    [TableRead], [TableCache], [DBRead] and the others prove of any cache holds
    of this one. *)

From stdpp Require Import functions.
From S2P Require Import Prelude Coding Snapshot Comparator Dbformat Filter Cache LRU LRULists LRUShard.

Definition kNumShardBits : Z := 4.
Definition kNumShards : Z := Z.shiftl 1 kNumShardBits.

Definition HashSlice (s : bytes) : Z := Hash s 0.
Definition Shard (hash : Z) : nat := Z.to_nat (Z.shiftr hash (32 - kNumShardBits)).

Record ShardedLRUCache (V : Type) := mkSharded { shard_ : list (LRUCache V); last_id_ : Z; fresh_ : nat }.
Arguments mkSharded {V}.
Arguments shard_ {V}.
Arguments last_id_ {V}.
Arguments fresh_ {V}.

Section Sharded.
Context {V : Type}.

Abbreviation Sharded := (ShardedLRUCache V).

(** [NewLRUCache]; the first address is behind the dummy heads. *)
Definition NewLRUCache (capacity : Z) : option Sharded :=
  shards ← mapM (fun _ => new_LRUCache) (seq 0 (Z.to_nat kNumShards));
  let per_shard := u64 (capacity + (kNumShards - 1)) / kNumShards in
  Some (mkSharded (SetCapacity per_shard <$> shards) 0 2).

Definition on_shard {A} (i : nat) (f : LRUCache V -> option (A * LRUCache V)) (c : Sharded) : option (A * Sharded) :=
  s ← shard_ c !! i; r ← f s; Some (r.1, mkSharded (<[i := r.2]> (shard_ c)) (last_id_ c) (fresh_ c)).

Definition lru_Insert (key : bytes) (value : V) (charge : Z) (c : Sharded) : option (nat * Sharded) :=
  let hash := HashSlice key in
  let a := fresh_ c in
  on_shard (Shard hash) (fun s => s ← shard_Insert a key hash value charge s; Some (a, s)) (mkSharded (shard_ c) (last_id_ c) (S a)).

Definition lru_Lookup (key : bytes) (c : Sharded) : option (option nat * Sharded) :=
  let hash := HashSlice key in on_shard (Shard hash) (shard_Lookup key hash) c.

(** What a handle points to. *)
Definition deref (a : nat) (c : Sharded) : option (HandleData V) := head (omap (fun s => h_data <$> heap_ s !! a) (shard_ c)).

Definition lru_Release (a : nat) (c : Sharded) : option Sharded :=
  h ← deref a c;
  r ← on_shard (Shard (d_hash h)) (fun s => s ← shard_Release a s; Some (tt, s)) c;
  Some r.2.

Definition lru_Erase (key : bytes) (c : Sharded) : option Sharded :=
  let hash := HashSlice key in
  r ← on_shard (Shard hash) (fun s => s ← shard_Erase key hash s; Some (tt, s)) c;
  Some r.2.

Definition lru_Value (a : nat) (c : Sharded) : option V := h ← deref a c; d_value h.

Definition lru_NewId (c : Sharded) : Z * Sharded :=
  let id := u64 (last_id_ c + 1) in (id, mkSharded (shard_ c) id (fresh_ c)).

Definition lru_Prune (c : Sharded) : option Sharded :=
  shards ← mapM shard_Prune (shard_ c); Some (mkSharded shards (last_id_ c) (fresh_ c)).

Definition lru_TotalCharge (c : Sharded) : Z := foldl (fun total s => u64 (total + TotalCharge s)) 0 (shard_ c).

Definition LRU : Cache Sharded nat V := {|
  cache_Insert := lru_Insert;
  cache_Lookup := lru_Lookup;
  cache_Release := lru_Release;
  cache_Value := lru_Value;
  cache_Erase := lru_Erase;
  cache_NewId := lru_NewId |}.

End Sharded.

(** ** Which shard *)

Lemma lxor_range n a b : 0 <= n -> 0 <= a < 2 ^ n -> 0 <= b < 2 ^ n -> 0 <= Z.lxor a b < 2 ^ n.
Proof.
  intros Hn Ha Hb. assert (H0 : 0 <= Z.lxor a b) by (apply Z.lxor_nonneg; lia). split; [done|]. destruct (Z.eq_dec (Z.lxor a b) 0) as [->|Hx]; [lia|].
  destruct (Z.eq_dec a 0) as [->|Ha0]; [rewrite Z.lxor_0_l; lia|]. destruct (Z.eq_dec b 0) as [->|Hb0]; [rewrite Z.lxor_0_r; lia|].
  apply Z.log2_lt_pow2; [lia|]. pose proof (Z.log2_lxor a b ltac:(lia) ltac:(lia)). assert (Z.log2 a < n) by (apply Z.log2_lt_pow2; lia). assert (Z.log2 b < n) by (apply Z.log2_lt_pow2; lia). lia.
Qed.

Lemma lxor_shift_range h k : 0 <= k -> 0 <= Z.lxor (u32 h) (Z.shiftr (u32 h) k) < 2 ^ 32.
Proof.
  intros Hk. assert (Hu : 0 <= u32 h < 2 ^ 32) by (apply Z.mod_pos_bound; lia). apply lxor_range; [lia|done|]. rewrite Z.shiftr_div_pow2 by done. pose proof (Z.pow_pos_nonneg 2 k ltac:(lia) Hk).
  split; [apply Z.div_pos; lia|]. apply Z.div_lt_upper_bound; nia.
Qed.

Lemma Hash_loop_range fuel : forall h data, 0 <= h < 2 ^ 32 -> 0 <= (Hash_loop fuel h data).1 < 2 ^ 32.
Proof. induction fuel as [|fuel IH]; intros h data Hh; cbn [Hash_loop]; [done|]. destruct (_ <=? _)%nat; [|done]. apply IH. by apply lxor_shift_range. Qed.

Lemma Hash_range data seed : 0 <= Hash data seed < 2 ^ 32.
Proof.
  unfold Hash. pose proof (Hash_loop_range (length data) (u32 (Z.lxor seed (u64 (zlen data * hash_m)))) data ltac:(apply Z.mod_pos_bound; lia)) as H.
  destruct (Hash_loop _ _ _) as [h rest]. cbn [fst] in H. destruct (length rest) as [|[|[|[|]]]]; try done; by apply lxor_shift_range.
Qed.

Lemma Shard_range key : (Shard (HashSlice key) < 16)%nat.
Proof.
  unfold Shard. pose proof (Hash_range key 0) as [H0 H1]. change (32 - kNumShardBits) with 28. rewrite Z.shiftr_div_pow2 by lia.
  assert (HashSlice key / 2 ^ 28 < 16) by (apply Z.div_lt_upper_bound; [lia|exact H1]). assert (0 <= HashSlice key / 2 ^ 28) by (apply Z.div_pos; [exact H0|lia]). lia.
Qed.

(** ** The invariant *)

Section Rep.
Context {V : Type}.

Abbreviation Sharded := (ShardedLRUCache V).

Definition held_in (owner : nat -> nat) (i : nat) (held : list (nat * V)) : list nat := filter (fun a => owner a = i) held.*1.

(** [owner] says in which shard a handle lives. *)
Record lru_rep (c : Sharded) (lru use : nat -> list nat) (owner : nat -> nat) (m : gmap bytes V) (held : list (nat * V)) : Prop := {
  lr_length : length (shard_ c) = 16%nat;
  lr_shard : forall i s, shard_ c !! i = Some s -> shard_ok HashSlice s (lru i) (use i) (held_in owner i held);
  lr_nodes : forall i s a, shard_ c !! i = Some s -> a ∈ lru i ++ use i ++ held_in owner i held ->
    owner a = i /\ (a < fresh_ c)%nat /\ exists k v, key_of (heap_ s) a = Some k /\ Shard (HashSlice k) = i /\ value_of (heap_ s) a = Some v;
  lr_held : forall a v, (a, v) ∈ held -> exists s, shard_ c !! owner a = Some s /\ value_of (heap_ s) a = Some v;
  lr_map : forall k v, m !! k = Some v <->
    exists s a, shard_ c !! Shard (HashSlice k) = Some s /\ a ∈ lru (Shard (HashSlice k)) ++ use (Shard (HashSlice k)) /\ key_of (heap_ s) a = Some k /\ value_of (heap_ s) a = Some v;
  lr_fresh : (2 <= fresh_ c)%nat
}.

Definition lru_inv (c : Sharded) (m : gmap bytes V) (held : list (nat * V)) (id : Z) : Prop := last_id_ c = id /\ exists lru use owner, lru_rep c lru use owner m held.

Lemma held_in_elem owner i held a : a ∈ held_in owner i held <-> owner a = i /\ exists v, (a, v) ∈ held.
Proof.
  unfold held_in. rewrite list_elem_of_filter, list_elem_of_fmap. split; intros [Ha Hx]; (split; [done|]); [by destruct Hx as ([b v] & -> & Hb); exists v|by destruct Hx as [v Hv]; exists (a, v)].
Qed.

Lemma held_in_cons owner i a v held : held_in owner i ((a, v) :: held) = if decide (owner a = i) then a :: held_in owner i held else held_in owner i held.
Proof. unfold held_in. rewrite fmap_cons, filter_cons. done. Qed.

Lemma held_in_ext owner owner' i held : (forall a v, (a, v) ∈ held -> owner' a = owner a) -> held_in owner' i held = held_in owner i held.
Proof.
  induction held as [|[a v] held IH]; intros He; [done|]. rewrite !held_in_cons, (He a v) by (by left). rewrite IH; [done|]. intros b w Hb. apply (He b w). by right.
Qed.

(** Every handle of a heap is cached or held. *)
Lemma node_listed (h : Heap V) lru use ext a d : heap_ok HashSlice h lru use ext -> info h a = Some d -> is_handle a -> a ∈ lru ++ use ++ ext.
Proof.
  intros Hh Hd Ha. destruct (ho_nodes _ _ _ _ _ Hh a d Hd Ha) as (Hc & Hr & Hpos & _). rewrite app_assoc, elem_of_app. destruct (d_in_cache d); [left; tauto|right].
  apply refs_of_elem. cbn in Hr. lia.
Qed.

Lemma shard_get c lru use owner m held k : lru_rep c lru use owner m held -> exists s, shard_ c !! Shard (HashSlice k) = Some s.
Proof. intros Hr. apply lookup_lt_is_Some_2. rewrite (lr_length _ _ _ _ _ _ Hr). apply Shard_range. Qed.

Lemma head_omap {A B} (f : A -> option B) l i x y : l !! i = Some x -> f x = Some y -> (forall j z, l !! j = Some z -> is_Some (f z) -> j = i) -> head (omap f l) = Some y.
Proof.
  revert i. induction l as [|z l IH]; intros [|i] Hi Hf Hu; try done; cbn in Hi.
  - injection Hi as ->. cbn. by rewrite Hf.
  - cbn. destruct (f z) eqn:Ez; [by specialize (Hu 0%nat z eq_refl (mk_is_Some _ _ Ez))|]. apply (IH i); [done|done|]. intros j w Hj Hw. specialize (Hu (S j) w Hj Hw). congruence.
Qed.

Lemma held_data c lru use owner m held a v : lru_rep c lru use owner m held -> (a, v) ∈ held ->
  exists s d, shard_ c !! owner a = Some s /\ info (heap_ s) a = Some d /\ is_handle a /\ deref a c = Some d /\ d_value d = Some v /\ Shard (d_hash d) = owner a.
Proof.
  intros Hr Ha. destruct (lr_held _ _ _ _ _ _ Hr a v Ha) as (s & Hs & Hv). pose proof (lr_shard _ _ _ _ _ _ Hr _ s Hs) as Hok. pose proof (sv_heap _ _ _ _ _ _ Hok) as Hh.
  assert (Hin : a ∈ held_in owner (owner a) held) by (apply held_in_elem; split; [done|by exists v]). destruct (ho_ext _ _ _ _ _ Hh a Hin) as [[d Hd] Hha]. exists s, d.
  unfold value_of in Hv. rewrite Hd in Hv. cbn in Hv. split; [done|]. split; [done|]. split; [done|]. split; [|split; [done|]].
  - apply (head_omap _ _ (owner a) s); [done|exact Hd|]. intros j s' Hj [d' Hd']. symmetry. apply (lr_nodes _ _ _ _ _ _ Hr j s' a Hj). eapply node_listed; [|exact Hd'|done].
    apply (sv_heap _ _ _ _ _ _ (lr_shard _ _ _ _ _ _ Hr j s' Hj)).
  - destruct (lr_nodes _ _ _ _ _ _ Hr (owner a) s a Hs) as (_ & _ & k & w & Hk & Hsh & _); [rewrite !elem_of_app; tauto|]. rewrite (proj2 (proj2 (proj2 (ho_nodes _ _ _ _ _ Hh a d Hd Hha)))).
    unfold key_of in Hk. rewrite Hd in Hk. by injection Hk as ->.
Qed.

Lemma fresh_free c lru use owner m held i s : lru_rep c lru use owner m held -> shard_ c !! i = Some s -> heap_ s !! fresh_ c = None.
Proof.
  intros Hr Hs. destruct (heap_ s !! fresh_ c) as [e|] eqn:E; [|done]. exfalso. assert (Hh : is_handle (fresh_ c)) by (pose proof (lr_fresh _ _ _ _ _ _ Hr); unfold is_handle, lru_, in_use_; lia).
  destruct (lr_nodes _ _ _ _ _ _ Hr i s (fresh_ c) Hs) as (_ & H & _); [|lia]. eapply node_listed; [|unfold info; by rewrite E|done]. apply (sv_heap _ _ _ _ _ _ (lr_shard _ _ _ _ _ _ Hr i s Hs)).
Qed.

(** An operation on one shard. *)
Lemma lru_rep_step c lru use owner m held i s s' l u owner' m' held' id fresh' : lru_rep c lru use owner m held -> shard_ c !! i = Some s ->
  shard_ok HashSlice s' l u (held_in owner' i held') -> (fresh_ c <= fresh')%nat -> (forall a, (a < fresh_ c)%nat -> owner' a = owner a) ->
  (forall j, j <> i -> held_in owner' j held' = held_in owner j held) ->
  (forall a, a ∈ l ++ u ++ held_in owner' i held' -> owner' a = i /\ (a < fresh')%nat /\ exists k v, key_of (heap_ s') a = Some k /\ Shard (HashSlice k) = i /\ value_of (heap_ s') a = Some v) ->
  (forall a v, (a, v) ∈ held' -> owner' a = i /\ value_of (heap_ s') a = Some v \/ (a, v) ∈ held /\ owner a <> i) ->
  (forall k v, Shard (HashSlice k) = i -> m' !! k = Some v <-> exists a, a ∈ l ++ u /\ key_of (heap_ s') a = Some k /\ value_of (heap_ s') a = Some v) ->
  (forall k, Shard (HashSlice k) <> i -> m' !! k = m !! k) ->
  lru_rep (mkSharded (<[i := s']> (shard_ c)) id fresh') (<[i := l]> lru) (<[i := u]> use) owner' m' held'.
Proof.
  intros [Hlen Hsh Hnodes Hheld Hmap Hfr] Hs Hok Hf Hown Hoth Hnew Hh' Hm Hm'. assert (Hi : (i < length (shard_ c))%nat) by (by eapply lookup_lt_Some). split; cbn [shard_ fresh_].
  - by rewrite length_insert.
  - intros j t. destruct (decide (j = i)) as [->|Hj]; [rewrite list_lookup_insert_eq, !fn_lookup_insert by done; by intros [= <-]|]. rewrite list_lookup_insert_ne, !fn_lookup_insert_ne, Hoth by done. apply Hsh.
  - intros j t a. destruct (decide (j = i)) as [->|Hj]; [rewrite list_lookup_insert_eq, !fn_lookup_insert by done; intros [= <-]; apply Hnew|].
    rewrite list_lookup_insert_ne, !fn_lookup_insert_ne, Hoth by done. intros Ht Ha. destruct (Hnodes j t a Ht Ha) as (H1 & H2 & H3). rewrite Hown by done. split; [done|]. split; [lia|done].
  - intros a v Ha. destruct (Hh' a v Ha) as [[-> Hv]|[Ha' Hne]]; [exists s'; by rewrite list_lookup_insert_eq|]. destruct (Hheld a v Ha') as (t & Ht & Hv). exists t.
    assert (E : owner' a = owner a) by (apply Hown, (Hnodes (owner a) t a Ht); rewrite !elem_of_app, held_in_elem; eauto). by rewrite E, list_lookup_insert_ne.
  - intros k v. destruct (decide (Shard (HashSlice k) = i)) as [E|E].
    + rewrite (Hm k v E), E, !fn_lookup_insert, list_lookup_insert_eq by done. split; [intros (a & Ha); by exists s', a|]. intros (t & a & [= <-] & Ha). by exists a.
    + rewrite (Hm' k E), !fn_lookup_insert_ne, list_lookup_insert_ne by done. apply Hmap.
  - lia.
Qed.

(** ** The laws *)

Lemma lru_rep_perm c lru use owner m held held' : held ≡ₚ held' -> lru_rep c lru use owner m held -> lru_rep c lru use owner m held'.
Proof.
  intros Hp [Hlen Hsh Hnodes Hheld Hmap Hfr]. assert (Hin : forall i, held_in owner i held ≡ₚ held_in owner i held') by (intros i; unfold held_in; by rewrite Hp). split; try done.
  - intros i s Hs. destruct (Hsh i s Hs) as [Hh Ht Hu Hc]. split; try done. by eapply heap_ok_perm.
  - intros i s a Hs Ha. apply (Hnodes i s a Hs). rewrite !elem_of_app in Ha |- *. by rewrite Hin.
  - intros a v Ha. apply Hheld. by rewrite Hp.
Qed.

(** The keys a shard has are those the map has. *)
Lemma cached_map c lru use owner m held k s a : lru_rep c lru use owner m held -> shard_ c !! Shard (HashSlice k) = Some s ->
  a ∈ lru (Shard (HashSlice k)) ++ use (Shard (HashSlice k)) -> key_of (heap_ s) a = Some k -> exists v, value_of (heap_ s) a = Some v /\ m !! k = Some v /\ owner a = Shard (HashSlice k).
Proof.
  intros Hr Hs Ha Hk. destruct (lr_nodes _ _ _ _ _ _ Hr _ s a Hs) as (Ho & _ & k' & v & Hk' & _ & Hv); [rewrite app_assoc, elem_of_app; by left|]. exists v. split; [done|]. split; [|done].
  apply (lr_map _ _ _ _ _ _ Hr). by exists s, a.
Qed.

Lemma with_shard_id (c : Sharded) i s : shard_ c !! i = Some s -> mkSharded (<[i := s]> (shard_ c)) (last_id_ c) (fresh_ c) = c.
Proof. intros Hs. rewrite list_insert_id by done. by destruct c. Qed.

Lemma lru_Lookup_spec c lru use owner m held k : lru_rep c lru use owner m held -> exists r c', lru_Lookup k c = Some (r, c') /\ last_id_ c' = last_id_ c /\
  match m !! k with
  | None => r = None /\ c' = c
  | Some v => exists a lru' use', r = Some a /\ lru_rep c' lru' use' owner m ((a, v) :: held)
  end.
Proof.
  intros Hr. destruct (shard_get _ _ _ _ _ _ k Hr) as [s Hs]. set (i := Shard (HashSlice k)) in *. pose proof (lr_shard _ _ _ _ _ _ Hr i s Hs) as Hok.
  unfold lru_Lookup, on_shard. fold i. rewrite Hs. cbn [mbind option_bind]. destruct (shard_Lookup_spec HashSlice s _ _ _ k Hok) as (r & s' & -> & Hres). cbn [mbind option_bind fst snd].
  exists r. eexists. split; [done|]. split; [done|]. destruct r as [a|].
  - destruct Hres as (Ha & Hk & Hok' & Hp & Hkeep & _). destruct (cached_map _ _ _ _ _ _ k s a Hr Hs Ha Hk) as (v & Hv & -> & Ho). exists a, (<[i := without a (lru i)]> lru), (<[i := taken a (use i)]> use). split; [done|].
    assert (Eh : held_in owner i ((a, v) :: held) = a :: held_in owner i held) by (by rewrite held_in_cons, decide_True).
    assert (Hent : forall b, key_of (heap_ s') b = key_of (heap_ s) b /\ value_of (heap_ s') b = value_of (heap_ s) b) by (intros b; destruct (Hkeep [b] b) as (_ & ? & ? & _); [by left|done]).
    eapply lru_rep_step; try done.
    + by rewrite Eh.
    + intros j Hj. rewrite held_in_cons, decide_False; [done|]. unfold i in *. congruence.
    + intros b Hb. destruct (Hent b) as [-> ->]. apply (lr_nodes _ _ _ _ _ _ Hr i s b Hs). rewrite Eh, app_assoc, Hp in Hb. rewrite app_assoc. apply elem_of_app in Hb as [Hb|[->|Hb]%elem_of_cons]; rewrite elem_of_app; tauto.
    + intros b w [[= -> ->]|Hb]%elem_of_cons; [left; by rewrite (proj2 (Hent a))|]. destruct (decide (owner b = i)) as [E|E]; [left|by right]. destruct (lr_held _ _ _ _ _ _ Hr b w Hb) as (t & Ht & Hw).
      rewrite E, Hs in Ht. injection Ht as <-. by rewrite (proj2 (Hent b)).
    + intros k' w E. rewrite (lr_map _ _ _ _ _ _ Hr), E, Hs. split; [intros (t & b & [= <-] & Hb & Hx)|intros (b & Hb & Hx)]; [exists b|exists s, b; split; [done|]]; destruct (Hent b) as [E1 E2]; rewrite ?E1, ?E2 in *; rewrite Hp in *; done.
  - destruct Hres as [-> Hno]. destruct (m !! k) as [v|] eqn:Em; [|split; [done|by apply with_shard_id]]. exfalso. apply (lr_map _ _ _ _ _ _ Hr) in Em as (t & a & Ht & Ha & Hk & _). fold i in Ht. rewrite Hs in Ht. injection Ht as <-. by apply (Hno a).
Qed.

(** An operation that only takes entries out of a shard. *)
Lemma lru_rep_shrink c lru use owner m held i s s' l u m' held' : lru_rep c lru use owner m held -> shard_ c !! i = Some s -> shard_ok HashSlice s' l u (held_in owner i held') ->
  same_entries (heap_ s) (heap_ s') (l ++ u ++ held_in owner i held') -> (forall a, a ∈ l ++ u -> a ∈ lru i ++ use i) -> (forall a v, (a, v) ∈ held' -> (a, v) ∈ held) ->
  (forall j, j <> i -> held_in owner j held' = held_in owner j held) ->
  (forall k v, Shard (HashSlice k) = i -> m' !! k = Some v <-> exists a, a ∈ l ++ u /\ key_of (heap_ s) a = Some k /\ value_of (heap_ s) a = Some v) -> (forall k, Shard (HashSlice k) <> i -> m' !! k = m !! k) ->
  lru_rep (mkSharded (<[i := s']> (shard_ c)) (last_id_ c) (fresh_ c)) (<[i := l]> lru) (<[i := u]> use) owner m' held'.
Proof.
  intros Hr Hs Hok He Hsub Hheld Hoth Hm Hm'. eapply lru_rep_step; try done.
  - intros b Hb. destruct (He b Hb) as (-> & -> & _). apply (lr_nodes _ _ _ _ _ _ Hr i s b Hs). rewrite app_assoc, elem_of_app in Hb |- *. destruct Hb as [Hb|Hb]; [left; by apply Hsub|right].
    apply held_in_elem in Hb as (E & v & Hv). apply held_in_elem. eauto.
  - intros b w Hb. destruct (decide (owner b = i)) as [E|E]; [left|right; by split; [apply Hheld|]]. destruct (lr_held _ _ _ _ _ _ Hr b w (Hheld b w Hb)) as (t & Ht & Hw). rewrite E, Hs in Ht. injection Ht as <-.
    split; [done|]. destruct (He b) as (_ & -> & _); [|done]. rewrite !elem_of_app, held_in_elem. eauto.
  - intros k v E. rewrite (Hm k v E). apply exist_proper. intros b. split; intros [Hb Hx]; (split; [done|]); destruct (He b) as (E1 & E2 & _); rewrite ?E1, ?E2 in *; try done; rewrite app_assoc, elem_of_app; by left.
Qed.

Lemma lru_Release_spec c lru use owner m held a v : lru_rep c lru use owner m ((a, v) :: held) -> exists c' lru' use', lru_Release a c = Some c' /\ last_id_ c' = last_id_ c /\ lru_rep c' lru' use' owner m held.
Proof.
  intros Hr. destruct (held_data _ _ _ _ _ _ a v Hr ltac:(by left)) as (s & d & Hs & Hd & Hha & Hder & Hv & Hsh). pose proof (lr_shard _ _ _ _ _ _ Hr _ s Hs) as Hok.
  rewrite held_in_cons, decide_True in Hok by done. destruct (shard_Release_spec HashSlice s _ _ _ a Hok) as (s' & E & Hok' & Hkeep & _).
  unfold lru_Release, on_shard. rewrite Hder. cbn [mbind option_bind]. rewrite Hsh, Hs. cbn [mbind option_bind]. rewrite E. cbn [mbind option_bind fst snd]. do 3 eexists. split; [done|]. split; [done|].
  assert (Hp : idle_after a (lru (owner a)) (use (owner a)) (held_in owner (owner a) held) ++ used_after a (use (owner a)) (held_in owner (owner a) held) ≡ₚ lru (owner a) ++ use (owner a)).
  { apply after_perm. pose proof (heap_ok_use_nodup _ _ _ _ _ (sv_heap _ _ _ _ _ _ Hok)) as Hn. by apply NoDup_cons in Hn as [_ ?]. }
  eapply lru_rep_shrink; [exact Hr|exact Hs|exact Hok'|apply keeps_entries; eapply keeps_sub; [exact Hkeep|]| | | | |done].
  - intros b. rewrite !app_assoc, Hp. done.
  - intros b. by rewrite Hp.
  - intros b w Hb. by right.
  - intros j Hj. by rewrite held_in_cons, decide_False.
  - intros k w Ek. rewrite (lr_map _ _ _ _ _ _ Hr), Ek, Hs. split; [intros (t & b & [= <-] & Hb & Hx); exists b; by rewrite Hp|]. intros (b & Hb & Hx). rewrite Hp in Hb. by exists s, b.
Qed.

Lemma lru_Erase_spec c lru use owner m held k : lru_rep c lru use owner m held -> exists c' lru' use', lru_Erase k c = Some c' /\ last_id_ c' = last_id_ c /\ lru_rep c' lru' use' owner (delete k m) held.
Proof.
  intros Hr. destruct (shard_get _ _ _ _ _ _ k Hr) as [s Hs]. set (i := Shard (HashSlice k)) in *. pose proof (lr_shard _ _ _ _ _ _ Hr i s Hs) as Hok.
  destruct (shard_Erase_spec HashSlice s _ _ _ k Hok) as (s' & E & Hok' & He & _). unfold lru_Erase, on_shard. fold i. rewrite Hs. cbn [mbind option_bind]. rewrite E. cbn [mbind option_bind fst snd]. do 3 eexists. split; [done|]. split; [done|].
  assert (Hin : forall b, b ∈ without_key (heap_ s) k (lru i) ++ without_key (heap_ s) k (use i) <-> key_of (heap_ s) b <> Some k /\ b ∈ lru i ++ use i) by (intros b; rewrite !elem_of_app, !elem_of_without_key; tauto).
  eapply lru_rep_shrink; [exact Hr|exact Hs|exact Hok'|exact He| |done|done| |].
  - intros b [_ Hb]%Hin. done.
  - intros k' w Ek. destruct (decide (k' = k)) as [->|Hne].
    + rewrite lookup_delete_eq. split; [done|]. intros (b & [Hb _]%Hin & Hk & _). done.
    + rewrite lookup_delete_ne, (lr_map _ _ _ _ _ _ Hr), Ek, Hs by done. split; [intros (t & b & [= <-] & Hb & Hk & Hx); exists b; rewrite Hin; split; [|done]; split; [congruence|done]|].
      intros (b & [_ Hb]%Hin & Hx). by exists s, b.
  - intros k' Hne. apply lookup_delete_ne. unfold i in Hne. congruence.
Qed.

(** The entries of the map that are still cached. *)
Definition still (i : nat) (h : Heap V) (l : list nat) (m : gmap bytes V) : gmap bytes V :=
  filter (fun kv => Shard (HashSlice kv.1) <> i \/ Exists (fun a => key_of h a = Some kv.1) l) m.

Lemma still_lookup i h l m k v : still i h l m !! k = Some v <-> m !! k = Some v /\ (Shard (HashSlice k) <> i \/ exists a, a ∈ l /\ key_of h a = Some k).
Proof. unfold still. rewrite map_lookup_filter_Some. cbn [fst]. by rewrite Exists_exists. Qed.

Lemma lru_Insert_spec c lru use owner m held k v charge : lru_rep c lru use owner m held ->
  exists a c' lru' use' owner' m', lru_Insert k v charge c = Some (a, c') /\ last_id_ c' = last_id_ c /\ lru_rep c' lru' use' owner' m' ((a, v) :: held) /\ m' ⊆ <[k := v]> m.
Proof.
  intros Hr. destruct (shard_get _ _ _ _ _ _ k Hr) as [s Hs]. set (i := Shard (HashSlice k)) in *. set (a := fresh_ c). pose proof (lr_shard _ _ _ _ _ _ Hr i s Hs) as Hok.
  assert (Hha : is_handle a) by (pose proof (lr_fresh _ _ _ _ _ _ Hr); unfold a, is_handle, lru_, in_use_; lia).
  destruct (shard_Insert_spec HashSlice s _ _ _ a k v charge Hok (fresh_free _ _ _ _ _ _ i s Hr Hs) Hha) as (s' & l & u & E & Hok' & (Ka & Va & _) & _ & He & Hl & Hu & _).
  unfold lru_Insert, on_shard. cbn [shard_ last_id_ fresh_]. fold i a. rewrite Hs. cbn [mbind option_bind]. rewrite E. cbn [mbind option_bind fst snd].
  set (owner' := <[a := i]> owner : nat -> nat). exists a. do 2 eexists. exists (<[i := u]> use), owner', (still i (heap_ s') (l ++ u) (<[k := v]> m)). split; [done|]. split; [done|]. split; [|apply map_filter_subseteq].
  assert (Hlt : forall b w, (b, w) ∈ held -> (b < a)%nat).
  { intros b w Hb. destruct (lr_held _ _ _ _ _ _ Hr b w Hb) as (t & Ht & _). apply (lr_nodes _ _ _ _ _ _ Hr _ t b Ht). rewrite !elem_of_app, held_in_elem. eauto. }
  assert (Hown : forall b, (b < a)%nat -> owner' b = owner b) by (intros b Hb; unfold owner'; rewrite fn_lookup_insert_ne by lia; done).
  assert (Hsame : forall j, held_in owner' j held = held_in owner j held).
  { intros j. apply held_in_ext. intros b w Hb. by apply Hown, (Hlt b w). }
  assert (Ea : owner' a = i) by (unfold owner'; apply fn_lookup_insert). assert (Eh : held_in owner' i ((a, v) :: held) = a :: held_in owner i held) by (by rewrite held_in_cons, decide_True, Hsame).
  assert (Hold : forall b, b ∈ l ++ u ++ held_in owner i held -> b <> a -> key_of (heap_ s') b = key_of (heap_ s) b /\ value_of (heap_ s') b = value_of (heap_ s) b).
  { intros b Hb Hne. destruct (He b) as (? & ? & _); [|done]. rewrite !elem_of_app, elem_of_without in *. tauto. }
  assert (Hcached : forall b, b ∈ l ++ u -> b <> a -> b ∈ lru i ++ use i /\ key_of (heap_ s) b <> Some k).
  { intros b [Hb|Hb]%elem_of_app Hne; rewrite elem_of_app; [apply Hl in Hb|apply Hu in Hb]; tauto. }
  eapply lru_rep_step; try done.
  - by rewrite Eh.
  - unfold a. lia.
  - intros j Hj. rewrite held_in_cons, decide_False by congruence. apply Hsame.
  - intros b Hb. rewrite Eh in Hb. destruct (decide (b = a)) as [->|Hne]; [split; [done|]; split; [lia|]; by exists k, v|].
    assert (Hb' : b ∈ l ++ u ++ held_in owner i held) by (rewrite !elem_of_app, elem_of_cons in *; tauto). destruct (Hold b Hb' Hne) as [-> ->].
    destruct (lr_nodes _ _ _ _ _ _ Hr i s b Hs) as (H1 & H2 & H3); [rewrite app_assoc, elem_of_app in Hb' |- *; destruct Hb' as [Hx|Hx]; [left; by apply Hcached|by right]|]. rewrite Hown by done. split; [done|]. split; [unfold a; lia|done].
  - intros b w [[= -> ->]|Hb]%elem_of_cons; [by left|]. pose proof (Hlt b w Hb) as Hba. rewrite (Hown b Hba). destruct (decide (owner b = i)) as [Eo|Eo]; [left|by right]. split; [done|].
    destruct (lr_held _ _ _ _ _ _ Hr b w Hb) as (t & Ht & Hw). rewrite Eo, Hs in Ht. injection Ht as <-. destruct (Hold b) as [_ ->]; [rewrite !elem_of_app, held_in_elem; eauto|lia|done].
  - intros k' w Ek. rewrite still_lookup. split.
    + intros [Hw [?|(b & Hb & Hkb)]]; [done|]. exists b. split; [done|]. split; [done|]. destruct (decide (b = a)) as [->|Hne]; [assert (k' = k) as -> by congruence; rewrite lookup_insert_eq in Hw; congruence|].
      assert (Hb' : b ∈ l ++ u ++ held_in owner i held) by (rewrite app_assoc, elem_of_app; by left). destruct (Hold b Hb' Hne) as [Ek' Ev']. destruct (Hcached b Hb Hne) as [Hbc Hkk]. rewrite Ek' in Hkb.
      rewrite lookup_insert_ne in Hw by congruence. rewrite <- Ek in Hs, Hbc. destruct (cached_map _ _ _ _ _ _ k' s b Hr Hs Hbc Hkb) as (w' & Hw' & Hm & _). congruence.
    + intros (b & Hb & Hkb & Hvb). split; [|right; by exists b]. destruct (decide (b = a)) as [->|Hne]; [assert (k' = k) as -> by congruence; rewrite lookup_insert_eq; congruence|].
      assert (Hb' : b ∈ l ++ u ++ held_in owner i held) by (rewrite app_assoc, elem_of_app; by left). destruct (Hold b Hb' Hne) as [Ek' Ev']. destruct (Hcached b Hb Hne) as [Hbc Hkk]. rewrite Ek' in Hkb. rewrite Ev' in Hvb.
      rewrite lookup_insert_ne by congruence. rewrite <- Ek in Hs, Hbc. apply (lr_map _ _ _ _ _ _ Hr). by exists s, b.
  - intros k' Hk'. apply option_eq. intros w. rewrite still_lookup, lookup_insert_ne by (unfold i in *; congruence). tauto.
Qed.

(** ** Pruning leaves the entries in use *)

Definition key_in (c : Sharded) (i a : nat) : option bytes := s ← shard_ c !! i; key_of (heap_ s) a.

Definition in_use_entries (c : Sharded) (use : nat -> list nat) (m : gmap bytes V) : gmap bytes V :=
  filter (fun kv => Exists (fun a => key_in c (Shard (HashSlice kv.1)) a = Some kv.1) (use (Shard (HashSlice kv.1)))) m.

Lemma in_use_lookup c use m k v : in_use_entries c use m !! k = Some v <-> m !! k = Some v /\ exists a, a ∈ use (Shard (HashSlice k)) /\ key_in c (Shard (HashSlice k)) a = Some k.
Proof. unfold in_use_entries. rewrite map_lookup_filter_Some. cbn [fst]. by rewrite Exists_exists. Qed.

Lemma lru_Prune_spec c lru use owner m held : lru_rep c lru use owner m held ->
  exists c', lru_Prune c = Some c' /\ last_id_ c' = last_id_ c /\ lru_rep c' (fun _ => []) use owner (in_use_entries c use m) held.
Proof.
  intros Hr. assert (Hp : forall i s, shard_ c !! i = Some s -> exists s', shard_Prune s = Some s' /\ shard_ok HashSlice s' [] (use i) (held_in owner i held) /\ same_entries (heap_ s) (heap_ s') (use i ++ held_in owner i held)).
  { intros i s Hs. pose proof (lr_shard _ _ _ _ _ _ Hr i s Hs) as Hok. destruct (Prune_spec HashSlice (lru i) (size (heap_ s)) s _ _ Hok) as (s' & E & Hok' & He & _); [by eapply lru_fuel|]. by exists s'. }
  assert (Hall : is_Some (mapM shard_Prune (shard_ c))) by (apply mapM_is_Some, Forall_lookup; intros i s Hs; destruct (Hp i s Hs) as (s' & E & _); exists s'; exact E).
  destruct Hall as [ss Hss]. unfold lru_Prune. rewrite Hss. cbn [mbind option_bind]. apply mapM_Some_1 in Hss. eexists. split; [done|]. split; [done|].
  assert (Hget : forall i s', ss !! i = Some s' -> exists s, shard_ c !! i = Some s /\ shard_ok HashSlice s' [] (use i) (held_in owner i held) /\ same_entries (heap_ s) (heap_ s') (use i ++ held_in owner i held)).
  { intros i s' Hs'. destruct (Forall2_lookup_r _ _ _ _ _ Hss Hs') as (s & Hs & E). destruct (Hp i s Hs) as (s2 & E2 & Hrest). exists s. split; [done|]. by assert (s2 = s') as -> by congruence. }
  split; cbn [shard_ fresh_].
  - rewrite <- (Forall2_length _ _ _ Hss). apply (lr_length _ _ _ _ _ _ Hr).
  - intros i s' Hs'. by destruct (Hget i s' Hs') as (s & _ & Hok & _).
  - intros i s' a Hs' Ha. destruct (Hget i s' Hs') as (s & Hs & _ & He). cbn [app] in Ha. destruct (He a Ha) as (-> & -> & _). apply (lr_nodes _ _ _ _ _ _ Hr i s a Hs). rewrite elem_of_app. by right.
  - intros a v Ha. destruct (lr_held _ _ _ _ _ _ Hr a v Ha) as (s & Hs & Hv). destruct (Forall2_lookup_l _ _ _ _ _ Hss Hs) as (s' & Hs' & _). exists s'. split; [done|]. destruct (Hget _ s' Hs') as (s2 & Hs2 & _ & He).
    assert (s2 = s) as -> by congruence. destruct (He a) as (_ & -> & _); [|done]. rewrite elem_of_app, held_in_elem. eauto.
  - intros k v. set (i := Shard (HashSlice k)). rewrite in_use_lookup. fold i. unfold key_in. cbn [app]. split.
    + intros [Hm (a & Ha & Hk)]. destruct (shard_ c !! i) as [s|] eqn:Hs; [|done]. cbn [mbind option_bind] in Hk. destruct (Forall2_lookup_l _ _ _ _ _ Hss Hs) as (s' & Hs' & _). destruct (Hget _ s' Hs') as (s2 & Hs2 & _ & He).
      assert (s2 = s) as -> by congruence. exists s', a. destruct (He a) as (-> & -> & _); [rewrite elem_of_app; by left|]. split; [done|]. split; [done|]. split; [done|].
      destruct (cached_map _ _ _ _ _ _ k s a Hr Hs) as (w & Hw & Hmw & _); [rewrite elem_of_app; by right|done|congruence].
    + intros (s' & a & Hs' & Ha & Hk & Hv). destruct (Hget _ s' Hs') as (s & Hs & _ & He). destruct (He a) as (Ek & Ev & _); [rewrite elem_of_app; by left|]. rewrite Ek in Hk. rewrite Ev in Hv. split; [|exists a; rewrite Hs; done].
      apply (lr_map _ _ _ _ _ _ Hr). exists s, a. split; [done|]. split; [rewrite elem_of_app; by right|done].
  - apply (lr_fresh _ _ _ _ _ _ Hr).
Qed.

(** ** A new cache is empty *)

Lemma NewLRUCache_spec capacity : 0 <= capacity -> exists c, NewLRUCache capacity = Some c /\ last_id_ c = 0 /\ lru_rep c (fun _ => []) (fun _ => []) (fun _ => 0%nat) ∅ [].
Proof.
  intros Hc. unfold NewLRUCache. set (per_shard := u64 (capacity + (kNumShards - 1)) / kNumShards).
  assert (Hps : 0 <= per_shard) by (apply Z.div_pos; [apply Z.mod_pos_bound; lia|by vm_compute]). destruct (new_LRUCache_spec (V := V) HashSlice per_shard Hps) as (s & Es & Hok & Hdom).
  change (Z.to_nat kNumShards) with 16%nat. assert (E : mapM (fun _ : nat => new_LRUCache (V := V)) (seq 0 16) = Some (replicate 16 s)).
  { apply mapM_Some_2. apply Forall2_same_length_lookup. split; [done|]. intros i x y _ Hy. apply lookup_replicate in Hy as [-> _]. done. }
  rewrite E. cbn [mbind option_bind]. eexists. split; [done|]. split; [done|]. rewrite fmap_replicate.
  assert (Hs : forall i t, replicate 16 (SetCapacity per_shard s) !! i = Some t -> t = SetCapacity per_shard s) by (intros i t Ht; by apply lookup_replicate in Ht as [-> _]).
  split; cbn [shard_ fresh_]; [done|intros i t ->%Hs; exact Hok|intros i t a _ Ha; by apply elem_of_nil in Ha|intros a v Ha; by apply elem_of_nil in Ha| |lia].
  intros k v. rewrite lookup_empty. split; [done|]. intros (t & a & _ & Ha & _). by apply elem_of_nil in Ha.
Qed.

#[global] Instance LRU_laws : CacheLaws LRU lru_inv.
Proof.
  split; cbn [cache_Insert cache_Lookup cache_Release cache_Value cache_Erase cache_NewId LRU].
  - intros c m held held' id Hp [Hid (lru & use & owner & Hr)]. split; [done|]. exists lru, use, owner. by eapply lru_rep_perm.
  - intros c m held id k v charge [Hid (lru & use & owner & Hr)]. destruct (lru_Insert_spec c lru use owner m held k v charge Hr) as (a & c' & l & u & o & m' & E & Hid' & Hr' & Hsub).
    exists a, c', m'. split; [done|]. split; [|done]. split; [congruence|by exists l, u, o].
  - intros c m held id k [Hid (lru & use & owner & Hr)]. destruct (lru_Lookup_spec c lru use owner m held k Hr) as (r & c' & E & Hid' & Hres). exists r, c'. split; [done|]. destruct (m !! k) as [v|]; [|done].
    destruct Hres as (a & l & u & -> & Hr'). exists a. split; [done|]. split; [congruence|by exists l, u, owner].
  - intros c m held id a v [Hid (lru & use & owner & Hr)] Ha. destruct (held_data c lru use owner m held a v Hr Ha) as (s & d & _ & _ & _ & Hd & Hv & _). unfold lru_Value. by rewrite Hd.
  - intros c m held id a v held' [Hid (lru & use & owner & Hr)] Hp. destruct (lru_Release_spec c lru use owner m held' a v) as (c' & l & u & E & Hid' & Hr'); [by eapply lru_rep_perm|].
    exists c'. split; [done|]. split; [congruence|by exists l, u, owner].
  - intros c m held id k [Hid (lru & use & owner & Hr)]. destruct (lru_Erase_spec c lru use owner m held k Hr) as (c' & l & u & E & Hid' & Hr'). exists c'. split; [done|]. split; [congruence|by exists l, u, owner].
  - intros c m held id [Hid (lru & use & owner & Hr)] Hb. unfold lru_NewId. rewrite Hid, u64_small by lia. eexists. split; [done|]. split; [done|]. exists lru, use, owner. by destruct Hr; split.
Qed.

End Rep.

(** C11. The cache of util/cache.cpp implements the interface of
    include/leveldb/cache.h. From a new and empty cache of any capacity on, with
    the sixteen hash tables, their chains, the two rings of every shard and the
    reference counts: no assertion fails, no freed handle is read and every loop
    ends; a lookup finds the value inserted last under its key unless the entry
    was erased or evicted, a handle keeps its value until it is released, and
    NewId never repeats itself. *)
Theorem lru_cache_implements {V} : CacheLaws (LRU (V := V)) lru_inv /\ forall capacity : N, exists c, NewLRUCache (V := V) (Z.of_N capacity) = Some c /\ lru_inv c ∅ [] 0.
Proof.
  split; [apply LRU_laws|]. intros capacity. destruct (NewLRUCache_spec (V := V) (Z.of_N capacity)) as (c & E & Hid & Hr); [lia|]. exists c. split; [done|]. split; [done|]. by do 3 eexists.
Qed.
