(* ===== verification/LRURun.v ===== *)
(** * Runs of a shard: eviction order and the widths of its counters

    A shard is driven by any sequence of insertions, lookups, releases, erasures
    and prunings in which only handles that were given out are released. *)

From S2P Require Import Prelude Coding Snapshot Comparator Dbformat Filter Cache LRU LRULists LRUShard ShardedCache.

Section Runs.
Context {V : Type}.

(** [shard_run cap n c s ext]: the shard reaches [s] with the handles [ext]
    given out; its capacity is [cap], at no time more than [n] handles were out,
    and no charge was above [c]. *)
Inductive shard_run (cap n c : Z) : LRUCache V -> list nat -> Prop :=
| run_new s : new_LRUCache = Some s -> shard_run cap n c (SetCapacity cap s) []
| run_insert s ext a key v charge s' : shard_run cap n c s ext -> heap_ s !! a = None -> is_handle a -> 1 <= charge <= c -> zlen ext < n ->
    shard_Insert a key (HashSlice key) v charge s = Some s' -> shard_run cap n c s' (a :: ext)
| run_lookup s ext key a s' : shard_run cap n c s ext -> zlen ext < n -> shard_Lookup key (HashSlice key) s = Some (Some a, s') -> shard_run cap n c s' (a :: ext)
| run_release s ext a ext' s' : shard_run cap n c s ext -> ext ≡ₚ a :: ext' -> shard_Release a s = Some s' -> shard_run cap n c s' ext'
| run_erase s ext key s' : shard_run cap n c s ext -> shard_Erase key (HashSlice key) s = Some s' -> shard_run cap n c s' ext
| run_prune s ext s' : shard_run cap n c s ext -> shard_Prune s = Some s' -> shard_run cap n c s' ext.

Definition charged (c : Z) (h : Heap V) (l : list nat) : Prop := forall a, a ∈ l -> 1 <= charge_of h a <= c.

Lemma charged_total c h l : charged c h l -> zlen l <= total_charge h l <= zlen l * c.
Proof.
  induction l as [|a l IH]; intros Hc; [by vm_compute|]. cbn [total_charge foldr]. rewrite zlen_cons. pose proof (Hc a ltac:(by left)). destruct IH as [H1 H2]; [intros b Hb; apply Hc; by right|].
  unfold total_charge in *. nia.
Qed.

Lemma charged_sub c h h' l l' : charged c h l -> same_entries h h' l' -> (forall a, a ∈ l' -> a ∈ l) -> charged c h' l'.
Proof. intros Hc He Hs a Ha. destruct (He a Ha) as (_ & _ & ->). by apply Hc, Hs. Qed.

Lemma total_sub c h l l' : charged c h l -> l' ⊆+ l -> total_charge h l' <= total_charge h l.
Proof.
  intros Hc [k Hp]%submseteq_Permutation. rewrite Hp, total_charge_app. enough (zlen k <= total_charge h k) by (pose proof (zlen_nonneg k); lia).
  apply (charged_total c). intros a Ha. apply Hc. rewrite Hp, elem_of_app. by right.
Qed.

(** What the runs keep. *)
Definition run_inv (cap n c : Z) (s : LRUCache V) (ext : list nat) : Prop :=
  exists lru use, shard_ok HashSlice s lru use ext /\ charged c (heap_ s) (lru ++ use) /\ usage_ s <= Z.max cap (n * c) /\ zlen ext <= n /\ capacity_ s = cap.

Lemma use_le_ext h lru use ext : heap_ok (V := V) HashSlice h lru use ext -> zlen use <= zlen ext.
Proof.
  intros Hh. pose proof (heap_ok_use_nodup _ _ _ _ _ Hh) as Hn. apply NoDup_cons in Hn as [_ Hn]. unfold zlen.
  pose proof (submseteq_length use ext (NoDup_submseteq use ext Hn (ho_busy _ _ _ _ _ Hh))). lia.
Qed.

(** An operation that gives out nothing new and frees what it likes. *)
Lemma run_inv_shrink cap n c s ext s' lru use lru' use' ext' : shard_ok HashSlice s lru use ext -> charged c (heap_ s) (lru ++ use) -> usage_ s <= Z.max cap (n * c) -> capacity_ s = cap ->
  shard_ok HashSlice s' lru' use' ext' -> same_entries (heap_ s) (heap_ s') (lru' ++ use') -> lru' ++ use' ⊆+ lru ++ use -> zlen ext' <= n -> capacity_ s' = capacity_ s -> run_inv cap n c s' ext'.
Proof.
  intros Hs Hc Hu Hcap Hs' He Hsub Hn Hcap'. assert (Hin : forall a, a ∈ lru' ++ use' -> a ∈ lru ++ use) by (intros a Ha; by eapply elem_of_submseteq).
  exists lru', use'. split; [done|]. split; [by eapply charged_sub|]. split; [|split; [done|congruence]]. rewrite (sv_usage _ _ _ _ _ _ Hs'), (entries_charge _ _ _ _ He) by done.
  pose proof (total_sub c (heap_ s) _ _ Hc Hsub). rewrite <- (sv_usage _ _ _ _ _ _ Hs) in *. lia.
Qed.

Lemma shard_run_inv cap n c s ext : 0 <= cap -> 0 <= n -> shard_run cap n c s ext -> run_inv cap n c s ext.
Proof.
  intros Hcap Hn. induction 1 as [s Es|s ext a key v charge s' _ (lru & use & Hs & Hc & Hu & Hl & Ec) Ha Hha Hch Hlt E|s ext key a s' _ (lru & use & Hs & Hc & Hu & Hl & Ec) Hlt E
    |s ext a ext' s' _ (lru & use & Hs & Hc & Hu & Hl & Ec) Hp E|s ext key s' _ (lru & use & Hs & Hc & Hu & Hl & Ec) E|s ext s' _ (lru & use & Hs & Hc & Hu & Hl & Ec) E].
  - destruct (new_LRUCache_spec (V := V) HashSlice cap Hcap) as (s' & Es' & Hok & _). assert (s' = s) as -> by congruence. exists [], []. split; [done|]. split; [by intros a ?%elem_of_nil|].
    rewrite (sv_usage _ _ _ _ _ _ Hok). cbn [app total_charge foldr]. split; [lia|]. by split.
  - destruct (shard_Insert_spec HashSlice s lru use ext a key v charge Hs Ha Hha) as (s2 & l & u & E2 & Hs2 & (_ & _ & Hea) & Hc2 & He & Hlr & Hus & Hins). assert (s2 = s') as -> by congruence.
    assert (Hch' : charged c (heap_ s') (l ++ u)).
    { intros b Hb. destruct (decide (b = a)) as [->|Hne]; [by rewrite Hea|]. destruct (He b) as (_ & _ & ->); [rewrite !elem_of_app, elem_of_without in *; tauto|]. apply Hc.
      apply elem_of_app in Hb as [Hb|Hb]; rewrite elem_of_app; [left; by apply Hlr|right]. by destruct (Hus b Hb) as [?|[? _]]. }
    exists l, u. split; [done|]. split; [done|]. split; [|split; [rewrite zlen_cons; lia|congruence]]. destruct (Z.ltb_spec 0 (capacity_ s)) as [Hpos|Hneg].
    + destruct (Hins Hpos) as (i & El & Eu & Hstop & _). destruct Hstop as [?|Hnil]; [lia|]. rewrite (sv_usage _ _ _ _ _ _ Hs2). pose proof (charged_total _ _ _ Hch') as [_ Hle]. rewrite Hnil in *. cbn [app] in *.
      pose proof (use_le_ext _ _ _ _ (sv_heap _ _ _ _ _ _ Hs2)) as Hue. rewrite zlen_cons in Hue. assert (zlen u * c <= n * c) by (apply Z.mul_le_mono_nonneg_r; lia). lia.
    + rewrite (sv_usage _ _ _ _ _ _ Hs2), (sv_capacity _ _ _ _ _ _ Hs2) by lia. cbn. lia.
  - destruct (shard_Lookup_spec HashSlice s lru use ext key Hs) as (r & s2 & E2 & Hr). assert (r = Some a /\ s2 = s') as [-> ->] by (split; congruence). destruct Hr as (_ & _ & Hs2 & Hp & Hk & Hc2).
    eapply (run_inv_shrink cap n c s ext); try done; [apply keeps_entries, Hk|by rewrite Hp|rewrite zlen_cons; lia].
  - assert (Hs0 : shard_ok HashSlice s lru use (a :: ext')) by (destruct Hs as [Hh Ht Hus Hcp]; split; try done; by eapply heap_ok_perm).
    destruct (shard_Release_spec HashSlice s lru use ext' a Hs0) as (s2 & E2 & Hs2 & Hk & Hc2). assert (s2 = s') as -> by congruence.
    assert (Hperm : idle_after a lru use ext' ++ used_after a use ext' ≡ₚ lru ++ use) by (apply after_perm; pose proof (heap_ok_use_nodup _ _ _ _ _ (sv_heap _ _ _ _ _ _ Hs)) as Hnd; by apply NoDup_cons in Hnd as [_ ?]).
    eapply (run_inv_shrink cap n c s ext); try done; [apply keeps_entries; eapply keeps_sub; [exact Hk|]; intros b; rewrite Hperm, !elem_of_app; tauto|by rewrite Hperm|]. unfold zlen in *. rewrite Hp in Hl. cbn [length] in Hl. lia.
  - destruct (shard_Erase_spec HashSlice s lru use ext key Hs) as (s2 & E2 & Hs2 & He & Hc2). assert (s2 = s') as -> by congruence.
    eapply (run_inv_shrink cap n c s ext); try done; [eapply entries_sub; [exact He|]; intros b; rewrite !elem_of_app; tauto|]. apply sublist_submseteq, sublist_app; apply sublist_filter.
  - destruct (Prune_spec HashSlice lru (size (heap_ s)) s use ext Hs) as (s2 & E2 & Hs2 & He & Hc2); [by eapply lru_fuel|]. unfold shard_Prune in E. assert (s2 = s') as -> by congruence.
    eapply (run_inv_shrink cap n c s ext); try done; [eapply entries_sub; [exact He|]; intros b; cbn [app]; rewrite elem_of_app; tauto|]. apply sublist_submseteq, sublist_inserts_l. done.
Qed.

Lemma grow_bound fuel : forall k n elems, 0 <= k <= 31 -> n = 2 ^ k -> elems <= 2 ^ 31 -> forall r, grow fuel n elems = Some r -> r <= 2 ^ 31.
Proof.
  induction fuel as [|fuel IH]; intros k n elems Hk -> He r; cbn [grow]; [done|]. destruct (Z.ltb_spec (2 ^ k) elems) as [Hlt|Hle].
  - assert (k <> 31) by (intros ->; lia). replace (2 ^ k * 2) with (2 ^ (k + 1)) by (rewrite Z.pow_add_r by lia; lia). apply (IH (k + 1)); [lia|done|done].
  - intros [= <-]. apply Z.pow_le_mono_r; lia.
Qed.

End Runs.

Lemma refs_of_bound ext a : refs_of ext a <= zlen ext.
Proof. unfold refs_of, zlen. pose proof (count_occ_bound Nat.eq_dec a ext). lia. Qed.


(** ** The order of eviction *)

Section Order.
Context {V : Type}.

(** The handles of a ring, read by following [next]. *)
Fixpoint follow (fuel : nat) (stop a : nat) (h : Heap V) : list nat :=
  match fuel with
  | O => []
  | S fuel => if (a =? stop)%nat then [] else match nx h a with Some n => a :: follow fuel stop n h | None => [a] end
  end.

Definition ring_of (head : nat) (h : Heap V) : list nat := match nx h head with Some a => follow (size h) head a h | None => [] end.

Definition idle (s : LRUCache V) : list nat := ring_of lru_ (heap_ s).
Definition busy (s : LRUCache V) : list nat := ring_of in_use_ (heap_ s).

Lemma follow_path (h : Heap V) z l : forall fuel a, path (nx h) a l z -> z ∉ l -> (length l <= fuel)%nat -> follow fuel z a h = l.
Proof.
  induction l as [|b l IH]; intros [|fuel] a; cbn [path length follow]; intros Hp Hz Hf; try done; try lia; [subst a; by rewrite Nat.eqb_refl|].
  destruct Hp as [-> (n & Hn & Hp)]. rewrite not_elem_of_cons in Hz. rewrite (proj2 (Nat.eqb_neq b z)) by (destruct Hz; congruence). rewrite Hn. f_equal. apply IH; [done|tauto|lia].
Qed.

Lemma ring_of_ring (h : Heap V) z l : ring_at (nx h) (pv h) z l -> NoDup (z :: l) -> ring_of z h = l.
Proof.
  intros Hr Hn. destruct (ring_path (nx h) (pv h) z l z Hr) as (n & E & Hp). unfold ring_of. rewrite E. pose proof Hn as [Hz Hl]%NoDup_cons. apply follow_path; [done|done|].
  apply nodup_size; [done|]. intros a Ha. eapply ring_info; [exact Hr|by right].
Qed.

Lemma shard_rings hashf (s : LRUCache V) lru use ext : shard_ok hashf s lru use ext -> idle s = lru /\ busy s = use.
Proof. intros [Hh _ _ _]. split; apply ring_of_ring; [apply Hh|by eapply heap_ok_lru_nodup|apply Hh|by eapply heap_ok_use_nodup]. Qed.

End Order.

(** C14. What the comments of util/cache.cpp say of its two lists holds in every
    shard a run reaches: no handle is twice in them, a handle of the LRU list is
    cached, has one reference and is held by nobody, a handle of the in-use list
    is cached, has two references or more and is held, and a handle in neither
    is not cached and is held; its key has its hash. *)
Theorem lru_lists_typed {V} cap n c (s : LRUCache V) ext : shard_run cap n c s ext -> 0 <= cap -> 0 <= n ->
  NoDup (idle s ++ busy s) /\ forall a d, info (heap_ s) a = Some d -> is_handle a -> d_hash d = HashSlice (d_key d) /\
    if decide (a ∈ idle s) then d_in_cache d = true /\ d_refs d = 1 /\ a ∉ ext
    else if decide (a ∈ busy s) then d_in_cache d = true /\ 2 <= d_refs d /\ a ∈ ext
    else d_in_cache d = false /\ 1 <= d_refs d /\ a ∈ ext.
Proof.
  intros Hrun Hcap Hn. destruct (shard_run_inv cap n c s ext Hcap Hn Hrun) as (lru & use & Hs & _). destruct (shard_rings _ _ _ _ _ Hs) as [-> ->]. destruct Hs as [Hh _ _ _].
  split; [pose proof (ho_nodup _ _ _ _ _ Hh) as Hnd; by do 2 apply NoDup_cons in Hnd as [_ Hnd]|]. intros a d Hd Ha. destruct (ho_nodes _ _ _ _ _ Hh a d Hd Ha) as (Hc & Hr & Hpos & Hhash). split; [done|].
  rewrite elem_of_app in Hc. pose proof (refs_of_nonneg ext a). destruct (decide (a ∈ lru)) as [Hl|Hl]; [|destruct (decide (a ∈ use)) as [Hu|Hu]].
  - pose proof (proj1 (refs_of_not_elem ext a) (ho_idle _ _ _ _ _ Hh a Hl)). assert (E : d_in_cache d = true) by tauto. rewrite E in Hr. cbn in Hr. rewrite refs_of_not_elem. split; [done|]. lia.
  - pose proof (proj1 (refs_of_elem ext a) (ho_busy _ _ _ _ _ Hh a Hu)). assert (E : d_in_cache d = true) by tauto. rewrite E in Hr. cbn in Hr. rewrite refs_of_elem. split; [done|]. lia.
  - assert (E : d_in_cache d = false) by (destruct (d_in_cache d); tauto). rewrite E in Hr. cbn in Hr. rewrite refs_of_elem. split; [done|]. lia.
Qed.


(** A shard of capacity 2 with two unused entries; the older one is "a". *)
Definition example_shard : option (LRUCache Z) :=
  s ← new_LRUCache;
  s ← shard_Insert 2 (lit "a") (HashSlice (lit "a")) 10 1 (SetCapacity 2 s);
  s ← shard_Insert 3 (lit "b") (HashSlice (lit "b")) 20 1 s;
  s ← shard_Release 2 s;
  shard_Release 3 s.

Lemma bind_inv {A B} (o : option A) (f : A -> option B) y : (x ← o; f x) = Some y -> exists x, o = Some x /\ f x = Some y.
Proof. destruct o as [x|]; [|done]. by exists x. Qed.

Lemma example_run : exists s, example_shard = Some s /\ shard_run 2 2 1 s [] /\ heap_ s !! 4%nat = None.
Proof.
  assert (Hs : (fun s => bool_decide (heap_ s !! 4%nat = None)) <$> example_shard = Some true) by (by vm_compute). destruct example_shard as [s|] eqn:E; [|done]. exists s. split; [done|]. injection Hs as Hs%bool_decide_eq_true. split; [|done].
  unfold example_shard in E. apply bind_inv in E as (s0 & E0 & E). apply bind_inv in E as (s1 & E1 & E). apply bind_inv in E as (s2 & E2 & E). apply bind_inv in E as (s3 & E3 & E4).
  assert (H0 : (fun s => bool_decide (heap_ s !! 2%nat = None)) <$> (new_LRUCache (V := Z)) = Some true) by (by vm_compute). rewrite E0 in H0. injection H0 as H0%bool_decide_eq_true.
  assert (H1 : (fun s => bool_decide (heap_ s !! 3%nat = None)) <$> (s ← new_LRUCache; shard_Insert 2 (lit "a") (HashSlice (lit "a")) 10 1 (SetCapacity 2 s)) = Some true) by (by vm_compute).
  rewrite E0 in H1. cbn [mbind option_bind] in H1. rewrite E1 in H1. injection H1 as H1%bool_decide_eq_true.
  eapply (run_release _ _ _ s3 [3%nat] 3%nat []); [|done|exact E4]. eapply (run_release _ _ _ s2 [3; 2]%nat 2%nat [3%nat]); [|apply perm_swap|exact E3].
  apply (run_insert _ _ _ s1 [2%nat] 3%nat (lit "b") 20 1 s2); [|exact H1|done|lia|by vm_compute|exact E2].
  apply (run_insert _ _ _ (SetCapacity 2 s0) [] 2%nat (lit "a") 10 1 s1); [|exact H0|done|lia|by vm_compute|exact E1]. by apply run_new.
Qed.


Lemma lru_lists_typed_witness : exists s, example_shard = Some s /\ NoDup (idle s ++ busy s) /\ forall d, info (heap_ s) 2 = Some d -> d_hash d = HashSlice (d_key d).
Proof.
  destruct example_run as (s & E & Hrun & _). exists s. split; [exact E|]. destruct (lru_lists_typed 2 2 1 s [] Hrun) as [H1 H2]; [lia|lia|]. split; [exact H1|].
  intros d Hd. apply (H2 2%nat d Hd). split; discriminate.
Defined.


(** The third entry makes "a" go, and "b" stay. *)
Example evicts_a : (s ← example_shard; s' ← shard_Insert 4 (lit "c") (HashSlice (lit "c")) 30 1 s; Some (idle s, idle s', busy s', usage_ s')) = Some ([2; 3]%nat, [3]%nat, [4]%nat, 2).
Proof. by vm_compute. Qed.
