(* ===== verification/Table.v ===== *)
(** * Reading a table: table/table.cpp

    Opening a table file, the filter, the reader of data blocks behind the
    block cache, and the lookup of a key. The block cache is used through its
    interface. *)

From S2P Require Import Prelude Coding Status Comparator Crc32c Filter FilterBlock Env Iterator Block Format TableBuilder Cache.

(** [Table::Rep]; the filter comes with the policy it was made by. *)
Record Table := mkTable {
  tb_comparator : Comparator;
  tb_filter_policy : option FilterPolicy;
  tb_paranoid_checks : bool;
  tb_file : RandomAccessFile;
  tb_cache_id : Z;
  tb_filter : option (FilterPolicy * FilterBlockReader);
  tb_metaindex_handle : BlockHandle;
  tb_index_block : Block
}.

(** The iterator [Block::NewIterator] returns: an error or empty iterator, or
    one over the entries. *)
Definition AnyBlockIterator (cmp : Comparator) : Iterator (Status + BlockIter) :=
  SumIterator EmptyIterator (BlockIterator cmp).

Section Table.
Context (snappy : Snappy) {C H : Type} (cache : Cache C H Block).

(** ** Opening *)

(** [ReadFilter]: the filter when it can be read. *)
Definition ReadFilter (t : Table) (filter_handle_value : bytes) : option (option FilterBlockReader) :=
  let '(s, filter_handle, _) := BlockHandle_DecodeFrom filter_handle_value new_BlockHandle in
  if negb (ok s) then Some None
  else
    r ← ReadBlock snappy (tb_file t) (tb_paranoid_checks t) filter_handle;
    if negb (ok r.1) then Some None else Some (Some (new_FilterBlockReader (c_data r.2))).

Definition set_filter_reader (f : option (FilterPolicy * FilterBlockReader)) (t : Table) : Table :=
  mkTable (tb_comparator t) (tb_filter_policy t) (tb_paranoid_checks t) (tb_file t) (tb_cache_id t) f
    (tb_metaindex_handle t) (tb_index_block t).

Definition ReadMeta (footer : Footer) (t : Table) : option Table :=
  match tb_filter_policy t with
  | None => Some t
  | Some policy =>
      r ← ReadBlock snappy (tb_file t) (tb_paranoid_checks t) (f_metaindex footer);
      if negb (ok r.1) then Some t
      else
        iter ← Block_NewIterator (new_Block (c_data r.2));
        iter ← it_Seek (AnyBlockIterator BytewiseComparator) (filter_key policy) iter;
        if it_Valid (AnyBlockIterator BytewiseComparator) iter then
          key ← it_key (AnyBlockIterator BytewiseComparator) iter;
          if decide (key = filter_key policy) then
            value ← it_value (AnyBlockIterator BytewiseComparator) iter;
            f ← ReadFilter t value;
            Some (match f with Some f => set_filter_reader (Some (policy, f)) t | None => t end)
          else Some t
        else Some t
  end.

(** [c] is the state of the block cache, [None] when there is no cache. *)
Definition Table_Open (cmp : Comparator) (policy : option FilterPolicy) (paranoid_checks : bool) (file : RandomAccessFile)
    (size : Z) (c : option C) : option (Status * option Table * option C) :=
  if size <? kEncodedLength then Some (Corruption (lit "file is too short to be an sstable"), None, c)
  else
    let '(s, footer_input, _) := rf_Read file 1 (size - kEncodedLength) kEncodedLength in
    if negb (ok s) then Some (s, None, c)
    else
      d ← Footer_DecodeFrom footer_input;
      let '(s, footer, _) := d in
      if negb (ok s) then Some (s, None, c)
      else
        r ← ReadBlock snappy file paranoid_checks (f_index footer);
        if negb (ok r.1) then Some (r.1, None, c)
        else
          let '(id, c) := match c with
                          | Some c => let '(id, c) := cache_NewId cache c in (id, Some c)
                          | None => (0, None)
                          end in
          t ← ReadMeta footer (mkTable cmp policy paranoid_checks file id None (f_metaindex footer) (new_Block (c_data r.2)));
          Some (Status_OK, Some t, c).

(** ** Data blocks *)

Record ReadOptions := mkReadOptions { ro_verify_checksums : bool; ro_fill_cache : bool }.

Definition cache_key (id offset : Z) : bytes := EncodeFixed64 id ++ EncodeFixed64 offset.

(** The block of a handle: from the cache or from the file. The last part is
    the handle of the cache that keeps the block alive. *)
Definition fetch_block (t : Table) (options : ReadOptions) (handle : BlockHandle) (c : option C) :
    option (Status * option Block * option H * option C) :=
  match c with
  | Some c =>
      let key := cache_key (tb_cache_id t) (h_offset handle) in
      l ← cache_Lookup cache key c;
      let '(cache_handle, c) := l in
      match cache_handle with
      | Some h => block ← cache_Value cache h c; Some (Status_OK, Some block, Some h, Some c)
      | None =>
          r ← ReadBlock snappy (tb_file t) (ro_verify_checksums options) handle;
          let '(s, contents) := r in
          if ok s then
            let block := new_Block (c_data contents) in
            if c_cachable contents && ro_fill_cache options then
              i ← cache_Insert cache key block (b_size block) c;
              Some (s, Some block, Some i.1, Some i.2)
            else Some (s, Some block, None, Some c)
          else Some (s, None, None, Some c)
      end
  | None =>
      r ← ReadBlock snappy (tb_file t) (ro_verify_checksums options) handle;
      let '(s, contents) := r in
      Some (s, if ok s then Some (new_Block (c_data contents)) else None, None, None)
  end.

(** The iterator and the handle its cleanup releases. *)
Definition BlockReader (t : Table) (options : ReadOptions) (index_value : bytes) (c : option C) :
    option ((Status + BlockIter) * option H * option C) :=
  let '(s, handle, _) := BlockHandle_DecodeFrom index_value new_BlockHandle in
  b ← (if ok s then fetch_block t options handle c else Some (s, None, None, c));
  let '(s, block, cache_handle, c) := b in
  match block with
  | Some block => iter ← Block_NewIterator block; Some (iter, cache_handle, c)
  | None => Some (inl (NewErrorIterator s), None, c)
  end.

(** [delete iter]: the registered cleanup. *)
Definition run_cleanup (cache_handle : option H) (c : option C) : option (option C) :=
  match cache_handle, c with
  | Some h, Some c => Some <$> cache_Release cache h c
  | _, _ => Some c
  end.

(** ** Lookups: the key and value passed to the saver, if any *)

Definition Table_InternalGet (t : Table) (options : ReadOptions) (k : bytes) (c : option C) :
    option (Status * option (bytes * bytes) * option C) :=
  let index := AnyBlockIterator (tb_comparator t) in
  iiter ← Block_NewIterator (tb_index_block t);
  iiter ← it_Seek index k iiter;
  r ← (if it_Valid index iiter then
         handle_value ← it_value index iiter;
         let '(hs, handle, _) := BlockHandle_DecodeFrom handle_value new_BlockHandle in
         if match tb_filter t with
            | Some (p, f) => ok hs && negb (FilterBlock_KeyMayMatch p f (h_offset handle) k)
            | None => false
            end
         then Some (Status_OK, None, c)
         else
           b ← BlockReader t options handle_value c;
           let '(block_iter, cache_handle, c) := b in
           block_iter ← it_Seek index k block_iter;
           saved ← (if it_Valid index block_iter
                    then key ← it_key index block_iter; value ← it_value index block_iter; Some (Some (key, value))
                    else Some None);
           c ← run_cleanup cache_handle c;
           Some (it_status index block_iter, saved, c)
       else Some (Status_OK, None, c));
  let '(s, saved, c) := r in
  Some (if ok s then it_status index iiter else s, saved, c).

Definition Table_ApproximateOffsetOf (t : Table) (key : bytes) : option Z :=
  let index := AnyBlockIterator (tb_comparator t) in
  index_iter ← Block_NewIterator (tb_index_block t);
  index_iter ← it_Seek index key index_iter;
  if it_Valid index index_iter then
    input ← it_value index index_iter;
    let '(s, handle, _) := BlockHandle_DecodeFrom input new_BlockHandle in
    Some (if ok s then h_offset handle else h_offset (tb_metaindex_handle t))
  else Some (h_offset (tb_metaindex_handle t)).

End Table.
