(* ===== verification/TableWrite.v ===== *)
(** * What the table builder writes

    The invariant of [TableBuilder] over a sequence of [Add]s on a file that
    does not fail, and the table file [Finish] leaves: data blocks that hold
    the entries in order, an index of separators between them, a filter that
    knows every key. *)

From S2P Require Import Prelude Coding Status Comparator Crc32c Dbformat Filter FilterBlock Env Iterator Block Format TableBuilder.

(** ** Sizes *)

(** What an entry may cost anywhere in the file. *)
Definition ecost (e : bytes * bytes) : Z := zlen e.1 + zlen e.2 + 64.
Definition cost (es : entries) : Z := fold_right (fun e c => ecost e + c) 0 es.

Lemma cost_cons e es : cost (e :: es) = ecost e + cost es.
Proof. done. Qed.

Lemma cost_app a b : cost (a ++ b) = cost a + cost b.
Proof. induction a as [|e a IH]; [done|]. cbn [app]. rewrite !cost_cons, IH. lia. Qed.

Lemma ecost_pos e : 64 <= ecost e.
Proof. unfold ecost. pose proof (zlen_nonneg e.1). pose proof (zlen_nonneg e.2). lia. Qed.

Lemma cost_nonneg es : 0 <= cost es.
Proof. induction es as [|e es IH]; [done|]. rewrite cost_cons. pose proof (ecost_pos e). lia. Qed.

Lemma cost_nonempty es : es <> [] -> 64 <= cost es.
Proof. destruct es as [|e es]; [done|]. intros _. rewrite cost_cons. pose proof (ecost_pos e). pose proof (cost_nonneg es). lia. Qed.

Lemma cost_small es : cost es < 2 ^ 31 -> Forall small_entry es.
Proof.
  induction es as [|e es IH]; intros Hc; constructor; rewrite cost_cons in Hc; pose proof (cost_nonneg es);
    pose proof (ecost_pos e); [unfold small_entry, ecost in *; lia|apply IH; lia].
Qed.

Lemma varint32_length v : zlen (EncodeVarint32 v) <= 5.
Proof. unfold EncodeVarint32, zlen. repeat case_match; cbn; lia. Qed.

(** [CurrentSizeEstimate] is the size of the finished block. *)
Lemma Finish_length b : zlen (BlockBuilder_Finish b).1 = CurrentSizeEstimate b.
Proof.
  unfold BlockBuilder_Finish, CurrentSizeEstimate. cbn [fst]. unfold PutFixed32 at 1. rewrite fold_PutFixed32, !zlen_app.
  unfold zlen at 2 3. rewrite fixed32_array_length, EncodeFixed32_length. unfold zlen. lia.
Qed.

Lemma Add_size interval cmp k v b b' : BlockBuilder_Add interval cmp k v b = Some b' ->
  CurrentSizeEstimate b' <= CurrentSizeEstimate b + ecost (k, v) - 44.
Proof.
  unfold BlockBuilder_Add. destruct (finished_ b); [done|]. destruct (_ <? counter_ b); [done|]. destruct (negb _); [done|].
  set (c := if counter_ b <? interval then _ else _). destruct c as [[shared restarts] counter] eqn:Ec.
  case_decide; [|done]. intros [= <-]. unfold CurrentSizeEstimate, ecost. cbn [buffer_ restarts_ fst snd]. unfold PutVarint32.
  rewrite !zlen_app. pose proof (varint32_length (u32 (Z.of_nat shared))).
  pose proof (varint32_length (u32 (Z.of_nat (length k - shared)))). pose proof (varint32_length (u32 (zlen v))).
  assert (zlen (drop shared k) <= zlen k) by (unfold zlen; rewrite length_drop; lia).
  assert (zlen restarts <= zlen (restarts_ b) + 1).
  { unfold c in Ec. destruct (counter_ b <? interval); injection Ec as _ <- _; [lia|]. by rewrite zlen_app. }
  lia.
Qed.

(** Separators and successors are not longer than the key they replace. *)
Class ShortSeparators (cmp : Comparator) : Prop := {
  short_separator : forall start limit, zlen (FindShortestSeparator cmp start limit) <= zlen start;
  short_successor : forall key, zlen (FindShortSuccessor cmp key) <= zlen key
}.

#[global] Instance Bytewise_short : ShortSeparators BytewiseComparator.
Proof.
  split.
  - intros s l. cbn. unfold Bytewise_FindShortestSeparator. pose proof (shared_prefix_le s l).
    destruct (Nat.leb_spec (Nat.min (length s) (length l)) (shared_prefix s l)); [lia|].
    destruct (_ && _); [|lia]. rewrite zlen_app. unfold zlen. rewrite length_take. cbn. lia.
  - intros k. cbn [FindShortSuccessor BytewiseComparator]. induction k as [|b k IH]; [done|].
    cbn [Bytewise_FindShortSuccessor]. destruct (_ =? _); rewrite !zlen_cons; [lia|]. pose proof (zlen_nonneg k).
    rewrite zlen_nil. lia.
Qed.

#[global] Instance InternalKeyComparator_short ucmp : ShortSeparators (InternalKeyComparator ucmp).
Proof.
  assert (Hu : forall k, zlen (ExtractUserKey k) <= zlen k - 8 \/ zlen (ExtractUserKey k) = 0).
  { intros k. unfold ExtractUserKey, zlen. rewrite length_take. lia. }
  assert (Ht : forall tmp k (c : bool), zlen (if (zlen tmp <? zlen (ExtractUserKey k)) && c
      then PutFixed64 tmp (PackSequenceAndType kMaxSequenceNumber kValueTypeForSeek) else k) <= zlen k).
  { intros tmp k c. destruct (Z.ltb_spec (zlen tmp) (zlen (ExtractUserKey k))); cbn [andb]; [|lia]. destruct c; [|lia].
    unfold PutFixed64. rewrite zlen_app. unfold zlen at 2. rewrite EncodeFixed64_length. pose proof (zlen_nonneg tmp).
    destruct (Hu k); lia. }
  split; intros; apply Ht.
Qed.

(** ** The builder's invariant *)

(** A data block in the file, with the key the index has for it. *)
Record Part := mkPart { p_sep : bytes; p_handle : BlockHandle; p_es : entries }.

Definition parts_es (ps : list Part) : entries := concat (map p_es ps).
Definition index_entry (p : Part) : bytes * bytes := (p_sep p, handle_bytes (p_handle p)).
Definition keys (es : entries) : list bytes := map fst es.

Section Write.
Context (snappy : Snappy) `{!SnappyLaws snappy}.
Context (opts : TableOptions) (Hinterval : 1 <= o_block_restart_interval opts).

Abbreviation cmp := (o_comparator opts).
Abbreviation interval := (o_block_restart_interval opts).

Context `{!ComparatorLaws cmp} `{!ShortSeparators cmp}.

(** The entries behind the parts that are in the index: of a block that is
    written and of the one being built. *)
Definition pend_es (pend : option (BlockHandle * entries)) : entries := from_option snd [] pend.

Definition all_es (done : list Part) (pend : option (BlockHandle * entries)) (cur : entries) : entries :=
  parts_es done ++ pend_es pend ++ cur.

(** The block with its first offset and its keys, as the filter sees it. *)
Definition filter_part (p : Part) : Z * list bytes := (h_offset (p_handle p), keys (p_es p)).
Definition filter_blocks (done : list Part) (pend : option (BlockHandle * entries)) (offset : Z) (cur : entries) :
    list (Z * list bytes) :=
  map filter_part done ++ from_option (fun p => [(h_offset p.1, keys p.2)]) [] pend ++ [(offset, keys cur)].

Definition part_end (ps : list Part) (i : nat) : nat := length (parts_es (take (S i) ps)).

(** The index keys of [ps] separate them, within all entries [es]. *)
Definition seps_ok (ps : list Part) (es : entries) : Prop :=
  forall i p, ps !! i = Some p -> exists k nx, last (p_es p) = Some k /\ es !! part_end ps i = Some nx /\
    p_sep p = FindShortestSeparator cmp k.1 nx.1.

Record writing (r : TableRep bytes) (done : list Part) (pend : option (BlockHandle * entries)) (cur : entries) : Prop := {
  wr_options : t_options r = opts;
  wr_status : t_status r = Status_OK;
  wr_closed : t_closed r = false;
  wr_offset : t_offset r = zlen (t_file r);
  wr_num : t_num_entries r = zlen (all_es done pend cur);
  wr_data : exists l, building interval (t_data_block r) l /\ l_es l = cur /\
    CurrentSizeEstimate (t_data_block r) <= 8 + cost cur - 44 * zlen cur;
  wr_index : exists l, building 1 (t_index_block r) l /\ l_es l = map index_entry done /\
    CurrentSizeEstimate (t_index_block r) <= 8 + cost (parts_es done);
  wr_done : Forall (fun p => block_at snappy (t_file r) (p_handle p) (p_es p) /\ p_es p <> []) done;
  wr_pend : t_pending_index_entry r = bool_decide (is_Some pend);
  wr_pending : forall h es, pend = Some (h, es) ->
    t_pending_handle r = h /\ block_at snappy (t_file r) h es /\ es <> [] /\ cur = [];
  wr_last : forall e, last (all_es done pend cur) = Some e -> t_last_key r = e.1;
  wr_filter : t_filter_block r =
    (fun p => (p, build_blocks p (filter_blocks done pend (t_offset r) cur))) <$> o_filter_policy opts;
  wr_offsets : StronglySorted Z.lt (map fst (filter_blocks done pend (t_offset r) cur));
  wr_seps : seps_ok done (all_es done pend cur);
  wr_sorted : sorted_keys (Compare cmp) (all_es done pend cur);
  wr_size : zlen (t_file r) <= cost (parts_es done ++ pend_es pend)
}.

Lemma building_empty i : 1 <= i -> exists l b, new_BlockBuilder i = Some b /\ building i b l /\ l_es l = [] /\
  CurrentSizeEstimate b = 8.
Proof.
  intros Hi. destruct (add_block_built i cmp []) as (b & l & Hb & Hbd & He); [done|constructor|constructor|].
  unfold add_block in Hb. cbn in Hb. exists l, b. split; [done|]. split; [done|]. split; [done|].
  unfold new_BlockBuilder in Hb. destruct (1 <=? i); [|done]. injection Hb as <-. done.
Qed.

Lemma writing_new : exists r, new_TableBuilder opts [] = Some r /\ writing r [] None [].
Proof.
  unfold new_TableBuilder. destruct (building_empty interval Hinterval) as (l & b & -> & Hb & Hl & Hs). cbn [mbind option_bind].
  destruct (building_empty 1 ltac:(lia)) as (li & bi & -> & Hbi & Hli & Hsi). cbn [mbind option_bind].
  eexists. split; [reflexivity|]. split; cbn; try done.
  - exists l. split; [done|]. split; [done|]. unfold zlen; cbn; lia.
  - exists li. split; [done|]. split; [done|]. lia.
  - repeat constructor.
  - constructor.
Qed.

(** ** Flushing a block *)

Lemma sorted_lt_snoc l a b : StronglySorted Z.lt (l ++ [a]) -> a < b -> StronglySorted Z.lt (l ++ [a] ++ [b]).
Proof.
  intros Hs Hab. induction l as [|x l IH]; cbn in *.
  - repeat constructor. done.
  - apply StronglySorted_inv in Hs as [Hs Hx]. constructor; [by apply IH|].
    apply Forall_app in Hx as [H1 H2]. apply Forall_inv in H2. apply Forall_app. split; [done|].
    repeat constructor; [done|]. lia.
Qed.

Lemma sorted_lt_last l x : StronglySorted Z.lt (l ++ [x]) -> Forall (fun y => y <= x) l.
Proof.
  induction l as [|y l IH]; intros Hs; constructor; apply StronglySorted_inv in Hs as [Hs Hy]; [|by apply IH].
  apply Forall_app in Hy as [_ Hy]. apply Forall_inv in Hy. lia.
Qed.

Lemma sorted_lt_le l : StronglySorted Z.lt l -> StronglySorted Z.le l.
Proof. induction 1 as [|x l _ IH Hx]; constructor; [done|]. eapply Forall_impl; [exact Hx|]. cbn. lia. Qed.

Lemma sorted_lt_nodup l x : StronglySorted Z.lt (l ++ [x]) -> NoDup l.
Proof.
  induction l as [|y l IH]; intros Hs; constructor; apply StronglySorted_inv in Hs as [Hs Hy]; [|by apply IH].
  apply Forall_app in Hy as [Hy _]. rewrite Forall_forall in Hy. intros Hin. specialize (Hy y Hin). lia.
Qed.

(** What [WriteBlock] does on a file that does not fail: the block is stored
    at the end of the file. *)
Lemma WriteBlock_stores i b l r : building i b l -> CurrentSizeEstimate b < 2 ^ 32 -> t_options r = opts ->
  t_status r = Status_OK -> t_offset r = zlen (t_file r) -> zlen (t_file r) < 2 ^ 62 ->
  exists h F, WriteBlock MemWritable snappy b r = Some (h, BlockBuilder_Reset (BlockBuilder_Finish b).2,
      set_written (t_file r ++ F) (zlen (t_file r ++ F)) Status_OK r) /\
    h_offset h = zlen (t_file r) /\ block_at snappy (t_file r ++ F) h (l_es l) /\ 5 <= zlen F <= CurrentSizeEstimate b + 5.
Proof.
  intros Hb Hsz Ho Hst Hoff HF. rewrite <- Finish_length in Hsz |- *.
  destruct (building_finish i b l Hb Hsz) as [Hd Hds]. unfold WriteBlock, t_ok. rewrite Hst. cbn [ok Status_OK].
  destruct (BlockBuilder_Finish b) as [raw b']. cbn [fst snd] in *. subst raw. rewrite Ho.
  pose proof (stores_written snappy (t_file r) (l_data l) (o_compression opts) ltac:(lia) ltac:(lia)) as Hs.
  destruct (compress snappy (o_compression opts) (l_data l)) as [c type]. destruct Hs as [Hs Hle].
  unfold WriteRawBlock. cbn [wf_Append MemWritable ok Status_OK]. rewrite Hoff. unfold kBlockTrailerSize.
  pose proof (zlen_nonneg (t_file r)). pose proof (zlen_nonneg c). rewrite u64_small by lia. rewrite <- app_assoc.
  pose proof (block_trailer_length type c). eexists _, (c ++ block_trailer type c). split.
  - rewrite !zlen_app, block_trailer_length. reflexivity.
  - split; [done|]. split; [|rewrite zlen_app; lia]. exists l. split; [done|]. split; [apply Hb|done].
Qed.

Lemma Reset_building i b l : building i b l -> 1 <= i ->
  exists l', building i (BlockBuilder_Reset (BlockBuilder_Finish b).2) l' /\ l_es l' = [] /\
    CurrentSizeEstimate (BlockBuilder_Reset (BlockBuilder_Finish b).2) = 8.
Proof.
  intros _ Hi. exists (mkLayout [] [] [0%nat]). split; [|done]. split; cbn; try done; [|lia].
  split; cbn; try done. intros j r Hj. apply list_lookup_singleton_Some in Hj as [_ <-]. by split; [lia|].
Qed.

Lemma empty_building i b l : building i b l -> BlockBuilder_empty b = true <-> l_es l = [].
Proof.
  intros [Hwf Hbuf _ _ _ _ _]. unfold BlockBuilder_empty. rewrite Hbuf. destruct (l_es l) as [|e es] eqn:E.
  - unfold l_chunks. rewrite E. by destruct (l_shared l).
  - split; [|done]. intros H. exfalso. destruct (chunks_lookup l Hwf 0 e) as (s & _ & Hc); [by rewrite E|].
    destruct (l_chunks l) as [|c cs]; [done|]. injection Hc as ->. pose proof (chunk_length s e). pose proof (zlen_nonneg e.2).
    cbn [concat] in H. destruct (chunk s e); [|done]. rewrite zlen_nil in *. lia.
Qed.

(** What the filter block has seen after [StartBlock], and after [AddKey]. *)
Lemma filter_flush p done h cur o o' : h_offset h = o ->
  build_blocks p (filter_blocks done (Some (h, cur)) o' []) = StartBlock p o' (build_blocks p (filter_blocks done None o cur)).
Proof.
  intros <-. unfold filter_blocks, build_blocks. cbn [from_option fst snd]. by rewrite app_nil_l, !fold_left_app.
Qed.

Lemma filter_add p done pend o cur e :
  build_blocks p (filter_blocks done pend o (cur ++ [e])) = AddKey e.1 (build_blocks p (filter_blocks done pend o cur)).
Proof.
  unfold filter_blocks, build_blocks, keys. rewrite !fold_left_app. cbn [fold_left fst snd]. by rewrite map_app, fold_left_app.
Qed.

Lemma writing_flush r done cur : writing r done None cur -> cur <> [] -> cost (all_es done None cur) < 2 ^ 31 ->
  exists r' h, TableBuilder_Flush MemWritable snappy r = Some r' /\ writing r' done (Some (h, cur)) [] /\
    h_offset h = t_offset r.
Proof.
  intros Hw Hne Hc. pose proof Hw as [Ho Hst Hcl Hoff Hnum (l & Hb & Hle & Hes) Hidx Hdone Hp _ Hlast Hfil Hoffs Hseps Hsort Hsize].
  unfold all_es, pend_es in *. cbn [from_option] in *. rewrite app_nil_l, app_nil_r in *. rewrite cost_app in Hc.
  pose proof (cost_nonneg (parts_es done)). pose proof (cost_nonneg cur). pose proof (cost_nonempty cur Hne).
  assert (1 <= zlen cur) by (destruct cur; [done|]; rewrite zlen_cons; pose proof (zlen_nonneg cur); lia).
  unfold TableBuilder_Flush, t_ok. rewrite Hcl, Hst. cbn [ok Status_OK negb].
  destruct (BlockBuilder_empty (t_data_block r)) eqn:Ee; [apply (empty_building _ _ _ Hb) in Ee; congruence|].
  rewrite Hp. rewrite bool_decide_eq_false_2 by (by intros []).
  destruct (WriteBlock_stores interval (t_data_block r) l r Hb ltac:(lia) Ho Hst Hoff ltac:(lia)) as (h & F & -> & Hho & Hba & HF).
  cbn [mbind option_bind]. cbv zeta. cbn [t_status set_pending set_data_block set_written ok Status_OK wf_Flush MemWritable t_file t_offset
    t_pending_handle t_pending_index_entry].
  eexists _, h. split; [reflexivity|]. split; [|by rewrite Hho]. rewrite Hle in Hba.
  split; unfold all_es, pend_es; cbn [t_options t_status t_closed t_offset t_file t_num_entries t_data_block t_index_block
    t_last_key t_filter_block t_pending_index_entry t_pending_handle set_filter set_written set_pending set_data_block from_option snd];
    rewrite ?app_nil_r; try done.
  - destruct (Reset_building interval (t_data_block r) l Hb Hinterval) as (l' & Hb' & He' & Hs'). exists l'. rewrite Hs'. done.
  - eapply Forall_impl; [exact Hdone|]. intros p [Hba' Hne']. split; [by apply block_at_more|done].
  - intros h' es [= <- <-]. done.
  - rewrite Hfil. destruct (o_filter_policy opts) as [p|]; [|done]. cbn [fmap option_fmap option_map fst snd].
    do 2 f_equal. rewrite (filter_flush _ _ _ _ (t_offset r)); [done|congruence].
  - unfold filter_blocks in *. cbn [from_option fst snd] in *. rewrite app_nil_l, !map_app in *. cbn [map fst] in *.
    rewrite Hho, <- Hoff. apply sorted_lt_snoc; [done|]. rewrite zlen_app. pose proof (zlen_nonneg F). lia.
  - rewrite zlen_app, cost_app. lia.
Qed.

(** ** Separators *)

Lemma part_end_S ps i p : ps !! i = Some p -> part_end ps i = (length (parts_es (take i ps)) + length (p_es p))%nat.
Proof.
  intros Hp. unfold part_end, parts_es. rewrite (take_S_r _ _ _ Hp), map_app, concat_app, length_app. cbn.
  by rewrite app_nil_r.
Qed.

Lemma part_start_le ps i j : (i < j)%nat -> (part_end ps i <= length (parts_es (take j ps)))%nat.
Proof.
  intros Hij. unfold part_end, parts_es. replace (take (S i) ps) with (take (S i) (take j ps)) by (rewrite take_take; f_equal; lia).
  rewrite <- (take_drop (S i) (take j ps)) at 2. rewrite map_app, concat_app, length_app. lia.
Qed.

Lemma part_lookup ps rest i p j e : ps !! i = Some p -> p_es p !! j = Some e ->
  (parts_es ps ++ rest) !! (length (parts_es (take i ps)) + j)%nat = Some e.
Proof.
  intros Hp Hj. assert (Hps : parts_es ps = parts_es (take i ps) ++ p_es p ++ parts_es (drop (S i) ps)).
  { unfold parts_es. rewrite <- (take_drop_middle ps i p Hp) at 1. by rewrite map_app, concat_app. }
  rewrite Hps, <- !app_assoc. rewrite lookup_app_r by lia. rewrite Nat.add_comm, Nat.add_sub.
  by apply lookup_app_l_Some.
Qed.

Lemma part_last ps rest i p k : ps !! i = Some p -> last (p_es p) = Some k ->
  (parts_es ps ++ rest) !! (part_end ps i - 1)%nat = Some k /\ (0 < part_end ps i)%nat.
Proof.
  intros Hp Hk. rewrite last_lookup in Hk. pose proof (lookup_lt_Some _ _ _ Hk).
  rewrite (part_end_S ps i p Hp). split; [|lia]. rewrite <- (part_lookup ps rest i p _ k Hp Hk). f_equal. lia.
Qed.

Lemma sorted_le es i j a b : sorted_keys (Compare cmp) es -> es !! i = Some a -> es !! j = Some b -> (i <= j)%nat ->
  Compare cmp a.1 b.1 <> Gt.
Proof.
  intros Hs Ha Hb Hij. destruct (decide (i = j)) as [->|].
  - rewrite Ha in Hb. injection Hb as <-. by rewrite (cmp_refl (Compare cmp)).
  - by rewrite (sorted_keys_lookup _ es i j a b Hs Ha Hb ltac:(lia)).
Qed.

Lemma sep_bounds ps rest i p : seps_ok ps (parts_es ps ++ rest) -> sorted_keys (Compare cmp) (parts_es ps ++ rest) ->
  ps !! i = Some p -> exists k nx, last (p_es p) = Some k /\ (parts_es ps ++ rest) !! part_end ps i = Some nx /\
    Compare cmp k.1 (p_sep p) <> Gt /\ Compare cmp (p_sep p) nx.1 = Lt.
Proof.
  intros Hseps Hs Hp. destruct (Hseps i p Hp) as (k & nx & Hk & Hnx & ->). exists k, nx. split; [done|]. split; [done|].
  destruct (part_last ps rest i p k Hp Hk) as [Hkl Hpos].
  assert (Hlt : Compare cmp k.1 nx.1 = Lt) by (apply (sorted_keys_lookup _ _ _ _ k nx Hs Hkl Hnx); lia).
  split; [by apply sep_lower|by apply sep_upper].
Qed.

(** A separator stands in front of every entry at or behind the next one. *)
Lemma sep_before ps rest i p j e : seps_ok ps (parts_es ps ++ rest) -> sorted_keys (Compare cmp) (parts_es ps ++ rest) ->
  ps !! i = Some p -> (parts_es ps ++ rest) !! j = Some e -> (part_end ps i <= j)%nat -> Compare cmp (p_sep p) e.1 = Lt.
Proof.
  intros Hseps Hs Hp Hj Hle. destruct (sep_bounds ps rest i p Hseps Hs Hp) as (k & nx & _ & Hnx & _ & Hlt).
  apply (cmp_lt_le_trans (Compare cmp) _ nx.1); [done|]. by apply (sorted_le _ _ _ nx e Hs Hnx Hj).
Qed.

Lemma index_sorted ps rest sep h es k : seps_ok ps (parts_es ps ++ es ++ rest) ->
  sorted_keys (Compare cmp) (parts_es ps ++ es ++ rest) -> last es = Some k -> Compare cmp k.1 sep <> Gt ->
  Forall (fun p => p_es p <> []) ps ->
  sorted_keys (Compare cmp) (map index_entry ps ++ [(sep, handle_bytes h)]).
Proof.
  intros Hseps Hs Hk Hsep Hne. apply sorted_keys_of_lookup. intros i j a b Hij Ha Hb.
  assert (Hi : (i < length ps)%nat).
  { apply lookup_lt_Some in Hb. rewrite length_app, length_map in Hb. cbn in Hb. lia. }
  rewrite lookup_app_l in Ha by (by rewrite length_map). rewrite list_lookup_fmap in Ha.
  destruct (ps !! i) as [p|] eqn:Ep; [|done]. injection Ha as <-. cbn [fst index_entry].
  destruct (decide (j < length ps)%nat) as [Hj|Hj].
  - rewrite lookup_app_l in Hb by (by rewrite length_map). rewrite list_lookup_fmap in Hb.
    destruct (ps !! j) as [q|] eqn:Eq; [|done]. injection Hb as <-. cbn [fst index_entry].
    destruct (sep_bounds ps _ j q Hseps Hs Eq) as (kq & _ & Hkq & _ & Hle & _).
    apply (cmp_lt_le_trans (Compare cmp) _ kq.1); [|done].
    destruct (part_last ps (es ++ rest) j q kq Eq Hkq) as [Hl Hpos].
    apply (sep_before ps _ i p _ kq Hseps Hs Ep Hl). pose proof (part_start_le ps i j Hij).
    rewrite (part_end_S ps j q Eq). rewrite last_lookup in Hkq. apply lookup_lt_Some in Hkq. lia.
  - rewrite lookup_app_r in Hb by (rewrite length_map; lia). apply list_lookup_singleton_Some in Hb as [_ <-]. cbn [fst].
    apply (cmp_lt_le_trans (Compare cmp) _ k.1); [|done]. rewrite last_lookup in Hk. pose proof (lookup_lt_Some _ _ _ Hk).
    apply (sep_before ps _ i p (length (parts_es ps) + pred (length es)) k Hseps Hs Ep).
    + rewrite lookup_app_r by lia. rewrite Nat.add_comm, Nat.add_sub. by apply lookup_app_l_Some.
    + pose proof (part_start_le ps i (length ps) Hi) as H'. rewrite firstn_all in H'. lia.
Qed.

(** ** Adding an entry *)

Lemma parts_es_snoc ps p : parts_es (ps ++ [p]) = parts_es ps ++ p_es p.
Proof. unfold parts_es. rewrite map_app, concat_app. cbn. by rewrite app_nil_r. Qed.

Lemma last_ecost es k : last es = Some k -> ecost k <= cost es.
Proof.
  intros [es' ->]%last_Some. rewrite cost_app, cost_cons. pose proof (cost_nonneg es'). cbn. lia.
Qed.

(** The state once the index has the entry of the block before, with [e] to be
    added next. *)
Record ready (r : TableRep bytes) (done : list Part) (cur : entries) (e : bytes * bytes) : Prop := {
  rd_options : t_options r = opts;
  rd_status : t_status r = Status_OK;
  rd_closed : t_closed r = false;
  rd_offset : t_offset r = zlen (t_file r);
  rd_num : t_num_entries r = zlen (parts_es done ++ cur);
  rd_data : exists l, building interval (t_data_block r) l /\ l_es l = cur /\
    CurrentSizeEstimate (t_data_block r) <= 8 + cost cur - 44 * zlen cur;
  rd_index : exists l, building 1 (t_index_block r) l /\ l_es l = map index_entry done /\
    CurrentSizeEstimate (t_index_block r) <= 8 + cost (parts_es done);
  rd_done : Forall (fun p => block_at snappy (t_file r) (p_handle p) (p_es p) /\ p_es p <> []) done;
  rd_pend : t_pending_index_entry r = false;
  rd_filter : t_filter_block r =
    (fun p => (p, build_blocks p (filter_blocks done None (t_offset r) cur))) <$> o_filter_policy opts;
  rd_offsets : StronglySorted Z.lt (map fst (filter_blocks done None (t_offset r) cur));
  rd_seps : seps_ok done (parts_es done ++ cur ++ [e]);
  rd_sorted : sorted_keys (Compare cmp) (parts_es done ++ cur ++ [e]);
  rd_size : zlen (t_file r) <= cost (parts_es done)
}.

Lemma seps_ok_more ps es more : seps_ok ps es -> seps_ok ps (es ++ more).
Proof.
  intros H i p Hp. destruct (H i p Hp) as (k & nx & Hk & Hnx & Hsep). exists k, nx. split; [done|]. split; [|done].
  by apply lookup_app_l_Some.
Qed.

Lemma ready_none r done cur e : writing r done None cur -> sorted_keys (Compare cmp) (all_es done None cur ++ [e]) ->
  ready r done cur e.
Proof.
  intros [Ho Hst Hcl Hoff Hnum Hdata Hidx Hdone Hp _ _ Hfil Hoffs Hseps _ Hsize] Hs.
  unfold all_es, pend_es in *. cbn [from_option] in *. rewrite app_nil_l in *. rewrite app_nil_r in Hsize.
  rewrite <- app_assoc in Hs. split; try done. rewrite app_assoc. by apply seps_ok_more.
Qed.

(** The entry of a written block goes into the index. *)
Lemma index_added r done h es sep k : writing r done (Some (h, es)) [] -> last es = Some k -> zlen sep <= zlen k.1 ->
  Compare cmp k.1 sep <> Gt -> cost (all_es done (Some (h, es)) []) < 2 ^ 31 ->
  exists bi l, add_index_entry sep r = Some (set_index bi sep false r) /\ building 1 bi l /\
    l_es l = map index_entry (done ++ [mkPart sep h es]) /\
    CurrentSizeEstimate bi <= 8 + cost (parts_es (done ++ [mkPart sep h es])).
Proof.
  intros [Ho _ _ _ _ _ (l & Hb & Hl & Hsz) Hdone _ Hpe _ _ _ Hseps Hsort _] Hk Hlen Hle Hc.
  destruct (Hpe h es eq_refl) as (Hh & (lh & [Hok _] & _) & _ & _). unfold all_es, pend_es in *. cbn [from_option snd] in *.
  rewrite app_nil_r in *. rewrite cost_app in Hc. pose proof (cost_nonneg (parts_es done)). pose proof (last_ecost es k Hk).
  pose proof (handle_bytes_length h Hok). unfold ecost in *. pose proof (zlen_nonneg k.2). pose proof (zlen_nonneg k.1).
  assert (Hs : sorted_keys (Compare cmp) (l_es l ++ [(sep, handle_bytes h)])).
  { rewrite Hl. apply (index_sorted done [] sep h es k); rewrite ?app_nil_r; try done.
    eapply Forall_impl; [exact Hdone|]. by intros p []. }
  destruct (building_add 1 cmp (t_index_block r) l (sep, handle_bytes h)) as (bi & l' & Hadd & Hb' & Hl'); try done.
  { unfold small_entry. cbn [fst snd]. lia. }
  pose proof (Add_size _ _ _ _ _ _ Hadd) as Has. unfold ecost in Has. cbn [fst snd] in *.
  exists bi, l'. split; [|split; [done|split]].
  - unfold add_index_entry. rewrite Hh, BlockHandle_EncodeTo_ok by done. cbn [mbind option_bind]. rewrite app_nil_l, Ho, Hadd. done.
  - by rewrite Hl', Hl, map_app.
  - rewrite parts_es_snoc, cost_app. cbn [p_es]. lia.
Qed.

Lemma ready_pending r done h es e : writing r done (Some (h, es)) [] ->
  sorted_keys (Compare cmp) (all_es done (Some (h, es)) [] ++ [e]) -> cost (all_es done (Some (h, es)) []) < 2 ^ 31 ->
  exists r' sep, add_index_entry (FindShortestSeparator cmp (t_last_key r) e.1) r = Some r' /\
    ready r' (done ++ [mkPart sep h es]) [] e.
Proof.
  intros Hw Hs Hc. pose proof Hw as [Ho Hst Hcl Hoff Hnum Hdata _ Hdone _ Hpe Hlast Hfil Hoffs Hseps _ Hsize].
  destruct (Hpe h es eq_refl) as (Hh & Hba & Hne & _). destruct (last es) as [k|] eqn:Ek; [|by apply last_None in Ek].
  unfold all_es, pend_es in *. cbn [from_option snd] in *. rewrite app_nil_r in *.
  rewrite (Hlast k) by (rewrite last_app; by rewrite Ek).
  assert (Hke : Compare cmp k.1 e.1 = Lt).
  { pose proof Ek as [es' ->]%last_Some. rewrite <- !app_assoc in Hs. cbn [app] in Hs.
    apply (sorted_keys_lookup _ _ (length (parts_es done ++ es')) (S (length (parts_es done ++ es'))) k e Hs); [..|lia].
    - rewrite app_assoc. by rewrite list_lookup_middle.
    - rewrite app_assoc, lookup_app_r by lia. by rewrite Nat.sub_succ_l, Nat.sub_diag by lia. }
  destruct (index_added r done h es (FindShortestSeparator cmp k.1 e.1) k Hw Ek) as (bi & l & -> & Hb & Hl & Hsz).
  { apply short_separator. }
  { by apply sep_lower. }
  { unfold all_es, pend_es. cbn [from_option snd]. by rewrite app_nil_r. }
  eexists _, _. split; [reflexivity|]. split; rewrite ?parts_es_snoc;
    cbn [t_options t_status t_closed t_offset t_file t_num_entries t_data_block t_index_block t_filter_block
      t_pending_index_entry set_index p_es]; rewrite ?app_nil_r, ?app_nil_l; try done.
  - exists l. split; [done|]. split; [done|]. by rewrite parts_es_snoc in Hsz.
  - apply Forall_app. split; [done|]. by apply Forall_singleton.
  - rewrite Hfil. unfold filter_blocks. rewrite map_app, <- !app_assoc. done.
  - unfold filter_blocks in *. rewrite !map_app in *. rewrite <- !app_assoc. done.
  - intros i p [Hp|[Hi Hp]]%lookup_app_Some.
    + destruct (Hseps i p Hp) as (k' & nx & Hk' & Hnx & Hsp). exists k', nx. split; [done|]. split; [|done].
      apply lookup_app_l_Some. rewrite <- Hnx. unfold part_end. f_equal. rewrite take_app_le; [done|].
      apply lookup_lt_Some in Hp. lia.
    + apply list_lookup_singleton_Some in Hp as [Hi' <-]. exists k, e. split; [done|]. split; [|done].
      unfold part_end. rewrite firstn_all2 by (rewrite length_app; cbn; lia). rewrite parts_es_snoc. cbn [p_es].
      by rewrite lookup_app_r, Nat.sub_diag.
Qed.

(** The second half of [TableBuilder::Add]. *)
Lemma ready_add r done cur e : ready r done cur e -> cost (parts_es done ++ cur ++ [e]) < 2 ^ 31 ->
  exists b, BlockBuilder_Add interval cmp e.1 e.2 (t_data_block r) = Some b /\
    writing (set_entry e.1 b (set_filter ((fun fb => (fb.1, AddKey e.1 fb.2)) <$> t_filter_block r) r)) done None (cur ++ [e]).
Proof.
  intros [Ho Hst Hcl Hoff Hnum (l & Hb & Hl & Hsz) Hidx Hdone Hp Hfil Hoffs Hseps Hs Hsize] Hc.
  rewrite !cost_app in Hc. pose proof (cost_nonneg (parts_es done)). pose proof (cost_nonneg cur). rewrite cost_cons in Hc. cbn [cost fold_right] in Hc.
  assert (Hs' : sorted_keys (Compare cmp) (l_es l ++ [e])) by (rewrite Hl; by apply (sorted_keys_suffix _ (parts_es done))).
  destruct (building_add interval cmp (t_data_block r) l e Hinterval Hb) as (b & l' & Hadd & Hb' & Hl'); [|done|].
  { unfold small_entry, ecost in *. lia. }
  exists b. split; [done|]. pose proof (Add_size _ _ _ _ _ _ Hadd) as Has.
  split; unfold all_es, pend_es; cbn [t_options t_status t_closed t_offset t_file t_num_entries t_data_block t_index_block
    t_last_key t_filter_block t_pending_index_entry t_pending_handle set_filter set_entry from_option snd];
    rewrite ?app_nil_l, ?app_nil_r; try done.
  - rewrite Hnum, !zlen_app. change (zlen [e]) with 1. lia.
  - exists l'. split; [done|]. split; [by rewrite Hl', Hl|]. rewrite cost_app, cost_cons, zlen_app. change (zlen [e]) with 1.
    destruct e as [k v]. cbn [cost fold_right fst snd] in *. lia.
  - intros x. rewrite app_assoc, last_snoc. by intros [= <-].
  - rewrite Hfil. destruct (o_filter_policy opts) as [p|]; [|done]. cbn [fmap option_fmap option_map fst snd]. by rewrite filter_add.
  - unfold filter_blocks in *. by rewrite !map_app in *.
Qed.

Lemma writing_add r done pend cur e : writing r done pend cur -> sorted_keys (Compare cmp) (all_es done pend cur ++ [e]) ->
  cost (all_es done pend cur ++ [e]) < 2 ^ 31 ->
  exists r' done' pend' cur', TableBuilder_Add MemWritable snappy e.1 e.2 r = Some r' /\ writing r' done' pend' cur' /\
    all_es done' pend' cur' = all_es done pend cur ++ [e].
Proof.
  intros Hw Hs Hc. unfold TableBuilder_Add, t_ok. rewrite (wr_closed _ _ _ _ Hw), (wr_status _ _ _ _ Hw). cbn [ok Status_OK negb].
  rewrite (wr_options _ _ _ _ Hw), (wr_num _ _ _ _ Hw).
  assert (Hg : (0 <? zlen (all_es done pend cur)) && negb (is_gt (Compare cmp e.1 (t_last_key r))) = false).
  { destruct (last (all_es done pend cur)) as [x|] eqn:Ex; [|by apply last_None in Ex as ->].
    rewrite (wr_last _ _ _ _ Hw x Ex). apply last_Some in Ex as [es' Ex]. rewrite Ex, <- app_assoc in Hs. cbn [app] in Hs.
    rewrite (proj2 (cmp_gt_lt (Compare cmp) e.1 x.1)); [apply andb_false_r|].
    apply (sorted_keys_lookup _ _ (length es') (S (length es')) x e Hs); [by rewrite list_lookup_middle| |lia].
    by rewrite lookup_app_r, Nat.sub_succ_l, Nat.sub_diag by lia. }
  rewrite Hg. rewrite (wr_pend _ _ _ _ Hw). clear Hg.
  assert (Hr : exists r1 done' cur', (if bool_decide (is_Some pend) then
      if BlockBuilder_empty (t_data_block r) then add_index_entry (FindShortestSeparator cmp (t_last_key r) e.1) r else None
    else Some r) = Some r1 /\ ready r1 done' cur' e /\ parts_es done' ++ cur' = all_es done pend cur).
  { destruct pend as [[h es]|].
    - destruct (wr_pending _ _ _ _ Hw h es eq_refl) as (_ & _ & _ & ->). destruct (wr_data _ _ _ _ Hw) as (l & Hb & Hl & _).
      rewrite (proj2 (empty_building _ _ _ Hb) Hl). rewrite bool_decide_eq_true_2 by done.
      destruct (ready_pending r done h es e Hw Hs) as (r' & sep & Hr & Hrd).
      { rewrite cost_app in Hc. pose proof (cost_nonneg [e]). lia. }
      exists r', (done ++ [mkPart sep h es]), []. split; [done|]. split; [done|]. rewrite parts_es_snoc, app_nil_r. unfold all_es.
      cbn. by rewrite app_nil_r.
    - exists r, done, cur. split; [done|]. split; [by apply ready_none|done]. }
  destruct Hr as (r1 & done' & cur' & -> & Hrd & Hall). cbn [mbind option_bind]. rewrite <- Hall, <- app_assoc in *.
  destruct (ready_add r1 done' cur' e Hrd Hc) as (b & Hadd & Hw'). pose proof (rd_options _ _ _ _ Hrd) as Ho.
  cbn [t_options set_filter t_data_block set_entry]. rewrite Ho, Hadd. cbn [mbind option_bind]. clear Hw Hs. cbn [t_data_block set_entry].
  destruct (o_block_size opts <=? CurrentSizeEstimate b).
  - destruct (writing_flush _ done' (cur' ++ [e]) Hw') as (r' & h & Hf & Hw2 & _); [by destruct cur'|by unfold all_es, pend_es|].
    exists r', done', (Some (h, cur' ++ [e])), []. split; [exact Hf|]. split; [done|]. unfold all_es, pend_es. cbn. by rewrite app_nil_r.
  - eexists _, done', None, (cur' ++ [e]). split; [reflexivity|]. split; [exact Hw'|]. done.
Qed.

End Write.
