(* ===== verification/TableFile.v ===== *)
(** * The finished table file

    What [TableBuilder::Finish] leaves behind a sequence of [Add]s: a file
    whose footer names an index of separators, data blocks that hold the
    entries in order, and a filter that knows every key. *)

From S2P Require Import Prelude Coding Status Comparator Crc32c Dbformat Filter FilterBlock Env Iterator Block Format TableBuilder TableWrite.

(** ** The size of a filter block *)

(** Filters of at most 512 bits for each key, and a name that fits a block. *)
Class SmallFilter (p : FilterPolicy) : Prop := {
  small_name : zlen (fp_Name p) < 2 ^ 30;
  small_filter : forall ks, zlen ks < 2 ^ 31 -> zlen (CreateFilter p ks []) <= 64 * zlen ks + 16
}.

#[global] Instance Bloom_small bpk : 0 <= bpk <= 512 -> SmallFilter (NewBloomFilterPolicy bpk).
Proof.
  intros Hb. split; [done|]. intros ks Hn. cbn [NewBloomFilterPolicy CreateFilter]. unfold Bloom_CreateFilter.
  pose proof (zlen_nonneg ks). destruct (bloom_size bpk (zlen ks)) as [H1 H2]; [lia|lia|].
  pose proof (bloom_k_range bpk) as Hkr. set (nbytes := u64 _ / 8) in *. rewrite H2, app_nil_l.
  set (array := replicate (Z.to_nat nbytes) x00 ++ [z2b (bloom_k bpk)]).
  assert (Hlen : length array = S (Z.to_nat nbytes)).
  { unfold array. rewrite length_app, length_replicate. simpl. lia. }
  assert (Hl : bloom_layout (Z.to_nat nbytes) (nbytes * 8) array) by (split; lia).
  destruct (bloom_fold_spec (Z.to_nat (bloom_k bpk)) _ _ ks array Hl) as (_ & K1 & _). unfold zlen at 1. rewrite K1, Hlen.
  assert (nbytes <= 64 * zlen ks + 15).
  { unfold nbytes. rewrite (u64_small (zlen ks * bpk)) by nia. destruct (Z.ltb_spec (zlen ks * bpk) 64).
    - change (u64 (64 + 7) / 8) with 8. lia.
    - rewrite u64_small by nia. apply Z.div_le_upper_bound; nia. }
  lia.
Qed.

#[global] Instance InternalFilterPolicy_small fp : SmallFilter fp -> SmallFilter (InternalFilterPolicy fp).
Proof.
  intros [H1 H2]. split; [done|]. intros ks Hn. cbn [InternalFilterPolicy CreateFilter]. unfold zlen in *.
  specialize (H2 (map ExtractUserKey ks)). rewrite length_map in H2. by apply H2.
Qed.

Section FilterSize.
Context (p : FilterPolicy) `{!FilterPolicyLaws p} `{!SmallFilter p}.

(** [n] keys were added, and no more filters made than [m]. *)
Record filter_size (n m : Z) (b : FilterBlockBuilder) : Prop := {
  fs_result : zlen (result_ b) + 64 * zlen (start_ b) <= 64 * n + 16 * zlen (filter_offsets_ b);
  fs_keys : zlen (start_ b) <= n;
  fs_offsets : zlen (filter_offsets_ b) <= m
}.

Lemma make_tmp_keys_length ks start x : length (make_tmp_keys ks (start ++ [x])) = length start.
Proof.
  induction start as [|a start IH]; [done|]. cbn [app make_tmp_keys]. destruct start as [|b start]; [done|].
  cbn [app length] in *. by rewrite IH.
Qed.

Lemma GenerateFilter_size n m b : n < 2 ^ 31 -> filter_size n m b -> filter_size n (m + 1) (GenerateFilter p b).
Proof.
  intros Hn [Hr Hk Hm]. unfold GenerateFilter. assert (H1 : forall z : Z, zlen [z] = 1) by done.
  pose proof (zlen_nonneg (start_ b)).
  destruct (start_ b) as [|a start] eqn:Es; split; cbn [result_ start_ filter_offsets_]; rewrite ?zlen_app, ?H1, ?zlen_nil in *; try lia.
  all: rewrite <- Es in *. set (ks := make_tmp_keys _ _).
  assert (Hks : zlen ks = zlen (start_ b)) by (unfold ks, zlen; by rewrite make_tmp_keys_length).
  rewrite create_appends by lia. rewrite zlen_app. change (zlen (@nil Z)) with 0. pose proof (small_filter (p := p) ks ltac:(lia)). lia.
Qed.

Lemma AddKey_size n m k b : filter_size n m b -> filter_size (n + 1) m (AddKey k b).
Proof. intros [Hr Hk Hm]. split; cbn; rewrite ?zlen_app; try change (zlen [_]) with 1; lia. Qed.

Lemma AddKeys_size m ks : forall n b, filter_size n m b -> filter_size (n + zlen ks) m (fold_left (fun b k => AddKey k b) ks b).
Proof.
  induction ks as [|k ks IH]; intros n b Hb; cbn [fold_left].
  - rewrite zlen_nil. by replace (n + 0) with n by lia.
  - rewrite zlen_cons. replace (n + (1 + zlen ks)) with (n + 1 + zlen ks) by lia. by apply IH, AddKey_size.
Qed.

Lemma StartBlock_size n m o b : n < 2 ^ 31 -> o / kFilterBase <= m -> filter_size n m b -> filter_size n m (StartBlock p o b).
Proof.
  intros Hn Ho. unfold StartBlock. generalize (Z.to_nat (o / kFilterBase)). intros fuel. revert b.
  induction fuel as [|fuel IH]; intros b Hb; cbn [StartBlock_loop]; [done|].
  destruct (Z.ltb_spec (zlen (filter_offsets_ b)) (o / kFilterBase)); [|done]. apply IH.
  destruct Hb as [Hr Hk Hm]. destruct (GenerateFilter_size n (zlen (filter_offsets_ b)) b Hn) as [Hr' Hk' Hm']; [by split|].
  split; lia.
Qed.

Lemma build_blocks_size bs m : Forall (fun blk => blk.1 / kFilterBase <= m) bs -> 0 <= m -> num_keys bs < 2 ^ 31 ->
  filter_size (num_keys bs) m (build_blocks p bs).
Proof.
  intros Hbs Hm. unfold build_blocks, num_keys. induction bs as [|[o ks] bs IH] using rev_ind; intros Hn.
  - by split.
  - apply Forall_app in Hbs as [Hbs Ho]. apply Forall_inv in Ho. rewrite map_app, concat_app, zlen_app in *. cbn [map concat snd] in *.
    rewrite app_nil_r in *. rewrite fold_left_app. cbn [fold_left fst snd]. pose proof (zlen_nonneg ks).
    apply AddKeys_size, StartBlock_size; [lia|done|]. apply IH; [done|lia].
Qed.

Lemma filter_finish_size bs m : Forall (fun blk => blk.1 / kFilterBase <= m) bs -> 0 <= m -> num_keys bs < 2 ^ 31 ->
  zlen (FilterBlock_Finish p (build_blocks p bs)) <= 64 * num_keys bs + 20 * (m + 1) + 5.
Proof.
  intros Hbs Hm Hn. pose proof (build_blocks_size bs m Hbs Hm Hn) as Hs. unfold FilterBlock_Finish.
  set (b := match start_ _ with [] => _ | _ => _ end).
  assert (filter_size (num_keys bs) (m + 1) b) as [Hr Hk Ho].
  { unfold b. destruct (start_ (build_blocks p bs)) eqn:E; [|by apply GenerateFilter_size].
    destruct Hs as [H1 H2 H3]. split; lia. }
  rewrite fold_PutFixed32. unfold PutFixed32. rewrite !zlen_app. unfold zlen at 2 3. rewrite fixed32_array_length, EncodeFixed32_length.
  change (zlen [_]) with 1. pose proof (zlen_nonneg (start_ b)). unfold zlen in *. lia.
Qed.

End FilterSize.

(** ** The table file *)

Section File.
Context (snappy : Snappy) `{!SnappyLaws snappy}.
Context (opts : TableOptions) (Hinterval : 1 <= o_block_restart_interval opts).

Abbreviation cmp := (o_comparator opts).
Abbreviation interval := (o_block_restart_interval opts).

Context `{!ComparatorLaws cmp} `{!ShortSeparators cmp}.
Context (Hpolicy : forall p, o_filter_policy opts = Some p -> FilterPolicyLaws p /\ SmallFilter p).

(** [F] is a table of the entries of [parts], whose index keys separate them;
    with a filter policy there is a filter that no key of a part fails. *)
Record table_file (F : bytes) (parts : list Part) : Prop := {
  tf_footer : exists body enc m i, F = body ++ enc /\ zlen enc = kEncodedLength /\
    (forall rest, Footer_DecodeFrom (enc ++ rest) = Some (Status_OK, mkFooter m i, rest)) /\
    block_at snappy F i (map index_entry parts) /\
    forall p, o_filter_policy opts = Some p -> exists h raw,
      block_at snappy F m [(filter_key p, handle_bytes h)] /\ stores snappy F h raw /\
      forall part e, part ∈ parts -> e ∈ p_es part ->
        FilterBlock_KeyMayMatch p (new_FilterBlockReader raw) (h_offset (p_handle part)) e.1 = true;
  tf_blocks : Forall (fun p => block_at snappy F (p_handle p) (p_es p) /\ p_es p <> []) parts;
  tf_offsets : NoDup (map (fun p => h_offset (p_handle p)) parts);
  tf_seps : forall i p, parts !! i = Some p -> exists k, last (p_es p) = Some k /\ Compare cmp k.1 (p_sep p) <> Gt /\
    forall nx, parts_es parts !! part_end parts i = Some nx ->
      p_sep p = FindShortestSeparator cmp k.1 nx.1 /\ Compare cmp (p_sep p) nx.1 = Lt;
  tf_sorted : sorted_keys (Compare cmp) (parts_es parts)
}.

Definition final_parts (done : list Part) (pend : option (BlockHandle * entries)) : list Part :=
  match pend with
  | Some (h, es) => done ++ [mkPart (FindShortSuccessor cmp (from_option fst [] (last es))) h es]
  | None => done
  end.

Lemma final_parts_es done pend : parts_es (final_parts done pend) = parts_es done ++ pend_es pend.
Proof. destruct pend as [[h es]|]; unfold final_parts, pend_es; cbn [from_option snd]; [by rewrite parts_es_snoc|by rewrite app_nil_r]. Qed.

Lemma flushed r done pend cur : writing snappy opts r done pend cur -> cost (all_es done pend cur) < 2 ^ 31 ->
  exists r' pend', TableBuilder_Flush MemWritable snappy r = Some r' /\ writing snappy opts r' done pend' [] /\
    all_es done pend' [] = all_es done pend cur.
Proof.
  intros Hw Hc. destruct (decide (cur = [])) as [->|Hne].
  - destruct (wr_data _ _ _ _ _ _ Hw) as (l & Hb & Hl & _). exists r, pend. split; [|done].
    unfold TableBuilder_Flush, t_ok. rewrite (wr_closed _ _ _ _ _ _ Hw), (wr_status _ _ _ _ _ _ Hw). cbn [ok Status_OK negb].
    by rewrite (proj2 (empty_building _ _ _ Hb) Hl).
  - destruct pend as [[h es]|]; [by destruct (wr_pending _ _ _ _ _ _ Hw h es eq_refl) as (_ & _ & _ & ?)|].
    destruct (writing_flush snappy opts Hinterval r done cur Hw Hne Hc) as (r' & h & Hf & Hw' & _).
    exists r', (Some (h, cur)). split; [done|]. split; [done|]. unfold all_es, pend_es. cbn. by rewrite app_nil_r.
Qed.

Lemma nothing_pending r done : writing snappy opts r done None [] -> done = [].
Proof.
  intros Hw. destruct done as [|p done _] using rev_ind; [done|]. exfalso.
  destruct (wr_seps _ _ _ _ _ _ Hw (length done) p) as (k & nx & _ & Hnx & _); [by rewrite list_lookup_middle|].
  apply lookup_lt_Some in Hnx. unfold all_es, pend_es in Hnx. cbn in Hnx. rewrite app_nil_r in Hnx. unfold part_end in Hnx.
  rewrite firstn_all2 in Hnx by (rewrite length_app; cbn; lia). lia.
Qed.

(** *** The filter *)

Lemma filter_facts r done pend p : writing snappy opts r done pend [] -> cost (all_es done pend []) < 2 ^ 31 ->
  o_filter_policy opts = Some p ->
  let raw := FilterBlock_Finish p (build_blocks p (filter_blocks done pend (t_offset r) [])) in
  zlen raw < 2 ^ 32 /\
  forall part e, part ∈ final_parts done pend -> e ∈ p_es part ->
    FilterBlock_KeyMayMatch p (new_FilterBlockReader raw) (h_offset (p_handle part)) e.1 = true.
Proof.
  intros Hw Hc Hp raw. destruct (Hpolicy p Hp) as [HL HS]. set (bs := filter_blocks done pend (t_offset r) []) in *.
  pose proof (wr_offsets _ _ _ _ _ _ Hw) as Hoff. fold bs in Hoff. pose proof (wr_size _ _ _ _ _ _ Hw) as Hsz.
  unfold all_es in Hc. rewrite app_nil_r in Hc.
  assert (Hpos : Forall (fun blk => 0 <= blk.1) bs).
  { unfold bs, filter_blocks. rewrite !Forall_app. split; [|split].
    - apply Forall_map. eapply Forall_impl; [exact (wr_done _ _ _ _ _ _ Hw)|]. intros q [(l & [[Ho _] _] & _) _]. cbn. lia.
    - destruct pend as [[h es]|]; [|constructor]. destruct (wr_pending _ _ _ _ _ _ Hw h es eq_refl) as (_ & (l & [[Ho _] _] & _) & _).
      apply Forall_singleton. cbn. lia.
    - apply Forall_singleton. cbn [fst]. rewrite (wr_offset _ _ _ _ _ _ Hw). apply zlen_nonneg. }
  assert (Hmax : Forall (fun blk => blk.1 / kFilterBase <= 2 ^ 20) bs).
  { assert (Hle : Forall (fun blk => blk.1 <= t_offset r) bs).
    { unfold bs, filter_blocks in *. rewrite app_assoc, map_app in Hoff. rewrite app_assoc. apply Forall_app. split.
      - by apply (Forall_map fst (fun o => o <= t_offset r)), sorted_lt_last.
      - by apply Forall_singleton. }
    eapply Forall_impl; [exact Hle|]. intros blk Hb. rewrite (wr_offset _ _ _ _ _ _ Hw) in Hb.
    change kFilterBase with 2048. Z.to_euclidean_division_equations. lia. }
  assert (Hnum : 64 * num_keys bs <= cost (parts_es done ++ pend_es pend)).
  { assert (Hk : concat (map snd bs) = keys (parts_es done ++ pend_es pend)).
    { unfold bs, filter_blocks, keys. rewrite !map_app, !concat_app. cbn. rewrite !app_nil_r. f_equal.
      - unfold parts_es. rewrite map_map, concat_map, map_map. done.
      - destruct pend as [[h es]|]; cbn; by rewrite ?app_nil_r. }
    unfold num_keys, zlen, keys. rewrite Hk. unfold keys. rewrite length_map. clear.
    induction (parts_es done ++ pend_es pend) as [|e es IH]; [done|]. rewrite cost_cons. pose proof (ecost_pos e). cbn [length]. lia. }
  assert (Hraw : zlen raw < 2 ^ 32) by (pose proof (filter_finish_size p bs (2 ^ 20) Hmax ltac:(lia) ltac:(lia)); unfold raw; lia).
  split; [done|]. intros part e Hpart He. apply (filter_block_complete p bs _ (keys (p_es part))); try done; [by apply sorted_lt_le|lia| |].
  - unfold bs, filter_blocks. destruct pend as [[h es]|]; cbn [final_parts from_option] in *.
    + apply elem_of_app in Hpart as [Hpart|Hpart%list_elem_of_singleton].
      * apply elem_of_app. left. by apply (list_elem_of_fmap_2 filter_part).
      * subst part. apply elem_of_app. right. apply elem_of_app. left. cbn. by apply list_elem_of_singleton.
    + apply elem_of_app. left. by apply (list_elem_of_fmap_2 filter_part).
  - by apply (list_elem_of_fmap_2 fst).
Qed.

(** *** The blocks behind the data *)

Lemma write_filter_stores r done pend : writing snappy opts r done pend [] -> cost (all_es done pend []) < 2 ^ 31 ->
  exists h F, write_filter MemWritable (set_closed r) = (h, set_written (t_file r ++ F) (zlen (t_file r ++ F)) Status_OK (set_closed r)) /\
    zlen F <= 2 ^ 33 /\
    forall p, o_filter_policy opts = Some p -> exists raw, stores snappy (t_file r ++ F) h raw /\
      forall part e, part ∈ final_parts done pend -> e ∈ p_es part ->
        FilterBlock_KeyMayMatch p (new_FilterBlockReader raw) (h_offset (p_handle part)) e.1 = true.
Proof.
  intros Hw Hc. pose proof (wr_offset _ _ _ _ _ _ Hw) as Hoff. pose proof (wr_status _ _ _ _ _ _ Hw) as Hst.
  pose proof (wr_size _ _ _ _ _ _ Hw) as Hsz. pose proof (fun p => filter_facts r done pend p Hw Hc) as Hff. pose proof Hc as Hc'. unfold all_es in Hc'. rewrite app_nil_r in Hc'.
  pose proof (zlen_nonneg (t_file r)). unfold write_filter, t_ok. cbn [t_status set_closed t_filter_block]. rewrite Hst. cbn [ok Status_OK].
  rewrite (wr_filter _ _ _ _ _ _ Hw). destruct (o_filter_policy opts) as [p|] eqn:Ep; cbn [fmap option_fmap option_map].
  - destruct (Hff p eq_refl) as [Hraw Hm].
    set (raw := FilterBlock_Finish _ _) in *. pose proof (zlen_nonneg raw).
    destruct (stores_written snappy (t_file r) raw kNoCompression ltac:(lia) ltac:(lia)) as [Hs _].
    unfold WriteRawBlock. cbn [wf_Append MemWritable ok Status_OK t_file set_closed t_offset]. rewrite Hoff. unfold kBlockTrailerSize.
    rewrite u64_small by lia. eexists _, (raw ++ block_trailer kNoCompression raw). split.
    + rewrite !zlen_app, block_trailer_length, <- app_assoc. reflexivity.
    + split; [rewrite zlen_app, block_trailer_length; lia|]. intros ? [= <-]. exists raw. done.
  - exists new_BlockHandle, []. rewrite app_nil_r. split; [|done]. unfold set_written, set_closed.
    cbn [t_options t_data_block t_index_block t_last_key t_num_entries t_closed t_filter_block t_pending_index_entry t_pending_handle].
    by rewrite <- Hoff, <- Hst.
Qed.

Definition metaindex_es (h : BlockHandle) : entries :=
  from_option (fun p => [(filter_key p, handle_bytes h)]) [] (o_filter_policy opts).

Lemma write_metaindex_stores r h : t_options r = opts -> t_status r = Status_OK -> t_offset r = zlen (t_file r) ->
  zlen (t_file r) < 2 ^ 61 -> fst <$> t_filter_block r = o_filter_policy opts ->
  (forall p, o_filter_policy opts = Some p -> handle_ok h) ->
  exists m F, write_metaindex MemWritable snappy h r = Some (m, set_written (t_file r ++ F) (zlen (t_file r ++ F)) Status_OK r) /\
    block_at snappy (t_file r ++ F) m (metaindex_es h) /\ zlen F <= 2 ^ 32.
Proof.
  intros Ho Hst Hoff Hsz Hfil Hh. unfold write_metaindex, t_ok. rewrite Hst, Ho. cbn [ok Status_OK].
  destruct (building_empty opts interval Hinterval) as (l & b & -> & Hb & Hl & Hsb). cbn [mbind option_bind].
  assert (Hadd : exists b' l', match t_filter_block r with
      | Some (p, _) => handle_encoding ← BlockHandle_EncodeTo h []; BlockBuilder_Add interval cmp (filter_key p) handle_encoding b
      | None => Some b end = Some b' /\ building interval b' l' /\ l_es l' = metaindex_es h /\ CurrentSizeEstimate b' < 2 ^ 31).
  { unfold metaindex_es. rewrite <- Hfil in *. destruct (t_filter_block r) as [[p fb]|]; cbn [fmap option_fmap option_map fst from_option] in *.
    - specialize (Hh p eq_refl). destruct (Hpolicy p) as [_ HS]; [by symmetry|]. pose proof (small_name (p := p)) as Hname.
      rewrite BlockHandle_EncodeTo_ok by done. cbn [mbind option_bind]. rewrite app_nil_l. pose proof (handle_bytes_length h Hh).
      assert (Hk : zlen (filter_key p) < 2 ^ 30 + 8) by (unfold filter_key; rewrite zlen_app; change (zlen (lit "filter.")) with 7; lia).
      destruct (building_add interval cmp b l (filter_key p, handle_bytes h) Hinterval Hb) as (b' & l' & Hadd & Hb' & Hl').
      + unfold small_entry. cbn [fst snd]. lia.
      + rewrite Hl. repeat constructor.
      + exists b', l'. split; [done|]. split; [done|]. split; [by rewrite Hl', Hl|]. pose proof (Add_size _ _ _ _ _ _ Hadd) as Has.
        unfold ecost in Has. cbn [fst snd] in Has. lia.
    - exists b, l. split; [done|]. split; [done|]. split; [done|]. lia. }
  destruct Hadd as (b' & l' & Hadd & Hb' & Hl' & Hs'). rewrite Hadd. cbn [mbind option_bind].
  destruct (WriteBlock_stores snappy opts interval b' l' r Hb' ltac:(lia) Ho Hst Hoff ltac:(lia)) as (m & F & -> & _ & Hba & HF).
  cbn [mbind option_bind fst snd]. exists m, F. rewrite Hl' in Hba. split; [done|]. split; [done|]. lia.
Qed.

Lemma write_index_stores r done pend f : writing snappy opts r done pend [] -> cost (all_es done pend []) < 2 ^ 31 -> zlen f < 2 ^ 61 ->
  let r' := set_written f (zlen f) Status_OK (set_closed r) in
  exists i r'' F, write_index MemWritable snappy r' = Some (i, r'') /\ t_file r'' = f ++ F /\ t_status r'' = Status_OK /\
    t_offset r'' = zlen (f ++ F) /\ block_at snappy (f ++ F) i (map index_entry (final_parts done pend)) /\ zlen F <= 2 ^ 32.
Proof.
  intros Hw Hc Hf r'. pose proof (wr_options _ _ _ _ _ _ Hw) as Ho. unfold write_index, t_ok. change (t_status r') with Status_OK.
  cbn [ok Status_OK]. change (t_pending_index_entry r') with (t_pending_index_entry r). change (t_last_key r') with (t_last_key r).
  change (t_options r') with (t_options r). rewrite (wr_pend _ _ _ _ _ _ Hw), Ho.
  assert (Hr : exists r1 l, (if bool_decide (is_Some pend) then add_index_entry (FindShortSuccessor cmp (t_last_key r)) r' else Some r') = Some r1 /\
    t_options r1 = opts /\ t_status r1 = Status_OK /\ t_offset r1 = zlen f /\ t_file r1 = f /\ building 1 (t_index_block r1) l /\
    l_es l = map index_entry (final_parts done pend) /\ CurrentSizeEstimate (t_index_block r1) < 2 ^ 32 - 8).
  { destruct pend as [[h es]|].
    - destruct (wr_pending _ _ _ _ _ _ Hw h es eq_refl) as (_ & _ & Hne & _). destruct (last es) as [k|] eqn:Ek; [|by apply last_None in Ek].
      assert (Hlk : t_last_key r = k.1).
      { apply (wr_last _ _ _ _ _ _ Hw). unfold all_es, pend_es. cbn [from_option snd]. rewrite app_nil_r, last_app. by rewrite Ek. }
      destruct (index_added snappy opts r done h es (FindShortSuccessor cmp k.1) k Hw Ek) as (bi & l & Hadd & Hb & Hl & Hs); [apply short_successor|apply succ_lower|done|].
      assert (Hadd' : add_index_entry (FindShortSuccessor cmp k.1) r' = Some (set_index bi (FindShortSuccessor cmp k.1) false r')).
      { unfold add_index_entry in Hadd |- *. change (t_pending_handle r') with (t_pending_handle r).
        change (t_options r') with (t_options r). change (t_index_block r') with (t_index_block r).
        destruct (BlockHandle_EncodeTo (t_pending_handle r) []) as [enc|]; [|done]. cbn [mbind option_bind] in Hadd |- *.
        destruct (BlockBuilder_Add _ _ _ _ _) as [b|]; [|done]. cbn [mbind option_bind] in Hadd |- *. by injection Hadd as ->. }
      rewrite bool_decide_eq_true_2, Hlk by done. eexists _, l. split; [exact Hadd'|]. split; [exact Ho|]. do 3 (split; [done|]). split; [exact Hb|]. split.
      + unfold final_parts. by rewrite Ek.
      + cbn [t_index_block set_index]. rewrite parts_es_snoc in Hs. cbn [p_es] in Hs. unfold all_es, pend_es in Hc.
        cbn [from_option snd] in Hc. rewrite app_nil_r in Hc. lia.
    - destruct (wr_index _ _ _ _ _ _ Hw) as (l & Hb & Hl & Hs). exists r', l. split; [done|]. split; [exact Ho|].
      do 3 (split; [done|]). split; [exact Hb|]. split; [done|].
      change (t_index_block r') with (t_index_block r). unfold all_es, pend_es in Hc. cbn [from_option] in Hc. rewrite !app_nil_r in Hc. lia. }
  destruct Hr as (r1 & l & -> & Ho1 & Hst1 & Hoff1 & Hf1 & Hb & Hl & Hs). cbn [mbind option_bind].
  destruct (WriteBlock_stores snappy opts 1 (t_index_block r1) l r1 Hb ltac:(lia) Ho1 Hst1 ltac:(congruence) ltac:(by rewrite Hf1; lia))
    as (i & F & -> & _ & Hba & HF).
  rewrite Hl, Hf1 in *. cbn [mbind option_bind]. eexists i, _, F. split; [reflexivity|]. cbn [t_file t_status t_offset set_index set_written].
  do 4 (split; [done|]). lia.
Qed.

Lemma final_seps r done pend : writing snappy opts r done pend [] ->
  forall i p, final_parts done pend !! i = Some p -> exists k, last (p_es p) = Some k /\ Compare cmp k.1 (p_sep p) <> Gt /\
    forall nx, parts_es (final_parts done pend) !! part_end (final_parts done pend) i = Some nx ->
      p_sep p = FindShortestSeparator cmp k.1 nx.1 /\ Compare cmp (p_sep p) nx.1 = Lt.
Proof.
  intros Hw i p Hp. pose proof (wr_seps _ _ _ _ _ _ Hw) as Hseps. pose proof (wr_sorted _ _ _ _ _ _ Hw) as Hs.
  unfold all_es in *. rewrite app_nil_r in *. rewrite final_parts_es.
  assert (Hold : done !! i = Some p -> part_end (final_parts done pend) i = part_end done i ->
    exists k, last (p_es p) = Some k /\ Compare cmp k.1 (p_sep p) <> Gt /\
      forall nx, (parts_es done ++ pend_es pend) !! part_end (final_parts done pend) i = Some nx ->
        p_sep p = FindShortestSeparator cmp k.1 nx.1 /\ Compare cmp (p_sep p) nx.1 = Lt).
  { intros Hpd ->. destruct (sep_bounds opts done _ i p Hseps Hs Hpd) as (k & nx & Hk & Hnx & Hle & Hlt). exists k.
    split; [done|]. split; [done|]. intros nx' Hnx'. rewrite Hnx in Hnx'. injection Hnx' as <-. split; [|done].
    destruct (Hseps i p Hpd) as (k' & nx' & Hk' & Hnx' & Hsep). by simplify_eq. }
  destruct pend as [[h es]|]; cbn [final_parts] in *; [|by apply Hold].
  apply lookup_app_Some in Hp as [Hp|[Hi Hp]].
  - apply Hold; [done|]. unfold part_end. rewrite take_app_le; [done|]. apply lookup_lt_Some in Hp. lia.
  - apply list_lookup_singleton_Some in Hp as [Hi' <-]. destruct (wr_pending _ _ _ _ _ _ Hw h es eq_refl) as (_ & _ & Hne & _).
    destruct (last es) as [k|] eqn:Ek; [|by apply last_None in Ek]. exists k. cbn [p_es p_sep from_option]. split; [done|].
    split; [apply succ_lower|]. intros nx Hnx. exfalso. apply lookup_lt_Some in Hnx. unfold part_end in Hnx.
    rewrite firstn_all2 in Hnx by (rewrite length_app; cbn; lia). rewrite parts_es_snoc, !length_app in Hnx.
    cbn in Hnx. lia.
Qed.

Lemma final_offsets r done pend : writing snappy opts r done pend [] ->
  NoDup (map (fun p => h_offset (p_handle p)) (final_parts done pend)).
Proof.
  intros Hw. pose proof (wr_offsets _ _ _ _ _ _ Hw) as Hs. unfold filter_blocks in Hs.
  assert (Hf : map fst (map filter_part done ++ from_option (fun p => [(h_offset p.1, keys p.2)]) [] pend) =
    map (fun p => h_offset (p_handle p)) (final_parts done pend)).
  { rewrite map_app, map_map. destruct pend as [[h es]|]; cbn [final_parts from_option]; [by rewrite map_app|].
    by rewrite app_nil_r. }
  rewrite app_assoc, map_app, Hf in Hs. by apply sorted_lt_nodup in Hs.
Qed.

Lemma table_finished r done pend cur : writing snappy opts r done pend cur -> cost (all_es done pend cur) < 2 ^ 31 ->
  exists r' parts, TableBuilder_Finish MemWritable snappy r = Some (Status_OK, r') /\ table_file (t_file r') parts /\
    parts_es parts = all_es done pend cur /\ FileSize r' = zlen (t_file r').
Proof.
  intros Hw0 Hc0. destruct (flushed r done pend cur Hw0 Hc0) as (r1 & pend' & Hfl & Hw & Hall). rewrite <- Hall in *. clear Hw0 Hall.
  pose proof (wr_size _ _ _ _ _ _ Hw) as Hsz. unfold TableBuilder_Finish. rewrite Hfl. cbn [mbind option_bind].
  rewrite (wr_closed _ _ _ _ _ _ Hw). pose proof Hc0 as Hc'. unfold all_es in Hc'. rewrite app_nil_r in Hc'.
  destruct (write_filter_stores r1 done pend' Hw Hc0) as (h & F1 & -> & HF1 & Hfil). set (f1 := t_file r1 ++ F1) in *.
  set (r2 := set_written f1 (zlen f1) Status_OK (set_closed r1)).
  assert (Hz1 : zlen f1 < 2 ^ 34) by (unfold f1; rewrite zlen_app; lia).
  destruct (write_metaindex_stores r2 h) as (m & F2 & -> & Hm & HF2); try done; [exact (wr_options _ _ _ _ _ _ Hw)|cbn; lia| | |].
  { cbn. rewrite (wr_filter _ _ _ _ _ _ Hw). by destruct (o_filter_policy opts). }
  { intros p Hp. destruct (Hfil p Hp) as (raw & [Hh _] & _). exact Hh. }
  cbn [mbind option_bind fst snd]. change (t_file r2) with f1 in *. set (f2 := f1 ++ F2) in *.
  assert (Hz2 : zlen f2 < 2 ^ 35) by (unfold f2; rewrite zlen_app; lia).
  change (set_written f2 (zlen f2) Status_OK r2) with (set_written f2 (zlen f2) Status_OK (set_closed r1)).
  destruct (write_index_stores r1 done pend' f2 Hw Hc0 ltac:(lia)) as (i & r3 & F3 & -> & Hf3 & Hst3 & Hoff3 & Hi & HF3).
  cbn [mbind option_bind fst snd]. pose proof Hm as (lm & [Hokm _] & _). pose proof Hi as (li & [Hoki _] & _).
  destruct (Footer_roundtrip (mkFooter m i) Hokm Hoki) as (enc & Henc & Hlen & Hdec).
  unfold write_footer, t_ok. rewrite Hst3. cbn [ok Status_OK]. rewrite Henc. cbn [mbind option_bind wf_Append MemWritable ok Status_OK].
  eexists _, (final_parts done pend'). split; [reflexivity|]. cbn [t_file set_written FileSize t_offset]. rewrite Hf3, Hoff3.
  assert (Hz3 : zlen (f2 ++ F3) < 2 ^ 36) by (rewrite zlen_app; lia). pose proof (zlen_nonneg (f2 ++ F3)).
  split; [|split].
  - assert (HF : forall more, exists tail, (f2 ++ F3) ++ more = t_file r1 ++ tail) by
      (intros more; eexists; unfold f2, f1; rewrite <- !app_assoc; reflexivity).
    split.
    + exists (f2 ++ F3), enc, m, i. split; [done|]. split; [done|]. split; [done|]. split; [by apply block_at_more|].
      intros p Hp. destruct (Hfil p Hp) as (raw & Hst & Hmay). exists h, raw. split; [|split; [|done]].
      * apply block_at_more, block_at_more. unfold metaindex_es in Hm. by rewrite Hp in Hm.
      * apply stores_more, stores_more. unfold f2. by apply stores_more.
    + destruct (HF enc) as [tail ->]. assert (Hd := wr_done _ _ _ _ _ _ Hw).
      assert (Hd' : Forall (fun p => block_at snappy (t_file r1 ++ tail) (p_handle p) (p_es p) /\ p_es p <> []) done).
      { eapply Forall_impl; [exact Hd|]. intros p [H1 H2]. split; [by apply block_at_more|done]. }
      destruct pend' as [[h' es]|]; [|exact Hd']. apply Forall_app. split; [exact Hd'|]. apply Forall_singleton.
      destruct (wr_pending _ _ _ _ _ _ Hw h' es eq_refl) as (_ & Hba & Hne & _). split; [by apply block_at_more|done].
    + by apply (final_offsets r1).
    + by apply (final_seps r1).
    + rewrite final_parts_es. pose proof (wr_sorted _ _ _ _ _ _ Hw) as Hs. unfold all_es in Hs. by rewrite app_nil_r in Hs.
  - rewrite final_parts_es. unfold all_es. by rewrite app_nil_r.
  - rewrite (zlen_app (f2 ++ F3) enc), Hlen, u64_small; [done|]. unfold kEncodedLength, kMaxEncodedLength. lia.
Qed.

(** Building a table of the entries [es]. *)
Fixpoint add_entries (es : entries) (r : TableRep bytes) : option (TableRep bytes) :=
  match es with
  | [] => Some r
  | e :: es => r ← TableBuilder_Add MemWritable snappy e.1 e.2 r; add_entries es r
  end.

Definition build_table (es : entries) : option (Status * TableRep bytes) :=
  r ← new_TableBuilder opts []; r ← add_entries es r; TableBuilder_Finish MemWritable snappy r.

Lemma add_entries_writing es : forall r done pend cur, writing snappy opts r done pend cur ->
  sorted_keys (Compare cmp) (all_es done pend cur ++ es) -> cost (all_es done pend cur ++ es) < 2 ^ 31 ->
  exists r' done' pend' cur', add_entries es r = Some r' /\ writing snappy opts r' done' pend' cur' /\
    all_es done' pend' cur' = all_es done pend cur ++ es.
Proof.
  induction es as [|e es IH]; intros r done pend cur Hw Hs Hc.
  - exists r, done, pend, cur. by rewrite app_nil_r.
  - rewrite (app_assoc _ [e] es : all_es done pend cur ++ e :: es = _) in Hs, Hc. rewrite cost_app in Hc. pose proof (cost_nonneg es).
    destruct (writing_add snappy opts Hinterval r done pend cur e Hw) as (r1 & d1 & p1 & c1 & Ha & Hw1 & Hall1).
    { by apply sorted_keys_prefix in Hs. } { lia. }
    destruct (IH r1 d1 p1 c1 Hw1) as (r' & d' & p' & c' & Hb & Hw' & Hall'); [by rewrite Hall1|rewrite Hall1, cost_app; lia|].
    exists r', d', p', c'. cbn [add_entries]. rewrite Ha. cbn [mbind option_bind]. split; [done|]. split; [done|].
    by rewrite Hall', Hall1, <- app_assoc.
Qed.

Lemma table_built es : sorted_keys (Compare cmp) es -> cost es < 2 ^ 31 ->
  exists r parts, build_table es = Some (Status_OK, r) /\ table_file (t_file r) parts /\ parts_es parts = es /\
    FileSize r = zlen (t_file r).
Proof.
  intros Hs Hc. unfold build_table. destruct (writing_new snappy opts Hinterval) as (r0 & -> & Hw0). cbn [mbind option_bind].
  destruct (add_entries_writing es r0 [] None [] Hw0) as (r1 & d & p & c & -> & Hw1 & Hall); [done..|]. cbn [mbind option_bind].
  destruct (table_finished r1 d p c Hw1) as (r & parts & Hf & Ht & Hp & Hsz); [by rewrite Hall|].
  exists r, parts. by rewrite Hp, Hall.
Qed.

End File.
