(* ===== verification/TableRead.v ===== *)
(** * Reading a table back

    A table file that [TableBuilder] finished opens, its blocks are the ones
    written whether they come from the file or from the block cache, and a
    lookup meets the entry a search in the sorted list of entries would. *)

From S2P Require Import Prelude Coding Status Comparator Crc32c Filter FilterBlock Env Iterator Block Format TableBuilder Cache Table TableWrite TableFile.

(** ** Blocks *)

(** A block object that iterates [es]. *)
Definition block_of (b : Block) (es : entries) : Prop :=
  exists l, b = new_Block (l_data l) /\ layout_wf l /\ zlen (l_data l) < 2 ^ 32 /\ l_es l = es.

(** The position of an iterator of such a block. *)
Definition block_pos (es : entries) (it : Status + BlockIter) (p : option nat) : Prop :=
  exists l, (layout_wf l /\ zlen (l_data l) < 2 ^ 32 /\ l_es l = es) /\ pos_inr (bpos l) it p.

Lemma block_pos_spec cmp es : TotalCmp (Compare cmp) -> sorted_keys (Compare cmp) es ->
  IteratorSpec (AnyBlockIterator cmp) (Compare cmp) es (block_pos es).
Proof.
  intros Hc Hs. apply IteratorSpec_exists. intros l (Hwf & Hsz & <-). apply SumIterator_inr. by apply BlockIterator_spec.
Qed.

Lemma block_of_iterator b es : block_of b es -> exists it, Block_NewIterator b = Some it /\ block_pos es it None.
Proof.
  intros (l & -> & Hwf & Hsz & <-). destruct (new_Block_layout l Hwf Hsz) as (it & Hit & Hp).
  exists (inr it). split; [done|]. by exists l.
Qed.

Lemma block_at_read snappy F h es verify : block_at snappy F h es ->
  exists c, ReadBlock snappy (MemRandomAccess F) verify h = Some (Status_OK, c) /\ c_cachable c = true /\
    block_of (new_Block (c_data c)) es.
Proof.
  intros (l & [_ Hr] & Hwf & Hsz & He). specialize (Hr [] verify). rewrite app_nil_r in Hr. eexists. split; [exact Hr|].
  split; [done|]. by exists l.
Qed.

(** ** The block cache *)

Lemma cache_key_inj i o i' o' : fits 64 i -> fits 64 i' -> fits 64 o -> fits 64 o' -> cache_key i o = cache_key i' o' -> i = i' /\ o = o'.
Proof.
  intros Hi Hi' Ho Ho' E. unfold cache_key in E.
  apply app_inj_1 in E as [E1 E2]; [|by rewrite !EncodeFixed64_length].
  apply (f_equal DecodeFixed64) in E1, E2. rewrite !DecodeFixed64_encode in E1. rewrite !DecodeFixed64_encode in E2.
  rewrite !u64_small in E1 by apply Hi || apply Hi'. rewrite !u64_small in E2 by apply Ho || apply Ho'. done.
Qed.

Section Read.
Context (snappy : Snappy) {C H : Type} (cache : Cache C H Block) (cinv : C -> gmap bytes Block -> list (H * Block) -> Z -> Prop).
Context `{!CacheLaws cache cinv}.

(** The tables that use the cache: their numbers and parts. *)
Definition cached (id : Z) (parts : list Part) (m : gmap bytes Block) : Prop :=
  forall p b, p ∈ parts -> m !! cache_key id (h_offset (p_handle p)) = Some b -> block_of b (p_es p).

Record cache_ok (n : nat) (tabs : list (Z * list Part)) (m : gmap bytes Block) (id : Z) : Prop := {
  ck_keys : forall k b, m !! k = Some b -> exists i o, k = cache_key i o /\ 0 <= i <= id /\ fits 64 o;
  ck_tabs : forall i parts, (i, parts) ∈ tabs -> 0 <= i <= id /\ cached i parts m /\
    NoDup (map (fun p => h_offset (p_handle p)) parts) /\ Forall (fun p => handle_ok (p_handle p)) parts;
  ck_ids : NoDup tabs.*1;
  ck_id : 0 <= id /\ id + Z.of_nat n < 2 ^ 64
}.

(** The cache, when there is one, holds the blocks of the tables, has given
    out the handles [held] and has numbers for [n] more tables. *)
Definition cache_state (n : nat) (tabs : list (Z * list Part)) (held : list (H * Block)) (c : option C) : Prop :=
  match c with
  | None => held = []
  | Some c => exists m id, cinv c m held id /\ cache_ok n tabs m id
  end.

Lemma cache_ok_sub n tabs m m' id : cache_ok n tabs m id -> m' ⊆ m -> cache_ok n tabs m' id.
Proof.
  intros [H1 H2 H3 H4] Hsub. assert (Hl : forall k b, m' !! k = Some b -> m !! k = Some b) by (intros k b Hk; by apply (lookup_weaken m' m)).
  split; try done; [eauto|]. intros i parts Hin. destruct (H2 i parts Hin) as (Hi & Hc & Hn). split; [done|]. split; [|done].
  intros p b Hp Hb. eapply Hc; eauto.
Qed.

Lemma cache_ok_insert n tabs m id i parts p b : cache_ok n tabs m id -> (i, parts) ∈ tabs -> p ∈ parts -> block_of b (p_es p) ->
  cache_ok n tabs (<[cache_key i (h_offset (p_handle p)) := b]> m) id.
Proof.
  intros [H1 H2 H3 H4] Hin Hp Hb. destruct (H2 i parts Hin) as (Hi & _ & Hn & Hok).
  assert (Hfit : forall q, q ∈ parts -> fits 64 (h_offset (p_handle q))).
  { intros q Hq. rewrite Forall_forall in Hok. destruct (Hok q Hq) as [Ho _]. split; lia. }
  split; try done.
  - intros k b' [[<- _]|[_ Hk]]%lookup_insert_Some; [|eauto]. exists i, (h_offset (p_handle p)). split; [done|]. split; [done|].
    by apply Hfit.
  - intros j parts' Hj. destruct (H2 j parts' Hj) as (Hj' & Hc & Hn' & Hok'). split; [done|]. split; [|done].
    intros q b' Hq [[E <-]|[_ Hk]]%lookup_insert_Some; [|by apply (Hc q)].
    rewrite Forall_forall in Hok'. destruct (Hok' q Hq) as [Ho _].
    apply cache_key_inj in E as [-> E]; [|split; lia|split; lia|by apply Hfit|split; lia].
    assert (parts' = parts) as ->.
    { apply list_elem_of_lookup in Hin as [a Ha]. apply list_elem_of_lookup in Hj as [c Hc'].
      assert (a = c) as ->; [|congruence]. apply (NoDup_lookup tabs.*1 a c j); [done|by rewrite list_lookup_fmap, Ha|by rewrite list_lookup_fmap, Hc']. }
    replace q with p; [done|]. apply list_elem_of_lookup in Hp as [a Ha]. apply list_elem_of_lookup in Hq as [c Hc'].
    assert (a = c) as ->; [|congruence]. apply (NoDup_lookup _ a c (h_offset (p_handle p)) Hn).
    + by rewrite list_lookup_fmap, Ha.
    + rewrite list_lookup_fmap, Hc'. cbn. by rewrite E.
Qed.

(** ** The data blocks of an open table *)

Context (opts : TableOptions).
Abbreviation cmp := (o_comparator opts).
Context `{!ComparatorLaws cmp}.

(** [t] is the table of the file [F], with the number [id]. *)
Record opened (t : Table) (id : Z) (F : bytes) (parts : list Part) : Prop := {
  op_file : tb_file t = MemRandomAccess F;
  op_cmp : tb_comparator t = cmp;
  op_id : tb_cache_id t = id;
  op_table : table_file snappy opts F parts;
  op_index : block_of (tb_index_block t) (map index_entry parts);
  op_filter : forall p f, tb_filter t = Some (p, f) -> o_filter_policy opts = Some p /\
    forall part e, part ∈ parts -> e ∈ p_es part -> FilterBlock_KeyMayMatch p f (h_offset (p_handle part)) e.1 = true
}.

Lemma fetch_block_spec t id F parts n tabs held c ro p : opened t id F parts -> p ∈ parts -> cache_state n tabs held c ->
  (id, parts) ∈ tabs ->
  exists b ch c', fetch_block snappy cache t ro (p_handle p) c = Some (Status_OK, Some b, ch, c') /\ block_of b (p_es p) /\
    cache_state n tabs (from_option (fun h => [(h, b)]) [] ch ++ held) c'.
Proof.
  intros Ho Hp Hcs Hin. pose proof (tf_blocks _ _ _ _ (op_table _ _ _ _ Ho)) as Hbl. rewrite Forall_forall in Hbl.
  destruct (Hbl p Hp) as [Hba _]. destruct (block_at_read snappy F _ _ (ro_verify_checksums ro) Hba) as (bc & Hr & Hcb & Hbo).
  unfold fetch_block. rewrite (op_file _ _ _ _ Ho), (op_id _ _ _ _ Ho), Hr. destruct c as [c|].
  - destruct Hcs as (m & i & Hci & Hck). destruct (lookup_law c m held i (cache_key id (h_offset (p_handle p))) Hci) as (r & c1 & -> & Hl).
    cbn [mbind option_bind]. destruct (m !! cache_key id (h_offset (p_handle p))) as [b|] eqn:Em.
    + destruct Hl as (h & -> & Hci1). rewrite (value_law c1 m _ i h b Hci1) by (by left). cbn [mbind option_bind].
      exists b, (Some h), (Some c1). split; [done|]. split; [by apply (ck_tabs _ _ _ _ Hck id parts Hin)|].
      by exists m, i.
    + destruct Hl as [-> ->]. cbn [mbind option_bind ok Status_OK]. rewrite Hcb. cbn [andb]. destruct (ro_fill_cache ro).
      * destruct (insert_law c m held i (cache_key id (h_offset (p_handle p))) (new_Block (c_data bc)) (b_size (new_Block (c_data bc))) Hci)
          as (h & c' & m' & -> & Hci' & Hsub).
        cbn [mbind option_bind fst snd]. eexists _, (Some h), (Some c'). split; [done|]. split; [done|].
        exists m', i. split; [done|]. eapply cache_ok_sub; [|exact Hsub]. by eapply cache_ok_insert.
      * eexists _, None, (Some c). split; [done|]. split; [done|]. by exists m, i.
  - cbn [mbind option_bind ok Status_OK]. by eexists _, None, None.
Qed.

Lemma run_cleanup_spec n tabs held b ch c : cache_state n tabs (from_option (fun h => [(h, b)]) [] ch ++ held) c ->
  exists c', run_cleanup cache ch c = Some c' /\ cache_state n tabs held c'.
Proof.
  destruct ch as [h|]; cbn [from_option app run_cleanup].
  - destruct c as [c|]; [|done]. intros (m & i & Hci & Hck).
    destruct (release_law c m ((h, b) :: held) i h b held Hci) as (c' & -> & Hci'); [done|]. exists (Some c'). split; [done|].
    by exists m, i.
  - intros Hc. exists c. by destruct c.
Qed.

Lemma part_elem_lookup parts p e : p ∈ parts -> e ∈ p_es p -> exists i j, parts !! i = Some p /\ p_es p !! j = Some e /\
  parts_es parts !! (length (parts_es (take i parts)) + j)%nat = Some e.
Proof.
  intros [i Hi]%list_elem_of_lookup [j Hj]%list_elem_of_lookup. exists i, j. split; [done|]. split; [done|].
  rewrite <- (app_nil_r (parts_es parts)). by apply (part_lookup parts [] i p).
Qed.

(** The entries of a part are at or before its index key, the entries of later
    parts behind it. *)
Lemma part_before_sep F parts i p e : table_file snappy opts F parts -> parts !! i = Some p -> e ∈ p_es p ->
  Compare cmp e.1 (p_sep p) <> Gt.
Proof.
  intros Ht Hp [j Hj]%list_elem_of_lookup. destruct (tf_seps _ _ _ _ Ht i p Hp) as (k & Hk & Hle & _).
  destruct (part_last parts [] i p k Hp Hk) as [Hkl _]. pose proof (part_lookup parts [] i p j e Hp Hj) as Hel.
  rewrite app_nil_r in *. apply (cmp_le_trans (Compare cmp) _ k.1); [|done].
  apply (sorted_le opts _ _ _ e k (tf_sorted _ _ _ _ Ht) Hel Hkl). rewrite (part_end_S parts i p Hp).
  apply lookup_lt_Some in Hj. lia.
Qed.

Lemma part_behind_sep F parts i j p q e : table_file snappy opts F parts -> parts !! i = Some p -> parts !! j = Some q -> (i < j)%nat ->
  e ∈ p_es q -> Compare cmp (p_sep p) e.1 = Lt.
Proof.
  intros Ht Hp Hq Hij [n Hn]%list_elem_of_lookup. destruct (tf_seps _ _ _ _ Ht i p Hp) as (k & _ & _ & Hnx).
  pose proof (part_lookup parts [] j q n e Hq Hn) as Hel. rewrite app_nil_r in Hel. pose proof (part_start_le parts i j Hij) as Hst.
  destruct (lookup_lt_is_Some_2 (parts_es parts) (part_end parts i)) as [nx Hx]; [apply lookup_lt_Some in Hel; lia|].
  apply (cmp_lt_le_trans (Compare cmp) _ nx.1); [by apply Hnx|].
  apply (sorted_le opts _ _ _ nx e (tf_sorted _ _ _ _ Ht) Hx Hel). lia.
Qed.

Lemma table_index_sorted F parts : table_file snappy opts F parts -> sorted_keys (Compare cmp) (map index_entry parts).
Proof.
  intros Ht. apply sorted_keys_of_lookup. intros i j a b Hij Ha Hb. rewrite list_lookup_fmap in Ha. rewrite list_lookup_fmap in Hb.
  destruct (parts !! i) as [p|] eqn:Ep; [|done]. destruct (parts !! j) as [q|] eqn:Eq; [|done].
  injection Ha as <-. injection Hb as <-. cbn [fst index_entry]. destruct (tf_seps _ _ _ _ Ht j q Eq) as (k & Hk & Hle & _).
  apply (cmp_lt_le_trans (Compare cmp) _ k.1); [|done]. apply (part_behind_sep F parts i j p q k Ht Ep Eq Hij).
  apply last_Some in Hk as [es' ->]. set_solver.
Qed.

Lemma part_sorted F parts p : table_file snappy opts F parts -> p ∈ parts -> sorted_keys (Compare cmp) (p_es p).
Proof.
  intros Ht [i Hi]%list_elem_of_lookup. pose proof (tf_sorted _ _ _ _ Ht) as Hs. rewrite <- (take_drop_middle parts i p Hi) in Hs.
  unfold parts_es in Hs. rewrite map_app, concat_app in Hs. apply sorted_keys_suffix in Hs. cbn [map concat] in Hs.
  by apply sorted_keys_prefix in Hs.
Qed.

Lemma BlockReader_spec t id F parts n tabs held c ro p : opened t id F parts -> p ∈ parts -> cache_state n tabs held c -> (id, parts) ∈ tabs ->
  exists it b ch c', BlockReader snappy cache t ro (handle_bytes (p_handle p)) c = Some (it, ch, c') /\ block_pos (p_es p) it None /\
    cache_state n tabs (from_option (fun h => [(h, b)]) [] ch ++ held) c'.
Proof.
  intros Ho Hp Hcs Hin. destruct (fetch_block_spec t id F parts n tabs held c ro p Ho Hp Hcs Hin) as (b & ch & c' & Hf & Hb & Hcs').
  pose proof (tf_blocks _ _ _ _ (op_table _ _ _ _ Ho)) as Hbl. rewrite Forall_forall in Hbl.
  destruct (Hbl p Hp) as [(l & [Hok _] & _) _]. unfold BlockReader. rewrite <- (app_nil_r (handle_bytes _)), BlockHandle_decode by done.
  cbn [ok Status_OK]. rewrite Hf. cbn [mbind option_bind].
  destruct (block_of_iterator b (p_es p) Hb) as (it & -> & Hpos). cbn [mbind option_bind]. by exists it, b, ch, c'.
Qed.

(** ** Lookups *)

(** The filter of the table, if it has one, rejects [k] in the block of [p]. *)
Definition rejected (t : Table) (p : Part) (k : bytes) : Prop :=
  exists fp f, tb_filter t = Some (fp, f) /\ FilterBlock_KeyMayMatch fp f (h_offset (p_handle p)) k = false.

(** What [InternalGet] passes to the saver: the entry the search in one block
    ends at, unless the filter rejects the key. *)
Definition get_result (t : Table) (parts : list Part) (k : bytes) (r : option (bytes * bytes)) : Prop :=
  match seek_pos (Compare cmp) (map index_entry parts) k with
  | None => r = None
  | Some i => exists p, parts !! i = Some p /\
      (rejected t p k /\ r = None \/ r = (seek_pos (Compare cmp) (p_es p) k ≫= fun j => p_es p !! j))
  end.

Lemma seek_saved S (it : Iterator S) (es : entries) pos s k : IteratorSpec it (Compare cmp) es pos -> pos s None ->
  exists s', it_Seek it k s = Some s' /\ pos s' (seek_pos (Compare cmp) es k) /\
    (if it_Valid it s' then key ← it_key it s'; value ← it_value it s'; Some (Some (key, value)) else Some None)
    = Some (seek_pos (Compare cmp) es k ≫= fun j => es !! j).
Proof.
  intros Hspec Hp. destruct (spec_seek s None k I Hp) as (s' & Hs & Hp'). exists s'. split; [done|]. split; [done|].
  rewrite (spec_valid _ _ Hp'). destruct (seek_pos (Compare cmp) es k) as [j|] eqn:Ej.
  - pose proof (spec_lt _ _ Hp') as Hlt. destruct (lookup_lt_is_Some_2 es j Hlt) as [e He]. rewrite bool_decide_eq_true_2 by done.
    rewrite (spec_key _ _ _ Hp' He), (spec_value _ _ _ Hp' He). cbn [mbind option_bind]. rewrite He. by destruct e.
  - by rewrite bool_decide_eq_false_2 by (by intros []).
Qed.

Lemma InternalGet_spec t id F parts n tabs held c ro k : opened t id F parts -> cache_state n tabs held c -> (id, parts) ∈ tabs ->
  exists r c', Table_InternalGet snappy cache t ro k c = Some (Status_OK, r, c') /\ get_result t parts k r /\ cache_state n tabs held c'.
Proof.
  intros Ho Hcs Hin. pose proof (op_table _ _ _ _ Ho) as Ht. unfold Table_InternalGet. rewrite (op_cmp _ _ _ _ Ho).
  pose proof (block_pos_spec cmp _ _ (table_index_sorted F parts Ht)) as Hspec0.
  destruct (block_of_iterator _ _ (op_index _ _ _ _ Ho)) as (it0 & -> & Hpos0).
  cbn [mbind option_bind]. destruct (spec_seek it0 None k I Hpos0) as (it1 & -> & Hp1). cbn [mbind option_bind].
  rewrite (spec_valid _ _ Hp1), (spec_status _ _ Hp1). unfold get_result.
  destruct (seek_pos (Compare cmp) (map index_entry parts) k) as [i|] eqn:Ei.
  2:{ rewrite bool_decide_eq_false_2 by (by intros []). cbn [mbind option_bind ok Status_OK]. by exists None, c. }
  rewrite bool_decide_eq_true_2 by done. pose proof (spec_lt _ _ Hp1) as Hlt. rewrite length_map in Hlt.
  destruct (lookup_lt_is_Some_2 parts i Hlt) as [p Hp]. assert (Hpi : p ∈ parts) by (by eapply list_elem_of_lookup_2).
  rewrite (spec_value _ _ (index_entry p) Hp1) by (by rewrite list_lookup_fmap, Hp). cbn [mbind option_bind snd index_entry].
  pose proof (tf_blocks _ _ _ _ Ht) as Hbl. rewrite Forall_forall in Hbl. destruct (Hbl p Hpi) as [(l & [Hok _] & _) _].
  pose proof (BlockHandle_decode (p_handle p) new_BlockHandle [] Hok) as Hdec. rewrite app_nil_r in Hdec. rewrite Hdec. cbn [ok Status_OK andb].
  destruct (match tb_filter t with Some (fp, f) => _ | None => false end) eqn:Efil.
  - cbn [mbind option_bind ok Status_OK]. exists None, c. split; [done|]. split; [|done]. exists p. split; [done|]. left. split; [|done].
    destruct (tb_filter t) as [[fp f]|] eqn:Et; [|done]. exists fp, f. split; [done|]. by apply negb_true_iff in Efil.
  - clear Efil. destruct (BlockReader_spec t id F parts n tabs held c ro p Ho Hpi Hcs Hin) as (it & b & ch & c' & -> & Hpos & Hcs').
    pose proof (block_pos_spec cmp _ _ (part_sorted F parts p Ht Hpi)) as Hspec.
    cbn [mbind option_bind]. destruct (seek_saved _ (AnyBlockIterator cmp) (p_es p) _ it k Hspec Hpos) as (it' & -> & Hp' & Hsaved).
    cbn [mbind option_bind]. rewrite Hsaved. cbn [mbind option_bind].
    destruct (run_cleanup_spec n tabs held b ch c' Hcs') as (c2 & -> & Hcs2). cbn [mbind option_bind].
    rewrite (spec_status _ _ Hp'). cbn [ok Status_OK]. eexists _, c2. split; [done|]. split; [|done]. exists p. split; [done|]. by right.
Qed.

(** ** Opening a table *)

(** A new table starts with no block in the cache. *)
Lemma cache_state_new F parts n tabs held c : table_file snappy opts F parts -> cache_state (S n) tabs held (Some c) ->
  exists id c', cache_NewId cache c = (id, c') /\ cache_state n ((id, parts) :: tabs) held (Some c').
Proof.
  intros Ht (mm & n0 & Hci & [K1 K2 K3 K4]). pose proof (tf_blocks _ _ _ _ Ht) as Hbl. rewrite Forall_forall in Hbl.
  destruct (new_id_law c mm held n0 Hci) as (c' & -> & Hci'); [lia|].
  exists (n0 + 1), c'. split; [done|]. exists mm, (n0 + 1). split; [done|]. split.
  - intros k b Hk. destruct (K1 k b Hk) as (i' & o & -> & Hi' & Ho). exists i', o. split; [done|]. split; [lia|done].
  - intros j ps [[= -> ->]|Hj]%elem_of_cons.
    + split; [lia|]. split; [|split; [apply (tf_offsets _ _ _ _ Ht)|]].
      * intros p b Hp Hb. exfalso. destruct (K1 _ b Hb) as (i' & o & E & Hi' & Ho).
        destruct (Hbl p Hp) as [(l & [[Hpo _] _] & _) _].
        apply cache_key_inj in E as [E _]; [lia|split; lia|split; lia|split; lia|done].
      * apply Forall_forall. intros p Hp. by destruct (Hbl p Hp) as [(l & [Hok _] & _) _].
    + destruct (K2 j ps Hj) as (Hj' & Hrest). split; [lia|done].
  - cbn. constructor; [|done]. intros [[j ps] [E Hj]]%list_elem_of_fmap. destruct (K2 j ps Hj). cbn in *. lia.
  - lia.
Qed.

(** [ReadMeta] finds the filter under its name. *)
Lemma ReadMeta_spec F m i t p h raw : tb_file t = MemRandomAccess F -> tb_filter_policy t = Some p ->
  block_at snappy F m [(filter_key p, handle_bytes h)] -> stores snappy F h raw ->
  ReadMeta snappy (mkFooter m i) t = Some (set_filter_reader (Some (p, new_FilterBlockReader raw)) t).
Proof.
  intros Hf Hp Hm [Hok Hrd]. unfold ReadMeta. rewrite Hp, Hf. cbn [f_metaindex].
  destruct (block_at_read snappy F m _ (tb_paranoid_checks t) Hm) as (bm & -> & _ & Hbm).
  cbn [mbind option_bind fst snd ok Status_OK negb].
  assert (Hspec : IteratorSpec (AnyBlockIterator BytewiseComparator) (Compare BytewiseComparator) [(filter_key p, handle_bytes h)]
    (block_pos [(filter_key p, handle_bytes h)])) by (apply block_pos_spec; [apply _|repeat constructor]).
  destruct (block_of_iterator _ _ Hbm) as (it0 & -> & Hpos).
  cbn [mbind option_bind]. destruct (spec_seek it0 None (filter_key p) I Hpos) as (it & -> & Hpi). cbn [mbind option_bind].
  assert (Hsk : seek_pos (Compare BytewiseComparator) [(filter_key p, handle_bytes h)] (filter_key p) = Some 0%nat).
  { cbn [seek_pos fst]. by rewrite (cmp_refl (Compare BytewiseComparator)). }
  rewrite Hsk in Hpi. rewrite (spec_valid _ _ Hpi), bool_decide_eq_true_2 by done.
  rewrite (spec_key _ _ (filter_key p, handle_bytes h) Hpi) by done. cbn [mbind option_bind fst]. rewrite decide_True by done.
  rewrite (spec_value _ _ (filter_key p, handle_bytes h) Hpi) by done. cbn [mbind option_bind snd]. unfold ReadFilter.
  rewrite <- (app_nil_r (handle_bytes h)), BlockHandle_decode by done. cbn [ok Status_OK negb]. rewrite Hf.
  specialize (Hrd [] (tb_paranoid_checks t)). rewrite app_nil_r in Hrd. by rewrite Hrd.
Qed.

Lemma Open_spec F parts paranoid n tabs held c : table_file snappy opts F parts -> cache_state (S n) tabs held c ->
  exists t id c', Table_Open snappy cache cmp (o_filter_policy opts) paranoid (MemRandomAccess F) (zlen F) c
      = Some (Status_OK, Some t, c') /\ opened t id F parts /\
    cache_state n ((id, parts) :: tabs) held c'.
Proof.
  intros Ht Hcs. destruct (tf_footer _ _ _ _ Ht) as (body & enc & m & i & HF & Henc & Hdec & Hi & Hmeta).
  assert (Hz : zlen F = zlen body + kEncodedLength) by (rewrite HF, zlen_app; lia). pose proof (zlen_nonneg body).
  unfold Table_Open. destruct (Z.ltb_spec (zlen F) kEncodedLength); [lia|].
  assert (Hfoot : take (Z.to_nat kEncodedLength) (drop (Z.to_nat (zlen F - kEncodedLength)) F) = enc).
  { replace (zlen F - kEncodedLength) with (zlen body) by lia. rewrite HF, to_nat_zlen, drop_app_length.
    apply take_ge. rewrite <- Henc, to_nat_zlen. lia. }
  cbn [rf_Read MemRandomAccess ok Status_OK negb]. rewrite Hfoot. cbn [ok Status_OK negb].
  pose proof (Hdec []) as Hd. rewrite app_nil_r in Hd. rewrite Hd. cbn [mbind option_bind ok Status_OK negb f_index f_metaindex].
  destruct (block_at_read snappy F i _ paranoid Hi) as (bi & -> & _ & Hbi). cbn [mbind option_bind fst snd ok Status_OK negb].
  set (new := match c with Some c => _ | None => _ end). destruct new as [id c'] eqn:En.
  assert (Hc' : cache_state n ((id, parts) :: tabs) held c').
  { unfold new in En. destruct c as [c|]; [|by injection En as <- <-].
    destruct (cache_state_new F parts n tabs held c Ht Hcs) as (id0 & c0 & Hid & Hn). rewrite Hid in En. by injection En as <- <-. }
  clearbody new. destruct (o_filter_policy opts) as [p|] eqn:Ep.
  - destruct (Hmeta p eq_refl) as (h & raw & Hm & Hraw & Hmay). rewrite (ReadMeta_spec F m i _ p h raw); [|done..]. cbn [mbind option_bind].
    eexists _, id, c'. split; [done|]. split; [|done]. split; try done. intros fp f [= <- <-]. by rewrite Ep.
  - cbn [mbind option_bind]. eexists _, id, c'. split; [done|]. split; [|done]. by split.
Qed.

(** ** Where a lookup ends *)

Lemma elem_parts_es parts e : e ∈ parts_es parts <-> exists i p, parts !! i = Some p /\ e ∈ p_es p.
Proof.
  unfold parts_es. rewrite list_elem_of_In, in_concat. split.
  - intros (es & [p [<- Hp]]%in_map_iff & He). apply list_elem_of_In, list_elem_of_lookup in Hp as [i Hi]. exists i, p.
    split; [done|]. by apply list_elem_of_In.
  - intros (i & p & Hi & He). exists (p_es p). split; [|by apply list_elem_of_In]. apply in_map_iff. exists p. split; [done|].
    apply list_elem_of_In. by eapply list_elem_of_lookup_2.
Qed.

(** The part the index leads to: everything before it is smaller than [k],
    everything behind it larger. *)
Lemma index_split F parts k i p : table_file snappy opts F parts -> seek_pos (Compare cmp) (map index_entry parts) k = Some i ->
  parts !! i = Some p ->
  (forall j q e, parts !! j = Some q -> (j < i)%nat -> e ∈ p_es q -> Compare cmp e.1 k = Lt) /\
  (forall j q e, parts !! j = Some q -> (i < j)%nat -> e ∈ p_es q -> Compare cmp k e.1 = Lt).
Proof.
  intros Ht Hs Hp. pose proof (seek_pos_inv (Compare cmp) (map index_entry parts) k) as Hinv. rewrite Hs in Hinv.
  destruct Hinv as (x & Hx & Hge & Hlt). rewrite list_lookup_fmap, Hp in Hx. injection Hx as <-. cbn [fst index_entry] in Hge. split.
  - intros j q e Hq Hj He. apply (cmp_le_lt_trans (Compare cmp) _ (p_sep q)); [by apply (part_before_sep F parts j)|].
    apply (Hlt j (index_entry q)); [done|]. by rewrite list_lookup_fmap, Hq.
  - intros j q e Hq Hj He. apply (cmp_le_lt_trans (Compare cmp) _ (p_sep p)); [by apply (cmp_not_gt_le (Compare cmp))|].
    by apply (part_behind_sep F parts i j p q).
Qed.

Lemma index_none F parts k e : table_file snappy opts F parts -> seek_pos (Compare cmp) (map index_entry parts) k = None ->
  e ∈ parts_es parts -> Compare cmp e.1 k = Lt.
Proof.
  intros Ht Hs (i & p & Hp & He)%elem_parts_es. pose proof (seek_pos_inv (Compare cmp) (map index_entry parts) k) as Hinv. rewrite Hs in Hinv.
  apply (cmp_le_lt_trans (Compare cmp) _ (p_sep p)); [by apply (part_before_sep F parts i)|].
  apply (Hinv i (index_entry p)). by rewrite list_lookup_fmap, Hp.
Qed.

(** A search in the block the index leads to is a search in the whole table,
    unless it runs over the end of the block. *)
Lemma part_seek F parts k i p j : table_file snappy opts F parts -> seek_pos (Compare cmp) (map index_entry parts) k = Some i ->
  parts !! i = Some p -> seek_pos (Compare cmp) (p_es p) k = Some j ->
  (seek_pos (Compare cmp) (parts_es parts) k ≫= fun n => parts_es parts !! n) = p_es p !! j.
Proof.
  intros Ht Hs Hp Hj. destruct (index_split F parts k i p Ht Hs Hp) as [Hbef _].
  pose proof (seek_pos_inv (Compare cmp) (p_es p) k) as Hinv. rewrite Hj in Hinv. destruct Hinv as (e & He & Hge & Hlt).
  pose proof (part_lookup parts [] i p j e Hp He) as Hel. rewrite app_nil_r in Hel.
  rewrite (seek_pos_at (Compare cmp) (parts_es parts) k (length (parts_es (take i parts)) + j) e); [cbn [mbind option_bind]; congruence| |done|done].
  intros n f Hn Hf. destruct (decide (n < length (parts_es (take i parts)))%nat) as [Hsm|Hbig].
  - assert (Hf' : f ∈ parts_es (take i parts)).
    { assert (Hpre : parts_es parts = parts_es (take i parts) ++ parts_es (drop i parts)).
      { unfold parts_es. rewrite <- concat_app, <- map_app. by rewrite take_drop. }
      rewrite Hpre, lookup_app_l in Hf by done. by eapply list_elem_of_lookup_2. }
    apply elem_parts_es in Hf' as (a & q & Hq & Hfq). apply lookup_take_Some in Hq as [Hq Ha]. by apply (Hbef a q).
  - assert (Hidx : n = (length (parts_es (take i parts)) + (n - length (parts_es (take i parts))))%nat) by lia.
    destruct (lookup_lt_is_Some_2 (p_es p) (n - length (parts_es (take i parts)))) as [g Hg].
    { apply lookup_lt_Some in He. lia. }
    pose proof (part_lookup parts [] i p _ g Hp Hg) as Hgl. rewrite app_nil_r, <- Hidx, Hf in Hgl. injection Hgl as <-.
    apply (Hlt (n - length (parts_es (take i parts)))%nat f); [lia|done].
Qed.

Lemma get_result_correct t id F parts k r : opened t id F parts -> get_result t parts k r ->
  r = (seek_pos (Compare cmp) (parts_es parts) k ≫= fun n => parts_es parts !! n) \/
  r = None /\ forall e, e ∈ parts_es parts -> e.1 <> k.
Proof.
  intros Ho Hg. pose proof (op_table _ _ _ _ Ho) as Ht. unfold get_result in Hg.
  assert (Hirr : Compare cmp k k <> Lt) by (by rewrite (cmp_refl (Compare cmp))).
  destruct (seek_pos (Compare cmp) (map index_entry parts) k) as [i|] eqn:Ei.
  2:{ right. split; [done|]. intros e He <-. by destruct (Hirr (index_none F parts e.1 e Ht Ei He)). }
  destruct Hg as (p & Hp & Hr). destruct (index_split F parts k i p Ht Ei Hp) as [Hbef Haft].
  assert (Hother : forall e, e ∈ parts_es parts -> e.1 = k -> e ∈ p_es p).
  { intros e (j & q & Hq & He)%elem_parts_es <-. destruct (Nat.lt_trichotomy j i) as [Hj|[->|Hj]].
    - by destruct (Hirr (Hbef j q e Hq Hj He)).
    - congruence.
    - by destruct (Hirr (Haft j q e Hq Hj He)). }
  destruct Hr as [[Hrej ->]|Hr].
  - right. split; [done|]. intros e He Hk. destruct Hrej as (fp & f & Hf & Hmay).
    destruct (op_filter _ _ _ _ Ho fp f Hf) as [_ Hm]. rewrite <- Hk, (Hm p e) in Hmay; [done|by eapply list_elem_of_lookup_2|by apply Hother].
  - destruct (seek_pos (Compare cmp) (p_es p) k) as [j|] eqn:Ej.
    + left. rewrite (part_seek F parts k i p j Ht Ei Hp Ej). by rewrite Hr.
    + right. split; [done|]. intros e He Hk. pose proof (seek_pos_inv (Compare cmp) (p_es p) k) as Hinv. rewrite Ej in Hinv.
      pose proof (Hother e He Hk) as Hep. apply list_elem_of_lookup in Hep as [n Hn]. specialize (Hinv n e Hn).
      rewrite Hk in Hinv. by apply Hirr.
Qed.

End Read.

(** ** Properties *)

(** C22. A table built from sorted entries is read back: building never fails on a
    file that takes the writes, the finished file opens, and a lookup of any
    key [k] - with or without a block cache, whatever it holds of other tables,
    and with any filter policy - ends at the first entry at or behind [k], or
    ends without an entry when the table has no entry with the key [k]. *)
Theorem table_lookup_round_trip snappy {C H} (cache : Cache C H Block) cinv opts es n tabs held c paranoid :
  SnappyLaws snappy -> CacheLaws cache cinv -> ComparatorLaws (o_comparator opts) -> ShortSeparators (o_comparator opts) ->
  (forall p, o_filter_policy opts = Some p -> FilterPolicyLaws p /\ SmallFilter p) -> 1 <= o_block_restart_interval opts ->
  sorted_keys (Compare (o_comparator opts)) es -> cost es < 2 ^ 31 ->
  cache_state cinv (S n) tabs held c ->
  exists r t id c', build_table snappy opts es = Some (Status_OK, r) /\
    Table_Open snappy cache (o_comparator opts) (o_filter_policy opts) paranoid (MemRandomAccess (t_file r)) (FileSize r) c
      = Some (Status_OK, Some t, c') /\
    exists tabs', cache_state cinv n ((id, tabs') :: tabs) held c' /\
    forall ro k c1, cache_state cinv n ((id, tabs') :: tabs) held c1 ->
    exists v c2, Table_InternalGet snappy cache t ro k c1 = Some (Status_OK, v, c2) /\
      cache_state cinv n ((id, tabs') :: tabs) held c2 /\
      (v = (seek_pos (Compare (o_comparator opts)) es k ≫= fun n => es !! n) \/ v = None /\ k ∉ es.*1).
Proof.
  intros Hsn Hca Hcm Hsh Hpol Hint Hs Hc Hcs.
  destruct (table_built snappy opts Hint Hpol es Hs Hc) as (r & parts & Hb & Ht & <- & Hsz).
  destruct (Open_spec snappy cache cinv opts (t_file r) parts paranoid n tabs held c Ht Hcs) as (t & id & c' & Hop & Hopd & Hcs').
  exists r, t, id, c'. rewrite Hsz. split; [done|]. split; [done|]. exists parts. split; [done|]. intros ro k c1 Hc1.
  destruct (InternalGet_spec snappy cache cinv opts t id (t_file r) parts n _ held c1 ro k Hopd Hc1) as (v & c2 & Hg & Hres & Hc2); [by left|].
  exists v, c2. split; [done|]. split; [done|].
  destruct (get_result_correct snappy opts t id (t_file r) parts k v Hopd Hres) as [Hv|[Hv Hno]]; [by left|right].
  split; [done|]. intros [e [-> He]]%list_elem_of_fmap. by apply (Hno e).
Qed.

Definition sample_table_options : TableOptions :=
  mkTableOptions BytewiseComparator 40 2 kNoCompression (Some (NewBloomFilterPolicy 10)).

Definition sample_table_entries : entries :=
  [(lit "apple", lit "red"); (lit "apricot", lit "orange"); (lit "banana", lit "yellow"); (lit "cherry", lit "dark red")].

Lemma table_lookup_round_trip_witness :
  exists r t id c', build_table NoSnappy sample_table_options sample_table_entries = Some (Status_OK, r) /\
    Table_Open NoSnappy NoCache BytewiseComparator (Some (NewBloomFilterPolicy 10)) true (MemRandomAccess (t_file r)) (FileSize r)
      (Some ([], 0)) = Some (Status_OK, Some t, c') /\
    exists tabs', cache_state (fun c m held id => m = ∅ /\ c.2 = id /\ forall (h : nat) v, (h, v) ∈ held -> c.1 !! h = Some v) 7
        [(id, tabs')] [] c' /\
    forall ro k c1, cache_state (fun c m held id => m = ∅ /\ c.2 = id /\ forall (h : nat) v, (h, v) ∈ held -> c.1 !! h = Some v) 7
        [(id, tabs')] [] c1 ->
    exists v c2, Table_InternalGet NoSnappy NoCache t ro k c1 = Some (Status_OK, v, c2) /\
      cache_state (fun c m held id => m = ∅ /\ c.2 = id /\ forall (h : nat) v, (h, v) ∈ held -> c.1 !! h = Some v) 7
        [(id, tabs')] [] c2 /\
      (v = (seek_pos (Compare BytewiseComparator) sample_table_entries k ≫= fun n => sample_table_entries !! n) \/
       v = None /\ k ∉ sample_table_entries.*1).
Proof.
  apply (table_lookup_round_trip NoSnappy NoCache _ sample_table_options sample_table_entries 7 [] [] (Some ([], 0)) true).
  - apply _.
  - apply NoCache_laws.
  - apply _.
  - apply _.
  - intros p [= <-]. split; [apply Bloom_laws; lia|apply Bloom_small; lia].
  - cbn. lia.
  - repeat constructor.
  - vm_compute. reflexivity.
  - exists ∅, 0. split; [split; [done|]; split; [done|]; by intros h v ?%elem_of_nil|].
    split; [by intros k b ?%lookup_empty_Some|by intros i ps ?%elem_of_nil|constructor|lia].
Defined.
