(* ===== verification/TableCache.v ===== *)
(** * The table cache: db/table_cache.cpp

    Open tables by file number, behind the cache interface, over the block
    cache that the tables share. [TableCache::Get] finds the table and looks
    the key up in it. The hashing [Get] does behind the lookup reads and writes
    only buffers of its own and the global [cmac]. *)

From S2P Require Import Prelude Coding Status Comparator Dbformat Filter FilterBlock MemTable Env Filename Iterator Block Format TableBuilder Cache Table TableWrite TableFile TableRead VersionEdit Version.

(** The state of both caches. *)
Record Caches (C CT : Type) := mkCaches { tc_blocks : option C; tc_tables : CT }.
Arguments mkCaches {C CT}.
Arguments tc_blocks {C CT}.
Arguments tc_tables {C CT}.

Section TableCache.
Context (snappy : Snappy) {C H : Type} (bcache : Cache C H Block) {CT HT : Type} (tcache : Cache CT HT Table).
Context (dbname : bytes) (opts : TableOptions) (paranoid_checks : bool).

(** [Env::NewRandomAccessFile] on the files as they are. *)
Context (NewRandomAccessFile : bytes -> Status * option RandomAccessFile).

Definition FindTable (file_number file_size : Z) (st : Caches C CT) : option (Status * option HT * Caches C CT) :=
  let key := EncodeFixed64 file_number in
  l ← cache_Lookup tcache key (tc_tables st);
  let '(handle, tables) := l in
  match handle with
  | Some h => Some (Status_OK, Some h, mkCaches (tc_blocks st) tables)
  | None =>
      let '(s, file) := NewRandomAccessFile (TableFileName dbname file_number) in
      let '(s, file) :=
        if ok s then (s, file)
        else let '(s', old) := NewRandomAccessFile (SSTTableFileName dbname file_number) in
             (if ok s' then Status_OK else s, old) in
      o ← (if ok s then
             file ← file;
             Table_Open snappy bcache (o_comparator opts) (o_filter_policy opts) paranoid_checks file file_size (tc_blocks st)
           else Some (s, None, tc_blocks st));
      let '(s, table, blocks) := o in
      if negb (ok s) then
        match table with Some _ => None | None => Some (s, None, mkCaches blocks tables) end
      else
        table ← table;
        i ← cache_Insert tcache key table 1 tables;
        Some (s, Some i.1, mkCaches blocks i.2)
  end.

(** The status and what the saver is called with. *)
Definition TableCache_Get (options : ReadOptions) (file_number file_size : Z) (k : bytes) (st : Caches C CT) :
    option (Status * option (bytes * bytes) * Caches C CT) :=
  f ← FindTable file_number file_size st;
  let '(s, handle, st) := f in
  if ok s then
    handle ← handle;
    t ← cache_Value tcache handle (tc_tables st);
    g ← Table_InternalGet snappy bcache t options k (tc_blocks st);
    let '(s, saved, blocks) := g in
    tables ← cache_Release tcache handle (tc_tables st);
    Some (s, saved, mkCaches blocks tables)
  else Some (s, None, st).

Definition Evict (file_number : Z) (st : Caches C CT) : option (Caches C CT) :=
  tables ← cache_Erase tcache (EncodeFixed64 file_number) (tc_tables st);
  Some (mkCaches (tc_blocks st) tables).

(** ** The table found is the table of the file *)

Context (bcinv : C -> gmap bytes Block -> list (H * Block) -> Z -> Prop) `{!CacheLaws bcache bcinv}.
Context (tcinv : CT -> gmap bytes Table -> list (HT * Table) -> Z -> Prop) `{!CacheLaws tcache tcinv}.
Context `{!ComparatorLaws (o_comparator opts)}.

(** The table files of the database, with the parts they hold. *)
Context (files : gmap Z (bytes * list Part)).

Definition files_ok : Prop := forall num F parts, files !! num = Some (F, parts) ->
  fits 64 num /\ NewRandomAccessFile (TableFileName dbname num) = (Status_OK, Some (MemRandomAccess F)) /\
  table_file snappy opts F parts.

(** [n] more tables can be opened; [heldb] and [heldt] are the handles in use. *)
Definition caches_ok (tabs : list (Z * list Part)) (n : nat) (heldb : list (H * Block)) (heldt : list (HT * Table)) (st : Caches C CT) : Prop :=
  cache_state bcinv n tabs heldb (tc_blocks st) /\
  exists m id, tcinv (tc_tables st) m heldt id /\
    forall num F parts t, files !! num = Some (F, parts) -> m !! EncodeFixed64 num = Some t ->
      exists i, opened snappy opts t i F parts /\ (i, parts) ∈ tabs.

Definition tinv (heldb : list (H * Block)) (heldt : list (HT * Table)) (n : nat) (st : Caches C CT) : Prop :=
  exists tabs, caches_ok tabs n heldb heldt st.

Lemma cache_state_le n tabs held c : cache_state bcinv (S n) tabs held c -> cache_state bcinv n tabs held c.
Proof.
  destruct c as [c|]; [|done]. intros (m & id & Hc & [K1 K2 K3 K4]). exists m, id. split; [done|]. split; [done..|lia].
Qed.

Lemma tinv_budget heldb heldt : budget (tinv heldb heldt).
Proof. intros n st (tabs & Hb & Ht). exists tabs. split; [by apply cache_state_le|done]. Qed.

Lemma EncodeFixed64_inj a b : fits 64 a -> fits 64 b -> EncodeFixed64 a = EncodeFixed64 b -> a = b.
Proof.
  intros Ha Hb E. apply (f_equal DecodeFixed64) in E. rewrite !DecodeFixed64_encode in E.
  by rewrite !u64_small in E by apply Ha || apply Hb.
Qed.

Lemma FindTable_spec num F parts tabs n heldb heldt st : files_ok -> files !! num = Some (F, parts) -> caches_ok tabs (S n) heldb heldt st ->
  exists h t i tabs' st', FindTable num (zlen F) st = Some (Status_OK, Some h, st') /\ opened snappy opts t i F parts /\
    (i, parts) ∈ tabs' /\ tabs ⊆ tabs' /\ caches_ok tabs' n heldb ((h, t) :: heldt) st'.
Proof.
  intros Hf Hnum (Hb & m & id & Ht & Hm). destruct (Hf num F parts Hnum) as (Hfit & Hopen & Htf). unfold FindTable.
  destruct (lookup_law (tc_tables st) m heldt id (EncodeFixed64 num) Ht) as (r & ct & -> & Hl). cbn [mbind option_bind].
  destruct (m !! EncodeFixed64 num) as [t|] eqn:Em.
  - destruct Hl as (h & -> & Ht'). destruct (Hm num F parts t Hnum Em) as (i & Ho & Hi).
    exists h, t, i, tabs, (mkCaches (tc_blocks st) ct). split; [done|]. split; [done|]. split; [done|]. split; [done|].
    split; [by apply cache_state_le|]. exists m, id. split; [done|exact Hm].
  - destruct Hl as [-> ->]. rewrite Hopen. cbn [ok Status_OK mbind option_bind].
    destruct (Open_spec snappy bcache bcinv opts F parts paranoid_checks n tabs heldb (tc_blocks st) Htf Hb) as (t & i & c' & -> & Ho & Hc').
    cbn [mbind option_bind ok Status_OK negb].
    destruct (insert_law (tc_tables st) m heldt id (EncodeFixed64 num) t 1 Ht) as (h & ct' & m' & -> & Ht' & Hsub). cbn [mbind option_bind fst snd].
    exists h, t, i, ((i, parts) :: tabs), (mkCaches c' ct'). split; [done|]. split; [done|]. split; [by left|].
    split; [intros y Hy; by right|]. split; [done|]. exists m', id. split; [done|]. intros num2 F2 parts2 t2 Hnum2 Hm2. apply (lookup_weaken _ _ _ _ Hm2) in Hsub.
    apply lookup_insert_Some in Hsub as [[E <-]|[_ Hs]].
    + apply EncodeFixed64_inj in E as <-; [|done|by eapply Hf]. rewrite Hnum in Hnum2. injection Hnum2 as <- <-. exists i.
      split; [done|by left].
    + destruct (Hm num2 F2 parts2 t2 Hnum2 Hs) as (j & Hj & Hin). exists j. split; [done|by right].
Qed.

Lemma TableCache_Get_spec num F parts ro k n heldb heldt st : files_ok -> files !! num = Some (F, parts) -> tinv heldb heldt (S n) st ->
  exists t i r st', TableCache_Get ro num (zlen F) k st = Some (Status_OK, r, st') /\ opened snappy opts t i F parts /\
    get_result opts t parts k r /\ tinv heldb heldt n st'.
Proof.
  intros Hf Hnum [tabs0 Hst].
  destruct (FindTable_spec num F parts tabs0 n heldb heldt st Hf Hnum Hst) as (h & t & i & tabs & st1 & Hfind & Ho & Hin & _ & Hb & m & id & Ht & Hm).
  unfold TableCache_Get. rewrite Hfind. cbn [mbind option_bind ok Status_OK].
  rewrite (value_law (tc_tables st1) m _ id h t Ht) by (by left). cbn [mbind option_bind].
  destruct (InternalGet_spec snappy bcache bcinv opts t i F parts n tabs heldb (tc_blocks st1) ro k Ho Hb Hin) as (r & c' & -> & Hr & Hc').
  cbn [mbind option_bind]. destruct (release_law (tc_tables st1) m _ id h t heldt Ht) as (ct & -> & Hct); [done|]. cbn [mbind option_bind].
  exists t, i, r, (mkCaches c' ct). split; [done|]. split; [done|]. split; [done|]. exists tabs. split; [done|]. by exists m, id.
Qed.

Lemma Evict_spec num n heldb heldt st : files_ok -> tinv heldb heldt n st -> exists st', Evict num st = Some st' /\ tinv heldb heldt n st'.
Proof.
  intros Hf (tabs & Hb & m & id & Ht & Hm). unfold Evict.
  destruct (erase_law (tc_tables st) m heldt id (EncodeFixed64 num) Ht) as (ct & -> & Hct). cbn [mbind option_bind].
  eexists. split; [done|]. exists tabs. split; [done|]. exists (delete (EncodeFixed64 num) m), id. split; [done|].
  intros num2 F2 parts2 t2 Hnum2 [_ Hs]%lookup_delete_Some. by apply (Hm num2 F2).
Qed.

End TableCache.

(** ** Lookups by user key and snapshot *)

(** filter_policy.h: the policy must not tell keys apart that the comparator
    takes as equal. *)
Class FilterRespects (ucmp : Comparator) (p : FilterPolicy) : Prop :=
  filter_respects : forall a b f, Compare ucmp a b = Eq -> KeyMayMatch p a f = KeyMayMatch p b f.

#[global] Instance Bytewise_respects p : FilterRespects BytewiseComparator p.
Proof. intros a b f E. by apply Slice_compare_eq in E as ->. Qed.

Lemma filter_same p r o a b : (forall f, KeyMayMatch p a f = KeyMayMatch p b f) ->
  FilterBlock_KeyMayMatch p r o a = FilterBlock_KeyMayMatch p r o b.
Proof. intros E. unfold FilterBlock_KeyMayMatch. by rewrite E. Qed.

Section Internal.
Context (snappy : Snappy) (opts : TableOptions) (ucmp : Comparator) `{!ComparatorLaws ucmp}.
Context (user_policy : option FilterPolicy).
Context (Hcmp : o_comparator opts = InternalKeyComparator ucmp).
Context (Hpol : o_filter_policy opts = InternalFilterPolicy <$> user_policy).
Context (Hresp : forall p, user_policy = Some p -> FilterRespects ucmp p).

Abbreviation icmp := (InternalKey_Compare ucmp).

(** Between a block and the next one the separator leaves no key of the user
    key the next one starts with. *)
Lemma gap_user l k nx : icmp l k = Lt -> icmp k (InternalKey_FindShortestSeparator ucmp l nx) <> Gt -> icmp l nx = Lt ->
  Compare ucmp (ExtractUserKey k) (ExtractUserKey nx) = Lt.
Proof.
  intros Hlk Hks Hln. unfold InternalKey_FindShortestSeparator in Hks. destruct (_ && _) eqn:E.
  - apply andb_prop in E as [_ E]. apply is_lt_true in E. apply icmp_user_le in Hks.
    unfold PutFixed64 in Hks. rewrite ExtractUserKey_app in Hks.
    apply (cmp_le_lt_trans (Compare ucmp) _ _ _ Hks). apply sep_upper.
    assert (Hle : Compare ucmp (ExtractUserKey l) (ExtractUserKey nx) <> Gt) by (apply icmp_user_le; by rewrite Hln).
    destruct (Compare ucmp (ExtractUserKey l) (ExtractUserKey nx)) eqn:EU; try done.
    by rewrite (sep_equal _ _ EU), (cmp_refl (Compare ucmp)) in E.
  - exfalso. apply (cmp_not_gt_le icmp) in Hks. by destruct Hks.
Qed.

Lemma seek_entry_pos es k : (seek_pos icmp (map kv es) k ≫= fun n => map kv es !! n) = kv <$> seek_entry ucmp es k.
Proof.
  induction es as [|e es IH]; [done|]. cbn [map seek_pos seek_entry kv fst]. destruct (is_lt _); [|done].
  rewrite <- IH. by destruct (seek_pos icmp (map kv es) k).
Qed.

Lemma user_between a b c u : icmp a b <> Gt -> icmp b c <> Gt -> Compare ucmp (ExtractUserKey a) u = Eq ->
  Compare ucmp (ExtractUserKey c) u = Eq -> Compare ucmp (ExtractUserKey b) u = Eq.
Proof.
  intros Hab Hbc Ha Hc. apply icmp_user_le in Hab, Hbc. rewrite (cmp_eq_l (Compare ucmp) _ _ _ Ha) in Hab.
  rewrite (cmp_eq_r (Compare ucmp) _ _ _ Hc) in Hbc. apply (cmp_not_gt_le (Compare ucmp)) in Hab.
  destruct (Compare ucmp (ExtractUserKey b) u) eqn:E; done.
Qed.

(** An entry of the user key behind the block the index leads to shows up in
    the block as well. *)
Lemma later_visible t id F parts u s i j p q x : opened snappy opts t id F parts -> valid_seq s ->
  seek_pos icmp (map index_entry parts) (seek_key u s) = Some i -> parts !! i = Some p -> parts !! j = Some q -> (i < j)%nat ->
  x ∈ p_es q -> Compare ucmp (ExtractUserKey x.1) u = Eq ->
  exists y, y ∈ p_es p /\ icmp y.1 (seek_key u s) <> Lt /\ Compare ucmp (ExtractUserKey y.1) u = Eq.
Proof.
  intros Ho Hs Hseek Hp Hq Hij Hx Hu. pose proof (op_table _ _ _ _ _ _ Ho) as Ht. pose proof Hx as [n Hn]%list_elem_of_lookup.
  destruct (tf_seps _ _ _ _ Ht i p Hp) as (l & Hl & Hls & Hnx). pose proof (tf_sorted _ _ _ _ Ht) as Hsort.
  pose proof (part_lookup parts [] j q n x Hq Hn) as Hxl. destruct (part_last parts [] i p l Hp Hl) as [Hll Hpos]. rewrite app_nil_r in *.
  pose proof (part_start_le parts i j Hij) as Hst.
  destruct (lookup_lt_is_Some_2 (parts_es parts) (part_end parts i)) as [nx Hx']; [apply lookup_lt_Some in Hxl; lia|].
  destruct (Hnx nx Hx') as [Hsep _]. rewrite Hcmp in *. cbn [Compare FindShortestSeparator InternalKeyComparator] in *.
  assert (Hln : icmp l.1 nx.1 = Lt) by (apply (sorted_keys_lookup _ _ _ _ l nx Hsort Hll Hx'); lia).
  assert (Hnxx : icmp nx.1 x.1 <> Gt).
  { destruct (decide (part_end parts i = length (parts_es (take j parts)) + n)%nat) as [E|].
    - rewrite E, Hxl in Hx'. injection Hx' as <-. by rewrite (cmp_refl icmp).
    - rewrite (sorted_keys_lookup _ _ _ _ nx x Hsort Hx' Hxl); [done|lia]. }
  assert (Huk : ExtractUserKey (seek_key u s) = u) by apply ExtractUserKey_InternalKey.
  pose proof (seek_pos_inv icmp (map index_entry parts) (seek_key u s)) as Hinv. rewrite Hseek in Hinv.
  destruct Hinv as (z & Hz & Hge & _). rewrite list_lookup_fmap, Hp in Hz. injection Hz as <-. cbn [fst index_entry] in Hge.
  apply (cmp_not_gt_le icmp) in Hge.
  destruct (icmp l.1 (seek_key u s)) eqn:Elk.
  2:{ exfalso. assert (Hg : Compare ucmp (ExtractUserKey (seek_key u s)) (ExtractUserKey nx.1) = Lt)
        by (apply (gap_user l.1); [done|by rewrite <- Hsep|done]). rewrite Huk in Hg.
      apply icmp_user_le in Hnxx. rewrite (cmp_eq_r (Compare ucmp) _ _ _ Hu) in Hnxx.
      apply (cmp_not_gt_le (Compare ucmp)) in Hnxx; done. }
  all: exists l; split; [apply last_Some in Hl as [es' ->]; set_solver|]; split; [by rewrite Elk|];
    apply (user_between (seek_key u s) l.1 x.1 u);
    [apply (cmp_not_gt_le icmp); by rewrite Elk|apply cmp_lt_not_gt, (cmp_lt_le_trans icmp _ nx.1); done
    |rewrite Huk; apply (cmp_refl (Compare ucmp))|done].
Qed.

Lemma internal_result t id F parts es u s r : opened snappy opts t id F parts -> parts_es parts = map kv es -> Forall entry_ok es ->
  valid_seq s -> get_result opts t parts (seek_key u s) r ->
  r = kv <$> seek_entry ucmp es (seek_key u s) \/ r = None /\ forall e, e ∈ es -> ~ visible ucmp u s e.
Proof.
  intros Ho Hes Hok Hs Hg. pose proof (op_table _ _ _ _ _ _ Ho) as Ht. unfold get_result in Hg. rewrite Hcmp in Hg. cbn [Compare InternalKeyComparator] in Hg.
  assert (Hlc : ComparatorLaws (o_comparator opts)) by (rewrite Hcmp; apply _).
  assert (Hc : forall a b, Compare (o_comparator opts) a b = icmp a b) by (intros; by rewrite Hcmp).
  rewrite Forall_forall in Hok.
  assert (Hvis : forall e, e ∈ es -> visible ucmp u s e -> exists a q, parts !! a = Some q /\ kv e ∈ p_es q /\
    icmp (kv e).1 (seek_key u s) <> Lt /\ Compare ucmp (ExtractUserKey (kv e).1) u = Eq).
  { intros e He Hv. assert (Hin : kv e ∈ parts_es parts) by (rewrite Hes; by apply (list_elem_of_fmap_2 kv)).
    apply elem_parts_es in Hin as (a & q & Hq & Hin). exists a, q. split; [done|]. split; [done|]. cbn [kv fst]. split.
    - apply (not_before ucmp e u s (proj1 (Hok e He)) Hs). by right.
    - unfold e_ikey. rewrite ExtractUserKey_InternalKey. apply Hv. }
  destruct (seek_pos icmp (map index_entry parts) (seek_key u s)) as [i|] eqn:Ei.
  2:{ right. split; [done|]. intros e He Hv. destruct (Hvis e He Hv) as (a & q & Hq & Hin & Hge & _). apply Hge. rewrite <- Hc.
      apply (index_none snappy opts F parts _ (kv e) Ht); [by rewrite Hcmp|]. apply elem_parts_es. by exists a, q. }
  destruct Hg as (p & Hp & Hr). pose proof Ei as Ei'. rewrite <- (f_equal Compare Hcmp : _ = icmp) in Ei'.
  destruct (index_split snappy opts F parts _ i p Ht Ei' Hp) as [Hbef _].
  assert (Hin : forall e, e ∈ es -> visible ucmp u s e -> exists y, y ∈ p_es p /\ icmp y.1 (seek_key u s) <> Lt /\ Compare ucmp (ExtractUserKey y.1) u = Eq).
  { intros e He Hv. destruct (Hvis e He Hv) as (a & q & Hq & Hin & Hge & Hu). destruct (Nat.lt_trichotomy a i) as [Ha|[->|Ha]].
    - exfalso. apply Hge. rewrite <- Hc. by apply (Hbef a q).
    - exists (kv e). split; [congruence|done].
    - by apply (later_visible t id F parts u s i a p q (kv e)). }
  destruct Hr as [[(fp & f & Hf & Hno) ->]|Hr].
  - right. split; [done|]. intros e He Hv. destruct (Hin e He Hv) as (y & Hy & _ & Hu).
    destruct (op_filter _ _ _ _ _ _ Ho fp f Hf) as [Hfp Hm]. specialize (Hm p y ltac:(by eapply list_elem_of_lookup_2) Hy).
    rewrite Hpol in Hfp. destruct user_policy as [up|] eqn:Eup; [|done]. injection Hfp as <-.
    rewrite (filter_same _ f _ y.1 (seek_key u s)) in Hm; [by rewrite Hm in Hno|]. intros g. cbn [InternalFilterPolicy KeyMayMatch].
    apply (Hresp up eq_refl). unfold seek_key. by rewrite ExtractUserKey_InternalKey.
  - destruct (seek_pos icmp (p_es p) (seek_key u s)) as [j|] eqn:Ej.
    + left. rewrite <- seek_entry_pos, <- Hes, Hr. pose proof Ej as Ej'. rewrite <- (f_equal Compare Hcmp : _ = icmp) in Ej'.
      pose proof (part_seek snappy opts F parts _ i p j Ht Ei' Hp Ej') as Hps. rewrite Hcmp in Hps. cbn [Compare InternalKeyComparator] in Hps. by rewrite Hps.
    + right. split; [done|]. intros e He Hv. destruct (Hin e He Hv) as (y & Hy & Hge & _). apply list_elem_of_lookup in Hy as [n Hn].
      pose proof (seek_pos_inv icmp (p_es p) (seek_key u s)) as Hinv. rewrite Ej in Hinv. by apply Hge, (Hinv n).
Qed.

End Internal.

(** ** Properties *)

(** A version whose files are tables of [files]. *)
Definition stored_in (files : gmap Z (bytes * list Part)) (content : FileMetaData -> list Entry) (f : FileMetaData) : Prop :=
  exists F parts, files !! number f = Some (F, parts) /\ file_size f = zlen F /\ parts_es parts = map kv (content f).

(** [Version::Get] through the table cache. *)
Lemma Version_Get_tables snappy {C H} (bcache : Cache C H Block) {CT HT} (tcache : Cache CT HT Table) bcinv tcinv
    dbname opts paranoid NewRandomAccessFile files ucmp user_policy content heldb heldt ro v u s value n st :
  CacheLaws bcache bcinv -> CacheLaws tcache tcinv -> ComparatorLaws ucmp ->
  o_comparator opts = InternalKeyComparator ucmp -> o_filter_policy opts = InternalFilterPolicy <$> user_policy ->
  (forall p, user_policy = Some p -> FilterRespects ucmp p) ->
  files_ok snappy dbname opts NewRandomAccessFile files ->
  version_ok ucmp v -> newer_first ucmp content v ->
  (forall level f, f ∈ level_files v level -> content_ok ucmp content f /\ stored_in files content f) ->
  valid_seq s -> tinv snappy opts bcinv tcinv files heldb heldt (num_files v (seq 0 kNumLevels) + n) st ->
  exists res stats val st',
    Version_Get ucmp (TableCache_Get snappy bcache tcache dbname opts paranoid NewRandomAccessFile ro) v (make_LookupKey u s) value st
      = Some (res, stats, val, st') /\ tinv snappy opts bcinv tcinv files heldb heldt n st' /\
    ((exists e, newest ucmp (version_entries content v) u s e /\ (res, val) = answer e value) \/
     ((forall e, e ∈ version_entries content v -> ~ visible ucmp u s e) /\ res = NotFound [] /\ val = value)).
Proof.
  intros Hb Ht Hu Hcmp Hpol Hresp Hf Hv Hnew Hst Hs Hti. unfold Version_Get. rewrite lk_internal_key_spec, lk_user_key_spec by done.
  apply (get_levels_spec ucmp content _ (tinv snappy opts bcinv tcinv files heldb heldt) v u s n kNumLevels 0); [|apply tinv_budget|done|done].
  split; [done|]. split; [done|]. intros level f Hlf. destruct (Hst level f Hlf) as [Hc (F & parts & Hfile & Hsz & Hes)]. split; [done|].
  intros u' s' m st' Hs' Hst'. assert (Hlc : ComparatorLaws (o_comparator opts)) by (rewrite Hcmp; apply _). rewrite Hsz.
  destruct (TableCache_Get_spec snappy bcache tcache dbname opts paranoid NewRandomAccessFile bcinv tcinv files
    (number f) F parts ro (seek_key u' s') m heldb heldt st' Hf Hfile Hst') as (t & i & r & st2 & Hg & Ho & Hr & Hst2).
  exists r, st2. split; [done|]. split; [done|]. by apply (internal_result snappy opts ucmp user_policy Hcmp Hpol Hresp t i F parts); [..|apply Hc| |].
Qed.

(** C15. [Version::Get] over real tables: when every file of a version is a table
    that holds the entries of the file, a lookup through the table cache and
    the block cache - whatever they hold, with any filter policy that respects
    the comparator - opens the tables it needs, never fails, and returns the
    newest entry the snapshot sees, NotFound if there is none. *)
Theorem version_get_from_tables snappy {C H} (bcache : Cache C H Block) {CT HT} (tcache : Cache CT HT Table) bcinv tcinv
    dbname opts paranoid NewRandomAccessFile files ucmp user_policy content heldb heldt ro v u s value n st :
  CacheLaws bcache bcinv -> CacheLaws tcache tcinv -> ComparatorLaws ucmp ->
  o_comparator opts = InternalKeyComparator ucmp -> o_filter_policy opts = InternalFilterPolicy <$> user_policy ->
  (forall p, user_policy = Some p -> FilterRespects ucmp p) ->
  files_ok snappy dbname opts NewRandomAccessFile files ->
  version_ok ucmp v -> newer_first ucmp content v ->
  (forall level f, f ∈ level_files v level -> content_ok ucmp content f /\ stored_in files content f) ->
  valid_seq s -> tinv snappy opts bcinv tcinv files heldb heldt (num_files v (seq 0 kNumLevels) + n) st ->
  exists res stats val st',
    Version_Get ucmp (TableCache_Get snappy bcache tcache dbname opts paranoid NewRandomAccessFile ro) v (make_LookupKey u s) value st
      = Some (res, stats, val, st') /\ tinv snappy opts bcinv tcinv files heldb heldt n st' /\
    ((exists e, newest ucmp (version_entries content v) u s e /\ (res, val) = answer e value) \/
     ((forall e, e ∈ version_entries content v -> ~ visible ucmp u s e) /\ res = NotFound [] /\ val = value)).
Proof. apply Version_Get_tables. Qed.

Definition sample_options : TableOptions :=
  mkTableOptions (InternalKeyComparator BytewiseComparator) 40 2 kNoCompression (Some (InternalFilterPolicy (NewBloomFilterPolicy 10))).

(** The table file of a file of the version, and the directory. *)
Definition sample_table (f : FileMetaData) : bytes :=
  from_option (fun r => t_file r.2) [] (build_table NoSnappy sample_options (map kv (sample_content f))).

Definition sample_open (name : bytes) : Status * option RandomAccessFile :=
  if decide (name = TableFileName (lit "db") 8) then (Status_OK, Some (MemRandomAccess (sample_table sample_new)))
  else if decide (name = TableFileName (lit "db") 3) then (Status_OK, Some (MemRandomAccess (sample_table sample_old)))
  else (NotFound name, None).

Lemma sample_table_file f : f = sample_new \/ f = sample_old ->
  exists parts, table_file NoSnappy sample_options (sample_table f) parts /\ parts_es parts = map kv (sample_content f).
Proof.
  intros Hf. assert (Hi : 1 <= o_block_restart_interval sample_options) by (cbn; lia).
  assert (Hp : forall p, o_filter_policy sample_options = Some p -> FilterPolicyLaws p /\ SmallFilter p).
  { intros p [= <-]. split; [apply InternalFilterPolicy_laws, Bloom_laws; lia|apply InternalFilterPolicy_small, Bloom_small; lia]. }
  destruct (table_built NoSnappy sample_options Hi Hp (map kv (sample_content f))) as (r & parts & Hb & Ht & Hes & _).
  - destruct Hf as [->| ->]; repeat constructor.
  - destruct Hf as [->| ->]; vm_compute; reflexivity.
  - exists parts. split; [|done]. unfold sample_table. by rewrite Hb.
Qed.

Lemma sample_files_ok F8 F3 parts8 parts3 : F8 = sample_table sample_new -> F3 = sample_table sample_old ->
  table_file NoSnappy sample_options F8 parts8 -> table_file NoSnappy sample_options F3 parts3 ->
  files_ok NoSnappy (lit "db") sample_options sample_open (<[8 := (F8, parts8)]> {[3 := (F3, parts3)]}).
Proof.
  intros E8 E3 H8 H3 num F parts [[<- [= <- <-]]|[_ [<- [= <- <-]]%lookup_singleton_Some]]%lookup_insert_Some.
  - split; [split; lia|]. split; [|exact H8]. unfold sample_open. rewrite decide_True by done. by rewrite E8.
  - split; [split; lia|]. split; [|exact H3]. unfold sample_open. rewrite decide_False by done. rewrite decide_True by done.
    by rewrite E3.
Qed.

(** Before anything is read. *)
Lemma fresh_caches snappy opts files n : Z.of_nat n < 2 ^ 64 ->
  caches_ok snappy opts no_cache_inv no_cache_inv files [] n [] [] (mkCaches (Some (([], 0) : list Block * Z)) (([], 0) : list Table * Z)).
Proof.
  intros Hn. split; [exists ∅, 0|exists ∅, 0].
  - split; [split; [done|]; split; [done|]; by intros h v ?%elem_of_nil|].
    split; [by intros k b ?%lookup_empty_Some|by intros i ps ?%elem_of_nil|constructor|lia].
  - split; [split; [done|]; split; [done|]; by intros h v ?%elem_of_nil|]. intros num F parts t _ Hm.
    by apply lookup_empty_Some in Hm.
Qed.

Lemma version_get_from_tables_witness :
  exists res stats val st',
    Version_Get BytewiseComparator
      (TableCache_Get NoSnappy NoCache NoCache (lit "db") sample_options true sample_open (mkReadOptions true true))
      sample_version (make_LookupKey (lit "b") 9) [] (mkCaches (Some ([], 0)) ([], 0)) = Some (res, stats, val, st') /\
    ((exists e, newest BytewiseComparator (version_entries sample_content sample_version) (lit "b") 9 e /\ (res, val) = answer e []) \/
     ((forall e, e ∈ version_entries sample_content sample_version -> ~ visible BytewiseComparator (lit "b") 9 e) /\
      res = NotFound [] /\ val = [])).
Proof.
  destruct (sample_table_file sample_new ltac:(by left)) as (parts8 & H8 & E8).
  destruct (sample_table_file sample_old ltac:(by right)) as (parts3 & H3 & E3).
  destruct (version_get_from_tables NoSnappy NoCache NoCache _ _ (lit "db") sample_options true sample_open
    (<[8 := (sample_table sample_new, parts8)]> {[3 := (sample_table sample_old, parts3)]})
    BytewiseComparator (Some (NewBloomFilterPolicy 10)) sample_content [] [] (mkReadOptions true true) sample_version (lit "b") 9 []
    0 (mkCaches (Some ([], 0)) ([], 0)) NoCache_laws NoCache_laws _ eq_refl eq_refl) as (res & stats & val & st' & Hg & _ & Hr).
  - intros p _. apply _.
  - by apply (sample_files_ok (sample_table sample_new) (sample_table sample_old)).
  - exact sample_version_ok.
  - exact sample_newer_first.
  - intros level f Hf. split; [by apply (sample_content_ok level)|].
    apply sample_files in Hf as [[_ ->]|[_ ->]]; eexists _, _; (split; [reflexivity|]); (split; [vm_compute; reflexivity|done]).
  - apply sample_seq. lia.
  - exists []. by apply fresh_caches.
  - exists res, stats, val, st'. split; [exact Hg|exact Hr].
Defined.
