(* ===== verification/TableIter.v ===== *)
(** * Iterating tables: Table::NewIterator and TableCache::NewIterator

    The two-level iterator over the index and the data blocks of a table, on
    the state of the caches, and the iterators the table cache hands out. An
    iterator holds a handle of the block it stands in and a handle of its
    table; both are released when it moves on or is deleted. *)

From S2P Require Import Prelude Coding Status Comparator Dbformat Filter FilterBlock Env Filename Version Iterator World TwoLevel Block Format TableBuilder Cache Table TableWrite TableFile TableRead MemTable TableCache.

Section Defs.
Context (snappy : Snappy) {C H : Type} (bcache : Cache C H Block) {CT HT : Type} (tcache : Cache CT HT Table).
Context (dbname : bytes) (opts : TableOptions) (paranoid_checks : bool).
Context (NewRandomAccessFile : bytes -> Status * option RandomAccessFile).

Abbreviation G := (Caches C CT).

(** A block iterator with the handle its cleanup releases. *)
Abbreviation DataIter := ((Status + BlockIter) * option H)%type.

Definition block_reader (options : ReadOptions) (t : Table) (index_value : bytes) : M G DataIter := fun st =>
  match BlockReader snappy bcache t options index_value (tc_blocks st) with
  | Some (it, ch, c) => Some ((it, ch), mkCaches c (tc_tables st))
  | None => None
  end.

Definition ReleaseBlock (ch : option H) : M G unit := fun st =>
  match run_cleanup bcache ch (tc_blocks st) with
  | Some c => Some ((), mkCaches c (tc_tables st))
  | None => None
  end.

(** The argument of the block function, and the handle of the table cache for
    [UnrefEntry] when the iterator comes from there. *)
Record TableArg := mkTableArg { ta_table : Table; ta_handle : option HT }.

Definition UnrefEntry (x : TableArg) : M G unit := fun st =>
  match ta_handle x with
  | Some h => match cache_Release tcache h (tc_tables st) with
              | Some tables => Some ((), mkCaches (tc_blocks st) tables)
              | None => None
              end
  | None => Some ((), st)
  end.

Abbreviation TableIterState := (TwoLevelIterator ((Status + BlockIter) * unit) DataIter TableArg).

Definition IndexIterator : IteratorM G ((Status + BlockIter) * unit) :=
  PureIterator (AnyBlockIterator (o_comparator opts)) (fun _ => mret ()).
Definition DataIterator : IteratorM G DataIter := PureIterator (AnyBlockIterator (o_comparator opts)) ReleaseBlock.

Definition TableIterator (options : ReadOptions) (fuel : nat) : IteratorM G TableIterState :=
  NewTwoLevelIterator IndexIterator DataIterator (fun x => block_reader options (ta_table x)) UnrefEntry fuel.

Definition Table_NewIterator (t : Table) (handle : option HT) : option TableIterState :=
  iiter ← Block_NewIterator (tb_index_block t);
  new_TwoLevelIterator IndexIterator (iiter, ()) (mkTableArg t handle).

Definition find_table (file_number file_size : Z) : M G (Status * option HT) :=
  FindTable snappy bcache tcache dbname opts paranoid_checks NewRandomAccessFile file_number file_size.

Definition table_value (handle : HT) : M G Table := fun st =>
  match cache_Value tcache handle (tc_tables st) with Some t => Some (t, st) | None => None end.

(** [TableCache::NewIterator]: an error iterator, or one over the table. *)
Definition TableCache_NewIterator (file_number file_size : Z) : M G ((Status * unit) + TableIterState) :=
  f ← find_table file_number file_size;
  if negb (ok f.1) then mret (inl (NewErrorIterator f.1, ()))
  else
    handle ← lift f.2;
    t ← table_value handle;
    result ← lift (Table_NewIterator t (Some handle));
    mret (inr result).

(** What [TableCache::NewIterator] returns, behind the interface. *)
Definition AnyTableIterator (options : ReadOptions) (fuel : nat) : IteratorM G ((Status * unit) + TableIterState) :=
  SumIteratorM (PureIterator EmptyIterator (fun _ => mret ())) (TableIterator options fuel).

End Defs.

(** ** The resources of the caches *)

(** What iterators hold: handles of the two caches, and the knowledge that a
    table with this number uses the block cache. *)
Inductive Held (H HT : Type) :=
| HBlock (x : H * Block)
| HTable (x : HT * Table)
| Reg (i : Z) (parts : list Part).
Arguments HBlock {H HT}.
Arguments HTable {H HT}.
Arguments Reg {H HT}.

Definition held_blocks {H HT} (l : list (Held H HT)) : list (H * Block) := omap (fun r => match r with HBlock x => Some x | _ => None end) l.
Definition held_tables {H HT} (l : list (Held H HT)) : list (HT * Table) := omap (fun r => match r with HTable x => Some x | _ => None end) l.

Section Spec.
Context (snappy : Snappy) {C H : Type} (bcache : Cache C H Block) {CT HT : Type} (tcache : Cache CT HT Table).
Context (dbname : bytes) (opts : TableOptions) (paranoid_checks : bool).
Context (NewRandomAccessFile : bytes -> Status * option RandomAccessFile).
Context (bcinv : C -> gmap bytes Block -> list (H * Block) -> Z -> Prop) `{!CacheLaws bcache bcinv}.
Context (tcinv : CT -> gmap bytes Table -> list (HT * Table) -> Z -> Prop) `{!CacheLaws tcache tcinv}.
Context `{!ComparatorLaws (o_comparator opts)}.
Context (files : gmap Z (bytes * list Part)).

Abbreviation cmp := (o_comparator opts).
Abbreviation G := (Caches C CT).
Abbreviation AnyTableState := ((Status * unit) + TwoLevelIterator ((Status + BlockIter) * unit) ((Status + BlockIter) * option H) TableArg)%type.

Definition ginv (n : nat) (l : list (Held H HT)) (st : G) : Prop :=
  exists tabs, caches_ok snappy opts bcinv tcinv files tabs n (held_blocks l) (held_tables l) st /\
    forall i parts, Reg i parts ∈ l -> (i, parts) ∈ tabs.

Lemma cache_state_perm n tabs held held' c : held ≡ₚ held' -> cache_state bcinv n tabs held c -> cache_state bcinv n tabs held' c.
Proof.
  intros Hp. destruct c as [c|]; cbn; [|intros ->; by apply Permutation_nil_l in Hp].
  intros (m & id & Hc & Hok). exists m, id. split; [|done]. by eapply held_law.
Qed.

#[global] Instance caches_world : World ginv.
Proof.
  split.
  - intros n l l' st Hp (tabs & (Hb & m & id & Ht & Hm) & Hr). exists tabs. split; [split|].
    + eapply cache_state_perm; [|exact Hb]. unfold held_blocks. by rewrite Hp.
    + exists m, id. split; [|done]. eapply held_law; [|exact Ht]. unfold held_tables. by rewrite Hp.
    + intros i parts Hi. apply Hr. by rewrite Hp.
  - intros n l st (tabs & (Hb & Ht) & Hr). exists tabs. split; [split; [by apply cache_state_le|done]|done].
Qed.

(** ** Data blocks *)

Definition held_block (ch : option H) (l : list (Held H HT)) : Prop :=
  match ch with Some h => exists b, l = [HBlock (h, b)] | None => l = [] end.

Lemma ReleaseBlock_spec ch l : held_block ch l -> triple ginv 0 l (ReleaseBlock bcache ch) (fun _ l' => l' = []).
Proof.
  intros Hh n rest st (tabs & (Hb & Ht) & Hr). unfold ReleaseBlock.
  assert (Hcl : exists b, held_blocks (l ++ rest) = from_option (fun h => [(h, b)]) [] ch ++ held_blocks rest /\
    held_tables (l ++ rest) = held_tables rest).
  { unfold held_blocks, held_tables. rewrite !omap_app. destruct ch as [h|]; cbn in Hh; [destruct Hh as [b ->]; by exists b|].
    rewrite Hh. by exists (new_Block []). }
  destruct Hcl as (b & E1 & E2). rewrite E1 in Hb. rewrite E2 in Ht.
  destruct (run_cleanup_spec bcache bcinv _ _ _ _ _ _ Hb) as (c' & -> & Hc'). eexists _, [], _. split; [done|]. split; [|done].
  exists tabs. split; [by split|]. intros i parts Hi. apply Hr. apply elem_of_app. by right.
Qed.

Section Table.
Context (ro : ReadOptions) (t : Table) (i : Z) (F : bytes) (parts : list Part) (h : option HT).
Context (Hopen : opened snappy opts t i F parts).

(** The iterator has a number for its table and the handle it came with. *)
Definition table_arg (x : TableArg) (l : list (Held H HT)) : Prop :=
  x = mkTableArg t h /\ l = Reg i parts :: match h with Some h => [HTable (h, t)] | None => [] end.

Definition data_pos (a : nat) (d : (Status + BlockIter) * option H) (l : list (Held H HT)) (p : option nat) : Prop :=
  exists part, parts !! a = Some part /\ block_pos (p_es part) d.1 p /\ held_block d.2 l.

Definition index_pos (s : (Status + BlockIter) * unit) (l : list (Held H HT)) (p : option nat) : Prop :=
  block_pos (map index_entry parts) s.1 p /\ l = [].

Lemma block_reader_spec a e l : map index_entry parts !! a = Some e -> table_arg (mkTableArg t h) l ->
  triple ginv 0 l (block_reader snappy bcache ro t e.2) (fun d l' => exists ld la, l' ≡ₚ ld ++ la /\ table_arg (mkTableArg t h) la /\ data_pos a d ld None).
Proof.
  intros He [_ Hl] n rest st (tabs & (Hb & Ht) & Hr). rewrite list_lookup_fmap in He.
  destruct (parts !! a) as [part|] eqn:Ea; [|done]. injection He as <-. cbn [snd index_entry]. unfold block_reader.
  assert (Hin : (i, parts) ∈ tabs) by (apply Hr; rewrite Hl; by left).
  destruct (BlockReader_spec snappy bcache bcinv opts t i F parts n tabs _ (tc_blocks st) ro part Hopen
    ltac:(by eapply list_elem_of_lookup_2) Hb Hin) as (it & b & ch & c' & -> & Hpos & Hc').
  set (ld := match ch with Some h => [HBlock (h, b)] | None => [] end : list (Held H HT)).
  exists (it, ch), (ld ++ l), (mkCaches c' (tc_tables st)). split; [done|]. split; [|exists ld, l; split; [done|]; split; [done|]].
  - exists tabs. split.
    + split; cbn [tc_blocks tc_tables]; unfold held_blocks, held_tables in *; rewrite <- app_assoc, omap_app.
      * by destruct ch.
      * by destruct ch.
    + intros j ps Hj. apply Hr. rewrite <- app_assoc in Hj. apply elem_of_app in Hj as [Hj|Hj]; [|done]. exfalso.
      unfold ld in Hj. destruct ch; [by apply list_elem_of_singleton in Hj|by apply elem_of_nil in Hj].
  - exists part. split; [done|]. split; [done|]. unfold ld. destruct ch; [by exists b|done].
Qed.

Lemma UnrefEntry_spec l : table_arg (mkTableArg t h) l -> triple ginv 0 l (UnrefEntry tcache (mkTableArg t h)) (fun _ l' => l' = []).
Proof.
  intros [_ ->] n rest st (tabs & (Hb & m & id & Ht & Hm) & Hr). unfold UnrefEntry. cbn [ta_handle].
  assert (Hr' : forall j ps, Reg j ps ∈ rest -> (j, ps) ∈ tabs) by (intros j ps Hj; apply Hr, elem_of_app; by right).
  destruct h as [h'|]; cbn [app held_blocks held_tables omap list_omap] in *.
  - destruct (release_law (tc_tables st) m _ id h' t (held_tables rest) Ht) as (ct & -> & Hct); [done|]. eexists _, [], _.
    split; [done|]. split; [|done]. exists tabs. split; [|done]. split; [done|]. by exists m, id.
  - eexists _, [], _. split; [done|]. split; [|done]. exists tabs. split; [|done]. split; [done|]. by exists m, id.
Qed.

Lemma table_handles : NoDup (map index_entry parts).*2.
Proof.
  pose proof (op_table _ _ _ _ _ _ Hopen) as Ht. pose proof (tf_offsets _ _ _ _ Ht) as Hnd. pose proof (tf_blocks _ _ _ _ Ht) as Hbl.
  apply NoDup_alt. intros a b x Ha Hb. rewrite !list_lookup_fmap in Ha. rewrite !list_lookup_fmap in Hb.
  destruct (parts !! a) as [pa|] eqn:Ea; [|done]. destruct (parts !! b) as [pb|] eqn:Eb; [|done].
  change (Some (handle_bytes (p_handle pa)) = Some x) in Ha. change (Some (handle_bytes (p_handle pb)) = Some x) in Hb.
  assert (Hok : forall p, p ∈ parts -> handle_ok (p_handle p)).
  { intros p Hp. rewrite Forall_forall in Hbl. by destruct (Hbl p Hp) as [(l & [Hok _] & _) _]. }
  assert (E : handle_bytes (p_handle pa) = handle_bytes (p_handle pb)) by congruence.
  pose proof (BlockHandle_decode (p_handle pa) new_BlockHandle [] (Hok pa ltac:(by eapply list_elem_of_lookup_2))) as Da.
  pose proof (BlockHandle_decode (p_handle pb) new_BlockHandle [] (Hok pb ltac:(by eapply list_elem_of_lookup_2))) as Db.
  rewrite E, Db in Da. injection Da as Eh. apply (NoDup_lookup _ a b (h_offset (p_handle pa)) Hnd); rewrite list_lookup_fmap.
  - by rewrite Ea.
  - rewrite Eb. cbn. by rewrite Eh.
Qed.

(** The state of an iterator of the table. *)
Definition table_pos : TwoLevelIterator ((Status + BlockIter) * unit) ((Status + BlockIter) * option H) TableArg ->
    list (Held H HT) -> option nat -> Prop :=
  tpos (map index_entry parts) (map p_es parts) index_pos data_pos table_arg (mkTableArg t h).

Lemma IndexIterator_spec : IteratorMSpec ginv small_target (IndexIterator opts) (Compare cmp) (map index_entry parts) 0 index_pos.
Proof.
  apply (PureIterator_spec ginv (AnyBlockIterator cmp) (fun _ : unit => mret ()) small_target (fun _ => True) (Compare cmp) (map index_entry parts)
    (block_pos (map index_entry parts)) (fun _ l => l = [])).
  - done.
  - apply block_pos_spec; [apply _|]. apply (table_index_sorted snappy bcache bcinv opts F). exact (op_table _ _ _ _ _ _ Hopen).
  - intros [] l ->. by apply (triple_ret ginv).
Qed.

Lemma TableIterator_spec fuel : (length parts <= fuel)%nat ->
  IteratorMSpec ginv small_target (TableIterator snappy bcache tcache opts ro (S fuel)) (Compare cmp) (parts_es parts) 0 table_pos.
Proof.
  intros Hfuel. pose proof (op_table _ _ _ _ _ _ Hopen) as Ht.
  replace 0%nat with (op_cost (map index_entry parts) 0 0 0) by (unfold op_cost, step_cost; lia).
  apply (TwoLevel_spec ginv); rewrite ?length_map; try done; [apply _|..].
  - apply IndexIterator_spec.
  - intros a es Ha. rewrite list_lookup_fmap in Ha. destruct (parts !! a) as [part|] eqn:Ea; [|done]. injection Ha as <-.
    assert (Hpi : part ∈ parts) by (by eapply list_elem_of_lookup_2).
    apply (IteratorMSpec_exists ginv small_target (DataIterator bcache opts) (Compare cmp) (p_es part) 0 (fun z => parts !! a = Some z)
      (fun z s l p => block_pos (p_es z) s.1 p /\ held_block s.2 l)).
    intros z Hz. assert (z = part) as -> by congruence. apply (PureIterator_spec ginv (AnyBlockIterator cmp) _ small_target (fun _ => True)); [done| |exact ReleaseBlock_spec].
    apply block_pos_spec; [apply _|]. by apply (part_sorted snappy opts F parts).
  - intros a e l He Hl. by apply (block_reader_spec a e l).
  - intros l Hl. by apply UnrefEntry_spec.
  - apply table_handles.
  - intros a es e Ha He s Hs. rewrite list_lookup_fmap in Ha. rewrite list_lookup_fmap in Hs.
    destruct (parts !! a) as [part|] eqn:Ea; [|done]. injection Ha as <-. injection Hs as <-. by apply (part_before_sep snappy opts F parts a).
  - intros a b es e Hab Hb He s Hs. rewrite list_lookup_fmap in Hb. rewrite list_lookup_fmap in Hs.
    destruct (parts !! b) as [q|] eqn:Eb; [|done]. destruct (parts !! a) as [p|] eqn:Ea; [|done]. injection Hb as <-. injection Hs as <-.
    by apply (part_behind_sep snappy opts F parts a b p q).
Qed.

Lemma Table_NewIterator_spec : exists s, Table_NewIterator (C := C) (CT := CT) opts t h = Some s /\
  table_pos s (Reg i parts :: match h with Some h => [HTable (h, t)] | None => [] end) None.
Proof.
  pose proof IndexIterator_spec. unfold Table_NewIterator. destruct (block_of_iterator _ _ (op_index _ _ _ _ _ _ Hopen)) as (it & -> & Hp). cbn [mbind option_bind].
  by apply (new_TwoLevel_spec ginv (IndexIterator opts) small_target (Compare cmp) _ (map p_es parts) 0 index_pos data_pos table_arg _ (it, ()) [] _).
Qed.

End Table.

(** What the table cache hands out for a file with these parts. *)
Definition any_table_pos (F : bytes) (parts : list Part) (s : AnyTableState) (l : list (Held H HT)) (p : option nat) : Prop :=
  exists z : Table * Z * HT, opened snappy opts z.1.1 z.1.2 F parts /\ mpos_inr (table_pos z.1.1 z.1.2 parts (Some z.2)) s l p.

Lemma AnyTableIterator_spec ro F parts fuel : (length parts <= fuel)%nat ->
  IteratorMSpec ginv small_target (AnyTableIterator snappy bcache tcache opts ro (S fuel)) (Compare cmp) (parts_es parts) 0 (any_table_pos F parts).
Proof.
  intros Hfuel. apply (IteratorMSpec_exists ginv). intros [[t i] h] Ho. cbn [fst snd] in Ho |- *.
  apply (SumIteratorM_inr ginv). by apply (TableIterator_spec ro t i F parts (Some h) Ho).
Qed.

Lemma TableCache_NewIterator_spec num F parts : files_ok snappy dbname opts NewRandomAccessFile files -> files !! num = Some (F, parts) ->
  triple ginv 1 [] (TableCache_NewIterator snappy bcache tcache dbname opts paranoid_checks NewRandomAccessFile num (zlen F))
    (fun s l => any_table_pos F parts s l None).
Proof.
  intros Hf Hnum n rest st (tabs & Hst & Hr). unfold TableCache_NewIterator, find_table.
  destruct (FindTable_spec snappy bcache tcache dbname opts paranoid_checks NewRandomAccessFile bcinv tcinv files num F parts tabs n _ _ st Hf Hnum Hst)
    as (h & t & i & tabs' & st' & E & Ho & Hi & Hsub & Hst').
  destruct (Table_NewIterator_spec t i F parts (Some h) Ho) as (s & Es & Hs).
  unfold mbind, M_bind. rewrite E. cbn [fst snd ok Status_OK negb lift]. unfold table_value.
  destruct Hst' as (Hb & m & id & Ht & Hm). rewrite (value_law (tc_tables st') m _ id h t Ht) by (by left). rewrite Es. cbn [lift].
  eexists _, _, st'. split; [done|]. split; [|exists (t, i, h); split; [exact Ho|exact Hs]].
  exists tabs'. split; [split; [done|by exists m, id]|]. intros j ps Hj. cbn [app] in Hj. apply elem_of_cons in Hj as [[= -> ->]|Hj]; [done|].
  apply elem_of_cons in Hj as [Hj|Hj]; [done|]. by apply Hsub, Hr.
Qed.

End Spec.

(** ** Properties *)

(** C23. Reading a table through [TableCache::NewIterator]: opening the iterator,
    seeking to any key and stepping to the end yields exactly the entries of
    the table from the first one at or behind the key, in order, for any
    contents of the block cache and the table cache; once the iterator is
    deleted every handle it took from them is released. *)
Theorem table_scan snappy {C H} (bcache : Cache C H Block) {CT HT} (tcache : Cache CT HT Table) bcinv tcinv
    dbname opts paranoid NewRandomAccessFile files ro num F parts target fuel n held st :
  CacheLaws bcache bcinv -> CacheLaws tcache tcinv -> ComparatorLaws (o_comparator opts) ->
  files_ok snappy dbname opts NewRandomAccessFile files -> files !! num = Some (F, parts) ->
  small_target target -> (length (parts_es parts) <= fuel)%nat -> ginv snappy opts bcinv tcinv files (S n) held st ->
  exists st', scan (AnyTableIterator snappy bcache tcache opts ro (S (length parts)))
      (TableCache_NewIterator snappy bcache tcache dbname opts paranoid NewRandomAccessFile num (zlen F)) target (S fuel) st
    = Some (from_pos (parts_es parts) (seek_pos (Compare (o_comparator opts)) (parts_es parts) target), st') /\
    ginv snappy opts bcinv tcinv files n held st'.
Proof.
  intros Hb Ht Hc Hf Hnum Htgt Hfuel Hst.
  pose proof (AnyTableIterator_spec snappy bcache tcache opts bcinv tcinv files ro F parts (length parts) (le_n _)) as Hspec.
  pose proof (TableCache_NewIterator_spec snappy bcache tcache dbname opts paranoid NewRandomAccessFile bcinv tcinv files num F parts Hf Hnum) as Hnew.
  destruct (scan_entries _ (ginv snappy opts bcinv tcinv files) 1 _ target (S fuel) Htgt ltac:(lia)
    (triple_mono _ _ _ _ _ _ _ Hnew (le_n _) (fun a l' Ha => ex_intro _ None Ha)) n held st) as (r & l & st' & E & Hst' & -> & ->).
  - replace (1 + (S fuel + 2) * 0 + n)%nat with (S n) by lia. done.
  - by exists st'.
Qed.

Lemma table_scan_witness : exists (parts : list Part) st',
  scan (AnyTableIterator NoSnappy NoCache NoCache sample_options (mkReadOptions true true) (S (length parts)))
    (TableCache_NewIterator NoSnappy NoCache NoCache (lit "db") sample_options true sample_open 8 (zlen (sample_table sample_new)))
    (seek_key (lit "b") 9) 10 (mkCaches (Some ([], 0)) ([], 0)) =
  Some (from_pos (map kv (sample_content sample_new))
    (seek_pos (InternalKey_Compare BytewiseComparator) (map kv (sample_content sample_new)) (seek_key (lit "b") 9)), st').
Proof.
  destruct (sample_table_file sample_new ltac:(by left)) as (parts8 & H8 & E8).
  destruct (sample_table_file sample_old ltac:(by right)) as (parts3 & H3 & E3).
  pose proof (sample_files_ok _ _ parts8 parts3 eq_refl eq_refl H8 H3) as Hf.
  destruct (table_scan NoSnappy NoCache NoCache no_cache_inv no_cache_inv (lit "db") sample_options true sample_open _
    (mkReadOptions true true) 8 (sample_table sample_new) parts8 (seek_key (lit "b") 9) 9 0 [] (mkCaches (Some ([], 0)) ([], 0))
    _ _ _ Hf (lookup_insert_eq _ _ _)) as (st' & E & _).
  - by vm_compute.
  - rewrite E8. vm_compute. lia.
  - exists []. split; [by apply (fresh_caches _ _ _ 1)|]. intros i ps Hi. by apply elem_of_nil in Hi.
  - exists parts8, st'. rewrite E8 in E. exact E.
Defined.
