(* ===== verification/DBIter.v ===== *)
(** * Database iterators: db/db_iter.cpp

    [DBIter] turns an iterator over internal keys - every version of every
    key - into one over the user keys a snapshot sees: the newest entry of a
    user key at or below the snapshot's sequence number, unless it is a
    deletion. Going forward the internal iterator stands at the entry that is
    shown; going backward it stands in front of all entries of the key shown,
    which is kept in [saved_key_] and [saved_value_]. *)

From S2P Require Import Prelude Coding Status Comparator Dbformat Random MemTable Iterator World Merger.

Definition kReadBytesPeriod : Z := 1048576.

(** The capacities of the strings are not modelled: [ClearSavedValue] is the
    empty string. *)
Record DBIter (S : Type) := mkDBIter {
  d_iter : S;
  d_sequence : Z;
  d_status : Status;
  d_saved_key : bytes;
  d_saved_value : bytes;
  d_direction : Direction;
  d_valid : bool;
  d_rnd : Z;
  d_bytes_counter : Z        (** unsigned *)
}.
Arguments mkDBIter {S}.
Arguments d_iter {S}.
Arguments d_sequence {S}.
Arguments d_status {S}.
Arguments d_saved_key {S}.
Arguments d_saved_value {S}.
Arguments d_direction {S}.
Arguments d_valid {S}.
Arguments d_rnd {S}.
Arguments d_bytes_counter {S}.

Section DBIter.
Context {G S : Type} (user_comparator : Comparator) (it : IteratorM G S) (RecordReadSample : bytes -> M G unit).

Abbreviation D := (DBIter S).

Definition d_set_iter (s : S) (d : D) : D :=
  mkDBIter s (d_sequence d) (d_status d) (d_saved_key d) (d_saved_value d) (d_direction d) (d_valid d) (d_rnd d) (d_bytes_counter d).
Definition d_set_status (st : Status) (d : D) : D :=
  mkDBIter (d_iter d) (d_sequence d) st (d_saved_key d) (d_saved_value d) (d_direction d) (d_valid d) (d_rnd d) (d_bytes_counter d).
Definition SaveKey (k : bytes) (d : D) : D :=
  mkDBIter (d_iter d) (d_sequence d) (d_status d) k (d_saved_value d) (d_direction d) (d_valid d) (d_rnd d) (d_bytes_counter d).
Definition d_set_value (v : bytes) (d : D) : D :=
  mkDBIter (d_iter d) (d_sequence d) (d_status d) (d_saved_key d) v (d_direction d) (d_valid d) (d_rnd d) (d_bytes_counter d).
Definition d_set_direction (dir : Direction) (d : D) : D :=
  mkDBIter (d_iter d) (d_sequence d) (d_status d) (d_saved_key d) (d_saved_value d) dir (d_valid d) (d_rnd d) (d_bytes_counter d).
Definition d_set_valid (v : bool) (d : D) : D :=
  mkDBIter (d_iter d) (d_sequence d) (d_status d) (d_saved_key d) (d_saved_value d) (d_direction d) v (d_rnd d) (d_bytes_counter d).
Definition d_set_counter (rnd counter : Z) (d : D) : D :=
  mkDBIter (d_iter d) (d_sequence d) (d_status d) (d_saved_key d) (d_saved_value d) (d_direction d) (d_valid d) rnd counter.

Definition ClearSavedValue (d : D) : D := d_set_value [] d.

Definition RandomPeriod (rnd : Z) : Z * Z := Random_Uniform (2 * kReadBytesPeriod) rnd.

Definition NewDBIterator (internal_iter : S) (sequence : Z) (seed : Z) : D :=
  let r := RandomPeriod (new_Random seed) in
  mkDBIter internal_iter sequence Status_OK [] [] kForward false r.2 r.1.

(** [while (bytes_counter_ < 0)] *)
Fixpoint sample_loop (fuel : nat) (k : bytes) (d : D) : M G D :=
  if d_bytes_counter d <? 0 then
    match fuel with
    | O => lift None
    | Datatypes.S fuel =>
        let r := RandomPeriod (d_rnd d) in
        _ ← RecordReadSample k;
        sample_loop fuel k (d_set_counter r.2 (u32 (d_bytes_counter d + r.1)) d)
    end
  else mret d.

Context (fuel : nat).

Definition ParseKey (d : D) : M G (option ParsedInternalKey * D) :=
  k ← lift (im_key it (d_iter d));
  v ← lift (im_value it (d_iter d));
  d ← sample_loop fuel k (d_set_counter (d_rnd d) (u32 (d_bytes_counter d - u32 (zlen k + zlen v))) d);
  match ParseInternalKey k with
  | None => mret (None, d_set_status (Corruption (lit "corrupted internal key in DBIter")) d)
  | Some ikey => mret (Some ikey, d)
  end.

(** The end of a round of the loops: [iter_] moves on and is tested. *)
Definition next_round (loop : bool -> D -> M G D) (skipping : bool) (d : D) : M G D :=
  s ← im_Next it (d_iter d);
  if im_Valid it s then loop skipping (d_set_iter s d) else mret (d_set_valid false (SaveKey [] (d_set_iter s d))).

Definition prev_round (loop : ValueType -> D -> M G (ValueType * D)) (value_type : ValueType) (d : D) : M G (ValueType * D) :=
  s ← im_Prev it (d_iter d);
  if im_Valid it s then loop value_type (d_set_iter s d) else mret (value_type, d_set_iter s d).

Fixpoint FindNext_loop (n : nat) (skipping : bool) (d : D) : M G D :=
  match n with
  | O => lift None
  | Datatypes.S n =>
      let continue := next_round (FindNext_loop n) in
      kd ← ParseKey d;
      match kd.1 with
      | None => continue skipping kd.2
      | Some ikey =>
          if negb (sequence ikey <=? d_sequence kd.2) then continue skipping kd.2
          else
            match type ikey with
            | kTypeDeletion => continue true (SaveKey (user_key ikey) kd.2)
            | kTypeValue =>
                if skipping && negb (is_lt (CompOpp (Compare user_comparator (user_key ikey) (d_saved_key kd.2)))) then continue skipping kd.2
                else mret (d_set_valid true (SaveKey [] kd.2))
            end
      end
  end.

(** [skip] is [&saved_key_] in every call. *)
Definition FindNextUserEntry (skipping : bool) (d : D) : M G D :=
  if im_Valid it (d_iter d) && bool_decide (d_direction d = kForward) then FindNext_loop fuel skipping d else lift None.

Definition DBIter_Next (d : D) : M G D :=
  if negb (d_valid d) then lift None
  else
    match d_direction d with
    | kReverse =>
        s ← (if negb (im_Valid it (d_iter d)) then im_SeekToFirst it (d_iter d) else im_Next it (d_iter d) : M G S);
        let d := d_set_iter s (d_set_direction kForward d) in
        if negb (im_Valid it s) then mret (SaveKey [] (d_set_valid false d)) else FindNextUserEntry true d
    | kForward =>
        k ← lift (im_key it (d_iter d));
        FindNextUserEntry true (SaveKey (ExtractUserKey k) d)
    end.

(** The result tells whether the loop ended with [break]. *)
Fixpoint PrevKey_loop (n : nat) (d : D) : M G (bool * D) :=
  match n with
  | O => lift None
  | Datatypes.S n =>
      s ← im_Prev it (d_iter d);
      let d := d_set_iter s d in
      if negb (im_Valid it s) then mret (false, ClearSavedValue (SaveKey [] (d_set_valid false d)))
      else
        k ← lift (im_key it s);
        if is_lt (Compare user_comparator (ExtractUserKey k) (d_saved_key d)) then mret (true, d) else PrevKey_loop n d
  end.

Fixpoint FindPrev_loop (n : nat) (value_type : ValueType) (d : D) : M G (ValueType * D) :=
  match n with
  | O => lift None
  | Datatypes.S n =>
      let continue := prev_round (FindPrev_loop n) in
      kd ← ParseKey d;
      match kd.1 with
      | None => continue value_type kd.2
      | Some ikey =>
          if negb (sequence ikey <=? d_sequence kd.2) then continue value_type kd.2
          else if negb (bool_decide (value_type = kTypeDeletion)) && is_lt (Compare user_comparator (user_key ikey) (d_saved_key kd.2))
          then mret (value_type, kd.2)
          else
            match type ikey with
            | kTypeDeletion => continue kTypeDeletion (ClearSavedValue (SaveKey [] kd.2))
            | kTypeValue =>
                raw_value ← lift (im_value it (d_iter kd.2));
                k ← lift (im_key it (d_iter kd.2));
                continue kTypeValue (d_set_value raw_value (SaveKey (ExtractUserKey k) kd.2))
            end
      end
  end.

Definition FindPrevUserEntry (d : D) : M G D :=
  if negb (bool_decide (d_direction d = kReverse)) then lift None
  else
    vd ← (if im_Valid it (d_iter d) then FindPrev_loop fuel kTypeDeletion d else mret (kTypeDeletion, d) : M G (ValueType * D));
    match vd.1 with
    | kTypeDeletion => mret (d_set_direction kForward (ClearSavedValue (SaveKey [] (d_set_valid false vd.2))))
    | kTypeValue => mret (d_set_valid true vd.2)
    end.

Definition DBIter_Prev (d : D) : M G D :=
  if negb (d_valid d) then lift None
  else
    match d_direction d with
    | kForward =>
        k ← lift (im_key it (d_iter d));
        bd ← PrevKey_loop fuel (SaveKey (ExtractUserKey k) d);
        match bd.1 with
        | true => FindPrevUserEntry (d_set_direction kReverse bd.2)
        | false => mret bd.2
        end
    | kReverse => FindPrevUserEntry d
    end.

Definition DBIter_Seek (target : bytes) (d : D) : M G D :=
  let d := SaveKey (InternalKey target (d_sequence d) kValueTypeForSeek) (ClearSavedValue (d_set_direction kForward d)) in
  s ← im_Seek it (d_saved_key d) (d_iter d);
  if im_Valid it s then FindNextUserEntry false (d_set_iter s d) else mret (d_set_valid false (d_set_iter s d)).

Definition DBIter_SeekToFirst (d : D) : M G D :=
  let d := ClearSavedValue (d_set_direction kForward d) in
  s ← im_SeekToFirst it (d_iter d);
  if im_Valid it s then FindNextUserEntry false (d_set_iter s d) else mret (d_set_valid false (d_set_iter s d)).

Definition DBIter_SeekToLast (d : D) : M G D :=
  let d := ClearSavedValue (d_set_direction kReverse d) in
  s ← im_SeekToLast it (d_iter d);
  FindPrevUserEntry (d_set_iter s d).

Definition DBIterator : IteratorM G D := {|
  im_Valid := d_valid;
  im_SeekToFirst := DBIter_SeekToFirst;
  im_SeekToLast := DBIter_SeekToLast;
  im_Seek := DBIter_Seek;
  im_Next := DBIter_Next;
  im_Prev := DBIter_Prev;
  im_key := fun d => if d_valid d then match d_direction d with kForward => ExtractUserKey <$> im_key it (d_iter d) | kReverse => Some (d_saved_key d) end else None;
  im_value := fun d => if d_valid d then match d_direction d with kForward => im_value it (d_iter d) | kReverse => Some (d_saved_value d) end else None;
  im_status := fun d => if ok (d_status d) then im_status it (d_iter d) else d_status d;
  im_delete := fun d => im_delete it (d_iter d)
|}.

End DBIter.

(** [bytes_counter_] is unsigned: the test for a negative value never holds and
    no read is ever sampled. *)
Lemma reads_never_sampled {G S} (RecordReadSample : bytes -> M G unit) fuel k (d : DBIter S) : 0 <= d_bytes_counter d ->
  sample_loop RecordReadSample fuel k d = mret d.
Proof. intros Hc. destruct fuel; cbn [sample_loop]; by rewrite (proj2 (Z.ltb_ge _ 0) Hc). Qed.

(** ** What a snapshot shows *)

Section Live.
Context (ucmp : Comparator) (s : Z).

(** An entry the snapshot sees that has the user key [u]. *)
Definition shadows (u : bytes) (f : Entry) : bool :=
  (e_seq f <=? s) && match Compare ucmp (e_key f) u with Eq => true | _ => false end.

(** Entry [i] is a value the snapshot sees, and the first one of its key. *)
Definition is_live (E : list Entry) (i : nat) : bool :=
  match E !! i with
  | Some e => (e_seq e <=? s) && bool_decide (e_type e = kTypeValue) && negb (existsb (shadows (e_key e)) (take i E))
  | None => false
  end.

Definition live_positions (E : list Entry) : list nat := filter (fun i => is_live E i = true) (seq 0 (length E)).

Definition uv (e : Entry) : bytes * bytes := (e_key e, e_value e).

(** The user keys and values shown, in order. *)
Definition shown (E : list Entry) : entries := omap (fun i => uv <$> E !! i) (live_positions E).

Definition live (E : list Entry) (i : nat) : Prop := exists e, E !! i = Some e /\ e_seq e <= s /\ e_type e = kTypeValue /\
  forall j f, (j < i)%nat -> E !! j = Some f -> e_seq f <= s -> Compare ucmp (e_key f) (e_key e) <> Eq.

Lemma is_live_spec E i : is_live E i = true <-> live E i.
Proof.
  unfold is_live, live. destruct (E !! i) as [e|] eqn:Ee; [|split; [done|by intros (e & ? & _)]].
  rewrite !andb_true_iff, Z.leb_le, bool_decide_eq_true, negb_true_iff. split.
  - intros [[Hs Ht] Hn]. exists e. split; [done|]. split; [done|]. split; [done|]. intros j f Hj Hf Hfs E'.
    assert (existsb (shadows (e_key e)) (take i E) = true); [|congruence]. apply existsb_exists. exists f. split.
    + apply list_elem_of_In, list_elem_of_lookup. exists j. by rewrite lookup_take_lt.
    + unfold shadows. by rewrite (proj2 (Z.leb_le _ _) Hfs), E'.
  - intros (e' & [= <-] & Hs & Ht & Hn). split; [done|]. destruct (existsb _ _) eqn:Ex; [|done]. exfalso.
    apply existsb_exists in Ex as (f & Hin & Hsh). apply list_elem_of_In, list_elem_of_lookup in Hin as [j Hj].
    apply lookup_take_Some in Hj as [Hj Hlt]. unfold shadows in Hsh. apply andb_true_iff in Hsh as [Hfs%Z.leb_le Hc].
    destruct (Compare ucmp (e_key f) (e_key e)) eqn:Ec; [|done..]. by apply (Hn j f).
Qed.

Lemma live_lt E i : live E i -> (i < length E)%nat.
Proof. intros (e & He & _). by eapply lookup_lt_Some. Qed.

Lemma elem_live_positions E i : i ∈ live_positions E <-> live E i.
Proof.
  unfold live_positions. rewrite list_elem_of_filter, elem_of_seq, is_live_spec. split; [by intros [H _]|].
  intros H. split; [done|]. apply live_lt in H. lia.
Qed.

Lemma live_positions_sorted E : StronglySorted lt (live_positions E).
Proof.
  unfold live_positions. generalize 0%nat as a. generalize (length E) as n. induction n as [|n IH]; intros a; cbn [seq]; [constructor|].
  rewrite filter_cons. destruct (decide _); [|apply IH]. constructor; [apply IH|]. apply Forall_forall. intros x Hx.
  apply list_elem_of_filter in Hx as [_ Hx]. apply elem_of_seq in Hx. lia.
Qed.

Lemma shown_lookup E n : shown E !! n = (live_positions E !! n) ≫= fun i => uv <$> E !! i.
Proof.
  unfold shown. assert (H : forall i, i ∈ live_positions E -> is_Some (E !! i)).
  { intros i Hi. apply elem_live_positions in Hi as (e & He & _). by exists e. }
  revert n. induction (live_positions E) as [|i l IH]; intros n; [by destruct n|]. cbn. destruct (H i) as [e He]; [by left|]. rewrite He. cbn.
  destruct n as [|n]; cbn; [by rewrite He|]. apply IH. intros j Hj. apply H. by right.
Qed.

Lemma shown_length E : length (shown E) = length (live_positions E).
Proof.
  apply Nat.le_antisymm; apply Nat.nlt_ge; intros Hlt.
  - apply lookup_lt_is_Some_2 in Hlt as [x Hx]. rewrite shown_lookup in Hx. rewrite (lookup_ge_None_2 (live_positions E)) in Hx by done. done.
  - apply lookup_lt_is_Some_2 in Hlt as Hi. destruct Hi as [i Hi]. pose proof (list_elem_of_lookup_2 _ _ _ Hi) as Hl.
    apply elem_live_positions in Hl as (e & He & _). assert (H : shown E !! length (shown E) = Some (uv e)); [|apply lookup_lt_Some in H; lia].
    by rewrite shown_lookup, Hi; cbn; rewrite He.
Qed.

(** ** Positions in [shown] by positions in the entries *)

Section Positions.
Context (E : list Entry).

Definition first_live (b : nat) (q : option nat) : Prop :=
  match q with
  | Some i => (b <= i)%nat /\ live E i /\ forall m, (b <= m < i)%nat -> ~ live E m
  | None => forall m, (b <= m)%nat -> ~ live E m
  end.

Definition last_live (b : nat) (q : option nat) : Prop :=
  match q with
  | Some i => (i < b)%nat /\ live E i /\ forall m, (i < m < b)%nat -> ~ live E m
  | None => forall m, (m < b)%nat -> ~ live E m
  end.

Definition pos_of (p q : option nat) : Prop :=
  match p with Some n => exists i, q = Some i /\ live_positions E !! n = Some i | None => q = None end.

Lemma live_order a b x y : live_positions E !! a = Some x -> live_positions E !! b = Some y -> (a < b)%nat <-> (x < y)%nat.
Proof.
  assert (H : forall a b x y, live_positions E !! a = Some x -> live_positions E !! b = Some y -> (a < b)%nat -> (x < y)%nat).
  { clear. pose proof (live_positions_sorted E) as Hs. induction Hs as [|z l Hs IH Hall]; intros a b x y Ha Hb Hab; [done|].
    destruct a as [|a], b as [|b]; try lia; cbn in Ha, Hb.
    - injection Ha as ->. rewrite Forall_forall in Hall. apply Hall. by eapply list_elem_of_lookup_2.
    - by apply (IH a b); [| |lia]. }
  intros Ha Hb. split; [by apply H|]. intros Hxy. destruct (Nat.lt_trichotomy a b) as [?|[->|Hba]]; [done| |].
  - assert (x = y) by congruence. lia.
  - pose proof (H b a y x Hb Ha Hba). lia.
Qed.

Lemma live_index i : live E i -> exists n, live_positions E !! n = Some i.
Proof. intros H. apply list_elem_of_lookup. by apply elem_live_positions. Qed.

Lemma index_live n i : live_positions E !! n = Some i -> live E i.
Proof. intros H. apply elem_live_positions. by eapply list_elem_of_lookup_2. Qed.

(** The position whose predecessors are the live entries before [b]. *)
Lemma pos_from b q c : (forall n i, live_positions E !! n = Some i -> (n < c)%nat <-> (i < b)%nat) -> first_live b q ->
  pos_of (if (c <? length (shown E))%nat then Some c else None) q.
Proof.
  intros Hc Hq. rewrite shown_length. destruct (Nat.ltb_spec c (length (live_positions E))) as [Hlt|Hge].
  - destruct (lookup_lt_is_Some_2 _ _ Hlt) as [i Hi]. pose proof (index_live _ _ Hi) as Hl. exists i. split; [|done].
    assert (Hib : (b <= i)%nat) by (apply Nat.nlt_ge; rewrite <- (Hc c i Hi); lia).
    destruct q as [k|]; [|by destruct (Hq i Hib)]. destruct Hq as (Hbk & Hk & Hmin). f_equal. destruct (live_index k Hk) as [m Hm].
    destruct (Nat.lt_trichotomy i k) as [H|[H|H]]; [by destruct (Hmin i ltac:(lia))|done|].
    rewrite <- (live_order m c k i Hm Hi), (Hc m k Hm) in H. lia.
  - cbn. destruct q as [k|]; [|done]. destruct Hq as (Hbk & Hk & _). destruct (live_index k Hk) as [m Hm].
    assert (~ (m < c)%nat) by (rewrite (Hc m k Hm); lia). apply lookup_lt_Some in Hm. lia.
Qed.

Lemma pos_first q : first_live 0 q -> pos_of (first_pos (shown E)) q.
Proof. intros Hq. rewrite first_pos_0. apply (pos_from 0); [|done]. intros n i Hi. lia. Qed.

Lemma pos_next n i q : live_positions E !! n = Some i -> first_live (S i) q -> pos_of (next_pos (shown E) n) q.
Proof.
  intros Hn Hq. unfold next_pos. apply (pos_from (S i)); [|done]. intros m j Hj. pose proof (live_order n m i j Hn Hj). lia.
Qed.

Lemma pos_seek t b q : (forall i e, E !! i = Some e -> live E i -> Compare ucmp (e_key e) t = Lt <-> (i < b)%nat) -> first_live b q ->
  pos_of (seek_pos (Compare ucmp) (shown E) t) q.
Proof.
  intros Hb Hq. pose proof (seek_pos_inv (Compare ucmp) (shown E) t) as Hs.
  assert (Hat : forall n x, shown E !! n = Some x -> exists i e, live_positions E !! n = Some i /\ E !! i = Some e /\ x = uv e /\ live E i).
  { intros n x Hx. rewrite shown_lookup in Hx. destruct (live_positions E !! n) as [i|] eqn:Ei; [|done]. cbn in Hx.
    destruct (E !! i) as [e|] eqn:Ee; [|done]. injection Hx as <-. exists i, e. split; [done|]. split; [done|]. split; [done|]. by apply index_live in Ei. }
  assert (Hin : forall n i, live_positions E !! n = Some i -> exists e, E !! i = Some e /\ live E i /\ shown E !! n = Some (uv e)).
  { intros n i Hi. pose proof (index_live n i Hi) as Hl. destruct Hl as (e & He & Hl). exists e. split; [done|]. split; [by exists e|].
    by rewrite shown_lookup, Hi; cbn; rewrite He. }
  destruct (seek_pos (Compare ucmp) (shown E) t) as [c|].
  - destruct Hs as (x & Hx & Hge & Hlt). apply lookup_lt_Some in Hx as Hcl. destruct (Hat c x Hx) as (ic & ec & Hic & Hec & -> & Hlc).
    replace (Some c) with (if (c <? length (shown E))%nat then Some c else None) by (by apply Nat.ltb_lt in Hcl as ->).
    apply (pos_from b); [|done]. intros n i Hi. destruct (Hin n i Hi) as (e & He & Hl & Hsh). rewrite <- (Hb i e He Hl). split.
    + intros Hn. by apply (Hlt n (uv e)).
    + intros Hn. apply Nat.nle_gt. intros Hcn. apply Hge. rewrite (Hb ic ec Hec Hlc). apply (Hb i e He Hl) in Hn.
      destruct (decide (c = n)) as [->|]; [congruence|]. pose proof (live_order c n ic i Hic Hi). lia.
  - destruct q as [k|]; [|done]. destruct Hq as (Hbk & Hk & _). destruct (live_index k Hk) as [n Hn].
    destruct (Hin n k Hn) as (e & He & Hl & Hsh). apply Hs in Hsh. rewrite (Hb k e He Hl) in Hsh. lia.
Qed.

(** Backward: the position whose successors are the live entries from [b] on. *)
Lemma pos_to b q c : (c <= length (shown E))%nat -> (forall n i, live_positions E !! n = Some i -> (n < c)%nat <-> (i < b)%nat) -> last_live b q ->
  pos_of (prev_pos c) q.
Proof.
  rewrite shown_length. intros Hcl Hc Hq. destruct c as [|c]; cbn.
  - destruct q as [k|]; [|done]. destruct Hq as (Hkb & Hk & _). destruct (live_index k Hk) as [n Hn]. apply (Hc n k Hn) in Hkb. lia.
  - destruct (lookup_lt_is_Some_2 (live_positions E) c ltac:(lia)) as [i Hi]. exists i. split; [|done]. pose proof (index_live _ _ Hi) as Hl.
    assert (Hib : (i < b)%nat) by (apply (Hc c i Hi); lia). destruct q as [k|]; [|by destruct (Hq i Hib)].
    destruct Hq as (Hkb & Hk & Hmax). f_equal. destruct (live_index k Hk) as [m Hm].
    destruct (Nat.lt_trichotomy k i) as [H|[H|H]]; [by destruct (Hmax i ltac:(lia))|done|].
    pose proof (live_order c m i k Hi Hm). apply (Hc m k Hm) in Hkb. lia.
Qed.

Lemma pos_last q : last_live (length E) q -> pos_of (last_pos (shown E)) q.
Proof.
  intros Hq. rewrite last_pos_prev. apply (pos_to (length E)); [done| |done]. intros n i Hi. pose proof (live_lt _ _ (index_live _ _ Hi)).
  apply lookup_lt_Some in Hi. rewrite shown_length. lia.
Qed.

Lemma pos_prev n i q : live_positions E !! n = Some i -> last_live i q -> pos_of (prev_pos n) q.
Proof.
  intros Hn Hq. apply (pos_to i); [|intros m j Hj; by apply live_order|done]. rewrite shown_length. apply lookup_lt_Some in Hn. lia.
Qed.

End Positions.

End Live.

(** ** A cursor in what the snapshot shows *)

Section Spec.
Context {G R : Type} (ginv : nat -> list R -> G -> Prop) `{!World ginv}.
Context {S : Type} (ucmp : Comparator) `{!TotalCmp (Compare ucmp)} (it : IteratorM G S) (RecordReadSample : bytes -> M G unit).
Context (E : list Entry) (k : nat) (ipos : S -> list R -> option nat -> Prop).
Context `{!IteratorMSpec ginv small_target it (InternalKey_Compare ucmp) (map kv E) k ipos}.
Context (Hsorted : sorted_keys (InternalKey_Compare ucmp) (map kv E)) (Hseq : forall e, e ∈ E -> valid_seq (e_seq e)).
Context (s : Z) (Hs : valid_seq s) (fuel : nat) (Hfuel : (length E < fuel)%nat).

Abbreviation D := (DBIter S).
Abbreviation live := (live ucmp s E).

Definition d_ok (d : D) : Prop := d_sequence d = s /\ d_status d = Status_OK /\ 0 <= d_bytes_counter d.

Lemma user_order i j e f : E !! i = Some e -> E !! j = Some f -> (i <= j)%nat -> Compare ucmp (e_key e) (e_key f) <> Gt.
Proof.
  intros He Hf Hij. destruct (decide (i = j)) as [->|]; [assert (e = f) as -> by congruence; by rewrite (cmp_refl (Compare ucmp))|].
  apply (ikey_lt_seq ucmp e f); [apply Hseq; by eapply list_elem_of_lookup_2..|].
  apply (sorted_keys_lookup _ _ i j (kv e) (kv f) Hsorted); [by rewrite list_lookup_fmap, ?He, ?Hf..|lia].
Qed.

(** An entry between two of the same user key has it as well. *)
Lemma same_user_between i j m e f g : E !! i = Some e -> E !! j = Some f -> E !! m = Some g -> (i <= j <= m)%nat ->
  Compare ucmp (e_key e) (e_key g) = Eq -> Compare ucmp (e_key e) (e_key f) = Eq /\ Compare ucmp (e_key f) (e_key g) = Eq.
Proof.
  intros He Hf Hg Hij Heq. pose proof (user_order i j e f He Hf ltac:(lia)) as H1. pose proof (user_order j m f g Hf Hg ltac:(lia)) as H2.
  assert (Hfe : Compare ucmp (e_key f) (e_key e) <> Gt).
  { rewrite (cmp_eq_r (Compare ucmp) (e_key e) (e_key g)) by done. done. }
  assert (Heq' : Compare ucmp (e_key e) (e_key f) = Eq).
  { apply (cmp_not_gt_le (Compare ucmp)) in Hfe. by destruct (Compare ucmp (e_key e) (e_key f)). }
  split; [done|]. rewrite <- Heq. symmetry. by apply (cmp_eq_l (Compare ucmp)).
Qed.

Lemma ParseKey_spec d L i e : d_ok d -> ipos (d_iter d) L (Some i) -> E !! i = Some e ->
  triple ginv 0 L (ParseKey it RecordReadSample fuel d) (fun r l' => l' = L /\ exists c, 0 <= c /\
    r = (Some (mkParsed (e_key e) (e_seq e) (e_type e)), d_set_counter (d_rnd d) c d)).
Proof.
  intros (Hsq & Hst & Hc) Hp He. assert (He' : map kv E !! i = Some (kv e)) by (by rewrite list_lookup_fmap, He). unfold ParseKey.
  apply (triple_seq ginv _ 0 0 _ _ _ (fun a l' => a = e_ikey e /\ l' = L)); [|intros a l' [-> ->]|lia].
  { eapply (triple_lift ginv); [by apply (ms_key _ _ _ (kv e) Hp)|done]. }
  apply (triple_seq ginv _ 0 0 _ _ _ (fun a l' => a = e_value e /\ l' = L)); [|intros a l' [-> ->]|lia].
  { eapply (triple_lift ginv); [by apply (ms_value _ _ _ (kv e) Hp)|done]. }
  set (c := u32 (d_bytes_counter d - u32 (zlen (e_ikey e) + zlen (e_value e)))).
  assert (H0 : 0 <= c) by (apply Z.mod_pos_bound; lia).
  assert (Hl : sample_loop RecordReadSample fuel (e_ikey e) (d_set_counter (d_rnd d) c d) = mret (d_set_counter (d_rnd d) c d)).
  { by apply reads_never_sampled. }
  rewrite Hl. apply (triple_seq ginv _ 0 0 _ _ _ (fun a l' => a = d_set_counter (d_rnd d) c d /\ l' = L)); [by apply (triple_ret ginv)|intros a l' [-> ->]|lia].
  unfold e_ikey. rewrite ParseInternalKey_InternalKey by (apply Hseq; by eapply list_elem_of_lookup_2).
  apply (triple_ret ginv). split; [done|]. by exists c.
Qed.

(** ** Forward *)

(** The entries that come after user key [u0], if there is one. *)
Definition past (u0 : option bytes) (u : bytes) : Prop := match u0 with Some u' => Compare ucmp u u' = Gt | None => True end.

Definition wanted (u0 : option bytes) (i : nat) : Prop := live i /\ forall e, E !! i = Some e -> past u0 (e_key e).

Definition found (u0 : option bytes) (b : nat) (q : option nat) : Prop :=
  match q with
  | Some i => (b <= i)%nat /\ wanted u0 i /\ forall m, (b <= m < i)%nat -> ~ wanted u0 m
  | None => forall m, (b <= m)%nat -> ~ wanted u0 m
  end.

Lemma found_S u0 b q : ~ wanted u0 b -> found u0 (Datatypes.S b) q -> found u0 b q.
Proof.
  intros Hb. destruct q as [i|]; cbn.
  - intros (Hi & Hw & Hmin). split; [lia|]. split; [done|]. intros m Hm. destruct (decide (m = b)) as [->|]; [done|]. apply Hmin. lia.
  - intros Hmin m Hm. destruct (decide (m = b)) as [->|]; [done|]. apply Hmin. lia.
Qed.

(** From entry [i] on the entries hidden by [skipping] and [saved_key_] are
    those with a newer one before, and those not past [u0]; no entry comes
    before [u0]. *)
Definition hides (u0 : option bytes) (i : nat) (skipping : bool) (sk : bytes) : Prop :=
  forall j e, (i <= j)%nat -> E !! j = Some e -> e_seq e <= s ->
    (forall u', u0 = Some u' -> Compare ucmp (e_key e) u' <> Lt) /\
    ((skipping = true /\ Compare ucmp (e_key e) sk <> Gt) <->
    ((exists m f, (m < i)%nat /\ E !! m = Some f /\ e_seq f <= s /\ Compare ucmp (e_key f) (e_key e) = Eq) \/ ~ past u0 (e_key e))).

(** An invisible entry changes nothing. *)
Lemma hides_invisible u0 i skipping sk e : E !! i = Some e -> s < e_seq e -> hides u0 i skipping sk -> hides u0 (Datatypes.S i) skipping sk.
Proof.
  intros He Hes Hh j f Hj Hf Hfs. destruct (Hh j f ltac:(lia) Hf Hfs) as [Hu ->]. split; [done|].
  split; (intros [(m & g & Hm & Hg & Hgs & Hgf)|Hp]; [left|by right]).
  - exists m, g. split; [lia|done].
  - exists m, g. split; [|done]. destruct (decide (m = i)) as [->|]; [|lia]. assert (g = e) as -> by congruence. lia.
Qed.

(** A deletion hides what follows of its key. *)
Lemma hides_deletion u0 i skipping sk e : E !! i = Some e -> e_seq e <= s -> hides u0 i skipping sk -> hides u0 (Datatypes.S i) true (e_key e).
Proof.
  intros He Hes Hh j f Hj Hf Hfs. destruct (Hh j f ltac:(lia) Hf Hfs) as [Hu _]. split; [done|].
  pose proof (user_order i j e f He Hf ltac:(lia)) as Hef.
  assert (Heq : Compare ucmp (e_key f) (e_key e) <> Gt <-> Compare ucmp (e_key e) (e_key f) = Eq).
  { rewrite (cmp_not_gt_le (Compare ucmp)). by destruct (Compare ucmp (e_key e) (e_key f)). }
  rewrite Heq. split.
  - intros [_ H]. left. exists i, e. split; [lia|done].
  - intros [(m & g & Hm & Hg & Hgs & Hgf)|Hp]; (split; [done|]).
    + by apply (same_user_between m i j g e f Hg He Hf ltac:(lia)).
    + destruct u0 as [u'|]; [|by destruct (Hp I)]. cbn in Hp. destruct (Hh i e (le_n _) He Hes) as [Hu' _]. specialize (Hu' u' eq_refl).
      specialize (Hu u' eq_refl). apply (cmp_not_gt_le (Compare ucmp)) in Hu'.
      pose proof (cmp_le_trans (Compare ucmp) _ _ _ Hp Hu') as Hfe. by apply Heq.
Qed.

(** A value that is hidden leaves the rest hidden as it was. *)
Lemma hides_value u0 i sk e : E !! i = Some e -> e_seq e <= s -> Compare ucmp (e_key e) sk <> Gt ->
  hides u0 i true sk -> hides u0 (Datatypes.S i) true sk.
Proof.
  intros He Hes Hsk Hh j f Hj Hf Hfs. destruct (Hh j f ltac:(lia) Hf Hfs) as [Hu Hiff]. split; [done|]. rewrite Hiff.
  split; (intros [(m & g & Hm & Hg & Hgs & Hgf)|Hp]; [|by right]).
  - left. exists m, g. split; [lia|done].
  - destruct (decide (m = i)) as [->|]; [|left; exists m, g; split; [lia|done]]. assert (g = e) as -> by congruence.
    apply Hiff. split; [done|]. by rewrite <- (cmp_eq_l (Compare ucmp) (e_key e) (e_key f) sk Hgf).
Qed.

Definition forward_result (u0 : option bytes) (b : nat) (d : D) (L : list R) : Prop :=
  d_ok d /\ d_direction d = kForward /\ exists q, found u0 b q /\ d_valid d = bool_decide (is_Some q) /\
    exists q', ipos (d_iter d) L q' /\ (is_Some q -> q' = q).

Lemma FindNext_loop_spec n u0 i skipping d L : (length E <= n + i)%nat -> d_ok d -> d_direction d = kForward ->
  ipos (d_iter d) L (Some i) -> hides u0 i skipping (d_saved_key d) ->
  triple ginv (n * k) L (FindNext_loop ucmp it RecordReadSample fuel n skipping d) (forward_result u0 i).
Proof.
  revert i skipping d L. induction n as [|n IH]; intros i skipping d L Hn Hok Hdir Hp Hh.
  { pose proof (ms_lt _ _ _ Hp) as Hlt. rewrite length_map in Hlt. lia. }
  pose proof (ms_lt _ _ _ Hp) as Hlt. rewrite length_map in Hlt. destruct (lookup_lt_is_Some_2 E i Hlt) as [e He]. cbn [FindNext_loop].
  assert (Hcont : forall skipping' d', d_ok d' -> d_direction d' = kForward -> d_iter d' = d_iter d ->
    hides u0 (Datatypes.S i) skipping' (d_saved_key d') -> ~ wanted u0 i ->
    triple ginv (Datatypes.S n * k) L (next_round it (FindNext_loop ucmp it RecordReadSample fuel n) skipping' d') (forward_result u0 i)).
  { clear skipping Hh. intros skipping d' Hok' Hdir' Hit Hh Hw. unfold next_round. rewrite Hit.
    apply (triple_seq ginv _ k (n * k) _ _ _ _ _ (ms_next _ _ _ Hp)); [|lia]. intros t l Ht. cbn beta in Ht. rewrite (ms_valid _ _ _ Ht).
    unfold next_pos in Ht |- *. rewrite length_map in Ht |- *. destruct (Nat.ltb_spec (Datatypes.S i) (length E)).
    - rewrite bool_decide_eq_true_2 by done. eapply (triple_mono ginv); [apply (IH (Datatypes.S i) skipping (d_set_iter t d') l); try done; lia|done|].
      intros d2 l2 (Hok2 & Hdir2 & q & Hq & Hv & Hq'). split; [done|]. split; [done|]. exists q. split; [by apply found_S|done].
    - rewrite bool_decide_eq_false_2 by (by intros []). apply (triple_now ginv). split; [done|]. split; [done|]. exists None.
      split; [|by eauto]. apply found_S; [done|]. intros m Hm [Hl _]. apply live_lt in Hl. lia. }
  apply (triple_seq ginv _ 0 (Datatypes.S n * k) _ _ _ _ _ (ParseKey_spec d L i e Hok Hp He)); [|lia]. intros r l (-> & c & Hc & ->).
  cbn [fst snd sequence type user_key d_sequence d_set_counter]. destruct Hok as (Hsq & Hst & _). rewrite Hsq.
  destruct (Z.leb_spec (e_seq e) s) as [Hes|Hes]; cbn [negb].
  2:{ apply Hcont; try done; [by apply (hides_invisible u0 i _ _ e)|]. intros [(e' & He' & Hes' & _) _]. assert (e' = e) as -> by congruence. lia. }
  destruct (e_type e) eqn:Et.
  - apply Hcont; try done; [by apply (hides_deletion u0 i skipping (d_saved_key d) e)|]. intros [(e' & He' & _ & Ht & _) _]. congruence.
  - destruct (Hh i e (le_n _) He Hes) as [_ Hiff]. change (d_saved_key (d_set_counter (d_rnd d) c d)) with (d_saved_key d). destruct (skipping && _) eqn:Esk.
    + assert (Hhid : skipping = true /\ Compare ucmp (e_key e) (d_saved_key d) <> Gt).
      { apply andb_true_iff in Esk as [-> Esk]. split; [done|]. intros Hgt. by rewrite Hgt in Esk. }
      apply Hcont; try done; [destruct Hhid as [-> Hsk]; by apply (hides_value u0 i _ e)|]. apply Hiff in Hhid as [(m & f & Hm & Hf & Hfs & Hfe)|Hp'].
      * intros [(e' & He' & _ & _ & Hnone) _]. assert (e' = e) as -> by congruence. by apply (Hnone m f).
      * intros [_ Hpast]. by apply Hp', Hpast.
    + assert (Hnh : ~ (skipping = true /\ Compare ucmp (e_key e) (d_saved_key d) <> Gt)).
      { intros [-> Hsk]. by destruct (Compare ucmp (e_key e) (d_saved_key d)). }
      apply (triple_now ginv). split; [done|]. split; [done|]. exists (Some i). split; [|eauto]. split; [done|]. split; [|intros m Hm; lia].
      split; [exists e; split; [done|]; split; [done|]; split; [done|]|].
      * intros j f Hj Hf Hfs Hfe. apply Hnh, Hiff. left. by exists j, f.
      * intros e' He'. assert (e' = e) as -> by congruence. destruct u0 as [u'|]; [|done]. cbn. destruct (Compare ucmp (e_key e) u') eqn:Ec; [| |done];
        (destruct Hnh; apply Hiff; right; cbn; by rewrite Ec).
Qed.

(** ** Backward *)

(** No entry from [lo] to before [c] is seen by the snapshot. *)
Definition unseen (lo c : nat) : Prop := forall m f, (lo <= m < c)%nat -> E !! m = Some f -> s < e_seq f.

(** The internal iterator stands in front of [c], with nothing seen between. *)
Definition in_front (c : nat) (q : option nat) : Prop :=
  match q with Some j => (j < c)%nat /\ unseen (Datatypes.S j) c | None => unseen 0 c end.

(** Entry [c] is saved. *)
Definition saved (d : D) (e : Entry) : Prop := d_saved_key d = e_key e /\ d_saved_value d = e_value e.

(** What the loop knows when the entries from [lo] to [b] are behind it. *)
Definition scanned (lo b : nat) (value_type : ValueType) (d : D) : Prop :=
  match value_type with
  | kTypeDeletion => forall m, (lo <= m < b)%nat -> ~ live m
  | kTypeValue => exists c e, (lo <= c < b)%nat /\ E !! c = Some e /\ e_seq e <= s /\ e_type e = kTypeValue /\ saved d e /\
      unseen lo c /\ forall m, (c < m < b)%nat -> ~ live m
  end.

Definition backward_result (b : nat) (r : ValueType * D) (L : list R) : Prop :=
  d_ok r.2 /\ d_direction r.2 = kReverse /\ exists q, last_live ucmp s E b q /\ exists q', ipos (d_iter r.2) L q' /\
    match q with
    | None => r.1 = kTypeDeletion
    | Some c => r.1 = kTypeValue /\ in_front c q' /\ exists e, E !! c = Some e /\ saved r.2 e
    end.

(** A value is live when the entry seen before it has a smaller key. *)
Lemma live_after_smaller c e j f : E !! c = Some e -> e_seq e <= s -> e_type e = kTypeValue ->
  unseen (Datatypes.S j) c -> E !! j = Some f -> Compare ucmp (e_key f) (e_key e) = Lt -> live c.
Proof.
  intros He Hes Het Hun Hf Hlt. exists e. split; [done|]. split; [done|]. split; [done|]. intros m g Hm Hg Hgs Heq.
  destruct (decide (m <= j)%nat) as [Hmj|Hmj].
  - pose proof (user_order m j g f Hg Hf Hmj) as Hgf. rewrite (cmp_le_lt_trans (Compare ucmp) _ _ _ Hgf Hlt) in Heq. done.
  - pose proof (Hun m g ltac:(lia) Hg). lia.
Qed.

Lemma scanned_invisible j b value_type d d' f : E !! j = Some f -> s < e_seq f -> d_saved_key d' = d_saved_key d -> d_saved_value d' = d_saved_value d ->
  scanned (Datatypes.S j) b value_type d -> scanned j b value_type d'.
Proof.
  intros Hf Hfs Hk Hv. assert (Hun : forall c, unseen (Datatypes.S j) c -> unseen j c).
  { intros c Hc m g Hm Hg. destruct (decide (m = j)) as [->|]; [by assert (g = f) as -> by congruence|]. apply (Hc m g); [lia|done]. }
  destruct value_type; cbn.
  - intros Hn m Hm. destruct (decide (m = j)) as [->|]; [|apply Hn; lia]. intros (e & He & Hes & _). assert (e = f) as -> by congruence. lia.
  - intros (c & e & Hc & He & Hes & Het & [Hsk Hsv] & Hunc & Hn). exists c, e. split; [lia|]. split; [done|]. split; [done|]. split; [done|].
    split; [split; congruence|]. split; [by apply Hun|done].
Qed.

(** A visible entry that is not of a smaller key takes over. *)
Lemma scanned_visible j b value_type d d' f : E !! j = Some f -> (j < b)%nat -> e_seq f <= s ->
  (value_type = kTypeValue -> Compare ucmp (e_key f) (d_saved_key d) <> Lt) -> (e_type f = kTypeValue -> saved d' f) ->
  scanned (Datatypes.S j) b value_type d -> scanned j b (e_type f) d'.
Proof.
  intros Hf Hjb Hfs Hge Hsaved Hsc. assert (Hn : forall m, (j < m < b)%nat -> ~ live m).
  { intros m Hm. destruct value_type; [apply Hsc; lia|]. destruct Hsc as (c & e & Hc & He & Hes & Het & [Hsk Hsv] & Hun & Hn).
    destruct (Nat.lt_trichotomy m c) as [Hmc|[->|Hmc]]; [| |apply Hn; lia].
    - intros (g & Hg & Hgs & _). pose proof (Hun m g ltac:(lia) Hg). lia.
    - intros (g & Hg & _ & _ & Hnone). assert (g = e) as -> by congruence. apply (Hnone j f ltac:(lia) Hf Hfs).
      pose proof (user_order j c f e Hf He ltac:(lia)) as Hle. specialize (Hge eq_refl). rewrite Hsk in Hge. by destruct (Compare ucmp (e_key f) (e_key e)). }
  destruct (e_type f) eqn:Et; cbn.
  - intros m Hm. destruct (decide (m = j)) as [->|]; [|apply Hn; lia]. intros (g & Hg & _ & Hgt & _). congruence.
  - exists j, f. split; [lia|]. split; [done|]. split; [done|]. split; [done|]. split; [by apply Hsaved|]. split; [intros m g Hm; lia|].
    intros m Hm. apply Hn. lia.
Qed.

Lemma scanned_all b value_type d L q : scanned 0 b value_type d -> d_ok d -> d_direction d = kReverse -> ipos (d_iter d) L q ->
  q = None -> backward_result b (value_type, d) L.
Proof.
  intros Hsc Hok Hdir Hp ->. split; [done|]. split; [done|]. destruct value_type.
  - exists None. split; [intros m Hm; apply Hsc; lia|]. by exists None.
  - destruct Hsc as (c & e & Hc & He & Hes & Het & Hsv & Hun & Hn). exists (Some c). split.
    + split; [lia|]. split; [|done]. exists e. split; [done|]. split; [done|]. split; [done|]. intros m g Hm Hg Hgs.
      pose proof (Hun m g ltac:(lia) Hg). lia.
    + exists None. split; [done|]. split; [done|]. split; [done|]. by exists e.
Qed.

Lemma FindPrev_loop_spec n b j value_type d L : (j < n)%nat -> (j < b)%nat -> d_ok d -> d_direction d = kReverse ->
  ipos (d_iter d) L (Some j) -> scanned (Datatypes.S j) b value_type d ->
  triple ginv (n * k) L (FindPrev_loop ucmp it RecordReadSample fuel n value_type d) (backward_result b).
Proof.
  revert j value_type d L. induction n as [|n IH]; intros j value_type d L Hn Hb Hok Hdir Hp Hsc; [lia|].
  pose proof (ms_lt _ _ _ Hp) as Hlt. rewrite length_map in Hlt. destruct (lookup_lt_is_Some_2 E j Hlt) as [f Hf]. cbn [FindPrev_loop].
  assert (Hcont : forall vt d', d_ok d' -> d_direction d' = kReverse -> d_iter d' = d_iter d -> scanned j b vt d' ->
    triple ginv (Datatypes.S n * k) L (prev_round it (FindPrev_loop ucmp it RecordReadSample fuel n) vt d') (backward_result b)).
  { clear Hsc. intros vt d' Hok' Hdir' Hit Hsc. unfold prev_round. rewrite Hit.
    apply (triple_seq ginv _ k (n * k) _ _ _ _ _ (ms_prev _ _ _ Hp)); [|lia]. intros t l Ht. cbn beta in Ht. rewrite (ms_valid _ _ _ Ht).
    destruct j as [|j]; cbn [prev_pos] in Ht |- *.
    - rewrite bool_decide_eq_false_2 by (by intros []). apply (triple_now ginv). by apply (scanned_all b vt (d_set_iter t d') l None).
    - rewrite bool_decide_eq_true_2 by done. by apply (IH j); [lia|lia|..]. }
  apply (triple_seq ginv _ 0 (Datatypes.S n * k) _ _ _ _ _ (ParseKey_spec d L j f Hok Hp Hf)); [|lia]. intros r l (-> & c & Hc & ->).
  cbn [fst snd sequence type user_key]. destruct Hok as (Hsq & Hst & _). change (d_sequence (d_set_counter (d_rnd d) c d)) with (d_sequence d).
  change (d_saved_key (d_set_counter (d_rnd d) c d)) with (d_saved_key d). rewrite Hsq.
  destruct (Z.leb_spec (e_seq f) s) as [Hfs|Hfs]; cbn [negb].
  2:{ apply Hcont; try done. by apply (scanned_invisible j b value_type d _ f). }
  destruct (negb _ && _) eqn:Ebr.
  - apply andb_true_iff in Ebr as [Hvt Hl%is_lt_true]. apply negb_true_iff, bool_decide_eq_false in Hvt. destruct value_type; [done|].
    destruct Hsc as (a & e & Ha & He & Hes & Het & Hsv & Hun & Hno). apply (triple_now ginv). split; [done|]. split; [done|].
    exists (Some a). split.
    + split; [lia|]. split; [|done]. apply (live_after_smaller a e j f); try done. by destruct Hsv as [<- _].
    + exists (Some j). split; [done|]. split; [done|]. split; [split; [lia|done]|]. by exists e.
  - assert (Hge : value_type = kTypeValue -> Compare ucmp (e_key f) (d_saved_key d) <> Lt).
    { intros -> Hl. by rewrite Hl in Ebr. }
    destruct (e_type f) eqn:Et.
    + apply Hcont; try done. rewrite <- Et. apply (scanned_visible j b value_type d _ f); try done. by rewrite Et.
    + assert (Hf' : map kv E !! j = Some (kv f)) by (by rewrite list_lookup_fmap, Hf).
      apply (triple_let ginv _ _ _ (e_value f)); [by apply (ms_value _ _ _ (kv f) Hp)|].
      apply (triple_let ginv _ _ _ (e_ikey f)); [by apply (ms_key _ _ _ (kv f) Hp)|]. apply Hcont; try done. rewrite <- Et.
      apply (scanned_visible j b value_type d _ f); try done. intros _. split; [apply ExtractUserKey_InternalKey|done].
Qed.

(** ** The operations *)

Definition dpos (d : D) (L : list R) (p : option nat) : Prop :=
  d_ok d /\ d_valid d = bool_decide (is_Some p) /\ exists q q', pos_of ucmp s E p q /\ ipos (d_iter d) L q' /\
    match q with
    | None => True
    | Some i => match d_direction d with
                | kForward => q' = Some i
                | kReverse => in_front i q' /\ exists e, E !! i = Some e /\ saved d e
                end
    end.

Definition db_cost : nat := (2 * fuel + 1) * k.

Lemma pos_of_is_Some p q : pos_of ucmp s E p q -> is_Some p <-> is_Some q.
Proof. destruct p as [n|]; cbn; [intros (i & -> & _)|intros ->]; split; intros []; eauto; done. Qed.

Lemma forward_dpos u0 b d L p : forward_result u0 b d L -> (forall q, found u0 b q -> pos_of ucmp s E p q) -> dpos d L p.
Proof.
  intros (Hok & Hdir & q & Hq & Hv & q' & Hq' & Heq) Hpos. specialize (Hpos q Hq). pose proof (pos_of_is_Some p q Hpos) as Hiff.
  split; [done|]. split; [rewrite Hv; by apply bool_decide_ext|]. exists q, q'. split; [done|]. split; [done|]. rewrite Hdir.
  destruct q; [by apply Heq|done].
Qed.

Lemma FindNextUserEntry_spec u0 i skipping d L p : d_ok d -> d_direction d = kForward -> ipos (d_iter d) L (Some i) ->
  hides u0 i skipping (d_saved_key d) -> (forall q, found u0 i q -> pos_of ucmp s E p q) ->
  triple ginv (fuel * k) L (FindNextUserEntry ucmp it RecordReadSample fuel skipping d) (fun d' L' => dpos d' L' p).
Proof.
  intros Hok Hdir Hp Hh Hpos. unfold FindNextUserEntry. rewrite (ms_valid _ _ _ Hp), !bool_decide_eq_true_2 by done. cbn [andb].
  eapply (triple_mono ginv); [apply (FindNext_loop_spec fuel u0 i skipping d L); [lia|done..]|done|]. intros d' L' Hr. by apply (forward_dpos u0 i).
Qed.

Lemma found_live b q : found None b q -> first_live ucmp s E b q.
Proof.
  assert (Hw : forall m, wanted None m <-> live m) by (intros m; split; [by intros [H _]|intros H; by split]).
  destruct q as [i|]; cbn.
  - intros (Hb & Hi%Hw & Hn). split; [done|]. split; [done|]. intros m Hm Hl. apply (Hn m Hm). by apply Hw.
  - intros Hn m Hm Hl. apply (Hn m Hm). by apply Hw.
Qed.

Lemma found_next i e b q : live i -> E !! i = Some e -> (b <= Datatypes.S i)%nat -> found (Some (e_key e)) b q -> first_live ucmp s E (Datatypes.S i) q.
Proof.
  intros Hi He Hb. assert (Hw : forall m, wanted (Some (e_key e)) m <-> live m /\ (i < m)%nat).
  { intros m. split.
    - intros [Hl Hp]. split; [done|]. destruct Hl as (f & Hf & _). specialize (Hp f Hf). cbn in Hp. apply Nat.nle_gt. intros Hmi.
      by apply (user_order m i f e Hf He Hmi).
    - intros [Hl Him]. split; [done|]. intros f Hf. cbn. destruct Hl as (f' & Hf' & _ & _ & Hn). assert (f' = f) as -> by congruence.
      destruct Hi as (e' & He' & Hes & _). assert (e' = e) as -> by congruence. specialize (Hn i e Him He Hes).
      pose proof (user_order i m e f He Hf ltac:(lia)) as Hle. apply (cmp_gt_lt (Compare ucmp)). by destruct (Compare ucmp (e_key e) (e_key f)). }
  destruct q as [c|]; cbn.
  - intros (Hbc & [Hc Hic]%Hw & Hn). split; [lia|]. split; [done|]. intros m Hm Hl. apply (Hn m ltac:(lia)). apply Hw. split; [done|lia].
  - intros Hn m Hm Hl. apply (Hn m ltac:(lia)). apply Hw. split; [done|lia].
Qed.

Lemma hides_none b sk : (forall m f, (m < b)%nat -> E !! m = Some f -> e_seq f <= s -> forall j e, (b <= j)%nat -> E !! j = Some e -> e_seq e <= s ->
    Compare ucmp (e_key f) (e_key e) <> Eq) -> hides None b false sk.
Proof.
  intros Hn j e Hj He Hes. split; [done|]. split; [by intros [? _]|]. intros [(m & f & Hm & Hf & Hfs & Hfe)|Hp]; [|by destruct (Hp I)].
  by destruct (Hn m f Hm Hf Hfs j e Hj He Hes).
Qed.

Lemma db_seek_to_first d L p : dpos d L p ->
  triple ginv db_cost L (DBIter_SeekToFirst ucmp it RecordReadSample fuel d) (fun d' L' => dpos d' L' (first_pos (shown ucmp s E))).
Proof.
  intros (Hok & _ & q & q' & _ & Hp & _). unfold DBIter_SeekToFirst.
  apply (triple_seq ginv _ k (fuel * k) _ _ _ _ _ (ms_first _ _ _ Hp)); [|unfold db_cost; lia]. intros t l Ht. cbn beta in Ht. rewrite (ms_valid _ _ _ Ht).
  rewrite first_pos_0, length_map in Ht |- *. destruct (Nat.ltb_spec 0 (length E)) as [Hlt|Hlt].
  - rewrite bool_decide_eq_true_2 by done. apply (FindNextUserEntry_spec None 0); try done; [by apply hides_none; intros m f Hm; lia|].
    intros q0 Hq%found_live. by apply pos_first.
  - rewrite bool_decide_eq_false_2 by (by intros []). apply (triple_now ginv). split; [done|].
    assert (Hn : pos_of ucmp s E (first_pos (shown ucmp s E)) None) by (apply pos_first; intros m Hm Hl; apply live_lt in Hl; lia).
    split; [symmetry; apply bool_decide_eq_false_2; rewrite (pos_of_is_Some _ _ Hn); by intros []|]. by exists None, None.
Qed.

(** Where a seek for the internal key of [(t, s)] splits the entries. *)
Lemma seek_split t q i e : seek_pos (InternalKey_Compare ucmp) (map kv E) (seek_key t s) = q -> E !! i = Some e -> e_seq e <= s ->
  (i < from_option id (length E) q)%nat <-> Compare ucmp (e_key e) t = Lt.
Proof.
  intros Hq He Hes. pose proof (not_before ucmp e t s (Hseq e ltac:(by eapply list_elem_of_lookup_2)) Hs) as Hnb. unfold visible in Hnb.
  pose proof (seek_pos_inv (InternalKey_Compare ucmp) (map kv E) (seek_key t s)) as Hinv. rewrite Hq in Hinv.
  assert (He' : map kv E !! i = Some (kv e)) by (by rewrite list_lookup_fmap, He). split.
  - intros Hi. destruct q as [c|]; cbn in Hi.
    + destruct Hinv as (x & _ & _ & Hlt). specialize (Hlt i (kv e) Hi He'). cbn in Hlt.
      destruct (Compare ucmp (e_key e) t) eqn:Ec; [|done|]; destruct (proj2 Hnb); auto.
    + specialize (Hinv i (kv e) He'). cbn in Hinv. destruct (Compare ucmp (e_key e) t) eqn:Ec; [|done|]; destruct (proj2 Hnb); auto.
  - intros Hlt. destruct q as [c|]; cbn; [|by eapply lookup_lt_Some]. apply Nat.nle_gt. intros Hci. destruct Hinv as (x & Hx & Hge & _).
    assert (Hei : InternalKey_Compare ucmp (e_ikey e) (seek_key t s) <> Lt).
    { intros H. apply Hge. destruct (decide (c = i)) as [->|]; [by assert (x = kv e) as -> by congruence|].
      apply (cmp_lt_trans (InternalKey_Compare ucmp) _ (e_ikey e)); [|done]. by apply (sorted_keys_lookup _ _ c i x (kv e) Hsorted); [| |lia]. }
    apply Hnb in Hei as [Hei|[Hei _]]; congruence.
Qed.

Lemma db_seek t d L p : small_target (seek_key t s) -> dpos d L p ->
  triple ginv db_cost L (DBIter_Seek ucmp it RecordReadSample fuel t d) (fun d' L' => dpos d' L' (seek_pos (Compare ucmp) (shown ucmp s E) t)).
Proof.
  intros Ht (Hok & _ & q & q' & _ & Hp & _). unfold DBIter_Seek. cbn [d_saved_key SaveKey]. change (d_iter (SaveKey _ _)) with (d_iter d).
  assert (Hsq : d_sequence d = s) by apply Hok. rewrite Hsq. change (InternalKey t s kValueTypeForSeek) with (seek_key t s).
  apply (triple_seq ginv _ k (fuel * k) _ _ _ _ _ (ms_seek _ _ _ (seek_key t s) Ht Hp)); [|unfold db_cost; lia]. intros a l Ha. cbn beta in Ha.
  rewrite (ms_valid _ _ _ Ha). destruct (seek_pos (InternalKey_Compare ucmp) (map kv E) (seek_key t s)) as [b|] eqn:Eb.
  - rewrite bool_decide_eq_true_2 by done. apply (FindNextUserEntry_spec None b); try done.
    + apply hides_none. intros m f Hm Hf Hfs j e Hj He Hes Heq.
      assert (Hft : Compare ucmp (e_key f) t = Lt) by (by apply (seek_split t (Some b) m)).
      assert (Hjb : (j < b)%nat); [|lia]. apply (seek_split t (Some b) j e Eb He Hes). by rewrite <- (cmp_eq_l (Compare ucmp) _ _ t Heq).
    + intros q0 Hq%found_live. apply (pos_seek ucmp s E t b); [|done]. intros i e He (e' & He' & Hes & _). assert (e' = e) as -> by congruence.
      symmetry. by apply (seek_split t (Some b) i e).
  - rewrite bool_decide_eq_false_2 by (by intros []). apply (triple_now ginv). split; [done|].
    assert (Hn : pos_of ucmp s E (seek_pos (Compare ucmp) (shown ucmp s E) t) None).
    { apply (pos_seek ucmp s E t (length E)); [|intros m Hm Hl; apply live_lt in Hl; lia]. intros i e He (e' & He' & Hes & _).
      assert (e' = e) as -> by congruence. symmetry. by apply (seek_split t None i e). }
    split; [symmetry; apply bool_decide_eq_false_2; rewrite (pos_of_is_Some _ _ Hn); by intros []|]. by exists None, None.
Qed.

(** Behind the entry shown its key is skipped. *)
Lemma hides_current b i e : E !! i = Some e -> (b <= i)%nat -> unseen b i -> hides (Some (e_key e)) b true (e_key e).
Proof.
  intros He Hbi Hun j f Hj Hf Hfs. assert (Hij : (i <= j)%nat).
  { apply Nat.nlt_ge. intros Hji. pose proof (Hun j f ltac:(lia) Hf). lia. }
  pose proof (user_order i j e f He Hf Hij) as Hle. split.
  - intros u' [= <-]. by apply (cmp_not_gt_le (Compare ucmp)).
  - cbn. split; [intros [_ H]; by right|]. intros [(m & g & Hm & Hg & Hgs & Hgf)|H]; (split; [done|]).
    + destruct (same_user_between m i j g e f Hg He Hf ltac:(lia) Hgf) as [_ Hef]. by rewrite (cmp_eq_sym (Compare ucmp) _ _ Hef).
    + destruct (Compare ucmp (e_key f) (e_key e)); done.
Qed.

Lemma db_next d L n : dpos d L (Some n) ->
  triple ginv db_cost L (DBIter_Next ucmp it RecordReadSample fuel d) (fun d' L' => dpos d' L' (next_pos (shown ucmp s E) n)).
Proof.
  intros (Hok & Hv & q & q' & (i & -> & Hi) & Hp & Hd). unfold DBIter_Next. rewrite Hv, bool_decide_eq_true_2 by done. cbn [negb].
  pose proof (index_live ucmp s E n i Hi) as Hl. pose proof (live_lt ucmp s E i Hl) as Hlt. destruct (lookup_lt_is_Some_2 E i Hlt) as [e He].
  assert (Hres : forall b q, (b <= Datatypes.S i)%nat -> found (Some (e_key e)) b q -> pos_of ucmp s E (next_pos (shown ucmp s E) n) q).
  { intros b q Hb Hq. apply (pos_next ucmp s E n i q Hi). by apply (found_next i e b). }
  destruct (d_direction d) eqn:Edir.
  - subst q'. apply (triple_let ginv _ _ _ (e_ikey e)); [apply (ms_key _ _ _ (kv e) Hp); by rewrite list_lookup_fmap, He|].
    unfold e_ikey. rewrite ExtractUserKey_InternalKey.
    apply (triple_mono ginv (fuel * k) _ L _ (fun d' L' => dpos d' L' (next_pos (shown ucmp s E) n))); [|unfold db_cost; lia|done].
    apply (FindNextUserEntry_spec (Some (e_key e)) i); try done; [|intros q Hq; apply (Hres i q); [lia|done]].
    apply (hides_current i i e He (le_n _)). intros m f Hm. lia.
  - destruct Hd as (Hfr & e' & He' & Hsk & Hsv). assert (e' = e) as -> by congruence.
    set (b := match q' with Some j => Datatypes.S j | None => 0%nat end).
    assert (Hb : (b <= i)%nat /\ unseen b i) by (destruct q' as [j|]; cbn in Hfr; [destruct Hfr as [? ?]; subst b; split; [lia|done]|subst b; split; [lia|done]]).
    destruct Hb as [Hb Hun].
    apply (triple_seq ginv _ k (fuel * k) _ _ _ (fun t l => ipos t l (Some b))); [| |unfold db_cost; lia].
    + rewrite (ms_valid _ _ _ Hp). destruct q' as [j|].
      * rewrite bool_decide_eq_true_2 by done. cbn [negb]. eapply (triple_mono ginv); [by apply (ms_next _ _ _ Hp)|done|]. intros t l Ht. cbn beta in Ht.
        unfold next_pos in Ht. rewrite length_map in Ht. subst b. destruct (Nat.ltb_spec (Datatypes.S j) (length E)); [done|lia].
      * rewrite bool_decide_eq_false_2 by (by intros []). cbn [negb]. eapply (triple_mono ginv); [by apply (ms_first _ _ _ Hp)|done|]. intros t l Ht. cbn beta in Ht.
        rewrite first_pos_0, length_map in Ht. subst b. destruct (Nat.ltb_spec 0 (length E)); [done|lia].
    + intros t l Ht. cbn zeta. rewrite (ms_valid _ _ _ Ht), bool_decide_eq_true_2 by done. cbn [negb].
      apply (FindNextUserEntry_spec (Some (e_key e)) b); try done; [|intros q Hq; apply (Hres b q); [lia|done]].
      change (d_saved_key (d_set_iter t (d_set_direction kForward d))) with (d_saved_key d). rewrite Hsk. by apply (hides_current b i e).
Qed.

Lemma FindPrevUserEntry_spec b d L q0 p : d_ok d -> d_direction d = kReverse -> ipos (d_iter d) L q0 ->
  b = match q0 with Some j => Datatypes.S j | None => 0%nat end -> (forall q, last_live ucmp s E b q -> pos_of ucmp s E p q) ->
  triple ginv (fuel * k) L (FindPrevUserEntry ucmp it RecordReadSample fuel d) (fun d' L' => dpos d' L' p).
Proof.
  intros Hok Hdir Hp Hb Hpos. unfold FindPrevUserEntry. rewrite (bool_decide_eq_true_2 _ Hdir). cbn [negb].
  apply (triple_seq ginv _ (fuel * k) 0 _ _ _ (backward_result b)); [| |lia].
  - rewrite (ms_valid _ _ _ Hp). destruct q0 as [j|].
    + rewrite bool_decide_eq_true_2 by done. subst b. pose proof (ms_lt _ _ _ Hp) as Hlt. rewrite length_map in Hlt.
      apply (FindPrev_loop_spec fuel (Datatypes.S j) j); try done; [lia|lia|]. intros m Hm. lia.
    + rewrite bool_decide_eq_false_2 by (by intros []). apply (triple_now ginv). subst b. apply (scanned_all 0 kTypeDeletion d L None); try done.
      intros m Hm. lia.
  - intros [vt d'] l (Hok' & Hdir' & q & Hq & q' & Hq' & Hr). cbn [fst snd] in *. specialize (Hpos q Hq). pose proof (pos_of_is_Some p q Hpos) as Hiff.
    destruct q as [c|].
    + destruct Hr as (-> & Hfr & e & He & Hsv). apply (triple_ret ginv). split; [done|]. cbn.
      split; [symmetry; apply bool_decide_eq_true_2; by apply Hiff|]. exists (Some c), q'. split; [done|]. split; [done|]. rewrite Hdir'.
      split; [done|]. by exists e.
    + subst vt. apply (triple_ret ginv). split; [done|]. cbn.
      split; [symmetry; apply bool_decide_eq_false_2; rewrite Hiff; by intros []|]. by exists None, q'.
Qed.

Lemma db_seek_to_last d L p : dpos d L p ->
  triple ginv db_cost L (DBIter_SeekToLast ucmp it RecordReadSample fuel d) (fun d' L' => dpos d' L' (last_pos (shown ucmp s E))).
Proof.
  intros (Hok & _ & q & q' & _ & Hp & _). unfold DBIter_SeekToLast.
  apply (triple_seq ginv _ k (fuel * k) _ _ _ _ _ (ms_last _ _ _ Hp)); [|unfold db_cost; lia]. intros t l Ht. cbn beta in Ht.
  apply (FindPrevUserEntry_spec (length E) _ l (last_pos (map kv E))); try done; [|intros q0; apply pos_last].
  rewrite <- (length_map kv E). destruct (last_pos (map kv E)) as [j|] eqn:Ej; [by apply last_pos_Some in Ej|by apply last_pos_None in Ej].
Qed.

(** The loop of [Prev] that leaves the entries of the current key. *)
Lemma PrevKey_loop_spec n i j u d L : (j < n)%nat -> (j <= i)%nat -> d_ok d -> d_direction d = kForward -> d_saved_key d = u -> ipos (d_iter d) L (Some j) ->
  (forall m f, (j <= m < i)%nat -> E !! m = Some f -> Compare ucmp (e_key f) u <> Lt) ->
  triple ginv (n * k) L (PrevKey_loop ucmp it n d) (fun r L' => d_ok r.2 /\ exists q, ipos (d_iter r.2) L' q /\
    (forall m f, (match q with Some c => Datatypes.S c | None => 0%nat end <= m < i)%nat -> E !! m = Some f -> Compare ucmp (e_key f) u <> Lt) /\
    if r.1 then is_Some q /\ (from_option id i q < i)%nat else q = None /\ d_valid r.2 = false).
Proof.
  revert j d L. induction n as [|n IH]; intros j d L Hn Hji Hok Hdir Hsk Hp Hge; [lia|]. cbn [PrevKey_loop].
  apply (triple_seq ginv _ k (n * k) _ _ _ _ _ (ms_prev _ _ _ Hp)); [|lia]. intros t l Ht. cbn beta zeta in Ht |- *. rewrite (ms_valid _ _ _ Ht).
  destruct j as [|j]; cbn [prev_pos] in Ht |- *.
  - rewrite bool_decide_eq_false_2 by (by intros []). cbn [negb]. apply (triple_now ginv). cbn [fst snd]. split; [done|]. by exists None.
  - rewrite bool_decide_eq_true_2 by done. cbn [negb]. pose proof (ms_lt _ _ _ Ht) as Hlt. rewrite length_map in Hlt.
    destruct (lookup_lt_is_Some_2 E j Hlt) as [f Hf]. apply (triple_let ginv _ _ _ (e_ikey f)); [apply (ms_key _ _ _ (kv f) Ht); by rewrite list_lookup_fmap, Hf|].
    unfold e_ikey. rewrite ExtractUserKey_InternalKey. cbn [d_saved_key d_set_iter]. rewrite Hsk. destruct (is_lt _) eqn:Elt.
    + apply (triple_now ginv). cbn [fst snd]. split; [done|]. exists (Some j). split; [done|]. split; [done|]. split; [done|]. cbn. lia.
    + apply (IH j); try done; [lia|lia|]. intros m g Hm Hg. destruct (decide (m = j)) as [->|]; [|apply (Hge m g); [lia|done]].
      assert (g = f) as -> by congruence. intros H. by rewrite H in Elt.
Qed.

Lemma db_prev d L n : dpos d L (Some n) ->
  triple ginv db_cost L (DBIter_Prev ucmp it RecordReadSample fuel d) (fun d' L' => dpos d' L' (prev_pos n)).
Proof.
  intros (Hok & Hv & q & q' & (i & -> & Hi) & Hp & Hd). unfold DBIter_Prev. rewrite Hv, bool_decide_eq_true_2 by done. cbn [negb].
  pose proof (index_live ucmp s E n i Hi) as Hl. pose proof (live_lt ucmp s E i Hl) as Hlt. destruct (lookup_lt_is_Some_2 E i Hlt) as [e He].
  assert (Hres : forall b q, (b <= i)%nat -> (forall m, (b <= m < i)%nat -> ~ live m) -> last_live ucmp s E b q -> pos_of ucmp s E (prev_pos n) q).
  { intros b q Hb Hn Hq. apply (pos_prev ucmp s E n i q Hi). destruct q as [c|]; cbn in Hq |- *.
    - destruct Hq as (Hcb & Hc & Hm). split; [lia|]. split; [done|]. intros m Hmi. destruct (decide (m < b)%nat); [apply Hm; lia|apply Hn; lia].
    - intros m Hmi. destruct (decide (m < b)%nat); [by apply Hq|apply Hn; lia]. }
  destruct (d_direction d) eqn:Edir.
  - subst q'. apply (triple_let ginv _ _ _ (e_ikey e)); [apply (ms_key _ _ _ (kv e) Hp); by rewrite list_lookup_fmap, He|].
    unfold e_ikey. rewrite ExtractUserKey_InternalKey.
    apply (triple_seq ginv _ (fuel * k) (fuel * k) _ _ _ _ _ (PrevKey_loop_spec fuel i i (e_key e) (SaveKey (e_key e) d) L ltac:(lia) (le_n _) Hok Edir eq_refl Hp
      ltac:(intros m f Hm; lia))); [|unfold db_cost; lia]. intros [br d'] l (Hok' & q & Hq & Hge & Hbr). cbn [fst snd] in *.
    assert (Hnl : forall m, (match q with Some c => Datatypes.S c | None => 0%nat end <= m < i)%nat -> ~ live m).
    { intros m Hm Hlm. destruct Hlm as (f & Hf & Hfs & _). apply (Hge m f Hm Hf). pose proof (user_order m i f e Hf He ltac:(lia)) as Hle.
      destruct Hl as (e' & He' & _ & _ & Hn). assert (e' = e) as -> by congruence. specialize (Hn m f ltac:(lia) Hf Hfs).
      by destruct (Compare ucmp (e_key f) (e_key e)). }
    destruct br.
    + destruct Hbr as [[c ->] Hc]. cbn in Hc. apply (FindPrevUserEntry_spec (Datatypes.S c) _ l (Some c)); try done.
      intros q Hq'. by apply (Hres (Datatypes.S c) q); [lia|..].
    + destruct Hbr as [-> Hv']. apply (triple_now ginv). pose proof (Hres 0%nat None ltac:(lia) Hnl ltac:(intros m Hm; lia)) as Hpos.
      split; [done|]. split; [rewrite Hv'; symmetry; apply bool_decide_eq_false_2; rewrite (pos_of_is_Some _ _ Hpos); by intros []|].
      by exists None, None.
  - destruct Hd as (Hfr & _). eapply (triple_mono ginv); [apply (FindPrevUserEntry_spec _ d L q' (prev_pos n) Hok Edir Hp eq_refl)|unfold db_cost; lia|done].
    intros q Hq. eapply Hres; [| |exact Hq].
    + destruct q' as [j|]; cbn in Hfr; lia.
    + intros m Hm (f & Hf & Hfs & _). destruct q' as [j|]; cbn in Hfr; [destruct Hfr as [_ Hfr]|]; pose proof (Hfr m f ltac:(lia) Hf); lia.
Qed.

Lemma DBIter_spec : IteratorMSpec ginv (fun t => small_target (seek_key t s)) (DBIterator ucmp it RecordReadSample fuel) (Compare ucmp) (shown ucmp s E) db_cost dpos.
Proof.
  assert (Hat : forall d L n x, dpos d L (Some n) -> shown ucmp s E !! n = Some x -> d_valid d = true /\
    exists i e q', E !! i = Some e /\ x = uv e /\ ipos (d_iter d) L q' /\
      match d_direction d with kForward => q' = Some i | kReverse => saved d e end).
  { intros d L n x (Hok & Hv & q & q' & (i & -> & Hi) & Hp & Hd) Hx. rewrite bool_decide_eq_true_2 in Hv by done. split; [done|].
    rewrite shown_lookup, Hi in Hx. cbn in Hx. destruct (E !! i) as [e|] eqn:He; [|done]. injection Hx as <-. exists i, e, q'.
    split; [done|]. split; [done|]. split; [done|]. destruct (d_direction d); [done|]. destruct Hd as (_ & e' & He' & Hsv). congruence. }
  split.
  - intros d L p (_ & Hv & _). done.
  - intros d L n (_ & _ & q & q' & (i & _ & Hi) & _). rewrite shown_length. by eapply lookup_lt_Some.
  - intros d L n x Hd Hx. destruct (Hat d L n x Hd Hx) as (Hv & i & e & q' & He & -> & Hp & Hdir). cbn. rewrite Hv. destruct (d_direction d).
    + subst q'. rewrite (ms_key _ _ _ (kv e) Hp) by (by rewrite list_lookup_fmap, He). cbn. f_equal. apply ExtractUserKey_InternalKey.
    + by destruct Hdir as [-> _].
  - intros d L n x Hd Hx. destruct (Hat d L n x Hd Hx) as (Hv & i & e & q' & He & -> & Hp & Hdir). cbn. rewrite Hv. destruct (d_direction d).
    + subst q'. by rewrite (ms_value _ _ _ (kv e) Hp) by (by rewrite list_lookup_fmap, He).
    + by destruct Hdir as [_ ->].
  - intros d L p. apply db_seek_to_first.
  - intros d L p. apply db_seek_to_last.
  - intros d L p t. apply db_seek.
  - intros d L n. apply db_next.
  - intros d L n. apply db_prev.
  - intros d L p ((_ & Hst & _) & _ & q & q' & _ & Hp & _). cbn. rewrite Hst. cbn. by apply (ms_status _ _ _ Hp).
  - intros d L p (_ & _ & q & q' & _ & Hp & _). eapply (triple_mono ginv); [by apply (ms_delete _ _ _ Hp)|unfold db_cost; lia|done].
Qed.

Lemma NewDBIterator_spec i L q seed : ipos i L q -> dpos (NewDBIterator i s seed) L None.
Proof.
  intros Hp. split; [|split; [done|]].
  - split; [done|]. split; [done|]. cbn. apply Z.mod_pos_bound. unfold kReadBytesPeriod. lia.
  - by exists None, q.
Qed.

End Spec.

(** ** What is shown, without reference to the order of the entries *)

Section Shown.
Context (ucmp : Comparator) `{!TotalCmp (Compare ucmp)} (s : Z) (E : list Entry).
Context (Hsorted : sorted_keys (InternalKey_Compare ucmp) (map kv E)) (Hseq : forall e, e ∈ E -> valid_seq (e_seq e)).

Lemma shown_elem x : x ∈ shown ucmp s E <-> exists i e, live ucmp s E i /\ E !! i = Some e /\ x = uv e.
Proof.
  unfold shown. rewrite list_elem_of_omap. split.
  - intros (i & Hi & Hx). apply elem_live_positions in Hi. destruct (E !! i) as [e|] eqn:He; [|done]. injection Hx as <-. by exists i, e.
  - intros (i & e & Hl & He & ->). exists i. split; [by apply elem_live_positions|]. by rewrite He.
Qed.

Lemma entry_order i j e f : E !! i = Some e -> E !! j = Some f -> (i < j)%nat -> InternalKey_Compare ucmp (e_ikey e) (e_ikey f) = Lt.
Proof. intros He Hf Hij. apply (sorted_keys_lookup _ _ i j (kv e) (kv f) Hsorted); [by rewrite list_lookup_fmap, ?He, ?Hf..|done]. Qed.

(** The snapshot shows the newest entry it sees of every user key, values
    only. *)
Lemma shown_newest x : x ∈ shown ucmp s E <-> exists e, newest ucmp E (e_key e) s e /\ e_type e = kTypeValue /\ x = uv e.
Proof.
  rewrite shown_elem. split.
  - intros (i & e & (e' & He' & Hes & Het & Hn) & He & ->). assert (e' = e) as -> by congruence. exists e. split; [|done].
    split; [by eapply list_elem_of_lookup_2|]. split; [split; [apply (cmp_refl (Compare ucmp))|done]|]. intros f Hf [Hfe Hfs].
    apply list_elem_of_lookup in Hf as [j Hj]. destruct (Nat.lt_trichotomy j i) as [H|[->|H]]; [by destruct (Hn j f H Hj Hfs)|replace f with e by congruence; lia|].
    eapply (ikey_lt_seq ucmp e f); [apply Hseq; by eapply list_elem_of_lookup_2..|by apply (entry_order i j)|]. by apply (cmp_eq_sym (Compare ucmp)).
  - intros (e & (He & [_ Hes] & Hmax) & Het & ->). apply list_elem_of_lookup in He as [i Hi]. exists i, e. split; [|done]. exists e.
    split; [done|]. split; [done|]. split; [done|]. intros j f Hj Hf Hfs Hfe.
    pose proof (Hseq e ltac:(by eapply list_elem_of_lookup_2)) as Hve. pose proof (Hseq f ltac:(by eapply list_elem_of_lookup_2)) as Hvf.
    pose proof (entry_order j i f e Hf Hi Hj) as Hlt. destruct (ikey_lt_seq ucmp f e Hvf Hve Hlt) as [_ Hsq]. specialize (Hsq Hfe).
    specialize (Hmax f ltac:(by eapply list_elem_of_lookup_2) (conj Hfe Hfs)).
    pose proof (InternalKey_Compare_spec ucmp (e_key f) (e_seq f) (e_type f) (e_key e) (e_seq e) (e_type e) Hvf Hve) as Hc.
    cbn [Compare InternalKeyComparator] in Hc. unfold e_ikey in Hlt. rewrite Hlt, Hfe, (proj2 (Z.compare_eq_iff _ _)), Het in Hc by lia.
    by destruct (e_type f).
Qed.

Lemma shown_sorted : sorted_keys (Compare ucmp) (shown ucmp s E).
Proof.
  apply sorted_keys_of_lookup. intros a b x y Hab Ha Hb. rewrite shown_lookup in Ha. rewrite shown_lookup in Hb.
  destruct (live_positions ucmp s E !! a) as [i|] eqn:Ei; [|done]. destruct (live_positions ucmp s E !! b) as [j|] eqn:Ej; [|done]. cbn in Ha, Hb.
  destruct (E !! i) as [e|] eqn:He; [|done]. destruct (E !! j) as [f|] eqn:Hf; [|done]. injection Ha as <-. injection Hb as <-. cbn.
  apply (live_order ucmp s E a b i j Ei Ej) in Hab. pose proof (index_live ucmp s E a i Ei) as (e' & He' & Hes & _). assert (e' = e) as -> by congruence.
  pose proof (index_live ucmp s E b j Ej) as (f' & Hf' & _ & _ & Hn). assert (f' = f) as -> by congruence. specialize (Hn i e Hab He Hes).
  pose proof (ikey_lt_seq ucmp e f (Hseq e ltac:(by eapply list_elem_of_lookup_2)) (Hseq f ltac:(by eapply list_elem_of_lookup_2)) (entry_order i j e f He Hf Hab)) as [Hle _].
  by destruct (Compare ucmp (e_key e) (e_key f)).
Qed.

End Shown.
