(* ===== verification/VersionIter.v ===== *)
(** * Iterators over the files of a version: the iterator parts of
    db/version_set.cpp

    [LevelFileNumIterator] walks through the files of a level, keyed by the
    largest key of each; as the index of a two-level iterator whose blocks are
    the tables, opened when they are reached, it gives one iterator for a level
    of disjoint files. [AddIterators] collects these and one iterator for every
    file of level 0, which may overlap. *)

From S2P Require Import Prelude Coding Status Comparator Dbformat Env Filename VersionEdit MemTable Version Iterator World TwoLevel Merger Block Format TableBuilder Cache Table TableWrite TableFile TableRead TableCache TableIter.

(** ** LevelFileNumIterator *)

Record LevelFileNumIterator := mkLevelFileNum {
  lf_flist : list FileMetaData;
  lf_index : Z
}.

Section LevelFileNum.
Context (ucmp : Comparator).

Definition new_LevelFileNumIterator (flist : list FileMetaData) : LevelFileNumIterator := mkLevelFileNum flist (u32 (zlen flist)).

Definition LevelFileNum_Valid (l : LevelFileNumIterator) : bool := lf_index l <? zlen (lf_flist l).

Definition LevelFileNum_Seek (target : bytes) (l : LevelFileNumIterator) : option LevelFileNumIterator :=
  i ← FindFile ucmp (lf_flist l) target; Some (mkLevelFileNum (lf_flist l) i).

Definition LevelFileNum_SeekToLast (l : LevelFileNumIterator) : LevelFileNumIterator :=
  mkLevelFileNum (lf_flist l) (match lf_flist l with [] => 0 | _ => u32 (zlen (lf_flist l) - 1) end).

Definition LevelFileNum_Next (l : LevelFileNumIterator) : option LevelFileNumIterator :=
  if LevelFileNum_Valid l then Some (mkLevelFileNum (lf_flist l) (u32 (lf_index l + 1))) else None.

Definition LevelFileNum_Prev (l : LevelFileNumIterator) : option LevelFileNumIterator :=
  if LevelFileNum_Valid l then
    Some (mkLevelFileNum (lf_flist l) (if lf_index l =? 0 then u32 (zlen (lf_flist l)) else u32 (lf_index l - 1)))
  else None.

Definition level_file (l : LevelFileNumIterator) : option FileMetaData :=
  if LevelFileNum_Valid l then lf_flist l !! Z.to_nat (lf_index l) else None.

Definition file_value (f : FileMetaData) : bytes := EncodeFixed64 (number f) ++ EncodeFixed64 (file_size f).

Definition LevelFileNum : Iterator LevelFileNumIterator := {|
  it_Valid := LevelFileNum_Valid;
  it_SeekToFirst := fun l => Some (mkLevelFileNum (lf_flist l) 0);
  it_SeekToLast := fun l => Some (LevelFileNum_SeekToLast l);
  it_Seek := LevelFileNum_Seek;
  it_Next := LevelFileNum_Next;
  it_Prev := LevelFileNum_Prev;
  it_key := fun l => largest <$> level_file l;
  it_value := fun l => file_value <$> level_file l;
  it_status := fun _ => Status_OK
|}.

(** A cursor in the files of the level. *)
Definition file_entry (f : FileMetaData) : bytes * bytes := (largest f, file_value f).

Definition level_pos (fs : list FileMetaData) (l : LevelFileNumIterator) (p : option nat) : Prop :=
  lf_flist l = fs /\ match p with Some i => lf_index l = Z.of_nat i /\ (i < length fs)%nat | None => lf_index l = zlen fs end.

Lemma first_file_seek fs t : seek_pos (InternalKey_Compare ucmp) (map file_entry fs) t =
  if (first_file ucmp fs t <? length fs)%nat then Some (first_file ucmp fs t) else None.
Proof.
  induction fs as [|f fs IH]; [done|]. cbn [map seek_pos first_file file_entry fst length].
  destruct (is_lt (InternalKey_Compare ucmp (largest f) t)); [|done]. rewrite IH. change (S ?a <? S ?b)%nat with (a <? b)%nat.
  by destruct (first_file ucmp fs t <? length fs)%nat.
Qed.

Lemma first_file_le fs t : (first_file ucmp fs t <= length fs)%nat.
Proof. induction fs as [|f fs IH]; cbn; [lia|]. destruct (is_lt _); lia. Qed.

Lemma LevelFileNum_spec fs : TotalCmp (Compare ucmp) -> level_ok ucmp fs -> zlen fs < 2 ^ 31 ->
  IteratorSpec LevelFileNum (InternalKey_Compare ucmp) (map file_entry fs) (level_pos fs).
Proof.
  intros Hc Hok Hsz.
  assert (Hat : forall l i, level_pos fs l (Some i) -> LevelFileNum_Valid l = true /\ level_file l = fs !! i).
  { intros l i (E & Ei & Hi). assert (Hv : LevelFileNum_Valid l = true) by (unfold LevelFileNum_Valid; rewrite E, Ei; apply Z.ltb_lt; unfold zlen; lia).
    split; [done|]. unfold level_file. by rewrite Hv, E, Ei, Nat2Z.id. }
  split; cbn [LevelFileNum it_Valid it_SeekToFirst it_SeekToLast it_Seek it_Next it_Prev it_key it_value it_status].
  - intros l [i|] Hp; [by apply Hat in Hp as [-> _]|]. destruct Hp as [E Ei]. unfold LevelFileNum_Valid. rewrite E, Ei. by rewrite Z.ltb_irrefl.
  - intros l i (_ & _ & Hi). by rewrite length_map.
  - intros l i e Hp He. rewrite list_lookup_fmap in He. apply Hat in Hp as [_ ->]. destruct (fs !! i); [|done]. by injection He as <-.
  - intros l i e Hp He. rewrite list_lookup_fmap in He. apply Hat in Hp as [_ ->]. destruct (fs !! i); [|done]. by injection He as <-.
  - intros l p [E _]. eexists. split; [done|]. split; [done|]. rewrite first_pos_0, length_map. cbn [lf_index]. destruct (Nat.ltb_spec 0 (length fs)); [split; [done|lia]|].
    cbn. unfold zlen. lia.
  - intros l p [E _]. eexists. split; [done|]. unfold LevelFileNum_SeekToLast. rewrite E. split; [done|]. destruct fs as [|f fs]; [done|].
    cbn [map last_pos lf_index]. rewrite u32_small by (unfold zlen in *; cbn in *; lia). unfold zlen. cbn [length]. rewrite length_map. lia.
  - intros l p t _ [E _]. unfold LevelFileNum_Seek. rewrite E, (FindFile_first ucmp fs t Hok Hsz). cbn [mbind option_bind]. eexists. split; [done|].
    split; [done|]. rewrite first_file_seek. cbn [lf_index]. destruct (Nat.ltb_spec (first_file ucmp fs t) (length fs)) as [H|H]; [done|].
    pose proof (first_file_le fs t). unfold zlen. lia.
  - intros l i Hp. destruct (Hat l i Hp) as [Hv _]. destruct Hp as (E & Ei & Hi). unfold LevelFileNum_Next. rewrite Hv. eexists. split; [done|].
    split; [done|]. unfold next_pos. rewrite length_map. cbn [lf_index]. rewrite Ei, u32_small by (unfold zlen in *; lia).
    destruct (Nat.ltb_spec (S i) (length fs)); [lia|unfold zlen; lia].
  - intros l i Hp. destruct (Hat l i Hp) as [Hv _]. destruct Hp as (E & Ei & Hi). unfold LevelFileNum_Prev. rewrite Hv. eexists. split; [done|].
    split; [done|]. cbn [lf_index]. rewrite E, Ei. destruct i as [|i]; cbn [prev_pos].
    + rewrite Z.eqb_refl. apply u32_small. unfold zlen in *. lia.
    + rewrite (proj2 (Z.eqb_neq (Z.of_nat (S i)) 0)) by lia. rewrite u32_small by (unfold zlen in *; lia). lia.
  - done.
Qed.

End LevelFileNum.

(** ** The iterators of a version *)

Section Defs.
Context (snappy : Snappy) {C H : Type} (bcache : Cache C H Block) {CT HT : Type} (tcache : Cache CT HT Table).
Context (dbname : bytes) (opts : TableOptions) (paranoid_checks : bool).
Context (NewRandomAccessFile : bytes -> Status * option RandomAccessFile).
Context (ucmp : Comparator) (options : ReadOptions) (fuel : nat).

Abbreviation G := (Caches C CT).
Abbreviation TableState := ((Status * unit) + TwoLevelIterator ((Status + BlockIter) * unit) ((Status + BlockIter) * option H) (TableArg (HT := HT)))%type.

Definition GetFileIterator (file_value : bytes) : M G TableState :=
  if negb (zlen file_value =? 16) then mret (inl (NewErrorIterator (Corruption (lit "FileReader invoked with unexpected value")), ()))
  else TableCache_NewIterator snappy bcache tcache dbname opts paranoid_checks NewRandomAccessFile
         (DecodeFixed64 file_value) (DecodeFixed64 (drop 8 file_value)).

Abbreviation LevelState := (TwoLevelIterator (LevelFileNumIterator * unit) TableState unit).

Definition LevelIndex : IteratorM G (LevelFileNumIterator * unit) := PureIterator (LevelFileNum ucmp) (fun _ => mret ()).
Definition TableIteratorOf : IteratorM G TableState := AnyTableIterator snappy bcache tcache opts options fuel.

Definition ConcatenatingIterator : IteratorM G LevelState :=
  NewTwoLevelIterator LevelIndex TableIteratorOf (fun _ => GetFileIterator) (fun _ => mret ()) fuel.

Definition NewConcatenatingIterator (v : Version) (level : nat) : option LevelState :=
  new_TwoLevelIterator LevelIndex (new_LevelFileNumIterator (level_files v level), ()) ().

(** One of the two kinds of iterator a version consists of. *)
Definition VersionIterator : IteratorM G (TableState + LevelState) := SumIteratorM TableIteratorOf ConcatenatingIterator.

Fixpoint add_files (files : list FileMetaData) : M G (list (TableState + LevelState)) :=
  match files with
  | [] => mret []
  | f :: files =>
      s ← TableCache_NewIterator snappy bcache tcache dbname opts paranoid_checks NewRandomAccessFile (number f) (file_size f);
      rest ← add_files files;
      mret (inl s :: rest)
  end.

Fixpoint add_levels (v : Version) (levels : list nat) : option (list (TableState + LevelState)) :=
  match levels with
  | [] => Some []
  | level :: levels =>
      rest ← add_levels v levels;
      match level_files v level with
      | [] => Some rest
      | _ => s ← NewConcatenatingIterator v level; Some (inr s :: rest)
      end
  end.

(** The iterators go behind those of the list, whose kinds [inj] extends. *)
Definition AddIterators {A} (inj : TableState + LevelState -> A) (v : Version) (iters : list A) : M G (list A) :=
  zero ← add_files (level_files v 0);
  deep ← lift (add_levels v (seq 1 (kNumLevels - 1)));
  mret (iters ++ map inj (zero ++ deep)).

End Defs.

(** ** What they iterate over *)

Section Spec.
Context (snappy : Snappy) {C H : Type} (bcache : Cache C H Block) {CT HT : Type} (tcache : Cache CT HT Table).
Context (dbname : bytes) (opts : TableOptions) (paranoid_checks : bool).
Context (NewRandomAccessFile : bytes -> Status * option RandomAccessFile).
Context (bcinv : C -> gmap bytes Block -> list (H * Block) -> Z -> Prop) `{!CacheLaws bcache bcinv}.
Context (tcinv : CT -> gmap bytes Table -> list (HT * Table) -> Z -> Prop) `{!CacheLaws tcache tcinv}.
Context (ucmp : Comparator) `{!ComparatorLaws ucmp} (Hcmp : o_comparator opts = InternalKeyComparator ucmp).
Context (files : gmap Z (bytes * list Part)) (Hfiles : files_ok snappy dbname opts NewRandomAccessFile files).
Context (ro : ReadOptions) (fuel : nat) (Hfuel : forall num F parts, files !! num = Some (F, parts) -> (length parts <= fuel)%nat).
Context (content : FileMetaData -> list Entry).

Abbreviation G := (Caches C CT).
Abbreviation ginv := (ginv snappy opts bcinv tcinv files).
Abbreviation icmp := (InternalKey_Compare ucmp).
Abbreviation TableState := ((Status * unit) + TwoLevelIterator ((Status + BlockIter) * unit) ((Status + BlockIter) * option H) (TableArg (HT := HT)))%type.
Abbreviation LevelState := (TwoLevelIterator (LevelFileNumIterator * unit) TableState unit).

(** An iterator of the table of a file. *)
Definition file_pos (f : FileMetaData) (s : TableState) (l : list (Held H HT)) (p : option nat) : Prop :=
  exists z, files !! number f = Some z /\ any_table_pos snappy opts z.1 z.2 s l p.

#[local] Instance opts_laws : ComparatorLaws (o_comparator opts).
Proof. rewrite Hcmp. apply _. Qed.

Lemma file_pos_spec f : stored_in files content f ->
  IteratorMSpec ginv small_target (TableIteratorOf snappy bcache tcache opts ro (S fuel)) icmp (map kv (content f)) 0 (file_pos f).
Proof.
  intros (F & parts & Hf & _ & Hes). apply (IteratorMSpec_exists ginv small_target (TableIteratorOf snappy bcache tcache opts ro (S fuel)) icmp _ 0
    (fun z => files !! number f = Some z) (fun z => any_table_pos snappy opts z.1 z.2)).
  intros [F' parts'] Hz. rewrite Hf in Hz. injection Hz as <- <-. cbn [fst snd]. rewrite <- Hes.
  replace icmp with (Compare (o_comparator opts)) by (by rewrite Hcmp). apply AnyTableIterator_spec; [apply _..|]. by apply (Hfuel (number f) F).
Qed.

Lemma open_file_spec f : stored_in files content f ->
  triple ginv 1 [] (TableCache_NewIterator snappy bcache tcache dbname opts paranoid_checks NewRandomAccessFile (number f) (file_size f))
    (fun s l => file_pos f s l None).
Proof.
  intros (F & parts & Hf & Hsz & _). rewrite Hsz. eapply (triple_mono ginv); [by apply (TableCache_NewIterator_spec snappy bcache tcache dbname opts
    paranoid_checks NewRandomAccessFile bcinv tcinv files (number f) F parts)|done|]. intros s l Hs. by exists (F, parts).
Qed.

Lemma GetFileIterator_spec f : stored_in files content f -> fits 64 (file_size f) ->
  triple ginv 1 [] (GetFileIterator snappy bcache tcache dbname opts paranoid_checks NewRandomAccessFile (file_value f)) (fun s l => file_pos f s l None).
Proof.
  intros Hst Hsz. assert (Hnum : fits 64 (number f)) by (destruct Hst as (F & parts & Hf & _); by apply (Hfiles (number f) F parts)).
  unfold GetFileIterator, file_value. rewrite zlen_app. unfold zlen at 1 2. rewrite !EncodeFixed64_length. cbn [negb Z.eqb].
  rewrite drop_app_length' by (by rewrite EncodeFixed64_length). rewrite DecodeFixed64_app, DecodeFixed64_encode, !u64_small by done. by apply open_file_spec.
Qed.

(** ** A level of disjoint files *)

Section Level.
Context (fs : list FileMetaData) (Hok : level_ok ucmp fs) (Hsz : zlen fs < 2 ^ 31) (Hnum : NoDup (map number fs)) (Hfs : (length fs <= fuel)%nat).
Context (Hst : forall f, f ∈ fs -> stored_in files content f /\ content_ok ucmp content f /\ fits 64 (file_size f)).

Definition level_index_pos (s : LevelFileNumIterator * unit) (l : list (Held H HT)) (p : option nat) : Prop := level_pos fs s.1 p /\ l = [].

Definition level_data_pos (j : nat) (s : TableState) (l : list (Held H HT)) (p : option nat) : Prop :=
  exists f, fs !! j = Some f /\ file_pos f s l p.

Lemma LevelIndex_spec : IteratorMSpec ginv small_target (LevelIndex ucmp) icmp (map file_entry fs) 0 level_index_pos.
Proof.
  apply (PureIterator_spec ginv (LevelFileNum ucmp) (fun _ : unit => mret ()) small_target (fun _ => True) icmp (map file_entry fs) (level_pos fs) (fun _ l => l = [])).
  - done.
  - by apply LevelFileNum_spec; [apply _|..].
  - intros [] l ->. by apply (triple_ret ginv).
Qed.

Lemma level_numbers : NoDup (map file_entry fs).*2.
Proof.
  apply NoDup_alt. intros a b x Ha Hb. rewrite !list_lookup_fmap in Ha. rewrite !list_lookup_fmap in Hb.
  destruct (fs !! a) as [f|] eqn:Ea; [|done]. destruct (fs !! b) as [g|] eqn:Eb; [|done].
  change (Some (file_value f) = Some x) in Ha. change (Some (file_value g) = Some x) in Hb.
  assert (E : file_value f = file_value g) by congruence. apply (f_equal DecodeFixed64) in E. unfold file_value in E. rewrite !DecodeFixed64_app in E.
  assert (Hn : forall f, f ∈ fs -> fits 64 (number f)).
  { intros h Hh. destruct (Hst h Hh) as [(F & parts & Hf & _) _]. by apply (Hfiles (number h) F parts). }
  rewrite !u64_small in E by (apply Hn; by eapply list_elem_of_lookup_2).
  apply (NoDup_lookup _ a b (number f) Hnum); rewrite list_lookup_fmap; [by rewrite Ea|by rewrite Eb, E].
Qed.

Lemma level_disjoint i j f g e : (i < j)%nat -> fs !! i = Some f -> fs !! j = Some g -> e ∈ content g -> icmp (largest f) (e_ikey e) = Lt.
Proof.
  intros Hij Hf Hg He. destruct (Hst g ltac:(by eapply list_elem_of_lookup_2)) as (_ & (_ & _ & Hin & _) & _). destruct (Hin e He) as [Hlo _].
  apply (cmp_lt_le_trans icmp _ (smallest g)); [|done]. destruct Hok as [Hs _]. clear -Hs Hij Hf Hg. revert i j Hij Hf Hg.
  induction Hs as [|h fs Hs IH Hall]; intros i j Hij Hf Hg; [done|]. destruct i as [|i], j as [|j]; try lia; cbn in Hf, Hg.
  - injection Hf as ->. rewrite Forall_forall in Hall. apply Hall. by eapply list_elem_of_lookup_2.
  - by apply (IH i j); [lia|..].
Qed.

Abbreviation level_blocks := (map (fun f => map kv (content f)) fs).

Definition level_iter_pos : LevelState -> list (Held H HT) -> option nat -> Prop :=
  tpos (map file_entry fs) level_blocks level_index_pos level_data_pos (fun _ l => l = []) ().

Lemma level_entries_concat : concat level_blocks = map kv (concat (map content fs)).
Proof. clear. induction fs as [|f l IH]; [done|]. cbn [map concat]. by rewrite IH, map_app. Qed.

Lemma Concatenating_spec : IteratorMSpec ginv small_target (ConcatenatingIterator snappy bcache tcache dbname opts paranoid_checks NewRandomAccessFile ucmp ro (S fuel))
  icmp (map kv (concat (map content fs))) (length fs + 4) level_iter_pos.
Proof.
  rewrite <- level_entries_concat. replace (length fs + 4)%nat with (op_cost (map file_entry fs) 0 0 1) by (unfold op_cost, step_cost; rewrite length_map; lia).
  apply (TwoLevel_spec ginv); rewrite ?length_map; try done; [apply _|..].
  - exact LevelIndex_spec.
  - intros j es Hj. rewrite list_lookup_fmap in Hj. destruct (fs !! j) as [f|] eqn:Ef; [|done]. injection Hj as <-.
    apply (IteratorMSpec_exists ginv small_target (TableIteratorOf snappy bcache tcache opts ro (S fuel)) icmp (map kv (content f)) 0
      (fun g => fs !! j = Some g) (fun g => file_pos g)). intros g Hg. assert (g = f) as -> by congruence.
    apply file_pos_spec. apply Hst. by eapply list_elem_of_lookup_2.
  - intros j e l He ->. rewrite list_lookup_fmap in He. destruct (fs !! j) as [f|] eqn:Ef; [|done]. injection He as <-. cbn [snd file_entry].
    destruct (Hst f ltac:(by eapply list_elem_of_lookup_2)) as (Hs & _ & Hfit).
    eapply (triple_mono ginv); [by apply (GetFileIterator_spec f)|done|]. intros s l Hl. exists l, []. rewrite app_nil_r. split; [done|]. split; [done|]. by exists f.
  - intros l ->. by apply (triple_ret ginv).
  - exact level_numbers.
  - intros j es e Hj He s Hs. rewrite list_lookup_fmap in Hj. rewrite list_lookup_fmap in Hs. destruct (fs !! j) as [f|] eqn:Ef; [|done].
    injection Hj as <-. injection Hs as <-. apply list_elem_of_fmap in He as (x & -> & Hx). cbn [fst file_entry kv].
    destruct (Hst f ltac:(by eapply list_elem_of_lookup_2)) as (_ & (_ & _ & Hin & _) & _). by apply Hin.
  - intros i j es e Hij Hj He s Hs. rewrite list_lookup_fmap in Hj. rewrite list_lookup_fmap in Hs. destruct (fs !! j) as [g|] eqn:Eg; [|done].
    destruct (fs !! i) as [f|] eqn:Ef; [|done]. injection Hj as <-. injection Hs as <-. apply list_elem_of_fmap in He as (x & -> & Hx).
    by apply (level_disjoint i j f g).
Qed.

Lemma NewConcatenatingIterator_spec v level : level_files v level = fs ->
  exists s, NewConcatenatingIterator (C := C) (CT := CT) (H := H) (HT := HT) ucmp v level = Some s /\ level_iter_pos s [] None.
Proof.
  intros Hv. pose proof LevelIndex_spec. unfold NewConcatenatingIterator. rewrite Hv.
  apply (new_TwoLevel_spec ginv (LevelIndex ucmp) small_target icmp (map file_entry fs) level_blocks 0 level_index_pos level_data_pos (fun _ l => l = []) ()
    (new_LevelFileNumIterator fs, ()) [] []); [|done]. split; [|done]. split; [done|]. cbn. apply u32_small. pose proof (zlen_nonneg fs). split; lia.
Qed.

End Level.

(** ** A version *)

Context (v : Version) (Hv : version_ok ucmp v).
Context (Hnums : forall level, NoDup (map number (level_files v level))) (Hlevels : forall level, (length (level_files v level) <= fuel)%nat).
Context (Hstored : forall level f, f ∈ level_files v level -> stored_in files content f /\ content_ok ucmp content f /\ fits 64 (file_size f)).

Abbreviation Child := (entries * (TableState + LevelState -> list (Held H HT) -> option nat -> Prop))%type.

Definition file_child (f : FileMetaData) : Child := (map kv (content f), mpos_inl (file_pos f)).
Definition level_child (level : nat) : Child :=
  (map kv (level_entries content v level), mpos_inr (level_iter_pos (level_files v level))).

Definition level_children (level : nat) : list Child := match level_files v level with [] => [] | _ => [level_child level] end.

Definition version_children : list Child := map file_child (level_files v 0) ++ concat (map level_children (seq 1 (kNumLevels - 1))).

(** Every operation of such an iterator opens at most this many tables. *)
Definition version_cost : nat := (fuel + 4)%nat.

Lemma content_sorted f : content_ok ucmp content f -> sorted_keys icmp (map kv (content f)).
Proof.
  intros (_ & Hs & _). induction Hs as [|e es Hs IH Hall]; cbn; constructor; [done|]. apply Forall_forall. intros x Hx.
  apply list_elem_of_fmap in Hx as (y & -> & Hy). rewrite Forall_forall in Hall. by apply Hall.
Qed.

Lemma level_sorted level : level <> 0%nat -> sorted_keys icmp (map kv (level_entries content v level)).
Proof.
  intros Hl. destruct Hv as (_ & _ & _ & Hlv). specialize (Hlv level Hl). unfold level_entries.
  assert (Hst : forall f, f ∈ level_files v level -> stored_in files content f /\ content_ok ucmp content f /\ fits 64 (file_size f)) by (apply Hstored).
  revert Hlv Hst. generalize (level_files v level) as fs. induction fs as [|f fs IH]; intros Hlv Hst; [constructor|].
  cbn [map concat]. rewrite map_app. apply sorted_keys_app.
  - apply content_sorted, Hst. by left.
  - apply IH; [|intros g Hg; apply Hst; by right]. destruct Hlv as [Hs Hf]. apply StronglySorted_inv in Hs as [Hs _].
    apply Forall_cons in Hf as [_ Hf]. by split.
  - intros a b Ha Hb. apply list_elem_of_fmap in Ha as (x & -> & Hx). apply list_elem_of_fmap in Hb as (y & -> & Hy). cbn.
    apply list_elem_of_In, in_concat in Hy as (es & Hes & Hy). apply list_elem_of_In, list_elem_of_fmap in Hes as (g & -> & Hg).
    apply list_elem_of_In in Hy. apply list_elem_of_lookup in Hg as [j Hj]. destruct (Hst f ltac:(by left)) as (_ & (_ & _ & Hin & _) & _).
    apply (cmp_le_lt_trans icmp _ (largest f)); [by apply Hin|]. by apply (level_disjoint (f :: fs) Hlv Hst 0 (S j) f g); [lia|..].
Qed.

Abbreviation viter := (VersionIterator snappy bcache tcache dbname opts paranoid_checks NewRandomAccessFile ucmp ro (S fuel)).

Lemma file_child_spec f : f ∈ level_files v 0 -> sorted_keys icmp (file_child f).1 /\ IteratorMSpec ginv small_target viter icmp (file_child f).1 version_cost (file_child f).2.
Proof.
  intros Hf. destruct (Hstored 0 f Hf) as (Hst & Hc & _). split; [by apply content_sorted|].
  apply (IteratorMSpec_cost ginv _ _ _ _ 0); [unfold version_cost; lia|]. by apply (SumIteratorM_inl ginv), file_pos_spec.
Qed.

Lemma level_child_spec level : level <> 0%nat ->
  sorted_keys icmp (level_child level).1 /\ IteratorMSpec ginv small_target viter icmp (level_child level).1 version_cost (level_child level).2.
Proof.
  intros Hl. split; [by apply level_sorted|]. apply (IteratorMSpec_cost ginv _ _ _ _ (length (level_files v level) + 4)).
  - unfold version_cost. pose proof (Hlevels level). lia.
  - apply (SumIteratorM_inr ginv). destruct Hv as (_ & Hsz & _ & Hlv). by apply Concatenating_spec; [apply Hlv| | | |apply Hstored].
Qed.

Lemma version_children_spec c : c ∈ version_children -> sorted_keys icmp c.1 /\ IteratorMSpec ginv small_target viter icmp c.1 version_cost c.2.
Proof.
  intros [Hc|Hc]%elem_of_app.
  - apply list_elem_of_fmap in Hc as (f & -> & Hf). by apply file_child_spec.
  - apply list_elem_of_In, in_concat in Hc as (cs & Hcs & Hc). apply list_elem_of_In, list_elem_of_fmap in Hcs as (level & -> & Hlev).
    apply elem_of_seq in Hlev. apply list_elem_of_In in Hc. unfold level_children in Hc. destruct (level_files v level); [by apply elem_of_nil in Hc|].
    apply list_elem_of_singleton in Hc as ->. apply level_child_spec. lia.
Qed.

(** Together they hold the entries of the version. *)
Lemma version_children_entries : concat (map fst version_children) = map kv (version_entries content v).
Proof.
  unfold version_children, version_entries. change (seq 0 kNumLevels) with (0%nat :: seq 1 (kNumLevels - 1)). cbn [map concat].
  rewrite map_app, concat_app, map_app. f_equal.
  - unfold level_entries. induction (level_files v 0) as [|f fs IH]; [done|]. cbn [map concat file_child fst]. by rewrite IH, map_app.
  - induction (seq 1 (kNumLevels - 1)) as [|level l IH]; [done|]. cbn [map concat]. rewrite map_app, concat_app, IH, map_app. f_equal.
    unfold level_children. destruct (level_files v level) eqn:E; [unfold level_entries; by rewrite E|]. cbn. by rewrite app_nil_r.
Qed.

Lemma add_files_spec fs : (forall f, f ∈ fs -> stored_in files content f) ->
  triple ginv (length fs) [] (add_files snappy bcache tcache dbname opts paranoid_checks NewRandomAccessFile fs)
    (fun ss L => described (map file_child fs) ss L).
Proof.
  induction fs as [|f fs IH]; intros Hst; cbn [add_files length]; [by apply (triple_ret ginv)|].
  apply (triple_seq ginv _ 1 (length fs) _ _ _ _ _ (open_file_spec f (Hst f ltac:(by left)))); [|lia]. intros s l Hs. cbn beta in Hs.
  assert (Hr := IH ltac:(intros g Hg; apply Hst; by right)). rewrite <- (app_nil_r l).
  apply (triple_seq ginv _ (length fs) 0 _ _ _ _ _ (triple_frame_l ginv _ _ l _ _ Hr)); [|lia]. intros ss L (L1 & HL & Hd).
  apply (triple_ret ginv). by exists l, L1, None.
Qed.

Lemma add_levels_spec levels : (forall level, level ∈ levels -> level <> 0%nat) ->
  exists ss, add_levels (C := C) (CT := CT) ucmp v levels = Some ss /\ described (concat (map level_children levels)) ss [].
Proof.
  induction levels as [|level levels IH]; intros Hl; [by exists []|]. cbn [add_levels map concat].
  destruct IH as (ss & -> & Hd); [intros x Hx; apply Hl; by right|]. cbn [mbind option_bind]. unfold level_children at 1.
  destruct (level_files v level) as [|f fs] eqn:E; [by exists ss|]. destruct Hv as (_ & Hsz & _ & Hlv).
  destruct (NewConcatenatingIterator_spec (level_files v level) (Hlv level (Hl level ltac:(by left))) (Hsz level) (Hlevels level) v level eq_refl) as (s & -> & Hs).
  cbn [mbind option_bind]. exists (inr s :: ss). split; [done|]. by exists [], [], None.
Qed.

Lemma AddIterators_spec {A} (inj : TableState + LevelState -> A) (child : Child -> entries * (A -> list (Held H HT) -> option nat -> Prop)) iters cs L0 :
  (forall c s l p, c.2 s l p -> (child c).2 (inj s) l p) -> described cs iters L0 ->
  triple ginv (length (level_files v 0)) L0 (AddIterators snappy bcache tcache dbname opts paranoid_checks NewRandomAccessFile ucmp inj v iters)
    (fun ss L => described (cs ++ map child version_children) ss L).
Proof.
  intros Hchild Hd0. unfold AddIterators. rewrite <- (app_nil_r L0).
  apply (triple_seq ginv _ (length (level_files v 0)) 0 _ _ _ _ _ (triple_frame_l ginv _ _ L0 _ _
    (add_files_spec (level_files v 0) (fun f Hf => proj1 (Hstored 0 f Hf))))); [|lia]. intros zero l (L1 & HL & Hd1).
  destruct (add_levels_spec (seq 1 (kNumLevels - 1))) as (deep & E & Hd2); [intros x Hx; apply elem_of_seq in Hx; lia|].
  apply (triple_let ginv _ _ _ deep _ _ E). apply (triple_perm ginv _ (L0 ++ L1)); [by symmetry|]. apply (triple_ret ginv).
  apply described_app; [done|]. apply (described_map child inj); [done|]. rewrite <- (app_nil_r L1). by apply described_app.
Qed.

End Spec.
