(* ===== verification/DB.v ===== *)
(** * The database object: the state of DBImpl, snapshots and references

    [DBImpl] of db/db_impl.h. What the mutex protects is one record; the
    operations of the other files transform it. Reference counts of memtables
    only decide when memory is freed and are not modelled; those of versions
    decide which files are live, and are: [pins_ok] says that the counts are the
    references given out. *)

From S2P Require Import Prelude Coding Status Comparator Dbformat MemTable VersionEdit Version VersionSet Snapshot World.

(** [DBImpl::ManualCompaction]; the end points are internal keys. *)
Record ManualCompaction := mkManual {
  mc_level : nat;
  mc_done : bool;
  mc_begin : option bytes;
  mc_end : option bytes
}.

Record CompactionStats := mkCStats { cs_micros : Z; cs_bytes_read : Z; cs_bytes_written : Z }.

Definition CompactionStats_Add (c s : CompactionStats) : CompactionStats :=
  mkCStats (cs_micros s + cs_micros c) (cs_bytes_read s + cs_bytes_read c) (cs_bytes_written s + cs_bytes_written c).

(** [has_imm_] is set exactly when [imm_] is; the writers waiting are those of
    [DBWrite]. *)
Record DBImpl := mkDB {
  db_shutting_down : bool;
  db_mem : MemTable;
  db_imm : option MemTable;
  db_logfile_number : Z;
  db_seed : Z;
  db_tmp_batch : bytes;
  db_snapshots : SnapshotList;
  db_pending_outputs : gset Z;
  db_scheduled : bool;
  db_manual : option ManualCompaction;
  db_versions : VersionSet;
  db_bg_error : Status;
  db_stats : list CompactionStats
}.

Definition db_set_mem (mem : MemTable) (imm : option MemTable) (db : DBImpl) : DBImpl :=
  mkDB (db_shutting_down db) mem imm (db_logfile_number db) (db_seed db) (db_tmp_batch db) (db_snapshots db)
    (db_pending_outputs db) (db_scheduled db) (db_manual db) (db_versions db) (db_bg_error db) (db_stats db).
Definition db_set_logfile (n : Z) (db : DBImpl) : DBImpl :=
  mkDB (db_shutting_down db) (db_mem db) (db_imm db) n (db_seed db) (db_tmp_batch db) (db_snapshots db)
    (db_pending_outputs db) (db_scheduled db) (db_manual db) (db_versions db) (db_bg_error db) (db_stats db).
Definition db_set_seed (seed : Z) (db : DBImpl) : DBImpl :=
  mkDB (db_shutting_down db) (db_mem db) (db_imm db) (db_logfile_number db) seed (db_tmp_batch db) (db_snapshots db)
    (db_pending_outputs db) (db_scheduled db) (db_manual db) (db_versions db) (db_bg_error db) (db_stats db).
Definition db_set_snapshots (l : SnapshotList) (db : DBImpl) : DBImpl :=
  mkDB (db_shutting_down db) (db_mem db) (db_imm db) (db_logfile_number db) (db_seed db) (db_tmp_batch db) l
    (db_pending_outputs db) (db_scheduled db) (db_manual db) (db_versions db) (db_bg_error db) (db_stats db).
Definition db_set_pending (p : gset Z) (db : DBImpl) : DBImpl :=
  mkDB (db_shutting_down db) (db_mem db) (db_imm db) (db_logfile_number db) (db_seed db) (db_tmp_batch db) (db_snapshots db)
    p (db_scheduled db) (db_manual db) (db_versions db) (db_bg_error db) (db_stats db).
Definition db_set_scheduled (b : bool) (db : DBImpl) : DBImpl :=
  mkDB (db_shutting_down db) (db_mem db) (db_imm db) (db_logfile_number db) (db_seed db) (db_tmp_batch db) (db_snapshots db)
    (db_pending_outputs db) b (db_manual db) (db_versions db) (db_bg_error db) (db_stats db).
Definition db_set_manual (m : option ManualCompaction) (db : DBImpl) : DBImpl :=
  mkDB (db_shutting_down db) (db_mem db) (db_imm db) (db_logfile_number db) (db_seed db) (db_tmp_batch db) (db_snapshots db)
    (db_pending_outputs db) (db_scheduled db) m (db_versions db) (db_bg_error db) (db_stats db).
Definition db_set_versions (vs : VersionSet) (db : DBImpl) : DBImpl :=
  mkDB (db_shutting_down db) (db_mem db) (db_imm db) (db_logfile_number db) (db_seed db) (db_tmp_batch db) (db_snapshots db)
    (db_pending_outputs db) (db_scheduled db) (db_manual db) vs (db_bg_error db) (db_stats db).
Definition db_set_error (s : Status) (db : DBImpl) : DBImpl :=
  mkDB (db_shutting_down db) (db_mem db) (db_imm db) (db_logfile_number db) (db_seed db) (db_tmp_batch db) (db_snapshots db)
    (db_pending_outputs db) (db_scheduled db) (db_manual db) (db_versions db) s (db_stats db).
Definition db_set_tmp_batch (b : bytes) (db : DBImpl) : DBImpl :=
  mkDB (db_shutting_down db) (db_mem db) (db_imm db) (db_logfile_number db) (db_seed db) b (db_snapshots db)
    (db_pending_outputs db) (db_scheduled db) (db_manual db) (db_versions db) (db_bg_error db) (db_stats db).
Definition db_add_stats (level : nat) (c : CompactionStats) (db : DBImpl) : DBImpl :=
  mkDB (db_shutting_down db) (db_mem db) (db_imm db) (db_logfile_number db) (db_seed db) (db_tmp_batch db) (db_snapshots db)
    (db_pending_outputs db) (db_scheduled db) (db_manual db) (db_versions db) (db_bg_error db)
    (alter (CompactionStats_Add c) level (db_stats db)).

(** ** Background errors and scheduling *)

(** Waking the waiting threads is part of the steps of [DBWrite]. *)
Definition RecordBackgroundError (s : Status) (db : DBImpl) : DBImpl :=
  if ok (db_bg_error db) then db_set_error s db else db.

(** [env_->Schedule] queues a [BackgroundCall]: [db_scheduled]. *)
Definition MaybeScheduleCompaction (db : DBImpl) : DBImpl :=
  if db_scheduled db then db
  else if db_shutting_down db then db
  else if negb (ok (db_bg_error db)) then db
  else if bool_decide (db_imm db = None) && bool_decide (db_manual db = None) && negb (NeedsCompaction (db_versions db)) then db
  else db_set_scheduled true db.

(** ** Snapshots *)

Definition GetSnapshot (db : DBImpl) : option (nat * DBImpl) :=
  r ← snapshots_New (vs_last_sequence (db_versions db)) (db_snapshots db);
  Some (r.1, db_set_snapshots r.2 db).

Definition ReleaseSnapshot (s : nat) (db : DBImpl) : option DBImpl :=
  l ← snapshots_Delete s (db_snapshots db); Some (db_set_snapshots l db).

(** The sequence number a read uses: [options.snapshot], or the last one. *)
Definition read_sequence (snapshot : option nat) (db : DBImpl) : option Z :=
  match snapshot with
  | Some s => snapshot_number s (db_snapshots db)
  | None => Some (vs_last_sequence (db_versions db))
  end.

(** ** References to versions *)

Definition pin_count (id : nat) (pins : list nat) : Z := zlen (filter (fun x => x = id) pins).

(** [pins]: the references given out, besides the set's own to the current
    version. *)
Record pins_ok (pins : list nat) (vs : VersionSet) : Prop := {
  po_current : vs_current_refs vs = 1 + pin_count (vs_current_id vs) pins;
  po_old : forall l, l ∈ vs_old vs -> lv_refs l = pin_count (lv_id l) pins /\ 0 < lv_refs l;
  po_ids : NoDup (map lv_id (vs_old vs));
  po_before : forall l, l ∈ vs_old vs -> (lv_id l < vs_current_id vs)%nat;
  po_live : forall id, id ∈ pins -> id = vs_current_id vs \/ id ∈ map lv_id (vs_old vs)
}.

Lemma pin_count_nonneg id pins : 0 <= pin_count id pins.
Proof. apply zlen_nonneg. Qed.

Lemma pin_count_cons id x pins : pin_count id (x :: pins) = (if decide (x = id) then 1 else 0) + pin_count id pins.
Proof.
  unfold pin_count. rewrite filter_cons. destruct (decide (x = id)); [|lia]. unfold zlen. cbn [length]. lia.
Qed.

Lemma pin_count_perm id p p' : p ≡ₚ p' -> pin_count id p = pin_count id p'.
Proof. intros Hp. unfold pin_count, zlen. by rewrite Hp. Qed.

Lemma pin_count_zero id pins : pin_count id pins <= 0 -> id ∉ pins.
Proof.
  intros H Hin. assert (Hf : id ∈ filter (fun x => x = id) pins) by (by apply list_elem_of_filter).
  unfold pin_count in H. destruct (filter (fun x => x = id) pins); [by apply elem_of_nil in Hf|]. unfold zlen in H. cbn in H. lia.
Qed.

Lemma pins_ok_perm p p' vs : p ≡ₚ p' -> pins_ok p vs -> pins_ok p' vs.
Proof.
  intros Hp [H1 H2 H3 H4 H5]. split; try done.
  - by rewrite <- (pin_count_perm _ _ _ Hp).
  - intros l Hl. rewrite <- (pin_count_perm _ _ _ Hp). by apply H2.
  - intros id Hid. apply H5. by rewrite Hp.
Qed.

(** Only the live versions count. *)
Lemma pins_ok_same pins vs vs' : vs_current_refs vs' = vs_current_refs vs -> vs_current_id vs' = vs_current_id vs ->
  vs_old vs' = vs_old vs -> pins_ok pins vs -> pins_ok pins vs'.
Proof. intros E1 E2 E3 [H1 H2 H3 H4 H5]. split; rewrite ?E1, ?E2, ?E3; done. Qed.

Lemma find_live old l : NoDup (map lv_id old) -> l ∈ old ->
  List.find (fun x => (lv_id x =? lv_id l)%nat) old = Some l.
Proof.
  induction old as [|a old IH]; [by intros _ ?%elem_of_nil|]. cbn [map]. intros [Ha Hn]%NoDup_cons [->|Hl]%elem_of_cons; cbn [List.find].
  - by rewrite Nat.eqb_refl.
  - rewrite (proj2 (Nat.eqb_neq (lv_id a) (lv_id l))); [by apply IH|]. intros E. apply Ha. rewrite E. by apply list_elem_of_fmap_2.
Qed.

(** A version someone refers to has not been deleted. *)
Lemma pinned_live pins vs id : pins_ok pins vs -> id ∈ pins ->
  exists l, live_version vs id = Some l /\ lv_id l = id /\ 0 < lv_refs l /\
    (id = vs_current_id vs /\ lv_version l = vs_current vs \/ id <> vs_current_id vs /\ l ∈ vs_old vs).
Proof.
  intros [H1 H2 H3 H4 H5] Hid. unfold live_version. destruct (Nat.eqb_spec id (vs_current_id vs)) as [->|Hne].
  - eexists. split; [done|]. split; [done|]. cbn [lv_refs lv_version]. rewrite H1. pose proof (pin_count_nonneg (vs_current_id vs) pins). split; [lia|]. by left.
  - destruct (H5 id Hid) as [?|Hin]; [done|]. apply list_elem_of_fmap in Hin as (l & -> & Hl). exists l. rewrite find_live by done.
    split; [done|]. split; [done|]. split; [by apply H2|]. by right.
Qed.

Lemma AddLiveFiles_elem vs live n : n ∈ AddLiveFiles vs live <->
  n ∈ live \/ exists v, (v = vs_current vs \/ v ∈ map lv_version (vs_old vs)) /\ n ∈ version_numbers v.
Proof.
  unfold AddLiveFiles. assert (H : forall ns live, n ∈ fold_left (fun (live : gset Z) n => {[ n ]} ∪ live) ns live <-> n ∈ live \/ n ∈ ns).
  { induction ns as [|x ns IH]; intros l; cbn [fold_left]; [set_solver|]. rewrite IH. set_solver. }
  rewrite H. apply or_iff_compat_l. rewrite list_elem_of_In, in_concat. split.
  - intros (ns & Hns & Hn). apply list_elem_of_In, list_elem_of_fmap in Hns as (v & -> & Hv). apply list_elem_of_In in Hn. exists v. split; [|done].
    apply elem_of_app in Hv as [Hv|Hv%list_elem_of_singleton]; [by right|by left].
  - intros (v & Hv & Hn). exists (version_numbers v). split; [|by apply list_elem_of_In]. apply list_elem_of_In, list_elem_of_fmap_2, elem_of_app.
    destruct Hv as [->|Hv]; [right; by left|by left].
Qed.

(** Its files are among the live ones, which are never removed. *)
Lemma pinned_files_live pins vs id l live n : pins_ok pins vs -> id ∈ pins -> live_version vs id = Some l ->
  n ∈ version_numbers (lv_version l) -> n ∈ AddLiveFiles vs live.
Proof.
  intros Hok Hid Hl Hn. destruct (pinned_live pins vs id Hok Hid) as (l' & Hl' & _ & _ & Hw). assert (l' = l) as -> by congruence.
  apply AddLiveFiles_elem. right. exists (lv_version l). split; [|done]. destruct Hw as [[_ ->]|[_ Hw]]; [by left|right; by apply list_elem_of_fmap_2].
Qed.

Lemma pins_ok_ref pins vs : pins_ok pins vs ->
  exists vs', version_Ref (vs_current_id vs) vs = Some vs' /\ pins_ok (vs_current_id vs :: pins) vs' /\
    vs' = set_live (vs_current vs) (vs_current_refs vs + 1) (vs_old vs) vs.
Proof.
  intros [H1 H2 H3 H4 H5]. unfold version_Ref, live_version. rewrite Nat.eqb_refl. cbn [mbind option_bind]. eexists. split; [done|]. split; [|done].
  split; cbn [set_live vs_current_refs vs_current_id vs_old]; try done.
  - rewrite pin_count_cons, decide_True by done. lia.
  - intros l Hl. rewrite pin_count_cons, decide_False by (apply H4 in Hl; lia). destruct (H2 l Hl). lia.
  - intros id [->|Hid]%elem_of_cons; [by left|by apply H5].
Qed.

Lemma map_live_ids id f old : (forall l, lv_id (f l) = lv_id l) -> map lv_id (map_live id f old) = map lv_id old.
Proof.
  intros Hf. unfold map_live. rewrite map_map. apply map_ext. intros l. by destruct (lv_id l =? id)%nat.
Qed.

Lemma pins_ok_unref pins vs id : pins_ok (id :: pins) vs ->
  exists vs', version_Unref id vs = Some vs' /\ pins_ok pins vs' /\ exists refs old, vs' = set_live (vs_current vs) refs old vs.
Proof.
  intros Hok. destruct (pinned_live (id :: pins) vs id Hok ltac:(by left)) as (l & Hl & Hid & Hpos & Hw). destruct Hok as [H1 H2 H3 H4 H5].
  unfold version_Unref. rewrite Hl. cbn [mbind option_bind]. destruct Hw as [[-> Hv]|[Hne Hin]].
  - rewrite Nat.eqb_refl. assert (E : lv_refs l = vs_current_refs vs) by (unfold live_version in Hl; rewrite Nat.eqb_refl in Hl; by injection Hl as <-).
    rewrite E. rewrite pin_count_cons, decide_True in H1 by done. pose proof (pin_count_nonneg (vs_current_id vs) pins).
    rewrite (proj2 (Z.leb_gt _ _)) by lia. eexists. split; [done|]. split; [|by do 2 eexists].
    split; cbn [set_live vs_current_refs vs_current_id vs_old]; try done; [lia| |].
    + intros l' Hl'. destruct (H2 l' Hl') as [Hr Hp]. rewrite pin_count_cons, decide_False in Hr by (apply H4 in Hl'; lia). lia.
    + intros i Hi. apply H5. by right.
  - rewrite (proj2 (Nat.eqb_neq id (vs_current_id vs))) by done. rewrite (proj2 (Z.ltb_ge _ _)) by lia. eexists. split; [done|]. split; [|by do 2 eexists].
    destruct (H2 l Hin) as [Hr _]. rewrite Hid, pin_count_cons, decide_True in Hr by done.
    assert (Hothers : forall x, x ∈ vs_old vs -> lv_id x <> id -> lv_refs x = pin_count (lv_id x) pins /\ 0 < lv_refs x).
    { intros x Hx Hxi. destruct (H2 x Hx) as [Ex Px]. rewrite pin_count_cons, decide_False in Ex by done. lia. }
    split; cbn [set_live vs_current_refs vs_current_id vs_old].
    + rewrite pin_count_cons, decide_False in H1 by done. lia.
    + destruct (Z.eqb_spec (lv_refs l - 1) 0) as [Ez|Ez].
      * intros x Hx. apply list_elem_of_filter in Hx as [Hxi Hx]. by apply Hothers.
      * intros x Hx. apply list_elem_of_fmap in Hx as (y & -> & Hy). destruct (Nat.eqb_spec (lv_id y) id) as [E|E]; [|by apply Hothers].
        assert (Ey : y = l) by (pose proof (find_live _ y H3 Hy) as F; rewrite E, <- Hid, (find_live _ l H3 Hin) in F; by injection F).
        subst y. cbn [lv_refs lv_id]. rewrite Hid. lia.
    + destruct (lv_refs l - 1 =? 0); [|by rewrite map_live_ids]. eapply sublist_NoDup; [exact H3|]. apply fmap_sublist, sublist_filter.
    + intros x Hx. destruct (lv_refs l - 1 =? 0); [apply list_elem_of_filter in Hx as [_ Hx]; by apply H4|].
      apply list_elem_of_fmap in Hx as (y & -> & Hy). apply H4 in Hy. by destruct (_ =? _)%nat.
    + intros i Hi. destruct (H5 i ltac:(by right)) as [->|Hold]; [by left|right]. destruct (Z.eqb_spec (lv_refs l - 1) 0) as [Ez|Ez]; [|by rewrite map_live_ids].
      apply list_elem_of_fmap in Hold as (y & -> & Hy). apply list_elem_of_fmap_2, list_elem_of_filter. split; [|done].
      intros E. rewrite E in Hi. apply (pin_count_zero id pins); [lia|done].
Qed.

(** A new version takes over; the old current one stays while it is pinned. *)
Lemma pins_ok_append pins vs v : pins_ok pins vs -> pins_ok pins (AppendVersion v vs).
Proof.
  intros [H1 H2 H3 H4 H5]. pose proof (pin_count_nonneg (vs_current_id vs) pins) as Hc.
  assert (Hnew : S (vs_current_id vs) ∉ pins).
  { intros H. destruct (H5 _ H) as [E|Hold]; [lia|]. apply list_elem_of_fmap in Hold as (l & E & Hl). apply H4 in Hl. lia. }
  assert (Hz : pin_count (S (vs_current_id vs)) pins = 0).
  { unfold pin_count. destruct (filter (fun x => x = S (vs_current_id vs)) pins) as [|x l] eqn:E; [done|]. assert (Hx : x ∈ x :: l) by (by left).
    rewrite <- E in Hx. by apply list_elem_of_filter in Hx as [-> Hx]. }
  split; cbn [AppendVersion vs_current_refs vs_current_id vs_old].
  - lia.
  - intros l Hl. destruct (Z.eqb_spec (vs_current_refs vs - 1) 0); [by apply H2|]. apply elem_of_app in Hl as [Hl| ->%list_elem_of_singleton]; [by apply H2|].
    cbn [lv_refs lv_id]. lia.
  - destruct (_ =? _); [done|]. rewrite map_app. apply NoDup_app. split; [done|]. split; [|apply NoDup_singleton].
    intros x Hx ->%list_elem_of_singleton. apply list_elem_of_fmap in Hx as (l & E & Hl). apply H4 in Hl. cbn in E. lia.
  - intros l Hl. destruct (_ =? _); [apply H4 in Hl; lia|]. apply elem_of_app in Hl as [Hl| ->%list_elem_of_singleton]; [apply H4 in Hl; lia|cbn; lia].
  - intros id Hid. right. destruct (H5 id Hid) as [->|Hold].
    + rewrite (proj2 (Z.eqb_neq _ _)); [rewrite map_app; apply elem_of_app; right; by left|]. intros E. apply (pin_count_zero (vs_current_id vs) pins); [lia|done].
    + destruct (_ =? _); [done|]. rewrite map_app. apply elem_of_app. by left.
Qed.

Lemma pins_ok_update pins vs id v : pins_ok pins vs -> pins_ok pins (update_version id v vs).
Proof.
  intros Hok. unfold update_version. destruct (Nat.eqb_spec id (vs_current_id vs)) as [->|Hne]; [by eapply pins_ok_same; [..|exact Hok]|].
  destruct Hok as [H1 H2 H3 H4 H5]. split; cbn [set_live vs_current_refs vs_current_id vs_old]; rewrite ?map_live_ids by done; try done.
  - intros l Hl. apply list_elem_of_fmap in Hl as (y & -> & Hy). apply H2 in Hy. by destruct (_ =? _)%nat.
  - intros l Hl. apply list_elem_of_fmap in Hl as (y & -> & Hy). apply H4 in Hy. by destruct (_ =? _)%nat.
Qed.

Lemma pins_ok_new : pins_ok [] new_VersionSet.
Proof. split; try done; cbn. all: try by intros ? ?%elem_of_nil. constructor. Qed.
