(* ===== verification/DBRead.v ===== *)
(** * Reading the database: Get, iterators and read samples of db/db_impl.cpp

    A read sees the memtable, the memtable being written out and the tables of
    the current version. [Get] asks them in this order; an iterator merges an
    iterator over each, shows what the snapshot sees and keeps a reference to
    the version until it is deleted. The state is the caches together with the
    [DBImpl]. The tables are read without the mutex; the memtables and the
    version an iterator works on are those of the moment it is created, what
    is written later has larger sequence numbers. *)

From S2P Require Import Prelude Coding Status Comparator Dbformat Filter SkipList MemTable Env Filename VersionEdit Version VersionSet Iterator MemIter World TwoLevel Merger Block Format TableBuilder Cache Table TableWrite TableFile TableRead TableCache TableIter DBIter VersionIter Snapshot DB.

Section Read.
Context (snappy : Snappy) {C H : Type} (bcache : Cache C H Block) {CT HT : Type} (tcache : Cache CT HT Table).
Context (dbname : bytes) (opts : TableOptions) (paranoid_checks : bool).
Context (NewRandomAccessFile : bytes -> Status * option RandomAccessFile).
Context (ucmp : Comparator) (options : ReadOptions) (fuel : nat).

Abbreviation G := (Caches C CT).
Abbreviation TableState := ((Status * unit) + TwoLevelIterator ((Status + BlockIter) * unit) ((Status + BlockIter) * option H) (TableArg (HT := HT)))%type.
Abbreviation LevelState := (TwoLevelIterator (LevelFileNumIterator * unit) TableState unit).

(** What the merging iterator has children of. *)
Abbreviation ChildState := ((MemTableIterator * unit) + (TableState + LevelState))%type.
Definition ChildIterator : IteratorM G ChildState :=
  SumIteratorM (PureIterator (MemIterator ucmp) (fun _ => mret ()))
    (VersionIterator snappy bcache tcache dbname opts paranoid_checks NewRandomAccessFile ucmp options fuel).

Definition get_db : M DBImpl DBImpl := fun db => Some (db, db).
Definition put_db (db : DBImpl) : M DBImpl unit := fun _ => Some ((), db).

(** [CleanupIteratorState]; of the references only the version's is counted. *)
Definition CleanupIteratorState (version : nat) : M (G * DBImpl) unit := on_second (
  db ← get_db; vs ← lift (version_Unref version (db_versions db)); put_db (db_set_versions vs db)).

Abbreviation InternalState := (((Status * unit) + (ChildState + MergingIterator ChildState)) * nat)%type.
Definition InternalIterator : IteratorM (G * DBImpl) InternalState :=
  WithCleanup (FirstIterator (AnyMerged (InternalKeyComparator ucmp) ChildIterator)) CleanupIteratorState.

(** The result: the iterator, [*latest_snapshot] and [*seed]. *)
Definition NewInternalIterator : M (G * DBImpl) (InternalState * Z * Z) :=
  db ← on_second get_db;
  let latest_snapshot := vs_last_sequence (db_versions db) in
  let list := [inl (MemTable_NewIterator (db_mem db), ())] ++
    match db_imm db with Some imm => [inl (MemTable_NewIterator imm, ())] | None => [] end in
  list ← on_first (AddIterators snappy bcache tcache dbname opts paranoid_checks NewRandomAccessFile ucmp inr (vs_current (db_versions db)) list);
  internal_iter ← on_first (NewMergingIterator ChildIterator list);
  r ← on_second (
    db ← get_db;
    let version := vs_current_id (db_versions db) in
    let seed := u32 (db_seed db + 1) in
    vs ← lift (version_Ref version (db_versions db));
    _ ← put_db (db_set_seed seed (db_set_versions vs db));
    mret (version, seed));
  mret ((internal_iter, r.1), latest_snapshot, r.2).

Definition DB_RecordReadSample (key : bytes) : M (G * DBImpl) unit := on_second (
  db ← get_db;
  r ← lift (RecordReadSample ucmp (vs_current (db_versions db)) key);
  let db := db_set_versions (update_version (vs_current_id (db_versions db)) r.2 (db_versions db)) db in
  put_db (if (r.1 : bool) then MaybeScheduleCompaction db else db)).

Definition NewIterator (snapshot : option nat) : M (G * DBImpl) (DBIter InternalState) :=
  r ← NewInternalIterator;
  let '(iter, latest_snapshot, seed) := r in
  db ← on_second get_db;
  s ← lift (match snapshot with Some a => snapshot_number a (db_snapshots db) | None => Some latest_snapshot end);
  mret (NewDBIterator iter s seed).

Definition DatabaseIterator : IteratorM (G * DBImpl) (DBIter InternalState) :=
  DBIterator ucmp InternalIterator DB_RecordReadSample fuel.

(** First the memtable, then the one being written out. *)
Definition mem_lookup (db : DBImpl) (lkey : LookupKey) : option MemResult :=
  r ← MemTable_Get ucmp (db_mem db) lkey;
  match r, db_imm db with
  | MemMissing, Some imm => MemTable_Get ucmp imm lkey
  | _, _ => Some r
  end.

(** The statistics of a lookup in the version, then the reference to it. *)
Definition note_stats (current : nat) (v : Version) (stats : option GetStats) (db : DBImpl) : DBImpl :=
  match stats with
  | Some stats =>
      let u := UpdateStats v stats in
      let db := db_set_versions (update_version current u.2 (db_versions db)) db in
      if u.1 then MaybeScheduleCompaction db else db
  | None => db
  end.

Definition finish_get (current : nat) (stats : option GetStats) (db : DBImpl) : option DBImpl :=
  l ← live_version (db_versions db) current;
  let db := note_stats current (lv_version l) stats db in
  vs ← version_Unref current (db_versions db);
  Some (db_set_versions vs db).

(** [DBImpl::Get]: the status and [*value], which was [value] before. *)
Definition DB_Get (snapshot : option nat) (key value : bytes) : M (G * DBImpl) (Status * bytes) :=
  db ← on_second get_db;
  s ← lift (read_sequence snapshot db);
  let current := vs_current_id (db_versions db) in
  vs ← lift (version_Ref current (db_versions db));
  _ ← on_second (put_db (db_set_versions vs db));
  let lkey := make_LookupKey key s in
  r ← lift (mem_lookup db lkey);
  res ← match r with
        | MemValue v => mret (Status_OK, v, None)
        | MemStatus st => mret (st, value, None)
        | MemMissing =>
            g ← on_first (Version_Get ucmp (TableCache_Get snappy bcache tcache dbname opts paranoid_checks NewRandomAccessFile options)
                            (vs_current (db_versions db)) lkey value);
            mret (g.1.1, g.2, Some g.1.2)
        end;
  _ ← on_second (db ← get_db; db ← lift (finish_get current res.2 db); put_db db);
  mret res.1.

End Read.

(** ** Sorted entries *)

Lemma insert_entry ucmp `{!TotalCmp (Compare ucmp)} e E : sorted_keys (InternalKey_Compare ucmp) (map kv E) ->
  (forall x, x ∈ E -> ~ same_ikey ucmp e x) -> exists E', E' ≡ₚ e :: E /\ sorted_keys (InternalKey_Compare ucmp) (map kv E').
Proof.
  induction E as [|x E IH]; intros Hs Hd; [exists [e]; split; [done|]; repeat constructor|]. pose proof (Hd x ltac:(by left)) as Hx.
  cbn [map] in Hs. apply StronglySorted_inv in Hs as [Hs Hall]. destruct (InternalKey_Compare ucmp (e_ikey e) (e_ikey x)) eqn:Ec; [done| |].
  - exists (e :: x :: E). split; [done|]. constructor; [by constructor|]. constructor; [done|]. eapply Forall_impl; [exact Hall|].
    intros y Hy. by apply (cmp_lt_trans (InternalKey_Compare ucmp) _ (e_ikey x)).
  - destruct IH as (E' & Hp & Hs'); [done|intros y Hy; apply Hd; by right|]. exists (x :: E'). split; [rewrite Hp; apply Permutation_swap|].
    constructor; [done|]. rewrite Hp. constructor; [|done]. cbn [fst kv]. by apply (cmp_gt_lt (InternalKey_Compare ucmp)).
Qed.

Lemma sort_entries ucmp `{!TotalCmp (Compare ucmp)} es : ForallOrdPairs (fun a b => ~ same_ikey ucmp a b) es ->
  exists E, E ≡ₚ es /\ sorted_keys (InternalKey_Compare ucmp) (map kv E).
Proof.
  induction 1 as [|e es Hall Hd (E & Hp & Hs)]; [exists []; split; [done|constructor]|].
  destruct (insert_entry ucmp e E Hs) as (E' & Hp' & Hs').
  { intros x Hx. rewrite Forall_forall in Hall. apply Hall. by rewrite <- Hp. }
  exists E'. split; [by rewrite Hp', Hp|done].
Qed.

(** The rest of a sorted sequence from the first key at or behind [t]. *)
Lemma from_seek_elem cmp `{!TotalCmp cmp} es t x : sorted_keys cmp es ->
  x ∈ from_pos es (seek_pos cmp es t) <-> x ∈ es /\ cmp x.1 t <> Lt.
Proof.
  intros Hs. pose proof (seek_pos_inv cmp es t) as Hi. destruct (seek_pos cmp es t) as [i|]; cbn [from_pos].
  - destruct Hi as (e & He & Hge & Hlt). split.
    + intros Hx. apply list_elem_of_lookup in Hx as [j Hj]. rewrite lookup_drop in Hj. split; [by eapply list_elem_of_lookup_2|]. intros Hl.
      destruct j as [|j]; [rewrite Nat.add_0_r in Hj; congruence|]. apply Hge. apply (cmp_lt_trans cmp _ x.1); [|done].
      by apply (sorted_keys_lookup cmp es i (i + S j) e x Hs); [..|lia].
    + intros [Hx Hnl]. apply list_elem_of_lookup in Hx as [j Hj]. destruct (decide (j < i)%nat) as [Hji|Hji]; [by destruct Hnl; apply (Hlt j)|].
      apply list_elem_of_lookup. exists (j - i)%nat. rewrite lookup_drop. by replace (i + (j - i))%nat with j by lia.
  - split; [by intros ?%elem_of_nil|]. intros [Hx Hnl]. apply list_elem_of_lookup in Hx as [j Hj]. by destruct Hnl; apply (Hi j).
Qed.

Lemma sorted_from cmp es p : sorted_keys cmp es -> sorted_keys cmp (from_pos es p).
Proof.
  intros Hs. destruct p as [i|]; [|constructor]. cbn [from_pos]. revert i. induction Hs as [|e es Hs IH Hall]; intros [|i]; cbn; try by constructor. apply IH.
Qed.

Lemma newest_perm ucmp es es' u s e : es ≡ₚ es' -> newest ucmp es u s e -> newest ucmp es' u s e.
Proof. intros Hp (He & Hv & Hmax). split; [by rewrite <- Hp|]. split; [done|]. intros x Hx. apply Hmax. by rewrite Hp. Qed.

(** ** What an iterator shows *)

Section Spec.
Context (snappy : Snappy) {C H : Type} (bcache : Cache C H Block) {CT HT : Type} (tcache : Cache CT HT Table).
Context (dbname : bytes) (opts : TableOptions) (paranoid_checks : bool).
Context (NewRandomAccessFile : bytes -> Status * option RandomAccessFile).
Context (bcinv : C -> gmap bytes Block -> list (H * Block) -> Z -> Prop) `{!CacheLaws bcache bcinv}.
Context (tcinv : CT -> gmap bytes Table -> list (HT * Table) -> Z -> Prop) `{!CacheLaws tcache tcinv}.
Context (ucmp : Comparator) `{!ComparatorLaws ucmp} (Hcmp : o_comparator opts = InternalKeyComparator ucmp).
Context (files : gmap Z (bytes * list Part)) (Hfiles : files_ok snappy dbname opts NewRandomAccessFile files).
Context (ro : ReadOptions) (fuel : nat) (Hfuel : forall num F parts, files !! num = Some (F, parts) -> (length parts <= fuel)%nat).
Context (content : FileMetaData -> list Entry).

Abbreviation G := (Caches C CT).
Abbreviation ginv := (ginv snappy opts bcinv tcinv files).
Abbreviation icmp := (InternalKey_Compare ucmp).
Abbreviation TableState := ((Status * unit) + TwoLevelIterator ((Status + BlockIter) * unit) ((Status + BlockIter) * option H) (TableArg (HT := HT)))%type.
Abbreviation LevelState := (TwoLevelIterator (LevelFileNumIterator * unit) TableState unit).
Abbreviation ChildState := ((MemTableIterator * unit) + (TableState + LevelState))%type.
Abbreviation citer := (ChildIterator snappy bcache tcache dbname opts paranoid_checks NewRandomAccessFile ucmp ro (S fuel)).

(** What a version must be for its tables to be read. *)
Record version_stored (v : Version) : Prop := {
  vst_ok : version_ok ucmp v;
  vst_numbers : forall level, NoDup (map number (level_files v level));
  vst_levels : forall level, (length (level_files v level) <= fuel)%nat;
  vst_files : forall level f, f ∈ level_files v level -> stored_in files content f /\ content_ok ucmp content f /\ fits 64 (file_size f)
}.

Definition imm_rep (imm : option MemTable) (es : list Entry) : Prop :=
  match imm with Some m => mem_rep ucmp m es | None => es = [] end.

(** ** The children *)

Abbreviation Child := (entries * (ChildState -> list (Held H HT) -> option nat -> Prop))%type.

Definition mem_child (m : MemTable) (es : list Entry) : Child :=
  (map kv es, mpos_inl (fun s l p => exists ids, skip_inv (KeyComparator ucmp) (table_ m) ids (map enc es) /\ mem_pos m ids s.1 p /\ l = [])).

Lemma mem_child_spec m es k : mem_rep ucmp m es ->
  sorted_keys icmp (mem_child m es).1 /\ IteratorMSpec ginv small_target citer icmp (mem_child m es).1 k (mem_child m es).2.
Proof.
  intros Hm. split; [by eapply mem_sorted|]. apply (IteratorMSpec_cost ginv _ _ _ _ 0); [lia|]. destruct Hm as [Hok _].
  apply (SumIteratorM_inl ginv). apply (IteratorMSpec_exists ginv small_target (PureIterator (MemIterator ucmp) (fun _ : unit => mret ())) icmp (map kv es) 0
    (fun ids => skip_inv (KeyComparator ucmp) (table_ m) ids (map enc es)) (fun ids s l p => mem_pos m ids s.1 p /\ l = [])).
  intros ids Hinv. apply (PureIterator_spec ginv (MemIterator ucmp) (fun _ : unit => mret ()) small_target small_target icmp (map kv es) (mem_pos m ids) (fun _ l => l = [])).
  - done.
  - by apply (MemIterator_spec ucmp m es ids).
  - intros [] l ->. by apply (triple_ret ginv).
Qed.

Lemma new_mem_child m es : mem_rep ucmp m es -> (mem_child m es).2 (inl (MemTable_NewIterator m, ())) [] None.
Proof. intros [_ [ids Hinv]]. by exists ids. Qed.

Definition imm_children (imm : option MemTable) (es : list Entry) : list Child :=
  match imm with Some m => [mem_child m es] | None => [] end.

Definition up (c : entries * (TableState + LevelState -> list (Held H HT) -> option nat -> Prop)) : Child := (c.1, mpos_inr c.2).

Section View.
Context (mem : MemTable) (imm : option MemTable) (em ei : list Entry) (Hmem : mem_rep ucmp mem em) (Himm : imm_rep imm ei).
Context (v : Version) (Hv : version_stored v).

Definition db_children : list Child := mem_child mem em :: imm_children imm ei ++ map up (version_children snappy opts files content v).

(** Everything written, in no particular order. *)
Definition db_entries : list Entry := em ++ ei ++ version_entries content v.

Lemma db_children_entries : concat (map fst db_children) = map kv db_entries.
Proof.
  unfold db_children, db_entries. cbn [map concat]. rewrite map_app, concat_app, map_map, !map_app. f_equal. f_equal.
  - destruct imm as [m|]; cbn in Himm |- *; [by rewrite app_nil_r|by rewrite Himm].
  - apply (version_children_entries snappy opts files content v).
Qed.

Lemma db_children_spec c : c ∈ db_children ->
  sorted_keys icmp c.1 /\ IteratorMSpec ginv small_target citer icmp c.1 (version_cost fuel) c.2.
Proof.
  intros [->|[Hc|Hc]%elem_of_app]%elem_of_cons; [by apply mem_child_spec| |].
  - destruct imm as [m|]; [|by apply elem_of_nil in Hc]. apply list_elem_of_singleton in Hc as ->. by apply mem_child_spec.
  - apply list_elem_of_fmap in Hc as (d & -> & Hd). destruct Hv as [H1 H2 H3 H4].
    destruct (version_children_spec snappy bcache tcache dbname opts paranoid_checks NewRandomAccessFile bcinv tcinv ucmp Hcmp files Hfiles ro fuel Hfuel content v H1 H2 H3 H4 d Hd) as [Hs Hsp].
    split; [done|]. by apply (SumIteratorM_inr ginv).
Qed.

(** ** The merged iterator with its reference to the version *)

Context (last : Z) (snaps : SnapshotList) (id : nat).

(** The part of the database a read depends on. *)
Definition same_view (db : DBImpl) : Prop :=
  db_mem db = mem /\ db_imm db = imm /\ vs_current (db_versions db) = v /\ vs_last_sequence (db_versions db) = last /\ db_snapshots db = snaps.

Definition view (pins : list nat) (db : DBImpl) : Prop := pins_ok pins (db_versions db) /\ same_view db.

Lemma view_perm l l' db : l ≡ₚ l' -> view l db -> view l' db.
Proof. intros Hp [Hpin Hrest]. split; [by eapply pins_ok_perm|done]. Qed.

#[export] Instance db_world : World (beside ginv view).
Proof. apply beside_World; [apply _|exact view_perm]. Qed.

Abbreviation dinv := (beside ginv view).

Lemma CleanupIteratorState_spec version l : l = [inr version] ->
  triple dinv 0 l (CleanupIteratorState (C := C) (CT := CT) version) (fun _ l' => l' = []).
Proof.
  intros ->. eapply (triple_mono dinv); [apply (triple_second ginv view [version] _ (fun _ l' => l' = []))|done|by intros _ l' (l1 & -> & ->)].
  intros rest db [Hp Hrest]. destruct (pins_ok_unref _ _ _ Hp) as (vs' & E & Hp' & refs & old & ->).
  exists (), [], (db_set_versions (set_live (vs_current (db_versions db)) refs old (db_versions db)) db). unfold mbind, M_bind, get_db, lift. rewrite E.
  split; [done|]. split; [|done]. by split.
Qed.

Context (E : list Entry) (HE : E ≡ₚ db_entries) (Hsorted : sorted_keys icmp (map kv E)) (Hok : Forall entry_ok E).

Lemma entries_small e : e ∈ map kv E -> small_target e.1.
Proof.
  intros He. apply list_elem_of_fmap in He as (x & -> & Hx). rewrite Forall_forall in Hok. destruct (Hok x Hx) as (_ & Hk & _).
  unfold small_target. cbn [kv fst]. unfold zlen, e_ikey in *. rewrite InternalKey_length. lia.
Qed.

Abbreviation internal_cost := (merge_cost (version_cost fuel) (map fst db_children)).
Abbreviation iiter := (InternalIterator snappy bcache tcache dbname opts paranoid_checks NewRandomAccessFile ucmp ro (S fuel)).
Abbreviation InternalState := (((Status * unit) + (ChildState + MergingIterator ChildState)) * nat)%type.

Definition internal_pos (s : InternalState) (l : list (Held H HT + nat)) (p : option nat) : Prop :=
  exists l1 l2, l ≡ₚ l1 ++ l2 /\ (exists l0, l1 = map inl l0 /\ merged_pos (InternalKeyComparator ucmp) db_children (map kv E) s.1 l0 p) /\ l2 = [inr s.2].

Lemma merged_perm : map kv E ≡ₚ concat (map fst db_children).
Proof. rewrite db_children_entries. by rewrite HE. Qed.

Lemma InternalIterator_spec : IteratorMSpec dinv small_target iiter icmp (map kv E) internal_cost internal_pos.
Proof.
  apply (WithCleanup_spec ginv view view_perm small_target (FirstIterator (AnyMerged (InternalKeyComparator ucmp) citer)) CleanupIteratorState icmp (map kv E) internal_cost
    (fun s l p => exists l0, l = map inl l0 /\ merged_pos (InternalKeyComparator ucmp) db_children (map kv E) s l0 p) (fun d l => l = [inr d])).
  - apply (FirstIterator_spec ginv view view_perm). apply (merged_children_spec ginv (InternalKeyComparator ucmp) citer small_target (version_cost fuel) db_children (map kv E) merged_perm Hsorted).
    + exact entries_small.
    + exact db_children_spec.
  - exact CleanupIteratorState_spec.
Qed.

Lemma ref_current_spec l : triple dinv 0 (map inl l) (on_second (X := DBImpl) (G := G) (
    db ← get_db;
    let version := vs_current_id (db_versions db) in
    let seed := u32 (db_seed db + 1) in
    vs ← lift (version_Ref version (db_versions db));
    _ ← put_db (db_set_seed seed (db_set_versions vs db));
    mret (version, seed))) (fun r l' => l' ≡ₚ map inl l ++ [inr r.1]).
Proof.
  eapply (triple_mono dinv); [apply (triple_frame_perm dinv 0 _ [] (map inl l)), reflexivity; apply (triple_second ginv view [] _ (fun r l' => l' = [r.1]))|done|].
  - intros rest db [Hp Hrest]. destruct (pins_ok_ref _ _ Hp) as (vs' & Er & Hp' & ->).
    eexists (_, _), _, _. unfold mbind, M_bind, get_db, lift, put_db. rewrite Er. split; [done|]. split; [|done]. by split.
  - intros r l' (l1 & -> & (l2 & -> & ->)). cbn [map]. apply Permutation_app_comm.
Qed.

Lemma get_db_spec l : triple dinv 0 l (on_second (G := G) get_db) (fun db l' => l' = l /\ same_view db).
Proof.
  eapply (triple_mono dinv); [apply (triple_frame_perm dinv 0 _ [] l), reflexivity; apply (triple_second ginv view [] _ (fun db l' => l' = [] /\ same_view db))|done|].
  - intros rest db [Hp Hs]. by exists db, [], db.
  - by intros db l' (l1 & -> & (l2 & -> & -> & Hs)).
Qed.

Lemma new_children_described : described (mem_child mem em :: imm_children imm ei)
  ([inl (MemTable_NewIterator mem, ())] ++ match imm with Some m => [inl (MemTable_NewIterator m, ())] | None => [] end) [].
Proof.
  exists [], [], None. split; [done|]. split; [by apply new_mem_child|]. destruct imm as [m|]; [|done].
  exists [], [], None. split; [done|]. split; [by apply new_mem_child|done].
Qed.

Lemma NewInternalIterator_spec : triple dinv (length (level_files v 0)) []
  (NewInternalIterator snappy bcache tcache dbname opts paranoid_checks NewRandomAccessFile ucmp ro (S fuel))
  (fun r l => r.1.2 = last /\ exists p, internal_pos r.1.1 l p).
Proof.
  unfold NewInternalIterator. apply (triple_seq dinv _ 0 (length (level_files v 0)) _ _ _ _ _ (get_db_spec [])); [|lia].
  intros db l [-> (Em & Ei & Ev & El & _)]. rewrite Em, Ei, Ev, El. destruct Hv as [H1 H2 H3 H4].
  pose proof (AddIterators_spec snappy bcache tcache dbname opts paranoid_checks NewRandomAccessFile bcinv tcinv ucmp Hcmp files Hfiles fuel content v H1 H3 H4
    inr up _ _ [] (fun c s l p Hp => Hp) new_children_described) as Hadd.
  apply (triple_seq dinv _ (length (level_files v 0)) 0 _ _ _ _ _ (triple_first ginv view _ [] _ _ Hadd)); [|lia]. intros ss l (l1 & -> & Hd).
  pose proof (merge_children ginv (InternalKeyComparator ucmp) citer small_target (version_cost fuel) db_children (map kv E) merged_perm db_children_spec ss l1 Hd) as Hmerge.
  apply (triple_seq dinv _ 0 0 _ _ _ _ _ (triple_first ginv view _ _ _ _ Hmerge)); [|lia]. intros m l (l2 & -> & p & Hp).
  apply (triple_seq dinv _ 0 0 _ _ _ _ _ (ref_current_spec l2)); [|lia]. intros r l Hl. apply (triple_ret dinv). cbn [fst snd].
  split; [done|]. exists p, (map inl l2), [inr r.1]. split; [done|]. split; [by exists l2|done].
Qed.

Context (s : Z) (Hs : valid_seq s) (Hlen : (length E <= fuel)%nat).

Abbreviation dbiter := (DatabaseIterator snappy bcache tcache dbname opts paranoid_checks NewRandomAccessFile ucmp ro (S fuel)).
Abbreviation sample := (DB_RecordReadSample ucmp).

Definition db_pos : DBIter InternalState -> list (Held H HT + nat) -> option nat -> Prop := dpos ucmp E internal_pos s.

Lemma entry_seqs e : e ∈ E -> valid_seq (e_seq e).
Proof. intros He. rewrite Forall_forall in Hok. by apply Hok. Qed.

Lemma DatabaseIterator_spec : IteratorMSpec dinv (fun t => small_target (seek_key t s)) dbiter (Compare ucmp) (shown ucmp s E) (db_cost internal_cost (S fuel)) db_pos.
Proof.
  pose proof InternalIterator_spec as Hi. unfold DatabaseIterator, db_pos.
  apply (DBIter_spec dinv ucmp iiter (DB_RecordReadSample ucmp) E internal_cost internal_pos); [exact Hsorted|exact entry_seqs|exact Hs|lia].
Qed.

Lemma NewIterator_spec snapshot : (match snapshot with Some a => snapshot_number a snaps | None => Some last end) = Some s ->
  triple dinv (length (level_files v 0)) [] (NewIterator snappy bcache tcache dbname opts paranoid_checks NewRandomAccessFile ucmp ro (S fuel) snapshot)
    (fun d l => exists p, db_pos d l p).
Proof.
  intros Hsnap. unfold NewIterator. apply (triple_seq dinv _ (length (level_files v 0)) 0 _ _ _ _ _ NewInternalIterator_spec); [|lia].
  intros [[iter latest] seed] l [El [p Hp]]. cbn [fst snd] in El, Hp. apply (triple_seq dinv _ 0 0 _ _ _ _ _ (get_db_spec l)); [|lia]. intros db l' [-> (_ & _ & _ & _ & ->)].
  rewrite El. apply (triple_let dinv _ _ _ s _ _ Hsnap). apply (triple_ret dinv). exists None.
  by apply (NewDBIterator_spec ucmp E internal_pos s (S fuel) ltac:(lia) iter l p seed).
Qed.

End View.

(** A database whose parts can be read; no two entries share the internal key. *)
Record db_readable (db : DBImpl) (em ei : list Entry) : Prop := {
  dr_mem : mem_rep ucmp (db_mem db) em;
  dr_imm : imm_rep (db_imm db) ei;
  dr_version : version_stored (vs_current (db_versions db));
  dr_distinct : ForallOrdPairs (fun a b => ~ same_ikey ucmp a b) (db_entries em ei (vs_current (db_versions db)))
}.

Lemma version_entry v e : e ∈ version_entries content v -> exists level f, f ∈ level_files v level /\ e ∈ content f.
Proof.
  intros He. apply list_elem_of_In, in_concat in He as (es & Hes & He). apply list_elem_of_In, list_elem_of_fmap in Hes as (level & -> & _).
  apply in_concat in He as (es & Hes & He). apply list_elem_of_In, list_elem_of_fmap in Hes as (f & -> & Hf). exists level, f. split; [done|]. by apply list_elem_of_In.
Qed.

Lemma db_entries_ok db em ei : db_readable db em ei -> Forall entry_ok (db_entries em ei (vs_current (db_versions db))).
Proof.
  intros [[Hm _] Hi [_ _ _ Hst] _]. unfold db_entries. rewrite !Forall_app. split; [done|]. split.
  - destruct (db_imm db) as [m|]; cbn in Hi; [by destruct Hi|by rewrite Hi].
  - apply Forall_forall. intros e (level & f & Hf & He)%version_entry. destruct (Hst level f Hf) as (_ & (Hok & _) & _).
    rewrite Forall_forall in Hok. by apply Hok.
Qed.

End Spec.

(** The tables a scan opens at most. *)
Definition scan_cost (fuel n : nat) (children : list entries) (files0 : nat) : nat :=
  files0 + (n + 2) * db_cost (merge_cost (version_cost fuel) children) (S fuel).

(** C3. Reading the database with an iterator: a new iterator at a snapshot - or
    at the last sequence number -, moved to a target and read to the end,
    gives in the order of the user keys exactly the keys at or behind the
    target whose newest entry the snapshot sees, in the memtables and all
    tables together, is a value, each with that value. Deleting the iterator
    returns every handle of the caches and the reference to the version. *)
Theorem db_scan snappy {C H} (bcache : Cache C H Block) {CT HT} (tcache : Cache CT HT Table) bcinv tcinv
    dbname opts paranoid NewRandomAccessFile ucmp files content ro fuel db em ei snapshot s target n held pins st :
  CacheLaws bcache bcinv -> CacheLaws tcache tcinv -> ComparatorLaws ucmp ->
  o_comparator opts = InternalKeyComparator ucmp -> files_ok snappy dbname opts NewRandomAccessFile files ->
  (forall num F parts, files !! num = Some (F, parts) -> (length parts <= fuel)%nat) ->
  let v := vs_current (db_versions db) in let es := db_entries content em ei v in
  db_readable ucmp files fuel content db em ei -> (length es <= fuel)%nat ->
  read_sequence snapshot db = Some s -> valid_seq s -> small_target (seek_key target s) ->
  pins_ok pins (db_versions db) ->
  ginv snappy opts bcinv tcinv files
    (scan_cost fuel (S fuel) (map fst (db_children (H := H) (HT := HT) snappy opts ucmp files content (db_mem db) (db_imm db) em ei v)) (length (level_files v 0)) + n) held st ->
  exists r st' db', scan (DatabaseIterator snappy bcache tcache dbname opts paranoid NewRandomAccessFile ucmp ro (S fuel))
      (NewIterator snappy bcache tcache dbname opts paranoid NewRandomAccessFile ucmp ro (S fuel) snapshot) target (S fuel) (st, db)
    = Some (r, (st', db')) /\
    sorted_keys (Compare ucmp) r /\
    (forall x, x ∈ r <-> Compare ucmp x.1 target <> Lt /\ exists e, newest ucmp es (e_key e) s e /\ e_type e = kTypeValue /\ x = uv e) /\
    ginv snappy opts bcinv tcinv files n held st' /\ pins_ok pins (db_versions db') /\
    db_readable ucmp files fuel content db' em ei.
Proof.
  intros Hb Ht Hu Hcmp Hf Hfu v es Hrd Hlen Hsnap Hs Htgt Hpins Hst. pose proof (db_entries_ok ucmp files fuel content db em ei Hrd) as Hok.
  pose proof Hrd as [Hm Hi Hv Hd]. destruct (sort_entries ucmp es Hd) as (E & HE & Hsort).
  set (last := vs_last_sequence (db_versions db)). set (snaps := db_snapshots db).
  assert (HlenE : (length E <= fuel)%nat) by (by rewrite HE). assert (HokE : Forall entry_ok E) by (by rewrite HE).
  pose proof (DatabaseIterator_spec snappy bcache tcache dbname opts paranoid NewRandomAccessFile bcinv tcinv ucmp Hcmp files Hf ro fuel Hfu content
    (db_mem db) (db_imm db) em ei Hm Hi v Hv last snaps E HE Hsort HokE s Hs HlenE) as Hspec.
  pose proof (NewIterator_spec snappy bcache tcache dbname opts paranoid NewRandomAccessFile bcinv tcinv ucmp Hcmp files Hf ro fuel Hfu content
    (db_mem db) (db_imm db) em ei Hm Hi v Hv last snaps E HE s HlenE snapshot Hsnap) as Hnew.
  assert (Hseq : forall e, e ∈ E -> valid_seq (e_seq e)) by (intros e He; rewrite Forall_forall in HokE; by apply HokE).
  assert (Hshown : (length (shown ucmp s E) < S fuel)%nat).
  { rewrite shown_length. unfold live_positions. pose proof (length_filter (fun i => is_live ucmp s E i = true) (seq 0 (length E))). rewrite length_seq in *. lia. }
  destruct (scan_entries (IteratorMSpec0 := Hspec) _ (beside (ginv snappy opts bcinv tcinv files) (view (db_mem db) (db_imm db) v last snaps))
    (length (level_files v 0)) _ target (S fuel) Htgt Hshown Hnew n (map inl held ++ map inr pins) (st, db)) as (r & l & [st' db'] & Er & Hst' & Hr & ->).
  { apply beside_split. split; [exact Hst|done]. }
  exists r, st', db'. split; [done|]. destruct (proj1 (beside_split _ _ n held pins (st', db')) Hst') as [Hst2 [Hp' (Em & Ei & Ev & _)]]. cbn [snd] in Hp', Em, Ei, Ev. rewrite Hr. split; [|split].
  - apply sorted_from. by apply (shown_sorted ucmp s E Hsort).
  - intros x. rewrite (from_seek_elem (Compare ucmp)) by (by apply (shown_sorted ucmp s E Hsort)). rewrite (and_comm (x ∈ _)), (shown_newest ucmp s E Hsort Hseq).
    split; intros [H1 H2]; (split; [done|]); (destruct H2 as (e & Hn & He); exists e; split; [|done]); by eapply newest_perm.
  - split; [exact Hst2|]. split; [done|]. split; rewrite ?Em, ?Ei, ?Ev; done.
Qed.

(** ** What Get returns *)

(** Entries of [a] are newer than those of [b] of the same key. *)
Definition newer_than (ucmp : Comparator) (a b : list Entry) : Prop :=
  forall x y, x ∈ a -> y ∈ b -> Compare ucmp (e_key x) (e_key y) = Eq -> e_seq y <= e_seq x.

(** The answer of a lookup among [es]. *)
Definition answered (ucmp : Comparator) (es : list Entry) (u : bytes) (s : Z) (value : bytes) (r : Status * bytes) : Prop :=
  (exists e, newest ucmp es u s e /\ r = answer e value) \/
  ((forall e, e ∈ es -> ~ visible ucmp u s e) /\ r = (NotFound [], value)).

Section Get.
Context (ucmp : Comparator) `{!TotalCmp (Compare ucmp)}.

Lemma newest_front a b u s e : newer_than ucmp a b -> newest ucmp a u s e -> newest ucmp (a ++ b) u s e.
Proof.
  intros Hab (He & [Hu Hs] & Hmax). split; [apply elem_of_app; by left|]. split; [done|]. intros x [Hx|Hx]%elem_of_app [Hxu Hxs]; [by apply Hmax|].
  apply (Hab e x He Hx). rewrite (cmp_eq_l (Compare ucmp) _ u) by done. by apply (cmp_eq_sym (Compare ucmp)).
Qed.

Lemma newest_back a b u s e : (forall x, x ∈ a -> ~ visible ucmp u s x) -> newest ucmp b u s e -> newest ucmp (a ++ b) u s e.
Proof.
  intros Ha (He & Hv & Hmax). split; [apply elem_of_app; by right|]. split; [done|]. intros x [Hx|Hx]%elem_of_app Hxv; [by destruct (Ha x Hx)|by apply Hmax].
Qed.

Lemma newer_than_app a b c : newer_than ucmp a (b ++ c) -> newer_than ucmp a b /\ newer_than ucmp a c.
Proof. intros Hn. split; intros x y Hx Hy; (apply Hn; [done|]; apply elem_of_app; [by left + by right]). Qed.

Lemma mem_lookup_spec db em ei u s : mem_rep ucmp (db_mem db) em -> imm_rep ucmp (db_imm db) ei -> newer_than ucmp em ei ->
  valid_seq s -> zlen u + 8 < 2 ^ 32 ->
  (exists e, newest ucmp (em ++ ei) u s e /\ mem_lookup ucmp db (make_LookupKey u s) = Some (result_of e)) \/
  ((forall e, e ∈ em ++ ei -> ~ visible ucmp u s e) /\ mem_lookup ucmp db (make_LookupKey u s) = Some MemMissing).
Proof.
  intros Hm Hi Hn Hs Hu. unfold mem_lookup. destruct (MemTable_Get_spec ucmp _ em u s Hm Hs Hu) as [(e & He & ->)|(Hno & ->)]; cbn [mbind option_bind].
  - left. exists e. split; [by apply newest_front|]. unfold result_of. by destruct (e_type e).
  - destruct (db_imm db) as [m|]; cbn in Hi.
    + destruct (MemTable_Get_spec ucmp _ ei u s Hi Hs Hu) as [(e & He & ->)|(Hno2 & ->)].
      * left. exists e. split; [by apply newest_back|done].
      * right. split; [|done]. intros x [Hx|Hx]%elem_of_app; [by apply Hno|by apply Hno2].
    + right. split; [|done]. rewrite Hi, app_nil_r. done.
Qed.

End Get.

(** The same tables; how often they may still be sought without a compaction
    may differ. *)
Definition file_id (f : FileMetaData) : Z * Z * bytes * bytes := (number f, file_size f, smallest f, largest f).
Definition same_tables (v v' : Version) : Prop := forall level, map file_id (level_files v' level) = map file_id (level_files v level).

Lemma UpdateStats_same v stats : same_tables v (UpdateStats v stats).2.
Proof.
  assert (Hmap : forall num level0, same_tables v (map_file level0 num charge_seek v)).
  { intros num level0 level. unfold level_files, map_file. cbn [files_]. destruct (decide (level0 = level)) as [->|Hne].
    - rewrite list_lookup_alter_eq. destruct (files_ v !! level) as [fs|]; [|done]. cbn. rewrite map_map. apply map_ext. intros f.
      by destruct (number f =? num).
    - by rewrite list_lookup_alter_ne. }
  unfold UpdateStats. destruct (seek_file stats) as [f0|]; [|by intros level]. cbn zeta. specialize (Hmap (number f0) (Z.to_nat (seek_file_level stats))).
  destruct (List.find _ _) as [f|]; [|done]. destruct (allowed_seeks f <=? 0); [|done]. by destruct (file_to_compact_ _).
Qed.

Lemma update_current vs v : update_version (vs_current_id vs) v vs = set_live v (vs_current_refs vs) (vs_old vs) vs.
Proof. unfold update_version. by rewrite Nat.eqb_refl. Qed.

Lemma MaybeSchedule_versions db : db_versions (MaybeScheduleCompaction db) = db_versions db /\ db_mem (MaybeScheduleCompaction db) = db_mem db /\
  db_imm (MaybeScheduleCompaction db) = db_imm db /\ db_snapshots (MaybeScheduleCompaction db) = db_snapshots db.
Proof. unfold MaybeScheduleCompaction. repeat case_match; done. Qed.

(** What a read leaves: everything but statistics and the schedule. *)
Definition read_only (db db' : DBImpl) : Prop :=
  db_mem db' = db_mem db /\ db_imm db' = db_imm db /\ db_snapshots db' = db_snapshots db /\
  vs_last_sequence (db_versions db') = vs_last_sequence (db_versions db) /\ same_tables (vs_current (db_versions db)) (vs_current (db_versions db')).

Lemma note_stats_spec db stats pins : pins_ok pins (db_versions db) ->
  let db1 := note_stats (vs_current_id (db_versions db)) (vs_current (db_versions db)) stats db in pins_ok pins (db_versions db1) /\ read_only db db1.
Proof.
  intros Hp db1. destruct stats as [stats|]; [|split; [done|]; by do 4 (split; [done|])]. unfold note_stats in db1. cbn zeta in db1.
  set (db2 := db_set_versions _ db) in db1. assert (H1 : pins_ok pins (db_versions db2)) by (by apply pins_ok_update).
  assert (H2 : read_only db db2).
  { split; [done|]. split; [done|]. split; [done|]. unfold db2. cbn [db_versions db_set_versions]. rewrite update_current. split; [done|]. apply UpdateStats_same. }
  unfold db1. destruct (UpdateStats _ stats).1; [|done]. destruct (MaybeSchedule_versions db2) as (E1 & E2 & E3 & E4). unfold read_only in *. by rewrite E1, E2, E3, E4.
Qed.

Lemma finish_get_spec db stats pins : pins_ok (vs_current_id (db_versions db) :: pins) (db_versions db) ->
  exists db', finish_get (vs_current_id (db_versions db)) stats db = Some db' /\ pins_ok pins (db_versions db') /\ read_only db db'.
Proof.
  intros Hp. unfold finish_get, live_version. rewrite Nat.eqb_refl. cbn [mbind option_bind lv_version].
  destruct (note_stats_spec db stats _ Hp) as [Hp1 Hr]. destruct (pins_ok_unref _ _ _ Hp1) as (vs & -> & Hp2 & refs & old & ->). cbn [mbind option_bind].
  eexists. split; [done|]. by split.
Qed.

(** C4. [DBImpl::Get] answers with the newest entry of the key that the
    snapshot - or the last sequence number - sees in the memtable, the memtable
    being written out and all tables: its value, NotFound if it is a deletion
    or there is none. A read changes nothing but statistics and the caches,
    and gives back its reference to the version. *)
Theorem db_get snappy {C H} (bcache : Cache C H Block) {CT HT} (tcache : Cache CT HT Table) bcinv tcinv
    dbname opts paranoid NewRandomAccessFile files ucmp user_policy content heldb heldt ro db em ei snapshot s u value n pins st :
  CacheLaws bcache bcinv -> CacheLaws tcache tcinv -> ComparatorLaws ucmp ->
  o_comparator opts = InternalKeyComparator ucmp -> o_filter_policy opts = InternalFilterPolicy <$> user_policy ->
  (forall p, user_policy = Some p -> FilterRespects ucmp p) -> files_ok snappy dbname opts NewRandomAccessFile files ->
  let v := vs_current (db_versions db) in
  mem_rep ucmp (db_mem db) em -> imm_rep ucmp (db_imm db) ei -> version_ok ucmp v -> newer_first ucmp content v ->
  (forall level f, f ∈ level_files v level -> content_ok ucmp content f /\ stored_in files content f) ->
  newer_than ucmp em ei -> newer_than ucmp (em ++ ei) (version_entries content v) ->
  read_sequence snapshot db = Some s -> valid_seq s -> zlen u + 8 < 2 ^ 32 -> pins_ok pins (db_versions db) ->
  tinv snappy opts bcinv tcinv files heldb heldt (num_files v (seq 0 kNumLevels) + n) st ->
  exists r st' db', DB_Get snappy bcache tcache dbname opts paranoid NewRandomAccessFile ucmp ro snapshot u value (st, db) = Some (r, (st', db')) /\
    answered ucmp (db_entries content em ei v) u s value r /\
    tinv snappy opts bcinv tcinv files heldb heldt n st' /\ pins_ok pins (db_versions db') /\ read_only db db'.
Proof.
  intros Hb Ht Hu Hcmp Hpol Hresp Hf v Hm Hi Hv Hnew Hst Hme Hmv Hsnap Hs Hlen Hp Hti.
  destruct (pins_ok_ref _ _ Hp) as (vs1 & E1 & Hp1 & Evs1). set (db1 := db_set_versions vs1 db).
  assert (Hcur : vs_current_id (db_versions db1) = vs_current_id (db_versions db)) by (unfold db1; cbn; by rewrite Evs1).
  assert (Hend : forall st2 stats, exists db', on_second (G := Caches C CT)
      (d ← get_db; d ← lift (finish_get (vs_current_id (db_versions db)) stats d); put_db d) (st2, db1) = Some ((), (st2, db')) /\
      pins_ok pins (db_versions db') /\ read_only db db').
  { intros st2 stats. rewrite <- Hcur in Hp1 |- *. destruct (finish_get_spec db1 stats pins Hp1) as (db' & E & Hp' & H1 & H2 & H3 & H4 & H5).
    exists db'. unfold on_second, mbind, M_bind, get_db, lift. cbn [snd]. rewrite E. split; [done|]. split; [done|].
    unfold read_only. unfold db1 in H1, H2, H3, H4, H5. cbn [db_versions db_set_versions] in H4, H5. rewrite Evs1 in H4, H5. done. }
  unfold DB_Get. rewrite (M_bind_eq _ _ (st, db) db (st, db)) by done. rewrite (M_bind_eq _ _ (st, db) s (st, db)) by (by rewrite Hsnap).
  cbn zeta. rewrite (M_bind_eq _ _ (st, db) vs1 (st, db)) by (by rewrite E1). rewrite (M_bind_eq _ _ (st, db) () (st, db1)) by done.
  destruct (mem_lookup_spec ucmp db em ei u s Hm Hi Hme Hs Hlen) as [(e & He & Er)|(Hno & Er)].
  - destruct (Hend st None) as (db' & Ed & Hp' & Hr'). rewrite (M_bind_eq _ _ (st, db1) (result_of e) (st, db1)) by (by rewrite Er).
    exists (answer e value), st, db'. split.
    + unfold result_of, answer. destruct (e_type e);
        (rewrite (M_bind_eq _ _ (st, db1) _ (st, db1) eq_refl); rewrite (M_bind_eq _ _ (st, db1) () (st, db') Ed); done).
    + split; [|split; [by eapply budget_le; [apply tinv_budget| |exact Hti]; lia|done]]. left. exists e. split; [|done]. unfold db_entries.
      rewrite app_assoc. by apply (newest_front ucmp).
  - rewrite (M_bind_eq _ _ (st, db1) MemMissing (st, db1)) by (by rewrite Er).
    destruct (Version_Get_tables snappy bcache tcache bcinv tcinv dbname opts paranoid NewRandomAccessFile files ucmp user_policy content heldb heldt ro v u s value n st
      Hb Ht Hu Hcmp Hpol Hresp Hf Hv Hnew Hst Hs Hti) as (res & stats & val & st' & Eg & Hti' & Ha).
    destruct (Hend st' (Some stats)) as (db' & Ed & Hp' & Hr'). exists (res, val), st', db'. split; [|split; [|done]].
    + rewrite (M_bind_eq _ _ (st, db1) (res, val, Some stats) (st', db1)); [by rewrite (M_bind_eq _ _ (st', db1) () (st', db') Ed)|].
      rewrite (M_bind_eq _ _ (st, db1) (res, stats, val) (st', db1)); [done|]. unfold on_first. cbn [fst snd]. fold v. by rewrite Eg.
    + unfold answered, db_entries. rewrite app_assoc. destruct Ha as [(e & He & Hans)|(Hno2 & -> & ->)].
      * left. exists e. split; [by apply (newest_back ucmp)|done].
      * right. split; [|done]. intros x [Hx|Hx]%elem_of_app; [by apply Hno|by apply Hno2].
Qed.

(** ** A sample database *)

Definition sample_db (mem : MemTable) : DBImpl :=
  mkDB false mem None 5 0 [] new_SnapshotList ∅ false None (set_live sample_version 1 [] (vs_SetLastSequence 12 new_VersionSet)) Status_OK [].

Definition sample_entry : Entry := mkEntry 12 kTypeDeletion (lit "b") [].

Lemma sample_mem : exists mem, mem_rep BytewiseComparator mem [sample_entry].
Proof.
  destruct (add_all_rep BytewiseComparator (fun _ => 0) [sample_entry] (new_MemTable (fun _ => 0)) [] (new_MemTable_rep BytewiseComparator _)) as (m & es & _ & Hm & Hp).
  - repeat constructor; vm_compute; congruence.
  - repeat constructor.
  - by intros a b _ ?%elem_of_nil.
  - exists m. symmetry in Hp. apply Permutation_singleton_l in Hp as ->. done.
Qed.

Lemma no_block_cache snappy opts files n : caches_ok snappy opts no_cache_inv no_cache_inv files [] n [] []
  (mkCaches (None : option (list Block * Z)) (([], 0) : list Table * Z)).
Proof.
  split; [done|]. exists ∅, 0. split; [split; [done|]; split; [done|]; by intros h v ?%elem_of_nil|]. intros num F parts t _ Hm. by apply lookup_empty_Some in Hm.
Qed.

Lemma sample_stored F8 F3 parts8 parts3 fuel : F8 = sample_table sample_new -> F3 = sample_table sample_old ->
  parts_es parts8 = map kv (sample_content sample_new) -> parts_es parts3 = map kv (sample_content sample_old) -> (1 <= fuel)%nat ->
  version_stored BytewiseComparator (<[8 := (F8, parts8)]> {[3 := (F3, parts3)]}) fuel sample_content sample_version.
Proof.
  intros -> -> E8 E3 Hf. split.
  - exact sample_version_ok.
  - intros level. do 7 (destruct level as [|level]; [repeat constructor; by intros ?%elem_of_nil|]). constructor.
  - intros level. transitivity 1%nat; [|done]. do 7 (destruct level as [|level]; [vm_compute; lia|]). vm_compute. lia.
  - intros level f Hl. split; [|split; [by apply (sample_content_ok level)|]].
    + apply sample_files in Hl as [[_ ->]|[_ ->]]; eexists _, _; (split; [reflexivity|]); (split; [vm_compute; reflexivity|done]).
    + apply sample_files in Hl as [[_ ->]|[_ ->]]; split; vm_compute; congruence.
Qed.

Lemma two_files_bound (F8 F3 : bytes) (parts8 parts3 : list Part) fuel : (length parts8 <= fuel)%nat -> (length parts3 <= fuel)%nat ->
  forall num F parts, (<[8 := (F8, parts8)]> {[3 := (F3, parts3)]} : gmap Z (bytes * list Part)) !! num = Some (F, parts) -> (length parts <= fuel)%nat.
Proof. intros L8 L3 num F parts [[<- [= <- <-]]|[_ [<- [= <- <-]]%lookup_singleton_Some]]%lookup_insert_Some; done. Qed.

Lemma db_scan_witness : exists mem fuel r st',
  scan (DatabaseIterator NoSnappy NoCache NoCache (lit "db") sample_options true sample_open BytewiseComparator (mkReadOptions true true) fuel)
    (NewIterator NoSnappy NoCache NoCache (lit "db") sample_options true sample_open BytewiseComparator (mkReadOptions true true) fuel None) (lit "a") fuel
    (mkCaches None ([], 0), sample_db mem) = Some (r, st').
Proof.
  destruct (sample_table_file sample_new ltac:(by left)) as (parts8 & H8 & E8).
  destruct (sample_table_file sample_old ltac:(by right)) as (parts3 & H3 & E3). destruct sample_mem as [mem Hmem].
  pose proof (sample_files_ok _ _ parts8 parts3 eq_refl eq_refl H8 H3) as Hf. set (fuel := (length parts8 + length parts3 + 9)%nat).
  exists mem, (S fuel).
  destruct (db_scan NoSnappy NoCache NoCache no_cache_inv no_cache_inv (lit "db") sample_options true sample_open BytewiseComparator _ sample_content
    (mkReadOptions true true) fuel (sample_db mem) [sample_entry] [] None 12 (lit "a") 0 [] [] (mkCaches None ([], 0)) _ _ _ eq_refl Hf) as (r & st' & db' & E & _).
  - apply two_files_bound; unfold fuel; lia.
  - split; [exact Hmem|done|by apply sample_stored; [..|unfold fuel; lia]|]. repeat constructor; vm_compute; discriminate.
  - transitivity 9%nat; [vm_compute; lia|unfold fuel; lia].
  - reflexivity.
  - split; vm_compute; congruence.
  - reflexivity.
  - split; try done; cbn. all: try by intros ? ?%elem_of_nil. constructor.
  - exists []. split; [apply no_block_cache|]. intros i ps Hi. by apply elem_of_nil in Hi.
  - exists r, (st', db'). exact E.
Defined.

Lemma db_get_witness : exists mem r st',
  DB_Get NoSnappy NoCache NoCache (lit "db") sample_options true sample_open BytewiseComparator (mkReadOptions true true) None (lit "a") []
    (mkCaches None ([], 0), sample_db mem) = Some (r, st').
Proof.
  destruct (sample_table_file sample_new ltac:(by left)) as (parts8 & H8 & E8).
  destruct (sample_table_file sample_old ltac:(by right)) as (parts3 & H3 & E3). destruct sample_mem as [mem Hmem].
  pose proof (sample_files_ok _ _ parts8 parts3 eq_refl eq_refl H8 H3) as Hf. exists mem.
  destruct (db_get NoSnappy NoCache NoCache no_cache_inv no_cache_inv (lit "db") sample_options true sample_open
    (<[8 := (sample_table sample_new, parts8)]> {[3 := (sample_table sample_old, parts3)]}) BytewiseComparator (Some (NewBloomFilterPolicy 10)) sample_content [] [] (mkReadOptions true true) (sample_db mem) [sample_entry] [] None 12 (lit "a") [] 0 []
    (mkCaches None ([], 0)) NoCache_laws NoCache_laws _ eq_refl eq_refl) as (r & st' & db' & E & _).
  - intros p _. apply _.
  - exact Hf.
  - exact Hmem.
  - reflexivity.
  - exact sample_version_ok.
  - exact sample_newer_first.
  - intros level f Hl. destruct (vst_files _ _ _ _ _ (sample_stored _ _ parts8 parts3 1 eq_refl eq_refl E8 E3 (le_n 1)) level f Hl) as (Hs & Hc & _). done.
  - by intros x y _ ?%elem_of_nil.
  - intros x y ->%list_elem_of_singleton Hy Hk. repeat (apply elem_of_cons in Hy as [->|Hy]; [vm_compute in Hk |- *; congruence|]). by apply elem_of_nil in Hy.
  - reflexivity.
  - split; vm_compute; congruence.
  - reflexivity.
  - split; try done; cbn. all: try by intros ? ?%elem_of_nil. constructor.
  - exists []. apply no_block_cache.
  - exists r, (st', db'). exact E.
Defined.
