(* ===== verification/Obsolete.v ===== *)
(** * What a compaction drops: the key rules of DBImpl::DoCompactionWork

    The loop of db/db_impl.cpp that copies the merged input decides for every
    entry whether a snapshot can still need it. [drop_entry] is that decision
    with the state it keeps between entries; [kept] is what remains of a sorted
    input. A snapshot that is not older than the smallest one gets the same
    answers from the entries kept as from all of them, and a version with the
    outputs in the place of the inputs is again well-formed. *)

From S2P Require Import Prelude Coding Status Comparator Dbformat SkipList MemTable VersionEdit Version VersionSet Compaction Iterator DBRead.

(** ** The decision *)

(** [current_user_key], [has_current_user_key], [last_sequence_for_key] *)
Record KeyState := mkKeyState { ks_user_key : bytes; ks_has : bool; ks_last_sequence : Z }.

Definition new_KeyState : KeyState := mkKeyState [] false kMaxSequenceNumber.

Section Drop.
Context (ucmp : Comparator).

Definition drop_entry (smallest_snapshot : Z) (key : bytes) (ks : KeyState) (c : Compaction) : option (bool * KeyState * Compaction) :=
  match ParseInternalKey key with
  | None => Some (false, new_KeyState, c)
  | Some ikey =>
      let ks := if negb (ks_has ks) || negb (is_eq (Compare ucmp (user_key ikey) (ks_user_key ks)))
                then mkKeyState (user_key ikey) true kMaxSequenceNumber else ks in
      let next := mkKeyState (ks_user_key ks) (ks_has ks) (sequence ikey) in
      if ks_last_sequence ks <=? smallest_snapshot then Some (true, next, c)
      else if bool_decide (type ikey = kTypeDeletion) && (sequence ikey <=? smallest_snapshot) then
        r ← IsBaseLevelForKey ucmp (user_key ikey) c;
        Some (r.1, next, r.2)
      else Some (false, next, c)
  end.

(** The entries that are not dropped, when [base] answers for the deeper
    levels; [prev] is the user key and the sequence number of the entry before. *)
Fixpoint kept (smallest : Z) (base : bytes -> bool) (prev : option (bytes * Z)) (es : list Entry) : list Entry :=
  match es with
  | [] => []
  | e :: es =>
      let last := match prev with
                  | Some (u, s) => if is_eq (Compare ucmp (e_key e) u) then s else kMaxSequenceNumber
                  | None => kMaxSequenceNumber
                  end in
      let drop := (last <=? smallest) || (bool_decide (e_type e = kTypeDeletion) && (e_seq e <=? smallest) && base (e_key e)) in
      (if drop then [] else [e]) ++ kept smallest base (Some (e_key e, e_seq e)) es
  end.

End Drop.

(** ** What is kept *)

Section Kept.
Context (ucmp : Comparator) `{!TotalCmp (Compare ucmp)}.
Context (smallest : Z) (Hsmall : smallest < kMaxSequenceNumber) (base : bytes -> bool).

Abbreviation icmp := (InternalKey_Compare ucmp).
Abbreviation same_key a b := (Compare ucmp (e_key a) (e_key b) = Eq).

(** A newer entry of the same key is seen by every snapshot. *)
Definition hidden_in (E : list Entry) (e : Entry) : Prop :=
  exists x, x ∈ E /\ same_key x e /\ icmp (e_ikey x) (e_ikey e) = Lt /\ e_seq x <= smallest.

(** A deletion that has nothing left to delete. *)
Definition obsolete (e : Entry) : Prop := e_type e = kTypeDeletion /\ e_seq e <= smallest /\ base (e_key e) = true.

Definition last_key (P : list Entry) : option (bytes * Z) := (fun e => (e_key e, e_seq e)) <$> last P.

Lemma newer_seq x e : valid_seq (e_seq x) -> valid_seq (e_seq e) -> same_key x e -> icmp (e_ikey x) (e_ikey e) <> Gt -> e_seq e <= e_seq x.
Proof.
  intros Hx He Hk Hc. change (icmp (e_ikey x) (e_ikey e)) with (Compare (InternalKeyComparator ucmp) (e_ikey x) (e_ikey e)) in Hc.
  unfold e_ikey in Hc. rewrite InternalKey_Compare_spec, Hk in Hc by done. destruct (Z.compare_spec (e_seq e) (e_seq x)); [lia..|done].
Qed.

Lemma last_sequence P e : Forall entry_ok (P ++ [e]) -> sorted_entries ucmp (P ++ [e]) ->
  (match last_key P with
   | Some (u, s) => if is_eq (Compare ucmp (e_key e) u) then s else kMaxSequenceNumber
   | None => kMaxSequenceNumber
   end <=? smallest) = true <-> hidden_in P e.
Proof.
  intros Hok Hs. unfold last_key. destruct P as [|p P _] using rev_ind.
  { cbn. split; [intros H%Z.leb_le; lia|by intros (x & ?%elem_of_nil & _)]. }
  rewrite last_snoc. cbn [fmap option_fmap option_map]. rewrite !Forall_app, !Forall_singleton in Hok. destruct Hok as [[HP Hp] He].
  apply ssorted_app in Hs as ((_ & _ & Hxp)%ssorted_app & _ & Hpe).
  assert (Hpe' : icmp (e_ikey p) (e_ikey e) = Lt) by (apply Hpe; [apply elem_of_app; right|]; by left). clear Hpe. rename Hpe' into Hpe.
  assert (Hxp' : forall x, x ∈ P -> icmp (e_ikey x) (e_ikey p) = Lt) by (intros x Hx; apply Hxp; [done|by left]). clear Hxp. rename Hxp' into Hxp.
  rewrite Forall_forall in HP. split.
  - destruct (is_eq (Compare ucmp (e_key e) (e_key p))) eqn:Ek; [|intros H%Z.leb_le; lia]. apply is_eq_true in Ek. intros H%Z.leb_le.
    exists p. split; [apply elem_of_app; right; by left|]. split; [by apply (cmp_eq_sym (Compare ucmp))|done].
  - intros (x & Hx & Hk & Hlt & Hle). apply elem_of_app in Hx as [Hx|Hx%list_elem_of_singleton].
    + assert (Hkp : same_key p e).
      { pose proof (Hxp x Hx) as H1. assert (H1' : icmp (e_ikey x) (e_ikey p) <> Gt) by (by rewrite H1). assert (H2' : icmp (e_ikey p) (e_ikey e) <> Gt) by (by rewrite Hpe).
        apply (icmp_user_le ucmp) in H1', H2'. unfold e_ikey in H1', H2'. rewrite !ExtractUserKey_InternalKey in *.
        rewrite (cmp_eq_l (Compare ucmp) _ _ _ Hk) in H1'. apply (cmp_not_gt_le (Compare ucmp)) in H1'. by destruct (Compare ucmp (e_key p) (e_key e)). }
      rewrite (cmp_eq_sym (Compare ucmp) _ _ Hkp). cbn [is_eq]. apply Z.leb_le. transitivity (e_seq x); [|done].
      apply newer_seq; [by apply HP|apply Hp| |by rewrite Hxp]. rewrite (cmp_eq_r (Compare ucmp) _ _ _ Hkp). done.
    + subst x. rewrite (cmp_eq_sym (Compare ucmp) _ _ Hk). cbn [is_eq]. by apply Z.leb_le.
Qed.

Lemma kept_elem_from es : forall P e, Forall entry_ok (P ++ es) -> sorted_entries ucmp (P ++ es) ->
  e ∈ kept ucmp smallest base (last_key P) es <-> e ∈ es /\ ~ hidden_in (P ++ es) e /\ ~ obsolete e.
Proof.
  induction es as [|a es IH]; intros P e Hok Hs; cbn [kept].
  { split; [by intros ?%not_elem_of_nil|by intros [?%not_elem_of_nil _]]. }
  rewrite cons_middle, app_assoc in Hok, Hs |- *. specialize (IH (P ++ [a]) e Hok Hs). replace (last_key (P ++ [a])) with (Some (e_key a, e_seq a)) in IH by (unfold last_key; by rewrite last_snoc).
  rewrite elem_of_app, IH. pose proof Hs as (Hs1 & Hs2 & Hcross)%ssorted_app. pose proof Hok as [Hok1 _]%Forall_app. pose proof (last_sequence P a Hok1 Hs1) as Hl.
  (* the entry itself: only what stands before it can hide it *)
  assert (Hhid : hidden_in ((P ++ [a]) ++ es) a <-> hidden_in P a).
  { split; intros (x & Hx & Hk & Hlt & Hle); exists x; (split; [|done]); [|rewrite <- app_assoc; apply elem_of_app; by left].
    apply elem_of_app in Hx as [[Hx|Hx%list_elem_of_singleton]%elem_of_app|Hx]; [done|by subst; rewrite (cmp_refl icmp) in Hlt|].
    exfalso. assert (Hgt : icmp (e_ikey a) (e_ikey x) = Lt) by (apply Hcross; [apply elem_of_app; right; by left|done]). by apply (cmp_lt_irrefl icmp (e_ikey a)), (cmp_lt_trans icmp _ (e_ikey x)). }
  set (b1 := (_ <=? smallest)) in *. set (b2 := bool_decide _ && _ && _).
  assert (Hb2 : b2 = true <-> obsolete a) by (unfold b2, obsolete; rewrite !andb_true_iff, bool_decide_eq_true, Z.leb_le; tauto).
  assert (Hself : e ∈ (if b1 || b2 then [] else [a]) <-> e = a /\ ~ hidden_in ((P ++ [a]) ++ es) e /\ ~ obsolete e).
  { destruct (b1 || b2) eqn:Eb.
    - split; [by intros ?%not_elem_of_nil|]. intros (-> & H1 & H2). apply orb_true_iff in Eb as [Eb|Eb]; [by rewrite Hhid, <- Hl in H1|by apply Hb2 in Eb].
    - apply orb_false_iff in Eb as [E1 E2]. rewrite list_elem_of_singleton. split; [|by intros [-> _]]. intros ->. split; [done|].
      rewrite Hhid, <- Hl, <- Hb2, E1, E2. done. }
  rewrite Hself. rewrite elem_of_cons. tauto.
Qed.

Lemma kept_elem E e : Forall entry_ok E -> sorted_entries ucmp E ->
  e ∈ kept ucmp smallest base None E <-> e ∈ E /\ ~ hidden_in E e /\ ~ obsolete e.
Proof. apply (kept_elem_from E []). Qed.

Lemma kept_sublist E : forall prev, kept ucmp smallest base prev E `sublist_of` E.
Proof. induction E as [|e E IH]; intros prev; cbn [kept]; [constructor|]. destruct (_ || _); cbn [app]; by constructor. Qed.

(** ** Answers *)

(** No two entries of a key have the same sequence number. *)
Definition no_ties (es : list Entry) : Prop := forall x y, x ∈ es -> y ∈ es -> same_key x y -> e_seq x = e_seq y -> x = y.

Lemma visible_same u s x y : visible ucmp u s x -> visible ucmp u s y -> same_key x y.
Proof. intros [Hx _] [Hy _]. rewrite (cmp_eq_r (Compare ucmp) _ _ _ Hy). done. Qed.

Lemma answered_fun es u s value r r' : no_ties es -> answered ucmp es u s value r -> answered ucmp es u s value r' -> r = r'.
Proof.
  intros Ht [(e & (He & Hv & Hm) & ->)|[Hno ->]] [(e' & (He' & Hv' & Hm') & ->)|[Hno' ->]]; [|by destruct (Hno' e)|by destruct (Hno e')|done].
  f_equal. apply Ht; [done|done|by eapply visible_same|]. specialize (Hm e' He' Hv'). specialize (Hm' e He Hv). lia.
Qed.

Lemma newest_exists es u s : (exists e, newest ucmp es u s e) \/ forall e, e ∈ es -> ~ visible ucmp u s e.
Proof.
  induction es as [|x es IH]; [right; by intros e ?%not_elem_of_nil|].
  destruct (decide (Compare ucmp (e_key x) u = Eq /\ e_seq x <= s)) as [Hx|Hx].
  - left. destruct IH as [(e & He & Hv & Hm)|Hno].
    + destruct (decide (e_seq e <= e_seq x)).
      * exists x. split; [by left|]. split; [done|]. intros y [->|Hy]%elem_of_cons Hvy; [done|]. specialize (Hm y Hy Hvy). lia.
      * exists e. split; [by right|]. split; [done|]. intros y [->|Hy]%elem_of_cons Hvy; [lia|]. by apply Hm.
    + exists x. split; [by left|]. split; [done|]. intros y [->|Hy]%elem_of_cons Hvy; [done|]. by destruct (Hno y).
  - destruct IH as [(e & He & Hv & Hm)|Hno].
    + left. exists e. split; [by right|]. split; [done|]. intros y [->|Hy]%elem_of_cons Hvy; [done|]. by apply Hm.
    + right. intros y [->|Hy]%elem_of_cons Hvy; [done|]. by apply (Hno y).
Qed.

Lemma answered_total es u s value : exists r, answered ucmp es u s value r.
Proof. destruct (newest_exists es u s) as [[e He]|Hno]; eexists; [left; by exists e|by right]. Qed.

Lemma answered_elems es es' u s value r : (forall e, e ∈ es <-> e ∈ es') -> answered ucmp es u s value r -> answered ucmp es' u s value r.
Proof.
  intros Heq [(e & (He & Hv & Hm) & ->)|[Hno ->]]; [left; exists e; split; [|done]|right; split; [|done]].
  - split; [by apply Heq|]. split; [done|]. intros x Hx. apply Hm. by apply Heq.
  - intros x Hx. apply Hno. by apply Heq.
Qed.

(** The entries kept answer like all of them, to a snapshot that is not older
    than the smallest one. The others are newer than a deletion that went. *)
Lemma kept_forward E R u s value r : Forall entry_ok E -> sorted_entries ucmp E -> no_ties (E ++ R) ->
  (forall e x, e ∈ E -> x ∈ R -> same_key e x -> base (e_key e) = true -> e_seq e < e_seq x) -> smallest <= s ->
  answered ucmp (E ++ R) u s value r -> answered ucmp (kept ucmp smallest base None E ++ R) u s value r.
Proof.
  intros Hok Hs Ht Hb Hsm. pose proof (fun e => kept_elem E e Hok Hs) as Hel.
  assert (Hsub : forall e, e ∈ kept ucmp smallest base None E ++ R -> e ∈ E ++ R).
  { intros e [He|He]%elem_of_app; apply elem_of_app; [left; by apply Hel in He as [? _]|by right]. }
  intros [(e & (He & Hv & Hm) & ->)|[Hno ->]]; [|right; split; [|done]; intros x Hx; by apply Hno, Hsub].
  assert (Hkeep : e ∈ kept ucmp smallest base None E ++ R -> answered ucmp (kept ucmp smallest base None E ++ R) u s value (answer e value)).
  { intros Hk. left. exists e. split; [|done]. split; [done|]. split; [done|]. intros x Hx. by apply Hm, Hsub. }
  apply elem_of_app in He as [He|He]; [|apply Hkeep, elem_of_app; by right]. rewrite Forall_forall in Hok.
  assert (Hnh : ~ hidden_in E e).
  { intros (x & Hx & Hk & Hlt & Hle). assert (Hvx : visible ucmp u s x) by (split; [by rewrite (cmp_eq_l (Compare ucmp) _ _ _ Hk); apply Hv|lia]).
    specialize (Hm x ltac:(apply elem_of_app; by left) Hvx). assert (Hge : e_seq e <= e_seq x) by (apply newer_seq; [by apply Hok|by apply Hok|done|by rewrite Hlt]).
    assert (x = e) as -> by (apply Ht; [apply elem_of_app; by left..|done|lia]). by rewrite (cmp_refl icmp) in Hlt. }
  destruct (decide (obsolete e)) as [Ho|Ho]; [|apply Hkeep, elem_of_app; left; by apply Hel].
  (* a deletion that was dropped: nothing else of the key is visible *)
  destruct Ho as (Htype & Hle & Hbase). right. unfold answer. rewrite Htype. split; [|done].
  intros x Hx Hvx. pose proof (visible_same _ _ _ _ Hv Hvx) as Hk. specialize (Hm x (Hsub x Hx) Hvx). apply elem_of_app in Hx as [Hx|Hx].
  - apply Hel in Hx as (Hx & Hnx & Hox). destruct (icmp (e_ikey e) (e_ikey x)) eqn:Ec.
    + apply Hox. assert (x = e) as -> by (apply Ht; [apply elem_of_app; by left..|by apply (cmp_eq_sym (Compare ucmp))|];
        apply Z.le_antisymm; [done|]; apply newer_seq; [by apply Hok|by apply Hok|by apply (cmp_eq_sym (Compare ucmp))|]; rewrite (cmp_opp icmp), Ec; done). done.
    + apply Hnx. by exists e.
    + assert (Heq : e_seq e <= e_seq x) by (apply newer_seq; [by apply Hok|by apply Hok|by apply (cmp_eq_sym (Compare ucmp))|]; rewrite (cmp_opp icmp), Ec; done).
      assert (x = e) as -> by (apply Ht; [apply elem_of_app; by left..|by apply (cmp_eq_sym (Compare ucmp))|lia]). by rewrite (cmp_refl icmp) in Ec.
  - specialize (Hb e x He Hx Hk Hbase). lia.
Qed.

Lemma kept_answers E R u s value r : Forall entry_ok E -> sorted_entries ucmp E -> no_ties (E ++ R) ->
  (forall e x, e ∈ E -> x ∈ R -> same_key e x -> base (e_key e) = true -> e_seq e < e_seq x) -> smallest <= s ->
  answered ucmp (E ++ R) u s value r <-> answered ucmp (kept ucmp smallest base None E ++ R) u s value r.
Proof.
  intros Hok Hs Ht Hb Hsm. split; [by apply kept_forward|]. intros Hr. destruct (answered_total (E ++ R) u s value) as [r' Hr'].
  assert (r = r') as ->; [|done]. apply (answered_fun (kept ucmp smallest base None E ++ R) u s value); [|done|by apply kept_forward].
  intros x y Hx Hy. apply Ht; [apply elem_of_app in Hx|apply elem_of_app in Hy]; apply elem_of_app;
    [destruct Hx as [Hx|?]|destruct Hy as [Hy|?]]; try (by right); left; by apply (kept_elem E _ Hok Hs).
Qed.

End Kept.

(** ** The loop's decision *)

Section Decision.
Context (ucmp : Comparator) `{!TotalCmp (Compare ucmp)} (smallest : Z) (v : Version) (Hv : version_ok ucmp v).

(** What [drop_entry] finds out about an entry behind [prev]. *)
Definition dropped (base : bytes -> bool) (prev : option (bytes * Z)) (e : Entry) : bool :=
  (match prev with
   | Some (u, s) => if is_eq (Compare ucmp (e_key e) u) then s else kMaxSequenceNumber
   | None => kMaxSequenceNumber
   end <=? smallest) || (bool_decide (e_type e = kTypeDeletion) && (e_seq e <=? smallest) && base (e_key e)).

Lemma kept_cons base prev e es :
  kept ucmp smallest base prev (e :: es) = (if dropped base prev e then [] else [e]) ++ kept ucmp smallest base (Some (e_key e, e_seq e)) es.
Proof. done. Qed.

Definition state_ok (prev : option (bytes * Z)) (ks : KeyState) : Prop :=
  match prev with
  | Some (u, s) => ks_has ks = true /\ Compare ucmp (ks_user_key ks) u = Eq /\ ks_last_sequence ks = s
  | None => ks_has ks = false
  end.

(** The cursors over the deeper levels are not behind any entry to come. *)
Definition cursor_ok (c : Compaction) (es : list Entry) : Prop :=
  (exists id, c_input_version c = Some (id, v)) /\ forall e, e ∈ es -> ptrs_ok ucmp (e_key e) v (c_level_ptrs c).

Lemma cursor_start c id : c_input_version c = Some (id, v) -> c_level_ptrs c = replicate kNumLevels 0%nat -> forall es, cursor_ok c es.
Proof.
  intros Hc Hp es. split; [by exists id|]. intros e _. rewrite Hp. split; [done|]. intros lvl i f Hi.
  assert (H : default 0%nat (replicate kNumLevels 0%nat !! lvl) = 0%nat) by (do 7 (destruct lvl as [|lvl]; [done|]); done). rewrite H in Hi. lia.
Qed.

Lemma drop_entry_spec prev e es ks c : Forall entry_ok (e :: es) -> sorted_entries ucmp (e :: es) -> state_ok prev ks -> cursor_ok c (e :: es) ->
  exists ks' ptrs, drop_entry ucmp smallest (e_ikey e) ks c = Some (dropped (is_base ucmp v (c_level c)) prev e, ks', c_set_ptrs ptrs c) /\
    state_ok (Some (e_key e, e_seq e)) ks' /\ cursor_ok (c_set_ptrs ptrs c) es.
Proof.
  intros Hok Hs Hst Hcur. apply Forall_cons in Hok as [He _]. unfold drop_entry, e_ikey. rewrite ParseInternalKey_InternalKey by apply He. cbn [user_key sequence type].
  set (ks1 := if negb (ks_has ks) || _ then _ else ks).
  assert (Hks : ks_has ks1 = true /\ Compare ucmp (ks_user_key ks1) (e_key e) = Eq /\ ks_last_sequence ks1 =
    match prev with Some (u, s) => if is_eq (Compare ucmp (e_key e) u) then s else kMaxSequenceNumber | None => kMaxSequenceNumber end).
  { unfold ks1. destruct prev as [[u s]|]; cbn in Hst.
    - destruct Hst as (Hh & Hu & Hl). rewrite Hh. cbn [negb orb]. rewrite (cmp_eq_r (Compare ucmp) _ _ _ Hu). destruct (Compare ucmp (e_key e) u) eqn:E; cbn [is_eq negb].
      + split; [done|]. split; [|done]. rewrite (cmp_eq_l (Compare ucmp) _ _ _ Hu). by apply (cmp_eq_sym (Compare ucmp)).
      + split; [done|]. split; [apply (cmp_refl (Compare ucmp))|done].
      + split; [done|]. split; [apply (cmp_refl (Compare ucmp))|done].
    - rewrite Hst. cbn [negb orb]. split; [done|]. split; [apply (cmp_refl (Compare ucmp))|done]. }
  destruct Hks as (Hhas & Huk & Hlast). rewrite Hlast. unfold dropped. set (b1 := (_ <=? smallest)).
  assert (Hst' : state_ok (Some (e_key e, e_seq e)) (mkKeyState (ks_user_key ks1) (ks_has ks1) (e_seq e))) by done.
  destruct Hcur as [[id Hc] Hp].
  assert (Hsame : c = c_set_ptrs (c_level_ptrs c) c) by (by destruct c).
  assert (Hsame' : cursor_ok (c_set_ptrs (c_level_ptrs c) c) es) by (rewrite <- Hsame; split; [by exists id|]; intros x Hx; apply Hp; by right).
  destruct b1; cbn [orb]; [by exists (mkKeyState (ks_user_key ks1) (ks_has ks1) (e_seq e)), (c_level_ptrs c); rewrite <- Hsame|].
  destruct (bool_decide (e_type e = kTypeDeletion) && (e_seq e <=? smallest)) eqn:Eb; cbn [andb];
    [|by exists (mkKeyState (ks_user_key ks1) (ks_has ks1) (e_seq e)), (c_level_ptrs c); rewrite <- Hsame].
  destruct (IsBaseLevelForKey_spec ucmp (e_key e) c id v Hc Hv (Hp e ltac:(by left))) as (ptrs & -> & Hp'). cbn [mbind option_bind fst snd].
  eexists _, ptrs. split; [done|]. split; [done|]. split; [by exists id|]. cbn [c_set_ptrs c_level_ptrs]. intros x Hx.
  apply (ptrs_ok_mono ucmp (e_key e)); [|done]. apply StronglySorted_inv in Hs as [_ Hall]. rewrite Forall_forall in Hall. specialize (Hall x Hx).
  assert (Hle : InternalKey_Compare ucmp (e_ikey e) (e_ikey x) <> Gt) by (by rewrite Hall). apply (icmp_user_le ucmp) in Hle. unfold e_ikey in Hle. by rewrite !ExtractUserKey_InternalKey in Hle.
Qed.

End Decision.
