(* ===== verification/Install.v ===== *)
(** * The version a compaction installs

    The edit that replaces the inputs of a compaction by its outputs, applied to
    the current version: the builder of db/version_set.cpp accepts it, the new
    version is well-formed, data still only moves down, and every snapshot that
    is not older than the smallest one gets the same answers from it. The files
    of a level that share a user key with an input must be inputs themselves;
    [move_reorders_user_key] shows what happens otherwise. *)

From S2P Require Import Prelude Coding Status Comparator Dbformat SkipList MemTable VersionEdit Version VersionSet Recovery Compaction Iterator DBRead Obsolete.

(** ** Entries at different places *)

Lemma fop_perm {A} (R : A -> A -> Prop) l l' : (forall x y, R x y -> R y x) -> l ≡ₚ l' -> ForallOrdPairs R l -> ForallOrdPairs R l'.
Proof.
  intros Hsym. induction 1 as [|x l l' Hp IH|x y l|l l2 l' _ IH1 _ IH2]; intros H; [done|..|by apply IH2, IH1].
  - inversion H as [|? ? Hx Hl]; subst. constructor; [by rewrite <- Hp|by apply IH].
  - inversion H as [|? ? Hy Hl]; subst. inversion Hl as [|? ? Hx Hl']; subst. apply Forall_cons in Hy as [Hyx Hy].
    constructor; [|by constructor]. apply Forall_cons. split; [by apply Hsym|done].
Qed.

Lemma fop_app {A} (R : A -> A -> Prop) a b x y : ForallOrdPairs R (a ++ b) -> x ∈ a -> y ∈ b -> R x y.
Proof.
  induction a as [|z a IH]; [by intros _ ?%not_elem_of_nil|]. cbn. intros H. inversion H as [|? ? Hz Hl]; subst.
  intros [->|Hx]%elem_of_cons Hy; [|by apply IH]. rewrite Forall_app, !Forall_forall in Hz. by apply Hz.
Qed.

Lemma concat_map_app {A B} (f g : A -> list B) l : concat (map (fun x => f x ++ g x) l) ≡ₚ concat (map f l) ++ concat (map g l).
Proof.
  induction l as [|x l IH]; [done|]. cbn. rewrite IH, <- !app_assoc. apply Permutation_app_head. rewrite !app_assoc. apply Permutation_app_tail, Permutation_app_comm.
Qed.

Lemma concat_map_perm {A B} (f g : A -> list B) l : (forall x, x ∈ l -> f x ≡ₚ g x) -> concat (map f l) ≡ₚ concat (map g l).
Proof.
  induction l as [|x l IH]; intros H; [done|]. cbn. rewrite (H x) by (by left). rewrite IH; [done|]. intros y Hy. apply H. by right.
Qed.

Lemma concat_map_nested {A B C} (f : B -> list C) (g : A -> list B) l : concat (map (fun x => concat (map f (g x))) l) = concat (map f (concat (map g l))).
Proof. induction l as [|x l IH]; [done|]. cbn. by rewrite map_app, concat_app, IH. Qed.

(** No two entries of a key share their sequence number. *)
Definition distinct_seqs (ucmp : Comparator) (es : list Entry) : Prop :=
  ForallOrdPairs (fun a b => ~ (Compare ucmp (e_key a) (e_key b) = Eq /\ e_seq a = e_seq b)) es.

Lemma distinct_perm ucmp `{!TotalCmp (Compare ucmp)} l l' : l ≡ₚ l' -> distinct_seqs ucmp l -> distinct_seqs ucmp l'.
Proof. apply fop_perm. intros x y H [E1 E2]. apply H. split; [by apply (cmp_eq_sym (Compare ucmp))|done]. Qed.

Lemma distinct_no_ties ucmp `{!TotalCmp (Compare ucmp)} es : distinct_seqs ucmp es -> no_ties ucmp es.
Proof.
  induction 1 as [|a es Hall _ IH]; [by intros x y ?%not_elem_of_nil|]. rewrite Forall_forall in Hall.
  intros x y [->|Hx]%elem_of_cons [->|Hy]%elem_of_cons Hk Es; [done|by destruct (Hall y Hy)| |by apply IH].
  destruct (Hall x Hx). split; [by apply (cmp_eq_sym (Compare ucmp))|done].
Qed.

Section Install.
Context (ucmp : Comparator) `{!TotalCmp (Compare ucmp)} (tables : Z -> list Entry).

Abbreviation icmp := (InternalKey_Compare ucmp).
Abbreviation same_key a b := (Compare ucmp (e_key a) (e_key b) = Eq).

(** The entries of a file are those of the table with its number. *)
Definition table_of (f : FileMetaData) : list Entry := tables (number f).

Definition inputs_entries (i0 i1 : list FileMetaData) : list Entry := concat (map table_of (i0 ++ i1)).

(** No file of the level outside the inputs has a user key of an input. *)
Definition keys_apart (v : Version) (level : nat) (inputs : list FileMetaData) : Prop :=
  forall f g a b, f ∈ level_files v level -> f ∉ inputs -> g ∈ inputs -> a ∈ table_of f -> b ∈ table_of g -> ~ same_key a b.

(** Each output is cut out of the entries kept; its bounds are its first and
    last key. *)
Record outputs_of (K : list Entry) (outs : list FileMetaData) : Prop := {
  ou_entries : concat (map table_of outs) = K;
  ou_bounds : forall o, o ∈ outs -> exists a b, head (table_of o) = Some a /\ last (table_of o) = Some b /\ smallest o = e_ikey a /\ largest o = e_ikey b;
  ou_numbers : NoDup (map number outs)
}.

(** The edit deletes the inputs and adds the outputs to the next level. *)
Record replaces (e : VersionEdit) (level : nat) (i0 i1 outs : list FileMetaData) : Prop := {
  re_dels0 : forall n, n ∈ dels_at e level <-> n ∈ map number i0;
  re_dels1 : forall n, n ∈ dels_at e (level + 1) <-> n ∈ map number i1;
  re_dels : forall l, l <> level -> l <> (level + 1)%nat -> dels_at e l = [];
  re_news1 : news_at e (level + 1) = outs;
  re_news : forall l, l <> (level + 1)%nat -> news_at e l = []
}.

(** What every version of a running database satisfies. *)
Record version_inv (v : Version) : Prop := {
  vi_ok : version_ok ucmp v;
  vi_sorted : version_sorted ucmp v;
  vi_numbers : forall level, NoDup (numbers_at v level);
  vi_newer : newer_first ucmp table_of v;
  vi_content : forall level f, f ∈ level_files v level -> content_ok ucmp table_of f
}.

Section Compact.
Context (v : Version) (Hv : version_inv v) (level : nat) (Hlevel : (level + 1 < kNumLevels)%nat) (i0 i1 : list FileMetaData) (Hin : inputs_ok ucmp v level i0 i1).
Context (Hapart0 : keys_apart v level i0) (Hapart1 : keys_apart v (level + 1) i1).
Context (E : list Entry) (HE : E ≡ₚ inputs_entries i0 i1) (Hsorted : sorted_entries ucmp E).

Lemma input_file f : f ∈ i0 ++ i1 -> exists l, (l = level \/ l = (level + 1)%nat) /\ f ∈ level_files v l.
Proof.
  destruct Hin as [_ Hsub (r & _ & _ & ->) _]. intros [Hf|Hf]%elem_of_app.
  - exists level. split; [by left|]. by eapply elem_of_sublist.
  - exists (level + 1)%nat. split; [by right|]. by apply list_elem_of_In, filter_In in Hf as [Hf%list_elem_of_In _].
Qed.

Lemma input_entry e : e ∈ E <-> exists f, f ∈ i0 ++ i1 /\ e ∈ table_of f.
Proof.
  rewrite HE. unfold inputs_entries. rewrite list_elem_of_In, in_concat. split.
  - intros (es & Hes & He). apply list_elem_of_In, list_elem_of_fmap in Hes as (f & -> & Hf). exists f. split; [done|]. by apply list_elem_of_In.
  - intros (f & Hf & He). exists (table_of f). split; [apply list_elem_of_In; by apply list_elem_of_fmap_2|by apply list_elem_of_In].
Qed.

Lemma input_ok : Forall entry_ok E.
Proof.
  apply Forall_forall. intros e (f & Hf & He)%input_entry. destruct (input_file f Hf) as (l & _ & Hl). destruct (vi_content _ Hv l f Hl) as (Hok & _). rewrite Forall_forall in Hok. by apply Hok.
Qed.

(** An input's entry lies in the range of the first inputs, or in a file of the
    next level that meets it. *)
Lemma range_user r f e : range_of ucmp i0 r -> f ∈ i0 -> e ∈ table_of f ->
  Compare ucmp (ExtractUserKey r.1) (e_key e) <> Gt /\ Compare ucmp (e_key e) (ExtractUserKey r.2) <> Gt.
Proof.
  intros (Hr & _) Hf He. destruct (Hr f Hf) as [H1 H2]. destruct (input_file f ltac:(apply elem_of_app; by left)) as (l & _ & Hl).
  destruct (vi_content _ Hv l f Hl) as (_ & _ & Hb & _). destruct (Hb e He) as [H3 H4].
  apply (icmp_user_le ucmp) in H1, H2, H3, H4. unfold e_ikey in *. rewrite ExtractUserKey_InternalKey in *.
  split; by eapply (cmp_le_trans (Compare ucmp)).
Qed.

(** A file of the version that is not an input. *)
Definition outside (l : nat) (f : FileMetaData) : Prop :=
  f ∈ level_files v l /\ (l = level -> f ∉ i0) /\ (l = (level + 1)%nat -> f ∉ i1).

Lemma newer_entry l1 l2 f1 f2 a b : (l1 < l2)%nat -> f1 ∈ level_files v l1 -> f2 ∈ level_files v l2 -> a ∈ table_of f1 -> b ∈ table_of f2 ->
  same_key a b -> e_seq b <= e_seq a.
Proof.
  intros Hl [i1' H1]%list_elem_of_lookup [i2' H2]%list_elem_of_lookup Ha Hb. destruct (vi_newer _ Hv) as [Hn _].
  apply (Hn l1 l2); [done|apply elem_level_entries; by exists i1', f1|apply elem_level_entries; by exists i2', f2].
Qed.

Lemma outside_newer l f x e : outside l f -> (l <= level + 1)%nat -> x ∈ table_of f -> e ∈ E -> same_key e x -> e_seq e <= e_seq x.
Proof.
  intros (Hf & H0 & H1) Hl Hx (g & Hg & He)%input_entry Hk. apply (cmp_eq_sym (Compare ucmp)) in Hk. destruct Hin as [_ Hsub (r & _ & Hr & Hi1) _].
  apply elem_of_app in Hg as [Hg|Hg].
  - pose proof (elem_of_sublist _ _ _ Hg Hsub) as Hgl. destruct (Nat.lt_trichotomy l level) as [Hlt|[->|Hgt]].
    + by apply (newer_entry l level f g).
    + by destruct (Hapart0 f g x e Hf (H0 eq_refl) Hg Hx He).
    + assert (l = (level + 1)%nat) as -> by lia. destruct (H1 eq_refl). rewrite Hi1. apply list_elem_of_In, filter_In. split; [by apply list_elem_of_In|].
      destruct (range_user r g e Hr Hg He) as [Hlo Hhi]. rewrite <- (cmp_eq_r (Compare ucmp) _ _ _ Hk) in Hlo. rewrite <- (cmp_eq_l (Compare ucmp) _ _ _ Hk) in Hhi.
      destruct (visible_in_range ucmp table_of f (e_key x) (e_seq x) x) as [H3 H4]; [by apply (vi_content _ Hv (level + 1))|done|split; [apply (cmp_refl (Compare ucmp))|done]|].
      apply (overlaps_true ucmp). cbn. split; [by eapply (cmp_le_trans (Compare ucmp))|]. eapply (cmp_le_trans (Compare ucmp)); [|exact Hhi]. by apply (cmp_not_gt_le (Compare ucmp)).
  - rewrite Hi1 in Hg. pose proof Hg as [Hgl _]%list_elem_of_In%filter_In. apply list_elem_of_In in Hgl. rewrite <- Hi1 in Hg.
    destruct (decide (l = (level + 1)%nat)) as [->|Hne]; [by destruct (Hapart1 f g x e Hf (H1 eq_refl) Hg Hx He)|]. apply (newer_entry l (level + 1) f g); [lia|done..].
Qed.

Lemma level_lt l f : f ∈ level_files v l -> (l < kNumLevels)%nat.
Proof.
  destruct (vi_ok _ Hv) as [Hlen _]. intros Hf. destruct (decide (l < kNumLevels)%nat) as [|Hge]; [done|]. exfalso. unfold level_files in Hf.
  rewrite lookup_ge_None_2 in Hf by (rewrite Hlen; lia). by apply not_elem_of_nil in Hf.
Qed.

(** Below the next level a base key has no entries. *)
Lemma base_deep l f x e : (level + 2 <= l)%nat -> f ∈ level_files v l -> x ∈ table_of f -> same_key e x -> is_base ucmp v level (e_key e) = false.
Proof.
  intros Hl Hf Hx Hk. unfold is_base. apply negb_false_iff, existsb_exists. exists l. pose proof (level_lt l f Hf) as Hlt. split; [apply in_seq; lia|].
  apply existsb_exists. exists f. split; [by apply list_elem_of_In|]. apply (cmp_eq_sym (Compare ucmp)) in Hk.
  destruct (visible_in_range ucmp table_of f (e_key e) (e_seq x) x) as [H1 H2]; [by apply (vi_content _ Hv l)|done|by split|].
  apply (overlaps_true ucmp). cbn. split; [done|]. by apply (cmp_not_gt_le (Compare ucmp)).
Qed.

(** ** The outputs *)

Context (smallest_snapshot : Z) (Hsmall : smallest_snapshot < kMaxSequenceNumber).

Definition kept_entries : list Entry := kept ucmp smallest_snapshot (is_base ucmp v level) None E.

Context (outs : list FileMetaData) (Hout : outputs_of kept_entries outs).
Context (Hfresh : forall o l f, o ∈ outs -> f ∈ level_files v l -> number o <> number f).

Lemma kept_in e : e ∈ kept_entries -> e ∈ E.
Proof. intros He. eapply elem_of_sublist; [exact He|]. apply kept_sublist. Qed.

Lemma output_entry e : e ∈ kept_entries <-> exists o, o ∈ outs /\ e ∈ table_of o.
Proof.
  destruct Hout as [<- _ _]. rewrite list_elem_of_In, in_concat. split.
  - intros (es & Hes & He). apply list_elem_of_In, list_elem_of_fmap in Hes as (f & -> & Hf). exists f. split; [done|]. by apply list_elem_of_In.
  - intros (f & Hf & He). exists (table_of f). split; [apply list_elem_of_In; by apply list_elem_of_fmap_2|by apply list_elem_of_In].
Qed.

Lemma ssorted_sublist {A} (R : A -> A -> Prop) l l' : l' `sublist_of` l -> StronglySorted R l -> StronglySorted R l'.
Proof.
  induction 1 as [|x l' l Hs IH|x l' l Hs IH]; intros H; [done|..]; apply StronglySorted_inv in H as [H Hall].
  - constructor; [by apply IH|]. rewrite Forall_forall in Hall |- *. intros y Hy. apply Hall. by eapply elem_of_sublist.
  - by apply IH.
Qed.

Lemma kept_sorted : sorted_entries ucmp kept_entries.
Proof. eapply ssorted_sublist; [apply kept_sublist|exact Hsorted]. Qed.

Lemma head_le es a x : sorted_entries ucmp es -> head es = Some a -> x ∈ es -> icmp (e_ikey a) (e_ikey x) <> Gt.
Proof.
  destruct es as [|b es]; [done|]. intros [_ Hall]%StronglySorted_inv [= ->] [->|Hx]%elem_of_cons; [by rewrite (cmp_refl icmp)|].
  rewrite Forall_forall in Hall. by rewrite (Hall x Hx).
Qed.

Lemma last_ge es b x : sorted_entries ucmp es -> last es = Some b -> x ∈ es -> icmp (e_ikey x) (e_ikey b) <> Gt.
Proof.
  intros Hs [es' ->]%last_Some. apply ssorted_app in Hs as (_ & _ & Hc). intros [Hx|Hx%list_elem_of_singleton]%elem_of_app; [|subst; by rewrite (cmp_refl icmp)].
  rewrite Hc; [done|done|by left].
Qed.

Lemma output_part o : o ∈ outs -> exists pre suf, kept_entries = pre ++ table_of o ++ suf.
Proof.
  destruct Hout as [<- _ _]. intros (l1 & l2 & ->)%list_elem_of_split. exists (concat (map table_of l1)), (concat (map table_of l2)).
  by rewrite map_app, concat_app.
Qed.

Lemma kept_ok : Forall entry_ok kept_entries.
Proof. apply Forall_forall. intros e He%kept_in. pose proof input_ok as H. rewrite Forall_forall in H. by apply H. Qed.

Lemma entry_ikey_ok e : entry_ok e -> ikey_ok (e_ikey e).
Proof. intros (Hs & _). by exists (e_key e), (e_seq e), (e_type e). Qed.

Lemma output_content o : o ∈ outs -> content_ok ucmp table_of o /\ file_ok ucmp o.
Proof.
  intros Ho. destruct (output_part o Ho) as (pre & suf & EK). destruct (ou_bounds _ _ Hout o Ho) as (a & b & Ha & Hb & Hsm & Hla).
  pose proof kept_sorted as Hs. rewrite EK in Hs. apply ssorted_app in Hs as (_ & (Hs & _ & _)%ssorted_app & _).
  pose proof kept_ok as Hok. rewrite EK in Hok. apply Forall_app in Hok as [_ [Hok _]%Forall_app].
  assert (Hain : a ∈ table_of o) by (destruct (table_of o); [done|]; injection Ha as ->; by left). assert (Hbin : b ∈ table_of o) by (apply last_Some in Hb as [l ->]; apply elem_of_app; right; by left).
  pose proof (proj1 (Forall_forall _ _) Hok) as Hok'. split.
  - split; [done|]. split; [done|]. split; [|exists b; done]. intros e He. rewrite Hsm, Hla. split; [by eapply head_le|by eapply last_ge].
  - split; [rewrite Hsm; apply entry_ikey_ok; by apply Hok'|]. split; [rewrite Hla; apply entry_ikey_ok; by apply Hok'|]. rewrite Hsm, Hla. by eapply head_le.
Qed.

Lemma outs_sorted : StronglySorted (fun a b => icmp (largest a) (smallest b) = Lt) outs.
Proof.
  pose proof kept_sorted as Hs. destruct Hout as [HK Hb _]. rewrite <- HK in Hs. clear Hout Hfresh HK. induction outs as [|o os IH]; [constructor|]. cbn [map concat] in Hs.
  apply ssorted_app in Hs as (_ & Hs & Hcross). constructor; [apply IH; [done|]; intros x Hx; apply Hb; by right|]. apply Forall_forall. intros x Hx.
  destruct (Hb o ltac:(by left)) as (_ & b & _ & Hlb & _ & ->). destruct (Hb x ltac:(by right)) as (a & _ & Ha & _ & -> & _). apply Hcross.
  - apply last_Some in Hlb as [l ->]. apply elem_of_app. right. by left.
  - apply list_elem_of_In, in_concat. exists (table_of x). split; [apply list_elem_of_In; by apply list_elem_of_fmap_2|]. destruct (table_of x); [done|]. injection Ha as ->. by left.
Qed.

Lemma user_lt a b : Compare ucmp (ExtractUserKey a) (ExtractUserKey b) = Lt -> icmp a b = Lt.
Proof. intros Hc. unfold InternalKey_Compare. by rewrite Hc. Qed.

Lemma level_pair fs f g : level_ok ucmp fs -> f ∈ fs -> g ∈ fs -> f <> g -> icmp (largest f) (smallest g) = Lt \/ icmp (largest g) (smallest f) = Lt.
Proof.
  intros Hok [i Hi]%list_elem_of_lookup [j Hj]%list_elem_of_lookup Hne. destruct (Nat.lt_trichotomy i j) as [H|[->|H]].
  - left. by apply (level_ok_lookup ucmp fs i j).
  - congruence.
  - right. by apply (level_ok_lookup ucmp fs j i).
Qed.

(** Another file of the next level lies before all inputs or behind them. *)
Lemma outside_apart f : outside (level + 1) f ->
  (forall e, e ∈ E -> icmp (largest f) (e_ikey e) = Lt) \/ (forall e, e ∈ E -> icmp (e_ikey e) (smallest f) = Lt).
Proof.
  intros (Hf & _ & Hn). specialize (Hn eq_refl). destruct Hin as [_ _ (r & _ & Hr & Hi1) _]. pose proof (vi_ok _ Hv) as (_ & _ & _ & Hlv).
  assert (Hlok : level_ok ucmp (level_files v (level + 1))) by (apply Hlv; lia).
  assert (Hfok : file_ok ucmp f) by (destruct Hlok as [_ Hl]; rewrite Forall_forall in Hl; by apply Hl). destruct Hfok as (_ & _ & Hfle). apply (icmp_user_le ucmp) in Hfle.
  assert (Hout1 : in_range ucmp r f = false).
  { destruct (in_range ucmp r f) eqn:Ef; [|done]. destruct Hn. rewrite Hi1. apply list_elem_of_In, filter_In. split; [by apply list_elem_of_In|done]. }
  assert (Hg1 : forall g e, g ∈ i1 -> e ∈ table_of g -> g ∈ level_files v (level + 1) /\ in_range ucmp r g = true /\ f <> g /\
    icmp (smallest g) (e_ikey e) <> Gt /\ icmp (e_ikey e) (largest g) <> Gt).
  { intros g e Hg He. pose proof Hg as Hg'. rewrite Hi1 in Hg'. apply list_elem_of_In, filter_In in Hg' as [Hgl%list_elem_of_In Hgr]. split; [done|]. split; [done|]. split; [by intros ->|].
    destruct (vi_content _ Hv (level + 1) g Hgl) as (_ & _ & Hb & _). by apply Hb. }
  unfold in_range, overlaps in Hout1. apply negb_false_iff, orb_true_iff in Hout1 as [Ha|Hb]; [unfold AfterFile in Ha|unfold BeforeFile in Hb].
  - left. assert (Hlt : Compare ucmp (largest_user f) (ExtractUserKey r.1) = Lt) by (apply (cmp_gt_lt (Compare ucmp)); by destruct (Compare ucmp (ExtractUserKey r.1) (largest_user f))).
    intros e (g & [Hg|Hg]%elem_of_app & He)%input_entry.
    + apply user_lt. unfold e_ikey. rewrite ExtractUserKey_InternalKey. destruct (range_user r g e Hr Hg He) as [Hlo _]. by eapply (cmp_lt_le_trans (Compare ucmp)).
    + destruct (Hg1 g e Hg He) as (Hgl & Hgr & Hne & Hse & _). apply (overlaps_true ucmp) in Hgr as [Hgr _]. cbn in Hgr.
      destruct (level_pair _ f g Hlok Hf Hgl Hne) as [Hfg|Hgf]; [by eapply (cmp_lt_le_trans icmp)|]. exfalso.
      assert (Hle : icmp (largest g) (smallest f) <> Gt) by (by rewrite Hgf). apply (icmp_user_le ucmp) in Hle.
      apply (cmp_lt_irrefl (Compare ucmp) (largest_user f)). apply (cmp_lt_le_trans (Compare ucmp) _ (ExtractUserKey r.1)); [done|].
      eapply (cmp_le_trans (Compare ucmp)); [exact Hgr|]. by eapply (cmp_le_trans (Compare ucmp)).
  - right. assert (Hlt : Compare ucmp (ExtractUserKey r.2) (smallest_user f) = Lt) by (by destruct (Compare ucmp (ExtractUserKey r.2) (smallest_user f))).
    intros e (g & [Hg|Hg]%elem_of_app & He)%input_entry.
    + apply user_lt. unfold e_ikey. rewrite ExtractUserKey_InternalKey. destruct (range_user r g e Hr Hg He) as [_ Hhi]. by eapply (cmp_le_lt_trans (Compare ucmp)).
    + destruct (Hg1 g e Hg He) as (Hgl & Hgr & Hne & _ & Hle). apply (overlaps_true ucmp) in Hgr as [_ Hgr]. cbn in Hgr.
      destruct (level_pair _ f g Hlok Hf Hgl Hne) as [Hfg|Hgf]; [|by eapply (cmp_le_lt_trans icmp)]. exfalso.
      assert (Hle2 : icmp (largest f) (smallest g) <> Gt) by (by rewrite Hfg). apply (icmp_user_le ucmp) in Hle2.
      apply (cmp_lt_irrefl (Compare ucmp) (smallest_user f)). apply (cmp_le_lt_trans (Compare ucmp) _ (ExtractUserKey r.2)); [|done].
      eapply (cmp_le_trans (Compare ucmp)); [|exact Hgr]. by eapply (cmp_le_trans (Compare ucmp)).
Qed.

(** ** The new version *)

Context (e : VersionEdit) (Hre : replaces e level i0 i1 outs).
Context (Hcount : zlen (level_files v (level + 1)) + zlen outs < 2 ^ 31).

Lemma edit_fresh : fresh_edit e (numbers_at v).
Proof.
  intros l Hl. destruct (decide (l = (level + 1)%nat)) as [->|Hne]; [rewrite (re_news1 _ _ _ _ _ Hre)|rewrite (re_news _ _ _ _ _ Hre) by done].
  - split; [apply (ou_numbers _ _ Hout)|]. intros f Hf (g & En & Hg)%list_elem_of_fmap. by apply (Hfresh f (level + 1) g).
  - split; [constructor|]. by intros f ?%not_elem_of_nil.
Qed.

Lemma number_inj l f g : f ∈ level_files v l -> g ∈ level_files v l -> number f = number g -> f = g.
Proof.
  intros [i Hi]%list_elem_of_lookup [j Hj]%list_elem_of_lookup En. pose proof (vi_numbers _ Hv l) as Hnd. unfold numbers_at in Hnd.
  assert (i = j) as ->; [|congruence]. eapply (NoDup_lookup _ i j (number f) Hnd); rewrite list_lookup_fmap; [by rewrite Hi|rewrite Hj; cbn; by rewrite En].
Qed.

Lemma number_elem l fs f : fs ⊆ level_files v l -> f ∈ level_files v l -> number f ∈ map number fs <-> f ∈ fs.
Proof.
  intros Hsub Hf. split; [|apply list_elem_of_fmap_2]. intros (g & En & Hg)%list_elem_of_fmap. by rewrite (number_inj l f g); [|done|apply Hsub|].
Qed.

Lemma inputs_sub : i0 ⊆ level_files v level /\ i1 ⊆ level_files v (level + 1).
Proof.
  destruct Hin as [_ Hsub (r & _ & _ & ->) _]. split; [intros f Hf; by eapply elem_of_sublist|]. by intros f [Hf%list_elem_of_In _]%list_elem_of_In%filter_In.
Qed.

Lemma edited_elems l fs f : edited_level ucmp e v l fs -> f ∈ fs <-> outside l f \/ l = (level + 1)%nat /\ f ∈ map with_seeks outs.
Proof.
  intros [_ Hel]. rewrite Hel. clear Hel. destruct inputs_sub as [Hs0 Hs1].
  destruct (decide (l = (level + 1)%nat)) as [->|Hne1]; [rewrite (re_news1 _ _ _ _ _ Hre)|rewrite (re_news _ _ _ _ _ Hre) by done].
  - rewrite (re_dels1 _ _ _ _ _ Hre). unfold outside. split.
    + intros [[Hf Hn]|?]; [left|by right]. split; [done|]. split; [lia|]. intros _ Hf1. by apply Hn, list_elem_of_fmap_2.
    + intros [(Hf & _ & Hn)|[_ ?]]; [left|by right]. split; [done|]. rewrite (number_elem (level + 1)) by done. by apply Hn.
  - destruct (decide (l = level)) as [->|Hne0].
    + rewrite (re_dels0 _ _ _ _ _ Hre). unfold outside. split.
      * intros [[Hf Hn]|?%not_elem_of_nil]; [left|done]. split; [done|]. split; [|lia]. intros _ Hf0. by apply Hn, list_elem_of_fmap_2.
      * intros [(Hf & Hn & _)|[? _]]; [left|lia]. split; [done|]. rewrite (number_elem level) by done. by apply Hn.
    + rewrite (re_dels _ _ _ _ _ Hre) by done. unfold outside. split.
      * intros [[Hf _]|?%not_elem_of_nil]; [left|done]. split; [done|]. by split.
      * intros [(Hf & _ & _)|[? _]]; [left|lia]. split; [done|]. apply not_elem_of_nil.
Qed.

Lemma edited_file_ok l fs : edited_level ucmp e v l fs -> Forall (file_ok ucmp) fs.
Proof.
  intros Hed. apply Forall_forall. intros f [(Hf & _)|[-> (o & -> & Ho)%list_elem_of_fmap]]%(edited_elems l fs f Hed); [|by apply output_content in Ho as [_ Ho]].
  destruct (vi_ok _ Hv) as (_ & _ & H0 & Hd). assert (Hall : Forall (file_ok ucmp) (level_files v l)) by (destruct l as [|l]; [done|]; by apply Hd). rewrite Forall_forall in Hall. by apply Hall.
Qed.

Lemma outs_pair o1 o2 : o1 ∈ outs -> o2 ∈ outs -> o1 <> o2 -> icmp (largest o1) (smallest o2) = Lt \/ icmp (largest o2) (smallest o1) = Lt.
Proof. apply level_pair. split; [apply outs_sorted|]. apply Forall_forall. intros o Ho. by apply output_content. Qed.

Lemma output_keys o : o ∈ outs -> exists a b, a ∈ E /\ b ∈ E /\ smallest o = e_ikey a /\ largest o = e_ikey b.
Proof.
  intros Ho. destruct (ou_bounds _ _ Hout o Ho) as (a & b & Ha & Hb & Hs & Hl). exists a, b. split; [|split; [|done]]; apply kept_in, output_entry; exists o; (split; [done|]).
  - destruct (table_of o); [done|]. injection Ha as ->. by left.
  - apply last_Some in Hb as [l ->]. apply elem_of_app. right. by left.
Qed.

Lemma edited_pair l fs f g : edited_level ucmp e v l fs -> l <> 0%nat -> f ∈ fs -> g ∈ fs -> f <> g ->
  icmp (largest f) (smallest g) = Lt \/ icmp (largest g) (smallest f) = Lt.
Proof.
  intros Hed Hl Hf Hg Hne. apply (edited_elems l fs _ Hed) in Hf, Hg. destruct (vi_ok _ Hv) as (_ & _ & _ & Hd).
  destruct Hf as [Hf|[El0 (o & -> & Ho)%list_elem_of_fmap]], Hg as [Hg|[El1 (o' & -> & Ho')%list_elem_of_fmap]].
  - apply (level_pair (level_files v l)); [by apply Hd|apply Hf|apply Hg|done].
  - rewrite El1 in Hf. destruct (output_keys o' Ho') as (a & b & Ha & Hb & Es & El). cbn. rewrite Es, El. destruct (outside_apart f Hf) as [H|H]; [left|right]; by apply H.
  - rewrite El0 in Hg. destruct (output_keys o Ho) as (a & b & Ha & Hb & Es & El). cbn. rewrite Es, El. destruct (outside_apart g Hg) as [H|H]; [right|left]; by apply H.
  - cbn. apply outs_pair; [done|done|]. by intros ->.
Qed.

Lemma sorted_level_ok fs : files_sorted ucmp fs -> Forall (file_ok ucmp) fs ->
  (forall f g, f ∈ fs -> g ∈ fs -> f <> g -> icmp (largest f) (smallest g) = Lt \/ icmp (largest g) (smallest f) = Lt) -> level_ok ucmp fs.
Proof.
  intros Hs Hok Hp. split; [|done]. induction Hs as [|f fs Hs IH Hall]; [constructor|]. apply Forall_cons in Hok as [Hf Hok].
  constructor; [apply IH; [done|]; intros x y Hx Hy; apply Hp; by right|]. rewrite Forall_forall in Hall |- *. intros g Hg. specialize (Hall g Hg).
  assert (Hne : f <> g) by (intros ->; by rewrite (cmp_refl (bs_cmp ucmp)) in Hall). destruct (Hp f g ltac:(by left) ltac:(by right) Hne) as [?|Hgf]; [done|exfalso].
  rewrite Forall_forall in Hok. destruct (Hok g Hg) as (_ & _ & Hgle). unfold bs_cmp in Hall.
  assert (Hlt : icmp (smallest g) (smallest f) = Lt) by (by eapply (cmp_le_lt_trans icmp)). rewrite (cmp_opp icmp), Hlt in Hall. done.
Qed.

Lemma level_ok_no_overlap fs : level_ok ucmp fs -> no_overlap ucmp fs = true.
Proof.
  intros [Hs _]. induction Hs as [|f fs Hs IH Hall]; [done|]. destruct fs as [|g fs]; [done|]. apply Forall_cons in Hall as [Hfg _].
  change (is_lt (icmp (largest f) (smallest g)) && no_overlap ucmp (g :: fs) = true). by rewrite Hfg, IH.
Qed.

Lemma edited_level_ok l fs : edited_level ucmp e v l fs -> l <> 0%nat -> level_ok ucmp fs.
Proof. intros Hed Hl. apply sorted_level_ok; [apply Hed|by eapply edited_file_ok|]. intros f g Hf Hg. by eapply edited_pair. Qed.

(** The builder does not meet overlapping files. *)
Lemma install_total p : exists v', SaveTo ucmp (Apply ucmp e (new_Builder p v)) new_Version = Some v'.
Proof.
  set (b := Apply ucmp e (new_Builder p v)).
  destruct (SaveTo_edited ucmp e p v (fun l => VersionSet.keep (deleted_files (level_state b l)) (merge_files ucmp (level_files (base_ b) l) (added_files (level_state b l))))
    (vi_sorted _ Hv) edit_fresh) as (v' & Hs & _); [|by exists v'].
  intros l Hl. pose proof (builder_level ucmp e p v l (vi_sorted _ Hv) edit_fresh Hl) as Hb. cbv zeta in Hb. split; [exact Hb|].
  destruct (decide (l = 0%nat)) as [->|Hne]; [by left|right]. by eapply level_ok_no_overlap, edited_level_ok.
Qed.

Section New.
Context (p : list bytes) (v' : Version) (Hv' : SaveTo ucmp (Apply ucmp e (new_Builder p v)) new_Version = Some v').

Lemma new_level l : (l < kNumLevels)%nat -> edited_level ucmp e v l (level_files v' l).
Proof. apply (Apply_SaveTo ucmp e p v v' (vi_sorted _ Hv) edit_fresh Hv'). Qed.

Lemma new_elem l f : f ∈ level_files v' l <-> outside l f \/ l = (level + 1)%nat /\ f ∈ map with_seeks outs.
Proof.
  destruct (decide (l < kNumLevels)%nat) as [Hl|Hl]; [by apply edited_elems, new_level|]. split.
  - destruct (SaveTo_levels ucmp _ _ _ Hv') as [Hlen _]. unfold level_files. rewrite lookup_ge_None_2 by (rewrite Hlen; lia). by intros ?%not_elem_of_nil.
  - intros [[Hf _]|[-> _]]; [by apply level_lt in Hf|lia].
Qed.

Lemma sorted_nodup fs : files_sorted ucmp fs -> NoDup fs.
Proof.
  induction 1 as [|f fs Hs IH Hall]; [constructor|]. constructor; [|done]. intros Hf. rewrite Forall_forall in Hall. specialize (Hall f Hf).
  by rewrite (cmp_refl (bs_cmp ucmp)) in Hall.
Qed.

Lemma new_size l : zlen (level_files v' l) < 2 ^ 31.
Proof.
  destruct (vi_ok _ Hv) as (_ & Hz & _). destruct (decide (l < kNumLevels)%nat) as [Hl|Hl].
  - assert (Hnd : NoDup (level_files v' l)) by (apply sorted_nodup, new_level; done).
    destruct (decide (l = (level + 1)%nat)) as [->|Hne].
    + assert (Hsub : level_files v' (level + 1) ⊆+ level_files v (level + 1) ++ map with_seeks outs).
      { apply NoDup_submseteq; [done|]. intros f [[Hf _]|[_ Hf]]%new_elem; apply elem_of_app; [by left|by right]. }
      apply submseteq_length in Hsub. rewrite length_app, length_map in Hsub. unfold zlen in *. lia.
    + assert (Hsub : level_files v' l ⊆+ level_files v l) by (apply NoDup_submseteq; [done|]; by intros f [[Hf _]|[? _]]%new_elem).
      apply submseteq_length in Hsub. specialize (Hz l). unfold zlen in *. lia.
  - destruct (SaveTo_levels ucmp _ _ _ Hv') as [Hlen _]. unfold level_files. rewrite lookup_ge_None_2 by (rewrite Hlen; lia). done.
Qed.

Lemma new_content l f : f ∈ level_files v' l -> content_ok ucmp table_of f.
Proof. intros [[Hf _]|[_ (o & -> & Ho)%list_elem_of_fmap]]%new_elem; [by apply (vi_content _ Hv l)|]. by apply output_content in Ho as [Ho _]. Qed.

Lemma new_ok : version_ok ucmp v'.
Proof.
  destruct (SaveTo_levels ucmp _ _ _ Hv') as [Hlen _]. split; [done|]. split; [exact new_size|]. split; [eapply edited_file_ok, new_level; unfold kNumLevels; lia|].
  intros l Hl. destruct (decide (l < kNumLevels)%nat) as [Hlt|Hge]; [by eapply edited_level_ok, Hl; apply new_level|].
  unfold level_files. rewrite lookup_ge_None_2 by (rewrite Hlen; lia). split; constructor.
Qed.

(** An entry of the new version comes from a file that stayed, or is one of
    the entries kept, now in the next level. *)
Lemma new_entry l a : a ∈ level_entries table_of v' l <-> (exists f, outside l f /\ a ∈ table_of f) \/ l = (level + 1)%nat /\ a ∈ kept_entries.
Proof.
  rewrite elem_level_entries, output_entry. split.
  - intros (i & f & Hf%list_elem_of_lookup_2 & Ha). apply new_elem in Hf as [Hf|[-> (o & -> & Ho)%list_elem_of_fmap]]; [left; by exists f|right; split; [done|]; by exists o].
  - intros [(f & Hf & Ha)|[-> (o & Ho & Ha)]].
    + assert (Hin' : f ∈ level_files v' l) by (apply new_elem; by left). apply list_elem_of_lookup in Hin' as [i Hi]. by exists i, f.
    + assert (Hin' : with_seeks o ∈ level_files v' (level + 1)) by (apply new_elem; right; split; [done|]; by apply list_elem_of_fmap_2).
      apply list_elem_of_lookup in Hin' as [i Hi]. by exists i, (with_seeks o).
Qed.

Lemma kept_level a : a ∈ kept_entries -> exists l f, (l = level \/ l = (level + 1)%nat) /\ f ∈ level_files v l /\ a ∈ table_of f.
Proof. intros (f & Hf & Ha)%kept_in%input_entry. destruct (input_file f Hf) as (l & Hl & Hfl). by exists l, f. Qed.

Lemma new_newer : newer_first ucmp table_of v'.
Proof.
  split; [|split].
  - intros l1 l2 a b Hl [(f & Hf & Ha)|[-> Ha]]%new_entry [(g & Hg & Hb)|[-> Hb]]%new_entry Hk.
    + destruct Hf as [Hf _], Hg as [Hg _]. by apply (newer_entry l1 l2 f g).
    + apply (outside_newer l1 f a b); [done|lia|done|by apply kept_in|by apply (cmp_eq_sym (Compare ucmp))].
    + destruct (kept_level a Ha) as (l & f & Hlf & Hf & Haf). destruct Hg as [Hg _]. apply (newer_entry l l2 f g); [lia|done..].
    + lia.
  - intros f1 f2 a b [[H1 _]|[? _]]%new_elem [[H2 _]|[? _]]%new_elem Hn Ha Hb Hk; try lia. destruct (vi_newer _ Hv) as (_ & H0 & _). by apply (H0 f1 f2).
  - destruct (vi_newer _ Hv) as (_ & _ & Hnd). assert (Hl0 : (0 < kNumLevels)%nat) by (unfold kNumLevels; lia).
    apply NoDup_fmap_2_strong; [|apply sorted_nodup, (new_level 0 Hl0)]. intros x y [[Hx _]|[? _]]%new_elem [[Hy _]|[? _]]%new_elem En; try lia.
    by apply (number_inj 0).
Qed.

Lemma new_numbers l : NoDup (numbers_at v' l).
Proof.
  destruct (decide (l < kNumLevels)%nat) as [Hl|Hl].
  - apply NoDup_fmap_2_strong; [|by apply sorted_nodup, new_level]. intros x y Hx Hy En. apply new_elem in Hx as [[Hx _]|[-> (o & -> & Ho)%list_elem_of_fmap]].
    + apply new_elem in Hy as [[Hy _]|[-> (o & -> & Ho)%list_elem_of_fmap]]; [by apply (number_inj l)|]. by destruct (Hfresh o (level + 1) x).
    + apply new_elem in Hy as [[Hy _]|[_ (o' & -> & Ho')%list_elem_of_fmap]]; [by destruct (Hfresh o (level + 1) y)|].
      cbn in En. f_equal. apply list_elem_of_lookup in Ho as [i Hi], Ho' as [j Hj]. assert (i = j) as ->; [|congruence].
      eapply (NoDup_lookup _ i j (number o) (ou_numbers _ _ Hout)); rewrite list_lookup_fmap; [by rewrite Hi|rewrite Hj; cbn; by rewrite En].
  - destruct (SaveTo_levels ucmp _ _ _ Hv') as [Hlen _]. unfold numbers_at, level_files. rewrite lookup_ge_None_2 by (rewrite Hlen; lia). constructor.
Qed.

Lemma new_inv : version_inv v'.
Proof.
  split; [exact new_ok| |exact new_numbers|exact new_newer|exact new_content].
  apply (Apply_SaveTo ucmp e p v v' (vi_sorted _ Hv) edit_fresh Hv').
Qed.

(** ** Answers *)

(** The files of a level that stay. *)
Definition rest_files (l : nat) : list FileMetaData :=
  List.filter (fun f => negb (bool_decide (l = level /\ number f ∈ map number i0 \/ l = (level + 1)%nat /\ number f ∈ map number i1))) (level_files v l).

Lemma rest_elem l f : f ∈ rest_files l <-> outside l f.
Proof.
  destruct inputs_sub as [Hs0 Hs1]. unfold rest_files, outside. rewrite list_elem_of_In, filter_In, <- list_elem_of_In, negb_true_iff, bool_decide_eq_false. split.
  - intros [Hf Hn]. split; [done|]. split; intros -> Hi; apply Hn; [left|right]; (split; [done|]); by apply list_elem_of_fmap_2.
  - intros (Hf & H0 & H1). split; [done|]. intros [[-> Hi]|[-> Hi]]; [apply (H0 eq_refl)|apply (H1 eq_refl)]; [by apply (number_elem level)|by apply (number_elem (level + 1))].
Qed.

Definition inputs_at (l : nat) : list FileMetaData := if decide (l = level) then i0 else if decide (l = (level + 1)%nat) then i1 else [].

Lemma level_split l : level_files v l ≡ₚ inputs_at l ++ rest_files l.
Proof.
  assert (Hnd : NoDup (level_files v l)) by (by eapply NoDup_fmap_1, (vi_numbers _ Hv l)). destruct inputs_sub as [Hs0 Hs1].
  assert (Hin' : inputs_at l `sublist_of` level_files v l /\ forall f, f ∈ inputs_at l <-> (l = level /\ f ∈ i0) \/ (l = (level + 1)%nat /\ f ∈ i1)).
  { destruct Hin as [_ Hsub (r & _ & _ & Hi1) _]. unfold inputs_at. destruct (decide (l = level)) as [->|Hne]; [split; [done|]; intros f; split; [by left|intros [[_ ?]|[? _]]; [done|lia]]|].
    destruct (decide (l = (level + 1)%nat)) as [->|Hne']; [|split; [apply sublist_nil_l|]; intros f; split; [by intros ?%not_elem_of_nil|by intros [[? _]|[? _]]]].
    split; [rewrite Hi1; apply filter_sublist|]. intros f. split; [by right|by intros [[? _]|[_ ?]]]. }
  destruct Hin' as [Hsl Hel]. apply NoDup_Permutation; [done| |].
  - apply NoDup_app. split; [by eapply sublist_NoDup|]. split; [|by eapply sublist_NoDup; [|apply filter_sublist]].
    intros f Hf (_ & H0 & H1)%rest_elem. apply Hel in Hf as [[-> Hf]|[-> Hf]]; [by apply H0|by apply H1].
  - intros f. rewrite elem_of_app, rest_elem. split; [|intros [Hf|[Hf _]]; [by eapply elem_of_sublist|done]]. intros Hf. unfold outside. rewrite Hel.
    destruct (decide (number f ∈ map number (inputs_at l))) as [Hi|Hi]; rewrite (number_elem l) in Hi by (done || by intros x Hx; eapply elem_of_sublist); [left; by apply Hel|]. right. rewrite Hel in Hi. split; [done|]. split; intros ? ?; apply Hi; [by left|by right].
Qed.

Definition rest_entries : list Entry := concat (map (fun l => concat (map table_of (rest_files l))) (seq 0 kNumLevels)).

Lemma inputs_levels : concat (map inputs_at (seq 0 kNumLevels)) = i0 ++ i1.
Proof.
  unfold inputs_at. assert (H : (level < 6)%nat) by (unfold kNumLevels in Hlevel; lia). revert H. generalize level as n. clear. intros n H.
  do 6 (destruct n as [|n]; [cbn; by rewrite ?app_nil_r|]). lia.
Qed.

Lemma old_entries : version_entries table_of v ≡ₚ E ++ rest_entries.
Proof.
  unfold version_entries, rest_entries. rewrite HE. unfold inputs_entries. rewrite <- inputs_levels, <- concat_map_nested, <- concat_map_app.
  apply concat_map_perm. intros l _. unfold level_entries. rewrite (level_split l), map_app, concat_app. done.
Qed.

Lemma rest_entry a : a ∈ rest_entries <-> exists l f, (l < kNumLevels)%nat /\ outside l f /\ a ∈ table_of f.
Proof.
  unfold rest_entries. rewrite concat_map_nested, list_elem_of_In, in_concat. split.
  - intros (es & Hes & Ha). apply list_elem_of_In, list_elem_of_fmap in Hes as (f & -> & Hf). apply list_elem_of_In, in_concat in Hf as (fs & Hfs & Hf).
    apply list_elem_of_In, list_elem_of_fmap in Hfs as (l & -> & Hl). apply elem_of_seq in Hl. exists l, f. split; [lia|]. split; [by apply rest_elem, list_elem_of_In|by apply list_elem_of_In].
  - intros (l & f & Hl & Hf & Ha). exists (table_of f). split; [|by apply list_elem_of_In]. apply list_elem_of_In, list_elem_of_fmap_2, list_elem_of_In, in_concat.
    exists (rest_files l). split; [apply list_elem_of_In, list_elem_of_fmap_2, elem_of_seq; lia|by apply list_elem_of_In, rest_elem].
Qed.

Lemma new_entries a : a ∈ version_entries table_of v' <-> a ∈ kept_entries ++ rest_entries.
Proof.
  rewrite elem_of_app, rest_entry. unfold version_entries. rewrite list_elem_of_In, in_concat. split.
  - intros (es & Hes & Ha). apply list_elem_of_In, list_elem_of_fmap in Hes as (l & -> & Hl). apply elem_of_seq in Hl.
    apply list_elem_of_In, new_entry in Ha as [(f & Hf & Ha)|[_ Ha]]; [right; exists l, f; split; [lia|done]|by left].
  - intros [Ha|(l & f & Hl & Hf & Ha)]; [exists (level_entries table_of v' (level + 1))|exists (level_entries table_of v' l)];
      (split; [apply list_elem_of_In, list_elem_of_fmap_2, elem_of_seq; lia|apply list_elem_of_In, new_entry]); [by right|left; by exists f].
Qed.

(** Reads do not notice the compaction. *)
Lemma new_answers em ei u s value r : distinct_seqs ucmp (db_entries table_of em ei v) -> newer_than ucmp (em ++ ei) (version_entries table_of v) ->
  smallest_snapshot <= s ->
  answered ucmp (db_entries table_of em ei v) u s value r <-> answered ucmp (db_entries table_of em ei v') u s value r.
Proof.
  intros Hd Hnew Hs. unfold db_entries in *. set (R := em ++ ei ++ rest_entries).
  assert (Hp : em ++ ei ++ version_entries table_of v ≡ₚ E ++ R).
  { unfold R. rewrite old_entries, (app_assoc em ei), (app_assoc em ei). rewrite !(app_assoc _ _ rest_entries). apply Permutation_app_tail, Permutation_app_comm. }
  apply (distinct_perm ucmp _ _ Hp) in Hd. transitivity (answered ucmp (E ++ R) u s value r); [|transitivity (answered ucmp (kept_entries ++ R) u s value r)].
  - split; apply (answered_elems ucmp); intros a; by rewrite Hp.
  - apply (kept_answers ucmp smallest_snapshot Hsmall); [exact input_ok|exact Hsorted|by apply (distinct_no_ties ucmp)| |done].
    intros a x Ha Hx Hk Hbase. pose proof (fop_app _ _ _ a x Hd Ha Hx) as Hne. cbn in Hne. assert (e_seq a <= e_seq x); [|enough (e_seq a <> e_seq x) by lia; tauto].
    unfold R in Hx. rewrite app_assoc in Hx. apply elem_of_app in Hx as [Hx|(l & f & Hl & Hf & Hx)%rest_entry].
    + apply (Hnew x a Hx); [rewrite old_entries; apply elem_of_app; by left|by apply (cmp_eq_sym (Compare ucmp))].
    + destruct (decide (l <= level + 1)%nat) as [Hle|Hgt]; [by apply (outside_newer l f)|]. destruct Hf as [Hf _].
      rewrite (base_deep l f x a) in Hbase by (done || lia). done.
  - split; apply (answered_elems ucmp); intros a; unfold R; rewrite !elem_of_app, new_entries, elem_of_app; tauto.
Qed.

End New.

End Compact.
End Install.

(** ** The edit of a compaction *)

(** [CompactionState::Output] *)
Record Output := mkOutput { out_number : Z; out_file_size : Z; out_smallest : bytes; out_largest : bytes }.

Definition output_file (o : Output) : FileMetaData := new_file (out_number o) (out_file_size o) (out_smallest o) (out_largest o).

(** What [InstallCompactionResults] logs. *)
Definition results_edit (c : Compaction) (outputs : list Output) : VersionEdit :=
  fold_left (fun e out => AddFile (Z.of_nat (c_level c) + 1) (out_number out) (out_file_size out) (out_smallest out) (out_largest out) e)
    outputs (AddInputDeletions c (c_edit c)).

Lemma set_insert_iff x y s : y ∈ set_insert x s <-> y = x \/ y ∈ s.
Proof.
  induction s as [|z s IH]; cbn [set_insert]; [by rewrite elem_of_cons|].
  assert (Heq : pair_cmp x z = Eq -> x = z).
  { unfold pair_cmp. destruct x as [a b], z as [c d]. cbn. destruct (Z.compare_spec a c) as [->| |]; try done. intros ->%Z.compare_eq. done. }
  destruct (pair_cmp x z); rewrite ?elem_of_cons, ?IH; [|tauto..]. rewrite <- (Heq eq_refl). tauto.
Qed.

Lemma deletions_fold level fs : forall e, let e' := fold_left (fun e f => DeleteFile level (number f) e) fs e in
  new_files_ e' = new_files_ e /\ forall p, p ∈ deleted_files_ e' <-> p ∈ deleted_files_ e \/ exists f, f ∈ fs /\ p = (level, number f).
Proof.
  induction fs as [|f fs IH]; intros e; cbn [fold_left]; [split; [done|]; intros p; split; [by left|by intros [?|(f & ?%not_elem_of_nil & _)]]|].
  destruct (IH (DeleteFile level (number f) e)) as [H1 H2]. split; [done|]. intros p. rewrite H2. cbn [deleted_files_ DeleteFile]. rewrite set_insert_iff. split.
  - intros [[->|?]|(g & Hg & ->)]; [right; exists f; split; [by left|done]|by left|right; exists g; split; [by right|done]].
  - intros [?|(g & [->|Hg]%elem_of_cons & ->)]; [left; by right|left; by left|right; by exists g].
Qed.

Lemma additions_fold level outs : forall e, let e' := fold_left (fun e out => AddFile level (out_number out) (out_file_size out) (out_smallest out) (out_largest out) e) outs e in
  deleted_files_ e' = deleted_files_ e /\ new_files_ e' = new_files_ e ++ map (fun o => (level, output_file o)) outs.
Proof.
  induction outs as [|o outs IH]; intros e; cbn [fold_left map]; [by rewrite app_nil_r|]. edestruct IH as [H1 H2]. cbv zeta. rewrite H1, H2. split; [done|].
  cbn [new_files_ AddFile push_new_file]. by rewrite <- app_assoc.
Qed.

Lemma results_replace c outputs : new_files_ (c_edit c) = [] -> deleted_files_ (c_edit c) = [] ->
  replaces (results_edit c outputs) (c_level c) (c_inputs0 c) (c_inputs1 c) (map output_file outputs).
Proof.
  intros Hn Hd. unfold results_edit. destruct (additions_fold (Z.of_nat (c_level c) + 1) outputs (AddInputDeletions c (c_edit c))) as [H1 H2]. cbv zeta in H1, H2.
  unfold AddInputDeletions in *. set (e0 := fold_left _ (c_inputs0 c) (c_edit c)) in *. destruct (deletions_fold (Z.of_nat (c_level c)) (c_inputs0 c) (c_edit c)) as [D1 D2]. fold e0 in D1, D2.
  set (e1 := fold_left _ (c_inputs1 c) e0) in *. destruct (deletions_fold (Z.of_nat (c_level c) + 1) (c_inputs1 c) e0) as [D3 D4]. fold e1 in D3, D4.
  assert (Hdel : forall l n, n ∈ dels_at (fold_left (fun e out => AddFile (Z.of_nat (c_level c) + 1) (out_number out) (out_file_size out) (out_smallest out) (out_largest out) e) outputs e1) l <->
    (l = c_level c /\ n ∈ map number (c_inputs0 c)) \/ (l = (c_level c + 1)%nat /\ n ∈ map number (c_inputs1 c))).
  { intros l n. unfold dels_at. rewrite H1, list_elem_of_In, in_map_iff. setoid_rewrite filter_In. setoid_rewrite <- list_elem_of_In. setoid_rewrite D4. setoid_rewrite D2. rewrite Hd. split.
    - intros (p & <- & [[?%not_elem_of_nil|(f & Hf & ->)]|(f & Hf & ->)] & Hl%Nat.eqb_eq); [done|left|right]; cbn in Hl |- *; (split; [lia|by apply list_elem_of_fmap_2]).
    - intros [[-> (f & -> & Hf)%list_elem_of_fmap]|[-> (f & -> & Hf)%list_elem_of_fmap]].
      + exists (Z.of_nat (c_level c), number f). split; [done|]. split; [left; right; by exists f|]. apply Nat.eqb_eq. cbn. lia.
      + exists (Z.of_nat (c_level c) + 1, number f). split; [done|]. split; [right; by exists f|]. apply Nat.eqb_eq. cbn. lia. }
  assert (Hnew : forall l, news_at (fold_left (fun e out => AddFile (Z.of_nat (c_level c) + 1) (out_number out) (out_file_size out) (out_smallest out) (out_largest out) e) outputs e1) l =
    if (c_level c + 1 =? l)%nat then map output_file outputs else []).
  { intros l. unfold news_at. rewrite H2, D3, D1, Hn. cbn [app]. clear. assert (Hz : Z.to_nat (Z.of_nat (c_level c) + 1) = (c_level c + 1)%nat) by lia.
    induction outputs as [|o outputs IH]; cbn [map List.filter fst]; [by destruct (_ =? _)%nat|]. rewrite Hz. destruct (c_level c + 1 =? l)%nat; cbn [map snd]; by rewrite IH. }
  split.
  - intros n. rewrite Hdel. split; [intros [[_ ?]|[? _]]; [done|lia]|by left].
  - intros n. rewrite Hdel. split; [intros [[? _]|[_ ?]]; [lia|done]|by right].
  - intros l Hl0 Hl1. destruct (dels_at _ l) as [|n ns] eqn:En; [done|exfalso]. assert (Hx : n ∈ n :: ns) by (by left). rewrite <- En in Hx. by apply Hdel in Hx as [[? _]|[? _]].
  - by rewrite Hnew, Nat.eqb_refl.
  - intros l Hl. rewrite Hnew. by rewrite (proj2 (Nat.eqb_neq _ _)).
Qed.

Lemma complete_replaces e vs level i0 i1 outs : replaces e level i0 i1 outs -> replaces (complete_edit e vs) level i0 i1 outs.
Proof.
  assert (Hc : deleted_files_ (complete_edit e vs) = deleted_files_ e /\ new_files_ (complete_edit e vs) = new_files_ e).
  { unfold complete_edit. by repeat case_match. }
  destruct Hc as [Hd Hn]. intros [H1 H2 H3 H4 H5]. split; unfold dels_at, news_at in *; rewrite ?Hd, ?Hn; done.
Qed.

(** ** Properties *)


(** A deletion of [k] meets the value it deletes; both go. *)
Module Deleting.

Definition del : Entry := mkEntry 9 kTypeDeletion (lit "k") [].
Definition val : Entry := mkEntry 2 kTypeValue (lit "k") (lit "old").
Definition other : Entry := mkEntry 8 kTypeValue (lit "b") (lit "x").

Definition upper : FileMetaData := new_file 8 100 (e_ikey other) (e_ikey del).
Definition lower : FileMetaData := new_file 3 100 (e_ikey val) (e_ikey val).
Definition before : Version := mkVersion [[]; [upper]; [lower]; []; []; []; []] (Some upper) 1 (-1, 1) (-1).
Definition tables (n : Z) : list Entry := if n =? 8 then [other; del] else if n =? 3 then [val] else [other].
Definition vs : VersionSet := set_live before 1 [] new_VersionSet.
Definition c : Compaction := c_set_inputs [upper] [lower] (new_Compaction 2097152 1).
Definition merged : list Entry := [other; del; val].
Definition outputs : list Output := [mkOutput 12 60 (e_ikey other) (e_ikey other)].

Lemma file_levels l f : f ∈ level_files before l -> l = 1%nat /\ f = upper \/ l = 2%nat /\ f = lower.
Proof.
  destruct l as [|[|[|l]]]; [by intros ?%not_elem_of_nil|intros ->%list_elem_of_singleton; by left|intros ->%list_elem_of_singleton; by right|].
  do 4 (destruct l as [|l]; [by intros ?%not_elem_of_nil|]). by intros ?%not_elem_of_nil.
Qed.

Lemma oks : Forall entry_ok [other; del; val].
Proof. repeat constructor; vm_compute; congruence. Qed.

Lemma inputs_are_ok : file_ok BytewiseComparator upper /\ file_ok BytewiseComparator lower.
Proof.
  pose proof oks as (H1 & (H2 & (H3 & _)%Forall_cons)%Forall_cons)%Forall_cons.
  split; (split; [|split]); try (by apply entry_ikey_ok); vm_compute; discriminate.
Qed.

Lemma before_inv : version_inv BytewiseComparator tables before.
Proof.
  pose proof oks as (H1 & (H2 & (H3 & _)%Forall_cons)%Forall_cons)%Forall_cons. destruct inputs_are_ok. split.
  - apply Boundary.levels_ok; try done; split; repeat (apply SSorted_cons || apply SSorted_nil || apply Forall_cons_2 || apply Forall_nil_2); done.
  - intros l Hl. do 7 (destruct l as [|l]; [split; [repeat constructor|right; reflexivity]|]). unfold kNumLevels in Hl. lia.
  - intros l. do 7 (destruct l as [|l]; [repeat constructor; by intros ?%not_elem_of_nil|]). constructor.
  - split; [|split; [by intros f1 f2 a b ?%not_elem_of_nil|constructor]]. intros l1 l2 a b Hl (i & f & Hf%list_elem_of_lookup_2 & Ha)%elem_level_entries (j & g & Hg%list_elem_of_lookup_2 & Hb)%elem_level_entries Hk.
    apply file_levels in Hf as [[-> ->]|[-> ->]], Hg as [[? ->]|[-> ->]]; try lia. apply list_elem_of_singleton in Hb as ->.
    apply elem_of_cons in Ha as [->| ->%list_elem_of_singleton]; [by vm_compute in Hk|cbn; lia].
  - intros l f [[-> ->]|[-> ->]]%file_levels; (split; [|split; [|split]]).
    + by repeat constructor.
    + repeat constructor.
    + intros a [->| ->%list_elem_of_singleton]%elem_of_cons; split; vm_compute; discriminate.
    + exists del. split; [right; left|done].
    + by repeat constructor.
    + repeat constructor.
    + intros a ->%list_elem_of_singleton. split; vm_compute; discriminate.
    + exists val. split; [left|done].
Qed.

End Deleting.

