(* ===== verification/Store.v ===== *)
(** * The store: options, the outside world and the computations of DBImpl

    [Options] of include/leveldb/options.h and what db_impl.cpp makes of them.
    [System] collects what the database calls and the sources do not define:
    the file system, the compression library, the CMAC, and the two caches
    behind their interface. The operations of [DBImpl] are computations on the
    file system, the caches and the database object together. *)

From S2P Require Import Prelude Coding Status Comparator Dbformat Filter Env Filename VersionEdit Version VersionSet Iterator World Block Format TableBuilder Cache Table TableCache DB.

(** ** Options *)

(** [env], [info_log] and [block_cache] are in [System]. *)
Record Options := mkOptions {
  opt_comparator : Comparator;
  opt_create_if_missing : bool;
  opt_error_if_exists : bool;
  opt_paranoid_checks : bool;
  opt_write_buffer_size : Z;
  opt_max_open_files : Z;
  opt_block_size : Z;
  opt_block_restart_interval : Z;
  opt_max_file_size : Z;
  opt_compression : CompressionType;
  opt_reuse_logs : bool;
  opt_filter_policy : option FilterPolicy
}.

Definition new_Options : Options :=
  mkOptions BytewiseComparator false false false (Z.shiftl 4 20) 2000 4096 16 (Z.shiftl 2 20) kNoCompression false None.

(** [static_cast<int>] *)
Definition to_int (z : Z) : Z := (z + 2 ^ 31) mod 2 ^ 32 - 2 ^ 31.

(** The bounds are [int]s; the value is compared after a conversion to [int]. *)
Definition ClipToRange (v minvalue maxvalue : Z) : Z :=
  let v := if maxvalue <? to_int v then maxvalue else v in
  if to_int v <? minvalue then minvalue else v.

(** In range, as long as the value is an [int] or is not taken for one. *)
Lemma ClipToRange_ok v minvalue maxvalue : - 2 ^ 31 <= v < 2 ^ 31 -> - 2 ^ 31 <= minvalue <= maxvalue -> maxvalue < 2 ^ 31 ->
  ClipToRange v minvalue maxvalue = Z.max minvalue (Z.min maxvalue v).
Proof.
  intros Hv Hm Hx. assert (Hi : forall z, - 2 ^ 31 <= z < 2 ^ 31 -> to_int z = z) by (intros z Hz; unfold to_int; rewrite Z.mod_small; lia).
  unfold ClipToRange. rewrite (Hi v) by lia. destruct (Z.ltb_spec maxvalue v); rewrite Hi by lia; zcases; lia.
Qed.

(** A buffer of 4 GiB becomes one of 64 KiB. *)
Lemma ClipToRange_wraps : ClipToRange (Z.shiftl 4 30) (Z.shiftl 64 10) (Z.shiftl 1 30) = Z.shiftl 64 10.
Proof. by vm_compute. Qed.

Definition kNumNonTableCacheFiles : Z := 10.

(** The comparator and the filter policy become those of internal keys. *)
Definition SanitizeOptions (src : Options) : Options :=
  mkOptions (InternalKeyComparator (opt_comparator src)) (opt_create_if_missing src) (opt_error_if_exists src) (opt_paranoid_checks src)
    (ClipToRange (opt_write_buffer_size src) (Z.shiftl 64 10) (Z.shiftl 1 30))
    (ClipToRange (opt_max_open_files src) (64 + kNumNonTableCacheFiles) 50000)
    (ClipToRange (opt_block_size src) (Z.shiftl 1 10) (Z.shiftl 4 20))
    (opt_block_restart_interval src)
    (ClipToRange (opt_max_file_size src) (Z.shiftl 1 20) (Z.shiftl 1 30))
    (opt_compression src) (opt_reuse_logs src) (InternalFilterPolicy <$> opt_filter_policy src).

(** What the table builder and reader take from the options. *)
Definition table_options (o : Options) : TableOptions :=
  mkTableOptions (opt_comparator o) (opt_block_size o) (opt_block_restart_interval o) (opt_compression o) (opt_filter_policy o).

(** ** The outside *)

(** The operations of [Env] on directories, locks and time. *)
Record DirEnv (W : Type) := {
  NewRandomAccessFile : bytes -> W -> Status * option RandomAccessFile;
  GetChildren : bytes -> W -> Status * list bytes;
  FileExists : bytes -> W -> bool;
  CreateDir : bytes -> W -> Status * W;
  DeleteDir : bytes -> W -> Status * W;
  LockFile : bytes -> W -> Status * W;
  UnlockFile : bytes -> W -> Status * W;
  NowMicros : W -> Z * W
}.
Arguments NewRandomAccessFile {W}.
Arguments GetChildren {W}.
Arguments FileExists {W}.
Arguments CreateDir {W}.
Arguments DeleteDir {W}.
Arguments LockFile {W}.
Arguments UnlockFile {W}.
Arguments NowMicros {W}.

(** [sys_new_array]: what an array from [new char[]] holds, as cells of the
    Merkle tree; [sys_behind]: the memory behind the value of an entry. *)
Record System (W F C H CT HT : Type) := {
  sys_env : Env W;
  sys_dir : DirEnv W;
  sys_files : ReadEnv W F;
  sys_snappy : Snappy;
  sys_blocks : Cache C H Block;
  sys_tables : Cache CT HT Table;
  sys_cmac : bytes -> bytes;
  sys_new_array : W -> list bytes;
  sys_behind : W -> nat -> bytes
}.
Arguments sys_env {W F C H CT HT}.
Arguments sys_dir {W F C H CT HT}.
Arguments sys_files {W F C H CT HT}.
Arguments sys_snappy {W F C H CT HT}.
Arguments sys_blocks {W F C H CT HT}.
Arguments sys_tables {W F C H CT HT}.
Arguments sys_cmac {W F C H CT HT}.
Arguments sys_new_array {W F C H CT HT}.
Arguments sys_behind {W F C H CT HT}.

(** ** Computations *)

(** The file system and the caches; with the database object it is what a
    method of [DBImpl] works on. *)
Abbreviation Disk W C CT := (W * Caches C CT)%type.
Abbreviation Store W C CT := (Disk W C CT * DBImpl)%type.

Section Lift.
Context {W X : Type}.

Definition io {A} (f : W -> A * W) : M (W * X) A := fun g => let '(a, w) := f g.1 in Some (a, (w, g.2)).
Definition io_opt {A} (f : W -> option (A * W)) : M (W * X) A := fun g => match f g.1 with Some (a, w) => Some (a, (w, g.2)) | None => None end.

(** Calls on the state of the caches, with the files as they are now. *)
Definition at_world {A} (m : W -> M X A) : M (W * X) A := fun g => match m g.1 g.2 with Some (a, x) => Some (a, (g.1, x)) | None => None end.

Definition AtWorld {S} (it : W -> IteratorM X S) (it0 : IteratorM X S) : IteratorM (W * X) S := {|
  im_Valid := im_Valid it0;
  im_SeekToFirst := fun s => at_world (fun w => im_SeekToFirst (it w) s);
  im_SeekToLast := fun s => at_world (fun w => im_SeekToLast (it w) s);
  im_Seek := fun k s => at_world (fun w => im_Seek (it w) k s);
  im_Next := fun s => at_world (fun w => im_Next (it w) s);
  im_Prev := fun s => at_world (fun w => im_Prev (it w) s);
  im_key := im_key it0;
  im_value := im_value it0;
  im_status := im_status it0;
  im_delete := fun s => at_world (fun w => im_delete (it w) s)
|}.

End Lift.

Definition get_state {X} : M X X := fun x => Some (x, x).
Definition put_state {X} (x : X) : M X unit := fun _ => Some ((), x).
Definition modify {X} (f : X -> X) : M X unit := fun x => Some ((), f x).

(** A computation that does nothing under a condition. *)
Definition when_ok {G} (s : Status) (m : M G Status) : M G Status := if ok s then m else mret s.

(** ** A table builder on a file of the environment

    The builder is kept between calls; the file system may change in between. *)

Section Builder.
Context {W X : Type} (env : Env W) (snappy : Snappy).

Definition on_world (w : W) (r : TableRep W) : TableRep W := set_written w (t_offset r) (t_status r) r.

Definition run_builder {A} (op : TableRep W -> option (A * TableRep W)) (r : TableRep W) : M (W * X) (A * TableRep W) :=
  fun g => match op (on_world g.1 r) with Some (a, r) => Some ((a, r), (t_file r, g.2)) | None => None end.

Definition builder_new (options : TableOptions) : M (W * X) (TableRep W) :=
  fun g => match new_TableBuilder options g.1 with Some r => Some (r, g) | None => None end.

Definition builder_Add (fname key value : bytes) (r : TableRep W) : M (W * X) (TableRep W) :=
  a ← run_builder (fun r => (fun r => ((), r)) <$> TableBuilder_Add (Env_writable env fname) snappy key value r) r;
  mret a.2.

Definition builder_Finish (fname : bytes) (r : TableRep W) : M (W * X) (Status * TableRep W) :=
  run_builder (TableBuilder_Finish (Env_writable env fname) snappy) r.

End Builder.

(** ** A system in memory *)

(** Directories are prefixes of names; nothing fails, and time stands still. *)
Definition MemDir : DirEnv MemFS := {|
  NewRandomAccessFile f w :=
    match mem_view w f with
    | Some c => (Status_OK, Some (MemRandomAccess c))
    | None => (IOError f [], None)
    end;
  GetChildren d w := (Status_OK, map (drop (length d + 1)) (filter (fun f => take (length d + 1) f = d ++ lit "/") (map fst w)));
  FileExists f w := bool_decide (is_Some (mem_view w f));
  CreateDir _ w := (Status_OK, w);
  DeleteDir _ w := (Status_OK, w);
  LockFile f w := (Status_OK, mem_set f [] w);
  UnlockFile _ w := (Status_OK, w);
  NowMicros w := (0, w)
|}.

Definition MemSystem : System MemFS bytes (list Block * Z) nat (list Table * Z) nat := {|
  sys_env := MemEnv;
  sys_dir := MemDir;
  sys_files := MemReadEnv;
  sys_snappy := NoSnappy;
  sys_blocks := NoCache;
  sys_tables := NoCache;
  sys_cmac := take 16;
  sys_new_array _ := replicate 64 (replicate 16 x00);
  sys_behind _ _ := []
|}.
