(* ===== verification/DBFlush.v ===== *)
(** * Writing out a memtable: db/builder.cpp and the flush of db/db_impl.cpp

    [BuildTable] on the file system, [WriteLevel0Table], [CompactMemTable] and
    [DeleteObsoleteFiles]. The computations run on the file system, the caches
    and the [DBImpl]; where the source releases the mutex the parameter [others]
    stands for what other threads do in the meantime. The mutex is also released
    while [LogAndApply] writes the MANIFEST; that step is taken as a whole, only
    one thread logs at a time. *)

From S2P Require Import Prelude Coding Status Comparator Dbformat SkipList MemTable Env Filename VersionEdit Merkle Version VersionSet Iterator MemIter World Block Format TableBuilder Cache Table TableCache TableIter Snapshot DB Store.

(** [ReadOptions()] *)
Definition new_ReadOptions : ReadOptions := mkReadOptions false true.

(** [for (iter->SeekToFirst(); iter->Valid(); iter->Next())] over a memtable. *)
Fixpoint drain {S} (it : Iterator S) (fuel : nat) (s : S) : option (list (bytes * bytes)) :=
  match fuel with
  | O => None
  | Datatypes.S fuel =>
      if it_Valid it s then
        k ← it_key it s;
        v ← it_value it s;
        s ← it_Next it s;
        rest ← drain it fuel s;
        Some ((k, v) :: rest)
      else Some []
  end.

Definition mem_contents (ucmp : Comparator) (m : MemTable) : option (list (bytes * bytes)) :=
  s ← it_SeekToFirst (MemIterator ucmp) (MemTable_NewIterator m);
  drain (MemIterator ucmp) (S (length (nodes (table_ m)))) s.

Section Flush.
Context {W F C H CT HT : Type} (sys : System W F C H CT HT) (raw : Options) (dbname : bytes) (h : nat).
Context (others : M (Store W C CT) unit).

Abbreviation D := (Disk W C CT).
Abbreviation S := (Store W C CT).
Abbreviation env := (sys_env sys).
Abbreviation ucmp := (opt_comparator raw).
Abbreviation options := (SanitizeOptions raw).
Abbreviation topts := (table_options options).
Abbreviation TableState := ((Status * unit) + TwoLevel.TwoLevelIterator ((Status + BlockIter) * unit) ((Status + BlockIter) * option H) (TableArg (HT := HT)))%type.

(** [table_cache_->NewIterator(ReadOptions(), number, size)] *)
Definition table_iterator (number size : Z) : M D TableState :=
  at_world (fun w => TableCache_NewIterator (sys_snappy sys) (sys_blocks sys) (sys_tables sys) dbname topts (opt_paranoid_checks options)
    (fun f => NewRandomAccessFile (sys_dir sys) f w) number size).

(** Only the status is asked for and the iterator deleted: no fuel is used. *)
Definition table_iter : IteratorM (Caches C CT) TableState :=
  AnyTableIterator (sys_snappy sys) (sys_blocks sys) (sys_tables sys) topts new_ReadOptions 1.

Definition delete_table_iter (it : TableState) : M D unit := at_world (fun _ => im_delete table_iter it).

Fixpoint add_all (fname : bytes) (entries : list (bytes * bytes)) (r : TableRep W) : M D (TableRep W) :=
  match entries with
  | [] => mret r
  | e :: entries => r ← builder_Add env (sys_snappy sys) fname e.1 e.2 r; add_all fname entries r
  end.

(** The end of [BuildTable]; the iterator over a memtable has no errors. *)
Definition keep_or_delete (fname : bytes) (s : Status) (meta : FileMetaData) : M D (Status * FileMetaData) :=
  if ok s && (0 <? file_size meta) then mret (s, meta)
  else _ ← io (env_DeleteFile env fname); mret (s, meta).

(** The iterator that checks the table is deleted only if it failed. *)
Definition check_built (meta : FileMetaData) : M D Status :=
  it ← table_iterator (number meta) (file_size meta);
  let s := im_status table_iter it in
  if ok s then mret s else _ ← delete_table_iter it; mret s.

Definition BuildTable (entries : list (bytes * bytes)) (meta : FileMetaData) : M D (Status * FileMetaData) :=
  g ← get_state;
  let merkle := build_merkle (sys_cmac sys) h entries (sys_new_array sys g.1) in
  let meta := set_meta meta 0 (smallest meta) (largest meta) (rh meta) in
  let fname := TableFileName dbname (number meta) in
  match entries with
  | [] => keep_or_delete fname Status_OK meta
  | (first, _) :: _ =>
      s ← io (NewWritableFile env fname);
      if negb (ok s) then mret (s, meta)
      else
        r ← builder_new topts;
        g ← get_state;
        r ← add_all fname (Merkle.add_entries h (sys_behind sys g.1) merkle 0 entries) r;
        f ← builder_Finish env (sys_snappy sys) fname r;
        let '(s, r) := f in
        let size := if ok s then FileSize r else 0 in
        let meta := set_meta meta size first (List.last (map fst entries) first) (Some (root_hash h merkle)) in
        _ ← lift (if ok s && (size <=? 0) then None else Some ());
        s ← when_ok s (io (file_Sync env fname));
        s ← when_ok s (io (file_Close env fname));
        s ← when_ok s (check_built meta);
        keep_or_delete fname s meta
  end.

(** ** WriteLevel0Table *)

Definition new_output : M S Z := on_second (
  db ← get_state;
  let '(n, vs) := NewFileNumber (db_versions db) in
  _ ← put_state (db_set_pending ({[ n ]} ∪ db_pending_outputs db) (db_set_versions vs db));
  mret n).

Definition forget_output (n : Z) : M S unit := on_second (modify (fun db => db_set_pending (db_pending_outputs db ∖ {[ n ]}) db)).

(** The level for the new table; 0 without a base version. *)
Definition output_level (base : option nat) (meta : FileMetaData) : M S nat := on_second (
  db ← get_state;
  match base with
  | None => mret 0%nat
  | Some id =>
      l ← lift (live_version (db_versions db) id);
      lift (PickLevelForMemTableOutput ucmp (opt_max_file_size options) (lv_version l)
              (ExtractUserKey (smallest meta)) (ExtractUserKey (largest meta)))
  end).

Definition WriteLevel0Table (mem : MemTable) (edit : VersionEdit) (base : option nat) : M S (Status * VersionEdit) :=
  start_micros ← on_first (io (NowMicros (sys_dir sys)));
  number ← new_output;
  entries ← lift (mem_contents ucmp mem);
  b ← on_first (BuildTable entries (new_file number 0 [] []));
  _ ← others;
  let '(s, meta) := b in
  _ ← forget_output number;
  l ← (if ok s && (0 <? file_size meta) then
         level ← output_level base meta;
         mret (level, AddFile (Z.of_nat level) number (file_size meta) (smallest meta) (largest meta) edit)
       else mret (0%nat, edit));
  now ← on_first (io (NowMicros (sys_dir sys)));
  _ ← on_second (modify (db_add_stats l.1 (mkCStats (now - start_micros) 0 (file_size meta))));
  mret (s, l.2).

(** ** Obsolete files *)

Definition keep_file (live : gset Z) (vs : VersionSet) (number : Z) (type : FileType) : bool :=
  match type with
  | kLogFile => (vs_log_number vs <=? number) || (number =? vs_prev_log_number vs)
  | kDescriptorFile => vs_manifest_file_number vs <=? number
  | kTableFile | kTempFile => bool_decide (number ∈ live)
  | kCurrentFile | kDBLockFile | kInfoLogFile => true
  end.

Definition evict_table (number : Z) : M D unit :=
  at_world (fun _ c => match Evict (sys_tables sys) number c with Some c => Some ((), c) | None => None end).

Fixpoint delete_files (live : gset Z) (vs : VersionSet) (filenames : list bytes) : M D unit :=
  match filenames with
  | [] => mret ()
  | f :: filenames =>
      _ ← match ParseFileName f with
          | Some (number, type) =>
              if keep_file live vs number type then mret ()
              else
                _ ← (if bool_decide (type = kTableFile) then evict_table number else mret ());
                _ ← io (env_DeleteFile env (dbname ++ lit "/" ++ f));
                mret ()
          | None => mret ()
          end;
      delete_files live vs filenames
  end.

(** Errors of [GetChildren] are ignored; what it returned is used. *)
Definition DeleteObsoleteFiles : M S unit :=
  db ← on_second get_state;
  if negb (ok (db_bg_error db)) then mret ()
  else
    let live := AddLiveFiles (db_versions db) (db_pending_outputs db) in
    g ← on_first get_state;
    on_first (delete_files live (db_versions db) (GetChildren (sys_dir sys) dbname g.1).2).

(** ** CompactMemTable *)

Definition ref_version : M S nat := on_second (
  db ← get_state;
  let id := vs_current_id (db_versions db) in
  vs ← lift (version_Ref id (db_versions db));
  _ ← put_state (db_set_versions vs db);
  mret id).

Definition unref_version (id : nat) : M S unit := on_second (
  db ← get_state;
  vs ← lift (version_Unref id (db_versions db));
  put_state (db_set_versions vs db)).

Definition log_and_apply (edit : VersionEdit) : M S Status := fun st =>
  match LogAndApply ucmp env dbname edit (db_versions st.2) st.1.1 with
  | Some (s, vs, w) => Some (s, ((w, st.1.2), db_set_versions vs st.2))
  | None => None
  end.

Definition CompactMemTable : M S unit :=
  db ← on_second get_state;
  imm ← lift (db_imm db);
  base ← ref_version;
  r ← WriteLevel0Table imm new_VersionEdit (Some base);
  let '(s, edit) := r in
  _ ← unref_version base;
  db ← on_second get_state;
  let s := if ok s && db_shutting_down db then IOError (lit "Deleting DB during memtable compaction") [] else s in
  s ← when_ok s (log_and_apply (SetLogNumber (db_logfile_number db) (SetPrevLogNumber 0 edit)));
  if ok s then
    _ ← on_second (modify (fun db => db_set_mem (db_mem db) None db));
    DeleteObsoleteFiles
  else on_second (modify (RecordBackgroundError s)).

End Flush.

(** ** Which files are removed *)

Section Removal.
Context {W F C H CT HT : Type} (sys : System W F C H CT HT) (view : W -> bytes -> option bytes) `{!EnvLaws (sys_env sys) view}.
Context (tcinv : CT -> gmap bytes Table -> list (HT * Table) -> Z -> Prop) `{!CacheLaws (sys_tables sys) tcinv}.
Context (dbname : bytes).

Abbreviation path c := (dbname ++ lit "/" ++ c).
Abbreviation DeleteFile_removes := (forall f w, view (env_DeleteFile (sys_env sys) f w).2 f = None).

(** The file is not removed. *)
Definition spared (live : gset Z) (vs : VersionSet) (c : bytes) : bool :=
  match ParseFileName c with Some (n, t) => keep_file live vs n t | None => true end.

Definition removed_exactly (live : gset Z) (vs : VersionSet) (filenames : list bytes) (w w' : W) : Prop :=
  (forall f, (forall c, c ∈ filenames -> f = path c -> spared live vs c = true) -> view w' f = view w f) /\
  (DeleteFile_removes -> forall c, c ∈ filenames -> spared live vs c = false -> view w' (path c) = None).

Lemma delete_one_spec live vs f w caches m held id : tcinv (tc_tables caches) m held id -> exists w' caches' m',
  delete_files sys dbname live vs [f] (w, caches) = Some ((), (w', caches')) /\ tcinv (tc_tables caches') m' held id /\
  removed_exactly live vs [f] w w'.
Proof.
  intros Ht. unfold removed_exactly, spared. cbn [delete_files]. unfold mbind, M_bind. cbn beta. destruct (ParseFileName f) as [[n t]|] eqn:Ep.
  2: { exists w, caches, m. split; [done|]. split; [done|]. split; [done|]. intros _ c ->%list_elem_of_singleton. by rewrite Ep. }
  destruct (keep_file live vs n t) eqn:Ek.
  { exists w, caches, m. split; [done|]. split; [done|]. split; [done|]. intros _ c ->%list_elem_of_singleton. by rewrite Ep, Ek. }
  assert (Hev : exists caches' m', (if bool_decide (t = kTableFile) then evict_table sys n else mret ()) (w, caches) = Some ((), (w, caches')) /\
                  tcinv (tc_tables caches') m' held id).
  { case_bool_decide; [|by exists caches, m]. unfold evict_table, at_world, Evict. cbn [fst snd].
    destruct (erase_law (tc_tables caches) m held id (EncodeFixed64 n) Ht) as (ct & -> & Hct). cbn [mbind option_bind]. by do 2 eexists. }
  destruct Hev as (caches' & m' & -> & Ht'). unfold io. cbn [fst snd].
  pose proof (fun g Hg => delete_frame (path f) w g Hg) as Hframe. destruct (env_DeleteFile (sys_env sys) (path f) w) as [s w'] eqn:Ed. cbn [snd] in Hframe.
  exists w', caches', m'. split; [done|]. split; [done|]. split.
  - intros g Hg. apply Hframe. intros ->. specialize (Hg f ltac:(by left) eq_refl). rewrite Ep, Ek in Hg. done.
  - intros Hdel c ->%list_elem_of_singleton _. specialize (Hdel (path f) w). by rewrite Ed in Hdel.
Qed.

Lemma delete_files_spec live vs filenames : forall w caches m held id, tcinv (tc_tables caches) m held id -> exists w' caches' m',
  delete_files sys dbname live vs filenames (w, caches) = Some ((), (w', caches')) /\ tcinv (tc_tables caches') m' held id /\
  removed_exactly live vs filenames w w'.
Proof.
  induction filenames as [|f filenames IH]; intros w caches m held id Ht.
  { exists w, caches, m. split; [done|]. split; [done|]. split; [done|]. by intros _ c ?%elem_of_nil. }
  destruct (delete_one_spec live vs f w caches m held id Ht) as (w1 & c1 & m1 & E1 & Ht1 & Hk1 & Hd1).
  destruct (IH w1 c1 m1 held id Ht1) as (w2 & c2 & m2 & E2 & Ht2 & Hk2 & Hd2). exists w2, c2, m2. split; [|split; [done|split]].
  - cbn [delete_files] in E1 |- *. unfold mbind, M_bind in E1 |- *. destruct (match ParseFileName f with _ => _ end (w, caches)) as [[[] st]|]; [|done].
    injection E1 as ->. exact E2.
  - intros g Hg. rewrite Hk2 by (intros c Hc; apply Hg; by right). apply Hk1. intros c ->%list_elem_of_singleton. apply Hg. by left.
  - intros Hdel c Hc Hs. destruct (decide (c ∈ filenames)) as [Hin|Hnin]; [by apply Hd2|]. apply elem_of_cons in Hc as [->|?]; [|done].
    rewrite Hk2; [by apply Hd1; [|left|]|]. intros c' Hc' E. apply app_inv_head, app_inv_head in E. by subst.
Qed.

Lemma DeleteObsoleteFiles_spec w caches db m held id : tcinv (tc_tables caches) m held id -> ok (db_bg_error db) = true -> exists w' caches' m',
  DeleteObsoleteFiles sys dbname ((w, caches), db) = Some ((), ((w', caches'), db)) /\ tcinv (tc_tables caches') m' held id /\
  removed_exactly (AddLiveFiles (db_versions db) (db_pending_outputs db)) (db_versions db) (GetChildren (sys_dir sys) dbname w).2 w w'.
Proof.
  intros Ht Hok. unfold DeleteObsoleteFiles. unfold mbind at 1, M_bind at 1. unfold on_second, get_state. cbn [fst snd]. rewrite Hok. cbn [negb].
  unfold mbind, M_bind, on_first. cbn [fst snd].
  destruct (delete_files_spec (AddLiveFiles (db_versions db) (db_pending_outputs db)) (db_versions db) (GetChildren (sys_dir sys) dbname w).2 w caches m held id Ht)
    as (w' & caches' & m' & -> & Ht' & Hr). by exists w', caches', m'.
Qed.

End Removal.

(** ** Properties *)

(** C8. Removing obsolete files never takes a file that is needed: the tables of
    the current version, of every version someone still refers to and of
    compactions under way, the logs and the MANIFEST in use, CURRENT and
    everything outside the directory stay as they are; every other database
    file the directory lists is gone. After a background error nothing is
    touched. *)
Theorem obsolete_files_safe {W F C H CT HT} (sys : System W F C H CT HT) view tcinv dbname w caches db pins m held id
    `{!EnvLaws (sys_env sys) view} `{!CacheLaws (sys_tables sys) tcinv} :
  (forall f w, view (env_DeleteFile (sys_env sys) f w).2 f = None) -> tcinv (tc_tables caches) m held id -> pins_ok pins (db_versions db) ->
  let vs := db_versions db in
  exists w' caches', DeleteObsoleteFiles sys dbname ((w, caches), db) = Some ((), ((w', caches'), db)) /\
  (ok (db_bg_error db) = false -> w' = w) /\
  (forall n, fits 64 n -> n ∈ version_numbers (vs_current vs) \/ n ∈ db_pending_outputs db \/
      (exists v l, v ∈ pins /\ live_version vs v = Some l /\ n ∈ version_numbers (lv_version l)) ->
    view w' (TableFileName dbname n) = view w (TableFileName dbname n)) /\
  (forall n, fits 64 n -> vs_log_number vs <= n \/ n = vs_prev_log_number vs -> view w' (LogFileName dbname n) = view w (LogFileName dbname n)) /\
  (forall n, fits 64 n -> vs_manifest_file_number vs <= n -> view w' (DescriptorFileName dbname n) = view w (DescriptorFileName dbname n)) /\
  view w' (CurrentFileName dbname) = view w (CurrentFileName dbname) /\
  (forall f, (forall c, f <> dbname ++ lit "/" ++ c) -> view w' f = view w f) /\
  (ok (db_bg_error db) = true -> forall c n t, c ∈ (GetChildren (sys_dir sys) dbname w).2 -> ParseFileName c = Some (n, t) ->
    keep_file (AddLiveFiles vs (db_pending_outputs db)) vs n t = false -> view w' (dbname ++ lit "/" ++ c) = None).
Proof.
  intros Hdel Ht Hp vs. destruct (ok (db_bg_error db)) eqn:Hok.
  2: { exists w, caches. unfold DeleteObsoleteFiles. unfold mbind, M_bind, on_second, get_state. cbn [fst snd]. rewrite Hok. done. }
  destruct (DeleteObsoleteFiles_spec sys view tcinv dbname w caches db m held id Ht Hok) as (w' & caches' & m' & E & _ & Hkeep & Hgone).
  set (live := AddLiveFiles _ _) in *. assert (Hchild : forall c, spared live (db_versions db) c = true -> view w' (dbname ++ lit "/" ++ c) = view w (dbname ++ lit "/" ++ c)).
  { intros c Hc. apply Hkeep. intros d _ E'. by apply app_inv_head, app_inv_head in E' as <-. }
  exists w', caches'. split; [exact E|]. split; [done|]. split; [|split; [|split; [|split; [|split]]]].
  - intros n Hn Hl. apply (Hchild (decimal06 n ++ lit "." ++ lit "ldb")). unfold spared. rewrite (Parse_numbered n) by done. apply bool_decide_eq_true.
    destruct Hl as [Hl|[Hl|(v & l & Hv & El & Hl)]]; [apply AddLiveFiles_elem; right; eexists; split; [by left|done]|apply AddLiveFiles_elem; by left|].
    by eapply pinned_files_live.
  - intros n Hn Hl. apply (Hchild (decimal06 n ++ lit "." ++ lit "log")). unfold spared. rewrite (Parse_numbered n) by done. cbn [keep_file].
    apply orb_true_iff. destruct Hl; [left; by apply Z.leb_le|right; by apply Z.eqb_eq].
  - intros n Hn Hl. apply (Hchild (lit "MANIFEST-" ++ decimal06 n)). unfold spared. rewrite Parse_manifest by done. by apply Z.leb_le.
  - by apply (Hchild (lit "CURRENT")).
  - intros f Hf. apply Hkeep. intros c _ E'. by destruct (Hf c).
  - intros _ c n t Hc Hpn Hk. apply Hgone; [done|done|]. unfold spared. by rewrite Hpn.
Qed.

Lemma obsolete_files_safe_witness :
  let w : MemFS := [(lit "db/000003.ldb", lit "x"); (lit "db/000004.ldb", lit "y"); (lit "db/CURRENT", lit "z")] in
  let db := mkDB false (new_MemTable (fun _ => 0)) None 5 0 [] new_SnapshotList {[ 3 ]} false None new_VersionSet Status_OK [] in
  exists w' caches', DeleteObsoleteFiles MemSystem (lit "db") ((w, mkCaches None ([], 0)), db) = Some ((), ((w', caches'), db)) /\
    mem_view w' (lit "db/000003.ldb") = Some (lit "x") /\ mem_view w' (lit "db/000004.ldb") = None.
Proof.
  intros w db. destruct (obsolete_files_safe MemSystem mem_view no_cache_inv (lit "db") w (mkCaches None ([], 0)) db [] ∅ [] 0)
    as (w' & caches' & E & _ & Ht & _ & _ & _ & _ & Hg).
  - intros f w0. cbn [sys_env MemSystem MemEnv env_DeleteFile snd]. rewrite mem_view_remove. by rewrite decide_True.
  - split; [done|]. split; [done|]. by intros h v ?%elem_of_nil.
  - apply pins_ok_new.
  - exists w', caches'. split; [exact E|]. split.
    + change (lit "db/000003.ldb") with (TableFileName (lit "db") 3). rewrite (Ht 3 ltac:(unfold fits; lia)) by (right; left; change (3 ∈ ({[3]} : gset Z)); by apply elem_of_singleton). by vm_compute.
    + apply (Hg eq_refl (lit "000004.ldb") 4 kTableFile); [right; by left|by vm_compute..].
Defined.
