(* ===== verification/DBCompact.v ===== *)
(** * Compactions: the background work of db/db_impl.cpp

    [DoCompactionWork] merges the inputs of a compaction, drops what no snapshot
    needs and writes the rest into new tables of the next level;
    [BackgroundCompaction] chooses between a flush, a trivial move and a merge.
    The computations run on the store; [others] is what other threads do while
    the mutex is free. The CMAC the loop computes of every record is not used
    and is not modelled. *)

From S2P Require Import Prelude Coding Status Comparator Dbformat SkipList MemTable Env Filename VersionEdit Version VersionSet Compaction Iterator MemIter World TwoLevel Merger Block Format TableBuilder Cache Table TableCache TableIter VersionIter Snapshot DB DBRead Obsolete Install Store DBFlush.

(** [outfile] is the name of the open file; its number is that of the last
    output. *)
Record CompactionState (W : Type) := mkCState {
  cs_compaction : Compaction;
  cs_smallest_snapshot : Z;
  cs_outputs : list Output;
  cs_outfile : option bytes;
  cs_builder : option (TableRep W);
  cs_total_bytes : Z
}.
Arguments mkCState {W}.
Arguments cs_compaction {W}.
Arguments cs_smallest_snapshot {W}.
Arguments cs_outputs {W}.
Arguments cs_outfile {W}.
Arguments cs_builder {W}.
Arguments cs_total_bytes {W}.

Section State.
Context {W : Type}.

Definition new_CompactionState (c : Compaction) : CompactionState W := mkCState c 0 [] None None 0.

Definition cs_set_compaction (c : Compaction) (cs : CompactionState W) : CompactionState W :=
  mkCState c (cs_smallest_snapshot cs) (cs_outputs cs) (cs_outfile cs) (cs_builder cs) (cs_total_bytes cs).
Definition cs_set_snapshot (s : Z) (cs : CompactionState W) : CompactionState W :=
  mkCState (cs_compaction cs) s (cs_outputs cs) (cs_outfile cs) (cs_builder cs) (cs_total_bytes cs).
Definition cs_set_outputs (os : list Output) (cs : CompactionState W) : CompactionState W :=
  mkCState (cs_compaction cs) (cs_smallest_snapshot cs) os (cs_outfile cs) (cs_builder cs) (cs_total_bytes cs).
Definition cs_set_file (f : option bytes) (b : option (TableRep W)) (cs : CompactionState W) : CompactionState W :=
  mkCState (cs_compaction cs) (cs_smallest_snapshot cs) (cs_outputs cs) f b (cs_total_bytes cs).
Definition cs_add_bytes (n : Z) (cs : CompactionState W) : CompactionState W :=
  mkCState (cs_compaction cs) (cs_smallest_snapshot cs) (cs_outputs cs) (cs_outfile cs) (cs_builder cs) (u64 (cs_total_bytes cs + n)).

(** An assignment through [current_output()]. *)
Definition alter_last (f : Output -> Output) (os : list Output) : list Output := alter f (length os - 1)%nat os.

Definition current_output (cs : CompactionState W) : option Output := last (cs_outputs cs).

Definition set_bounds (first : bool) (key : bytes) (o : Output) : Output :=
  mkOutput (out_number o) (out_file_size o) (if first then key else out_smallest o) key.
Definition set_size (size : Z) (o : Output) : Output := mkOutput (out_number o) size (out_smallest o) (out_largest o).

End State.

Section Compact.
Context {W F C H CT HT : Type} (sys : System W F C H CT HT) (raw : Options) (dbname : bytes) (h fuel : nat).
Context (others : M (Store W C CT) unit).

Abbreviation D := (Disk W C CT).
Abbreviation S := (Store W C CT).
Abbreviation env := (sys_env sys).
Abbreviation ucmp := (opt_comparator raw).
Abbreviation options := (SanitizeOptions raw).
Abbreviation topts := (table_options options).
Abbreviation max_file_size := (opt_max_file_size options).
Abbreviation CState := (CompactionState W).

(** ** The merged input *)

Abbreviation TableState := ((Status * unit) + TwoLevelIterator ((Status + BlockIter) * unit) ((Status + BlockIter) * option H) (TableArg (HT := HT)))%type.
Abbreviation LevelState := (TwoLevelIterator (LevelFileNumIterator * unit) TableState unit).
Abbreviation InputState := ((Status * unit) + ((TableState + LevelState) + MergingIterator (TableState + LevelState)))%type.
Abbreviation open_at w := (fun f => NewRandomAccessFile (sys_dir sys) f w).

Definition input_options : ReadOptions := mkReadOptions (opt_paranoid_checks options) false.

Definition input_children (open : bytes -> Status * option RandomAccessFile) : IteratorM (Caches C CT) (TableState + LevelState) :=
  VersionIterator (sys_snappy sys) (sys_blocks sys) (sys_tables sys) dbname topts (opt_paranoid_checks options) open ucmp input_options fuel.

Definition input_at (open : bytes -> Status * option RandomAccessFile) : IteratorM (Caches C CT) InputState :=
  AnyMerged (InternalKeyComparator ucmp) (input_children open).

(** Looking at the current entry does not touch the files. *)
Definition InputIterator : IteratorM D InputState := AtWorld (fun w => input_at (open_at w)) (input_at (fun _ => (Status_OK, None))).

(** The iterators over [c->inputs_[which]]. *)
Definition input_list (open : bytes -> Status * option RandomAccessFile) (level which : nat) (files : list FileMetaData)
    : M (Caches C CT) (list (TableState + LevelState)) :=
  match files with
  | [] => mret []
  | _ =>
      if (level + which =? 0)%nat then
        add_files (sys_snappy sys) (sys_blocks sys) (sys_tables sys) dbname topts (opt_paranoid_checks options) open files
      else
        s ← lift (new_TwoLevelIterator (LevelIndex (C := C) (CT := CT) ucmp) (new_LevelFileNumIterator files, ()) ());
        mret [inr s]
  end.

Definition MakeInputIterator (c : Compaction) : M D InputState := at_world (fun w =>
  list0 ← input_list (open_at w) (c_level c) 0 (c_inputs0 c);
  list1 ← input_list (open_at w) (c_level c) 1 (c_inputs1 c);
  NewMergingIterator (input_children (open_at w)) (list0 ++ list1)).

(** ** Output files *)

Definition OpenCompactionOutputFile (cs : CState) : M S (Status * CState) :=
  _ ← lift (if cs_builder cs then None else Some ());
  number ← new_output;
  let cs := cs_set_outputs (cs_outputs cs ++ [mkOutput number 0 [] []]) cs in
  let fname := TableFileName dbname number in
  s ← on_first (io (NewWritableFile env fname));
  if ok s then
    r ← on_first (builder_new topts);
    mret (s, cs_set_file (Some fname) (Some r) cs)
  else mret (s, cs_set_file None None cs).

(** Opening the new table and closing it again. *)
Definition check_output (number size : Z) : M D Status :=
  it ← table_iterator sys raw dbname number size;
  let s := im_status (table_iter sys raw) it in
  _ ← delete_table_iter sys raw it;
  mret s.

(** [input_status] is the status of the merged input. *)
Definition FinishCompactionOutputFile (cs : CState) (input_status : Status) : M S (Status * CState) :=
  fname ← lift (cs_outfile cs);
  r ← lift (cs_builder cs);
  o ← lift (current_output cs);
  _ ← lift (if out_number o =? 0 then None else Some ());
  let current_entries := NumEntries r in
  f ← (if ok input_status then on_first (builder_Finish env (sys_snappy sys) fname r)
       else r ← lift (Abandon r); mret (input_status, r) : M S (Status * TableRep W));
  let '(s, r) := f in
  let current_bytes := FileSize r in
  let cs := cs_set_file None None (cs_add_bytes current_bytes (cs_set_outputs (alter_last (set_size current_bytes) (cs_outputs cs)) cs)) in
  s ← when_ok s (on_first (io (file_Sync env fname)));
  s ← when_ok s (on_first (io (file_Close env fname)));
  s ← when_ok s (if 0 <? current_entries then on_first (check_output (out_number o) current_bytes) else mret s);
  mret (s, cs).

(** ** The loop *)

(** [if (has_imm_.NoBarrier_Load() != NULL) ...], with the time it takes. *)
Definition prioritize_imm : M S Z :=
  db ← on_second get_state;
  match db_imm db with
  | Some _ =>
      imm_start ← on_first (io (NowMicros (sys_dir sys)));
      _ ← CompactMemTable sys raw dbname h others;
      now ← on_first (io (NowMicros (sys_dir sys)));
      mret (now - imm_start)
  | None => mret 0
  end.

(** What comes before the key is looked at: the file is closed if the
    compaction asks for it. *)
Definition stop_before (key : bytes) (input_status : Status) (cs : CState) : M S (Status * CState) :=
  r ← lift (ShouldStopBefore ucmp max_file_size key (cs_compaction cs));
  let cs := cs_set_compaction r.2 cs in
  if r.1 && (if cs_builder cs then true else false) then FinishCompactionOutputFile cs input_status else mret (Status_OK, cs).

(** The entry goes into the output file, which is opened if necessary and
    closed when it is big enough. *)
Definition write_entry (key value : bytes) (input_status : Status) (cs : CState) : M S (Status * CState) :=
  o ← match cs_builder cs with
      | None => OpenCompactionOutputFile cs
      | Some _ => mret (Status_OK, cs)
      end;
  let '(s, cs) := o in
  if negb (ok s) then mret (s, cs)
  else
    fname ← lift (cs_outfile cs);
    r ← lift (cs_builder cs);
    let cs := cs_set_outputs (alter_last (set_bounds (NumEntries r =? 0) key) (cs_outputs cs)) cs in
    r ← on_first (builder_Add env (sys_snappy sys) fname key value r);
    let cs := cs_set_file (Some fname) (Some r) cs in
    if c_max_output_file_size (cs_compaction cs) <=? FileSize r then FinishCompactionOutputFile cs input_status
    else mret (Status_OK, cs).

(** One entry; [ks] is what the rules on dropping remember. *)
Definition compact_entry (key value : bytes) (input_status : Status) (ks : KeyState) (cs : CState) : M S (Status * KeyState * CState) :=
  p ← stop_before key input_status cs;
  let '(s, cs) := p in
  if negb (ok s) then mret (s, ks, cs)
  else
    d ← lift (drop_entry ucmp (cs_smallest_snapshot cs) key ks (cs_compaction cs));
    let '(dropped, ks, c) := d in
    let cs := cs_set_compaction c cs in
    if (dropped : bool) then mret (Status_OK, ks, cs)
    else p ← write_entry key value input_status cs; mret (p.1, ks, p.2).

(** [n] bounds the entries of the input. *)
Fixpoint compact_loop (n : nat) (input : InputState) (ks : KeyState) (cs : CState) (imm_micros : Z) : M S (Status * InputState * CState * Z) :=
  match n with
  | O => lift None
  | Datatypes.S n =>
      _ ← others;
      db ← on_second get_state;
      if negb (im_Valid InputIterator input) || db_shutting_down db then mret (Status_OK, input, cs, imm_micros)
      else
        micros ← prioritize_imm;
        key ← lift (im_key InputIterator input);
        value ← lift (im_value InputIterator input);
        r ← compact_entry key value (im_status InputIterator input) ks cs;
        let '(s, ks, cs) := r in
        if negb (ok s) then mret (s, input, cs, imm_micros + micros)
        else
          input ← on_first (im_Next InputIterator input);
          compact_loop n input ks cs (imm_micros + micros)
  end.

(** ** The whole compaction *)

Definition smallest_snapshot (db : DBImpl) : option Z :=
  empty ← snapshots_empty (db_snapshots db);
  if (empty : bool) then Some (vs_last_sequence (db_versions db))
  else s ← oldest (db_snapshots db); snapshot_number s (db_snapshots db).

Definition InstallCompactionResults (cs : CState) : M S Status :=
  log_and_apply sys raw dbname (results_edit (cs_compaction cs) (cs_outputs cs)).

Definition compaction_stats (micros : Z) (cs : CState) : CompactionStats :=
  mkCStats micros (TotalFileSize (c_inputs0 (cs_compaction cs)) + TotalFileSize (c_inputs1 (cs_compaction cs)))
    (fold_left (fun n o => n + out_file_size o) (cs_outputs cs) 0).

(** After the loop: the last file is finished and the input asked for errors. *)
Definition end_loop (s : Status) (input_status : Status) (cs : CState) : M S (Status * CState) :=
  db ← on_second get_state;
  let s := if ok s && db_shutting_down db then IOError (lit "Deleting DB during compaction") [] else s in
  r ← (if ok s && (if cs_builder cs then true else false) then FinishCompactionOutputFile cs input_status else mret (s, cs));
  mret (if ok r.1 then input_status else r.1, r.2).

Definition DoCompactionWork (n : nat) (cs : CState) : M S (Status * CState) :=
  start_micros ← on_first (io (NowMicros (sys_dir sys)));
  db ← on_second get_state;
  _ ← lift (if NumLevelFiles (db_versions db) (c_level (cs_compaction cs)) <=? 0 then None else Some ());
  _ ← lift (match cs_builder cs, cs_outfile cs with None, None => Some () | _, _ => None end);
  smallest ← lift (smallest_snapshot db);
  let cs := cs_set_snapshot smallest cs in
  input ← on_first (MakeInputIterator (cs_compaction cs));
  input ← on_first (im_SeekToFirst InputIterator input);
  r ← compact_loop n input new_KeyState cs 0;
  let '(s, input, cs, imm_micros) := r in
  r ← end_loop s (im_status InputIterator input) cs;
  let '(s, cs) := r in
  _ ← on_first (im_delete InputIterator input);
  now ← on_first (io (NowMicros (sys_dir sys)));
  _ ← on_second (modify (db_add_stats (c_level (cs_compaction cs) + 1) (compaction_stats (now - start_micros - imm_micros) cs)));
  s ← when_ok s (InstallCompactionResults cs);
  _ ← (if ok s then mret () else on_second (modify (RecordBackgroundError s)));
  mret (s, cs).

Definition CleanupCompaction (cs : CState) : M S unit :=
  _ ← lift (match cs_builder cs, cs_outfile cs with
            | Some r, _ => _ ← Abandon r; Some ()
            | None, None => Some ()
            | None, Some _ => None
            end);
  on_second (modify (fun db => db_set_pending (fold_left (fun p o => p ∖ {[ out_number o ]}) (cs_outputs cs) (db_pending_outputs db)) db)).

(** [c->ReleaseInputs()], and what the destructor does to the version. *)
Definition release_inputs (c : Compaction) : M S Compaction := on_second (
  db ← get_state;
  r ← lift (ReleaseInputs c (db_versions db));
  _ ← put_state (db_set_versions r.2 db);
  mret r.1).

(** ** The background thread *)

(** The compaction asked for, or the one the versions call for. *)
Definition choose_compaction : M S (option Compaction) := on_second (
  db ← get_state;
  r ← lift (match db_manual db with
            | Some m => VersionSet_CompactRange ucmp max_file_size (mc_level m) (mc_begin m) (mc_end m) (db_versions db)
            | None => PickCompaction ucmp max_file_size (db_versions db)
            end);
  let '(c, vs) := r in
  let done (m : ManualCompaction) := mkManual (mc_level m) (match c with Some _ => false | None => true end) (mc_begin m) (mc_end m) in
  _ ← put_state (db_set_manual (done <$> db_manual db) (db_set_versions vs db));
  mret c).

Definition trivial_move (c : Compaction) : M S Status :=
  f ← lift (match c_inputs0 c with [f] => Some f | _ => None end);
  s ← log_and_apply sys raw dbname (move_edit c f);
  _ ← (if ok s then mret () else on_second (modify (RecordBackgroundError s)));
  mret s.

Definition run_compaction (n : nat) (c : Compaction) : M S Status :=
  r ← DoCompactionWork n (new_CompactionState c);
  let '(s, cs) := r in
  _ ← (if ok s then mret () else on_second (modify (RecordBackgroundError s)));
  _ ← CleanupCompaction cs;
  _ ← release_inputs (cs_compaction cs);
  _ ← DeleteObsoleteFiles sys dbname;
  mret s.

(** The largest key of the last input, the empty key without a compaction. *)
Definition manual_end (c : option Compaction) : option bytes :=
  match c with Some c => largest <$> last (c_inputs0 c) | None => Some [] end.

(** What is left of the range asked for goes back to the thread that waits for
    it. The request is read again: nothing is there if it was given up. *)
Definition finish_manual (last_key : bytes) (s : Status) : M S (option ManualCompaction) := on_second (
  db ← get_state;
  m ← lift (db_manual db);
  let done := if ok s then mc_done m else true in
  _ ← put_state (db_set_manual None db);
  mret (Some (mkManual (mc_level m) done (if done then mc_begin m else Some last_key) (mc_end m)))).

Definition BackgroundCompaction (n : nat) : M S (option ManualCompaction) :=
  db ← on_second get_state;
  match db_imm db with
  | Some _ => _ ← CompactMemTable sys raw dbname h others; mret None
  | None =>
      let is_manual := negb (bool_decide (db_manual db = None)) in
      c ← choose_compaction;
      last_key ← lift (manual_end c);
      s ← match c with
          | None => mret Status_OK
          | Some c =>
              if negb is_manual && IsTrivialMove max_file_size c then
                s ← trivial_move c;
                _ ← release_inputs c;
                mret s
              else run_compaction n c
          end;
      if is_manual then finish_manual last_key s else mret None
  end.

Definition BackgroundCall (n : nat) : M S (option ManualCompaction) :=
  db ← on_second get_state;
  _ ← lift (if db_scheduled db then Some () else None);
  r ← (if db_shutting_down db then mret None
       else if negb (ok (db_bg_error db)) then mret None
       else BackgroundCompaction n);
  _ ← on_second (modify (fun db => MaybeScheduleCompaction (db_set_scheduled false db)));
  mret r.

End Compact.
