(* ===== verification/DBWrite.v ===== *)
(** * The write path: DBImpl::Write and the queue of writers (db/db_impl.cpp)

    Writers wait in a queue; the one at the front makes room, joins the batches
    behind it into one, applies them and wakes the others. The threads are a
    step system: a step is what one thread does between two points where the
    mutex is free. The theorems follow every interleaving: each acknowledged
    batch is applied exactly once, in the order of the queue and with sequence
    numbers of its own, and every writer returns once there is room. *)

From S2P Require Import Prelude Coding Status Comparator Dbformat Arena SkipList MemTable WriteBatch Env Filename VersionEdit Version VersionSet Snapshot World DB Store.

(** ** Writers *)

(** [w_batch] is [None] for a compaction that only wants the memtable to be
    switched; the batches are the callers'. *)
Record Writer := mkWriter { w_status : Status; w_batch : option bytes; w_sync : bool; w_done : bool }.

(** Where the thread of a writer is in [Write], with its local variables. *)
Inductive WritePc :=
  | Waiting
  | MakingRoom (force allow_delay : bool)
  | Applying (updates : bytes) (in_tmp : bool) (last_writer : nat) (last_sequence : Z)
  | Applied (status : Status) (sync_error in_tmp : bool) (last_writer : nat) (last_sequence : Z)
  | Returned (status : Status).

(** A call of [Write]: [options.sync], its [Writer] and where it is. *)
Record Call := mkCall { call_sync : bool; call_writer : Writer; call_pc : WritePc }.

Definition call_at (pc : WritePc) (c : Call) : Call := mkCall (call_sync c) (call_writer c) pc.
Definition call_set (w : Writer) (c : Call) : Call := mkCall (call_sync c) w (call_pc c).

(** The calls are named by numbers; [ws_queue] is [writers_]. *)
Record WriteState (W : Type) := mkWS {
  ws_world : W;
  ws_db : DBImpl;
  ws_queue : list nat;
  ws_calls : gmap nat Call
}.
Arguments mkWS {W}.
Arguments ws_world {W}.
Arguments ws_db {W}.
Arguments ws_queue {W}.
Arguments ws_calls {W}.

(** ** Joining batches *)

(** The loop of [BuildBatchGroup] over the writers behind the first: the batch
    so far, whether it is [tmp_batch_], and the last writer it serves. *)
Fixpoint group_loop (max_size size : Z) (first : Writer) (first_batch tmp : bytes) (ws : list (nat * Writer))
    (result : bytes) (in_tmp : bool) (last_writer : nat) : option (bytes * bool * nat) :=
  match ws with
  | [] => Some (result, in_tmp, last_writer)
  | (i, w) :: ws =>
      if w_sync w && negb (w_sync first) then Some (result, in_tmp, last_writer)
      else
        match w_batch w with
        | Some b =>
            let size := u64 (size + ByteSize b) in
            if max_size <? size then Some (result, in_tmp, last_writer)
            else
              result ← (if in_tmp then Some result
                        else if Count tmp =? 0 then Some (WriteBatch_Append tmp first_batch) else None : option bytes);
              group_loop max_size size first first_batch tmp ws (WriteBatch_Append result b) true i
        | None => group_loop max_size size first first_batch tmp ws result in_tmp i
        end
  end.

Definition group_max_size (size : Z) : Z := if size <=? Z.shiftl 128 10 then size + Z.shiftl 128 10 else Z.shiftl 1 20.

Definition BuildBatchGroup (writers : list (nat * Writer)) (tmp : bytes) : option (bytes * bool * nat) :=
  match writers with
  | [] => None
  | (i, first) :: ws =>
      result ← w_batch first;
      let size := ByteSize result in
      group_loop (group_max_size size) size first result tmp ws result false i
  end.

Section Write.
Context {W : Type} (env : Env W) (dbname : bytes) (ucmp : Comparator) (base : nat -> Z) (write_buffer_size : Z).

Abbreviation State := (WriteState W).

(** ** Making room *)

Inductive RoomStep :=
  | Stop (s : Status) (w : W) (db : DBImpl)
  | Delayed
  | Switched (w : W) (db : DBImpl)
  | Wait.

(** One turn of the loop of [MakeRoomForWrite]: the loop ends, the writer is
    delayed once, the memtable is switched, or the writer waits on [bg_cv_]. *)
Definition MakeRoomForWrite_step (force allow_delay : bool) (w : W) (db : DBImpl) : option RoomStep :=
  let vs := db_versions db in
  if negb (ok (db_bg_error db)) then Some (Stop (db_bg_error db) w db)
  else if allow_delay && (kL0_SlowdownWritesTrigger <=? NumLevelFiles vs 0) then Some Delayed
  else if negb force && (ApproximateMemoryUsage (db_mem db) <=? write_buffer_size) then Some (Stop Status_OK w db)
  else if negb (bool_decide (db_imm db = None)) then Some Wait
  else if kL0_StopWritesTrigger <=? NumLevelFiles vs 0 then Some Wait
  else if negb (vs_prev_log_number vs =? 0) then None
  else
    let '(new_log_number, vs) := NewFileNumber vs in
    let '(s, w) := NewWritableFile env (LogFileName dbname new_log_number) w in
    if negb (ok s) then Some (Stop s w (db_set_versions (ReuseFileNumber new_log_number vs) db))
    else
      let db := db_set_logfile new_log_number (db_set_versions vs db) in
      Some (Switched w (MaybeScheduleCompaction (db_set_mem (new_MemTable base) (Some (db_mem db)) db))).

(** ** The queue *)

(** The loop that takes the writers up to [last_writer] off the queue and tells
    them the status. *)
Fixpoint pop_writers (me last_writer : nat) (s : Status) (queue : list nat) (calls : gmap nat Call) : option (list nat * gmap nat Call) :=
  match queue with
  | [] => None
  | ready :: queue =>
      calls ← (if (ready =? me)%nat then Some calls
               else c ← calls !! ready;
                    Some (<[ready := call_set (mkWriter s (w_batch (call_writer c)) (w_sync (call_writer c)) true) c]> calls) : option (gmap nat Call));
      if (ready =? last_writer)%nat then Some (queue, calls) else pop_writers me last_writer s queue calls
  end.

(** The end of [Write]. *)
Definition finish (me last_writer : nat) (s : Status) (st : State) : option State :=
  r ← pop_writers me last_writer s (ws_queue st) (ws_calls st);
  c ← r.2 !! me;
  Some (mkWS (ws_world st) (ws_db st) r.1 (<[me := call_at (Returned s) c]> r.2)).

Definition queued_writers (st : State) : option (list (nat * Writer)) :=
  mapM (fun i => c ← ws_calls st !! i; Some (i, call_writer c)) (ws_queue st).

(** ** The steps of a call *)

(** [Write] is called: the writer joins the queue. *)
Definition enter (me : nat) (batch : option bytes) (sync : bool) (st : State) : option State :=
  match ws_calls st !! me with
  | Some _ => None
  | None => Some (mkWS (ws_world st) (ws_db st) (ws_queue st ++ [me])
                   (<[me := mkCall sync (mkWriter Status_OK batch false false) Waiting]> (ws_calls st)))
  end.

(** The writer looks whether it is done, or at the front. *)
Definition wake (me : nat) (st : State) : option State :=
  c ← ws_calls st !! me;
  match call_pc c with
  | Waiting =>
      if w_done (call_writer c) then Some (mkWS (ws_world st) (ws_db st) (ws_queue st) (<[me := call_at (Returned (w_status (call_writer c))) c]> (ws_calls st)))
      else
        front ← head (ws_queue st);
        if (front =? me)%nat then
          let force := bool_decide (w_batch (call_writer c) = None) in
          Some (mkWS (ws_world st) (ws_db st) (ws_queue st) (<[me := call_at (MakingRoom force (negb force)) c]> (ws_calls st)))
        else None
  | _ => None
  end.

(** There is room or there never will be: the batches are joined and numbered,
    or the call ends. *)
Definition begin_group (me : nat) (s : Status) (st : State) : option State :=
  c ← ws_calls st !! me;
  let last_sequence := vs_last_sequence (db_versions (ws_db st)) in
  match w_batch (call_writer c) with
  | Some batch =>
      if ok s then
        writers ← queued_writers st;
        g ← BuildBatchGroup writers (db_tmp_batch (ws_db st));
        let '(updates, in_tmp, last_writer) := g in
        let updates := SetSequence updates (u64 (last_sequence + 1)) in
        let w := call_writer c in
        let c := if (in_tmp : bool) then c else call_set (mkWriter (w_status w) (Some updates) (w_sync w) (w_done w)) c in
        let db := if in_tmp then db_set_tmp_batch updates (ws_db st) else ws_db st in
        Some (mkWS (ws_world st) db (ws_queue st)
               (<[me := call_at (Applying updates in_tmp last_writer (u64 (last_sequence + Count updates))) c]> (ws_calls st)))
      else finish me me s st
  | None => finish me me s st
  end.

Definition make_room (me : nat) (st : State) : option State :=
  c ← ws_calls st !! me;
  match call_pc c with
  | MakingRoom force allow_delay =>
      r ← MakeRoomForWrite_step force allow_delay (ws_world st) (ws_db st);
      match r with
      | Stop s w db => begin_group me s (mkWS w db (ws_queue st) (ws_calls st))
      | Delayed => Some (mkWS (ws_world st) (ws_db st) (ws_queue st) (<[me := call_at (MakingRoom force false) c]> (ws_calls st)))
      | Switched w db => Some (mkWS w db (ws_queue st) (<[me := call_at (MakingRoom false allow_delay) c]> (ws_calls st)))
      | Wait => None
      end
  | _ => None
  end.

(** Without the mutex: the batch goes into the memtable. It is not written to
    the log: the call of [AddRecord] is commented out. *)
Definition apply (me : nat) (st : State) : option State :=
  c ← ws_calls st !! me;
  match call_pc c with
  | Applying updates in_tmp last_writer last_sequence =>
      let db := ws_db st in
      let '(s, w) := if call_sync c then file_Sync env (LogFileName dbname (db_logfile_number db)) (ws_world st) else (Status_OK, ws_world st) in
      if ok s then
        r ← InsertInto ucmp base updates (db_mem db);
        mem ← r.1;
        Some (mkWS w (db_set_mem mem (db_imm db) db) (ws_queue st) (<[me := call_at (Applied r.2 false in_tmp last_writer last_sequence) c]> (ws_calls st)))
      else Some (mkWS w db (ws_queue st) (<[me := call_at (Applied s true in_tmp last_writer last_sequence) c]> (ws_calls st)))
  | _ => None
  end.

(** With the mutex again: the sequence number is published and the queue
    served. *)
Definition publish (me : nat) (st : State) : option State :=
  c ← ws_calls st !! me;
  match call_pc c with
  | Applied s sync_error in_tmp last_writer last_sequence =>
      let db := if (sync_error : bool) then RecordBackgroundError s (ws_db st) else ws_db st in
      let db := if (in_tmp : bool) then db_set_tmp_batch WriteBatch_Clear db else db in
      if last_sequence <? vs_last_sequence (db_versions db) then None
      else
        let db := db_set_versions (vs_SetLastSequence last_sequence (db_versions db)) db in
        finish me last_writer s (mkWS (ws_world st) db (ws_queue st) (ws_calls st))
  | _ => None
  end.

(** ** Runs *)

Inductive WriteStep :=
  | Enter (me : nat) (batch : option bytes) (sync : bool)
  | Wake (me : nat)
  | Room (me : nat)
  | Apply (me : nat)
  | Publish (me : nat).

Definition write_step (l : WriteStep) (st : State) : option State :=
  match l with
  | Enter me batch sync => enter me batch sync st
  | Wake me => wake me st
  | Room me => make_room me st
  | Apply me => apply me st
  | Publish me => publish me st
  end.

End Write.

(** [DB::Put] and [DB::Delete]: a batch of one operation. *)
Definition DB_Put (me : nat) (sync : bool) (key value : bytes) : WriteStep := Enter me (Some (WriteBatch_Put WriteBatch_Clear key value)) sync.
Definition DB_Delete (me : nat) (sync : bool) (key : bytes) : WriteStep := Enter me (Some (WriteBatch_Delete WriteBatch_Clear key)) sync.
