(* ===== verification/WriteQueue.v ===== *)
(** * The queue of writers is a sequential log

    The invariant of the step system of [DBWrite]. A run is followed by a
    history: which batches were joined, the sequence numbers they got and
    whether they went into the memtable. *)

From S2P Require Import Prelude Coding Status Comparator Dbformat Arena SkipList MemTable WriteBatch Env Filename VersionEdit Version VersionSet Snapshot World DB DBRead Store DBWrite.

(** ** Joined batches *)

(** What the callers asked for: the operations of a batch, or [None] for a
    call without one. *)
Abbreviation Given := (gmap nat (option (list Op))).

Definition ops_of (given : Given) (ids : list nat) : list Op := concat (map (fun i => default [] (mjoin (given !! i))) ids).

Definition ops_fit (ops : list Op) : Prop := Forall op_ok ops /\ zlen ops < 2 ^ 31 /\ zlen (concat (map enc_op ops)) < 2 ^ 62.

(** The writer still has the batch it came with; only its header changes. *)
Definition holds (given : Given) (i : nat) (w : Writer) : Prop :=
  w_sync w = false /\
  match given !! i with
  | Some (Some ops) => ops_fit ops /\ exists s, w_batch w = Some (batch_of s ops)
  | Some None => w_batch w = None
  | None => False
  end.

Lemma batch_size s ops : ByteSize (batch_of s ops) = 12 + zlen (concat (map enc_op ops)).
Proof.
  unfold ByteSize, batch_of. rewrite !zlen_app. assert (E8 : zlen (EncodeFixed64 s) = 8) by (unfold zlen; by rewrite EncodeFixed64_length).
  assert (E4 : zlen (EncodeFixed32 (zlen ops)) = 4) by (unfold zlen at 1; by rewrite EncodeFixed32_length). rewrite E8, E4. lia.
Qed.

Lemma ops_bytes ops : zlen ops <= zlen (concat (map enc_op ops)).
Proof.
  induction ops as [|o ops IH]; [done|]. cbn [map concat]. rewrite zlen_cons, zlen_app.
  assert (1 <= zlen (enc_op o)) by (destruct o; cbn [enc_op]; rewrite zlen_cons; match goal with |- _ <= 1 + zlen ?l => pose proof (zlen_nonneg l) end; lia).
  lia.
Qed.

Lemma ops_of_app given a b : ops_of given (a ++ b) = ops_of given a ++ ops_of given b.
Proof. unfold ops_of. by rewrite map_app, concat_app. Qed.

Lemma ops_of_cons given i l : ops_of given (i :: l) = default [] (mjoin (given !! i)) ++ ops_of given l.
Proof. done. Qed.

Lemma last_default {A} (l : list A) : forall x d, List.last (x :: l) d = List.last l x.
Proof. induction l as [|y l IH]; intros x d; [done|]. change (List.last (y :: l) d = List.last (y :: l) x). by rewrite !IH. Qed.

Lemma clear_batch : WriteBatch_Clear = batch_of 0 [].
Proof. by vm_compute. Qed.

Lemma group_max_small size : group_max_size size <= 2 ^ 20.
Proof. unfold group_max_size. change (Z.shiftl 128 10) with (2 ^ 17). change (Z.shiftl 1 20) with (2 ^ 20). zcases; lia. Qed.

Lemma group_loop_spec given max_size first sf ops1 ws : max_size <= 2 ^ 20 -> w_sync first = false -> zlen ops1 < 2 ^ 31 ->
  Forall (fun p => holds given p.1 p.2) ws -> forall size acc (in_tmp : bool) lw,
  zlen acc <= size -> 0 <= size < 2 ^ 63 -> zlen acc < 2 ^ 31 -> (if in_tmp then size <= max_size else acc = ops1) ->
  exists ids rest updates sq in_tmp',
    group_loop max_size size first (batch_of sf ops1) WriteBatch_Clear ws (if in_tmp then batch_of 0 acc else batch_of sf acc) in_tmp lw
      = Some (updates, in_tmp', List.last ids lw) /\
    map fst ws = ids ++ rest /\ updates = batch_of sq (acc ++ ops_of given ids) /\ zlen (acc ++ ops_of given ids) < 2 ^ 31 /\
    (in_tmp' = false -> in_tmp = false /\ ops_of given ids = [] /\ updates = batch_of sf ops1).
Proof.
  intros Hmax Hsync Hops1 Hws. induction Hws as [|[i w] ws [Hs Hb] Hws IH]; intros size acc in_tmp lw Hacc Hsize Hlt Hin; cbn [fst snd] in *.
  { exists [], [], (if in_tmp then batch_of 0 acc else batch_of sf acc), (if in_tmp then 0 else sf), in_tmp. cbn [group_loop map app List.last].
    rewrite app_nil_r. split; [done|]. split; [done|]. destruct in_tmp; [done|]. by subst. }
  cbn [group_loop map]. rewrite Hs. cbn [andb].
  assert (Hstop : exists ids rest updates sq in_tmp',
    Some ((if in_tmp then batch_of 0 acc else batch_of sf acc), in_tmp, lw) = Some (updates, in_tmp', List.last ids lw) /\ i :: map fst ws = ids ++ rest /\
    updates = batch_of sq (acc ++ ops_of given ids) /\ zlen (acc ++ ops_of given ids) < 2 ^ 31 /\
    (in_tmp' = false -> in_tmp = false /\ ops_of given ids = [] /\ updates = batch_of sf ops1)).
  { exists [], (i :: map fst ws), (if in_tmp then batch_of 0 acc else batch_of sf acc), (if in_tmp then 0 else sf), in_tmp. cbn [app List.last].
    rewrite app_nil_r. split; [done|]. split; [done|]. destruct in_tmp; [done|]. by subst. }
  destruct (given !! i) as [[ops|]|] eqn:Eg; [|..|done].
  - destruct Hb as [(Hok & Hn & Hbytes) (s & ->)]. rewrite batch_size. pose proof (ops_bytes ops). pose proof (zlen_nonneg ops). pose proof (zlen_nonneg acc).
    rewrite u64_small by lia. set (size' := size + _) in *. destruct (Z.ltb_spec max_size size') as [|Hle]; [exact Hstop|].
    assert (Hsum : zlen (acc ++ ops) <= size') by (rewrite zlen_app; lia).
    assert (Hres : exists r, (if in_tmp then Some (if in_tmp then batch_of 0 acc else batch_of sf acc)
                      else if Count WriteBatch_Clear =? 0 then Some (WriteBatch_Append WriteBatch_Clear (batch_of sf ops1)) else None) = Some r /\
                    WriteBatch_Append r (batch_of s ops) = batch_of 0 (acc ++ ops)).
    { destruct in_tmp; [exists (batch_of 0 acc); split; [done|]; rewrite zlen_app in *; apply Append_batch; lia|]. subst ops1.
      exists (batch_of 0 acc). split; [|rewrite zlen_app in *; apply Append_batch; lia].
      change (Count WriteBatch_Clear =? 0) with true. cbn [andb]. rewrite clear_batch, Append_batch by (rewrite zlen_nil; lia). done. }
    destruct Hres as (r & -> & Er). cbn [mbind option_bind]. rewrite Er.
    destruct (IH size' (acc ++ ops) true i) as (ids & rest & u & sq & t & -> & -> & -> & Hl & Hf); [done|lia|lia|done|].
    exists (i :: ids), rest, (batch_of sq ((acc ++ ops) ++ ops_of given ids)), sq, t. rewrite ops_of_cons, Eg. cbn [mjoin option_join default].
    split; [by rewrite last_default|]. split; [done|]. rewrite <- app_assoc in *. split; [done|]. split; [done|]. intros ->. by destruct (Hf eq_refl).
  - rewrite Hb. destruct (IH size acc in_tmp i) as (ids & rest & u & sq & t & -> & -> & -> & Hl & Hf); [done..|].
    exists (i :: ids), rest, (batch_of sq (acc ++ ops_of given ids)), sq, t. rewrite ops_of_cons, Eg. cbn [mjoin option_join default app].
    by rewrite last_default.
Qed.

(** The batches of the writers up to the last one served, in order. *)
Lemma BuildBatchGroup_spec given i w ws ops : Forall (fun p => holds given p.1 p.2) ((i, w) :: ws) -> given !! i = Some (Some ops) ->
  exists ids rest updates sq in_tmp,
    BuildBatchGroup ((i, w) :: ws) WriteBatch_Clear = Some (updates, in_tmp, List.last (i :: ids) i) /\ map fst ws = ids ++ rest /\
    updates = batch_of sq (ops_of given (i :: ids)) /\ zlen (ops_of given (i :: ids)) < 2 ^ 31 /\
    (in_tmp = false -> ops_of given (i :: ids) = ops).
Proof.
  intros [[Hs Hb] Hws]%Forall_cons Eg. cbn [fst snd] in Hs, Hb. rewrite Eg in Hb. destruct Hb as [(Hok & Hn & Hbytes) (s & Eb)].
  unfold BuildBatchGroup. rewrite Eb. cbn [mbind option_bind]. rewrite batch_size. pose proof (ops_bytes ops). pose proof (zlen_nonneg ops).
  set (size := 12 + _) in *.
  destruct (group_loop_spec given (group_max_size size) w s ops ws (group_max_small size) Hs Hn Hws size ops false i) as (ids & rest & u & sq & t & -> & E & -> & Hl & Hf);
    [lia|lia|done|done|].
  exists ids, rest, (batch_of sq (ops ++ ops_of given ids)), sq, t. rewrite !ops_of_cons, Eg. cbn [mjoin option_join default].
  split; [by rewrite last_default|]. split; [done|]. split; [done|]. split; [done|]. intros Ht. destruct (Hf Ht) as (_ & -> & _). apply app_nil_r.
Qed.

(** ** Histories *)

(** A group that went into the memtable, one whose log could not be synced, or
    a switch to a new memtable. *)
Inductive Event :=
  | Inserted (ids : list nat) (ops : list Op)
  | Skipped (ids : list nat) (ops : list Op)
  | NewTable.

(** The last sequence number and the entries of the memtables. *)
Record Replay := mkReplay { r_last : Z; r_mem : list Entry; r_imm : option (list Entry) }.

Definition replay_event (r : Replay) (ev : Event) : Replay :=
  match ev with
  | Inserted _ ops => mkReplay (r_last r + zlen ops) (r_mem r ++ entries_of (r_last r + 1) ops) (r_imm r)
  | Skipped _ ops => mkReplay (r_last r + zlen ops) (r_mem r) (r_imm r)
  | NewTable => mkReplay (r_last r) [] (Some (r_mem r))
  end.

Definition replay (start : Replay) (hist : list Event) : Replay := fold_left replay_event hist start.

Definition event_ids (ev : Event) : list nat := match ev with Inserted ids _ | Skipped ids _ => ids | NewTable => [] end.
Definition inserted_by (ev : Event) : list nat := match ev with Inserted ids _ => ids | _ => [] end.
Definition all_ids (hist : list Event) : list nat := concat (map event_ids hist).
Definition inserted_ids (hist : list Event) : list nat := concat (map inserted_by hist).

Definition event_ok (given : Given) (ev : Event) : Prop :=
  match ev with Inserted ids ops | Skipped ids ops => ops = ops_of given ids | NewTable => True end.

Lemma inserted_all hist i : i ∈ inserted_ids hist -> i ∈ all_ids hist.
Proof.
  unfold inserted_ids, all_ids. rewrite !list_elem_of_In, !in_concat. intros (l & Hl & Hi). apply in_map_iff in Hl as (ev & <- & Hev).
  exists (event_ids ev). split; [by apply in_map|]. by destruct ev.
Qed.

Lemma all_ids_app a b : all_ids (a ++ b) = all_ids a ++ all_ids b.
Proof. unfold all_ids. by rewrite map_app, concat_app. Qed.

Lemma inserted_ids_app a b : inserted_ids (a ++ b) = inserted_ids a ++ inserted_ids b.
Proof. unfold inserted_ids. by rewrite map_app, concat_app. Qed.

Lemma replay_app start a b : replay start (a ++ b) = replay (replay start a) b.
Proof. apply fold_left_app. Qed.

Lemma replay_grows start hist : r_last start <= r_last (replay start hist).
Proof.
  revert start. induction hist as [|ev hist IH]; intros start; [done|]. change (replay start (ev :: hist)) with (replay (replay_event start ev) hist).
  specialize (IH (replay_event start ev)). destruct ev as [? ops|? ops|]; cbn [replay_event r_last] in IH |- *; [pose proof (zlen_nonneg ops); lia..|done].
Qed.

(** ** The queue *)

(** What the call returns or is about to return. *)
Definition outcome (c : Call) : option Status :=
  match call_pc c with
  | Returned s => Some s
  | Waiting => if w_done (call_writer c) then Some (w_status (call_writer c)) else None
  | _ => None
  end.

(** [popped]: the calls that left the queue; [finished]: the groups published. *)
Record queue_inv (given : Given) (popped : list nat) (finished : list Event) (queue : list nat) (calls : gmap nat Call) : Prop := {
  qi_holds : forall i c, calls !! i = Some c -> holds given i (call_writer c);
  qi_arrived : forall i, i ∈ popped ++ queue <-> is_Some (calls !! i);
  qi_nodup : NoDup (popped ++ queue);
  qi_order : sublist (all_ids finished) popped;
  qi_queue : forall i c, calls !! i = Some c -> (i ∈ queue <-> outcome c = None);
  qi_tail : forall i c, i ∈ tail queue -> calls !! i = Some c -> call_pc c = Waiting;
  qi_acks : forall i c s ops, calls !! i = Some c -> outcome c = Some s -> given !! i = Some (Some ops) ->
    (ok s = true <-> i ∈ inserted_ids finished)
}.

Section Queue.
Context (given : Given).

Lemma queue_call popped finished queue calls i : queue_inv given popped finished queue calls -> i ∈ queue ->
  exists c, calls !! i = Some c /\ outcome c = None /\ holds given i (call_writer c).
Proof.
  intros Hq Hi. destruct (proj1 (qi_arrived _ _ _ _ _ Hq i)) as [c Hc]; [apply elem_of_app; by right|]. exists c. split; [done|].
  split; [by apply (qi_queue _ _ _ _ _ Hq i c Hc)|by apply (qi_holds _ _ _ _ _ Hq)].
Qed.

Lemma queue_unfinished popped finished queue calls i : queue_inv given popped finished queue calls -> i ∈ queue -> i ∉ all_ids finished.
Proof.
  intros Hq Hi Hf. eapply elem_of_sublist in Hf; [|by apply (qi_order _ _ _ _ _ Hq)]. pose proof (qi_nodup _ _ _ _ _ Hq) as Hn.
  apply NoDup_app in Hn as (_ & Hd & _). by apply (Hd i).
Qed.

(** A step of a call that decides nothing. *)
Lemma queue_update popped finished queue calls me c c' : queue_inv given popped finished queue calls -> calls !! me = Some c ->
  holds given me (call_writer c') -> outcome c' = outcome c -> (me ∈ tail queue -> call_pc c' = Waiting) ->
  queue_inv given popped finished queue (<[me := c']> calls).
Proof.
  intros [H1 H2 H3 H4 H5 H6 H7] Hc Hh Ho Ht. split; try done.
  - intros i d [[<- <-]|[_ Hd]]%lookup_insert_Some; [done|by apply H1].
  - intros i. rewrite H2. destruct (decide (me = i)) as [->|Hne]; [rewrite lookup_insert_eq, Hc; split; by eexists|by rewrite lookup_insert_ne].
  - intros i d [[<- <-]|[_ Hd]]%lookup_insert_Some; [rewrite Ho; by apply H5|by apply H5].
  - intros i d Hi [[<- <-]|[_ Hd]]%lookup_insert_Some; [by apply Ht|by eapply H6].
  - intros i d s ops [[<- <-]|[_ Hd]]%lookup_insert_Some Hs; [rewrite Ho in Hs; by eapply H7|by eapply H7].
Qed.

(** A new call. *)
Lemma queue_enter popped finished queue calls me c : queue_inv given popped finished queue calls -> calls !! me = None ->
  holds given me (call_writer c) -> outcome c = None -> call_pc c = Waiting ->
  queue_inv given popped finished (queue ++ [me]) (<[me := c]> calls).
Proof.
  intros [H1 H2 H3 H4 H5 H6 H7] Hc Hh Ho Hw. assert (Hnew : me ∉ popped ++ queue) by (rewrite H2, Hc; by intros [? ?]). split.
  - intros i d [[<- <-]|[_ Hd]]%lookup_insert_Some; [done|by apply H1].
  - intros i. rewrite app_assoc, elem_of_app, H2, list_elem_of_singleton. destruct (decide (i = me)) as [->|Hne].
    + rewrite lookup_insert_eq. split; [by eexists|by right].
    + rewrite lookup_insert_ne by congruence. by split; [intros [?|?]|left].
  - rewrite app_assoc. apply NoDup_app. split; [done|]. split; [|apply NoDup_singleton]. by intros x Hx ->%list_elem_of_singleton.
  - done.
  - intros i d [[<- <-]|[Hne Hd]]%lookup_insert_Some; rewrite elem_of_app, list_elem_of_singleton; [by split; [|right]|].
    rewrite <- (H5 i d Hd). split; [intros [?|?]; [done|congruence]|by left].
  - intros i d Hi [[<- <-]|[Hne Hd]]%lookup_insert_Some; [done|]. apply (H6 i d); [|done]. destruct queue as [|q queue]; cbn [tail app] in *; [by apply elem_of_nil in Hi|].
    apply elem_of_app in Hi as [?|?%list_elem_of_singleton]; congruence.
  - intros i d s o [[<- <-]|[Hne Hd]]%lookup_insert_Some Hs; [by rewrite Ho in Hs|by eapply H7].
Qed.

(** ** Serving the queue *)

Definition tell (s : Status) (c : Call) : Call := call_set (mkWriter s (w_batch (call_writer c)) (w_sync (call_writer c)) true) c.

Lemma pop_spec me lw s rest pre : forall calls, NoDup (pre ++ [lw]) -> (forall i, i ∈ pre ++ [lw] -> is_Some (calls !! i)) ->
  exists calls', pop_writers me lw s (pre ++ lw :: rest) calls = Some (rest, calls') /\
    forall i, calls' !! i = if decide (i ∈ pre ++ [lw] /\ i <> me) then tell s <$> calls !! i else calls !! i.
Proof.
  induction pre as [|x pre IH]; intros calls Hn Hin; cbn [app pop_writers].
  - destruct (Hin lw ltac:(by left)) as [c Hc]. rewrite Nat.eqb_refl. destruct (Nat.eqb_spec lw me) as [->|Hne].
    + exists calls. split; [done|]. intros i. case_decide as Hd; [|done]. destruct Hd as [->%list_elem_of_singleton ?]. done.
    + rewrite Hc. cbn [mbind option_bind]. eexists. split; [done|]. intros i. destruct (decide (i = lw)) as [->|Hi].
      * rewrite lookup_insert_eq, decide_True by (split; [by left|done]). by rewrite Hc.
      * rewrite lookup_insert_ne by done. by rewrite decide_False by (intros [?%list_elem_of_singleton _]; done).
  - destruct (Hin x ltac:(by left)) as [c Hc]. apply NoDup_cons in Hn as [Hx Hn]. assert (Hxl : x <> lw) by (intros ->; apply Hx, elem_of_app; right; by left).
    assert (Hstep : exists calls1, (if (x =? me)%nat then Some calls
               else c ← calls !! x; Some (<[x := call_set (mkWriter s (w_batch (call_writer c)) (w_sync (call_writer c)) true) c]> calls)) = Some calls1 /\
             forall i, calls1 !! i = if decide (i = x /\ i <> me) then tell s <$> calls !! i else calls !! i).
    { destruct (Nat.eqb_spec x me) as [->|Hne]; [exists calls; split; [done|]; intros i; by rewrite decide_False by (intros [??]; done)|].
      rewrite Hc. cbn [mbind option_bind]. eexists. split; [done|]. intros i. destruct (decide (i = x)) as [->|Hi].
      - rewrite lookup_insert_eq, decide_True by done. by rewrite Hc.
      - rewrite lookup_insert_ne by done. by rewrite decide_False by (intros [??]; done). }
    destruct Hstep as (calls1 & -> & H1). cbn [mbind option_bind]. rewrite (proj2 (Nat.eqb_neq x lw)) by done.
    destruct (IH calls1 Hn) as (calls' & -> & H2).
    { intros i Hi. rewrite H1. destruct (Hin i ltac:(by right)) as [d ->]. case_decide; by eexists. }
    exists calls'. split; [done|]. intros i. rewrite H2, H1. destruct (decide (i = x)) as [->|Hi].
    + rewrite (decide_False (P := x ∈ pre ++ [lw] /\ x <> me)) by (intros [??]; done). destruct (decide (x = me)) as [->|Hm].
      * by rewrite !decide_False by (intros [??]; done).
      * by rewrite !decide_True by (split; [done || by left|done]).
    + rewrite (decide_False (P := i = x /\ i <> me)) by (intros [??]; done). destruct (decide (i ∈ pre ++ [lw] /\ i <> me)) as [[Ha Hb]|Hd].
      * by rewrite decide_True by (split; [by right|done]).
      * rewrite decide_False; [done|]. intros [[?|?]%elem_of_cons ?]; [done|]. by apply Hd.
Qed.

Lemma finish_spec {W} popped finished evs pre lw rest me s (st : WriteState W) c : ws_queue st = pre ++ lw :: rest ->
  queue_inv given popped finished (ws_queue st) (ws_calls st) -> head (ws_queue st) = Some me -> ws_calls st !! me = Some c ->
  sublist (all_ids evs) (pre ++ [lw]) ->
  (forall i ops, i ∈ pre ++ [lw] -> given !! i = Some (Some ops) -> (ok s = true <-> i ∈ inserted_ids evs)) ->
  exists calls', finish me lw s st = Some (mkWS (ws_world st) (ws_db st) rest calls') /\
    queue_inv given (popped ++ pre ++ [lw]) (finished ++ evs) rest calls' /\ (forall i, i ∈ rest -> calls' !! i = ws_calls st !! i).
Proof.
  intros Eq Hq Hhead Hc Hsub Hack. pose proof Hq as [H1 H2 H3 H4 H5 H6 H7]. rewrite Eq in *.
  assert (Eapp : popped ++ pre ++ lw :: rest = (popped ++ pre ++ [lw]) ++ rest) by (by rewrite <- !app_assoc). rewrite Eapp in H2, H3.
  assert (Hn : NoDup (pre ++ [lw])) by (apply NoDup_app in H3 as (H3 & _ & _); by apply NoDup_app in H3 as (_ & _ & ?)).
  assert (Hrest : forall i, i ∈ rest -> i ∉ pre ++ [lw]) by (intros i Hi Hj; apply NoDup_app in H3 as (_ & H3 & _); apply (H3 i); [apply elem_of_app; by right|done]).
  destruct (pop_spec me lw s rest pre (ws_calls st) Hn) as (calls1 & Epop & Hpop).
  { intros i Hi. apply H2. apply elem_of_app. left. apply elem_of_app. by right. }
  assert (Hme : me ∈ pre ++ [lw]) by (destruct pre; injection Hhead as ->; by left).
  unfold finish. rewrite Eq, Epop. cbn [mbind option_bind fst snd]. rewrite Hpop, decide_False, Hc by (intros [_ ?]; done). cbn [mbind option_bind].
  eexists. split; [done|].
  assert (Hout : forall i d, (<[me := call_at (Returned s) c]> calls1) !! i = Some d -> exists d0, ws_calls st !! i = Some d0 /\ (holds given i (call_writer d0) -> holds given i (call_writer d)) /\
            (i ∈ pre ++ [lw] -> outcome d = Some s) /\ (i ∉ pre ++ [lw] -> d = d0)).
  { intros i d [[<- <-]|[Hne Hd]]%lookup_insert_Some; [exists c; done|]. rewrite Hpop in Hd. case_decide as Hdec; [|exists d; split; [done|]; split; [done|]; split; [|done]; intros ?; by destruct Hdec].
    destruct (ws_calls st !! i) as [d0|] eqn:E0; [|done]. injection Hd as <-. exists d0. split; [done|]. split; [done|]. split; [|intros ?; by destruct Hdec].
    intros _. unfold outcome, tell, call_set. cbn [call_pc call_writer w_done w_status]. destruct Hdec as [Hi _].
    assert (Hw : call_pc d0 = Waiting); [|by rewrite Hw]. apply (H6 i); [|done]. destruct pre as [|p pre]; cbn [app tail] in *; [apply list_elem_of_singleton in Hi; injection Hhead as ->; congruence|].
    injection Hhead as ->. apply elem_of_cons in Hi as [?|Hi]; [congruence|]. apply elem_of_app in Hi as [?| ->%list_elem_of_singleton]; apply elem_of_app; [by left|right; by left]. }
  split; [split|].
  - intros i d Hd. destruct (Hout i d Hd) as (d0 & E0 & Hh & _). by apply Hh, H1.
  - intros i. rewrite H2. destruct (decide (i = me)) as [->|Hne]; [rewrite lookup_insert_eq, Hc; split; by eexists|].
    rewrite lookup_insert_ne, Hpop by done. case_decide; [|done]. by rewrite fmap_is_Some.
  - done.
  - rewrite all_ids_app. by apply sublist_app.
  - intros i d Hd. destruct (Hout i d Hd) as (d0 & E0 & _ & Hin & Hnin). destruct (decide (i ∈ pre ++ [lw])) as [Hi|Hi].
    + rewrite (Hin Hi). split; [intros Hr; by destruct (Hrest i Hr)|done].
    + rewrite (Hnin Hi), <- (H5 i d0 E0). rewrite elem_of_app, elem_of_cons. split; [auto|]. intros [?|[-> |?]]; [destruct Hi; apply elem_of_app; by left|destruct Hi; apply elem_of_app; right; by left|done].
  - intros i d Hi Hd. destruct (Hout i d Hd) as (d0 & E0 & _ & _ & Hnin). assert (Hir : i ∈ rest) by (destruct rest; [done|by right]). rewrite (Hnin (Hrest i Hir)).
    apply (H6 i); [|done]. destruct pre; cbn [app tail]; [done|]. apply elem_of_app. right. by right.
  - intros i d s' ops Hd Ho Hg. destruct (Hout i d Hd) as (d0 & E0 & _ & Hin & Hnin). rewrite inserted_ids_app, elem_of_app. destruct (decide (i ∈ pre ++ [lw])) as [Hi|Hi].
    + rewrite (Hin Hi) in Ho. injection Ho as <-. rewrite (Hack i ops Hi Hg). split; [auto|]. intros [Hf|?]; [|done].
      exfalso. apply (queue_unfinished popped finished (pre ++ lw :: rest) (ws_calls st) i Hq); [|by apply inserted_all].
      apply elem_of_app in Hi as [?| ->%list_elem_of_singleton]; apply elem_of_app; [by left|right; by left].
    + rewrite (Hnin Hi) in Ho. rewrite (H7 i d0 s' ops E0 Ho Hg). split; [auto|]. intros [?|He]; [done|]. apply inserted_all in He. destruct Hi. by eapply elem_of_sublist.
  - intros i Hi. rewrite lookup_insert_ne, Hpop, decide_False; [done|intros [? _]; by apply (Hrest i)|]. intros <-. by apply (Hrest me).
Qed.

End Queue.

(** ** Runs *)

(** The calls up to the last one of a group. *)
Fixpoint upto (lw : nat) (queue : list nat) : list nat :=
  match queue with [] => [] | i :: queue => i :: (if (i =? lw)%nat then [] else upto lw queue) end.

Lemma upto_split pre lw rest : lw ∉ pre -> upto lw (pre ++ lw :: rest) = pre ++ [lw].
Proof.
  induction pre as [|x pre IH]; cbn [app upto]; [by rewrite Nat.eqb_refl|]. rewrite elem_of_cons. intros Hn. rewrite (proj2 (Nat.eqb_neq x lw)) by naive_solver.
  f_equal. apply IH. naive_solver.
Qed.

Section Runs.
Context {W : Type} (env : Env W) (dbname : bytes) (ucmp : Comparator) `{!TotalCmp (Compare ucmp)} (base : nat -> Z) (write_buffer_size : Z).
Context (given : Given) (start : Replay).

Abbreviation State := (WriteState W).
Abbreviation step := (write_step env dbname ucmp base write_buffer_size).

(** What a step adds to the history. *)
Definition events (l : WriteStep) (st st' : State) : list Event :=
  match l with
  | Room me =>
      match call_pc <$> ws_calls st !! me with
      | Some (MakingRoom force allow_delay) =>
          match MakeRoomForWrite_step env dbname base write_buffer_size force allow_delay (ws_world st) (ws_db st) with
          | Some (Switched _ _) => [NewTable]
          | _ => []
          end
      | _ => []
      end
  | DBWrite.Apply me =>
      match call_pc <$> ws_calls st' !! me with
      | Some (Applied s _ _ lw _) =>
          let ids := upto lw (ws_queue st) in
          [if ok s then Inserted ids (ops_of given ids) else Skipped ids (ops_of given ids)]
      | _ => []
      end
  | _ => []
  end.

(** What other threads do while the mutex is free: reads, snapshots, flushes
    and compactions leave the memtable, the joined batch and the sequence
    number alone. *)
Record undisturbed (db db' : DBImpl) : Prop := {
  ud_mem : db_mem db' = db_mem db;
  ud_imm : db_imm db' = db_imm db \/ db_imm db' = None;
  ud_tmp : db_tmp_batch db' = db_tmp_batch db;
  ud_sequence : vs_last_sequence (db_versions db') = vs_last_sequence (db_versions db);
  ud_prev_log : vs_prev_log_number (db_versions db') = vs_prev_log_number (db_versions db) \/ vs_prev_log_number (db_versions db') = 0
}.

(** The database as it is before the first call. *)
Record ready (db : DBImpl) : Prop := {
  rd_mem : exists es, mem_rep ucmp (db_mem db) es /\ es ≡ₚ r_mem start;
  rd_imm : forall m, db_imm db = Some m -> exists es l, r_imm start = Some l /\ mem_rep ucmp m es /\ es ≡ₚ l;
  rd_tmp : db_tmp_batch db = WriteBatch_Clear;
  rd_sequence : vs_last_sequence (db_versions db) = r_last start;
  rd_prev_log : vs_prev_log_number (db_versions db) = 0;
  rd_old : 0 <= r_last start /\ Forall (fun e => e_seq e <= r_last start) (r_mem start)
}.

(** [run arrived hist st]: the calls in the order they came, the history and the
    state they led to. A batch is one the client built. *)
Inductive run : list nat -> list Event -> State -> Prop :=
  | run_start w db : ready db -> run [] [] (mkWS w db [] ∅)
  | run_enter arrived hist st st' me ops sync : run arrived hist st -> given !! me = Some ops ->
      (forall o, ops = Some o -> ops_fit o) -> step (Enter me (build_batch <$> ops) sync) st = Some st' -> run (arrived ++ [me]) hist st'
  | run_step arrived hist st st' l : run arrived hist st -> (forall me batch sync, l <> Enter me batch sync) -> step l st = Some st' ->
      run arrived (hist ++ events l st st') st'
  | run_others arrived hist st w db : run arrived hist st -> undisturbed (ws_db st) db -> run arrived hist (mkWS w db (ws_queue st) (ws_calls st)).

(** ** The invariant *)

Definition leader_pc (st : State) : WritePc :=
  match head (ws_queue st) with
  | Some i => from_option call_pc Waiting (ws_calls st !! i)
  | None => Waiting
  end.

(** The group that is being applied. *)
Definition group_at (queue : list nat) (lw : nat) (ops : list Op) : Prop :=
  exists pre rest, queue = pre ++ lw :: rest /\ ops = ops_of given (pre ++ [lw]) /\ Forall op_ok ops /\ zlen ops < 2 ^ 31.

Definition phase_inv (inflight : list Event) (last : Z) (tmp : bytes) (queue : list nat) (pc : WritePc) : Prop :=
  match pc with
  | Waiting | MakingRoom _ _ => inflight = [] /\ tmp = WriteBatch_Clear
  | Applying u t lw ls => inflight = [] /\ (t = false -> tmp = WriteBatch_Clear) /\
      exists ops, group_at queue lw ops /\ u = batch_of (last + 1) ops /\ ls = last + zlen ops
  | Applied s e t lw ls => (t = false -> tmp = WriteBatch_Clear) /\
      exists ops, group_at queue lw ops /\ ls = last + zlen ops /\
        inflight = [if ok s then Inserted (upto lw queue) ops else Skipped (upto lw queue) ops]
  | Returned _ => False
  end.

Record data_inv (hist : list Event) (db : DBImpl) : Prop := {
  di_mem : exists es, mem_rep ucmp (db_mem db) es /\ es ≡ₚ r_mem (replay start hist);
  di_imm : forall m, db_imm db = Some m -> exists es l, r_imm (replay start hist) = Some l /\ mem_rep ucmp m es /\ es ≡ₚ l;
  di_old : Forall (fun e => e_seq e <= r_last (replay start hist)) (r_mem (replay start hist));
  di_prev_log : vs_prev_log_number (db_versions db) = 0
}.

Record inv (popped : list nat) (finished inflight : list Event) (st : State) : Prop := {
  in_queue : queue_inv given popped finished (ws_queue st) (ws_calls st);
  in_phase : phase_inv inflight (r_last (replay start finished)) (db_tmp_batch (ws_db st)) (ws_queue st) (leader_pc st);
  in_last : vs_last_sequence (db_versions (ws_db st)) = r_last (replay start finished);
  in_data : data_inv (finished ++ inflight) (ws_db st);
  in_events : Forall (event_ok given) (finished ++ inflight);
  in_start : 0 <= r_last start
}.

(** ** Steps *)

Lemma at_front popped finished queue calls me c : queue_inv given popped finished queue calls -> calls !! me = Some c ->
  outcome c = None -> call_pc c <> Waiting -> head queue = Some me.
Proof.
  intros Hq Hc Ho Hw. assert (Hin : me ∈ queue) by (by apply (qi_queue _ _ _ _ _ Hq me c)). destruct queue as [|q queue]; [by apply elem_of_nil in Hin|].
  apply elem_of_cons in Hin as [->|Hin]; [done|]. by destruct Hw; apply (qi_tail _ _ _ _ _ Hq me c).
Qed.

Lemma not_tail popped finished queue calls me : queue_inv given popped finished queue calls -> head queue = Some me -> me ∉ tail queue.
Proof.
  intros Hq Hh. pose proof (qi_nodup _ _ _ _ _ Hq) as Hn. apply NoDup_app in Hn as (_ & _ & Hn). destruct queue as [|q queue]; [done|].
  injection Hh as ->. by apply NoDup_cons in Hn as [? _].
Qed.

Lemma leader_pc_at (st : State) me c : head (ws_queue st) = Some me -> ws_calls st !! me = Some c -> leader_pc st = call_pc c.
Proof. intros Hh Hc. unfold leader_pc. by rewrite Hh, Hc. Qed.

(** The front of the queue goes on; [db] and the files may have changed. *)
Lemma inv_leader popped finished inflight inflight' (st : State) me c c' w db :
  inv popped finished inflight st -> head (ws_queue st) = Some me -> ws_calls st !! me = Some c -> outcome c = None -> outcome c' = None ->
  holds given me (call_writer c') -> phase_inv inflight' (r_last (replay start finished)) (db_tmp_batch db) (ws_queue st) (call_pc c') ->
  vs_last_sequence (db_versions db) = r_last (replay start finished) -> data_inv (finished ++ inflight') db -> Forall (event_ok given) (finished ++ inflight') ->
  inv popped finished inflight' (mkWS w db (ws_queue st) (<[me := c']> (ws_calls st))).
Proof.
  intros [H1 H2 H3 H4 H5 H6] Hh Hc Ho Ho' Hholds Hp Hl Hd He. split; cbn [ws_queue ws_calls ws_db ws_world]; try done.
  - eapply queue_update; [done|done|done|by rewrite Ho, Ho'|]. intros Hin. by apply (not_tail _ _ _ _ _ H1) in Hh.
  - rewrite (leader_pc_at _ me c'); [done|done|]. cbn [ws_calls]. apply lookup_insert_eq.
Qed.

Lemma inv_enter popped finished inflight (st st' : State) me ops sync : inv popped finished inflight st -> given !! me = Some ops ->
  (forall o, ops = Some o -> ops_fit o) -> step (Enter me (build_batch <$> ops) sync) st = Some st' ->
  inv popped finished inflight st' /\ ws_queue st' = ws_queue st ++ [me].
Proof.
  intros [H1 H2 H3 H4 H5 H6] Hg Hfit Hs. cbn [write_step] in Hs. unfold enter in Hs. destruct (ws_calls st !! me) eqn:Hnew; [done|]. injection Hs as <-.
  split; [|done]. split; cbn [ws_queue ws_calls ws_db]; try done.
  - apply queue_enter; try done. split; [done|]. rewrite Hg. destruct ops as [o|]; [|done]. cbn [fmap option_fmap option_map w_batch]. split; [by apply Hfit|].
    destruct (Hfit o eq_refl) as (_ & Hn & _). exists 0. by rewrite build_batch_layout.
  - unfold leader_pc in *. cbn [ws_queue ws_calls]. destruct (ws_queue st) as [|q queue]; cbn [head app] in *.
    + by rewrite lookup_insert_eq.
    + rewrite lookup_insert_ne.
      2: { intros <-. assert (Hq : is_Some (ws_calls st !! me)) by (apply (qi_arrived _ _ _ _ _ H1), elem_of_app; right; by left). rewrite Hnew in Hq. by destruct Hq. }
      destruct (from_option call_pc Waiting (ws_calls st !! q)); try done.
      * destruct H2 as (E1 & E2 & os & (pre & rest & Eq & E3) & E4). split; [done|]. split; [done|]. exists os. split; [|done]. exists pre, (rest ++ [me]). by rewrite app_comm_cons, Eq, <- app_assoc.
      * destruct H2 as (E2 & os & (pre & rest & Eq & E3) & E4 & E5). split; [done|]. exists os. split; [exists pre, (rest ++ [me]); by rewrite app_comm_cons, Eq, <- app_assoc|]. split; [done|].
        assert (Hlw : last_writer ∉ pre).
        { pose proof (qi_nodup _ _ _ _ _ H1) as Hn. apply NoDup_app in Hn as (_ & _ & Hn). rewrite Eq in Hn. apply NoDup_app in Hn as (_ & Hn & _). intros Hi. apply (Hn _ Hi). by left. }
        rewrite E5, app_comm_cons, Eq, <- app_assoc. cbn [app]. by rewrite !upto_split.
Qed.

Lemma inv_wake popped finished inflight (st st' : State) me : inv popped finished inflight st -> step (Wake me) st = Some st' ->
  inv popped finished inflight st' /\ ws_queue st' = ws_queue st.
Proof.
  intros Hinv Hs. cbn [write_step] in Hs. unfold wake in Hs. destruct (ws_calls st !! me) as [c|] eqn:Hc; [|done]. cbn [mbind option_bind] in Hs.
  pose proof (qi_holds _ _ _ _ _ (in_queue _ _ _ _ Hinv) me c Hc) as Hh. destruct (call_pc c) eqn:Epc; try done. destruct (w_done (call_writer c)) eqn:Ed.
  - injection Hs as <-. destruct Hinv as [H1 H2 H3 H4 H5 H6]. split; [|done]. assert (Ho : outcome c = Some (w_status (call_writer c))) by (unfold outcome; by rewrite Epc, Ed).
    assert (Hnq : me ∉ ws_queue st) by (rewrite (qi_queue _ _ _ _ _ H1 me c Hc), Ho; done).
    split; cbn [ws_queue ws_calls ws_db]; try done.
    + eapply queue_update; [done|done|done|by rewrite Ho|]. intros Hin. destruct Hnq. destruct (ws_queue st); [done|by right].
    + unfold leader_pc in *. cbn [ws_queue ws_calls]. destruct (ws_queue st) as [|q queue]; [done|]. cbn [head] in *. rewrite lookup_insert_ne; [done|].
      intros <-. apply Hnq. by left.
  - destruct (head (ws_queue st)) as [front|] eqn:Ef; [|done]. cbn [mbind option_bind] in Hs. destruct (Nat.eqb_spec front me) as [->|]; [|done]. injection Hs as <-.
    split; [|done]. pose proof Hinv as [H1 H2 H3 H4 H5 H6]. rewrite (leader_pc_at st me c Ef Hc), Epc in H2.
    eapply inv_leader; [exact Hinv|done|done|unfold outcome; by rewrite Epc, Ed|done|done|done..].
Qed.

Lemma queued_spec (calls : gmap nat Call) queue : (forall i, i ∈ queue -> exists c, calls !! i = Some c /\ holds given i (call_writer c)) ->
  exists ws, mapM (fun i => c ← calls !! i; Some (i, call_writer c)) queue = Some ws /\ map fst ws = queue /\ Forall (fun p => holds given p.1 p.2) ws.
Proof.
  induction queue as [|q queue IH]; intros Hq; [by exists []|]. destruct (Hq q ltac:(by left)) as (c & Ec & Hh).
  destruct IH as (ws & Ew & Em & Hf); [intros i Hi; apply Hq; by right|]. exists ((q, call_writer c) :: ws). cbn [mapM map fst]. rewrite Ec. cbn [mbind option_bind].
  rewrite Ew, Em. split; [done|]. split; [done|]. by constructor.
Qed.

Lemma ops_of_ok ids : (forall i, i ∈ ids -> exists w, holds given i w) -> Forall op_ok (ops_of given ids).
Proof.
  induction ids as [|i ids IH]; intros Hi; [constructor|]. rewrite ops_of_cons. apply Forall_app. split; [|apply IH; intros j Hj; apply Hi; by right].
  destruct (Hi i ltac:(by left)) as (w & _ & Hw). destruct (given !! i) as [[ops|]|]; cbn [mjoin option_join default]; [by destruct Hw as [[? _] _]|constructor|done].
Qed.

(** The call at the front ends without a group. *)
Lemma inv_finish_alone popped finished (st : State) me c s : inv popped finished [] st -> head (ws_queue st) = Some me -> ws_calls st !! me = Some c ->
  db_tmp_batch (ws_db st) = WriteBatch_Clear -> (forall ops, given !! me = Some (Some ops) -> ok s = false) ->
  exists st' popped', finish me me s st = Some st' /\ inv popped' finished [] st' /\ popped' ++ ws_queue st' = popped ++ ws_queue st.
Proof.
  intros [H1 H2 H3 H4 H5 H6] Hh Hc Htmp Hs. destruct (ws_queue st) as [|q rest] eqn:Eq; [done|]. injection Hh as ->. rewrite <- Eq in H1.
  destruct (finish_spec given popped finished [] [] me rest me s st c) as (calls' & -> & Hq & Hsame); try done; [by rewrite Eq|apply sublist_nil_l| |].
  { intros i ops ->%list_elem_of_singleton Hg. rewrite (Hs ops Hg). split; [done|by intros ?%elem_of_nil]. }
  exists (mkWS (ws_world st) (ws_db st) rest calls'), (popped ++ [] ++ [me]). rewrite app_nil_r in Hq. split; [done|]. split; [|by rewrite <- !app_assoc].
  split; cbn [ws_queue ws_calls ws_db]; try done. replace (leader_pc _) with Waiting; [done|]. unfold leader_pc. cbn [ws_queue ws_calls].
  destruct rest as [|r rest]; [done|]. cbn [head]. destruct (queue_call given _ _ _ _ r Hq ltac:(by left)) as (d & Ed & _). rewrite Ed. cbn [from_option].
  symmetry. rewrite Hsame in Ed by (by left). apply (qi_tail _ _ _ _ _ H1 r d); [rewrite Eq; by left|done].
Qed.

Lemma begin_group_spec popped finished (st : State) me c force allow s : inv popped finished [] st -> ws_calls st !! me = Some c ->
  call_pc c = MakingRoom force allow -> r_last (replay start finished) <= kMaxSequenceNumber ->
  exists st' popped', begin_group me s st = Some st' /\ inv popped' finished [] st' /\ popped' ++ ws_queue st' = popped ++ ws_queue st.
Proof.
  intros Hinv Hc Epc Hmax. pose proof Hinv as [H1 H2 H3 H4 H5 H6]. assert (Ho : outcome c = None) by (unfold outcome; by rewrite Epc).
  assert (Hh : head (ws_queue st) = Some me) by (eapply at_front; [done..|by rewrite Epc]). rewrite (leader_pc_at st me c Hh Hc), Epc in H2. destruct H2 as [_ Htmp].
  pose proof (qi_holds _ _ _ _ _ H1 me c Hc) as Hhold. pose proof Hhold as [Hsync Hb]. unfold begin_group. rewrite Hc. cbn [mbind option_bind].
  destruct (given !! me) as [[ops|]|] eqn:Hg; [|rewrite Hb; apply (inv_finish_alone popped finished st me c); done || congruence|done].
  destruct Hb as [Hfit (sq0 & ->)]. destruct (ok s) eqn:Es; [|apply (inv_finish_alone popped finished st me c); done].
  destruct (queued_spec (ws_calls st) (ws_queue st)) as (ws & Ew & Em & Hf).
  { intros i Hi. destruct (queue_call given _ _ _ _ i H1 Hi) as (d & Ed & _ & Hd). by exists d. }
  unfold queued_writers. rewrite Ew. cbn [mbind option_bind]. rewrite Htmp. destruct ws as [|[i w] ws]; [by rewrite <- Em in Hh|].
  assert (i = me) as -> by (rewrite <- Em in Hh; by injection Hh).
  destruct (BuildBatchGroup_spec given me w ws ops Hf Hg) as (ids & rest & u & sq & t & -> & Eids & -> & Hl & Hlone). cbn [mbind option_bind].
  rewrite SetSequence_batch, Count_batch by done. rewrite H3. set (total := ops_of given (me :: ids)) in *. pose proof (zlen_nonneg total).
  assert (Hk : kMaxSequenceNumber = 2 ^ 56 - 1) by done. pose proof (replay_grows start finished).
  rewrite !u64_small by lia. do 2 eexists. split; [done|]. split; [|reflexivity].
  assert (Hgroup : group_at (ws_queue st) (List.last (me :: ids) me) total).
  { exists (removelast (me :: ids)), rest. rewrite <- Em. cbn [map fst]. rewrite Eids. pose proof (app_removelast_last (l := me :: ids) me ltac:(done)) as Er.
    split; [by rewrite cons_middle, app_assoc, <- Er|]. rewrite <- Er. split; [done|]. split; [|done]. apply ops_of_ok. intros i Hi.
    destruct (queue_call given _ _ _ _ i H1) as (d & _ & _ & Hd); [|by exists (call_writer d)]. rewrite <- Em. cbn [map fst]. rewrite Eids, app_comm_cons. apply elem_of_app. by left. }
  eapply (inv_leader popped finished [] []); [exact Hinv|done|done|done| | | | | |done].
  - destruct t; unfold outcome, call_at, call_set; done.
  - destruct t; [exact Hhold|]. split; [done|]. cbn [call_at call_set call_writer w_batch]. rewrite Hg. split; [done|]. by rewrite (Hlone eq_refl); eexists.
  - destruct t; cbn [call_at call_set call_pc]; split; try done; (split; [done|]); exists total; done.
  - by destruct t.
  - destruct t; [|done]. destruct H4 as [K1 K2 K3 K4]. by split.
Qed.

Lemma schedule_fields db : db_mem (MaybeScheduleCompaction db) = db_mem db /\ db_imm (MaybeScheduleCompaction db) = db_imm db /\
  db_tmp_batch (MaybeScheduleCompaction db) = db_tmp_batch db /\ db_versions (MaybeScheduleCompaction db) = db_versions db.
Proof. unfold MaybeScheduleCompaction. by destruct (db_scheduled db), (db_shutting_down db), (ok (db_bg_error db)); cbn [negb]; try done; case_match. Qed.

Lemma room_turn force allow w db : vs_prev_log_number (db_versions db) = 0 ->
  exists r, MakeRoomForWrite_step env dbname base write_buffer_size force allow w db = Some r /\
  match r with
  | Stop s w' db' => undisturbed db db'
  | Switched w' db' => db_imm db = None /\ db_mem db' = new_MemTable base /\ db_imm db' = Some (db_mem db) /\ db_tmp_batch db' = db_tmp_batch db /\
      vs_last_sequence (db_versions db') = vs_last_sequence (db_versions db) /\ vs_prev_log_number (db_versions db') = 0
  | Delayed | Wait => True
  end.
Proof.
  intros Hp. unfold MakeRoomForWrite_step. destruct (negb (ok (db_bg_error db))); [eexists; split; [done|]; split; auto|].
  destruct (allow && _); [by eexists|]. destruct (negb force && _); [eexists; split; [done|]; split; auto|]. case_bool_decide as Hi; cbn [negb]; [|by eexists].
  destruct (kL0_StopWritesTrigger <=? _); [by eexists|]. rewrite Hp. cbn [Z.eqb negb].
  destruct (NewFileNumber (db_versions db)) as [n vs] eqn:En.
  assert (Hvs : vs_last_sequence vs = vs_last_sequence (db_versions db) /\ vs_prev_log_number vs = 0) by (unfold NewFileNumber in En; by injection En as <- <-).
  destruct (NewWritableFile env (LogFileName dbname n) w) as [s w'] eqn:Ew. destruct (negb (ok s)).
  - eexists. split; [done|]. unfold ReuseFileNumber. destruct (_ =? _); split; cbn; auto; try (by apply Hvs); left; rewrite Hp; by apply Hvs.
  - eexists. split; [done|]. set (db1 := db_set_mem _ _ _). destruct (schedule_fields db1) as (-> & -> & -> & ->). unfold db1. cbn. by repeat split; try apply Hvs.
Qed.

Lemma room_spec popped finished inflight (st : State) me c force allow : inv popped finished inflight st -> ws_calls st !! me = Some c ->
  call_pc c = MakingRoom force allow -> r_last (replay start finished) <= kMaxSequenceNumber ->
  (make_room env dbname base write_buffer_size me st = None /\
   MakeRoomForWrite_step env dbname base write_buffer_size force allow (ws_world st) (ws_db st) = Some Wait) \/
  exists st' popped', make_room env dbname base write_buffer_size me st = Some st' /\ inflight = [] /\
    inv popped' (finished ++ events (Room me) st st') [] st' /\ popped' ++ ws_queue st' = popped ++ ws_queue st.
Proof.
  intros Hinv Hc Epc Hmax. pose proof Hinv as [H1 H2 H3 H4 H5 H6]. assert (Ho : outcome c = None) by (unfold outcome; by rewrite Epc).
  assert (Hh : head (ws_queue st) = Some me) by (eapply at_front; [done..|by rewrite Epc]). rewrite (leader_pc_at st me c Hh Hc), Epc in H2. destruct H2 as [-> Htmp].
  pose proof (qi_holds _ _ _ _ _ H1 me c Hc) as Hhold. rewrite app_nil_r in H4, H5. destruct H4 as [K1 K2 K3 K4].
  destruct (room_turn force allow (ws_world st) (ws_db st) K4) as (r & Er & Hr). unfold make_room, events. rewrite Hc. cbn [mbind option_bind fmap option_fmap option_map].
  rewrite Epc, Er. cbn [mbind option_bind]. destruct r as [s w db| |w db|]; [|right|right|by left].
  - right. rewrite app_nil_r. set (st1 := mkWS w db _ _).
    assert (Hinv1 : inv popped finished [] st1).
    { destruct Hr as [R1 R2 R3 R4 R5]. split; cbn [st1 ws_queue ws_calls ws_db]; rewrite ?app_nil_r; try done; [|congruence|].
      - change (leader_pc st1) with (leader_pc st). rewrite (leader_pc_at st me c Hh Hc), Epc. split; [done|congruence].
      - split; rewrite ?R1; try done; [|destruct R5; congruence]. intros m Hm. destruct R2 as [R2|R2]; [|congruence]. apply K2. congruence. }
    destruct (begin_group_spec popped finished st1 me c force allow s Hinv1 Hc Epc Hmax) as (st' & popped' & -> & Hi & E). by exists st', popped'.
  - rewrite app_nil_r. do 2 eexists. split; [done|]. split; [done|]. split; [|reflexivity]. eapply (inv_leader popped finished [] []); rewrite ?app_nil_r; try done.
  - destruct Hr as (R0 & R1 & R2 & R3 & R4 & R5). do 2 eexists. split; [done|]. split; [done|]. split; [|reflexivity].
    assert (El : r_last (replay start (finished ++ [NewTable])) = r_last (replay start finished)) by (by rewrite replay_app).
    split; cbn [ws_queue ws_calls ws_db]; rewrite ?El, ?app_nil_r.
    + destruct (queue_update given popped finished (ws_queue st) (ws_calls st) me c (call_at (MakingRoom false allow) c)) as [Q1 Q2 Q3 Q4 Q5 Q6 Q7]; try done.
      { intros Hin. by apply (not_tail _ _ _ _ _ H1) in Hh. }
      split; try done; [by rewrite all_ids_app, app_nil_r|]. intros i d s ops Hd Hs Hg. rewrite inserted_ids_app, app_nil_r. by eapply Q7.
    + rewrite (leader_pc_at _ me (call_at (MakingRoom false allow) c)); [|done|apply lookup_insert_eq]. by rewrite R3.
    + congruence.
    + split; rewrite ?replay_app; cbn [replay fold_left replay_event r_mem r_imm r_last]; [|..|done].
      * exists []. rewrite R1. split; [apply new_MemTable_rep|done].
      * intros m Hm. rewrite R2 in Hm. injection Hm as <-. destruct K1 as (es & Hes & Hp). by exists es, (r_mem (replay start finished)).
      * constructor.
    + apply Forall_app. split; [done|]. by repeat constructor.
    + done.
Qed.

Lemma group_upto popped finished queue calls lw ops : queue_inv given popped finished queue calls -> group_at queue lw ops ->
  ops = ops_of given (upto lw queue) /\ exists pre rest, queue = pre ++ lw :: rest /\ upto lw queue = pre ++ [lw].
Proof.
  intros Hq (pre & rest & -> & -> & _). pose proof (qi_nodup _ _ _ _ _ Hq) as Hn. apply NoDup_app in Hn as (_ & _ & Hn). apply NoDup_app in Hn as (_ & Hn & _).
  rewrite upto_split by (intros Hi; apply (Hn _ Hi); by left). split; [done|]. by exists pre, rest.
Qed.

Lemma replay_snoc_last hist (b : bool) ids ops : r_last (replay start (hist ++ [if b then Inserted ids ops else Skipped ids ops])) = r_last (replay start hist) + zlen ops.
Proof. rewrite replay_app. by destruct b. Qed.

Lemma apply_spec popped finished inflight (st : State) me c u t lw ls : inv popped finished inflight st -> ws_calls st !! me = Some c ->
  call_pc c = Applying u t lw ls -> r_last (replay start finished) + zlen (ops_of given (upto lw (ws_queue st))) <= kMaxSequenceNumber ->
  exists st', apply env dbname ucmp base me st = Some st' /\ inflight = [] /\ inv popped finished (events (DBWrite.Apply me) st st') st' /\ ws_queue st' = ws_queue st.
Proof.
  intros Hinv Hc Epc Hmax. pose proof Hinv as [H1 H2 H3 H4 H5 H6]. assert (Ho : outcome c = None) by (unfold outcome; by rewrite Epc).
  assert (Hh : head (ws_queue st) = Some me) by (eapply at_front; [done..|by rewrite Epc]). rewrite (leader_pc_at st me c Hh Hc), Epc in H2.
  destruct H2 as (-> & Htmp & ops & Hg & -> & ->). rewrite app_nil_r in H4, H5. destruct H4 as [K1 K2 K3 K4]. destruct K1 as (es & Hes & Hperm).
  pose proof (qi_holds _ _ _ _ _ H1 me c Hc) as Hhold. destruct (group_upto _ _ _ _ _ _ H1 Hg) as [Eops _]. rewrite <- Eops in Hmax.
  pose proof Hg as (_ & _ & _ & _ & Hok & Hn). pose proof (replay_grows start finished).
  unfold apply. rewrite Hc. cbn [mbind option_bind]. rewrite Epc. set (sy := if call_sync c then _ else _). destruct sy as [s w]. destruct (ok s) eqn:Es.
  - destruct (InsertInto_spec ucmp base (r_last (replay start finished) + 1) ops (db_mem (ws_db st)) es) as (m' & es' & -> & Hm' & Hp'); try done; try lia.
    { rewrite Hperm. eapply Forall_impl; [exact K3|]. cbn. intros. lia. }
    cbn [mbind option_bind fst snd]. eexists. split; [done|]. split; [done|]. split; [|done]. unfold events. cbn [ws_calls ws_queue]. rewrite lookup_insert_eq.
    cbn [fmap option_fmap option_map call_at call_pc ok Status_OK]. rewrite <- Eops. eapply (inv_leader popped finished []); try done.
    + split; [done|]. by exists ops.
    + split; rewrite ?replay_app; cbn [replay fold_left replay_event r_mem r_imm r_last db_set_mem db_mem db_imm db_versions]; [|done| |done].
      * exists es'. split; [done|]. rewrite Hp', Hperm. apply Permutation_app_comm.
      * apply Forall_app. pose proof (zlen_nonneg ops). split; [eapply Forall_impl; [exact K3|]; cbn; intros; lia|]. eapply Forall_impl; [apply entries_of_seqs|]. cbn. intros. lia.
    + apply Forall_app. split; [done|]. by repeat constructor.
  - eexists. split; [done|]. split; [done|]. split; [|done]. unfold events. cbn [ws_calls ws_queue]. rewrite lookup_insert_eq.
    cbn [fmap option_fmap option_map call_at call_pc]. rewrite Es, <- Eops. eapply (inv_leader popped finished []); try done.
    + split; [done|]. exists ops. by rewrite Es.
    + split; rewrite ?replay_app; cbn [replay fold_left replay_event r_mem r_imm r_last]; [by exists es|done| |done].
      pose proof (zlen_nonneg ops). eapply Forall_impl; [exact K3|]. cbn. intros. lia.
    + apply Forall_app. split; [done|]. by repeat constructor.
Qed.

Lemma publish_spec popped finished inflight (st : State) me c s e t lw ls : inv popped finished inflight st -> ws_calls st !! me = Some c ->
  call_pc c = Applied s e t lw ls ->
  exists st' popped', publish me st = Some st' /\ inv popped' (finished ++ inflight) [] st' /\ popped' ++ ws_queue st' = popped ++ ws_queue st.
Proof.
  intros Hinv Hc Epc. pose proof Hinv as [H1 H2 H3 H4 H5 H6]. assert (Ho : outcome c = None) by (unfold outcome; by rewrite Epc).
  assert (Hh : head (ws_queue st) = Some me) by (eapply at_front; [done..|by rewrite Epc]). rewrite (leader_pc_at st me c Hh Hc), Epc in H2.
  destruct H2 as (Htmp & ops & Hg & -> & ->). destruct (group_upto _ _ _ _ _ _ H1 Hg) as (Eops & pre & rest & Eq & Eup). rewrite Eup in *.
  unfold publish. rewrite Hc. cbn [mbind option_bind]. rewrite Epc. set (db1 := if e then _ else _). set (db2 := if t then _ else _).
  assert (Hdb : db_mem db2 = db_mem (ws_db st) /\ db_imm db2 = db_imm (ws_db st) /\ db_versions db2 = db_versions (ws_db st) /\ db_tmp_batch db2 = WriteBatch_Clear).
  { unfold db2, db1, RecordBackgroundError. destruct t, e; repeat case_match; cbn; auto. }
  destruct Hdb as (D1 & D2 & D3 & D4). rewrite D3, H3. pose proof (zlen_nonneg ops). rewrite (proj2 (Z.ltb_ge _ _)) by lia. set (ev := if ok s then _ else _) in *.
  set (st1 := mkWS (ws_world st) _ (ws_queue st) (ws_calls st)).
  destruct (finish_spec given popped finished [ev] pre lw rest me s st1 c) as (calls' & -> & Hq & Hsame); try done.
  { unfold ev, all_ids. destruct (ok s); cbn [map concat event_ids]; by rewrite app_nil_r. }
  { intros i o Hi _. unfold ev, inserted_ids. destruct (ok s); cbn [map concat inserted_by]; [by rewrite app_nil_r|]. split; [done|by intros ?%elem_of_nil]. }
  eexists _, (popped ++ pre ++ [lw]). split; [done|]. split; [|cbn [ws_queue]; by rewrite Eq, <- !app_assoc].
  assert (El : r_last (replay start (finished ++ [ev])) = r_last (replay start finished) + zlen ops) by apply replay_snoc_last.
  split; cbn [ws_queue ws_calls ws_db st1 db_set_versions db_versions db_tmp_batch]; rewrite ?app_nil_r, ?El; try done.
  - rewrite D4. replace (leader_pc _) with Waiting; [done|]. unfold leader_pc. cbn [ws_queue ws_calls]. destruct rest as [|r rest]; [done|]. cbn [head].
    destruct (queue_call given _ _ _ _ r Hq ltac:(by left)) as (d & Ed & _). rewrite Ed. cbn [from_option]. symmetry. rewrite Hsame in Ed by (by left).
    apply (qi_tail _ _ _ _ _ H1 r d); [rewrite Eq|done]. destruct pre; cbn [app tail]; [by left|]. apply elem_of_app. right. right. by left.
  - destruct H4 as [K1 K2 K3 K4]. split; cbn [db_mem db_imm db_versions db_set_versions vs_SetLastSequence vs_prev_log_number]; rewrite ?D1, ?D2; done.
Qed.

Lemma inv_others popped finished inflight (st : State) w db : inv popped finished inflight st -> undisturbed (ws_db st) db ->
  inv popped finished inflight (mkWS w db (ws_queue st) (ws_calls st)).
Proof.
  intros [H1 H2 H3 [K1 K2 K3 K4] H5 H6] [R1 R2 R3 R4 R5]. split; cbn [ws_queue ws_calls ws_db]; try done.
  - by rewrite R3.
  - by rewrite R4.
  - split; rewrite ?R1; try done; [|destruct R5; congruence]. intros m Hm. destruct R2 as [R2|R2]; [|congruence]. apply K2. congruence.
Qed.

(** ** Every run *)

Lemma ops_of_sublist a b : sublist a b -> zlen (ops_of given a) <= zlen (ops_of given b).
Proof.
  induction 1 as [|x a b H IH|x a b H IH]; [done|..]; rewrite ?ops_of_cons, ?zlen_app; [lia|]. match goal with |- _ <= zlen ?l + _ => pose proof (zlen_nonneg l) end. lia.
Qed.

Lemma replay_total hist : Forall (event_ok given) hist -> r_last (replay start hist) = r_last start + zlen (ops_of given (all_ids hist)).
Proof.
  intros Hok. induction hist as [|ev hist IH] using rev_ind; [symmetry; apply Z.add_0_r|]. apply Forall_app in Hok as [Hok [Hev _]%Forall_cons]. rewrite replay_app, all_ids_app, ops_of_app, zlen_app.
  specialize (IH Hok). change (replay ?r [ev]) with (replay_event r ev). change (all_ids [ev]) with (event_ids ev ++ []). rewrite app_nil_r.
  destruct ev as [ids ops|ids ops|]; cbn [replay_event r_last event_ok event_ids] in Hev |- *; [rewrite <- Hev; lia..|]. change (zlen (ops_of given [])) with 0. lia.
Qed.

(** No number beyond those the calls ask for is used. *)
Lemma inv_bound popped finished inflight (st : State) ids : inv popped finished inflight st -> sublist ids (ws_queue st) ->
  r_last (replay start finished) + zlen (ops_of given ids) <= r_last start + zlen (ops_of given (popped ++ ws_queue st)).
Proof.
  intros Hinv Hs. pose proof (in_events _ _ _ _ Hinv) as He. apply Forall_app in He as [He _]. rewrite (replay_total finished He), ops_of_app, zlen_app.
  pose proof (ops_of_sublist _ _ Hs). pose proof (ops_of_sublist _ _ (qi_order _ _ _ _ _ (in_queue _ _ _ _ Hinv))). lia.
Qed.

Lemma upto_sublist lw queue : sublist (upto lw queue) queue.
Proof. induction queue as [|i queue IH]; [constructor|]. cbn [upto]. apply sublist_skip. destruct (i =? lw)%nat; [apply sublist_nil_l|done]. Qed.

Lemma inv_step popped finished inflight (st st' : State) l : inv popped finished inflight st -> (forall me batch sync, l <> Enter me batch sync) ->
  step l st = Some st' -> r_last start + zlen (ops_of given (popped ++ ws_queue st)) <= kMaxSequenceNumber ->
  exists popped' finished' inflight', inv popped' finished' inflight' st' /\ popped' ++ ws_queue st' = popped ++ ws_queue st /\
    finished' ++ inflight' = (finished ++ inflight) ++ events l st st'.
Proof.
  intros Hinv Hl Hs Hmax. destruct l as [me batch sync|me|me|me|me]; [by destruct (Hl me batch sync)|..].
  - destruct (inv_wake popped finished inflight st st' me Hinv Hs) as [Hi ->]. exists popped, finished, inflight. by rewrite app_nil_r.
  - cbn [write_step] in Hs. pose proof Hs as Hs'. unfold make_room in Hs'. destruct (ws_calls st !! me) as [c|] eqn:Hc; [|done]. cbn [mbind option_bind] in Hs'.
    destruct (call_pc c) as [|force allow| | |] eqn:Epc; try done. clear Hs'. pose proof (inv_bound popped finished inflight st [] Hinv (sublist_nil_l _)) as Hb.
    change (zlen (ops_of given [])) with 0 in Hb.
    destruct (room_spec popped finished inflight st me c force allow Hinv Hc Epc ltac:(lia)) as [[E _]|(st1 & popped' & E & -> & Hi & Eq)]; [by rewrite E in Hs|].
    rewrite E in Hs. injection Hs as ->. exists popped', (finished ++ events (Room me) st st'), []. split; [done|]. split; [done|]. by rewrite !app_nil_r.
  - cbn [write_step] in Hs. pose proof Hs as Hs'. unfold apply in Hs'. destruct (ws_calls st !! me) as [c|] eqn:Hc; [|done]. cbn [mbind option_bind] in Hs'.
    destruct (call_pc c) as [| |u t lw ls| |] eqn:Epc; try done. clear Hs'. pose proof (inv_bound popped finished inflight st _ Hinv (upto_sublist lw _)) as Hb.
    destruct (apply_spec popped finished inflight st me c u t lw ls Hinv Hc Epc ltac:(lia)) as (st1 & E & -> & Hi & Eq).
    rewrite E in Hs. injection Hs as ->. exists popped, finished, (events (DBWrite.Apply me) st st'). split; [done|]. rewrite Eq, app_nil_r. done.
  - cbn [write_step] in Hs. pose proof Hs as Hs'. unfold publish in Hs'. destruct (ws_calls st !! me) as [c|] eqn:Hc; [|done]. cbn [mbind option_bind] in Hs'.
    destruct (call_pc c) as [| | |s e t lw ls|] eqn:Epc; try done. clear Hs'.
    destruct (publish_spec popped finished inflight st me c s e t lw ls Hinv Hc Epc) as (st1 & popped' & E & Hi & Eq). rewrite E in Hs. injection Hs as ->.
    exists popped', (finished ++ inflight), []. split; [done|]. split; [done|]. by rewrite !app_nil_r.
Qed.

Lemma run_inv arrived hist (st : State) : run arrived hist st -> r_last start + zlen (ops_of given arrived) <= kMaxSequenceNumber ->
  exists popped finished inflight, inv popped finished inflight st /\ arrived = popped ++ ws_queue st /\ hist = finished ++ inflight.
Proof.
  induction 1 as [w db Hr|arrived hist st st' me ops sync _ IH Hg Hfit Hs|arrived hist st st' l _ IH Hl Hs|arrived hist st w db _ IH Hu]; intros Hmax.
  - exists [], [], []. split; [|done]. destruct Hr as [R1 R2 R3 R4 R5 [R6 R7]]. split; cbn [ws_queue ws_calls ws_db leader_pc head app]; try done.
    split; try done; [intros i; split; [by intros ?%elem_of_nil|rewrite lookup_empty; by intros [? ?]]|constructor].
  - rewrite ops_of_app, zlen_app in Hmax. pose proof (zlen_nonneg (ops_of given [me])). destruct IH as (p & f & i & Hi & -> & ->); [lia|].
    destruct (inv_enter p f i st st' me ops sync Hi Hg Hfit Hs) as [Hi' ->]. exists p, f, i. by rewrite app_assoc.
  - destruct (IH Hmax) as (p & f & i & Hi & -> & ->). destruct (inv_step p f i st st' l Hi Hl Hs Hmax) as (p' & f' & i' & Hi' & <- & <-). by exists p', f', i'.
  - destruct (IH Hmax) as (p & f & i & Hi & -> & ->). exists p, f, i. split; [by apply inv_others|done].
Qed.

(** ** Progress *)

(** How many steps a call has left at most: at the front it is delayed at most
    once and switches the memtable at most once. *)
Definition rank (db : DBImpl) (c : Call) : nat :=
  match call_pc c with
  | Waiting => 6
  | MakingRoom force allow => 3 + Nat.b2n allow + Nat.b2n (force || (write_buffer_size <? ApproximateMemoryUsage (db_mem db)))
  | Applying _ _ _ _ => 2
  | Applied _ _ _ _ _ => 1
  | Returned _ => 0
  end.

Definition work (arrived : list nat) (st : State) : nat :=
  list_sum (map (fun i => from_option (rank (ws_db st)) 0%nat (ws_calls st !! i)) arrived).

Lemma sum_decreases (f g : nat -> nat) l me : me ∈ l -> (g me < f me)%nat -> (forall i, i <> me -> (g i <= f i)%nat) -> (list_sum (map g l) < list_sum (map f l))%nat.
Proof.
  intros Hin Hlt Hle. assert (Hall : forall i, (g i <= f i)%nat) by (intros i; destruct (decide (i = me)) as [->|]; [lia|by apply Hle]).
  assert (Hsum : forall l, (list_sum (map g l) <= list_sum (map f l))%nat) by (clear -Hall; intros l; induction l as [|x l IH]; cbn [map list_sum fold_right]; [lia|specialize (Hall x); unfold list_sum in IH; lia]).
  induction l as [|x l IH]; [by apply elem_of_nil in Hin|]. cbn [map list_sum fold_right]. specialize (Hsum l). unfold list_sum in *. apply elem_of_cons in Hin as [->|Hin]; [lia|].
  specialize (IH Hin). specialize (Hall x). lia.
Qed.

Lemma pop_pcs me lw s queue : forall calls r, pop_writers me lw s queue calls = Some r -> forall i, call_pc <$> r.2 !! i = call_pc <$> calls !! i.
Proof.
  induction queue as [|q queue IH]; intros calls r; cbn [pop_writers]; [done|].
  assert (Hstep : forall calls1, (if (q =? me)%nat then Some calls
               else c ← calls !! q; Some (<[q := call_set (mkWriter s (w_batch (call_writer c)) (w_sync (call_writer c)) true) c]> calls)) = Some calls1 ->
             forall i, call_pc <$> calls1 !! i = call_pc <$> calls !! i).
  { intros calls1. destruct (q =? me)%nat; [by intros [= <-]|]. destruct (calls !! q) as [c|] eqn:Ec; cbn [mbind option_bind]; [|done]. intros [= <-] i.
    destruct (decide (q = i)) as [<-|]; [by rewrite lookup_insert_eq, Ec|by rewrite lookup_insert_ne]. }
  destruct (if (q =? me)%nat then _ else _) as [calls1|] eqn:E1; cbn [mbind option_bind]; [|done]. specialize (Hstep calls1 eq_refl).
  destruct (q =? lw)%nat; [by intros [= <-]|]. intros Hr i. by rewrite (IH calls1 r Hr i).
Qed.

Lemma finish_pcs me lw s (st st' : State) : finish me lw s st = Some st' -> ws_db st' = ws_db st /\
  (call_pc <$> ws_calls st' !! me = Some (Returned s)) /\ forall i, i <> me -> call_pc <$> ws_calls st' !! i = call_pc <$> ws_calls st !! i.
Proof.
  unfold finish. destruct (pop_writers me lw s (ws_queue st) (ws_calls st)) as [r|] eqn:E; cbn [mbind option_bind]; [|done]. pose proof (pop_pcs _ _ _ _ _ _ E) as Hp.
  destruct (r.2 !! me) as [c|]; cbn [mbind option_bind]; [|done]. intros [= <-]. cbn [ws_db ws_calls]. split; [done|]. rewrite lookup_insert_eq. split; [done|].
  intros i Hi. by rewrite lookup_insert_ne.
Qed.

(** What a step does to the program counters. *)
Definition moves (me : nat) (st st' : State) (pc : WritePc -> Prop) : Prop :=
  (exists c, ws_calls st' !! me = Some c /\ pc (call_pc c)) /\ forall i, i <> me -> call_pc <$> ws_calls st' !! i = call_pc <$> ws_calls st !! i.

Lemma moves_at me (st : State) w db q c c' (P : WritePc -> Prop) : P (call_pc c') -> ws_calls st !! me = Some c -> moves me st (mkWS w db q (<[me := c']> (ws_calls st))) P.
Proof.
  intros HP Hc. split; cbn [ws_calls]; [exists c'; by rewrite lookup_insert_eq|]. intros i Hi. by rewrite lookup_insert_ne.
Qed.

Lemma moves_finish me lw s (st st' : State) (P : WritePc -> Prop) : P (Returned s) -> finish me lw s st = Some st' -> moves me st st' P.
Proof.
  intros HP (_ & Hm & Ho)%finish_pcs. split; [|done]. destruct (ws_calls st' !! me) as [c|]; [|done]. exists c. split; [done|]. injection Hm as ->. done.
Qed.

Lemma begin_group_moves me s (st st' : State) : begin_group me s st = Some st' ->
  moves me st st' (fun pc => match pc with Applying _ _ _ _ | Returned _ => True | _ => False end).
Proof.
  unfold begin_group. destruct (ws_calls st !! me) as [c|] eqn:Hc; cbn [mbind option_bind]; [|done].
  destruct (w_batch (call_writer c)) as [b|]; [|by apply moves_finish]. destruct (ok s); [|by apply moves_finish].
  destruct (queued_writers st) as [ws|]; cbn [mbind option_bind]; [|done]. destruct (BuildBatchGroup ws (db_tmp_batch (ws_db st))) as [[[u t] lw]|]; cbn [mbind option_bind]; [|done].
  intros [= <-]. by eapply moves_at; [destruct t|].
Qed.

Lemma apply_moves me (st st' : State) : apply env dbname ucmp base me st = Some st' ->
  moves me st st' (fun pc => match pc with Applied _ _ _ _ _ => True | _ => False end).
Proof.
  unfold apply. destruct (ws_calls st !! me) as [c|] eqn:Hc; cbn [mbind option_bind]; [|done]. destruct (call_pc c) as [| |u t lw ls| |]; try done.
  set (sy := if call_sync c then _ else _). destruct sy as [s w]. destruct (ok s); [|intros [= <-]; by eapply moves_at].
  destruct (InsertInto ucmp base u (db_mem (ws_db st))) as [[[m|] s']|]; cbn [mbind option_bind fst snd]; [|done..]. intros [= <-]. by eapply moves_at.
Qed.

Lemma publish_moves me (st st' : State) : publish me st = Some st' -> moves me st st' (fun pc => match pc with Returned _ => True | _ => False end).
Proof.
  unfold publish. destruct (ws_calls st !! me) as [c|] eqn:Hc; cbn [mbind option_bind]; [|done]. destruct (call_pc c) as [| | |s e t lw ls|]; try done.
  destruct (_ <? _); [done|]. intros H. exact (moves_finish me lw s _ st' (fun pc => match pc with Returned _ => True | _ => False end) I H).
Qed.

Lemma room_progress force allow w db : match MakeRoomForWrite_step env dbname base write_buffer_size force allow w db with
  | Some Delayed => allow = true
  | Some (Switched w' db') => force || (write_buffer_size <? ApproximateMemoryUsage (db_mem db)) = true /\ db_mem db' = new_MemTable base
  | Some Wait => ok (db_bg_error db) = true /\ (db_imm db <> None \/ kL0_StopWritesTrigger <= NumLevelFiles (db_versions db) 0)
  | _ => True
  end.
Proof.
  unfold MakeRoomForWrite_step. destruct (ok (db_bg_error db)); cbn [negb]; [|done]. destruct (allow && _) eqn:Ea; [by apply andb_true_iff in Ea as [-> _]|].
  destruct (negb force && _) eqn:Er; [done|]. case_bool_decide as Hi; cbn [negb]; [|split; [done|by left]].
  destruct (Z.leb_spec kL0_StopWritesTrigger (NumLevelFiles (db_versions db) 0)) as [Hl|Hl]; [split; [done|by right]|].
  destruct (vs_prev_log_number (db_versions db) =? 0); cbn [negb]; [|done]. destruct (NewFileNumber (db_versions db)) as [n vs].
  destruct (NewWritableFile env (LogFileName dbname n) w) as [s w']. destruct (ok s); cbn [negb]; [|done]. split.
  - destruct force; [done|]. cbn [negb andb orb] in *. apply Z.leb_gt in Er. by apply Z.ltb_lt.
  - match goal with |- db_mem (MaybeScheduleCompaction ?d) = _ => by rewrite (proj1 (schedule_fields d)) end.
Qed.

(** Calls that are not at the front do not make room. *)
Lemma behind_rank popped finished inflight (st st' : State) me P i : inv popped finished inflight st -> head (ws_queue st) = Some me -> moves me st st' P -> i <> me ->
  from_option (rank (ws_db st')) 0%nat (ws_calls st' !! i) = from_option (rank (ws_db st)) 0%nat (ws_calls st !! i).
Proof.
  intros Hinv Hh [_ Hm] Hi. specialize (Hm i Hi). destruct (ws_calls st !! i) as [c|] eqn:Hc, (ws_calls st' !! i) as [c'|]; try done. injection Hm as Hm.
  cbn [from_option]. unfold rank. rewrite Hm. destruct (call_pc c) as [|force allow| | |] eqn:Epc; try done. exfalso. apply Hi.
  pose proof (at_front _ _ _ _ i c (in_queue _ _ _ _ Hinv) Hc) as Hf. rewrite Hh in Hf. injection Hf; [done|unfold outcome; by rewrite Epc|by rewrite Epc].
Qed.

Lemma leader_decreases popped finished inflight (st st' : State) me c P : inv popped finished inflight st -> ws_calls st !! me = Some c ->
  outcome c = None -> call_pc c <> Waiting -> moves me st st' P -> (forall c', P (call_pc c') -> (rank (ws_db st') c' < rank (ws_db st) c)%nat) ->
  (work (popped ++ ws_queue st) st' < work (popped ++ ws_queue st) st)%nat.
Proof.
  intros Hinv Hc Ho Hw Hm HP. pose proof (in_queue _ _ _ _ Hinv) as Hq. apply (sum_decreases _ _ _ me).
  - apply (qi_arrived _ _ _ _ _ Hq). by exists c.
  - destruct Hm as [(c' & Hc' & Hp) _]. rewrite Hc, Hc'. by apply HP.
  - intros i Hi. rewrite (behind_rank popped finished inflight st st' me P i); try done. by eapply at_front.
Qed.

Lemma step_decreases popped finished inflight (st st' : State) l : inv popped finished inflight st -> (forall me batch sync, l <> Enter me batch sync) ->
  step l st = Some st' -> ApproximateMemoryUsage (new_MemTable base) <= write_buffer_size ->
  (work (popped ++ ws_queue st) st' < work (popped ++ ws_queue st) st)%nat.
Proof.
  intros Hinv Hl Hs Hsmall. pose proof (in_queue _ _ _ _ Hinv) as Hq. destruct l as [me batch sync|me|me|me|me]; [by destruct (Hl me batch sync)|..]; cbn [write_step] in Hs.
  - unfold wake in Hs. destruct (ws_calls st !! me) as [c|] eqn:Hc; [|done]. cbn [mbind option_bind] in Hs. destruct (call_pc c) eqn:Epc; try done.
    assert (Hlt : forall c', (rank (ws_db st) c' < 6)%nat -> (work (popped ++ ws_queue st) (mkWS (ws_world st) (ws_db st) (ws_queue st) (<[me := c']> (ws_calls st))) < work (popped ++ ws_queue st) st)%nat).
    { intros c' Hr. apply (sum_decreases _ _ _ me); cbn [ws_calls ws_db].
      - apply (qi_arrived _ _ _ _ _ Hq). by exists c.
      - rewrite lookup_insert_eq, Hc. cbn [from_option]. unfold rank at 2. by rewrite Epc.
      - intros i Hi. by rewrite lookup_insert_ne. }
    destruct (w_done (call_writer c)); [injection Hs as <-; apply Hlt; cbn; lia|]. destruct (head (ws_queue st)) as [front|]; [|done]. cbn [mbind option_bind] in Hs.
    destruct (front =? me)%nat; [|done]. injection Hs as <-. apply Hlt. unfold rank. cbn [call_at call_pc]. assert (Hb : forall b, (Nat.b2n b <= 1)%nat) by (intros []; cbn; lia).
    match goal with |- (_ + Nat.b2n ?a + Nat.b2n ?b < _)%nat => pose proof (Hb a); pose proof (Hb b) end. lia.
  - unfold make_room in Hs. destruct (ws_calls st !! me) as [c|] eqn:Hc; [|done]. cbn [mbind option_bind] in Hs. destruct (call_pc c) as [|force allow| | |] eqn:Epc; try done.
    pose proof (room_progress force allow (ws_world st) (ws_db st)) as Hp. assert (Hr3 : (3 <= rank (ws_db st) c)%nat) by (unfold rank; rewrite Epc; lia).
    destruct (MakeRoomForWrite_step _ _ _ _ _ _ _ _) as [[s w db| |w db|]|]; cbn [mbind option_bind] in Hs; try done;
      (eapply (leader_decreases popped finished inflight st st' me c); [done|done|unfold outcome; by rewrite Epc|by rewrite Epc|..]).
    + apply begin_group_moves in Hs. exact Hs.
    + intros c' Hp'. unfold rank at 1. destruct (call_pc c'); try done; lia.
    + injection Hs as <-. by eapply (moves_at me st _ _ _ c _ (fun pc => pc = MakingRoom force false)).
    + intros c' Hp'. injection Hs as <-. unfold rank. rewrite Hp', Epc, Hp. cbn [ws_db]. cbn. lia.
    + injection Hs as <-. by eapply (moves_at me st _ _ _ c _ (fun pc => pc = MakingRoom false allow)).
    + intros c' Hp'. injection Hs as <-. destruct Hp as [Hf Hm]. unfold rank. rewrite Hp', Epc, Hf. cbn [ws_db]. rewrite Hm, (proj2 (Z.ltb_ge _ _)) by done. cbn. lia.
  - pose proof (apply_moves me st st' Hs) as Hm. unfold apply in Hs. destruct (ws_calls st !! me) as [c|] eqn:Hc; [|done]. cbn [mbind option_bind] in Hs. destruct (call_pc c) as [| |u t lw ls| |] eqn:Epc; try done.
    eapply (leader_decreases popped finished inflight st st' me c); [done|done|unfold outcome; by rewrite Epc|by rewrite Epc|exact Hm|].
    intros c' Hp'. unfold rank. rewrite Epc. destruct (call_pc c'); try done; lia.
  - pose proof (publish_moves me st st' Hs) as Hm. unfold publish in Hs. destruct (ws_calls st !! me) as [c|] eqn:Hc; [|done]. cbn [mbind option_bind] in Hs. destruct (call_pc c) as [| | |s e t lw ls|] eqn:Epc; try done.
    eapply (leader_decreases popped finished inflight st st' me c); [done|done|unfold outcome; by rewrite Epc|by rewrite Epc|exact Hm|].
    intros c' Hp'. unfold rank. rewrite Epc. destruct (call_pc c'); try done; lia.
Qed.

Definition returned (c : Call) : Prop := exists s, call_pc c = Returned s.

(** The front waits for a flush or for a compaction of level 0. *)
Definition blocked (db : DBImpl) : Prop := ok (db_bg_error db) = true /\ (db_imm db <> None \/ kL0_StopWritesTrigger <= NumLevelFiles (db_versions db) 0).

Definition is_told (c : Call) : bool := match call_pc c with Waiting => w_done (call_writer c) | _ => false end.

Lemma inv_progress popped finished inflight (st : State) : inv popped finished inflight st ->
  r_last start + zlen (ops_of given (popped ++ ws_queue st)) <= kMaxSequenceNumber ->
  (forall i c, ws_calls st !! i = Some c -> returned c) \/ (exists l st', (forall me batch sync, l <> Enter me batch sync) /\ step l st = Some st') \/ blocked (ws_db st).
Proof.
  intros Hinv Hmax. pose proof (in_queue _ _ _ _ Hinv) as Hq. destruct (decide (map_Forall (fun _ c => is_told c = false) (ws_calls st))) as [Hno|Hyes].
  2: { apply map_not_Forall in Hyes as (i & c & Hc & Ht); [|apply _]. right. left. unfold is_told in Ht. destruct (call_pc c) eqn:Epc; try done. destruct (w_done (call_writer c)) eqn:Ed; [|done].
       exists (Wake i). eexists. split; [done|]. cbn [write_step]. unfold wake. rewrite Hc. cbn [mbind option_bind]. rewrite Epc, Ed. done. }
  destruct (ws_queue st) as [|me queue] eqn:Eq.
  - left. intros i c Hc. pose proof (qi_queue _ _ _ _ _ Hq i c Hc) as [_ Hi]. assert (Ho : outcome c <> None) by (intros Ho; by apply Hi, elem_of_nil in Ho).
    pose proof (Hno i c Hc) as Ht. unfold outcome in Ho. unfold is_told in Ht. cbn beta in Ht. destruct (call_pc c) as [| | | |s] eqn:Epc; try done; [by rewrite Ht in Ho|by exists s].
  - right. destruct (queue_call given _ _ _ _ me Hq ltac:(by left)) as (c & Hc & Ho & _). rewrite <- Eq in *.
    pose proof (inv_bound popped finished inflight st [] Hinv (sublist_nil_l _)) as Hb. change (zlen (ops_of given [])) with 0 in Hb.
    destruct (call_pc c) as [|force allow|u t lw ls|s e t lw ls|s] eqn:Epc.
    + left. exists (Wake me). eexists. split; [done|]. cbn [write_step]. unfold wake. rewrite Hc. cbn [mbind option_bind]. rewrite Epc.
      pose proof (Hno me c Hc) as Ht. unfold is_told in Ht. cbn beta in Ht. rewrite Epc in Ht. rewrite Ht, Eq. cbn [head mbind option_bind]. by rewrite Nat.eqb_refl.
    + pose proof (room_progress force allow (ws_world st) (ws_db st)) as Hp.
      destruct (room_spec popped finished inflight st me c force allow Hinv Hc Epc ltac:(lia)) as [[_ E]|(st' & popped' & E & _)]; [right; by rewrite E in Hp|left; by exists (Room me), st'].
    + left. pose proof (inv_bound popped finished inflight st _ Hinv (upto_sublist lw _)) as Hb'.
      destruct (apply_spec popped finished inflight st me c u t lw ls Hinv Hc Epc ltac:(lia)) as (st' & E & _). by exists (DBWrite.Apply me), st'.
    + left. destruct (publish_spec popped finished inflight st me c s e t lw ls Hinv Hc Epc) as (st' & popped' & E & _). by exists (Publish me), st'.
    + unfold outcome in Ho. by rewrite Epc in Ho.
Qed.

(** [n] steps of the calls that have arrived, among those of other threads. *)
Inductive goes_on : nat -> State -> State -> Prop :=
  | goes_stop st : goes_on 0 st st
  | goes_step n st st1 st' l : (forall me batch sync, l <> Enter me batch sync) -> step l st = Some st1 -> goes_on n st1 st' -> goes_on (S n) st st'
  | goes_others n st w db st' : undisturbed (ws_db st) db -> goes_on n (mkWS w db (ws_queue st) (ws_calls st)) st' -> goes_on n st st'.

Lemma work_others arrived (st : State) w db : undisturbed (ws_db st) db -> work arrived (mkWS w db (ws_queue st) (ws_calls st)) = work arrived st.
Proof.
  intros [Hm _ _ _ _]. unfold work. f_equal. apply map_ext. intros i. cbn [ws_db ws_calls]. destruct (ws_calls st !! i) as [c|]; [|done]. cbn [from_option].
  unfold rank. by rewrite Hm.
Qed.

Lemma goes_on_work n (st st' : State) : goes_on n st st' -> forall arrived hist, run arrived hist st ->
  r_last start + zlen (ops_of given arrived) <= kMaxSequenceNumber -> ApproximateMemoryUsage (new_MemTable base) <= write_buffer_size ->
  (n + work arrived st' <= work arrived st)%nat /\ exists hist', run arrived hist' st'.
Proof.
  induction 1 as [st|n st st1 st' l Hl Hs Hgo IH|n st w db st' Hu Hgo IH]; intros arrived hist Hrun Hmax Hsmall.
  - split; [lia|by exists hist].
  - destruct (run_inv arrived hist st Hrun Hmax) as (p & f & i & Hi & -> & ->). pose proof (step_decreases p f i st st1 l Hi Hl Hs Hsmall) as Hd.
    destruct (IH (p ++ ws_queue st) _ (run_step _ _ _ _ l Hrun Hl Hs) Hmax Hsmall) as [Hn He]. split; [lia|done].
  - destruct (IH arrived hist (run_others _ _ _ w db Hrun Hu) Hmax Hsmall) as [Hn He]. by rewrite work_others in Hn.
Qed.

(** A schedule of steps of the calls. *)
Fixpoint write_steps (ls : list WriteStep) (st : State) : option State :=
  match ls with [] => Some st | l :: ls => st ← step l st; write_steps ls st end.

Lemma run_steps ls : forall arrived hist st st', run arrived hist st -> Forall (fun l => match l with Enter _ _ _ => False | _ => True end) ls ->
  write_steps ls st = Some st' -> exists hist', run arrived hist' st'.
Proof.
  induction ls as [|l ls IH]; intros arrived hist st st' Hrun Hl Hs; cbn [write_steps] in Hs; [injection Hs as ->; by exists hist|].
  apply Forall_cons in Hl as [Hl Hls]. destruct (step l st) as [st1|] eqn:E; [|done]. cbn [mbind option_bind] in Hs.
  apply (IH arrived (hist ++ events l st st1) st1); [|done..]. apply run_step; [done| |done]. intros me batch sync ->. done.
Qed.

End Runs.

(** ** Two writers at once *)

Module TwoWriters.

Definition given : Given := {[ 1%nat := Some [OpPut (lit "k") (lit "v")]; 2%nat := Some [OpDelete (lit "k"); OpPut (lit "l") []] ]}.
Definition start : Replay := mkReplay 7 [] None.
Definition db : DBImpl :=
  mkDB false (new_MemTable (fun _ => 0)) None 5 0 WriteBatch_Clear new_SnapshotList ∅ false None (vs_SetLastSequence 7 new_VersionSet) Status_OK [].
Definition initial : WriteState MemFS := mkWS [] db [] ∅.

Abbreviation step := (write_step MemEnv (lit "db") BytewiseComparator (fun _ => 0) 65536).
Abbreviation steps := (write_steps MemEnv (lit "db") BytewiseComparator (fun _ => 0) 65536).
Abbreviation run := (run MemEnv (lit "db") BytewiseComparator (fun _ => 0) 65536 given start).

Definition both : option (WriteState MemFS) :=
  st ← step (Enter 1 (Some (build_batch [OpPut (lit "k") (lit "v")])) false) initial;
  step (Enter 2 (Some (build_batch [OpDelete (lit "k"); OpPut (lit "l") []])) false) st.

Lemma both_enter : exists st, both = Some st /\ run [1; 2]%nat [] st.
Proof.
  unfold both. destruct (step _ initial) as [st1|] eqn:E1; [|by vm_compute in E1]. cbn [mbind option_bind]. destruct (step _ st1) as [st2|] eqn:E2.
  2: { injection E1 as <-. by vm_compute in E2. }
  exists st2. split; [done|]. apply (run_enter _ _ _ _ _ given start [1%nat] [] st1 st2 2%nat (Some [OpDelete (lit "k"); OpPut (lit "l") []]) false); [|done| |exact E2].
  - apply (run_enter _ _ _ _ _ given start [] [] initial st1 1%nat (Some [OpPut (lit "k") (lit "v")]) false); [|done| |exact E1].
    + apply run_start. split; try done. exists []. split; [apply new_MemTable_rep|done].
    + intros o [= <-]. split; [repeat constructor; vm_compute; done|]. split; by vm_compute.
  - intros o [= <-]. split; [repeat constructor; vm_compute; done|]. split; by vm_compute.
Qed.

End TwoWriters.

(** ** The files *)

Section Files.
Context {W : Type} (env : Env W) (view : W -> bytes -> option bytes) `{!EnvLaws env view} (dbname : bytes) (base : nat -> Z) (write_buffer_size : Z).

Lemma finish_files me lw s (st st' : WriteState W) : finish me lw s st = Some st' -> ws_world st' = ws_world st /\ ws_db st' = ws_db st.
Proof.
  unfold finish. destruct (pop_writers _ _ _ _ _) as [r|]; cbn [mbind option_bind]; [|done]. destruct (r.2 !! me); cbn [mbind option_bind]; [|done]. by intros [= <-].
Qed.

Lemma begin_group_files me s (st st' : WriteState W) : begin_group me s st = Some st' ->
  ws_world st' = ws_world st /\ db_logfile_number (ws_db st') = db_logfile_number (ws_db st).
Proof.
  unfold begin_group. destruct (ws_calls st !! me) as [c|]; cbn [mbind option_bind]; [|done].
  destruct (w_batch (call_writer c)); [destruct (ok s)|]; try by intros [-> ->]%finish_files. destruct (queued_writers _); cbn [mbind option_bind]; [|done].
  destruct (BuildBatchGroup _ _) as [[[u t] lw]|]; cbn [mbind option_bind]; [|done]. intros [= <-]. by destruct t.
Qed.

Lemma room_files force allow w db : let new_log := LogFileName dbname (vs_next_file_number (db_versions db)) in
  match MakeRoomForWrite_step env dbname base write_buffer_size force allow w db with
  | Some (Stop s w' db') => (forall f, f <> new_log -> view w' f = view w f) /\ db_logfile_number db' = db_logfile_number db
  | Some (Switched w' db') => (forall f, f <> new_log -> view w' f = view w f) /\ view w' new_log = Some []
  | _ => True
  end.
Proof.
  intros new_log. unfold MakeRoomForWrite_step. destruct (negb (ok (db_bg_error db))); [done|]. destruct (allow && _); [done|]. destruct (negb force && _); [done|].
  destruct (negb (bool_decide _)); [done|]. destruct (_ <=? _); [done|]. destruct (negb (_ =? 0)); [done|].
  unfold NewFileNumber. pose proof (fun g H => new_frame new_log w g H) as Hf. pose proof (new_ok new_log w) as Ho. fold new_log.
  destruct (NewWritableFile env new_log w) as [s w']. cbn [fst snd] in *. destruct (ok s); cbn [negb]; [|done]. split; [done|by apply Ho].
Qed.

Lemma sync_files f w g : ok (file_Sync env f w).1 = true -> view (file_Sync env f w).2 g = view w g.
Proof. intros Hok. destruct (decide (g = f)) as [->|Hne]; [by apply sync_ok|by apply sync_frame]. Qed.

End Files.

(** ** Properties *)

(** C6. The write path is a sequential log. However the threads interleave, the
    groups form one history: each call's batch is in at most one group, groups
    and calls within them follow the order of arrival, each group has the
    sequence numbers behind those of the group before, and the memtables hold
    exactly what was inserted since the switches. The published sequence number
    is that of a prefix of the history that lacks at most the group being
    applied, so a reader sees whole groups only; a call that returned succeeded
    exactly if its batch is in that prefix. *)
Theorem writes_serialised {W} (env : Env W) dbname ucmp base write_buffer_size given start `{!TotalCmp (Compare ucmp)} arrived hist (st : WriteState W) :
  run env dbname ucmp base write_buffer_size given start arrived hist st -> r_last start + zlen (ops_of given arrived) <= kMaxSequenceNumber ->
  NoDup arrived /\ sublist (all_ids hist) arrived /\ Forall (event_ok given) hist /\
  (exists es, mem_rep ucmp (db_mem (ws_db st)) es /\ es ≡ₚ r_mem (replay start hist)) /\
  (forall m, db_imm (ws_db st) = Some m -> exists es l, r_imm (replay start hist) = Some l /\ mem_rep ucmp m es /\ es ≡ₚ l) /\
  exists published pending, hist = published ++ pending /\ (length pending <= 1)%nat /\
    vs_last_sequence (db_versions (ws_db st)) = r_last (replay start published) /\
    forall i c s ops, ws_calls st !! i = Some c -> call_pc c = Returned s -> given !! i = Some (Some ops) -> (ok s = true <-> i ∈ inserted_ids published).
Proof.
  intros Hrun Hmax. destruct (run_inv env dbname ucmp base write_buffer_size given start arrived hist st Hrun Hmax) as (p & f & i & [H1 H2 H3 [K1 K2 _ _] H5 _] & -> & ->).
  assert (Hpend : sublist (all_ids i) (ws_queue st) /\ (length i <= 1)%nat).
  { destruct (leader_pc st) as [| |u t lw ls|s e t lw ls|]; cbn [phase_inv] in H2; [destruct H2 as [-> _]; split; [apply sublist_nil_l|cbn; lia]..| |done].
    destruct H2 as (_ & ops & _ & _ & ->). split; [|done]. unfold all_ids. destruct (ok s); cbn [map concat event_ids]; rewrite app_nil_r; apply upto_sublist. }
  split; [by apply (qi_nodup _ _ _ _ _ H1)|]. split; [rewrite all_ids_app; apply sublist_app; [by apply (qi_order _ _ _ _ _ H1)|by apply Hpend]|].
  split; [done|]. split; [done|]. split; [done|]. exists f, i. split; [done|]. split; [by apply Hpend|]. split; [done|].
  intros j c s ops Hc Hpc. apply (qi_acks _ _ _ _ _ H1 j c s ops Hc). unfold outcome. by rewrite Hpc.
Qed.

(** The first writer applies both batches; the second finds itself done. *)
Lemma writes_serialised_witness : exists st st' hist, TwoWriters.both = Some st /\
  TwoWriters.steps [Wake 1; Room 1; DBWrite.Apply 1; Publish 1; Wake 2] st = Some st' /\ TwoWriters.run [1; 2]%nat hist st' /\
  sublist (all_ids hist) [1; 2]%nat /\ vs_last_sequence (db_versions (ws_db st')) = 10 /\ ws_queue st' = [].
Proof.
  destruct TwoWriters.both_enter as (st & E & Hrun). destruct (TwoWriters.steps [Wake 1; Room 1; DBWrite.Apply 1; Publish 1; Wake 2] st) as [st'|] eqn:Es.
  2: { injection E as <-. by vm_compute in Es. }
  eapply run_steps in Es as Hrun'; [|exact Hrun|by repeat constructor]. destruct Hrun' as [hist Hrun'].
  destruct (writes_serialised _ _ _ _ _ _ _ _ _ _ Hrun') as (_ & Hsub & _); [by vm_compute|]. exists st, st', hist. split; [done|]. split; [done|]. split; [done|]. split; [done|].
  injection E as <-. vm_compute in Es. injection Es as <-. done.
Defined.




