(* ===== verification/Background.v ===== *)
(** * The background thread does not disturb the writers

    Flushes and compactions run beside the write path. Whatever they do, they
    leave the memtable, the joined batch and the last sequence number alone, and
    take away the old memtable at most: what [WriteQueue] assumes of other
    threads holds of [BackgroundCall] and of the operations of readers. *)

From S2P Require Import Prelude Coding Status Comparator Dbformat SkipList MemTable WriteBatch Env Filename VersionEdit Version VersionSet Compaction Iterator MemIter World TwoLevel Merger Block Format TableBuilder Cache Table TableCache TableIter VersionIter Snapshot DB DBRead Obsolete Install Store DBFlush DBCompact DBWrite WriteQueue.

Lemma undisturbed_refl db : undisturbed db db.
Proof. split; auto. Qed.

Lemma undisturbed_trans a b c : undisturbed a b -> undisturbed b c -> undisturbed a c.
Proof. intros [A1 A2 A3 A4 A5] [B1 B2 B3 B4 B5]. split; [congruence| |congruence|congruence|]; [destruct A2, B2|destruct A5, B5]; first [left; congruence|right; congruence]. Qed.

(** Changes of the versions that keep the numbers. *)
Lemma undisturbed_versions db vs : vs_last_sequence vs = vs_last_sequence (db_versions db) ->
  vs_prev_log_number vs = vs_prev_log_number (db_versions db) \/ vs_prev_log_number vs = 0 -> undisturbed db (db_set_versions vs db).
Proof. intros H1 H2. split; auto. Qed.

(** ** Computations that leave the writers alone *)

Section Keeps.
Context {W C CT : Type}.

Abbreviation S := (Store W C CT).

(** [Q] holds of the result. *)
Definition keeps {A} (m : M S A) (Q : A -> Prop) : Prop := forall g a g', m g = Some (a, g') -> undisturbed g.2 g'.2 /\ Q a.

Lemma keeps_weaken {A} (m : M S A) (P Q : A -> Prop) : keeps m P -> (forall a, P a -> Q a) -> keeps m Q.
Proof. intros H HQ g a g' E. destruct (H g a g' E). auto. Qed.

Lemma keeps_ret {A} (a : A) (Q : A -> Prop) : Q a -> keeps (mret a) Q.
Proof. intros HQ g b g' E. injection E as <- <-. split; [apply undisturbed_refl|done]. Qed.

Lemma keeps_bind {A B} (m : M S A) (f : A -> M S B) (P : A -> Prop) (Q : B -> Prop) : keeps m P -> (forall a, P a -> keeps (f a) Q) -> keeps (m ≫= f) Q.
Proof.
  intros Hm Hf g b g' E. unfold mbind, M_bind in E. destruct (m g) as [[a g1]|] eqn:Em; [|done]. destruct (Hm g a g1 Em) as [U1 Pa]. destruct (Hf a Pa g1 b g' E) as [U2 Qb].
  split; [by eapply undisturbed_trans|done].
Qed.

Lemma keeps_lift {A} (o : option A) (Q : A -> Prop) : (forall a, o = Some a -> Q a) -> keeps (lift o) Q.
Proof. intros HQ g a g'. unfold lift. destruct o; [|done]. intros [= <- <-]. split; [apply undisturbed_refl|by apply HQ]. Qed.

(** Files and caches only. *)
Lemma keeps_first {A} (m : M (Disk W C CT) A) : keeps (on_first m) (fun _ => True).
Proof. intros g a g'. unfold on_first. destruct (m g.1) as [[b d]|]; [|done]. intros [= <- <-]. split; [apply undisturbed_refl|done]. Qed.

Lemma keeps_second {A} (m : M DBImpl A) (Q : A -> Prop) : (forall db a db', m db = Some (a, db') -> undisturbed db db' /\ Q a) -> keeps (on_second m) Q.
Proof. intros Hm g a g'. unfold on_second. destruct (m g.2) as [[b d]|] eqn:E; [|done]. intros [= <- <-]. by apply (Hm _ _ _ E). Qed.

Lemma keeps_get : keeps (on_second get_state) (fun _ => True).
Proof. apply keeps_second. intros db a db' [= <- <-]. split; [apply undisturbed_refl|done]. Qed.

Lemma keeps_modify f : (forall db, undisturbed db (f db)) -> keeps (on_second (modify f)) (fun _ => True).
Proof. intros Hf. apply keeps_second. intros db a db' [= <- <-]. auto. Qed.

Lemma keeps_when {Q : Status -> Prop} s (m : M S Status) : Q s -> keeps m Q -> keeps (when_ok s m) Q.
Proof. intros HQ Hm. unfold when_ok. destruct (ok s); [done|by apply keeps_ret]. Qed.

End Keeps.

Create HintDb keeps.
#[export] Hint Resolve keeps_get keeps_first undisturbed_refl : keeps.

(** Runs through a computation; what is left are its own steps. *)
Ltac keeps_step :=
  lazymatch goal with
  | |- keeps (mret _) _ => apply keeps_ret
  | |- keeps (_ ≫= _) _ => eapply keeps_bind; [|intros ? ?; cbn beta in *]
  | |- keeps (lift _) _ => apply keeps_lift
  | |- keeps (when_ok _ _) _ => apply keeps_when
  | |- keeps (if ?b then _ else _) _ => destruct b eqn:?
  | |- keeps (match ?x with _ => _ end) _ => destruct x eqn:?
  end.

(** ** Version edits and the numbers of the version set *)

(** The number of the previous log is cleared or left as it is. *)
Definition prev_ok (e : VersionEdit) : Prop := has_prev_log_number_ e = true -> prev_log_number_ e = 0.

Lemma LogAndApply_numbers ucmp {W} (env : Env W) dbname edit vs w s vs' w' : LogAndApply ucmp env dbname edit vs w = Some (s, vs', w') -> prev_ok edit ->
  vs_last_sequence vs' = vs_last_sequence vs /\ (vs_prev_log_number vs' = vs_prev_log_number vs \/ vs_prev_log_number vs' = 0).
Proof.
  unfold LogAndApply. intros H Hp. destruct (log_number_allowed edit vs); [|done]. cbn [mbind option_bind] in H. destruct (SaveTo _ _ _) as [v|]; [|done]. cbn [mbind option_bind] in H.
  destruct (open_descriptor _ _ _ _ _) as [[[s1 d1] w1]|]; [|done]. cbn [mbind option_bind] in H. destruct (log_edit _ _ _ _ _ _ _) as [[[s2 d2] w2]|]; [|done]. cbn [mbind option_bind] in H.
  set (sc := if _ && _ then _ else _) in H. destruct sc as [s3 w3]. destruct (ok s3); [|by destruct (vs_descriptor _); injection H as <- <- <-; auto].
  injection H as <- <- <-. split; [done|]. cbn [install_logs vs_prev_log_number complete_edit]. unfold complete_edit.
  assert (Hl : forall e, has_prev_log_number_ (if has_log_number_ e then e else SetLogNumber (vs_log_number vs) e) = has_prev_log_number_ e /\
             prev_log_number_ (if has_log_number_ e then e else SetLogNumber (vs_log_number vs) e) = prev_log_number_ e) by (intros e; by destruct (has_log_number_ e)).
  destruct (Hl edit) as [E1 E2]. rewrite E1. destruct (has_prev_log_number_ edit) eqn:Eh; [right|by left]. cbn. rewrite E2. by apply Hp.
Qed.

Lemma fold_edit {A} (f : VersionEdit -> A -> VersionEdit) l : (forall e a, has_prev_log_number_ (f e a) = has_prev_log_number_ e /\ prev_log_number_ (f e a) = prev_log_number_ e) ->
  forall e, has_prev_log_number_ (fold_left f l e) = has_prev_log_number_ e /\ prev_log_number_ (fold_left f l e) = prev_log_number_ e.
Proof.
  intros Hf. induction l as [|a l IH]; intros e; [done|]. cbn [fold_left]. destruct (IH (f e a)) as [-> ->]. apply Hf.
Qed.

Lemma results_edit_prev c outs : prev_ok (c_edit c) -> prev_ok (results_edit c outs).
Proof.
  unfold prev_ok, results_edit. match goal with |- context [fold_left ?f ?l ?e] => destruct (fold_edit f l ltac:(done) e) as [-> ->] end.
  unfold AddInputDeletions. cbn zeta. by repeat match goal with |- context [fold_left ?f ?l ?e] => destruct (fold_edit f l ltac:(done) e) as [-> ->] end.
Qed.

Lemma ref_numbers id vs vs' : version_Ref id vs = Some vs' -> vs_last_sequence vs' = vs_last_sequence vs /\ vs_prev_log_number vs' = vs_prev_log_number vs.
Proof. unfold version_Ref. destruct (live_version vs id); [|done]. cbn [mbind option_bind]. repeat case_match; by intros [= <-]. Qed.

Lemma unref_numbers id vs vs' : version_Unref id vs = Some vs' -> vs_last_sequence vs' = vs_last_sequence vs /\ vs_prev_log_number vs' = vs_prev_log_number vs.
Proof. unfold version_Unref. destruct (live_version vs id); [|done]. cbn [mbind option_bind]. repeat case_match; try done; by intros [= <-]. Qed.

(** ** Flushes *)

Section Flush.
Context {W F C H CT HT : Type} (sys : System W F C H CT HT) (raw : Options) (dbname : bytes) (h : nat).
Context (others : M (Store W C CT) unit) (Hothers : keeps others (fun _ => True)).

Lemma keeps_log_and_apply edit : prev_ok edit -> keeps (log_and_apply sys raw dbname edit : M (Store W C CT) _) (fun _ => True).
Proof.
  intros Hp g a g'. unfold log_and_apply. destruct (LogAndApply _ _ _ _ _ _) as [[[s vs] w]|] eqn:E; [|done]. intros [= <- <-].
  apply LogAndApply_numbers in E as [E1 E2]; [|done]. split; [|done]. by apply undisturbed_versions.
Qed.

Lemma keeps_new_output : keeps (new_output : M (Store W C CT) Z) (fun _ => True).
Proof. apply keeps_second. intros db a db' [= <- <-]. split; [|done]. split; auto. Qed.

Lemma keeps_forget n : keeps (forget_output n : M (Store W C CT) unit) (fun _ => True).
Proof. apply keeps_modify. intros db. split; auto. Qed.

Lemma keeps_error s : keeps (on_second (modify (RecordBackgroundError s)) : M (Store W C CT) unit) (fun _ => True).
Proof. apply keeps_modify. intros db. unfold RecordBackgroundError. destruct (ok _); split; auto. Qed.

Lemma keeps_stats level c : keeps (on_second (modify (db_add_stats level c)) : M (Store W C CT) unit) (fun _ => True).
Proof. apply keeps_modify. intros db. split; auto. Qed.

Lemma keeps_ref : keeps (ref_version : M (Store W C CT) nat) (fun _ => True).
Proof.
  apply keeps_second. intros db a db'. unfold mbind, M_bind, get_state, lift, put_state. destruct (version_Ref _ _) as [vs|] eqn:E; [|done]. intros [= <- <-].
  apply ref_numbers in E as [E1 E2]. split; [|done]. apply undisturbed_versions; auto.
Qed.

Lemma keeps_unref id : keeps (unref_version id : M (Store W C CT) unit) (fun _ => True).
Proof.
  apply keeps_second. intros db a db'. unfold mbind, M_bind, get_state, lift, put_state. destruct (version_Unref _ _) as [vs|] eqn:E; [|done]. intros [= <- <-].
  apply unref_numbers in E as [E1 E2]. split; [|done]. apply undisturbed_versions; auto.
Qed.

Lemma keeps_DeleteObsoleteFiles : keeps (DeleteObsoleteFiles sys dbname) (fun _ => True).
Proof. unfold DeleteObsoleteFiles. repeat keeps_step; eauto with keeps. Qed.

Lemma keeps_output_level base meta : keeps (output_level raw base meta : M (Store W C CT) nat) (fun _ => True).
Proof.
  apply keeps_second. intros db a db'. unfold mbind, M_bind, get_state, lift. destruct base as [id|]; [|by intros [= <- <-]; auto with keeps].
  destruct (live_version _ _); [|done]. destruct (PickLevelForMemTableOutput _ _ _ _ _); [|done]. intros [= <- <-]. auto with keeps.
Qed.

Lemma keeps_WriteLevel0Table mem edit base : prev_ok edit -> keeps (WriteLevel0Table sys raw dbname h others mem edit base) (fun r => prev_ok r.2).
Proof.
  intros Hp. unfold WriteLevel0Table. eapply keeps_bind; [apply keeps_first|intros ? _]. eapply keeps_bind; [apply keeps_new_output|intros ? _].
  eapply keeps_bind; [apply (keeps_lift _ (fun _ => True)); done|intros ? _]. eapply keeps_bind; [apply keeps_first|intros [s meta] _]. eapply keeps_bind; [exact Hothers|intros _ _].
  eapply keeps_bind; [apply keeps_forget|intros _ _]. eapply (keeps_bind _ _ (fun l => prev_ok l.2)).
  - destruct (_ && _); [|by apply keeps_ret]. eapply keeps_bind; [apply keeps_output_level|intros ? _]. by apply keeps_ret.
  - intros l Hl. eapply keeps_bind; [apply keeps_first|intros ? _]. eapply keeps_bind; [apply keeps_stats|intros _ _]. by apply keeps_ret.
Qed.

Lemma keeps_CompactMemTable : keeps (CompactMemTable sys raw dbname h others) (fun _ => True).
Proof.
  unfold CompactMemTable. eapply keeps_bind; [apply keeps_get|intros ? _]. eapply keeps_bind; [apply (keeps_lift _ (fun _ => True)); done|intros ? _].
  eapply keeps_bind; [apply keeps_ref|intros ? _]. eapply keeps_bind; [by apply keeps_WriteLevel0Table|intros [s edit] Hp].
  eapply keeps_bind; [apply keeps_unref|intros _ _]. eapply keeps_bind; [apply keeps_get|intros ? _].
  eapply keeps_bind; [apply (keeps_when (Q := fun _ => True)); [done|]; apply keeps_log_and_apply; done|intros ? _].
  destruct (ok _); [|apply keeps_error]. eapply keeps_bind; [apply keeps_modify; intros db; split; auto|intros _ _]. apply keeps_DeleteObsoleteFiles.
Qed.

End Flush.

(** ** Compactions *)

Section Compact.
Context {W F C H CT HT : Type} (sys : System W F C H CT HT) (raw : Options) (dbname : bytes) (h fuel : nat).
Context (others : M (Store W C CT) unit) (Hothers : keeps others (fun _ => True)).

Abbreviation CState := (CompactionState W).

(** The edit of the compaction has not changed. *)
Definition same_edit (cs cs' : CState) : Prop := c_edit (cs_compaction cs') = c_edit (cs_compaction cs).

Lemma keeps_any {A} (o : option A) : keeps (lift o : M (Store W C CT) A) (fun _ => True).
Proof. by apply keeps_lift. Qed.

Lemma keeps_Open cs : keeps (OpenCompactionOutputFile sys raw dbname cs) (fun r => same_edit cs r.2).
Proof.
  unfold OpenCompactionOutputFile. eapply keeps_bind; [apply keeps_any|intros _ _]. eapply keeps_bind; [apply keeps_new_output|intros ? _].
  eapply keeps_bind; [apply keeps_first|intros ? _]. destruct (ok _); [|by apply keeps_ret]. eapply keeps_bind; [apply keeps_first|intros ? _]. by apply keeps_ret.
Qed.

Lemma keeps_Finish cs s : keeps (FinishCompactionOutputFile sys raw dbname cs s) (fun r => same_edit cs r.2).
Proof.
  unfold FinishCompactionOutputFile. do 4 (eapply keeps_bind; [apply keeps_any|intros ? _]). eapply (keeps_bind _ _ (fun _ => True)).
  - destruct (ok s); [apply keeps_first|]. eapply keeps_bind; [apply keeps_any|intros ? _]. by apply keeps_ret.
  - intros [s1 r1] _. do 2 (eapply keeps_bind; [apply (keeps_when (Q := fun _ => True)); [done|apply keeps_first]|intros ? _]).
    eapply keeps_bind; [apply (keeps_when (Q := fun _ => True)); [done|]; destruct (0 <? _); [apply keeps_first|by apply keeps_ret]|intros ? _]. by apply keeps_ret.
Qed.

Lemma ShouldStopBefore_edit ucmp m key c r : ShouldStopBefore ucmp m key c = Some r -> c_edit r.2 = c_edit c.
Proof. unfold ShouldStopBefore. destruct (c_input_version c); [|done]. cbn [mbind option_bind]. case_match; by intros [= <-]. Qed.

Lemma drop_entry_edit ucmp smallest key ks c r : drop_entry ucmp smallest key ks c = Some r -> c_edit r.2 = c_edit c.
Proof.
  unfold drop_entry. destruct (ParseInternalKey key); [|by intros [= <-]]. cbn zeta. repeat case_match; try by intros [= <-].
  all: unfold IsBaseLevelForKey; destruct (c_input_version c); [|done]; cbn [mbind option_bind]; by intros [= <-].
Qed.

Lemma keeps_compact_entry key value s ks cs : keeps (compact_entry sys raw dbname key value s ks cs) (fun r => same_edit cs r.2).
Proof.
  unfold compact_entry. eapply (keeps_bind _ _ (fun r => same_edit cs r.2)).
  - unfold stop_before. eapply keeps_bind; [apply keeps_lift; intros r E; exact (ShouldStopBefore_edit _ _ _ _ _ E)|intros r Er]. cbn zeta.
    destruct (_ && _); [|by apply keeps_ret]. eapply keeps_weaken; [apply keeps_Finish|]. intros [s1 cs1] E1. unfold same_edit in *. cbn in *. congruence.
  - intros [s1 cs1] E1. destruct (negb (ok s1)); [by apply keeps_ret|]. eapply keeps_bind; [apply keeps_lift; intros r E; exact (drop_entry_edit _ _ _ _ _ _ E)|].
    intros [[b ks1] c1] Ec. cbn [snd] in *. assert (E2 : same_edit cs (cs_set_compaction c1 cs1)) by (unfold same_edit in *; cbn; congruence). destruct b; [by apply keeps_ret|].
    eapply (keeps_bind _ _ (fun r => same_edit cs r.2)); [|intros r Er; by apply keeps_ret]. unfold write_entry. eapply (keeps_bind _ _ (fun r => same_edit cs r.2)).
    + destruct (cs_builder _); [by apply keeps_ret|]. eapply keeps_weaken; [apply keeps_Open|]. intros r Er. unfold same_edit in *. congruence.
    + intros [s2 cs2] E3. destruct (negb (ok s2)); [by apply keeps_ret|]. do 2 (eapply keeps_bind; [apply keeps_any|intros ? _]). eapply keeps_bind; [apply keeps_first|intros ? _].
      destruct (_ <=? _); [|by apply keeps_ret]. eapply keeps_weaken; [apply keeps_Finish|]. intros r Er. unfold same_edit in *. cbn in *. congruence.
Qed.

Lemma keeps_compact_loop n : forall input ks cs micros, keeps (compact_loop sys raw dbname h fuel others n input ks cs micros) (fun r => same_edit cs r.1.2).
Proof.
  induction n as [|n IH]; intros input ks cs micros; cbn [compact_loop]; [by apply keeps_lift|]. eapply keeps_bind; [exact Hothers|intros _ _].
  eapply keeps_bind; [apply keeps_get|intros ? _]. destruct (_ || _); [by apply keeps_ret|]. eapply (keeps_bind _ _ (fun _ => True)).
  { unfold prioritize_imm. eapply keeps_bind; [apply keeps_get|intros db _]. destruct (db_imm db); [|by apply keeps_ret]. eapply keeps_bind; [apply keeps_first|intros ? _].
    eapply keeps_bind; [by apply keeps_CompactMemTable|intros ? _]. eapply keeps_bind; [apply keeps_first|intros ? _]. by apply keeps_ret. }
  intros m _. do 2 (eapply keeps_bind; [apply keeps_any|intros ? _]). eapply keeps_bind; [apply keeps_compact_entry|intros [[s1 ks1] cs1] E1].
  destruct (negb (ok s1)); [by apply keeps_ret|]. eapply keeps_bind; [apply keeps_first|intros ? _]. eapply keeps_weaken; [apply IH|]. intros r Er. unfold same_edit in *. cbn in *. congruence.
Qed.

Lemma keeps_DoCompactionWork n cs : prev_ok (c_edit (cs_compaction cs)) -> keeps (DoCompactionWork sys raw dbname h fuel others n cs) (fun _ => True).
Proof.
  intros Hp. unfold DoCompactionWork. eapply keeps_bind; [apply keeps_first|intros ? _]. eapply keeps_bind; [apply keeps_get|intros ? _].
  do 3 (eapply keeps_bind; [apply keeps_any|intros ? _]). do 2 (eapply keeps_bind; [apply keeps_first|intros ? _]).
  eapply keeps_bind; [apply keeps_compact_loop|intros [[[s1 i1] cs1] m1] E1]. eapply (keeps_bind _ _ (fun r => same_edit cs1 r.2)).
  { unfold end_loop. eapply keeps_bind; [apply keeps_get|intros ? _]. eapply (keeps_bind _ _ (fun r => same_edit cs1 r.2)); [destruct (_ && _); [apply keeps_Finish|by apply keeps_ret]|].
    intros r Er. by apply keeps_ret. }
  intros [s2 cs2] E2. do 2 (eapply keeps_bind; [apply keeps_first|intros ? _]). eapply keeps_bind; [apply keeps_stats|intros _ _].
  eapply keeps_bind; [apply (keeps_when (Q := fun _ => True)); [done|]; apply keeps_log_and_apply, results_edit_prev; unfold same_edit in E1, E2; cbn in E1, E2; rewrite E2, E1; exact Hp|intros ? _].
  eapply (keeps_bind _ _ (fun _ => True)); [destruct (ok _); [by apply keeps_ret|apply keeps_error]|intros _ _]. by apply keeps_ret.
Qed.

Lemma keeps_release c : keeps (release_inputs c : M (Store W C CT) Compaction) (fun _ => True).
Proof.
  apply keeps_second. intros db a db'. unfold mbind, M_bind, get_state, lift, put_state, ReleaseInputs. destruct (c_input_version c) as [v|]; cbn [mbind option_bind].
  - destruct (version_Unref _ _) as [vs|] eqn:E; [|done]. cbn. intros [= <- <-]. apply unref_numbers in E as [E1 E2]. split; [|done]. apply undisturbed_versions; auto.
  - intros [= <- <-]. split; [|done]. apply undisturbed_versions; auto.
Qed.

(** ** Choosing and the background thread *)

Definition same_numbers (vs vs' : VersionSet) : Prop := vs_last_sequence vs' = vs_last_sequence vs /\ vs_prev_log_number vs' = vs_prev_log_number vs.

Lemma Setup_numbers ucmp m c vs r : SetupOtherInputs ucmp m c vs = Some r -> prev_ok (c_edit c) -> prev_ok (c_edit r.1) /\ same_numbers vs r.2.
Proof.
  unfold SetupOtherInputs. intros E Hp. destruct (GetRange _ _) as [range|]; [|done]. cbn [mbind option_bind] in E. destruct (GetOverlappingInputs _ _ _ _ _) as [i1|]; [|done]. cbn [mbind option_bind] in E.
  destruct (GetRange2 _ _ _) as [all|]; [|done]. cbn [mbind option_bind] in E. destruct (expand_inputs _ _ _ _ _ _ _ _) as [[[[range' all'] i0'] i1']|]; [|done]. cbn [mbind option_bind] in E.
  destruct (if (_ <? _)%nat then _ else _) as [g|]; [|done]. cbn [mbind option_bind] in E. injection E as <-. by split.
Qed.

Lemma take_version_numbers c vs r : take_version c vs = Some r -> c_edit r.1 = c_edit c /\ same_numbers vs r.2.
Proof. unfold take_version. destruct (version_Ref _ _) as [vs'|] eqn:E; [|done]. cbn [mbind option_bind]. intros [= <-]. split; [done|]. by apply ref_numbers in E. Qed.

Lemma Pick_numbers ucmp m vs c vs' : PickCompaction ucmp m vs = Some (c, vs') -> same_numbers vs vs' /\ forall c', c = Some c' -> prev_ok (c_edit c').
Proof.
  unfold PickCompaction. destruct (pick_start ucmp vs) as [[[level f]|]|]; cbn [mbind option_bind]; [|by intros [= <- <-]|done].
  destruct (take_version _ _) as [[c1 vs1]|] eqn:Et; [|done]. cbn [mbind option_bind]. apply take_version_numbers in Et as [E1 [E2 E3]]. cbn [fst snd] in *.
  destruct (if (_ =? _)%nat then _ else _) as [i0|]; [|done]. cbn [mbind option_bind]. destruct (SetupOtherInputs _ _ _ _) as [[c2 vs2]|] eqn:Es; [|done]. cbn [mbind option_bind].
  intros [= <- <-]. apply Setup_numbers in Es as [Hp [E4 E5]]; [|cbn; by rewrite E1]. cbn [fst snd] in *. split; [split; congruence|]. by intros c' [= <-].
Qed.

Lemma CompactRange_numbers ucmp m level b e vs c vs' : VersionSet_CompactRange ucmp m level b e vs = Some (c, vs') ->
  same_numbers vs vs' /\ forall c', c = Some c' -> prev_ok (c_edit c').
Proof.
  unfold VersionSet_CompactRange. destruct (GetOverlappingInputs _ _ _ _ _) as [[|f l]|]; cbn [mbind option_bind]; [by intros [= <- <-]| |done].
  destruct (take_version _ _) as [[c1 vs1]|] eqn:Et; [|done]. cbn [mbind option_bind]. apply take_version_numbers in Et as [E1 [E2 E3]]. cbn [fst snd] in *.
  destruct (SetupOtherInputs _ _ _ _) as [[c2 vs2]|] eqn:Es; [|done]. cbn [mbind option_bind].
  intros [= <- <-]. apply Setup_numbers in Es as [Hp [E4 E5]]; [|cbn; by rewrite E1]. cbn [fst snd] in *. split; [split; congruence|]. by intros c' [= <-].
Qed.

Lemma keeps_choose : keeps (choose_compaction raw : M (Store W C CT) _) (fun c => forall c', c = Some c' -> prev_ok (c_edit c')).
Proof.
  apply keeps_second. intros db c db'. unfold mbind, M_bind, get_state, lift, put_state.
  set (o := match db_manual db with Some _ => _ | None => _ end). assert (Ho : forall c vs, o = Some (c, vs) -> same_numbers (db_versions db) vs /\ forall c', c = Some c' -> prev_ok (c_edit c')).
  { intros c0 vs0. unfold o. destruct (db_manual db); [apply CompactRange_numbers|apply Pick_numbers]. }
  destruct o as [[c0 vs0]|]; [|done]. intros [= <- <-]. destruct (Ho c0 vs0 eq_refl) as [[E1 E2] Hc]. split; [|done]. split; cbn; auto.
Qed.

Lemma keeps_run_compaction n c : prev_ok (c_edit c) -> keeps (run_compaction sys raw dbname h fuel others n c) (fun _ => True).
Proof.
  intros Hp. unfold run_compaction. eapply keeps_bind; [by apply keeps_DoCompactionWork|intros [s cs] _].
  eapply (keeps_bind _ _ (fun _ => True)); [destruct (ok _); [by apply keeps_ret|apply keeps_error]|intros _ _]. eapply (keeps_bind _ _ (fun _ => True)).
  { unfold CleanupCompaction. eapply keeps_bind; [apply keeps_any|intros _ _]. apply keeps_modify. intros db. split; auto. }
  intros _ _. eapply keeps_bind; [apply keeps_release|intros ? _]. eapply keeps_bind; [apply keeps_DeleteObsoleteFiles|intros ? _]. by apply keeps_ret.
Qed.

Lemma keeps_BackgroundCompaction n : keeps (BackgroundCompaction sys raw dbname h fuel others n) (fun _ => True).
Proof.
  unfold BackgroundCompaction. eapply keeps_bind; [apply keeps_get|intros db _]. destruct (db_imm db).
  { eapply keeps_bind; [by apply keeps_CompactMemTable|intros ? _]. by apply keeps_ret. }
  eapply keeps_bind; [apply keeps_choose|intros c Hc]. eapply keeps_bind; [apply keeps_any|intros ? _]. eapply (keeps_bind _ _ (fun _ => True)).
  - destruct c as [c|]; [|by apply keeps_ret]. specialize (Hc c eq_refl). destruct (_ && _); [|by apply keeps_run_compaction].
    eapply (keeps_bind _ _ (fun _ => True)); [|intros ? _; eapply keeps_bind; [apply keeps_release|intros ? _]; by apply keeps_ret].
    unfold trivial_move. eapply keeps_bind; [apply keeps_any|intros ? _]. eapply keeps_bind; [by apply keeps_log_and_apply|intros ? _].
    eapply (keeps_bind _ _ (fun _ => True)); [destruct (ok _); [by apply keeps_ret|apply keeps_error]|intros _ _]. by apply keeps_ret.
  - intros s _. destruct (negb _); [|by apply keeps_ret]. apply keeps_second. intros db0 r db'. unfold mbind, M_bind, get_state, lift, put_state.
    destruct (db_manual db0); [|done]. intros [= <- <-]. split; [|done]. split; auto.
Qed.

Lemma keeps_BackgroundCall n : keeps (BackgroundCall sys raw dbname h fuel others n) (fun _ => True).
Proof.
  unfold BackgroundCall. eapply keeps_bind; [apply keeps_get|intros db _]. eapply keeps_bind; [apply keeps_any|intros ? _]. eapply (keeps_bind _ _ (fun _ => True)).
  - destruct (db_shutting_down db); [by apply keeps_ret|]. destruct (negb _); [by apply keeps_ret|apply keeps_BackgroundCompaction].
  - intros r _. eapply keeps_bind; [|intros _ _; by apply keeps_ret]. apply keeps_modify. intros db0. destruct (schedule_fields (db_set_scheduled false db0)) as (E1 & E2 & E3 & E4).
    split; rewrite ?E1, ?E2, ?E3, ?E4; auto.
Qed.

End Compact.

(** ** A database with a full memtable *)

Module Flushing.

Definition imm : option MemTable :=
  r ← InsertInto BytewiseComparator (fun _ => 0) (SetSequence (build_batch [OpPut (lit "k") (lit "v"); OpDelete (lit "l")]) 1) (new_MemTable (fun _ => 0)); r.1.
Definition db : DBImpl :=
  mkDB false (new_MemTable (fun _ => 0)) imm 1 0 WriteBatch_Clear new_SnapshotList ∅ true None (vs_SetLastSequence 2 new_VersionSet) Status_OK (replicate 7 (mkCStats 0 0 0)).
Definition store : Store MemFS (list Block * Z) (list Table * Z) := (([], mkCaches None ([], 0)), db).
Definition summary (r : option ManualCompaction * Store MemFS (list Block * Z) (list Table * Z)) : option ManualCompaction * bool * list Z :=
  (r.1, if db_imm r.2.2 then true else false, map number (level_files (vs_current (db_versions r.2.2)) 2)).

Lemma summary_inv o : summary <$> o = Some (None, false, [2]) ->
  exists st', o = Some (None, st') /\ db_imm st'.2 = None /\ map number (level_files (vs_current (db_versions st'.2)) 2) = [2].
Proof.
  destruct o as [[m st']|]; [|done]. intros H. injection H as -> Hi Hn. exists st'. split; [done|]. split; [|done]. by destruct (db_imm st'.2).
Qed.

Lemma call_flushes : summary <$> BackgroundCall MemSystem new_Options (lit "db") 3 10 (mret ()) 10 store = Some (None, false, [2]).
Proof. vm_compute. reflexivity. Qed.

End Flushing.

(** ** Property *)


