(* ===== verification/DBOpen.v ===== *)
(** * Opening, recovering and destroying a database: db/db_impl.cpp

    [NewDB], [RecoverLogFile], [Recover], [DB::Open] and [DestroyDB]. While a
    database is opened nobody else works on it, so nothing happens where
    [WriteLevel0Table] releases the mutex. [mem_] is NULL until recovery or
    [Open] sets it: it is a value of its own here, and becomes [db_mem] of the
    database that is returned. *)

From stdpp Require Import sorting.
From S2P Require Import Prelude Coding Logging Status Comparator Dbformat MemTable WriteBatch Env Filename VersionEdit Log Version VersionSet World Block Cache Table TableCache Snapshot DB Store DBFlush.

(** The constructor of [DBImpl]. *)
Definition new_DBImpl (base : nat -> Z) : DBImpl :=
  mkDB false (new_MemTable base) None 0 0 WriteBatch_Clear new_SnapshotList ∅ false None new_VersionSet Status_OK (replicate kNumLevels (mkCStats 0 0 0)).

(** What recovery finds out for [Open]: [edit], [save_manifest] and
    [max_sequence]. *)
Record Found := mkFound { fd_edit : VersionEdit; fd_save_manifest : bool; fd_max_sequence : Z }.

(** The locals of [RecoverLogFile] while it reads records. *)
Record LogState := mkLogState { lg_status : Status; lg_mem : option MemTable; lg_compactions : Z; lg_found : Found }.

Section Open.
Context {W F C H CT HT : Type} (sys : System W F C H CT HT) (raw : Options) (dbname : bytes) (h : nat).
Context (base : nat -> Z) (fuel : nat).

Abbreviation D := (Disk W C CT).
Abbreviation S := (Store W C CT).
Abbreviation env := (sys_env sys).
Abbreviation ucmp := (opt_comparator raw).
Abbreviation options := (SanitizeOptions raw).

(** ** A new database *)

Definition new_db : VersionEdit :=
  SetLastSequence 0 (SetNextFile 2 (SetLogNumber 0 (SetComparatorName (cmp_Name ucmp) new_VersionEdit))).

Definition NewDB (w : W) : option (Status * W) :=
  let manifest := DescriptorFileName dbname 1 in
  let '(s, w) := NewWritableFile env manifest w in
  if negb (ok s) then Some (s, w)
  else
    r ← manifest_AddRecord env dbname (EncodeTo new_db []) 0 1 w;
    let '(s, _, w) := r in
    let '(s, w) := if ok s then file_Close env manifest w else (s, w) in
    if ok s then Some (SetCurrentFile env dbname 1 w)
    else Some (s, (env_DeleteFile env manifest w).2).

(** ** Log files *)

Definition MaybeIgnoreError (s : Status) : Status := if ok s || opt_paranoid_checks options then s else Status_OK.

(** [reporter.Corruption]: only a paranoid recovery keeps the status. *)
Definition log_report (s : Status) (c : Z * Status) : Status := if opt_paranoid_checks options then report s c else s.

(** No other thread knows the database yet. *)
Definition write_level0 (mem : MemTable) (f : Found) : M S (Status * Found) :=
  r ← WriteLevel0Table sys raw dbname h (mret ()) mem (fd_edit f) None;
  mret (r.1, mkFound r.2 true (fd_max_sequence f)).

Definition saw_sequence (last_seq : Z) (f : Found) : Found :=
  mkFound (fd_edit f) (fd_save_manifest f) (if fd_max_sequence f <? last_seq then last_seq else fd_max_sequence f).

(** One record, after it was read: the new locals, and whether to go on. *)
Definition recover_record (record : bytes) (l : LogState) : M S (bool * LogState) :=
  if zlen record <? 12 then
    mret (true, mkLogState (log_report (lg_status l) (zlen record, Corruption (lit "log record too small"))) (lg_mem l) (lg_compactions l) (lg_found l))
  else
    let batch := SetContents [] record in
    let mem := default (new_MemTable base) (lg_mem l) in
    r ← lift (InsertInto ucmp base batch mem);
    mem ← lift r.1;
    let status := MaybeIgnoreError r.2 in
    if negb (ok status) then mret (false, mkLogState status (Some mem) (lg_compactions l) (lg_found l))
    else
      let last_seq := u64 (Sequence batch + Count batch - 1) in
      let f := saw_sequence last_seq (lg_found l) in
      if opt_write_buffer_size options <? ApproximateMemoryUsage mem then
        w ← write_level0 mem f;
        mret (ok w.1, mkLogState w.1 None (lg_compactions l + 1) w.2)
      else mret (true, mkLogState status (Some mem) (lg_compactions l) f).

Fixpoint recover_records (fuel : nat) (reader : Reader F) (l : LogState) : M S LogState :=
  match fuel with
  | O => lift None
  | Datatypes.S fuel' =>
      o ← lift (ReadRecord (env_sequential (sys_files sys)) fuel reader);
      let '(record, reader') := o in
      let status := fold_left log_report (drop (length (reports_ reader)) (reports_ reader')) (lg_status l) in
      let l := mkLogState status (lg_mem l) (lg_compactions l) (lg_found l) in
      match record with
      | Some record =>
          if ok status then
            r ← recover_record record l;
            if (r.1 : bool) then recover_records fuel' reader' r.2 else mret r.2
          else mret l
      | None => mret l
      end
  end.

(** Keep appending to the last log: what is left of [mem], and [mem_]. The
    writer is the number of its file; nothing is added to it ([DBWrite]). *)
Definition reuse_log (fname : bytes) (log_number : Z) (mem : option MemTable) : M S (option MemTable * option MemTable) :=
  g ← on_first get_state;
  if ok (env_GetFileSize env fname g.1).1 then
    s ← on_first (io (NewAppendableFile env fname));
    if ok s then
      _ ← on_second (modify (db_set_logfile log_number));
      mret (None, Some (default (new_MemTable base) mem))
    else mret (mem, None)
  else mret (mem, None).

Definition RecoverLogFile (log_number : Z) (last_log : bool) (f : Found) (mem_ : option MemTable) : M S (Status * Found * option MemTable) :=
  let fname := LogFileName dbname log_number in
  g ← on_first get_state;
  let '(status, file) := NewSequentialFile (sys_files sys) fname g.1 in
  if negb (ok status) then mret (MaybeIgnoreError status, f, mem_)
  else
    l ← recover_records fuel (new_Reader file true 0) (mkLogState status None 0 f);
    r ← (if ok (lg_status l) && opt_reuse_logs options && last_log && (lg_compactions l =? 0) then
           _ ← lift (match mem_ with None => Some () | Some _ => None end);
           reuse_log fname log_number (lg_mem l)
         else mret (lg_mem l, mem_));
    let '(mem, mem_) := r in
    match mem with
    | Some mem =>
        if ok (lg_status l) then w ← write_level0 mem (lg_found l); mret (w.1, w.2, mem_)
        else mret (lg_status l, lg_found l, mem_)
    | None => mret (lg_status l, lg_found l, mem_)
    end.

(** ** Recover *)

Definition create_or_check : M S Status :=
  g ← on_first get_state;
  if negb (FileExists (sys_dir sys) (CurrentFileName dbname) g.1) then
    if opt_create_if_missing options then on_first (io_opt NewDB)
    else mret (InvalidArgument dbname (lit "does not exist (create_if_missing is false)"))
  else if opt_error_if_exists options then mret (InvalidArgument dbname (lit "exists (error_if_exists is true)"))
  else mret Status_OK.

Definition recover_versions : M S (Status * bool) := fun st =>
  match VersionSet.Recover ucmp env (sys_files sys) dbname (opt_max_file_size options) (opt_reuse_logs options) fuel (db_versions st.2) st.1.1 with
  | Some (s, save, vs, w) => Some ((s, save), ((w, st.1.2), db_set_versions vs st.2))
  | None => None
  end.

(** The files of a directory: which of [expected] are not there, and the logs. *)
Definition scan_child (min_log prev_log : Z) (acc : gset Z * list Z) (f : bytes) : gset Z * list Z :=
  match ParseFileName f with
  | Some (number, type) =>
      (acc.1 ∖ {[ number ]},
       if bool_decide (type = kLogFile) && ((min_log <=? number) || (number =? prev_log)) then acc.2 ++ [number] else acc.2)
  | None => acc
  end.

Definition missing_files (expected : gset Z) : Status :=
  Corruption2 (NumberToString (Z.of_nat (size expected)) ++ lit " missing files; e.g.")
    (TableFileName dbname (default 0 (head (merge_sort Z.le (elements expected))))).

Fixpoint recover_logs (logs : list Z) (f : Found) (mem_ : option MemTable) : M S (Status * Found * option MemTable) :=
  match logs with
  | [] => mret (Status_OK, f, mem_)
  | log :: logs =>
      r ← RecoverLogFile log (match logs with [] => true | _ => false end) f mem_;
      let '(s, f, mem_) := r in
      if negb (ok s) then mret (s, f, mem_)
      else
        _ ← on_second (modify (fun db => db_set_versions (MarkFileNumberUsed log (db_versions db)) db));
        recover_logs logs f mem_
  end.

(** After the descriptor: find the logs and replay them. *)
Definition recover_rest (save_manifest : bool) : M S (Status * Found * option MemTable) :=
  let none := mkFound new_VersionEdit save_manifest 0 in
  db ← on_second get_state;
  g ← on_first get_state;
  let '(s, filenames) := GetChildren (sys_dir sys) dbname g.1 in
  if negb (ok s) then mret (s, none, None)
  else
    let '(expected, logs) := fold_left (scan_child (vs_log_number (db_versions db)) (vs_prev_log_number (db_versions db))) filenames
                               (AddLiveFiles (db_versions db) ∅, []) in
    if negb (bool_decide (expected = ∅)) then mret (missing_files expected, none, None)
    else
      r ← recover_logs (merge_sort Z.le logs) none None;
      let '(s, f, mem_) := r in
      if negb (ok s) then mret (s, f, mem_)
      else
        _ ← on_second (modify (fun db =>
              if vs_last_sequence (db_versions db) <? fd_max_sequence f
              then db_set_versions (vs_SetLastSequence (fd_max_sequence f) (db_versions db)) db else db));
        mret (Status_OK, f, mem_).

(** The status, what was found, [mem_], and whether [db_lock_] is set. *)
Definition Recover : M S (Status * Found * option MemTable * bool) :=
  let none := mkFound new_VersionEdit false 0 in
  _ ← on_first (io (CreateDir (sys_dir sys) dbname));
  s ← on_first (io (LockFile (sys_dir sys) (LockFileName dbname)));
  if negb (ok s) then mret (s, none, None, false)
  else
    s ← create_or_check;
    if negb (ok s) then mret (s, none, None, true)
    else
      r ← recover_versions;
      if negb (ok r.1) then mret (r.1, none, None, true)
      else
        r ← recover_rest r.2;
        mret (r, true).

(** ** Open *)

(** Create a new log and a corresponding memtable. *)
Definition open_log (f : Found) : M S (Status * Found * option MemTable) :=
  db ← on_second get_state;
  let '(new_log_number, vs) := NewFileNumber (db_versions db) in
  _ ← on_second (modify (db_set_versions vs));
  s ← on_first (io (NewWritableFile env (LogFileName dbname new_log_number)));
  if ok s then
    _ ← on_second (modify (db_set_logfile new_log_number));
    mret (s, mkFound (SetLogNumber new_log_number (fd_edit f)) (fd_save_manifest f) (fd_max_sequence f), Some (new_MemTable base))
  else mret (s, f, None).

(** What [Open] does with the result of [Recover]. *)
Definition open_recovered (s : Status) (f : Found) (mem_ : option MemTable) : M S Status :=
  r ← (if ok s then match mem_ with None => open_log f | Some m => mret (s, f, Some m) end else mret (s, f, mem_));
  let '(s, f, mem_) := r in
  db ← on_second get_state;
  s ← (if ok s && fd_save_manifest f then log_and_apply sys raw dbname (SetLogNumber (db_logfile_number db) (SetPrevLogNumber 0 (fd_edit f))) else mret s);
  if ok s then
    mem ← lift mem_;
    _ ← on_second (modify (fun db => db_set_mem mem None db));
    _ ← DeleteObsoleteFiles sys dbname;
    _ ← on_second (modify MaybeScheduleCompaction);
    mret s
  else mret s.

Definition open_database : M S (Status * bool) :=
  r ← Recover;
  let '(s, f, mem_, locked) := r in
  s ← open_recovered s f mem_;
  mret (s, locked).

(** [DB::Open] with the caches of the new database; a database that could not
    be opened is deleted, which releases its lock. *)
Definition DB_Open : M D (Status * option DBImpl) := fun d =>
  match open_database (d, new_DBImpl base) with
  | Some ((s, locked), (d, db)) =>
      if ok s then Some ((s, Some db), d)
      else
        let d := if (locked : bool) then ((UnlockFile (sys_dir sys) (LockFileName dbname) d.1).2, d.2) else d in
        Some ((s, None), d)
  | None => None
  end.

(** ** Destroy *)

Fixpoint destroy_files (filenames : list bytes) (result : Status) (w : W) : Status * W :=
  match filenames with
  | [] => (result, w)
  | f :: filenames =>
      match ParseFileName f with
      | Some (_, type) =>
          if bool_decide (type = kDBLockFile) then destroy_files filenames result w
          else
            let '(del, w) := env_DeleteFile env (dbname ++ lit "/" ++ f) w in
            destroy_files filenames (if ok result && negb (ok del) then del else result) w
      | None => destroy_files filenames result w
      end
  end.

Definition DestroyDB (w : W) : Status * W :=
  let filenames := (GetChildren (sys_dir sys) dbname w).2 in
  match filenames with
  | [] => (Status_OK, w)
  | _ =>
      let lockname := LockFileName dbname in
      let '(result, w) := LockFile (sys_dir sys) lockname w in
      if ok result then
        let '(result, w) := destroy_files filenames result w in
        let w := (UnlockFile (sys_dir sys) lockname w).2 in
        let w := (env_DeleteFile env lockname w).2 in
        (result, (DeleteDir (sys_dir sys) dbname w).2)
      else (result, w)
  end.

End Open.

(** ** Replaying a log *)

(** The batches a log holds: their first sequence number and operations. *)
Abbreviation Batch := (Z * list Op)%type.

Definition records_of (batches : list Batch) : list bytes := map (fun b => batch_of b.1 b.2) batches.
Definition all_entries (batches : list Batch) : list Entry := concat (map (fun b => entries_of b.1 b.2) batches).
Definition last_seq_of (max : Z) (batches : list Batch) : Z := fold_left (fun m b => Z.max m (b.1 + zlen b.2 - 1)) batches max.

(** As the write path numbers them. *)
Fixpoint numbered (from : Z) (batches : list Batch) : Prop :=
  match batches with
  | [] => True
  | (seq, ops) :: batches =>
      from <= seq /\ Forall op_ok ops /\ zlen ops < 2 ^ 31 /\ seq + zlen ops <= kMaxSequenceNumber + 1 /\ numbered (seq + zlen ops) batches
  end.

(** The memtable never exceeds the write buffer. *)
Fixpoint fits_buffer (ucmp : Comparator) (base : nat -> Z) (limit : Z) (m : MemTable) (records : list bytes) : bool :=
  match records with
  | [] => true
  | r :: records =>
      match InsertInto ucmp base r m with
      | Some (Some m, _) => (ApproximateMemoryUsage m <=? limit) && fits_buffer ucmp base limit m records
      | _ => true
      end
  end.

Lemma fits_buffer_take ucmp base limit j : forall m rs, fits_buffer ucmp base limit m rs = true -> fits_buffer ucmp base limit m (take j rs) = true.
Proof.
  induction j as [|j IH]; intros m [|r rs]; cbn [take fits_buffer]; try done. destruct (InsertInto ucmp base r m) as [[[m'|] s]|]; try done. intros [H1 H2]%andb_true_iff. rewrite H1. by apply IH.
Qed.

Lemma numbered_take j : forall from bs, numbered from bs -> numbered from (take j bs).
Proof. induction j as [|j IH]; intros from [|[seq ops] bs]; cbn [take numbered]; try done. intros (H1 & H2 & H3 & H4 & H5). split; [done|]. split; [done|]. split; [done|]. split; [done|]. by apply IH. Qed.

Section Replay.
Context {C H CT HT : Type} (sys : System MemFS bytes C H CT HT) (raw : Options) (dbname : bytes) (h : nat) (base : nat -> Z).
Context (Henv : sys_env sys = MemEnv) (Hfiles : sys_files sys = MemReadEnv) `{!TotalCmp (Compare (opt_comparator raw))}.

Abbreviation ucmp := (opt_comparator raw).
Abbreviation limit := (opt_write_buffer_size (SanitizeOptions raw)).

Lemma op_batch_size seq ops : (zlen (batch_of seq ops) <? 12) = false.
Proof.
  apply Z.ltb_ge. unfold batch_of, zlen. rewrite !length_app, EncodeFixed64_length, EncodeFixed32_length. lia.
Qed.

Lemma lift_bind {G A B} (a : A) (f : A -> M G B) g : (lift (Some a) ≫= f) g = f a g.
Proof. done. Qed.

(** A batch that fits goes into the memtable. *)
Lemma recover_record_batch seq ops l m es st : lg_mem l = Some m \/ lg_mem l = None /\ m = new_MemTable base -> mem_rep ucmp m es -> numbered 1 [(seq, ops)] ->
  Forall (fun e => e_seq e < seq) es -> fits_buffer ucmp base limit m (records_of [(seq, ops)]) = true ->
  exists m' es', InsertInto ucmp base (batch_of seq ops) m = Some (Some m', Status_OK) /\ mem_rep ucmp m' es' /\ es' ≡ₚ entries_of seq ops ++ es /\
    recover_record sys raw dbname h base (batch_of seq ops) l st =
      Some ((true, mkLogState Status_OK (Some m') (lg_compactions l) (mkFound (fd_edit (lg_found l)) (fd_save_manifest (lg_found l)) (last_seq_of (fd_max_sequence (lg_found l)) [(seq, ops)]))), st).
Proof.
  intros Hmem Hm (Hs & Hops & Hn & Hk & _) Hold Hfit. destruct (InsertInto_spec ucmp base seq ops m es Hm Hops Hn ltac:(lia) Hk Hold) as (m' & es' & E & Hm' & Hp). exists m', es'. split; [done|]. split; [done|]. split; [done|].
  unfold recover_record. rewrite op_batch_size. assert (Ed : default (new_MemTable base) (lg_mem l) = m) by (destruct Hmem as [->|[-> ->]]; done). cbn [SetContents]. unfold SetContents. rewrite Ed, E, lift_bind. cbn [fst snd]. rewrite lift_bind.
  unfold MaybeIgnoreError. cbn [ok Status_OK orb negb]. cbn [records_of map fits_buffer fst snd] in Hfit. rewrite E in Hfit. apply andb_true_iff in Hfit as [Hfit _]. rewrite (proj2 (Z.ltb_ge _ _)) by lia.
  assert (Hkm : kMaxSequenceNumber = 2 ^ 56 - 1) by done. pose proof (zlen_nonneg ops). rewrite Sequence_batch, Count_batch, u64_small by (unfold fits; lia). unfold saw_sequence, last_seq_of. cbn [fold_left fst snd].
  replace (Z.max (fd_max_sequence (lg_found l)) (seq + zlen ops - 1)) with (if fd_max_sequence (lg_found l) <? seq + zlen ops - 1 then seq + zlen ops - 1 else fd_max_sequence (lg_found l)); [done|].
  destruct (Z.ltb_spec (fd_max_sequence (lg_found l)) (seq + zlen ops - 1)); lia.
Qed.

Lemma recover_records_batches batches : forall fuel reader reader' l m es from st,
  lg_mem l = Some m \/ lg_mem l = None /\ m = new_MemTable base -> mem_rep ucmp m es -> lg_status l = Status_OK -> 1 <= from -> numbered from batches -> Forall (fun e => e_seq e < from) es ->
  fits_buffer ucmp base limit m (records_of batches) = true -> read_all MemSequential fuel reader = Some (records_of batches, reader') -> reports_ reader' = [] ->
  exists m' es', mem_rep ucmp m' es' /\ es' ≡ₚ all_entries batches ++ es /\
    recover_records sys raw dbname h base fuel reader l st =
      Some (mkLogState Status_OK (match batches with [] => lg_mem l | _ => Some m' end) (lg_compactions l)
              (mkFound (fd_edit (lg_found l)) (fd_save_manifest (lg_found l)) (last_seq_of (fd_max_sequence (lg_found l)) batches)), st) /\
    (batches = [] -> m' = m).
Proof.
  induction batches as [|[seq ops] batches IH]; intros fuel reader reader' l m es from st Hmem Hm Hok Hfrom Hnum Hold Hfit Hread Hrep;
    (destruct fuel as [|fuel]; [done|]); apply read_all_step in Hread as [Hr0 Hread]; try done; cbn [recover_records]; rewrite Hfiles; cbn [env_sequential MemReadEnv records_of map] in *.
  - destruct Hread as (r1 & -> & Hr1). rewrite lift_bind, Hr0, Hr1. cbn [length drop fold_left]. exists m, es. split; [done|]. split; [done|]. split; [|done].
    rewrite Hok. destruct l as [sl ml cl [e b q]]. done.
  - destruct Hread as (r1 & -> & Hr1 & Hrest). rewrite lift_bind, Hr0, Hr1. cbn [length drop fold_left]. rewrite Hok. cbn [ok Status_OK fst snd]. destruct Hnum as (Hs & Hops & Hn & Hk & Hnum).
    cbn [fits_buffer fst snd] in Hfit. pose proof Hfit as Hfit1.
    destruct (recover_record_batch seq ops (mkLogState Status_OK (lg_mem l) (lg_compactions l) (lg_found l)) m es st) as (m1 & es1 & E1 & Hm1 & Hp1 & E).
    { exact Hmem. }
    { exact Hm. }
    { cbn [numbered]. repeat split; try done. lia. }
    { eapply Forall_impl; [exact Hold|]. cbn. intros. lia. }
    { cbn [records_of map fits_buffer fst snd]. destruct (InsertInto ucmp base (batch_of seq ops) m) as [[[m0|] s]|]; try done. apply andb_true_iff in Hfit as [-> _]. done. }
    rewrite (M_bind_eq _ _ _ _ _ E). cbn [fst snd lg_found lg_compactions]. set (l1 := mkLogState Status_OK (Some m1) _ _). rewrite E1 in Hfit. apply andb_true_iff in Hfit as [_ Hfit].
    destruct (IH fuel r1 reader' l1 m1 es1 (seq + zlen ops) st (or_introl eq_refl) Hm1 eq_refl) as (m' & es' & Hm' & Hp' & E' & Hnil); try done.
    { pose proof (zlen_nonneg ops). lia. }
    { rewrite Hp1. apply Forall_app. split; [eapply Forall_impl; [apply entries_of_seqs|]; cbn; intros; lia|]. eapply Forall_impl; [exact Hold|]. cbn. intros. pose proof (zlen_nonneg ops). lia. }
    exists m', es'. split; [done|]. split; [|split; [|done]].
    + rewrite Hp', Hp1. unfold all_entries. cbn [map concat fst snd]. rewrite !app_assoc. apply Permutation_app_tail, Permutation_app_comm.
    + unfold l1 in E' |- *. cbn [lg_mem lg_found fd_edit fd_save_manifest fd_max_sequence lg_compactions] in E'. rewrite E'. do 3 f_equal. destruct batches as [|b batches]; [|done]. by rewrite Hnil.
Qed.

(** The found values after a replay. *)
Definition found_after (f : Found) (batches : list Batch) : Found := mkFound (fd_edit f) (fd_save_manifest f) (last_seq_of (fd_max_sequence f) batches).

Lemma RecoverLogFile_batches fuel n last_log f batches reader' w c db contents : mem_view w (LogFileName dbname n) = Some contents ->
  numbered 1 batches -> fits_buffer ucmp base limit (new_MemTable base) (records_of batches) = true ->
  read_all MemSequential fuel (new_Reader contents true 0) = Some (records_of batches, reader') -> reports_ reader' = [] ->
  exists m es, mem_rep ucmp m es /\ es ≡ₚ all_entries batches /\
    RecoverLogFile sys raw dbname h base fuel n last_log f None ((w, c), db) =
      if opt_reuse_logs raw && last_log then
        Some ((Status_OK, found_after f batches, Some m), ((mem_set (LogFileName dbname n) contents w, c), db_set_logfile n db))
      else match batches with
           | [] => Some ((Status_OK, f, None), ((w, c), db))
           | _ => (r ← write_level0 sys raw dbname h m (found_after f batches); mret (r.1, r.2, None)) ((w, c), db)
           end.
Proof.
  intros Hw Hnum Hfit Hread Hrep. set (l0 := mkLogState Status_OK None 0 f).
  destruct (recover_records_batches batches fuel (new_Reader contents true 0) reader' l0 (new_MemTable base) [] 1 ((w, c), db) (or_intror (conj eq_refl eq_refl)) (new_MemTable_rep ucmp base) eq_refl) as (m & es & Hm & Hp & E & Hnil); [lia|done|constructor|done|done|done|].
  exists m, es. split; [done|]. split; [by rewrite Hp, app_nil_r|]. unfold RecoverLogFile. rewrite (M_bind_eq (on_first get_state) _ ((w, c), db) (w, c) ((w, c), db) eq_refl). rewrite Hfiles. cbn [NewSequentialFile MemReadEnv fst]. rewrite Hw. cbn [ok Status_OK negb].
  fold l0. rewrite (M_bind_eq _ _ _ _ _ E). clear E. fold (found_after f batches). cbn [lg_status lg_mem lg_compactions lg_found ok Status_OK andb Z.eqb l0]. rewrite andb_true_r. change (opt_reuse_logs (SanitizeOptions raw)) with (opt_reuse_logs raw). destruct (opt_reuse_logs raw && last_log).
  - assert (E : forall mo, (_ ← lift (Some ()); reuse_log sys base (LogFileName dbname n) n mo) ((w, c), db) = Some ((None, Some (default (new_MemTable base) mo)), ((mem_set (LogFileName dbname n) contents w, c), db_set_logfile n db))).
    { intros mo. rewrite lift_bind. unfold reuse_log. rewrite Henv. unfold mbind, M_bind, on_first, get_state. cbn [fst snd env_GetFileSize MemEnv]. rewrite Hw. cbn [ok Status_OK fst]. unfold io. cbn [NewAppendableFile MemEnv fst snd ok Status_OK]. by rewrite Hw. }
    rewrite (M_bind_eq _ _ _ _ _ (E _)). cbn [l0 lg_mem]. destruct batches as [|b batches]; [by rewrite (Hnil eq_refl)|done].
  - destruct batches as [|b batches]; [by destruct f|done].
Qed.


End Replay.

(** ** Example *)

Definition reusing : Options := mkOptions BytewiseComparator false false false (Z.shiftl 4 20) 2000 4096 16 (Z.shiftl 2 20) (opt_compression new_Options) true None.
Definition sample_batches : list Batch := [(1, [OpPut (lit "a") (lit "1"); OpDelete (lit "b")]); (3, [OpPut (lit "c") (lit "2")])].

Lemma sample_numbered : numbered 1 sample_batches.
Proof.
  assert (Hop : forall o, o ∈ [OpPut (lit "a") (lit "1"); OpDelete (lit "b"); OpPut (lit "c") (lit "2")] -> op_ok o).
  { intros o Ho. repeat (apply elem_of_cons in Ho as [->|Ho]; [unfold op_ok; split_and?; vm_compute; reflexivity|]). by apply elem_of_nil in Ho. }
  cbn [numbered sample_batches]. rewrite !Forall_forall. change (kMaxSequenceNumber + 1) with (2 ^ 56).
  split_and!; lazymatch goal with
  | |- forall o, _ -> op_ok o => intros o Ho; apply Hop; set_solver
  | |- _ => vm_compute; first [reflexivity|exact I|discriminate]
  end.
Qed.

