(* ===== verification/Reopen.v ===== *)
(** * Closing, crashing and opening again

    What [DB::Open] makes of the files a database has left behind, on the file
    system in memory: a database whose MANIFEST was cut by a crash is opened
    with the files of its last version that was logged, or refused because a
    table is missing. *)

From stdpp Require Import sorting.
From S2P Require Import Prelude Coding Logging Status Comparator Dbformat MemTable WriteBatch Env Filename VersionEdit Log Version VersionSet Recovery World Block Cache Table TableCache Snapshot DB Store DBFlush DBOpen.

(** ** The directory *)

Lemma mem_child dbname w c : is_Some (mem_view w (dbname ++ lit "/" ++ c)) -> c ∈ (GetChildren MemDir dbname w).2.
Proof.
  intros [x Hx]. cbn [GetChildren MemDir snd]. apply list_elem_of_fmap. exists (dbname ++ lit "/" ++ c). split.
  { rewrite app_assoc, drop_app_length'; [done|]. rewrite length_app. done. }
  apply list_elem_of_filter. split; [rewrite app_assoc; apply take_app_length'; rewrite length_app; done|].
  induction w as [|[g d] w IH]; [done|]. cbn [mem_view] in Hx. cbn [map fst]. case_decide as E; [subst g; by left|right; by apply IH].
Qed.

Lemma scan_children_spec min_log prev_log fs : forall expected logs, let r := fold_left (scan_child min_log prev_log) fs (expected, logs) in
  (forall n, n ∈ r.1 <-> n ∈ expected /\ forall f t, f ∈ fs -> ParseFileName f <> Some (n, t)) /\
  (forall n, n ∈ r.2 <-> n ∈ logs \/ exists f, f ∈ fs /\ ParseFileName f = Some (n, kLogFile) /\ (min_log <= n \/ n = prev_log)).
Proof.
  induction fs as [|f fs IH]; intros expected logs; cbn [fold_left].
  { split; intros n; cbn [fst snd]; [|split; [by left|]; intros [?|(f & ?%elem_of_nil & _)]; done]. split; [|by intros [? _]]. intros Hn. split; [done|]. by intros f t ?%elem_of_nil. }
  unfold scan_child at 2 4. destruct (ParseFileName f) as [[x t]|] eqn:Ep; cbn [fst snd].
  - destruct (IH (expected ∖ {[x]}) (if bool_decide (t = kLogFile) && ((min_log <=? x) || (x =? prev_log)) then logs ++ [x] else logs)) as [H1 H2]. split; intros n.
    + rewrite H1, elem_of_difference, elem_of_singleton. split.
      * intros [[Hn Hx] Hno]. split; [done|]. intros g u [->|Hg]%elem_of_cons; [congruence|by apply Hno].
      * intros [Hn Hno]. split; [split; [done|]|intros g u Hg; apply Hno; by right]. intros ->. by apply (Hno f t); [left|].
    + rewrite H2. assert (Hlog : n ∈ (if bool_decide (t = kLogFile) && ((min_log <=? x) || (x =? prev_log)) then logs ++ [x] else logs) <-> n ∈ logs \/ n = x /\ t = kLogFile /\ (min_log <= x \/ x = prev_log)).
      { case_bool_decide as Et; destruct (Z.leb_spec min_log x), (Z.eqb_spec x prev_log); cbn [andb orb]; rewrite ?elem_of_app, ?list_elem_of_singleton; naive_solver lia. }
      rewrite Hlog. split.
      * intros [[?|(-> & -> & Hr)]|(g & Hg & Hpg & Hr)]; [by left|right; exists f; split; [by left|done]|right; exists g; split; [by right|done]].
      * intros [?|(g & [->|Hg]%elem_of_cons & Hpg & Hr)]; [by left; left|left; right; rewrite Ep in Hpg; by injection Hpg as -> ->|right; by exists g].
  - destruct (IH expected logs) as [H1 H2]. split; intros n; [rewrite H1|rewrite H2].
    + split; intros [Hn Hno]; (split; [done|]); [intros g u [->|Hg]%elem_of_cons; [congruence|by apply Hno]|intros g u Hg; apply Hno; by right].
    + apply or_iff_compat_l. split; [intros (g & Hg & Hx); exists g; split; [by right|done]|]. intros (g & [->|Hg]%elem_of_cons & Hpg & Hr); [congruence|by exists g].
Qed.

(** ** Databases that are not opened *)

Section Refused.
Context {W F C H CT HT : Type} (sys : System W F C H CT HT) (raw : Options) (dbname : bytes) (h : nat) (base : nat -> Z) (fuel : nat).

(** The files after the directory was created and locked, and the status. *)
Definition lock_directory (w : W) : Status * W := LockFile (sys_dir sys) (LockFileName dbname) (CreateDir (sys_dir sys) dbname w).2.

Lemma lock_run {A} (k : Status -> M (Store W C CT) A) w s w1 c db : lock_directory w = (s, w1) ->
  (_ ← on_first (io (CreateDir (sys_dir sys) dbname)); s ← on_first (io (LockFile (sys_dir sys) (LockFileName dbname))); k s) ((w, c), db) = k s ((w1, c), db).
Proof.
  intros El. unfold lock_directory in El. unfold mbind, M_bind, on_first, io. cbn [fst snd]. destruct (CreateDir (sys_dir sys) dbname w) as [s0 w0]. cbn [fst snd] in *. by rewrite El.
Qed.

Lemma open_stops s f mem_ lk w w1 c c1 db : ok s = false ->
  DBOpen.Recover sys raw dbname h base fuel ((w, c), new_DBImpl base) = Some ((s, f, mem_, lk), ((w1, c1), db)) ->
  DB_Open sys raw dbname h base fuel (w, c) = Some ((s, None), (if lk : bool then (UnlockFile (sys_dir sys) (LockFileName dbname) w1).2 else w1, c1)).
Proof.
  intros Hs E. unfold DB_Open. assert (Eo : open_database sys raw dbname h base fuel ((w, c), new_DBImpl base) = Some ((s, lk), ((w1, c1), db))).
  { unfold open_database. eapply bind_run; [exact E|]. eapply bind_run; [|reflexivity]. unfold open_recovered. rewrite Hs.
    eapply bind_run; [reflexivity|]. eapply bind_run; [reflexivity|]. rewrite Hs. eapply bind_run; [reflexivity|]. by rewrite Hs. }
  rewrite Eo, Hs. by destruct lk.
Qed.


End Refused.

(** ** After a crash *)

Section Reopen.
Context {C H CT HT : Type} (sys : System MemFS bytes C H CT HT) (raw : Options) (dbname : bytes) (h : nat) (base : nat -> Z).
Context (Henv : sys_env sys = MemEnv) (Hfiles : sys_files sys = MemReadEnv) (Hdir : sys_dir sys = MemDir) `{!TotalCmp (Compare (opt_comparator raw))}.
Context (tcinv : CT -> gmap bytes Table -> list (HT * Table) -> Z -> Prop) `{!CacheLaws (sys_tables sys) tcinv}.
Context (Hreuse : opt_reuse_logs raw = false) (Hexists : opt_error_if_exists raw = false).

Abbreviation ucmp := (opt_comparator raw).
Abbreviation children w := (GetChildren MemDir dbname w).2.

(** The logs of a database whose writes are not logged. *)
Definition logs_empty (w : MemFS) : Prop :=
  forall f n, f ∈ children w -> ParseFileName f = Some (n, kLogFile) -> fits 63 n /\ mem_view w (LogFileName dbname n) = Some [].

Definition table_listed (w : MemFS) (n : Z) : Prop := exists f t, f ∈ children w /\ ParseFileName f = Some (n, t).

(** Only the next file number of the set moves. *)
Definition with_next (nf : Z) (vs : VersionSet) (db : DBImpl) : DBImpl := db_set_versions (set_next_file nf vs) db.

Lemma MarkFileNumberUsed_bound n nf vs : fits 63 n -> vs_log_number vs < nf -> nf < 2 ^ 64 - 1 -> 0 <= nf ->
  exists nf', MarkFileNumberUsed n (set_next_file nf vs) = set_next_file nf' vs /\ nf <= nf' < 2 ^ 64 - 1.
Proof.
  intros Hn Hl Hb H0. unfold MarkFileNumberUsed. cbn [vs_next_file_number set_next_file]. destruct (Z.leb_spec nf n) as [Hle|Hlt]; [|by exists nf; split; [|lia]].
  exists (u64 (n + 1)). split; [done|]. unfold fits in Hn. rewrite u64_small by lia. lia.
Qed.

Lemma read_empty fuel : (2 <= fuel)%nat -> exists r', read_all MemSequential fuel (new_Reader [] true 0) = Some ([], r') /\ reports_ r' = [].
Proof.
  intros Hf. destruct (log_prefix_read [] true) as (w & Hw & Hread). injection Hw as <-. destruct (Hread 0%nat fuel Hf) as (j & r' & E & Hr & _). rewrite take_nil in E. by exists r'.
Qed.

Lemma recover_logs_empty logs : forall fuel nf w c vs db, (2 <= fuel)%nat -> (forall n, n ∈ logs -> fits 63 n /\ mem_view w (LogFileName dbname n) = Some []) ->
  vs_log_number vs < nf -> nf < 2 ^ 64 - 1 -> 0 <= nf -> exists nf', nf <= nf' < 2 ^ 64 - 1 /\
  forall f, recover_logs sys raw dbname h base fuel logs f None ((w, c), with_next nf vs db) = Some ((Status_OK, f, None), ((w, c), with_next nf' vs db)).
Proof.
  induction logs as [|n logs IH]; intros fuel nf w c vs db Hf Hlogs Hl Hb H0; [by exists nf; split; [lia|]|]. destruct (Hlogs n ltac:(by left)) as [Hn Hv].
  destruct (MarkFileNumberUsed_bound n nf vs Hn Hl Hb H0) as (nf1 & E1 & Hb1). destruct (IH fuel nf1 w c vs db Hf) as (nf2 & Hb2 & E2); [intros x Hx; apply Hlogs; by right|lia..|].
  exists nf2. split; [lia|]. intros f. cbn [recover_logs]. destruct (read_empty fuel Hf) as (r' & Er & Hr).
  destruct (RecoverLogFile_batches sys raw dbname h base Henv Hfiles fuel n (match logs with [] => true | _ => false end) f [] r' w c (with_next nf vs db) [] Hv) as (m & es & _ & _ & E); [done|done|done|done|].
  rewrite Hreuse in E. cbn [andb] in E. eapply bind_run; [exact E|]. cbn [ok Status_OK negb]. eapply bind_run; [unfold on_second, modify; cbn [fst snd]; reflexivity|].
  unfold with_next at 1. cbn [db_versions db_set_versions]. rewrite E1. apply E2.
Qed.

Lemma live_numbers vs n nf : vs_old vs = [] -> n ∈ AddLiveFiles (set_next_file nf vs) ∅ <-> n ∈ version_numbers (vs_current vs).
Proof.
  intros Ho. rewrite AddLiveFiles_elem. cbn [vs_current vs_old set_next_file]. rewrite Ho. split.
  - intros [?%elem_of_empty|(v & [->|?%elem_of_nil] & Hn)]; done.
  - intros Hn. right. exists (vs_current vs). split; [by left|done].
Qed.

Lemma recover_rest_ok fuel nf w c vs db : (2 <= fuel)%nat -> vs_old vs = [] -> (forall n, n ∈ version_numbers (vs_current vs) -> table_listed w n) -> logs_empty w ->
  0 <= vs_last_sequence vs -> vs_log_number vs < nf -> nf < 2 ^ 64 - 1 -> 0 <= nf ->
  exists nf', nf <= nf' < 2 ^ 64 - 1 /\
    recover_rest sys raw dbname h base fuel true ((w, c), with_next nf vs db) = Some ((Status_OK, mkFound new_VersionEdit true 0, None), ((w, c), with_next nf' vs db)).
Proof.
  intros Hf Ho Hall Hlogs Hseq Hl Hb H0. set (min_log := vs_log_number vs). set (prev_log := vs_prev_log_number vs).
  pose proof (scan_children_spec min_log prev_log (children w) (AddLiveFiles (set_next_file nf vs) ∅) []) as Hscan. cbv zeta in Hscan. destruct (fold_left _ _ _) as [expected logs] eqn:Efold. destruct Hscan as [Hexp Hlog]. cbn [fst snd] in Hexp, Hlog.
  assert (Hnil : expected = ∅).
  { apply set_eq. intros n. rewrite Hexp, elem_of_empty. split; [|done]. intros [Hn Hno]. apply live_numbers in Hn; [|done]. destruct (Hall n Hn) as (f & t & Hf1 & Hp). by apply (Hno f t). }
  destruct (recover_logs_empty (merge_sort Z.le logs) fuel nf w c vs db Hf) as (nf' & Hb' & E); [|done..|].
  { intros n Hn. rewrite merge_sort_Permutation in Hn. apply Hlog in Hn as [?%elem_of_nil|(f & Hf1 & Hp & _)]; [done|]. by apply (Hlogs f n). }
  exists nf'. split; [done|]. unfold recover_rest. eapply bind_run; [reflexivity|]. eapply bind_run; [reflexivity|]. cbn [fst snd]. rewrite Hdir.
  change (GetChildren MemDir dbname w) with (Status_OK, children w). cbn [ok Status_OK negb]. unfold with_next at 1 2 3. cbn [db_versions db_set_versions vs_log_number vs_prev_log_number set_next_file]. fold min_log prev_log.
  unfold with_next at 1. cbn [db_versions db_set_versions]. rewrite Efold, bool_decide_true by done. cbn [negb]. eapply bind_run; [apply E|]. cbn [ok Status_OK negb fd_max_sequence].
  eapply bind_run; [unfold on_second, modify; cbn [fst snd]; reflexivity|]. unfold with_next at 1. cbn [db_versions db_set_versions vs_last_sequence set_next_file]. rewrite (proj2 (Z.ltb_ge _ _)) by lia. done.
Qed.

Lemma recover_rest_missing fuel nf w c vs db n : vs_old vs = [] -> n ∈ version_numbers (vs_current vs) -> ~ table_listed w n ->
  exists expected f, recover_rest sys raw dbname h base fuel true ((w, c), with_next nf vs db) = Some ((missing_files dbname expected, f, None), ((w, c), with_next nf vs db)).
Proof.
  intros Ho Hn Hno. set (min_log := vs_log_number vs). set (prev_log := vs_prev_log_number vs).
  pose proof (scan_children_spec min_log prev_log (children w) (AddLiveFiles (set_next_file nf vs) ∅) []) as Hscan. cbv zeta in Hscan. destruct (fold_left _ _ _) as [expected logs] eqn:Efold. destruct Hscan as [Hexp _]. cbn [fst snd] in Hexp.
  assert (Hnn : expected <> ∅).
  { intros E. assert (Hx : n ∈ expected); [|by rewrite E in Hx; apply elem_of_empty in Hx]. apply Hexp. split; [by apply live_numbers|]. intros f t Hf Hp. apply Hno. by exists f, t. }
  exists expected, (mkFound new_VersionEdit true 0). unfold recover_rest. eapply bind_run; [reflexivity|]. eapply bind_run; [reflexivity|]. cbn [fst snd]. rewrite Hdir.
  change (GetChildren MemDir dbname w) with (Status_OK, children w). cbn [ok Status_OK negb]. unfold with_next at 1 2 3. cbn [db_versions db_set_versions vs_log_number vs_prev_log_number set_next_file]. fold min_log prev_log.
  unfold with_next at 1. cbn [db_versions db_set_versions]. rewrite Efold, bool_decide_false by done. done.
Qed.

(** ** The new log and the new MANIFEST *)

Lemma edited_same e vs : version_sorted ucmp (vs_current vs) -> new_files_ e = [] -> deleted_files_ e = [] ->
  exists v, edited ucmp e vs v /\ forall level, (level < kNumLevels)%nat -> level_files v level = level_files (vs_current vs) level.
Proof.
  intros Hs Hn Hd. assert (En : forall level, news_at (complete_edit e vs) level = []).
  { intros level. unfold news_at, complete_edit. by destruct (has_log_number_ e), (has_prev_log_number_ _); cbn; rewrite ?Hn. }
  assert (Ed : forall level, dels_at (complete_edit e vs) level = []).
  { intros level. unfold dels_at, complete_edit. by destruct (has_log_number_ e), (has_prev_log_number_ _); cbn; rewrite ?Hd. }
  apply SaveTo_edited; [done|done| |].
  - intros level Hl. rewrite En. split; [constructor|]. by intros f ?%elem_of_nil.
  - intros level Hl. destruct (Hs level Hl) as [H1 H2]. split; [|done]. split; [done|]. intros f. rewrite En, Ed. cbn [map]. split; [intros Hf; left; split; [done|apply not_elem_of_nil]|]. by intros [[? _]|?%elem_of_nil].
Qed.

(** A file that is not in the directory. *)
Definition outside (f : bytes) : Prop := forall c, f <> dbname ++ lit "/" ++ c.

Lemma outside_names f : outside f ->
  f <> CurrentFileName dbname /\ f <> LockFileName dbname /\ forall n, f <> DescriptorFileName dbname n /\ f <> TempFileName dbname n /\ f <> LogFileName dbname n.
Proof.
  intros Ho. split; [apply (Ho (lit "CURRENT"))|]. split; [apply (Ho (lit "LOCK"))|]. intros n. split; [apply (Ho (lit "MANIFEST-" ++ decimal06 n))|].
  split; [apply (Ho (decimal06 n ++ lit "." ++ lit "dbtmp"))|apply (Ho (decimal06 n ++ lit "." ++ lit "log"))].
Qed.

(** What the opened database is like. *)
Record opened (vs : VersionSet) (w : MemFS) (db : DBImpl) (w' : MemFS) : Prop := {
  op_files : forall level, (level < kNumLevels)%nat -> level_files (vs_current (db_versions db)) level = level_files (vs_current vs) level;
  op_sequence : vs_last_sequence (db_versions db) = vs_last_sequence vs;
  op_mem : db_mem db = new_MemTable base /\ db_imm db = None;
  op_error : ok (db_bg_error db) = true;
  op_current : mem_view w' (CurrentFileName dbname) = Some (current_contents (vs_manifest_file_number vs));
  op_tables : forall n, fits 64 n -> n ∈ version_numbers (vs_current vs) -> mem_view w' (TableFileName dbname n) = mem_view w (TableFileName dbname n);
  op_outside : forall f, outside f -> mem_view w' f = mem_view w f
}.

Lemma schedule_opened vs w db w' : opened vs w db w' -> opened vs w (MaybeScheduleCompaction db) w'.
Proof. intros [H1 H2 H3 H4 H5 H6 H7]. unfold MaybeScheduleCompaction. repeat case_match; by split. Qed.

Lemma version_numbers_levels v v' : (forall level, (level < kNumLevels)%nat -> level_files v' level = level_files v level) -> version_numbers v' = version_numbers v.
Proof. intros He. unfold version_numbers. f_equal. apply map_ext_in. intros level Hl%in_seq. by rewrite He by lia. Qed.

Lemma Finalize_files v : files_ (Finalize v) = files_ v.
Proof. unfold Finalize. by destruct (fold_left _ _ _). Qed.

(** Two files of the directory with children of different kinds. *)
Lemma child_differs c d x y : ParseFileName c = x -> ParseFileName d = y -> x <> y -> dbname ++ lit "/" ++ c <> dbname ++ lit "/" ++ d.
Proof. intros <- <- Hne E. apply app_inv_head, app_inv_head in E. by subst. Qed.

Lemma Parse_table n : fits 64 n -> ParseFileName (decimal06 n ++ lit "." ++ lit "ldb") = Some (n, kTableFile).
Proof. intros Hn. by rewrite Parse_numbered. Qed.

Lemma Parse_log n : fits 64 n -> ParseFileName (decimal06 n ++ lit "." ++ lit "log") = Some (n, kLogFile).
Proof. intros Hn. by rewrite Parse_numbered. Qed.

Lemma Parse_temp n : fits 64 n -> ParseFileName (decimal06 n ++ lit "." ++ lit "dbtmp") = Some (n, kTempFile).
Proof. intros Hn. by rewrite Parse_numbered. Qed.

Lemma table_frame n : fits 64 n -> forall m, fits 64 m ->
  TableFileName dbname n <> DescriptorFileName dbname m /\ TableFileName dbname n <> CurrentFileName dbname /\
  TableFileName dbname n <> TempFileName dbname m /\ TableFileName dbname n <> LogFileName dbname m.
Proof.
  intros Hn m Hm. pose proof (Parse_table n Hn) as Ht. split; [|split; [|split]].
  - by apply (child_differs _ (lit "MANIFEST-" ++ decimal06 m) _ _ Ht (Parse_manifest m Hm)).
  - by apply (child_differs _ (lit "CURRENT") _ (Some (0, kCurrentFile)) Ht).
  - by apply (child_differs _ _ _ _ Ht (Parse_temp m Hm)).
  - by apply (child_differs _ _ _ _ Ht (Parse_log m Hm)).
Qed.

#[local] Instance sys_env_laws : EnvLaws (sys_env sys) mem_view.
Proof. rewrite Henv. apply _. Qed.

(** The edit that [Open] logs. *)
Abbreviation open_edit nf := (SetLogNumber nf (SetPrevLogNumber 0 (SetLogNumber nf new_VersionEdit))).

(** What follows a successful recovery. *)
Abbreviation open_rest := (open_recovered sys raw dbname base Status_OK (mkFound new_VersionEdit true 0) None).

Lemma open_rest_spec nf w c vs m held id : tcinv (tc_tables c) m held id -> vs_descriptor vs = None -> fits 64 (vs_manifest_file_number vs) ->
  version_sorted ucmp (vs_current vs) -> 0 <= vs_log_number vs < nf -> nf < 2 ^ 64 - 1 ->
  exists w' c' db', open_rest ((w, c), with_next nf vs (new_DBImpl base)) = Some (Status_OK, ((w', c'), db')) /\ opened vs w db' w'.
Proof.
  intros Ht Hd Hm Hs Hl Hb. set (vs1 := set_next_file (u64 (nf + 1)) vs). set (w1 := mem_set (LogFileName dbname nf) [] w). set (e := open_edit nf).
  destruct (edited_same e vs1 Hs eq_refl eq_refl) as (v & Hv & Hlev).
  assert (Hal : log_number_allowed e vs1 = true).
  { unfold log_number_allowed, vs1. cbn. rewrite u64_small by lia. apply andb_true_intro. split; [apply Z.leb_le|apply Z.ltb_lt]; lia. }
  destruct (LogAndApply_opens ucmp dbname e vs1 w1 v Hd ltac:(unfold fits in Hm; cbn; lia) Hal Hv) as (vs' & w2 & d & E & Hvs & _ & Hcur & Hfr).
  set (db2 := db_set_mem (new_MemTable base) None (db_set_versions vs' (db_set_logfile nf (with_next (u64 (nf + 1)) vs (new_DBImpl base))))).
  destruct (DeleteObsoleteFiles_spec sys mem_view tcinv dbname w2 c db2 m held id Ht eq_refl) as (w3 & c3 & m3 & E3 & _ & Hkeep & _).
  exists w3, c3, (MaybeScheduleCompaction db2). split.
  - unfold open_recovered. cbn [ok Status_OK]. eapply bind_run.
    { unfold open_log. eapply bind_run; [reflexivity|]. cbn [NewFileNumber]. eapply bind_run; [reflexivity|]. eapply bind_run; [unfold on_first, io; rewrite Henv; reflexivity|]. cbn [ok Status_OK]. eapply bind_run; reflexivity. }
    eapply bind_run; [reflexivity|]. cbn [ok Status_OK andb fd_save_manifest].
    eapply bind_run; [unfold log_and_apply; rewrite Henv; cbn [fst snd]; change (LogAndApply _ _ _ _ _ _) with (LogAndApply ucmp MemEnv dbname e vs1 w1); rewrite E; reflexivity|].
    cbn [ok Status_OK]. eapply bind_run; [reflexivity|]. eapply bind_run; [reflexivity|]. eapply bind_run; [exact E3|]. reflexivity.
  - assert (Hlev2 : forall level, (level < kNumLevels)%nat -> level_files (vs_current vs') level = level_files (vs_current vs) level) by (intros level Hle; etrans; [|exact (Hlev level Hle)]; subst vs'; cbn [vs_current install_logs AppendVersion]; unfold level_files; by rewrite Finalize_files).
    apply schedule_opened. split; [exact Hlev2|by subst vs'|done|done| | |].
    + etrans; [|exact Hcur]. apply Hkeep. intros x _ Ex. apply app_inv_head in Ex. change (lit "/CURRENT") with (lit "/" ++ lit "CURRENT") in Ex. apply app_inv_head in Ex as <-. done.
    + intros n Hn Hin. destruct (table_frame n Hn _ Hm) as (F1 & F2 & F3 & _). destruct (table_frame n Hn nf ltac:(unfold fits; lia)) as (_ & _ & _ & F4).
      rewrite Hkeep; [rewrite Hfr by done; unfold w1; rewrite mem_view_set; by rewrite decide_False|]. intros x _ Ex. apply app_inv_head, app_inv_head in Ex as <-.
      unfold spared. rewrite Parse_table by done. apply bool_decide_eq_true, AddLiveFiles_elem. right. exists (vs_current vs'). split; [by left|]. by rewrite (version_numbers_levels _ _ Hlev2).
    + intros f Ho. destruct (outside_names f Ho) as (F1 & _ & F2). rewrite Hkeep; [|intros x _ Ex; by destruct (Ho x)].
      rewrite Hfr; [|apply F2|done|apply F2]. unfold w1. rewrite mem_view_set. rewrite decide_False; [done|]. intros <-. by destruct (F2 nf) as (_ & _ & ?).
Qed.

(** ** The whole of [Open] *)

(** The files once the directory is locked. *)
Definition locked (w : MemFS) : MemFS := mem_set (LockFileName dbname) [] w.

Abbreviation recovers fuel w vs := (VersionSet.Recover ucmp MemEnv MemReadEnv dbname (opt_max_file_size (SanitizeOptions raw)) false fuel new_VersionSet w = Some (Status_OK, true, vs, w)).

(** The directory is locked and has, or is given, a database: [w1]. *)
Definition checked (w w1 : MemFS) : Prop :=
  forall c db, create_or_check sys raw dbname ((locked w, c), db) = Some (Status_OK, ((w1, c), db)).

Lemma checked_exists w : is_Some (mem_view (locked w) (CurrentFileName dbname)) -> checked w (locked w).
Proof.
  intros Hc c db. unfold create_or_check. eapply bind_run; [reflexivity|]. cbn [fst snd]. rewrite Hdir. cbn [FileExists MemDir]. rewrite bool_decide_true by exact Hc. cbn [negb].
  change (opt_error_if_exists (SanitizeOptions raw)) with (opt_error_if_exists raw). by rewrite Hexists.
Qed.

Lemma Recover_start fuel w w1 c vs r st : checked w w1 -> recovers fuel w1 vs ->
  recover_rest sys raw dbname h base fuel true ((w1, c), with_next (vs_next_file_number vs) vs (new_DBImpl base)) = Some (r, st) ->
  DBOpen.Recover sys raw dbname h base fuel ((w, c), new_DBImpl base) = Some ((r, true), st).
Proof.
  intros Hc Hr E. unfold DBOpen.Recover. eapply bind_run; [unfold on_first, io; rewrite Hdir; reflexivity|].
  eapply bind_run; [unfold on_first, io; rewrite Hdir; reflexivity|]. cbn [ok Status_OK negb].
  eapply bind_run; [apply Hc|]. cbn [ok Status_OK negb]. eapply bind_run.
  { unfold recover_versions. cbn [fst snd]. rewrite Henv, Hfiles. change (opt_reuse_logs (SanitizeOptions raw)) with (opt_reuse_logs raw). rewrite Hreuse.
    change (db_versions (new_DBImpl base)) with new_VersionSet. rewrite Hr. reflexivity. }
  cbn [fst snd ok Status_OK negb]. eapply bind_run; [|reflexivity]. rewrite <- E. f_equal. f_equal. unfold with_next. f_equal. by destruct vs.
Qed.

Lemma open_succeeds fuel w w1 c vs nf w' c' db : checked w w1 -> recovers fuel w1 vs ->
  recover_rest sys raw dbname h base fuel true ((w1, c), with_next (vs_next_file_number vs) vs (new_DBImpl base))
    = Some ((Status_OK, mkFound new_VersionEdit true 0, None), ((w1, c), with_next nf vs (new_DBImpl base))) ->
  open_rest ((w1, c), with_next nf vs (new_DBImpl base)) = Some (Status_OK, ((w', c'), db)) ->
  DB_Open sys raw dbname h base fuel (w, c) = Some ((Status_OK, Some db), (w', c')).
Proof.
  intros Hc Hr E1 E2. unfold DB_Open. assert (E : open_database sys raw dbname h base fuel ((w, c), new_DBImpl base) = Some ((Status_OK, true), ((w', c'), db))).
  { unfold open_database. eapply bind_run; [eapply Recover_start; done|]. eapply bind_run; [exact E2|reflexivity]. }
  rewrite E. done.
Qed.

Lemma open_refuses fuel w w1 c vs s f st : checked w w1 -> recovers fuel w1 vs -> ok s = false ->
  recover_rest sys raw dbname h base fuel true ((w1, c), with_next (vs_next_file_number vs) vs (new_DBImpl base)) = Some ((s, f, None), st) ->
  exists d, DB_Open sys raw dbname h base fuel (w, c) = Some ((s, None), d).
Proof.
  intros Hc Hr Hs E1. destruct st as [[w2 c2] db]. eexists. eapply open_stops; [exact Hs|]. by eapply Recover_start.
Qed.

Lemma version_numbers_norm v v' : (forall level, (level < kNumLevels)%nat -> level_files v' level = map norm (level_files v level)) ->
  version_numbers v' = version_numbers v.
Proof. intros He. unfold version_numbers. f_equal. apply map_ext_in. intros level Hl%in_seq. rewrite He by lia. rewrite map_map. apply map_ext. done. Qed.

Lemma version_sorted_norm v v' : version_sorted ucmp v -> (forall level, (level < kNumLevels)%nat -> level_files v' level = map norm (level_files v level)) ->
  version_sorted ucmp v'.
Proof. intros Hs He level Hl. destruct (Hs level Hl) as [H1 H2]. rewrite He by done. split; [by apply norm_sorted|]. by rewrite no_overlap_norm. Qed.

(** A recovered set whose tables are there opens. *)
Lemma open_recovers fuel w w1 c vs v log prev next_file seq m held id : checked w w1 -> recovers fuel w1 vs -> (2 <= fuel)%nat ->
  recovered v log prev next_file seq vs -> version_sorted ucmp v -> 0 <= seq -> 0 <= log <= next_file -> next_file < 2 ^ 63 ->
  logs_empty w1 -> (forall n, n ∈ version_numbers (vs_current vs) -> table_listed w1 n) -> tcinv (tc_tables c) m held id ->
  exists db w' c', DB_Open sys raw dbname h base fuel (w, c) = Some ((Status_OK, Some db), (w', c')) /\ opened vs w1 db w'.
Proof.
  intros Hc HR Hf [Hlev Hseq Hlog _ Hman Hnext Hd [Ho _]] Hs N1 N2 N3 Hl Hall Ht. rewrite u64_small in Hnext by lia.
  destruct (recover_rest_ok fuel (vs_next_file_number vs) w1 c vs (new_DBImpl base)) as (nf & Hnf & E1); [lia|done|done|done|lia..|].
  destruct (open_rest_spec nf w1 c vs m held id Ht Hd) as (w3 & c3 & db & E2 & Hop); [rewrite Hman; unfold fits; lia|by eapply version_sorted_norm|lia..|].
  exists db, w3, c3. split; [by eapply open_succeeds|done].
Qed.

Lemma locked_frame w : mem_view (locked w) (CurrentFileName dbname) = mem_view w (CurrentFileName dbname) /\
  (forall n, mem_view (locked w) (DescriptorFileName dbname n) = mem_view w (DescriptorFileName dbname n)) /\
  (forall n, fits 64 n -> mem_view (locked w) (TableFileName dbname n) = mem_view w (TableFileName dbname n)).
Proof.
  unfold locked. split; [|split].
  - rewrite mem_view_set. case_decide as E; [|done]. by apply app_inv_head in E.
  - intros n. rewrite mem_view_set. case_decide as E; [|done]. by apply app_inv_head in E.
  - intros n Hn. rewrite mem_view_set. case_decide as E; [|done]. symmetry in E. by destruct (child_differs _ (lit "LOCK") _ (Some (0, kDBLockFile)) (Parse_table n Hn) eq_refl ltac:(done)).
Qed.

(** The numbers of a logged edit. *)
Definition numbers_ok (e : VersionEdit) : Prop :=
  0 <= last_sequence_ e /\ 0 <= log_number_ e <= next_file_number_ e /\ next_file_number_ e < 2 ^ 63.

(** What a process finds: CURRENT, a MANIFEST of which a tail may be missing,
    and no records in the logs. *)
Record left_behind (vs : VersionSet) (w : MemFS) (c : bytes) (k : nat) (w2 : MemFS) : Prop := {
  lb_current : mem_view w2 (CurrentFileName dbname) = mem_view w (CurrentFileName dbname);
  lb_manifest : mem_view w2 (DescriptorFileName dbname (vs_manifest_file_number vs)) = Some (take k c);
  lb_logs : logs_empty (locked w2)
}.


(** ** A new database *)

Lemma children_view w f : f ∈ children w -> is_Some (mem_view w (dbname ++ lit "/" ++ f)).
Proof.
  cbn [GetChildren MemDir snd]. intros (g & -> & [Hp Hg]%list_elem_of_filter)%list_elem_of_fmap.
  replace (dbname ++ lit "/" ++ drop (length dbname + 1) g) with g by (rewrite <- (take_drop (length dbname + 1) g) at 1; by rewrite Hp, <- app_assoc).
  clear Hp. induction w as [|[f d] w IH]; [by apply elem_of_nil in Hg|]. cbn [mem_view]. case_decide; [done|]. apply IH. by apply elem_of_cons in Hg as [->|Hg].
Qed.

Lemma NewDB_mem w : exists w' wr, NewDB sys raw dbname w = Some (Status_OK, w') /\ write_all [encode (new_db raw)] = Some wr /\
  mem_view w' (DescriptorFileName dbname 1) = Some (dest_ wr) /\ mem_view w' (CurrentFileName dbname) = Some (current_contents 1) /\
  forall g, g <> DescriptorFileName dbname 1 -> g <> CurrentFileName dbname -> g <> TempFileName dbname 1 -> mem_view w' g = mem_view w g.
Proof.
  set (P := DescriptorFileName dbname 1). destruct (write_all_snoc [] (encode (new_db raw)) (new_Writer []) eq_refl) as ([c' off'] & Ha & Hw).
  destruct (manifest_AddRecord_mem dbname (encode (new_db raw)) 0 1 (mem_set P [] w) [] c' off' Status_OK) as (w1 & E & Hv & Ho); [rewrite mem_view_set; by rewrite decide_True|exact Ha|].
  pose proof (SetCurrentFile_mem dbname 1 w1) as Hs. destruct (SetCurrentFile_spec MemEnv mem_view dbname 1 w1 ltac:(lia)) as [Hc Hf]. rewrite Hs in Hc. cbn [ok Status_OK] in Hc.
  exists (SetCurrentFile MemEnv dbname 1 w1).2, (mkWriter c' off'). split; [|split; [exact Hw|split; [|split; [exact Hc|]]]].
  - unfold NewDB. rewrite Henv. cbn [NewWritableFile MemEnv ok Status_OK negb]. unfold encode in E. fold P. rewrite E. cbn [mbind option_bind ok Status_OK file_Close MemEnv]. by destruct (SetCurrentFile MemEnv dbname 1 w1); cbn in Hs; subst.
  - rewrite Hf; [exact Hv|apply Descriptor_not_current|by apply Descriptor_not_temp].
  - intros g G1 G2 G3. rewrite Hf by done. rewrite Ho by done. rewrite mem_view_set. by rewrite decide_False.
Qed.

Lemma checked_creates w w1 : mem_view w (CurrentFileName dbname) = None -> opt_create_if_missing raw = true ->
  NewDB sys raw dbname (locked w) = Some (Status_OK, w1) -> checked w w1.
Proof.
  intros Hc Hm E c db. unfold create_or_check. eapply bind_run; [reflexivity|]. cbn [fst snd]. rewrite Hdir. cbn [FileExists MemDir].
  destruct (locked_frame w) as (-> & _ & _). rewrite Hc, bool_decide_false by (by intros []). cbn [negb].
  change (opt_create_if_missing (SanitizeOptions raw)) with (opt_create_if_missing raw). rewrite Hm. unfold on_first, io_opt. cbn [fst snd]. by rewrite E.
Qed.

Definition no_logs (w : MemFS) : Prop := forall f n, f ∈ children w -> ParseFileName f <> Some (n, kLogFile).

Lemma no_logs_new w w1 : no_logs w -> (forall g, g <> DescriptorFileName dbname 1 -> g <> CurrentFileName dbname -> g <> TempFileName dbname 1 -> mem_view w1 g = mem_view (locked w) g) ->
  logs_empty w1.
Proof.
  intros Hno Hfr f n Hf Hp. exfalso. apply children_view in Hf as Hv. assert (F1 : fits 64 1) by (unfold fits; lia).
  rewrite Hfr in Hv.
  - unfold locked in Hv. rewrite mem_view_set in Hv. case_decide as E.
    + symmetry in E. by destruct (child_differs f (lit "LOCK") _ (Some (0, kDBLockFile)) Hp eq_refl ltac:(done)).
    + by apply (Hno f n); [apply mem_child|].
  - by apply (child_differs _ (lit "MANIFEST-" ++ decimal06 1) _ _ Hp (Parse_manifest 1 F1)).
  - by apply (child_differs _ (lit "CURRENT") _ (Some (0, kCurrentFile)) Hp).
  - by apply (child_differs _ _ _ _ Hp (Parse_temp 1 F1)).
Qed.

Lemma new_db_loggable : zlen (cmp_Name ucmp) < 2 ^ 32 -> loggable ucmp (new_db raw).
Proof.
  intros Hn. split; [|done]. split; try done; [|constructor]. cbn [items new_db]. repeat (apply Forall_cons; split); [exact Hn|vm_compute; split; [discriminate|reflexivity]..|constructor].
Qed.

Lemma new_db_version : version_sorted ucmp new_Version /\ exists v, SaveTo ucmp (Apply ucmp (new_db raw) (new_Builder [] new_Version)) new_Version = Some v /\
  forall level, (level < kNumLevels)%nat -> level_files v level = [].
Proof.
  assert (Hs : version_sorted ucmp new_Version) by (intros level Hl; rewrite new_Version_level; split; [constructor|by right]). split; [done|].
  apply (SaveTo_edited ucmp _ _ _ (fun _ => [])); [done| |].
  - intros level Hl. split; [constructor|]. by intros f ?%elem_of_nil.
  - intros level Hl. split; [|by right]. split; [constructor|]. intros f. rewrite new_Version_level. cbn. split; [by intros ?%elem_of_nil|]. by intros [[?%elem_of_nil _]|?%elem_of_nil].
Qed.


End Reopen.

(** ** Destroying a database *)

Section Destroy.
Context {C H CT HT : Type} (sys : System MemFS bytes C H CT HT) (dbname : bytes).
Context (Henv : sys_env sys = MemEnv) (Hdir : sys_dir sys = MemDir).

(** A name the database gives to a file. *)
Definition db_file (f : bytes) : bool := match ParseFileName f with Some _ => true | None => false end.
Definition destroyed (f : bytes) : bool := match ParseFileName f with Some (_, t) => negb (bool_decide (t = kDBLockFile)) | None => false end.

Lemma Parse_lock f n : ParseFileName f = Some (n, kDBLockFile) -> f = lit "LOCK".
Proof.
  unfold ParseFileName. destruct (Slice_eqb f (lit "CURRENT")); [done|]. destruct (Slice_eqb f (lit "LOCK")) eqn:E; [by apply Slice_eqb_eq in E|]. by repeat case_match.
Qed.

Lemma destroy_files_spec fs : forall s w, let r := destroy_files sys dbname fs s w in r.1 = s /\
  (forall f, f ∈ fs -> destroyed f = true -> mem_view r.2 (dbname ++ lit "/" ++ f) = None) /\
  (forall g, (forall f, f ∈ fs -> destroyed f = true -> g <> dbname ++ lit "/" ++ f) -> mem_view r.2 g = mem_view w g) /\
  (forall g, mem_view w g = None -> mem_view r.2 g = None).
Proof.
  induction fs as [|f fs IH]; intros s w; cbn [destroy_files]; [split; [done|]; split; [by intros f ?%elem_of_nil|done]|].
  assert (Hskip : destroyed f = false -> let r := destroy_files sys dbname fs s w in r.1 = s /\
    (forall g, g ∈ f :: fs -> destroyed g = true -> mem_view r.2 (dbname ++ lit "/" ++ g) = None) /\
    (forall g, (forall d, d ∈ f :: fs -> destroyed d = true -> g <> dbname ++ lit "/" ++ d) -> mem_view r.2 g = mem_view w g) /\
    (forall g, mem_view w g = None -> mem_view r.2 g = None)).
  { intros Hf. destruct (IH s w) as (H1 & H2 & H3 & H4). split; [done|]. split; [|split; [|done]].
    - intros g [->|Hg]%elem_of_cons Hd; [congruence|by apply H2].
    - intros g Hg. apply H3. intros d Hd. apply Hg. by right. }
  unfold destroyed in Hskip at 1. destruct (ParseFileName f) as [[n t]|] eqn:Ep; [|by apply Hskip].
  case_bool_decide as Et; [by apply Hskip|]. clear Hskip. assert (Hd : destroyed f = true) by (unfold destroyed; rewrite Ep; by rewrite bool_decide_false).
  rewrite Henv. cbn [env_DeleteFile MemEnv ok Status_OK negb]. rewrite andb_false_r. destruct (IH s (mem_remove (dbname ++ lit "/" ++ f) w)) as (H1 & H2 & H3 & H4).
  split; [done|]. split; [|split].
  - intros g [->|Hg]%elem_of_cons Hdg; [|by apply H2]. apply H4. rewrite mem_view_remove. by rewrite decide_True.
  - intros g Hg. rewrite H3 by (intros d Hd1; apply Hg; by right). rewrite mem_view_remove. rewrite decide_False; [done|]. intros <-. by apply (Hg f); [left| |].
  - intros g Hg. apply H4. rewrite mem_view_remove. by case_decide.
Qed.


End Destroy.

(** ** Examples *)

(** What the two edits of [sample_history] leave behind, with and without the
    table of the last version. *)
Definition sample_left (c : bytes) : MemFS := mem_set (lit "/db/MANIFEST-000000") (take 500 c) sample_two.2.
Definition sample_tables (c : bytes) : MemFS := mem_set (lit "/db/000006.ldb") (lit "t") (sample_left c).

Definition all_children (P : option (Z * FileType) -> bool) (w : MemFS) : bool := forallb (fun f => P (ParseFileName f)) (GetChildren MemDir (lit "/db") (locked (lit "/db") w)).2.

Lemma all_children_elem P w f : all_children P w = true -> f ∈ (GetChildren MemDir (lit "/db") (locked (lit "/db") w)).2 -> P (ParseFileName f) = true.
Proof. intros Hall Hf. unfold all_children in Hall. rewrite forallb_forall in Hall. apply Hall. by apply list_elem_of_In. Qed.

Lemma no_logs_empty w : all_children (fun p => match p with Some (_, kLogFile) => false | _ => true end) w = true -> logs_empty (lit "/db") (locked (lit "/db") w).
Proof. intros Hall f n Hf Hp. pose proof (all_children_elem _ _ f Hall Hf) as Hc. cbv beta in Hc. by rewrite Hp in Hc. Qed.

Lemma sample_left_behind c : left_behind (lit "/db") sample_two.1 sample_two.2 c 500 (sample_left c) /\ left_behind (lit "/db") sample_two.1 sample_two.2 c 500 (sample_tables c).
Proof. split; (split; [vm_compute; reflexivity|vm_compute; reflexivity|apply no_logs_empty; vm_compute; reflexivity]). Qed.

(** All three records of the MANIFEST are complete. *)
Lemma sample_records (w : Writer bytes) : write_all (map encode (take 2 [snapshot_edit BytewiseComparator (opening first_edit new_VersionSet);
   complete_edit first_edit new_VersionSet; complete_edit second_edit sample_one.1])) = Some w -> (length (dest_ w) <= 500)%nat.
Proof. intros E. vm_compute in E. injection E as <-. cbn. lia. Qed.

Lemma sample_all_records : exists w, write_all (map encode (take 3 [snapshot_edit BytewiseComparator (opening first_edit new_VersionSet);
   complete_edit first_edit new_VersionSet; complete_edit second_edit sample_one.1])) = Some w /\ (length (dest_ w) <= 500)%nat.
Proof. eexists. split; [vm_compute; reflexivity|]. cbn. lia. Qed.

Lemma sample_version j v : [new_Version; vs_current sample_one.1; vs_current sample_two.1] !! j = Some v -> (3 <= S j)%nat -> v = vs_current sample_two.1.
Proof. destruct j as [|[|[|j]]]; [lia|lia| |done]. by intros [= <-]. Qed.

Lemma sample_present c : table_listed (lit "/db") (locked (lit "/db") (sample_tables c)) 6.
Proof. exists (lit "000006.ldb"), kTableFile. split; [|reflexivity]. apply (mem_child (lit "/db")). exists (lit "t"). vm_compute. reflexivity. Qed.

Lemma sample_absent c : ~ table_listed (lit "/db") (locked (lit "/db") (sample_left c)) 6.
Proof.
  intros (f & t & Hf & Hp). assert (Hall : all_children (fun p => match p with Some (n, _) => negb (n =? 6) | None => true end) (sample_left c) = true) by (vm_compute; reflexivity).
  pose proof (all_children_elem _ _ f Hall Hf) as Hc. cbv beta in Hc. by rewrite Hp in Hc.
Qed.


(** A directory with one foreign file, then a database beside it. *)
Definition creating : Options := mkOptions BytewiseComparator true false false (Z.shiftl 4 20) 2000 4096 16 (Z.shiftl 2 20) (opt_compression new_Options) false None.
Definition foreign : MemFS := [(lit "/db/notes", lit "n"); (lit "/home", lit "h")].



