(* ===== verification/Repair.v ===== *)
(** * Repair: db/repair.cpp

    [RepairDB] saves what is left of a damaged directory: it turns the logs into
    tables, scans every table for its key range and its largest sequence number,
    and writes a MANIFEST with all of them in level 0. The source opens the logs,
    the copies and the new MANIFEST as protected files ([NewSequentialFile],
    [NewWritableFile]) and everything else as plain ones; [prot] and
    [prot_files] are the environment of the protected files. *)

From S2P Require Import Prelude Coding Logging Status Comparator Dbformat MemTable WriteBatch Env Filename VersionEdit Merkle Log Version VersionSet Recovery Iterator World Block Format TableBuilder Cache Table TableCache TableIter Snapshot DB Store DBFlush DBOpen Reopen.

Record TableInfo := mkTableInfo { ti_meta : FileMetaData; ti_max_sequence : Z }.

Record Repairer := mkRepairer {
  manifests_ : list bytes;
  table_numbers_ : list Z;
  logs_ : list Z;
  tables_ : list TableInfo;
  rp_next_file_number : Z
}.

Definition new_Repairer : Repairer := mkRepairer [] [] [] [] 1.

Definition set_files (manifests : list bytes) (tables logs : list Z) (next : Z) (r : Repairer) : Repairer := mkRepairer manifests tables logs (tables_ r) next.
Definition push_table_number (n : Z) (r : Repairer) : Repairer := mkRepairer (manifests_ r) (table_numbers_ r ++ [n]) (logs_ r) (tables_ r) (rp_next_file_number r).
Definition push_table (t : TableInfo) (r : Repairer) : Repairer := mkRepairer (manifests_ r) (table_numbers_ r) (logs_ r) (tables_ r ++ [t]) (rp_next_file_number r).
Definition take_number (r : Repairer) : Z * Repairer :=
  (rp_next_file_number r, mkRepairer (manifests_ r) (table_numbers_ r) (logs_ r) (tables_ r) (u64 (rp_next_file_number r + 1))).

(** ** Names in the directory of lost files *)

(** A C string, and the part behind its last slash with what is before it. *)
Fixpoint c_str (s : bytes) : bytes :=
  match s with
  | [] => []
  | c :: s => if bool_decide (c = x00) then [] else c :: c_str s
  end.

Fixpoint split_slash (s : bytes) : option (bytes * bytes) :=
  match s with
  | [] => None
  | c :: s =>
      match split_slash s with
      | Some (dir, file) => Some (c :: dir, file)
      | None => if bool_decide (c = x2f) then Some ([], s) else None
      end
  end.

Definition lost_dir (fname : bytes) : bytes := match split_slash (c_str fname) with Some (dir, _) => dir | None => [] end ++ lit "/lost".
Definition lost_file (fname : bytes) : bytes :=
  lost_dir fname ++ lit "/" ++ match split_slash (c_str fname) with Some (_, file) => file | None => c_str fname end.

Section Repair.
Context {W F C H CT HT : Type} (sys : System W F C H CT HT) (raw : Options) (dbname : bytes) (h : nat).
Context (base : nat -> Z) (fuel : nat) (prot : Env W) (prot_files : ReadEnv W F).

Abbreviation D := (Disk W C CT).
Abbreviation R := (D * Repairer)%type.
Abbreviation env := (sys_env sys).
Abbreviation ucmp := (opt_comparator raw).
Abbreviation options := (SanitizeOptions raw).
Abbreviation topts := (table_options options).

Definition ArchiveFile (fname : bytes) (w : W) : W :=
  (env_RenameFile env fname (lost_file fname) (CreateDir (sys_dir sys) (lost_dir fname) w).2).2.

(** ** Finding the files *)

Definition find_file (f : bytes) (r : Repairer) : Repairer :=
  match ParseFileName f with
  | None => r
  | Some (_, kDescriptorFile) => set_files (manifests_ r ++ [f]) (table_numbers_ r) (logs_ r) (rp_next_file_number r) r
  | Some (number, type) =>
      let next := if rp_next_file_number r <? u64 (number + 1) then u64 (number + 1) else rp_next_file_number r in
      match type with
      | kLogFile => set_files (manifests_ r) (table_numbers_ r) (logs_ r ++ [number]) next r
      | kTableFile => set_files (manifests_ r) (table_numbers_ r ++ [number]) (logs_ r) next r
      | _ => set_files (manifests_ r) (table_numbers_ r) (logs_ r) next r
      end
  end.

Definition FindFiles : M R Status := fun st =>
  let '(status, filenames) := GetChildren (sys_dir sys) dbname st.1.1 in
  if negb (ok status) then Some (status, st)
  else match filenames with
       | [] => Some (IOError dbname (lit "repair found no files"), st)
       | _ => Some (status, (st.1, fold_left (fun r f => find_file f r) filenames st.2))
       end.

(** ** Logs to tables *)

(** The reports of the reader are only printed. *)
Fixpoint convert_records (fuel : nat) (reader : Reader F) (mem : MemTable) : option MemTable :=
  match fuel with
  | O => None
  | S fuel' =>
      o ← ReadRecord (env_sequential prot_files) fuel reader;
      let '(record, reader) := o in
      match record with
      | None => Some mem
      | Some record =>
          if zlen record <? 12 then convert_records fuel' reader mem
          else
            r ← InsertInto ucmp base (SetContents [] record) mem;
            mem ← r.1;
            convert_records fuel' reader mem
      end
  end.

Definition ConvertLogToTable (log : Z) : M R Status :=
  g ← on_first get_state;
  let '(status, lfile) := NewSequentialFile prot_files (LogFileName dbname log) g.1 in
  if negb (ok status) then mret status
  else
    mem ← lift (convert_records fuel (new_Reader lfile false 0) (new_MemTable base));
    r ← on_second get_state;
    let '(number, r) := take_number r in
    _ ← on_second (put_state r);
    entries ← lift (mem_contents ucmp mem);
    b ← on_first (BuildTable sys raw dbname h entries (new_file number 0 [] []));
    let '(status, meta) := b in
    _ ← (if ok status && (0 <? file_size meta) then on_second (modify (push_table_number number)) else mret ());
    mret status.

Fixpoint convert_logs (logs : list Z) : M R unit :=
  match logs with
  | [] => mret ()
  | log :: logs =>
      _ ← ConvertLogToTable log;
      _ ← on_first (io (fun w => ((), ArchiveFile (LogFileName dbname log) w)));
      convert_logs logs
  end.

Definition ConvertLogFilesToTables : M R unit :=
  r ← on_second get_state;
  convert_logs (logs_ r).

(** ** Scanning the tables *)

Abbreviation TableState := ((Status * unit) + TwoLevel.TwoLevelIterator ((Status + BlockIter) * unit) ((Status + BlockIter) * option H) (TableArg (HT := HT)))%type.

Definition repair_options : ReadOptions := mkReadOptions (opt_paranoid_checks options) true.

(** [NewTableIterator] and its methods. *)
Definition RepairIterator : IteratorM D TableState :=
  let it := AnyTableIterator (sys_snappy sys) (sys_blocks sys) (sys_tables sys) topts repair_options fuel in
  AtWorld (fun _ => it) it.

Definition NewTableIterator (meta : FileMetaData) : M D TableState := table_iterator sys raw dbname (number meta) (file_size meta).

(** One key of the table; [empty] until a key could be parsed. *)
Definition scan_key (key : bytes) (acc : bool * TableInfo) : bool * TableInfo :=
  let '(empty, t) := acc in
  match ParseInternalKey key with
  | None => acc
  | Some parsed =>
      let m := ti_meta t in
      (false, mkTableInfo (set_meta m (file_size m) (if empty then key else smallest m) key (rh m))
                (if ti_max_sequence t <? sequence parsed then sequence parsed else ti_max_sequence t))
  end.

Fixpoint scan_keys (steps : nat) (it : TableState) (acc : bool * TableInfo) : M D (TableState * TableInfo) :=
  match steps with
  | O => lift None
  | S steps =>
      if im_Valid RepairIterator it then
        key ← lift (im_key RepairIterator it);
        it ← im_Next RepairIterator it;
        scan_keys steps it (scan_key key acc)
      else mret (it, acc.2)
  end.

(** Copy what can be read: the number of entries, and the builder. *)
Fixpoint copy_entries (copy : bytes) (steps : nat) (it : TableState) (b : TableRep W) (counter : Z) : M D (TableState * TableRep W * Z) :=
  match steps with
  | O => lift None
  | S steps =>
      if im_Valid RepairIterator it then
        key ← lift (im_key RepairIterator it);
        value ← lift (im_value RepairIterator it);
        b ← builder_Add prot (sys_snappy sys) copy key value b;
        it ← im_Next RepairIterator it;
        copy_entries copy steps it b (counter + 1)
      else mret (it, b, counter)
  end.

Definition finish_copy (copy : bytes) (counter : Z) (b : TableRep W) (s : Status) (t : TableInfo) : M D (Status * TableInfo) :=
  if counter =? 0 then
    g ← get_state;
    _ ← lift (Abandon (on_world g.1 b));
    mret (s, t)
  else
    f ← builder_Finish prot (sys_snappy sys) copy b;
    let '(s, b) := f in
    let m := ti_meta t in
    mret (s, if ok s then mkTableInfo (set_meta m (FileSize b) (smallest m) (largest m) (rh m)) (ti_max_sequence t) else t).

Definition RepairTable (src : bytes) (t : TableInfo) : M R unit :=
  r ← on_second get_state;
  let '(n, r) := take_number r in
  _ ← on_second (put_state r);
  let copy := TableFileName dbname n in
  s ← on_first (io (NewWritableFile prot copy));
  if negb (ok s) then mret ()
  else
    b ← on_first (builder_new topts);
    it ← on_first (NewTableIterator (ti_meta t));
    it ← on_first (im_SeekToFirst RepairIterator it);
    c ← on_first (copy_entries copy fuel it b 0);
    let '(it, b, counter) := c in
    _ ← on_first (im_delete RepairIterator it);
    _ ← on_first (io (fun w => ((), ArchiveFile src w)));
    f ← on_first (finish_copy copy counter b s t);
    let '(s, t) := f in
    s ← on_first (when_ok s (io (file_Close prot copy)));
    s ← (if (0 <? counter) && ok s then
           s ← on_first (io (env_RenameFile env copy (TableFileName dbname (number (ti_meta t)))));
           _ ← (if ok s then on_second (modify (push_table t)) else mret ());
           mret s
         else mret s);
    if ok s then mret () else _ ← on_first (io (env_DeleteFile env copy)); mret ().

(** The file of a table under either name: status, name, size. *)
Definition table_size (number : Z) (w : W) : Status * bytes * Z :=
  let '(status, size) := env_GetFileSize env (TableFileName dbname number) w in
  if ok status then (status, TableFileName dbname number, size)
  else
    let '(s2, size) := env_GetFileSize env (SSTTableFileName dbname number) w in
    (if ok s2 then Status_OK else status, SSTTableFileName dbname number, size).

Definition ScanTable (number : Z) : M R unit :=
  g ← on_first get_state;
  let '(status, fname, size) := table_size number g.1 in
  if negb (ok status) then
    on_first (io (fun w => ((), ArchiveFile (SSTTableFileName dbname number) (ArchiveFile (TableFileName dbname number) w))))
  else
    it ← on_first (NewTableIterator (new_file number size [] []));
    it ← on_first (im_SeekToFirst RepairIterator it);
    k ← on_first (scan_keys fuel it (true, mkTableInfo (new_file number size [] []) 0));
    let '(it, t) := k in
    let status := im_status RepairIterator it in
    _ ← on_first (im_delete RepairIterator it);
    if ok status then on_second (modify (push_table t)) else RepairTable fname t.

Fixpoint scan_tables (numbers : list Z) : M R unit :=
  match numbers with
  | [] => mret ()
  | n :: numbers => _ ← ScanTable n; scan_tables numbers
  end.

Definition ExtractMetaData : M R unit :=
  r ← on_second get_state;
  scan_tables (table_numbers_ r).

(** ** The new MANIFEST *)

Definition add_table (edit : VersionEdit) (t : TableInfo) : VersionEdit :=
  let m := ti_meta t in AddFile 0 (number m) (file_size m) (smallest m) (largest m) edit.

Definition max_sequence_of (tables : list TableInfo) : Z :=
  fold_left (fun s t => if s <? ti_max_sequence t then ti_max_sequence t else s) tables 0.

Definition repair_edit (r : Repairer) : VersionEdit :=
  fold_left add_table (tables_ r)
    (SetLastSequence (max_sequence_of (tables_ r)) (SetNextFile (rp_next_file_number r) (SetLogNumber 0 (SetComparatorName (cmp_Name ucmp) new_VersionEdit)))).

(** [InternalKey::Encode] asserts that there is a key. *)
Definition has_keys (t : TableInfo) : bool := negb (bool_decide (smallest (ti_meta t) = [])) && negb (bool_decide (largest (ti_meta t) = [])).

Definition WriteDescriptor (r : Repairer) (w : W) : option (Status * W) :=
  let tmp := TempFileName dbname 1 in
  let '(status, w) := NewWritableFile prot tmp w in
  if negb (ok status) then Some (status, w)
  else
    _ ← (if forallb has_keys (tables_ r) then Some () else None);
    a ← AddRecord (Env_writable prot tmp) (EncodeTo (repair_edit r) []) (new_Writer w);
    let '(status, w) := (a.1, dest_ a.2) in
    let '(status, w) := if ok status then file_Close prot tmp w else (status, w) in
    if negb (ok status) then Some (status, (env_DeleteFile env tmp w).2)
    else
      let w := fold_left (fun w m => ArchiveFile (dbname ++ lit "/" ++ m) w) (manifests_ r) w in
      let '(status, w) := env_RenameFile env tmp (DescriptorFileName dbname 1) w in
      if ok status then Some (SetCurrentFile env dbname 1 w)
      else Some (status, (env_DeleteFile env tmp w).2).

Definition Run : M R Status :=
  status ← FindFiles;
  if ok status then
    _ ← ConvertLogFilesToTables;
    _ ← ExtractMetaData;
    r ← on_second get_state;
    on_first (io_opt (WriteDescriptor r))
  else mret status.

Definition RepairDB : M D Status := fun d => match Run (d, new_Repairer) with Some (s, (d, _)) => Some (s, d) | None => None end.

End Repair.

(** ** Lost files *)

Lemma c_str_id s : Forall (fun c => c <> x00) s -> c_str s = s.
Proof. induction 1 as [|c s Hc Hs IH]; [done|]. cbn [c_str]. by rewrite bool_decide_false, IH. Qed.

Lemma split_slash_none s : Forall (fun c => c <> x2f) s -> split_slash s = None.
Proof. induction 1 as [|c s Hc Hs IH]; [done|]. cbn [split_slash]. by rewrite IH, bool_decide_false. Qed.

Lemma split_slash_app a b : Forall (fun c => c <> x2f) b -> split_slash (a ++ lit "/" ++ b) = Some (a, b).
Proof.
  intros Hb. induction a as [|c a IH]; [|cbn [split_slash app]; by rewrite IH]. cbn [app split_slash]. change (lit "/" ++ b) with (x2f :: b).
  cbn [split_slash]. by rewrite split_slash_none.
Qed.

(** A plain name is one without slashes or zero bytes. *)
Definition plain_name (c : bytes) : Prop := Forall (fun c => c <> x2f) c /\ Forall (fun c => c <> x00) c.

Lemma lost_file_child dbname c : Forall (fun c => c <> x00) dbname -> plain_name c -> lost_file (dbname ++ lit "/" ++ c) = dbname ++ lit "/" ++ lit "lost/" ++ c.
Proof.
  intros Hd [Hs Hn]. unfold lost_file, lost_dir. rewrite c_str_id by (rewrite !Forall_app; split; [done|]; split; [by repeat constructor|done]).
  rewrite split_slash_app by done. change (lit "/lost") with (lit "/" ++ lit "lost"). change (lit "lost/") with (lit "lost" ++ lit "/"). by rewrite <- !app_assoc.
Qed.

Lemma Parse_lost c : ParseFileName (lit "lost/" ++ c) = None.
Proof.
  unfold ParseFileName. change (lit "lost/" ++ c) with (x6c :: (lit "ost/" ++ c)). set (r := lit "ost/" ++ c). clearbody r.
  assert (Hne : forall d s, d <> x6c -> Slice_eqb (x6c :: r) (d :: s) = false) by (intros d s Hd; destruct (Slice_eqb _ _) eqn:E; [|done]; apply Slice_eqb_eq in E; congruence).
  change (lit "CURRENT") with (x43 :: lit "URRENT"). change (lit "LOCK") with (x4c :: lit "OCK"). change (lit "LOG") with (x4c :: lit "OG").
  change (lit "LOG.old") with (x4c :: lit "OG.old"). rewrite !Hne by done. cbn [orb].
  destruct (starts_with _ _) eqn:E; [apply starts_with_spec in E as [q E]; discriminate E|]. done.
Qed.

Lemma plain_manifest n : 0 <= n -> plain_name (lit "MANIFEST-" ++ decimal06 n).
Proof.
  intros Hn. assert (Hd : forall x, is_digit x = false -> Forall (fun c => c <> x) (decimal06 n)).
  { intros x Hx. unfold decimal06, NumberToString, AppendNumberTo. rewrite app_nil_l. apply Forall_app. split.
    - apply Forall_forall. intros c Hc%list_elem_of_In%repeat_spec ->. by subst x.
    - eapply Forall_impl; [by apply decimal_digits|]. intros c Hc ->. congruence. }
  split; apply Forall_app; (split; [by repeat constructor|by apply Hd]).
Qed.

(** ** The repaired database *)

Section Repaired.
Context {C H CT HT : Type} (sys : System MemFS bytes C H CT HT) (raw : Options) (dbname : bytes) (h : nat) (base : nat -> Z).
Context (Henv : sys_env sys = MemEnv) (Hfiles : sys_files sys = MemReadEnv) (Hdir : sys_dir sys = MemDir) `{!TotalCmp (Compare (opt_comparator raw))}.
Context (tcinv : CT -> gmap bytes Table -> list (HT * Table) -> Z -> Prop) `{!CacheLaws (sys_tables sys) tcinv}.
Context (Hreuse : opt_reuse_logs raw = false) (Hexists : opt_error_if_exists raw = false) (Hname : Forall (fun c => c <> x00) dbname).

Abbreviation ucmp := (opt_comparator raw).

(** A file that moving MANIFESTs away leaves alone. *)
Definition not_moved (f : bytes) : Prop :=
  forall c, f = dbname ++ lit "/" ++ c -> match ParseFileName c with Some (_, kDescriptorFile) | None => False | _ => True end.

Lemma archive_frame n w f : fits 64 n -> not_moved f -> mem_view (ArchiveFile sys (dbname ++ lit "/" ++ lit "MANIFEST-" ++ decimal06 n) w) f = mem_view w f.
Proof.
  intros Hn Hf. unfold ArchiveFile. rewrite Henv, Hdir. cbn [CreateDir MemDir snd]. pose proof Hn as Hn'. unfold fits in Hn'.
  rewrite lost_file_child by (try done; apply plain_manifest; lia). cbn [env_RenameFile MemEnv]. destruct (mem_view w _); [|done]. cbn [snd]. rewrite mem_view_set, decide_False.
  - rewrite mem_view_remove, decide_False; [done|]. intros E. specialize (Hf _ (eq_sym E)). by rewrite Parse_manifest in Hf.
  - intros E. specialize (Hf _ (eq_sym E)). by rewrite Parse_lost in Hf.
Qed.

Lemma archive_all_frame ns : Forall (fits 64) ns -> forall w f, not_moved f ->
  mem_view (fold_left (fun w m => ArchiveFile sys (dbname ++ lit "/" ++ m) w) (map (fun n => lit "MANIFEST-" ++ decimal06 n) ns) w) f = mem_view w f.
Proof. induction 1 as [|n ns Hn _ IH]; intros w f Hf; [done|]. cbn [map fold_left]. by rewrite IH, archive_frame. Qed.

Lemma not_moved_child c n t : ParseFileName c = Some (n, t) -> t <> kDescriptorFile -> not_moved (dbname ++ lit "/" ++ c).
Proof. intros Hp Ht d E. apply app_inv_head, app_inv_head in E as <-. rewrite Hp. by destruct t. Qed.

(** The new MANIFEST and CURRENT; logs and tables are as before. *)
Lemma WriteDescriptor_mem r w ns : manifests_ r = map (fun n => lit "MANIFEST-" ++ decimal06 n) ns -> Forall (fits 64) ns -> forallb has_keys (tables_ r) = true ->
  exists w' wr, WriteDescriptor sys raw dbname MemEnv r w = Some (Status_OK, w') /\ write_all [encode (repair_edit raw r)] = Some wr /\
    mem_view w' (DescriptorFileName dbname 1) = Some (dest_ wr) /\ mem_view w' (CurrentFileName dbname) = Some (current_contents 1) /\
    forall c n t, ParseFileName c = Some (n, t) -> t = kLogFile \/ t = kTableFile -> mem_view w' (dbname ++ lit "/" ++ c) = mem_view w (dbname ++ lit "/" ++ c).
Proof.
  intros Hm Hns Hk. set (tmp := TempFileName dbname 1). set (e := repair_edit raw r). assert (F1 : fits 64 1) by (unfold fits; lia).
  destruct (write_all_snoc [] (encode e) (new_Writer []) eq_refl) as ([c' off'] & Ha & Hw).
  destruct (AddRecord_file tmp (encode e) 0 (mem_set tmp [] w) [] c' off' Status_OK) as (w1 & E & Hv & Ho); [rewrite mem_view_set; by rewrite decide_True|exact Ha|].
  set (w2 := fold_left (fun w m => ArchiveFile sys (dbname ++ lit "/" ++ m) w) (manifests_ r) w1).
  assert (Htmp : not_moved tmp) by (by apply (not_moved_child _ 1 kTempFile); [apply Parse_temp|]).
  assert (H2 : forall f, not_moved f -> mem_view w2 f = mem_view w1 f) by (intros f Hf; unfold w2; rewrite Hm; by apply archive_all_frame).
  set (w3 := mem_set (DescriptorFileName dbname 1) c' (mem_remove tmp w2)).
  pose proof (SetCurrentFile_mem dbname 1 w3) as Hs. destruct (SetCurrentFile_spec MemEnv mem_view dbname 1 w3 ltac:(lia)) as [Hc Hf]. rewrite Hs in Hc. cbn [ok Status_OK] in Hc.
  exists (SetCurrentFile MemEnv dbname 1 w3).2, (mkWriter c' off'). split; [|split; [exact Hw|split; [|split; [exact Hc|]]]].
  - unfold WriteDescriptor. cbn [NewWritableFile MemEnv ok Status_OK negb]. rewrite Hk. cbn [mbind option_bind]. unfold encode in E. unfold new_Writer. fold tmp e. rewrite E. cbn [mbind option_bind fst snd dest_ ok Status_OK file_Close MemEnv negb].
    fold w2. rewrite Henv. cbn [env_RenameFile MemEnv]. rewrite H2, Hv by done. cbn [ok Status_OK]. fold w3. by destruct (SetCurrentFile MemEnv dbname 1 w3); cbn in Hs; subst.
  - rewrite Hf; [unfold w3; rewrite mem_view_set; by rewrite decide_True|apply Descriptor_not_current|by apply Descriptor_not_temp].
  - intros c n t Hp Ht. assert (Hd : forall d m u, ParseFileName d = Some (m, u) -> u <> kLogFile -> u <> kTableFile -> dbname ++ lit "/" ++ c <> dbname ++ lit "/" ++ d).
    { intros d m u Hpd U1 U2. apply (child_differs _ _ _ _ _ Hp Hpd). intros [= _ ->]. by destruct Ht. }
    pose proof (Hd (lit "CURRENT") 0 kCurrentFile eq_refl ltac:(done) ltac:(done)) as D1. pose proof (Hd _ 1 kTempFile (Parse_temp 1 F1) ltac:(done) ltac:(done)) as D2.
    pose proof (Hd (lit "MANIFEST-" ++ decimal06 1) 1 kDescriptorFile (Parse_manifest 1 F1) ltac:(done) ltac:(done)) as D3.
    rewrite Hf by done. unfold w3. rewrite mem_view_set, decide_False by exact (not_eq_sym D3). rewrite mem_view_remove, decide_False by exact (not_eq_sym D2).
    rewrite H2 by (apply (not_moved_child _ n t); [done|by destruct Ht; subst]). rewrite Ho by done. rewrite mem_view_set. by rewrite decide_False by exact (not_eq_sym D2).
Qed.

Definition table_file (t : TableInfo) : FileMetaData := strip (ti_meta t).

Lemma repair_edit_eq r : repair_edit raw r =
  mkEdit (cmp_Name ucmp) 0 0 (rp_next_file_number r) (max_sequence_of (tables_ r)) true true false true true [] [] (map (fun t => (0, table_file t)) (tables_ r)).
Proof.
  unfold repair_edit. generalize (max_sequence_of (tables_ r)). intros seq.
  assert (Hfold : forall ts e, fold_left add_table ts e = mkEdit (comparator_ e) (log_number_ e) (prev_log_number_ e) (next_file_number_ e) (last_sequence_ e)
    (has_comparator_ e) (has_log_number_ e) (has_prev_log_number_ e) (has_next_file_number_ e) (has_last_sequence_ e) (compact_pointers_ e) (deleted_files_ e)
    (new_files_ e ++ map (fun t => (0, table_file t)) ts)).
  { induction ts as [|t ts IH]; intros e; [cbn; rewrite app_nil_r; by destruct e|]. cbn [fold_left map]. rewrite IH. cbn. by rewrite <- app_assoc. }
  by rewrite Hfold.
Qed.

Lemma news_at_level0 (fs : list FileMetaData) level : map snd (List.filter (fun d : Z * FileMetaData => (Z.to_nat d.1 =? level)%nat) (map (fun f => (0, f)) fs)) = if (level =? 0)%nat then fs else [].
Proof. destruct level as [|level]; induction fs as [|f fs IH]; cbn [map List.filter fst]; change (Z.to_nat 0) with 0%nat; cbn [Nat.eqb map snd]; [done|f_equal; exact IH|done|exact IH]. Qed.

Lemma repair_news r level : news_at (repair_edit raw r) level = (if (level =? 0)%nat then map table_file (tables_ r) else []) /\ dels_at (repair_edit raw r) level = [].
Proof. rewrite repair_edit_eq. unfold news_at, dels_at. cbn [new_files_ deleted_files_]. split; [|done]. rewrite <- news_at_level0. by rewrite map_map. Qed.

(** What [ScanTable] and the numbering of files make sure of. *)
Record repairable (r : Repairer) : Prop := {
  ra_keys : forallb has_keys (tables_ r) = true;
  ra_numbers : NoDup (map (fun t => number (ti_meta t)) (tables_ r));
  ra_files : Forall (fun t => encodable_file (ti_meta t) /\ fits 64 (ti_max_sequence t)) (tables_ r);
  ra_next : 0 <= rp_next_file_number r < 2 ^ 63
}.

Lemma max_sequence_fits ts : Forall (fun t => fits 64 (ti_max_sequence t)) ts -> fits 64 (max_sequence_of ts) /\ forall t, t ∈ ts -> ti_max_sequence t <= max_sequence_of ts.
Proof.
  unfold max_sequence_of. assert (Hf : forall ts s, Forall (fun t => fits 64 (ti_max_sequence t)) ts -> fits 64 s ->
    let m := fold_left (fun s t => if s <? ti_max_sequence t then ti_max_sequence t else s) ts s in fits 64 m /\ s <= m /\ forall t, t ∈ ts -> ti_max_sequence t <= m).
  { clear ts. intros ts. induction ts as [|t ts IH]; intros s Hts Hs; [split; [done|]; split; [cbn; lia|]; by intros t ?%elem_of_nil|]. inversion Hts as [|? ? Ht Hts']; subst. cbn [fold_left].
    destruct (IH (if s <? ti_max_sequence t then ti_max_sequence t else s) Hts') as (H1 & H2 & H3); [by destruct (_ <? _)|]. split; [done|].
    destruct (Z.ltb_spec s (ti_max_sequence t)); (split; [lia|]; intros x [->|Hx]%elem_of_cons; [lia|by apply H3]). }
  intros Hts. destruct (Hf ts 0 Hts) as (H1 & _ & H3); [unfold fits; lia|by split].
Qed.

Lemma repair_edit_loggable r : repairable r -> zlen (cmp_Name ucmp) < 2 ^ 32 -> loggable ucmp (repair_edit raw r).
Proof.
  intros [_ _ Hf Hn] Hl. rewrite repair_edit_eq. split; [|done]. assert (Hm : fits 64 (max_sequence_of (tables_ r))) by (apply max_sequence_fits; eapply Forall_impl; [exact Hf|]; by intros t [_ ?]).
  split; try done; [|constructor]. unfold items. cbn [has_comparator_ has_log_number_ has_prev_log_number_ has_next_file_number_ has_last_sequence_ comparator_ log_number_ next_file_number_ last_sequence_ compact_pointers_ deleted_files_ new_files_ map app].
  repeat (apply Forall_cons; split); [exact Hl|unfold item_ok, fits; lia|unfold item_ok, fits; lia|exact Hm|]. rewrite map_map. apply Forall_fmap. eapply Forall_impl; [exact Hf|]. intros t [Ht _]. split; [cbn; unfold valid_level, kNumLevels; lia|exact Ht].
Qed.

Lemma repair_version r : repairable r -> exists v, SaveTo ucmp (Apply ucmp (repair_edit raw r) (new_Builder [] new_Version)) new_Version = Some v /\
  version_sorted ucmp v /\ level_files v 0 ≡ₚ map with_seeks (map table_file (tables_ r)) /\ forall level, (0 < level < kNumLevels)%nat -> level_files v level = [].
Proof.
  intros [_ Hnd _ _]. set (fs := map table_file (tables_ r)). assert (Hnum : NoDup (map number fs)) by (unfold fs; rewrite map_map; exact Hnd).
  pose proof (insert_all_perm ucmp fs [] Hnum ltac:(set_solver)) as Hp. rewrite app_nil_r in Hp.
  assert (Hnew : version_sorted ucmp new_Version) by (intros level Hl; rewrite new_Version_level; split; [constructor|by right]).
  assert (Hfresh : fresh_edit (repair_edit raw r) (numbers_at new_Version)).
  { intros level Hl. destruct (repair_news r level) as [-> _]. unfold numbers_at. rewrite new_Version_level. split; [destruct (level =? 0)%nat; [done|constructor]|]. intros f _. apply not_elem_of_nil. }
  destruct (SaveTo_edited ucmp (repair_edit raw r) [] new_Version (fun level => if (level =? 0)%nat then insert_all ucmp fs [] else []) Hnew Hfresh) as (v & Hs & Hv).
  { intros level Hl. unfold edited_level. destruct (repair_news r level) as [-> ->]. rewrite new_Version_level. destruct (Nat.eqb_spec level 0) as [->|Hne].
    - split; [|by left]. split; [apply insert_all_sorted; [done|constructor]|]. intros f. rewrite Hp. fold fs. split; [by right|]. by intros [[?%elem_of_nil _]|?].
    - split; [|by right]. split; [constructor|]. intros f. cbn. split; [by intros ?%elem_of_nil|]. by intros [[?%elem_of_nil _]|?%elem_of_nil]. }
  exists v. split; [done|]. split; [by eapply (Apply_SaveTo ucmp _ _ _ _ Hnew Hfresh)|]. split; [rewrite Hv by (unfold kNumLevels; lia); cbn; by rewrite Hp|].
  intros level Hl. rewrite Hv by lia. by destruct level; [lia|].
Qed.

Lemma repair_numbers v ts n : level_files v 0 ≡ₚ map with_seeks (map table_file ts) -> (forall level, (0 < level < kNumLevels)%nat -> level_files v level = []) ->
  n ∈ version_numbers v <-> exists t, t ∈ ts /\ n = number (ti_meta t).
Proof.
  intros H0 Hl. split; [intros Hn|intros (t & Ht & ->)].
  2: { unfold version_numbers. cbn [kNumLevels seq map concat]. apply elem_of_app. left. apply list_elem_of_fmap. exists (with_seeks (table_file t)). split; [done|]. rewrite H0. by do 2 apply list_elem_of_fmap_2. }
  unfold version_numbers in Hn. apply list_elem_of_In, in_concat in Hn as (l & (level & <- & Hs%in_seq)%in_map_iff & Hn%list_elem_of_In). destruct level as [|level].
  - apply list_elem_of_fmap in Hn as (f & -> & Hf). rewrite H0 in Hf. apply list_elem_of_fmap in Hf as (g & -> & Hg). apply list_elem_of_fmap in Hg as (t & -> & Ht). by exists t.
  - rewrite Hl in Hn by lia. by apply elem_of_nil in Hn.
Qed.

(** Logs and tables of [w] are the same in [w'] once locked. *)
Lemma repaired_directory w w' : no_logs dbname w ->
  (forall c n t, ParseFileName c = Some (n, t) -> t = kLogFile \/ t = kTableFile -> mem_view w' (dbname ++ lit "/" ++ c) = mem_view w (dbname ++ lit "/" ++ c)) ->
  logs_empty dbname (locked dbname w') /\ forall n, fits 64 n -> is_Some (mem_view w (TableFileName dbname n)) -> table_listed dbname (locked dbname w') n.
Proof.
  intros Hno Hkeep. split.
  - intros f n Hf Hp. exfalso. apply children_view in Hf. unfold locked in Hf. rewrite mem_view_set in Hf. case_decide as E.
    + symmetry in E. by destruct (child_differs dbname f (lit "LOCK") _ (Some (0, kDBLockFile)) Hp eq_refl ltac:(done)).
    + apply (Hno f n); [|done]. apply mem_child. rewrite <- (Hkeep f n kLogFile) by (try done; by left). done.
  - intros n Hn Ht. exists (decimal06 n ++ lit "." ++ lit "ldb"), kTableFile. split; [|by apply Parse_table]. apply mem_child.
    destruct (locked_frame dbname w') as (_ & _ & Hl). pose proof (Hl n Hn) as Hl'. change (dbname ++ lit "/" ++ decimal06 n ++ lit "." ++ lit "ldb") with (TableFileName dbname n).
    rewrite Hl'. change (TableFileName dbname n) with (dbname ++ lit "/" ++ decimal06 n ++ lit "." ++ lit "ldb"). rewrite (Hkeep _ n kTableFile); [exact Ht|by apply Parse_table|by right].
Qed.


End Repaired.

(** ** The files found *)

Definition found_as (type : FileType) (fs : list bytes) (n : Z) : Prop := exists f, f ∈ fs /\ ParseFileName f = Some (n, type).

Lemma found_cons type f fs n : found_as type (f :: fs) n <-> ParseFileName f = Some (n, type) \/ found_as type fs n.
Proof.
  split.
  - intros (g & [->|Hg]%elem_of_cons & Hp); [by left|right; by exists g].
  - intros [Hp|(g & Hg & Hp)]; [exists f; split; [by left|done]|exists g; split; [by right|done]].
Qed.

(** [r'] is [r] with the files [fs]. *)
Record finds (fs : list bytes) (r r' : Repairer) : Prop := {
  fi_logs : forall n, n ∈ logs_ r' <-> n ∈ logs_ r \/ found_as kLogFile fs n;
  fi_tables : forall n, n ∈ table_numbers_ r' <-> n ∈ table_numbers_ r \/ found_as kTableFile fs n;
  fi_manifests : forall f, f ∈ manifests_ r' <-> f ∈ manifests_ r \/ f ∈ fs /\ exists n, ParseFileName f = Some (n, kDescriptorFile);
  fi_next : rp_next_file_number r <= rp_next_file_number r';
  fi_fresh : forall n t, found_as t fs n -> t <> kDescriptorFile -> n < rp_next_file_number r'
}.

Lemma find_file_spec f r : (forall n t, ParseFileName f = Some (n, t) -> fits 64 (n + 1)) -> finds [f] r (find_file f r).
Proof.
  intros Hn. unfold find_file. assert (Hone : forall t n, found_as t [f] n <-> ParseFileName f = Some (n, t)) by (intros t n; rewrite found_cons; split; [|by left]; intros [?|(g & ?%elem_of_nil & _)]; done).
  destruct (ParseFileName f) as [[n t]|] eqn:Ep.
  2: { split; intros *; rewrite ?Hone, ?list_elem_of_singleton, ?Ep; try lia; naive_solver. }
  specialize (Hn n t eq_refl). unfold fits in Hn. rewrite (u64_small (n + 1)) by lia. cbv zeta.
  assert (Hnext : forall next, next = (if rp_next_file_number r <? n + 1 then n + 1 else rp_next_file_number r) -> rp_next_file_number r <= next /\ n < next) by (intros next ->; destruct (Z.ltb_spec (rp_next_file_number r) (n + 1)); lia).
  destruct (Hnext _ eq_refl) as [N1 N2]. set (next := if _ <? _ then _ else _) in *. clearbody next.
  destruct t; (split; [..|cbn; lia|]; intros *; rewrite ?Hone, ?Ep; cbn [set_files logs_ table_numbers_ manifests_ rp_next_file_number]; rewrite ?elem_of_app, ?list_elem_of_singleton; naive_solver).
Qed.

Lemma finds_trans f fs r1 r2 r3 : finds [f] r1 r2 -> finds fs r2 r3 -> finds (f :: fs) r1 r3.
Proof.
  assert (Hone : forall t n, found_as t [f] n <-> ParseFileName f = Some (n, t)) by (intros t n; rewrite found_cons; split; [|by left]; intros [?|(g & ?%elem_of_nil & _)]; done).
  intros [A1 A2 A3 A4 A5] [B1 B2 B3 B4 B5]. split.
  - intros n. rewrite B1, A1, Hone, found_cons. naive_solver.
  - intros n. rewrite B2, A2, Hone, found_cons. naive_solver.
  - intros g. rewrite B3, A3, !elem_of_cons, elem_of_nil. naive_solver.
  - lia.
  - intros n t [Hp|Hf]%found_cons Ht; [|by eapply B5]. enough (n < rp_next_file_number r2) by lia. apply (A5 n t); [by apply Hone|done].
Qed.

(** C19. What [FindFiles] finds, on any file system: the logs, the tables and the
    MANIFESTs are those of the directory, nothing is touched, and the next file
    number is above that of every file but the MANIFESTs, so that no table or log
    is overwritten. *)
Theorem find_files_fresh {W F C H CT HT} (sys : System W F C H CT HT) dbname w (caches : Caches C CT) s fs :
  GetChildren (sys_dir sys) dbname w = (s, fs) -> ok s = true -> fs <> [] -> (forall f n t, f ∈ fs -> ParseFileName f = Some (n, t) -> fits 64 (n + 1)) ->
  exists r, FindFiles sys dbname ((w, caches), new_Repairer) = Some (s, ((w, caches), r)) /\ finds fs new_Repairer r.
Proof.
  intros E Hs Hne Hn. unfold FindFiles. cbn [fst snd]. rewrite E, Hs. cbn [negb]. exists (fold_left (fun r f => find_file f r) fs new_Repairer). split; [by destruct fs|].
  clear E Hne. generalize new_Repairer. induction fs as [|f fs IH]; intros r.
  - split; try (cbn; lia); intros *; cbn; unfold found_as; try (split; [by left|]; intros [?|(? & ?%elem_of_nil & _)]; done); [split; [by left|]; by intros [?|[?%elem_of_nil _]]|by intros (f & ?%elem_of_nil & _)].
  - cbn [fold_left]. eapply finds_trans; [apply find_file_spec; intros n t; apply Hn; by left|]. apply IH. intros g n t Hg. apply Hn. by right.
Qed.

(** ** Examples *)

(** A directory with nothing but a log: its batches end up in table 4, the log
    among the lost files, and the database opens with them. *)
Definition log_only : MemFS := match write_all (records_of sample_batches) with Some w => [(lit "/db/000003.log", dest_ w)] | None => [] end.

Definition repaired_store (d : Disk MemFS (list Block * Z) (list Table * Z)) : option (bool * list Z * Z * bool) :=
  s ← RepairDB MemSystem new_Options (lit "/db") 3 (fun _ => 0) 60 MemEnv MemReadEnv d;
  o ← DB_Open MemSystem new_Options (lit "/db") 3 (fun _ => 0) 80 s.2;
  db ← o.1.2;
  Some (ok s.1, version_numbers (vs_current (db_versions db)), vs_last_sequence (db_versions db), bool_decide (is_Some (mem_view o.2.1 (lit "/db/lost/000003.log")))).

Example repair_from_log : repaired_store (log_only, mkCaches None ([], 0)) = Some (true, [4], 3, true).
Proof. vm_compute. reflexivity. Qed.

Definition one_table : Repairer :=
  mkRepairer [lit "MANIFEST-000007"] [6] [] [mkTableInfo (new_file 6 900 (InternalKey (lit "a") 1 kTypeValue) (InternalKey (lit "c") 3 kTypeValue)) 3] 8.

Lemma one_table_repairable : repairable one_table.
Proof.
  split; [vm_compute; reflexivity|apply NoDup_singleton| |cbn; lia]. apply Forall_cons. split; [|constructor].
  vm_compute. repeat split; discriminate.
Qed.


Lemma find_files_fresh_witness : exists r, FindFiles MemSystem (lit "/db") ((log_only, mkCaches None ([], 0)), new_Repairer) = Some (Status_OK, ((log_only, mkCaches None ([], 0)), r)) /\
  logs_ r = [3] /\ 3 < rp_next_file_number r.
Proof.
  destruct (find_files_fresh MemSystem (lit "/db") log_only (mkCaches None ([], 0)) Status_OK [lit "000003.log"]) as (r & E & Hr).
  - vm_compute. reflexivity.
  - reflexivity.
  - discriminate.
  - intros f n t Hf Hp. apply list_elem_of_singleton in Hf as ->. vm_compute in Hp. injection Hp as <- <-. vm_compute. split; [discriminate|reflexivity].
  - exists r. split; [exact E|]. split; [vm_compute in E; by injection E as <-|]. apply (fi_fresh _ _ _ Hr 3 kLogFile); [|discriminate]. exists (lit "000003.log"). split; [by left|vm_compute; reflexivity].
Defined.
