(* ===== verification/Sizes.v ===== *)
(** * Approximate sizes of key ranges

    [GetApproximateSizes] (db/db_impl.cpp) and [ApproximateOffsetOf]
    (db/version_set.cpp): where a key would be if the files of a version were
    laid end to end. *)

From S2P Require Import Prelude Coding Status Comparator Dbformat MemTable Env Filename VersionEdit Version VersionSet Recovery Iterator MemIter World Block Format TableBuilder Cache Table TableCache TwoLevel TableIter Snapshot DB Store DBFlush.

Section Sizes.
Context {W F C H CT HT : Type} (sys : System W F C H CT HT) (raw : Options) (dbname : bytes) (others : M (Store W C CT) unit).

Abbreviation D := (Disk W C CT).
Abbreviation S := (Store W C CT).
Abbreviation ucmp := (opt_comparator raw).
Abbreviation icmp := (InternalKey_Compare ucmp).
Abbreviation TableState := ((Status * unit) + TwoLevelIterator ((Status + BlockIter) * unit) ((Status + BlockIter) * option H) (TableArg (HT := HT)))%type.

(** The [tableptr] of [NewIterator]: NULL if the table could not be opened. *)
Definition tableptr (it : TableState) : option Table := match it with inl _ => None | inr s => Some (ta_table (tl_arg s)) end.

Definition offset_in_table (f : FileMetaData) (ikey : bytes) : M D Z :=
  it ← table_iterator sys raw dbname (number f) (file_size f);
  offset ← lift (match tableptr it with Some t => Table_ApproximateOffsetOf t ikey | None => Some 0 end);
  _ ← delete_table_iter sys raw it;
  mret offset.

Fixpoint level_offset (level : nat) (ikey : bytes) (files : list FileMetaData) (result : Z) : M D Z :=
  match files with
  | [] => mret result
  | f :: files =>
      if negb (is_gt (icmp (largest f) ikey)) then level_offset level ikey files (u64 (result + file_size f))
      else if is_gt (icmp (smallest f) ikey) then
        if (0 <? level)%nat then mret result else level_offset level ikey files result
      else
        offset ← offset_in_table f ikey;
        level_offset level ikey files (u64 (result + offset))
  end.

Fixpoint levels_offset (v : Version) (ikey : bytes) (levels : list nat) (result : Z) : M D Z :=
  match levels with
  | [] => mret result
  | level :: levels =>
      result ← level_offset level ikey (level_files v level) result;
      levels_offset v ikey levels result
  end.

Definition ApproximateOffsetOf (v : Version) (ikey : bytes) : M D Z := levels_offset v ikey (seq 0 kNumLevels) 0.

Fixpoint range_sizes (v : Version) (ranges : list (bytes * bytes)) : M D (list Z) :=
  match ranges with
  | [] => mret []
  | (range_start, range_limit) :: ranges =>
      start ← ApproximateOffsetOf v (InternalKey range_start kMaxSequenceNumber kValueTypeForSeek);
      limit ← ApproximateOffsetOf v (InternalKey range_limit kMaxSequenceNumber kValueTypeForSeek);
      sizes ← range_sizes v ranges;
      mret ((if start <=? limit then limit - start else 0) :: sizes)
  end.

(** The version is pinned while the mutex is released. *)
Definition GetApproximateSizes (ranges : list (bytes * bytes)) : M S (list Z) :=
  id ← ref_version;
  _ ← others;
  db ← on_second get_state;
  l ← lift (live_version (db_versions db) id);
  sizes ← on_first (range_sizes (lv_version l) ranges);
  _ ← unref_version id;
  mret sizes.

(** ** Ranges that begin and end between files *)

Context `{!TotalCmp (Compare ucmp)}.

(** The whole file is in front of the key; the key is not inside the file. *)
Definition in_front (ikey : bytes) (f : FileMetaData) : bool := negb (is_gt (icmp (largest f) ikey)).
Definition whole (ikey : bytes) (f : FileMetaData) : Prop := in_front ikey f = true \/ is_gt (icmp (smallest f) ikey) = true.

(** The bytes of the files that satisfy a condition. *)
Definition size_where (p : FileMetaData -> bool) (fs : list FileMetaData) : Z := foldr (fun f n => (if p f then file_size f else 0) + n) 0 fs.
Definition all_files (v : Version) : list FileMetaData := concat (map (level_files v) (seq 0 kNumLevels)).

Abbreviation seek_key k := (InternalKey k kMaxSequenceNumber kValueTypeForSeek).

(** What the size of a range should be: the files behind its start and in front
    of its limit. *)
Definition bytes_between (v : Version) (range : bytes * bytes) : Z :=
  size_where (fun f => negb (in_front (seek_key range.1) f) && in_front (seek_key range.2) f) (all_files v).

Record sized (v : Version) : Prop := {
  sz_sorted : version_sorted ucmp v;
  sz_files : forall f, f ∈ all_files v -> 0 <= file_size f /\ icmp (smallest f) (largest f) <> Gt;
  sz_total : size_where (fun _ => true) (all_files v) < 2 ^ 64
}.

Lemma size_where_app p a b : size_where p (a ++ b) = size_where p a + size_where p b.
Proof. unfold size_where. induction a as [|f a IH]; [done|]. cbn [app foldr]. rewrite IH. lia. Qed.

Lemma size_where_le p fs : (forall f, f ∈ fs -> 0 <= file_size f) -> 0 <= size_where p fs <= size_where (fun _ => true) fs.
Proof.
  unfold size_where. induction fs as [|f fs IH]; intros Hf; [done|]. destruct IH; [intros x Hx; apply Hf; by right|]. pose proof (Hf f ltac:(by left)). cbn [foldr]. destruct (p f); lia.
Qed.

Lemma size_where_none p fs : (forall f, f ∈ fs -> p f = false) -> size_where p fs = 0.
Proof. unfold size_where. induction fs as [|f fs IH]; intros Hf; [done|]. cbn [foldr]. rewrite Hf by (by left). rewrite IH; [done|]. intros x Hx. apply Hf. by right. Qed.

Lemma size_where_split p q fs : (forall f, p f = true -> q f = true) -> size_where q fs = size_where p fs + size_where (fun f => negb (p f) && q f) fs.
Proof.
  intros Hi. unfold size_where. induction fs as [|f fs IH]; [done|]. cbn [foldr]. rewrite IH. specialize (Hi f). destruct (p f), (q f); cbn [negb andb]; first [lia|by discriminate Hi].
Qed.

(** Nothing in front of a key that is in front of the first of sorted files. *)
Lemma behind_none ikey f fs : icmp (smallest f) ikey = Gt -> Forall (fun x => bs_cmp ucmp f x = Lt) fs -> (forall x, x ∈ fs -> 0 <= file_size x /\ icmp (smallest x) (largest x) <> Gt) ->
  size_where (in_front ikey) fs = 0.
Proof.
  intros Hg Hall Hf. apply size_where_none. intros x Hx. rewrite Forall_forall in Hall. specialize (Hall x Hx). destruct (Hf x Hx) as [_ Hle]. apply (cmp_gt_lt icmp) in Hg.
  assert (Hfx : icmp (smallest f) (smallest x) <> Gt) by (unfold bs_cmp in Hall; by destruct (icmp (smallest f) (smallest x))).
  pose proof (cmp_lt_le_trans icmp _ _ _ (cmp_lt_le_trans icmp _ _ _ Hg Hfx) Hle) as Hlt. apply (cmp_gt_lt icmp) in Hlt. unfold in_front. by rewrite Hlt.
Qed.

Lemma level_offset_whole level ikey fs : forall result g, files_sorted ucmp fs -> (forall f, f ∈ fs -> 0 <= file_size f /\ icmp (smallest f) (largest f) <> Gt) ->
  Forall (whole ikey) fs -> 0 <= result -> result + size_where (fun _ => true) fs < 2 ^ 64 ->
  level_offset level ikey fs result g = Some (result + size_where (in_front ikey) fs, g).
Proof.
  induction fs as [|f fs IH]; intros result g Hs Hf Hw H0 Hb; [cbn; by rewrite Z.add_0_r|]. cbn [level_offset]. fold (in_front ikey f).
  inversion Hs as [|? ? Hs' Hall]; subst. inversion Hw as [|? ? Hw1 Hw']; subst. destruct (Hf f ltac:(by left)) as [Hz Hle].
  assert (Hf' : forall x, x ∈ fs -> 0 <= file_size x /\ icmp (smallest x) (largest x) <> Gt) by (intros x Hx; apply Hf; by right).
  pose proof (size_where_le (fun _ => true) fs (fun x Hx => proj1 (Hf' x Hx))) as Htot.
  change (size_where (fun _ => true) (f :: fs)) with (file_size f + size_where (fun _ => true) fs) in Hb.
  change (size_where (in_front ikey) (f :: fs)) with ((if in_front ikey f then file_size f else 0) + size_where (in_front ikey) fs). destruct (in_front ikey f) eqn:Ef.
  - rewrite u64_small by lia. rewrite IH by (try done; lia). do 2 f_equal. lia.
  - destruct Hw1 as [?|Hg]; [congruence|]. rewrite Hg. destruct (0 <? level)%nat; [|apply IH; try done; lia].
    rewrite (behind_none ikey f fs); [by rewrite Z.add_0_r|by destruct (icmp (smallest f) ikey)|done|done].
Qed.

Lemma levels_offset_whole v ikey levels : forall result g, (forall level, level ∈ levels -> (level < kNumLevels)%nat) -> version_sorted ucmp v ->
  let fs := concat (map (level_files v) levels) in (forall f, f ∈ fs -> 0 <= file_size f /\ icmp (smallest f) (largest f) <> Gt) -> Forall (whole ikey) fs ->
  0 <= result -> result + size_where (fun _ => true) fs < 2 ^ 64 ->
  levels_offset v ikey levels result g = Some (result + size_where (in_front ikey) fs, g).
Proof.
  induction levels as [|level levels IH]; intros result g Hl Hs fs Hf Hw H0 Hb; [cbn; by rewrite Z.add_0_r|]. unfold fs in *. clear fs. cbn [map concat levels_offset] in *.
  rewrite size_where_app in Hb. apply Forall_app in Hw as [Hw1 Hw2].
  assert (Hf1 : forall f, f ∈ level_files v level -> 0 <= file_size f /\ icmp (smallest f) (largest f) <> Gt) by (intros f Hin; apply Hf, elem_of_app; by left).
  assert (Hf2 : forall f, f ∈ concat (map (level_files v) levels) -> 0 <= file_size f /\ icmp (smallest f) (largest f) <> Gt) by (intros f Hin; apply Hf, elem_of_app; by right).
  pose proof (size_where_le (in_front ikey) _ (fun x Hx => proj1 (Hf1 x Hx))) as T1. pose proof (size_where_le (fun _ => true) _ (fun x Hx => proj1 (Hf2 x Hx))) as T2.
  destruct (Hs level (Hl level ltac:(by left))) as [Hs1 _].
  rewrite (M_bind_eq _ _ _ _ _ (level_offset_whole level ikey _ result g Hs1 Hf1 Hw1 H0 ltac:(lia))).
  rewrite IH; [|intros l Hin; apply Hl; by right|done|done|done|lia|lia]. rewrite size_where_app. do 2 f_equal. lia.
Qed.

Lemma in_front_mono ka kb f : icmp ka kb <> Gt -> in_front ka f = true -> in_front kb f = true.
Proof.
  unfold in_front. intros Hle Hg. assert (H1 : icmp (largest f) ka <> Gt) by (by destruct (icmp (largest f) ka)). pose proof (cmp_le_trans icmp _ _ _ H1 Hle). by destruct (icmp (largest f) kb).
Qed.

(** Of the files behind the start those in front of the limit. *)
Lemma between_difference ka kb fs : (forall f, f ∈ fs -> 0 <= file_size f) ->
  let a := size_where (in_front ka) fs in let b := size_where (in_front kb) fs in
  (if a <=? b then b - a else 0) = size_where (fun f => negb (in_front ka f) && in_front kb f) fs.
Proof.
  intros Hf a b. destruct (icmp ka kb) eqn:Ec.
  3: { apply (cmp_gt_lt icmp) in Ec. assert (Hm : forall f, in_front kb f = true -> in_front ka f = true) by (intros f; apply in_front_mono; by rewrite Ec).
    pose proof (size_where_split (in_front kb) (in_front ka) fs Hm) as Hs. pose proof (size_where_le (fun f => negb (in_front kb f) && in_front ka f) fs Hf) as H0. fold a b in Hs.
    rewrite size_where_none; [destruct (Z.leb_spec a b); lia|]. intros f _. specialize (Hm f). destruct (in_front ka f), (in_front kb f); first [done|by discriminate Hm]. }
  all: pose proof (size_where_split (in_front ka) (in_front kb) fs ltac:(intros f; apply in_front_mono; by rewrite Ec)) as Hs;
    pose proof (size_where_le (fun f => negb (in_front ka f) && in_front kb f) fs Hf) as H0; fold a b in Hs; destruct (Z.leb_spec a b); lia.
Qed.

Lemma range_sizes_whole v ranges g : sized v -> Forall (fun r => Forall (whole (seek_key r.1)) (all_files v) /\ Forall (whole (seek_key r.2)) (all_files v)) ranges ->
  range_sizes v ranges g = Some (map (bytes_between v) ranges, g).
Proof.
  intros [Hs Hf Ht] Hr. assert (Hoff : forall k, Forall (whole (seek_key k)) (all_files v) -> ApproximateOffsetOf v (seek_key k) g = Some (size_where (in_front (seek_key k)) (all_files v), g)).
  { intros k Hw. unfold ApproximateOffsetOf. rewrite levels_offset_whole; [done|intros l Hl%elem_of_seq; lia|done|done|done|lia|done]. }
  induction Hr as [|[a b] ranges [Ha Hb] _ IH]; [done|]. cbn [range_sizes map fst snd] in *.
  rewrite (M_bind_eq _ _ _ _ _ (Hoff a Ha)), (M_bind_eq _ _ _ _ _ (Hoff b Hb)), (M_bind_eq _ _ _ _ _ IH). unfold bytes_between. cbn [fst snd].
  by rewrite <- (between_difference _ _ _ (fun f Hin => proj1 (Hf f Hin))).
Qed.

(** C38. [GetApproximateSizes] of ranges that begin and end between files, while
    no other thread interferes: the sizes are exactly those of the files behind
    the start and in front of the limit, although the scan of a sorted level
    stops at the first file behind the key; no table is opened, and the database
    and the version it pinned are left as they were. *)
Theorem sizes_of_whole_files ranges d db : others = mret () -> 1 <= vs_current_refs (db_versions db) -> sized (vs_current (db_versions db)) ->
  Forall (fun r => Forall (whole (seek_key r.1)) (all_files (vs_current (db_versions db))) /\ Forall (whole (seek_key r.2)) (all_files (vs_current (db_versions db)))) ranges ->
  GetApproximateSizes ranges (d, db) = Some (map (bytes_between (vs_current (db_versions db))) ranges, (d, db)).
Proof.
  intros Ho Hrefs Hs Hr. set (vs := db_versions db) in *. set (vs1 := set_live (vs_current vs) (vs_current_refs vs + 1) (vs_old vs) vs).
  assert (Eref : ref_version (d, db) = Some (vs_current_id vs, (d, db_set_versions vs1 db))) by (unfold ref_version, on_second, get_state, mbind, M_bind, lift, version_Ref, live_version; cbn [fst snd]; fold vs; rewrite Nat.eqb_refl; done).
  assert (El : live_version vs1 (vs_current_id vs) = Some (mkLive (vs_current_id vs) (vs_current_refs vs + 1) (vs_current vs))) by (unfold live_version, vs1; cbn; by rewrite Nat.eqb_refl).
  assert (Eun : unref_version (vs_current_id vs) (d, db_set_versions vs1 db) = Some ((), (d, db))).
  { unfold unref_version, on_second, get_state, put_state, mbind, M_bind, lift, version_Unref. cbn [fst snd db_versions db_set_versions]. rewrite El. cbn [mbind option_bind lv_refs]. unfold vs1 at 1. cbn [vs_current_id set_live]. rewrite Nat.eqb_refl.
    rewrite (proj2 (Z.leb_gt _ _)) by lia. do 3 f_equal. unfold vs1, set_live, db_set_versions. cbn. replace (vs_current_refs vs + 1 - 1) with (vs_current_refs vs) by lia. unfold vs. by destruct db as [? ? ? ? ? ? ? ? ? ? [] ? ?]. }
  unfold GetApproximateSizes. rewrite Ho. eapply bind_run; [exact Eref|]. eapply bind_run; [reflexivity|]. eapply bind_run; [reflexivity|].
  eapply bind_run; [unfold lift; cbn [snd db_versions db_set_versions]; rewrite El; reflexivity|]. eapply bind_run; [unfold on_first; cbn [fst snd lv_version]; rewrite range_sizes_whole by done; reflexivity|].
  eapply bind_run; [exact Eun|]. done.
Qed.

End Sizes.

(** ** Example *)

(** The version of two edits has one table with the keys from a to c. *)
Definition sized_db : DBImpl := mkDB false (new_MemTable (fun _ => 0)) None 0 0 [] new_SnapshotList ∅ false None sample_two.1 Status_OK [].

Lemma sized_db_ok : sized new_Options (vs_current (db_versions sized_db)).
Proof.
  split.
  - each_level; (split; [repeat (apply SSorted_cons; [|constructor]); constructor|by right]).
  - intros f Hf. apply list_elem_of_In in Hf as [<-|[]]. vm_compute. split; discriminate.
  - vm_compute. reflexivity.
Qed.

Lemma sizes_of_whole_files_witness :
  GetApproximateSizes MemSystem new_Options (lit "/db") (mret ()) [(lit "A", lit "z"); (lit "d", lit "z")] (([], mkCaches None ([], 0)), sized_db)
  = Some ([900; 0], (([], mkCaches None ([], 0)), sized_db)).
Proof.
  apply (sizes_of_whole_files MemSystem new_Options (lit "/db") (mret ()) [(lit "A", lit "z"); (lit "d", lit "z")] ([], mkCaches None ([], 0)) sized_db).
  - reflexivity.
  - vm_compute. discriminate.
  - exact sized_db_ok.
  - apply Forall_forall. intros r Hr. apply list_elem_of_In in Hr as [<-|[<-|[]]]; (split; apply Forall_forall; intros f Hf; apply list_elem_of_In in Hf as [<-|[]]; first [left; vm_compute; reflexivity|right; vm_compute; reflexivity]).
Defined.
